(* ===== verification/_CoqProject ===== *)
-Q . S2P
Prelude.v
DecimalText.v
Json.v
Utf8.v
CanonicalJson.v
Sha256.v
Paths.v
FrameIo.v
FsPath.v
Deadline.v
InviteLink.v
Operation.v
DestructivePlan.v
DestructivePlanFacts.v
LocalSelector.v
Fingerprint.v
FingerprintFacts.v
M6Domain.v
M6Audit.v
AuditSchema.v
AuditSchemaFacts.v
AuditLog.v
IdempotencyStore.v
IdempotencyFile.v
AuditSamples.v
AuditLogFacts.v
AuditRecovery.v
Effects.v
SpoolInventory.v
Reconciliation.v
WriteKernel.v
IdempotencyFacts.v
IdempotencyFileFacts.v
ReconciliationFacts.v
StoreAgreement.v
GateFacts.v
WriteKernelLogic.v
WriteKernelFacts.v
WriteKernelResults.v
WriteKernelSamples.v
Frame.v
FrameFacts.v
ActivityTracker.v
ResponseSink.v
RequestSession.v
RequestSessionFacts.v
Dispatch.v
Interleaving.v
StreamIngress.v
StreamIngressFacts.v
StreamPublisher.v
StreamWorker.v
StreamDelivery.v
StreamClaims.v
StreamPoll.v
SingleSend.v
SingleSendFacts.v
SingleSendOrder.v
Forward.v
ForwardFacts.v
ForwardClaims.v
DestructiveContract.v
RemovalJournal.v
RemovalCodec.v
AccountRemoval.v
RemovalWorld.v
RemovalInvariant.v
RemovalLogic.v
RemovalSteps.v
RemovalClaims.v
RemovalSamples.v
