(* ===== verification/Prelude.v ===== *)
(** * Verification of tgcli

    tgcli is a Telegram client split into a command-line client and one daemon
    per account.  The client sends one JSON line per request over a Unix socket;
    the daemon admits it, runs the command's handler in a session, and answers
    with item, progress and challenge lines and one terminal line.  Anything
    irreversible passes a static tier gate and is confirmed against an exact
    plan.  A mutation runs under the write kernel, which writes every step ahead
    to an audit log and, for a request with an idempotency key, to a store of
    entries, so that a crash can be recovered and a retry replayed.  Before a
    request is admitted, a gate brings log, store and attachment spool back into
    agreement.  This library models the parts that carry these guarantees, as
    executable definitions translated from the C++ sources under src/src, and
    proves the properties listed below.

    ** Files and what they model

    - [Prelude] (this file): notations, the result type of fallible code, the
      tactics and the hint database [tg], fixed-width integers, strings and
      byte lemmas, decidable equality and enumeration classes.
    - [DecimalText], [Json], [FsPath]: what the sources use of the C++ library:
      [std::to_string] and [std::from_chars], the value tree of nlohmann::json
      with its accessors and comparisons, and the lexical operations of
      std::filesystem::path.
    - [Utf8]: common/utf8.hpp.  [CanonicalJson]: common/canonical_json.cpp.
      [Sha256]: common/sha256.cpp.
    - [Paths]: common/paths.cpp, account names, derived paths and the socket
      endpoint checks, over an abstract file system.
    - [Deadline]: common/deadline.hpp, floating-point timeouts to clock ticks.
    - [InviteLink]: common/invite_link.hpp.
    - [Operation]: proto/operation.hpp, daemon/m6_write_policy.cpp,
      daemon/write_operation.cpp and the operation names of
      daemon/account_audit.cpp.
    - [DestructivePlan], [DestructivePlanFacts]: proto/destructive_plan.cpp, the
      six kinds of plan with their validators, parsers and serializers.
    - [FrameIo]: common/frame_budget.hpp and proto/frame_io.cpp, lines over a
      socket.  [Frame], [FrameFacts]: proto/frame.cpp, the frames, their
      validation, admission, serialization and parsing.
    - [LocalSelector]: daemon/local_selector.cpp, what a chat selector denotes.
    - [Fingerprint], [FingerprintFacts]: daemon/request_fingerprint.cpp, the
      hash by which a repeated request is recognised.
    - [M6Domain]: daemon/m6_domain.cpp, canonical names and descriptions.
      [M6Audit]: daemon/m6_audit_contract.cpp.
    - [AuditSchema], [AuditSchemaFacts]: the record schema of
      daemon/account_audit.cpp (plans, arguments, results, stored errors) with
      the checks of daemon/file_spool.cpp it uses.  [AuditLog], [AuditLogFacts]:
      the records, the state machine of a group of records, completed views and
      the classification for recovery.  [AuditRecovery]: the records that
      daemon/idempotency_reconciliation.cpp appends to a group left open.
      [AuditSamples]: concrete records for the witnesses.
    - [IdempotencyStore], [IdempotencyFacts]: the snapshot of
      daemon/idempotency_store.cpp, its codec, limits and entry transitions.
      [IdempotencyFile], [IdempotencyFileFacts]: the operations on the file, over
      a file system in which any call can fail, the process can stop anywhere,
      and a crash keeps only what was synced: contents by the sync of their file,
      names by the sync of the directory.
    - [Effects]: programs over the effects they make, with returns and
      exceptions, their executions and the logic to reason about them.
    - [SpoolInventory]: the inventory of daemon/file_spool.cpp.
      [Reconciliation]: daemon/idempotency_reconciliation.cpp, the relations
      between log, store and spool and the gates, as programs over effects.
      [StoreAgreement]: when the three agree, stated without the gate's
      checks.  [ReconciliationFacts], [GateFacts]: the theorems.
    - [WriteKernel]: daemon/write_kernel.cpp and daemon/write_contract.cpp.
      [WriteKernel::run] is a program over its hooks, the log, the store, the
      spool and the clock.  [WriteKernelLogic]: the logic of its executions.
      [WriteKernelFacts], [WriteKernelResults]:
      the theorems.  [WriteKernelSamples]: executions for the witnesses.
    - [ActivityTracker]: daemon/activity_tracker.cpp, the idle-exit tracker.
    - [ResponseSink]: the class ResponseSink of daemon/dispatch.cpp, where a
      request's frames go.  The virtual methods are the type class [Derived];
      a transport and a session are two instances of it.
    - [RequestSession], [RequestSessionFacts]: daemon/request_session.cpp, the
      state machine of one request: challenges and answers, cancellation,
      terminal arbitration, in-flight queries, stream activation.
    - [Dispatch]: daemon/dispatch.cpp, static command policy, registration gate
      and dispatch, on top of sessions.
    - [Interleaving]: threads as programs of atomic steps on a shared store, the
      machine that interleaves them and a rely-guarantee logic for it.
    - [StreamIngress]: one published slot of daemon/stream_ingress.cpp (filter,
      rings of descriptors and bytes, terminal claims) and the worker of
      daemon/stream_subscription.cpp that empties it, access by access.
      [StreamIngressFacts]: the invariant of the ring.  [StreamPublisher],
      [StreamWorker]: each side respects it.  [StreamDelivery], [StreamClaims]:
      the theorems.  [StreamPoll]: the class StreamPollSchedule.
    - [SingleSend]: daemon/single_send.cpp and daemon/rate_limit.cpp, how one
      message is submitted to TDLib and what became of it.  [SingleSendFacts]:
      its claims are justified.  [SingleSendOrder]: the first event decides.
    - [Forward], [ForwardFacts], [ForwardClaims]: daemon/forward.cpp, how several
      messages are forwarded at once and what became of each.
    - [DestructiveContract]: daemon/destructive_contract.cpp, the authority, the
      stages and the records of logout and account removal.  [RemovalJournal]:
      daemon/removal_journal.cpp and daemon/removal_recovery.cpp, tombstones, the
      scan of the log and the recovery table.  [RemovalCodec]: tombstones are
      read back as written.  [AccountRemoval]: daemon/removal_planner.cpp and
      daemon/account_removal.cpp, a program over its effects.  [RemovalWorld]:
      what the effects do to journal, configuration and directories, and when
      they may be made.  [RemovalInvariant], [RemovalLogic], [RemovalSteps]: the
      invariant of that world, a logic of interrupted executions and what each
      piece ensures.  [RemovalClaims]: the theorems.  [RemovalSamples]:
      executions for the witnesses.

    State is a record with the members of the C++ class, an operation is a
    function on it with the source's guards and early returns, errors are
    values ([result], [failure] where a function reports some errors and throws
    others), and the clock reading or the system calls an operation makes are
    its arguments.  Operations guarded by a mutex are the steps of an
    execution; theorems about executions quantify over every sequence of steps,
    hence over every interleaving of the threads at that granularity.

    ** What the theorems show

    - Write kernel: for every execution, Telegram is asked to mutate at most
      once and only after the authorised intent, the pending entry and the
      dispatch checkpoint are durable; the intent is written only after gate,
      confirmation, grant, principal and permit, and until then only the gate
      writes anything; from the intent on every failure is fatal but that of the
      clean-up; a completed result is the one recorded in the log, and the store
      removes, completes or keeps the pending entry accordingly; a replay is the
      stored result and writes nothing after its gate.
    - Single send: when a send returns, the request was submitted at most once and
      a confirmed or denied mutation rests on what Telegram reported for exactly
      this message; and for every schedule of wake-ups and every history of
      events in which the authorization is not lost between an update of the
      message and the response that names it (then the code may report either),
      the outcome is that of the first decisive event.
    - Forward: every message is reported in the state that Telegram's answers and
      updates for exactly this message justify, reports only advance, and the
      call returns.
    - Account removal: over every sequence of attempts, with any effect failing
      and the process stopping anywhere, logout, closing of the client, change of
      the configuration and the two deletions keep their order; success is
      recorded and reported only when all is removed; its loop returns within four
      turns; and recovery knows how to go on except when the replacement of the
      configuration was rolled back.  The recovery table compares the identity of
      the whole configuration file ([other_identity_blocks_removal]).
    - Audit log: the accepted records are complete groups and one open group;
      the flags of an open group say exactly which stages are durable; an
      outcome claims no mutation, or success, only when the group proves it; and
      the outcome that recovery builds for a group a crash left open is accepted
      exactly when it is within the byte ceilings (not shown: a forward whose
      complete vector still lacks its mutation proof).
    - Idempotency store: a snapshot is sorted, bounded and read back as
      written; completion always fits the space reserved for it; binary search
      finds what a linear search finds; a completed entry is final; the file is
      replaced atomically and durably, also across a crash of the machine, and
      insertion, completion and sweep on the file do what they do to the list of
      entries, and nothing else when they fail.
    - Gate: it reports a clean core only when log, store and spool agree
      ([agree]) and the group a crash left open is closed; reconciliation is an idempotent map over
      the entries of the store; and a spool file is deleted only when nothing can
      need it.
    - Protocol: a frame that was serialized is parsed back to itself, or refused
      when it does not satisfy what only the receiver checks; the lines that were
      written, and no part of one whose write failed, are read on the other side,
      whatever pieces the kernel takes and delivers them in; a parsed request is
      well formed and immutable after admission; the size budget of a result is
      exact; a malformed answer is recovered for its session.
    - Sessions: a challenge is answered at most once and a repeated answer is
      harmless, an answer is accepted exactly when it carries the identity of
      the challenge in progress, a terminated session stays terminated, the
      audited terminal event is the earliest cause and final, and the client
      sees one terminal frame.
    - Dispatch: no write or destructive command can be registered below its
      tier, [dispatch] runs the handlers of the permitted commands and of no
      other, and every request that the preflight lets pass is answered.
    - Plans: plans round-trip, an account removal deletes two disjoint
      directories that do not contain its configuration (for paths without a
      trailing separator: with one the check can be passed, which is proved too),
      message deletions are sorted, bounded and consistent with the chat type.
    - Idle exit: the tracker's counters are its live tokens, and it expires
      neither early, nor with activity, nor twice, and it does expire.
    - Identities and hashing: canonical JSON identifies documents, a request
      fingerprint is the hash of bytes that identify account, principal,
      operation and arguments up to the spelling of selectors, the streaming
      hash computes SHA-256 however its input is split, domain separation is
      injective, operation tables are bijective and classified consistently.
    - Streams: for every interleaving of the receiving thread, the worker and
      the threads that claim a terminal, the worker receives the items that match
      its filter, in order, without loss and byte for byte, and the block copies
      never race; the terminal cause is claimed once and seen with its payload;
      polls neither drift nor overflow ([poll_schedule_exact]).
    - Numbers and text: UTF-8 validation is exact, timeouts are rounded up
      exactly and never overflow the clock, endpoint paths fit and are disjoint
      across accounts.

    ** Parameters, bounds and fuel

    The JSON text parser and printer ([json_parse], [json_dump]) and
    [strerror] are third-party: they are parameters, and the theorems that need
    them state what they rely on (printing is read back, compactly, members in
    order).  System calls are scripts of results; a script that ends where the
    code would block gives [None], and the theorems say what the code returns
    for every script that suffices.  Fuel: the UTF-8 loop gets the length of
    its input, which every iteration shortens; the digit loop gets 20, the
    digits of a 64-bit number; the hash loop gets the length of its input; each
    is proved to be enough.  The stack of the tree validator gets one step per
    value up to its node limit, the write loop of the store one per byte left;
    a file system for the store is a map from inodes with two names, and its
    theorems assume that nobody else touches them meanwhile ([undisturbed]: the
    daemon holds the account's lock), and that a name that a crash may leave
    denotes a file ([linked]).  The gate is assumed to read a canonical snapshot
    from a clean inspection and groups of distinct invocations from a scan
    ([sound_reads]).  Sessions count challenges with 64 bits: the
    theorems about executions assume fewer operations than sequence numbers.
    The ring is modelled between the activation of its slot and its reclamation;
    an atomic access is one step and steps are sequentially consistent, the
    compare-exchange loop of a claim is one step, and a block copy is one step,
    which the absence of races justifies.  The world of account removal changes
    only by the effects of its attempts while one is under way: nobody else edits
    the configuration, the journal or the two directories, a replacement of the
    configuration is committed, undone, or rolled back to the old text under
    another identity, and the remote side asks for the checkpoints of a remote
    logout only; its loop gets four turns, which is proved to be enough.  The scan
    of the audit log is that of one segment, whose generation all its records have;
    matching the pins of the store is modelled apart from it ([match_pin]), and
    refusing an invocation that an earlier segment has is not modelled.

    ** What is not modelled

    Wiping of secrets, memory and object lifetime, thread scheduling below the
    granularity of a critical section, TDLib and its glue, the server's sockets
    and threads and the command line: effects that these models do not observe.
    The configuration file, which a third-party library reads and writes; the
    segments of the audit log and the directory of the removal journal on disk
    with their locks and rotation, the deletion of directories: system calls,
    which are effects of the modelled programs.  Of streams, the reservation,
    activation and reclamation of slots, the event model and its storage.  The
    registries of pending queries and cancellation tokens, whose effect on a
    request is the modelled session.  Reading commands and their cursors, and the
    argument checks of the write commands. *)
From Stdlib Require Export Bool List String Ascii ZArith Lia.
Export ListNotations.

(** * Notations *)

Declare Scope tg_scope.
Delimit Scope tg_scope with tg.
Open Scope list_scope.
Open Scope Z_scope.
Open Scope tg_scope.

(** String literals without a scope annotation, and concatenation apart from
    that of lists. *)
String Notation string
  String.string_of_list_byte String.list_byte_of_string : tg_scope.
Infix "+++" := String.append (at level 60, right associativity) : tg_scope.

(** * Results

    Fallible code of the sources returns [std::optional] and stores a message
    through a [std::string& error] out-parameter, or throws.  Both become a
    value of [result]: the payload, or the message that was stored. *)

Inductive result (E A : Type) : Type :=
| Ok (a : A)
| Err (e : E).
Arguments Ok {E A} a.
Arguments Err {E A} e.

Definition bind {E A B} (r : result E A) (k : A -> result E B) : result E B :=
  match r with
  | Ok a => k a
  | Err e => Err e
  end.

Definition of_option {E A} (e : E) (o : option A) : result E A :=
  match o with
  | Some a => Ok a
  | None => Err e
  end.

(** [check b e] is the guard [if (!b) { error = e; return nullopt; }]. *)
Definition check {E} (b : bool) (e : E) : result E unit :=
  if b then Ok tt else Err e.

Definition is_ok {E A} (r : result E A) : bool :=
  match r with Ok _ => true | Err _ => false end.

(** The successful value transformed. *)
Definition rmap {E A B} (f : A -> B) (r : result E A) : result E B :=
  match r with Ok a => Ok (f a) | Err e => Err e end.

(** Code that both reports a message and can throw. *)
Inductive failure := Rejected (error : string) | Thrown.

Definition reported {A} (r : result string A) : result failure A :=
  match r with Ok a => Ok a | Err e => Err (Rejected e) end.

Notation "x <- a ;; b" := (bind a (fun x => b))
  (at level 61, a at next level, right associativity) : tg_scope.
Notation "' p <- a ;; b" := (bind a (fun x => match x with p => b end))
  (at level 61, p pattern, a at next level, right associativity) : tg_scope.
Notation "a ;;; b" := (bind a (fun _ => b))
  (at level 61, right associativity) : tg_scope.

(** * Tactics *)

(** Splits boolean conjunctions in hypotheses and goals. *)
Ltac bool_split :=
  repeat match goal with
  | H : (_ && _)%bool = true |- _ => apply andb_prop in H; destruct H
  | H : negb _ = true |- _ => apply negb_true_iff in H
  | H : negb _ = false |- _ => apply negb_false_iff in H
  | H : (_ || _)%bool = false |- _ => apply orb_false_iff in H; destruct H
  | |- (_ && _)%bool = true => apply andb_true_intro; split
  end.

(** Replaces boolean terms of the goal by their known values. *)
Ltac rewrite_bools :=
  repeat match goal with
  | H : ?b = true |- context [?b] => rewrite H
  | H : ?b = false |- context [?b] => rewrite H
  end.

(** Turns boolean comparisons on [Z] into propositions. *)
Ltac z_bool :=
  repeat match goal with
  | H : (_ <=? _) = true |- _ => apply Z.leb_le in H
  | H : (_ <=? _) = false |- _ => apply Z.leb_gt in H
  | H : (_ <? _) = true |- _ => apply Z.ltb_lt in H
  | H : (_ <? _) = false |- _ => apply Z.ltb_ge in H
  | H : (_ =? _) = true |- _ => apply Z.eqb_eq in H
  | H : (_ =? _) = false |- _ => apply Z.eqb_neq in H
  end.

(** Turns boolean equalities on strings into propositions. *)
Ltac str_bool :=
  repeat match goal with
  | H : String.eqb _ _ = true |- _ => apply String.eqb_eq in H
  | H : String.eqb _ _ = false |- _ => apply String.eqb_neq in H
  end.

(** Case analysis on the first [match] or [if] scrutinee of a hypothesis. *)
Ltac step_in H :=
  match type of H with
  | context [match ?x with _ => _ end] =>
      first [ is_var x; destruct x | destruct x eqn:? ]
  end.

(** The same on the goal. *)
Ltac step_goal :=
  match goal with
  | |- context [match ?x with _ => _ end] =>
      first [ is_var x; destruct x | destruct x eqn:? ]
  end.

(** Inverts [bind r k = Ok v]. *)
Ltac inv_bind H :=
  match type of H with
  | bind ?r _ = Ok _ =>
      let E := fresh "E" in
      destruct r eqn:E; cbn [bind] in H; [| discriminate H]
  end.

Create HintDb tg.
#[export] Hint Resolve andb_prop : tg.

(** ** Lemmas on results *)

Lemma reported_ok {A} (r : result string A) a : reported r = Ok a <-> r = Ok a.
Proof. destruct r; cbn; split; congruence. Qed.

Lemma rmap_ok {E A B} (f : A -> B) (r : result E A) b :
  rmap f r = Ok b -> exists a, r = Ok a /\ b = f a.
Proof. destruct r; cbn; intros H; inversion H; eauto. Qed.

Lemma ok_inj {E A} (a b : A) : @Ok E A a = Ok b -> a = b.
Proof. congruence. Qed.

Lemma check_ok {E} b (e : E) u : check b e = Ok u -> b = true.
Proof. destruct b; [reflexivity | discriminate]. Qed.

Lemma check_seq {E B} b (e : E) (k : result E B) v :
  (check b e ;;; k) = Ok v <-> b = true /\ k = Ok v.
Proof. destruct b; cbn; split; [tauto | tauto | discriminate | intros [? _]; discriminate]. Qed.

Lemma negb_true b : negb b = true <-> b = false.
Proof. destruct b; cbn; split; congruence. Qed.

(** * Machine integers

    Integers are [Z]; conversions between widths are written out. *)

Definition u64_max : Z := 18446744073709551615.
Definition i64_max : Z := 9223372036854775807.
Definition i64_min : Z := -9223372036854775808.
Definition i32_max : Z := 2147483647.
Definition i32_min : Z := -2147483648.

Definition u64 (z : Z) : Z := z mod 18446744073709551616.
Definition u32 (z : Z) : Z := z mod 4294967296.
Definition u8 (z : Z) : Z := z mod 256.

(** [static_cast<std::int64_t>] of a 64-bit value: two's complement. *)
Definition i64_of (z : Z) : Z :=
  let r := u64 z in
  if r <=? i64_max then r else r - 18446744073709551616.

Lemma u64_range z : 0 <= u64 z <= u64_max.
Proof. unfold u64, u64_max. pose proof (Z.mod_pos_bound z 18446744073709551616). lia. Qed.

Lemma u64_small z : 0 <= z <= u64_max -> u64 z = z.
Proof. intros. unfold u64, u64_max in *. apply Z.mod_small. lia. Qed.

Lemma i64_of_small z : i64_min <= z <= i64_max -> i64_of z = z.
Proof.
  unfold i64_of, i64_min, i64_max, u64. intros.
  destruct (Z_le_gt_dec 0 z).
  - rewrite Z.mod_small by lia. destruct (_ <=? _) eqn:?; z_bool; lia.
  - rewrite <- (Z_mod_plus_full z 1), Z.mod_small by lia.
    destruct (_ <=? _) eqn:?; z_bool; lia.
Qed.

#[export] Hint Resolve u64_range u64_small i64_of_small : tg.

(** * Bytes and strings

    A [std::string] is a Rocq [string]: a sequence of eight-bit characters. *)

Definition byte_of (c : ascii) : Z := Z.of_N (N_of_ascii c).
Definition ascii_of_Z (z : Z) : ascii := ascii_of_N (Z.to_N z).

Definition bytes_of (s : string) : list Z := map byte_of (list_ascii_of_string s).

Definition str_len (s : string) : Z := Z.of_nat (String.length s).

(** [lo <= c && c <= hi] on characters. *)
Definition in_range (lo hi c : ascii) : bool :=
  (byte_of lo <=? byte_of c) && (byte_of c <=? byte_of hi).

Definition is_digit (c : ascii) : bool := in_range "0" "9" c.
Definition is_upper (c : ascii) : bool := in_range "A" "Z" c.
Definition is_lower (c : ascii) : bool := in_range "a" "z" c.
Definition is_alpha (c : ascii) : bool := is_upper c || is_lower c.
Definition is_alnum (c : ascii) : bool := is_upper c || is_lower c || is_digit c.
Definition is_lower_hex (c : ascii) : bool := is_digit c || in_range "a" "f" c.

Definition str_empty (s : string) : bool :=
  match s with EmptyString => true | _ => false end.

(** [std::ranges::all_of] over the characters of a string. *)
Fixpoint str_all (p : ascii -> bool) (s : string) : bool :=
  match s with
  | EmptyString => true
  | String c s' => p c && str_all p s'
  end.

(** [std::string_view::starts_with]. *)
Definition starts_with (s p : string) : bool := String.prefix p s.

(** [remove_prefix n] / [substr(n)]. *)
Fixpoint str_drop (n : nat) (s : string) : string :=
  match n, s with
  | O, _ => s
  | S n', String _ s' => str_drop n' s'
  | S _, EmptyString => EmptyString
  end.

(** [substr(0, n)]. *)
Fixpoint str_take (n : nat) (s : string) : string :=
  match n, s with
  | S n', String c s' => String c (str_take n' s')
  | _, _ => EmptyString
  end.

(** [find(c)]: the position of the first occurrence, [None] for [npos]. *)
Fixpoint str_find (c : ascii) (s : string) : option nat :=
  match s with
  | EmptyString => None
  | String d s' =>
      if Ascii.eqb c d then Some O
      else match str_find c s' with Some n => Some (S n) | None => None end
  end.

Definition str_contains (c : ascii) (s : string) : bool :=
  match str_find c s with Some _ => true | None => false end.

Definition nul : ascii := "000"%char.
Definition newline : ascii := "010"%char.
Definition dquote : ascii := "034"%char.
Definition backslash : ascii := "092"%char.

Definition str1 (c : ascii) : string := String c EmptyString.

(** Membership in a table of names ([std::ranges::find] over an array). *)
Definition str_in (s : string) (l : list string) : bool := existsb (String.eqb s) l.

(** ** Lemmas on strings *)

Lemma str_app_assoc (a b c : string) : ((a ++ b) ++ c = a ++ (b ++ c))%string.
Proof. induction a; cbn; congruence. Qed.

Lemma str_app_nil_r (a : string) : (a ++ "" = a)%string.
Proof. induction a; cbn; congruence. Qed.

Lemma str_length_app (a b : string) :
  String.length (a ++ b) = (String.length a + String.length b)%nat.
Proof. induction a; cbn; congruence. Qed.

Lemma str_len_app (a b : string) : str_len (a ++ b) = str_len a + str_len b.
Proof. unfold str_len. rewrite str_length_app. lia. Qed.

Lemma str_len_nonneg s : 0 <= str_len s.
Proof. unfold str_len. lia. Qed.

Lemma str_app_inj_l (a b c : string) : (a ++ b = a ++ c)%string -> b = c.
Proof. induction a; cbn; intros H; [exact H | injection H; auto]. Qed.

Lemma str_take_drop n s : (str_take n s ++ str_drop n s = s)%string.
Proof. revert s; induction n; destruct s; cbn; f_equal; auto. Qed.

Lemma str_drop_app (p s : string) : str_drop (String.length p) (p ++ s) = s.
Proof. induction p; cbn; auto. Qed.

Lemma str_take_app (p s : string) : str_take (String.length p) (p ++ s) = p.
Proof. induction p; cbn; [destruct s|]; congruence. Qed.

Lemma starts_with_app p s : starts_with (p ++ s) p = true.
Proof.
  unfold starts_with. induction p; cbn; [destruct s; reflexivity|].
  destruct (ascii_dec a a); congruence.
Qed.

Lemma starts_with_spec p s : starts_with s p = true <-> exists r, s = (p ++ r)%string.
Proof.
  split.
  - unfold starts_with. revert s. induction p; cbn; intros s H; [eexists; reflexivity|].
    destruct s as [|c s]; [discriminate H|]. cbn in H. destruct (ascii_dec a c); [|discriminate H].
    destruct (IHp _ H) as [r ->]. subst. eexists; reflexivity.
  - intros [r ->]. apply starts_with_app.
Qed.

Lemma str_all_app p a b : str_all p (a ++ b) = str_all p a && str_all p b.
Proof. induction a; cbn; [reflexivity|]. rewrite IHa. apply andb_assoc. Qed.

Lemma str_all_impl p q s :
  (forall c, p c = true -> q c = true) -> str_all p s = true -> str_all q s = true.
Proof. intros Hpq. induction s; cbn; [auto|]. intros H. bool_split; auto. Qed.

Lemma str_find_none c s : str_find c s = None <-> str_all (fun d => negb (Ascii.eqb c d)) s = true.
Proof.
  induction s; cbn; [tauto|].
  destruct (Ascii.eqb c a); cbn; [split; discriminate|].
  rewrite <- IHs. destruct (str_find c s); split; congruence.
Qed.

Lemma str_find_some c s n :
  str_find c s = Some n ->
  s = (str_take n s ++ String c (str_drop (S n) s))%string /\
  str_find c (str_take n s) = None.
Proof.
  revert n. induction s; cbn; intros n H; [discriminate|].
  destruct (Ascii.eqb c a) eqn:E.
  - injection H as <-. apply Ascii.eqb_eq in E as <-. cbn. auto.
  - destruct (str_find c s); [|discriminate]. injection H as <-.
    destruct (IHs _ eq_refl) as [Hs Hn]. cbn. rewrite E, Hn. split; [|reflexivity].
    f_equal. exact Hs.
Qed.

Lemma str_find_app c a b :
  str_find c a = None ->
  str_find c (a ++ String c b) = Some (String.length a).
Proof.
  induction a; cbn; intros H; [rewrite Ascii.eqb_refl; reflexivity|].
  destruct (Ascii.eqb c a); [discriminate|].
  destruct (str_find c a0); [discriminate|]. rewrite IHa by reflexivity. reflexivity.
Qed.

Lemma str_find_app_l c a b n :
  str_find c a = Some n -> str_find c (a ++ b) = Some n.
Proof.
  revert n. induction a as [|d a IH]; cbn; intros n H; [discriminate|].
  destruct (Ascii.eqb c d); [exact H|].
  destruct (str_find c a); [|discriminate]. now rewrite (IH _ eq_refl).
Qed.

Lemma str_find_app_r c a b :
  str_find c a = None ->
  str_find c (a ++ b) = option_map (Nat.add (String.length a)) (str_find c b).
Proof.
  induction a as [|d a IH]; cbn; intros H; [now destruct (str_find c b)|].
  destruct (Ascii.eqb c d); [discriminate|]. destruct (str_find c a); [discriminate|].
  rewrite IH by reflexivity. now destruct (str_find c b).
Qed.

Lemma str_find_length c s n : str_find c s = Some n -> (n < String.length s)%nat.
Proof.
  revert n. induction s as [|d s IH]; cbn; intros n H; [discriminate|].
  destruct (Ascii.eqb c d); [injection H as <-; lia|].
  destruct (str_find c s); [|discriminate]. injection H as <-. specialize (IH _ eq_refl). lia.
Qed.

Lemma str_take_app_l n a b :
  (n <= String.length a)%nat -> str_take n (a ++ b) = str_take n a.
Proof.
  revert a. induction n as [|n IH]; intros [|c a] H; cbn in *; try reflexivity; try lia.
  rewrite IH by lia. reflexivity.
Qed.

Lemma str_drop_app_l n a b :
  (n <= String.length a)%nat -> str_drop n (a ++ b) = (str_drop n a ++ b)%string.
Proof.
  revert a. induction n as [|n IH]; intros [|c a] H; cbn in *; try reflexivity; try lia.
  apply IH. lia.
Qed.

Lemma str_drop_length n s : String.length (str_drop n s) = (String.length s - n)%nat.
Proof. revert s. induction n; intros [|c s]; cbn; auto. Qed.

Lemma str_take_length n s : String.length (str_take n s) = Nat.min n (String.length s).
Proof. revert s. induction n; intros [|c s]; cbn; auto. Qed.

Lemma str_drop_drop m n s : str_drop m (str_drop n s) = str_drop (n + m) s.
Proof. revert s. induction n; intros [|c s]; cbn; auto. destruct m; reflexivity. Qed.

Lemma str_take_take_drop m n s : (str_take n s ++ str_take m (str_drop n s))%string = str_take (n + m) s.
Proof.
  revert s. induction n; intros [|c s]; cbn; auto. - destruct m; reflexivity. - f_equal. auto.
Qed.

Lemma str_take_all n s : (String.length s <= n)%nat -> str_take n s = s.
Proof. revert s. induction n; intros [|c s]; cbn; intros H; try lia; auto. f_equal. apply IHn. lia. Qed.

Lemma str_drop_all n s : (String.length s <= n)%nat -> str_drop n s = EmptyString.
Proof. revert s. induction n; intros [|c s]; cbn; intros H; try lia; auto. apply IHn. lia. Qed.

Lemma str_empty_true s : str_empty s = true <-> s = EmptyString.
Proof. destruct s; cbn; split; congruence. Qed.

(** A string is cut at its first [c] in one way. *)
Lemma str_split_unique c a b r r' :
  str_find c a = None -> str_find c b = None ->
  (a ++ String c r = b ++ String c r')%string -> a = b /\ r = r'.
Proof.
  intros Ha Hb E. assert (L : String.length a = String.length b).
  { pose proof (str_find_app c a r Ha) as Fa. rewrite E, (str_find_app c b r' Hb) in Fa.
    congruence. }
  assert (a = b) as ->.
  { rewrite <- (str_take_app a (String c r)), E, L. apply str_take_app. }
  apply str_app_inj_l in E. injection E. auto.
Qed.

Lemma byte_of_range c : 0 <= byte_of c < 256.
Proof.
  unfold byte_of. pose proof (N_ascii_bounded c). lia.
Qed.

Lemma byte_of_inj c d : byte_of c = byte_of d -> c = d.
Proof.
  unfold byte_of. intros H. apply N2Z.inj in H.
  rewrite <- (ascii_N_embedding c), <- (ascii_N_embedding d). congruence.
Qed.

Lemma byte_of_ascii_of_Z z : 0 <= z < 256 -> byte_of (ascii_of_Z z) = z.
Proof.
  intros. unfold byte_of, ascii_of_Z. rewrite N_ascii_embedding by lia. lia.
Qed.

Lemma bytes_of_app a b : bytes_of (a ++ b) = bytes_of a ++ bytes_of b.
Proof. unfold bytes_of. induction a; cbn; [reflexivity|]. f_equal. exact IHa. Qed.

Lemma bytes_of_range s : Forall (fun b => 0 <= b < 256) (bytes_of s).
Proof.
  unfold bytes_of. induction s; cbn; constructor; auto using byte_of_range.
Qed.

Lemma length_bytes_of s : List.length (bytes_of s) = String.length s.
Proof. unfold bytes_of. rewrite length_map. induction s; cbn; congruence. Qed.

Lemma str_in_In s l : str_in s l = true <-> In s l.
Proof.
  unfold str_in. rewrite existsb_exists. split.
  - intros (x & Hx & E). apply String.eqb_eq in E. congruence.
  - intros H. exists s. split; [auto | apply String.eqb_refl].
Qed.

#[export] Hint Resolve byte_of_range bytes_of_range str_len_nonneg : tg.
#[export] Hint Rewrite str_length_app str_len_app bytes_of_app str_app_assoc : tg.

(** * Lists *)

(** [std::adjacent_find] with [>=] found nothing: strictly increasing. *)
Fixpoint strictly_increasing (l : list Z) : bool :=
  match l with
  | x :: ((y :: _) as r) => (x <? y) && strictly_increasing r
  | _ => true
  end.

(** First element of a table that satisfies a test (linear table lookup). *)
Definition find_by {A} (p : A -> bool) (l : list A) : option A := List.find p l.

Lemma find_by_some {A} (p : A -> bool) l a :
  find_by p l = Some a -> In a l /\ p a = true.
Proof. apply List.find_some. Qed.

(** * Order of strings

    [std::less<std::string>] and the explicit [unsigned_bytes_less] of the
    sources are the lexicographic order on unsigned bytes. *)

Fixpoint str_ltb (a b : string) : bool :=
  match a, b with
  | EmptyString, EmptyString => false
  | EmptyString, String _ _ => true
  | String _ _, EmptyString => false
  | String c a', String d b' =>
      if byte_of c <? byte_of d then true
      else if byte_of d <? byte_of c then false
      else str_ltb a' b'
  end.

Definition str_lt (a b : string) : Prop := str_ltb a b = true.

Lemma str_ltb_irrefl a : str_ltb a a = false.
Proof. induction a; cbn; [reflexivity|]. rewrite Z.ltb_irrefl. exact IHa. Qed.

Lemma str_ltb_trans a b c : str_lt a b -> str_lt b c -> str_lt a c.
Proof.
  unfold str_lt. revert b c. induction a; destruct b, c; cbn; try congruence; auto.
  repeat (destruct (_ <? _) eqn:? at 1; z_bool; try discriminate; try reflexivity; try lia).
  all: repeat match goal with |- context [?x <? ?y] =>
         destruct (x <? y) eqn:?; z_bool; try lia; try reflexivity end; eauto.
Qed.

Lemma str_ltb_total a b : str_ltb a b = false -> str_ltb b a = false -> a = b.
Proof.
  revert b. induction a; destruct b; cbn; try congruence.
  destruct (byte_of a <? byte_of a1) eqn:?, (byte_of a1 <? byte_of a) eqn:?;
    try congruence; z_bool.
  intros. f_equal; [apply byte_of_inj; lia | auto].
Qed.

Lemma str_ltb_asym a b : str_ltb a b = true -> str_ltb b a = false.
Proof.
  intros H. destruct (str_ltb b a) eqn:E; [|reflexivity].
  pose proof (str_ltb_trans _ _ _ H E) as C. unfold str_lt in C.
  rewrite str_ltb_irrefl in C. discriminate.
Qed.

(** * Decidable equality, finite enumerations and constant tables *)

Class EqDec (A : Type) := eq_dec : forall x y : A, {x = y} + {x <> y}.

Definition eqb {A} `{EqDec A} (x y : A) : bool := if eq_dec x y then true else false.

#[export] Instance string_eq_dec : EqDec string := String.string_dec.
#[export] Instance Z_eq_dec : EqDec Z := Z.eq_dec.
#[export] Instance option_eq_dec {A} `{EqDec A} : EqDec (option A).
Proof. intros [x|] [y|]; try (right; discriminate); [|left; reflexivity].
  destruct (eq_dec x y); [left | right]; congruence. Defined.

Lemma eqb_eq {A} `{EqDec A} (x y : A) : eqb x y = true <-> x = y.
Proof. unfold eqb. destruct (eq_dec x y); split; congruence. Qed.

Lemma eqb_refl {A} `{EqDec A} (x : A) : eqb x x = true.
Proof. apply eqb_eq. reflexivity. Qed.

(** An [enum class]: its constructors in order. *)
Class Enum (A : Type) := { enumerate : list A; enumerated : forall a, In a enumerate }.
Arguments enumerate A {_}.

Ltac solve_enum := intros []; repeat (left; reflexivity) || (cbn; tauto).

(** A statement about every constructor is decided by evaluation. *)
Lemma enum_forall {A} `{Enum A} (p : A -> bool) :
  forallb p (enumerate A) = true -> forall a, p a = true.
Proof. intros H0 a. rewrite forallb_forall in H0. apply H0, enumerated. Qed.

(** Linear search of a constant table on one of its fields. *)
Definition lookup_by {I K} `{EqDec K} (field : I -> K) (table : list I) (x : K) : option I :=
  List.find (fun i => eqb (field i) x) table.

Lemma lookup_by_some {I K} `{EqDec K} (field : I -> K) table x i :
  lookup_by field table x = Some i -> In i table /\ field i = x.
Proof. intros E. apply List.find_some in E as [Hi E]. apply eqb_eq in E. auto. Qed.

Lemma lookup_by_none {I K} `{EqDec K} (field : I -> K) table x :
  lookup_by field table x = None <-> ~ In x (map field table).
Proof.
  unfold lookup_by. induction table as [|i t IH]; cbn; [tauto|].
  destruct (eqb (field i) x) eqn:E; [apply eqb_eq in E; split; [discriminate | tauto]|].
  rewrite IH. assert (field i <> x) by (intros F; apply eqb_eq in F; congruence). tauto.
Qed.

Lemma lookup_by_unique {I K} `{EqDec K} (field : I -> K) table i :
  NoDup (map field table) -> In i table -> lookup_by field table (field i) = Some i.
Proof.
  unfold lookup_by. induction table as [|j t IH]; cbn; [tauto|].
  intros N. inversion N as [|? ? Hj Nt]; subst. intros [-> | Hi].
  - rewrite eqb_refl. reflexivity.
  - destruct (eqb (field j) (field i)) eqn:E; [|auto].
    apply eqb_eq in E. exfalso. apply Hj. rewrite E. apply in_map. exact Hi.
Qed.

Fixpoint nodupb {A} `{EqDec A} (l : list A) : bool :=
  match l with
  | [] => true
  | x :: r => negb (existsb (eqb x) r) && nodupb r
  end.

Lemma nodupb_NoDup {A} `{EqDec A} (l : list A) : nodupb l = true -> NoDup l.
Proof.
  induction l as [|x r IH]; cbn; intros E; constructor; bool_split; auto.
  intros Hx. assert (existsb (eqb x) r = true); [|congruence].
  apply existsb_exists. exists x. split; [exact Hx | apply eqb_refl].
Qed.

(** Distinctness of a concrete column, by evaluation. *)
Ltac nodup_by_computation := apply nodupb_NoDup; vm_compute; reflexivity.
