(* ===== verification/DecimalText.v ===== *)
(** Decimal text of integers ([std::to_string]) and its length. *)
From Stdlib Require Import DecimalString DecimalZ DecimalPos DecimalFacts.
From S2P Require Import Prelude.

(** [std::to_string] of a 64-bit integer. *)
Definition to_string (n : Z) : string := NilZero.string_of_int (Z.to_int n).

#[global] Arguments to_string : simpl never.

Definition num_char (c : ascii) : bool := is_digit c || Ascii.eqb c "-".

Lemma uint_digits d : str_all num_char (NilEmpty.string_of_uint d) = true.
Proof. induction d; cbn; auto. Qed.

Lemma to_string_chars n : str_all num_char (to_string n) = true.
Proof.
  unfold to_string, NilZero.string_of_int, NilZero.string_of_uint.
  destruct (Z.to_int n) as [d|d]; destruct d; cbn; rewrite ?uint_digits; reflexivity.
Qed.

Lemma to_string_inj a b : to_string a = to_string b -> a = b.
Proof.
  unfold to_string. intros H. apply (f_equal NilZero.int_of_string) in H.
  assert (forall z, Z.to_int z <> Decimal.Neg Decimal.Nil /\ Z.to_int z <> Decimal.Pos Decimal.Nil) as Hn.
  { intros z. split; intros C; pose proof (DecimalZ.of_to z) as E; rewrite C in E; cbn in E;
      subst z; discriminate C. }
  rewrite !NilZero.isi in H by apply Hn || (intros C; destruct (Hn 0); congruence). injection H as H.
  rewrite <- (DecimalZ.of_to a), <- (DecimalZ.of_to b). congruence.
Qed.

Lemma to_string_starts n : exists c t, to_string n = String c t /\ num_char c = true.
Proof.
  pose proof (to_string_chars n) as H. destruct (to_string n) as [|c t] eqn:E.
  - unfold to_string, NilZero.string_of_int, NilZero.string_of_uint in E.
    destruct (Z.to_int n) as [d|d]; destruct d; discriminate E.
  - cbn in H. bool_split. eauto.
Qed.

(** * Number of digits *)

Definition digits (d : Decimal.uint) : Z := Z.of_nat (Decimal.nb_digits d).

Lemma of_uint_acc_bounds d acc :
  Zpos acc * 10 ^ digits d <= Zpos (Pos.of_uint_acc d acc) < (Zpos acc + 1) * 10 ^ digits d.
Proof.
  unfold digits. revert acc.
  induction d as [|d IH|d IH|d IH|d IH|d IH|d IH|d IH|d IH|d IH|d IH]; intros acc;
    [cbn; lia|..];
    cbn [Pos.of_uint_acc Decimal.nb_digits]; rewrite Nat2Z.inj_succ, Z.pow_succ_r by lia;
    match goal with |- context [Pos.of_uint_acc d ?a] => specialize (IH a) end;
    pose proof (Z.pow_pos_nonneg 10 (Z.of_nat (Decimal.nb_digits d))) as P;
    set (q := 10 ^ Z.of_nat (Decimal.nb_digits d)) in *; clearbody q;
    rewrite ?Pos2Z.inj_add, ?Pos2Z.inj_mul in IH; nia.
Qed.

Lemma to_uint_not_D0 p d : Pos.to_uint p <> Decimal.D0 d.
Proof.
  intros E. pose proof (DecimalPos.Unsigned.to_of (Pos.to_uint p)) as U.
  rewrite DecimalPos.Unsigned.of_to in U. cbn in U. rewrite E, unorm_D0 in U.
  destruct (Decimal.nzhead d) eqn:N.
  { assert (Decimal.unorm d = Decimal.zero) as Z by (apply unorm_0; exact N).
    apply (DecimalPos.Unsigned.to_uint_nonzero p). congruence. }
  all: rewrite unorm_nzhead in U by congruence; symmetry in U; now apply nzhead_nonzero in U.
Qed.

Lemma to_uint_digits p :
  1 <= digits (Pos.to_uint p) /\
  10 ^ (digits (Pos.to_uint p) - 1) <= Zpos p < 10 ^ digits (Pos.to_uint p).
Proof.
  pose proof (DecimalPos.Unsigned.of_to p) as E.
  pose proof (to_uint_not_D0 p) as ND. pose proof (DecimalPos.Unsigned.to_uint_nonnil p) as NN.
  destruct (Pos.to_uint p) as [|d|d|d|d|d|d|d|d|d|d]; [congruence | now destruct (ND d) |..];
    cbn [Pos.of_uint] in E; injection E as <-; unfold digits; cbn [Decimal.nb_digits];
    rewrite Nat2Z.inj_succ;
    replace (Z.succ (Z.of_nat (Decimal.nb_digits d)) - 1) with (digits d) by (unfold digits; lia);
    rewrite Z.pow_succ_r by lia; fold (digits d);
    (split; [unfold digits; lia|]);
    match goal with |- context [Pos.of_uint_acc d ?a] =>
      pose proof (of_uint_acc_bounds d a) end; lia.
Qed.

Lemma string_of_uint_len d : str_len (NilEmpty.string_of_uint d) = digits d.
Proof. unfold str_len, digits. f_equal. induction d; cbn; auto. Qed.

Lemma to_string_pos p : to_string (Zpos p) = NilEmpty.string_of_uint (Pos.to_uint p).
Proof.
  unfold to_string. cbn. pose proof (DecimalPos.Unsigned.to_uint_nonnil p) as N.
  destruct (Pos.to_uint p); [congruence | reflexivity ..].
Qed.

(** The length of the text of a positive number is the number [k] with
    [10^(k-1) <= n < 10^k]. *)
Lemma to_string_len n :
  0 < n -> 1 <= str_len (to_string n) /\
           10 ^ (str_len (to_string n) - 1) <= n < 10 ^ str_len (to_string n).
Proof.
  destruct n as [|p|p]; try lia. intros _. rewrite to_string_pos, string_of_uint_len.
  apply to_uint_digits.
Qed.

(** Two powers of ten cannot enclose the same number. *)
Lemma digits_unique n j k :
  1 <= j -> 1 <= k -> 10 ^ (j - 1) <= n < 10 ^ j -> 10 ^ (k - 1) <= n < 10 ^ k -> j = k.
Proof.
  intros Hj Hk Bj Bk.
  assert (~ j < k) by (intros L; pose proof (Z.pow_le_mono_r 10 j (k - 1)); lia).
  assert (~ k < j) by (intros L; pose proof (Z.pow_le_mono_r 10 k (j - 1)); lia). lia.
Qed.

Lemma to_string_len_le n k : 0 <= n < 10 ^ k -> 1 <= k -> str_len (to_string n) <= k.
Proof.
  intros [H0 H] Hk. destruct (Z.eq_dec n 0) as [->|N]; [exact Hk|].
  destruct (to_string_len n) as (L & B & _); [lia|].
  assert (~ k < str_len (to_string n)); [|lia].
  intros C. pose proof (Z.pow_le_mono_r 10 k (str_len (to_string n) - 1)). lia.
Qed.

(** * Parsing decimals

    [std::from_chars] on a string of digits: its value, before the range
    check. *)
Definition decimal_value (s : string) : option Z :=
  match NilEmpty.uint_of_string s with
  | Some d => Some (Z.of_uint d)
  | None => None
  end.

(** No sign and no superfluous leading zero. *)
Definition canonical_digits (s : string) : bool :=
  match s with
  | EmptyString => false
  | String c r => negb (Ascii.eqb c "0") || str_empty r
  end.

Lemma decimal_value_nonneg s n : decimal_value s = Some n -> 0 <= n.
Proof.
  unfold decimal_value. destruct (NilEmpty.uint_of_string s) as [d|]; [|discriminate].
  intros H. injection H as <-. unfold Z.of_uint. lia.
Qed.

Lemma to_string_of_N n : to_string (Z.of_N n) = NilZero.string_of_uint (N.to_uint n).
Proof. destruct n; reflexivity. Qed.

(** The text of a number is the only canonical spelling of it. *)
Lemma decimal_value_canonical s n :
  canonical_digits s = true -> decimal_value s = Some n -> to_string n = s.
Proof.
  unfold decimal_value. intros C. destruct (NilEmpty.uint_of_string s) as [d|] eqn:E;
    [|discriminate]. apply NilEmpty.sus in E. intros H. injection H as <-.
  unfold Z.of_uint. rewrite to_string_of_N, DecimalPos.Unsigned.to_of. subst s.
  destruct d as [|d|d|d|d|d|d|d|d|d|d]; [discriminate C| |reflexivity..].
  cbn in C. apply str_empty_true in C. destruct d; try discriminate C. reflexivity.
Qed.

Lemma decimal_value_to_string n : 0 <= n -> decimal_value (to_string n) = Some n.
Proof.
  intros H. rewrite <- (Z2N.id n H), to_string_of_N. unfold decimal_value.
  set (m := Z.to_N n). assert (NN : N.to_uint m <> Decimal.Nil).
  { destruct m as [|p]; [discriminate | apply DecimalPos.Unsigned.to_uint_nonnil]. }
  unfold NilZero.string_of_uint. destruct (N.to_uint m) eqn:E; [congruence|..];
    rewrite <- E, NilEmpty.usu; unfold Z.of_uint;
    (replace (Pos.of_uint (N.to_uint m)) with m; [reflexivity|]);
    destruct m; (reflexivity || (symmetry; apply DecimalPos.Unsigned.of_to)).
Qed.

Lemma canonical_digits_to_string n : 0 <= n -> canonical_digits (to_string n) = true.
Proof.
  destruct n as [|p|p]; [reflexivity | | lia]. intros _. rewrite to_string_pos.
  pose proof (to_uint_not_D0 p) as ND. pose proof (DecimalPos.Unsigned.to_uint_nonnil p).
  destruct (Pos.to_uint p) as [|d|d|d|d|d|d|d|d|d|d]; [congruence | now destruct (ND d)|..];
    reflexivity.
Qed.

Lemma to_string_digits n : 0 <= n -> str_all is_digit (to_string n) = true.
Proof.
  assert (D : forall d, str_all is_digit (NilEmpty.string_of_uint d) = true).
  { induction d; cbn; auto. }
  destruct n as [|p|p]; [reflexivity | | lia]. intros _. rewrite to_string_pos. apply D.
Qed.

(** Digits are parsed. *)
Lemma decimal_value_digits s : str_all is_digit s = true -> exists n, decimal_value s = Some n.
Proof.
  intros H. assert (exists d, NilEmpty.uint_of_string s = Some d) as [d E];
    [|unfold decimal_value; rewrite E; eauto].
  induction s as [|c s IH]; [cbn; eauto|]. cbn in H. bool_split. destruct (IH H0) as [d E].
  cbn [NilEmpty.uint_of_string]. rewrite E.
  destruct c as [[] [] [] [] [] [] [] []]; try discriminate H; cbn; eauto.
Qed.
