(* ===== verification/Json.v ===== *)
(** JSON documents as the sources see them through [nlohmann::json]: the value
    tree with its three number tags, the type tests, the accessors and the
    comparisons with literals.  The text parser and the printer of the library
    are not defined here: the files that need them take them as parameters
    ([json_parse], [json_dump]). *)
From Stdlib Require Export SpecFloat.
From S2P Require Import Prelude.

(** * The value tree

    Objects carry their members in iteration order.  [jobject] builds the
    order of [std::map], ascending by key; nothing else in the model relies on
    it unless it says so ([json_wf]). *)
Inductive json : Type :=
| JNull
| JBool (b : bool)
| JUnsigned (n : Z)
| JInteger (n : Z)
| JFloat (f : spec_float)
| JString (s : string)
| JArray (l : list json)
| JObject (m : list (string * json)).

Section json_induction.
Variable P : json -> Prop.
Hypothesis Hnull : P JNull.
Hypothesis Hbool : forall b, P (JBool b).
Hypothesis Hunsigned : forall n, P (JUnsigned n).
Hypothesis Hinteger : forall n, P (JInteger n).
Hypothesis Hfloat : forall f, P (JFloat f).
Hypothesis Hstring : forall s, P (JString s).
Hypothesis Harray : forall l, Forall P l -> P (JArray l).
Hypothesis Hobject : forall m, Forall (fun kv => P (snd kv)) m -> P (JObject m).

Fixpoint json_nested_ind (j : json) : P j :=
  match j with
  | JNull => Hnull
  | JBool b => Hbool b
  | JUnsigned n => Hunsigned n
  | JInteger n => Hinteger n
  | JFloat f => Hfloat f
  | JString s => Hstring s
  | JArray l =>
      Harray l ((fix go l : Forall P l :=
        match l with
        | [] => Forall_nil _
        | x :: r => Forall_cons x (json_nested_ind x) (go r)
        end) l)
  | JObject m =>
      Hobject m ((fix go m : Forall (fun kv => P (snd kv)) m :=
        match m with
        | [] => Forall_nil _
        | kv :: r => Forall_cons kv (json_nested_ind (snd kv)) (go r)
        end) m)
  end.
End json_induction.

#[export] Instance spec_float_eq_dec : EqDec spec_float.
Proof. intros x y. repeat decide equality. Defined.

#[export] Instance json_eq_dec : EqDec json.
Proof.
  unfold EqDec. fix IH 1. intros a b.
  destruct a as [|b1|n1|n1|f1|s1|l1|m1], b as [|b2|n2|n2|f2|s2|l2|m2];
    try (right; discriminate); [left; reflexivity|..].
  - destruct (Bool.bool_dec b1 b2); [left | right]; congruence.
  - destruct (Z.eq_dec n1 n2); [left | right]; congruence.
  - destruct (Z.eq_dec n1 n2); [left | right]; congruence.
  - destruct (eq_dec f1 f2); [left | right]; congruence.
  - destruct (string_dec s1 s2); [left | right]; congruence.
  - destruct (list_eq_dec IH l1 l2); [left | right]; congruence.
  - assert ({m1 = m2} + {m1 <> m2}) as [E|E]; [|left; congruence | right; congruence].
    revert m2. induction m1 as [|[k1 v1] m1 IHm]; intros [|[k2 v2] m2];
      try (right; discriminate); [left; reflexivity|].
    destruct (string_dec k1 k2) as [<-|N]; [|right; congruence].
    destruct (IH v1 v2) as [<-|N]; [|right; congruence].
    destruct (IHm m2) as [<-|N]; [left; reflexivity | right; congruence].
Defined.

(** * Type tests *)

Definition is_null (j : json) : bool := match j with JNull => true | _ => false end.
Definition is_boolean (j : json) : bool := match j with JBool _ => true | _ => false end.
Definition is_number_unsigned (j : json) : bool :=
  match j with JUnsigned _ => true | _ => false end.
Definition is_number_integer (j : json) : bool :=
  match j with JUnsigned _ | JInteger _ => true | _ => false end.
Definition is_number (j : json) : bool :=
  match j with JUnsigned _ | JInteger _ | JFloat _ => true | _ => false end.
Definition is_string (j : json) : bool := match j with JString _ => true | _ => false end.
Definition is_array (j : json) : bool := match j with JArray _ => true | _ => false end.
Definition is_object (j : json) : bool := match j with JObject _ => true | _ => false end.

(** * Accessors *)

Fixpoint obj_find (k : string) (m : list (string * json)) : option json :=
  match m with
  | [] => None
  | (k', v) :: r => if String.eqb k k' then Some v else obj_find k r
  end.

Definition jfind (j : json) (k : string) : option json :=
  match j with JObject m => obj_find k m | _ => None end.

Definition contains (j : json) (k : string) : bool :=
  match jfind j k with Some _ => true | None => false end.

(** [value[k]] of a document that has the member: every use in the sources is
    dominated by a [contains] or [exact_fields] test, so the null returned for
    a missing member is never observed. *)
Definition jget (j : json) (k : string) : json :=
  match jfind j k with Some v => v | None => JNull end.

Definition jsize (j : json) : nat :=
  match j with
  | JNull => 0%nat
  | JArray l => List.length l
  | JObject m => List.length m
  | _ => 1%nat
  end.

Definition jempty (j : json) : bool := Nat.eqb (jsize j) 0.

Definition elements (j : json) : list json :=
  match j with JArray l => l | _ => [] end.

Definition get_string (j : json) : string :=
  match j with JString s => s | _ => EmptyString end.

Definition get_bool (j : json) : bool :=
  match j with JBool b => b | _ => false end.

(** [get<std::uint64_t>] and [get<std::int64_t>] convert with [static_cast]:
    a value outside the target range wraps. *)
Definition get_u64 (j : json) : Z :=
  match j with JUnsigned n => n | JInteger n => u64 n | _ => 0 end.

Definition get_i64 (j : json) : Z :=
  match j with JUnsigned n => i64_of n | JInteger n => n | _ => 0 end.

(** [get<double>]: integers are rounded to nearest even. *)
Definition double_of_Z (n : Z) : spec_float := binary_normalize 53 1024 n 0 false.

Definition get_double (j : json) : spec_float :=
  match j with
  | JFloat f => f
  | JUnsigned n | JInteger n => double_of_Z n
  | _ => S754_nan
  end.

(** * Comparisons with literals ([operator==]) *)

Definition eq_str (j : json) (s : string) : bool :=
  match j with JString t => String.eqb t s | _ => false end.

Definition eq_bool (j : json) (b : bool) : bool :=
  match j with JBool c => Bool.eqb c b | _ => false end.

(** Comparison with a signed literal: the unsigned tag is cast to
    [std::int64_t] first, the float tag is compared as a double. *)
Definition eq_int (j : json) (n : Z) : bool :=
  match j with
  | JInteger m => m =? n
  | JUnsigned m => i64_of m =? n
  | JFloat f => SFeqb f (double_of_Z n)
  | _ => false
  end.

(** Comparison with an unsigned value. *)
Definition eq_unsigned (j : json) (n : Z) : bool :=
  match j with
  | JUnsigned m => m =? n
  | JInteger m => m =? i64_of n
  | JFloat f => SFeqb f (double_of_Z n)
  | _ => false
  end.

(** [operator==] between two documents: integers of the two tags are compared
    as [std::int64_t], an integer with a float as doubles, containers element
    by element. *)
Fixpoint json_eqb (a b : json) : bool :=
  match a, b with
  | JNull, JNull => true
  | JBool x, JBool y => Bool.eqb x y
  | JString x, JString y => String.eqb x y
  | JArray l, JArray r =>
      (fix go l r :=
         match l, r with
         | [], [] => true
         | x :: l', y :: r' => json_eqb x y && go l' r'
         | _, _ => false
         end) l r
  | JObject l, JObject r =>
      (fix go l r :=
         match l, r with
         | [], [] => true
         | (k, x) :: l', (k', y) :: r' => String.eqb k k' && json_eqb x y && go l' r'
         | _, _ => false
         end) l r
  | JUnsigned x, JUnsigned y => x =? y
  | JInteger x, JInteger y => x =? y
  | JUnsigned x, JInteger y => i64_of x =? y
  | JInteger x, JUnsigned y => x =? i64_of y
  | JFloat x, JFloat y => SFeqb x y
  | JFloat x, (JInteger y | JUnsigned y) => SFeqb x (double_of_Z y)
  | (JInteger x | JUnsigned x), JFloat y => SFeqb (double_of_Z x) y
  | _, _ => false
  end.

(** * Construction *)

(** [std::map::insert]: ascending by key, an existing member is kept. *)
Fixpoint obj_insert (k : string) (v : json) (m : list (string * json)) :
    list (string * json) :=
  match m with
  | [] => [(k, v)]
  | (k', v') :: r =>
      if str_ltb k k' then (k, v) :: m
      else if str_ltb k' k then (k', v') :: obj_insert k v r
      else m
  end.

(** The braced initialiser [{{"k", v}, ...}]. *)
Definition jobject (l : list (string * json)) : json :=
  JObject (fold_left (fun m kv => obj_insert (fst kv) (snd kv) m) l []).

(** [value[k] = v]: inserted in order, or replacing the member. *)
Fixpoint obj_set (k : string) (v : json) (m : list (string * json)) : list (string * json) :=
  match m with
  | [] => [(k, v)]
  | (k', v') :: r =>
      if str_ltb k k' then (k, v) :: m
      else if str_ltb k' k then (k', v') :: obj_set k v r
      else (k, v) :: r
  end.

Definition jset (j : json) (k : string) (v : json) : json :=
  match j with JObject m => JObject (obj_set k v m) | _ => j end.

(** [value.erase(k)]. *)
Definition jerase (j : json) (k : string) : json :=
  match j with
  | JObject m => JObject (filter (fun kv => negb (String.eqb k (fst kv))) m)
  | _ => j
  end.

Definition jopt {A} (f : A -> json) (o : option A) : json :=
  match o with Some a => f a | None => JNull end.

(** * Well-formed documents *)

Fixpoint keys_ascending (m : list (string * json)) : Prop :=
  match m with
  | (k, _) :: (((k', _) :: _) as r) => str_lt k k' /\ keys_ascending r
  | _ => True
  end.

Fixpoint json_wf (j : json) : Prop :=
  match j with
  | JUnsigned n => 0 <= n <= u64_max
  | JInteger n => i64_min <= n <= i64_max
  | JArray l => (fix go l := match l with [] => True | x :: r => json_wf x /\ go r end) l
  | JObject m =>
      NoDup (map fst m) /\
      (fix go m := match m with [] => True | (_, v) :: r => json_wf v /\ go r end) m
  | _ => True
  end.

(** What printing a document and parsing it back yields: a non-negative
    integer of the signed tag comes back with the unsigned tag, a non-finite
    float is printed as [null], everything else is preserved. *)
Fixpoint reparsed (j : json) : json :=
  match j with
  | JInteger n => if 0 <=? n then JUnsigned n else JInteger n
  | JFloat (S754_infinity _) | JFloat S754_nan => JNull
  | JArray l => JArray (map reparsed l)
  | JObject m => JObject (map (fun kv => (fst kv, reparsed (snd kv))) m)
  | _ => j
  end.

(** * Lemmas *)

Lemma obj_find_reparsed k m :
  obj_find k (map (fun kv => (fst kv, reparsed (snd kv))) m) = option_map reparsed (obj_find k m).
Proof. induction m as [|[k' v] m IH]; cbn; [reflexivity|]. destruct (String.eqb k k'); auto. Qed.

Lemma jfind_reparsed j k : jfind (reparsed j) k = option_map reparsed (jfind j k).
Proof.
  destruct j as [| | | n | f | | |]; cbn; try reflexivity.
  - destruct (0 <=? n); reflexivity.
  - destruct f; reflexivity.
  - apply obj_find_reparsed.
Qed.

Lemma jget_reparsed j k : contains j k = true -> jget (reparsed j) k = reparsed (jget j k).
Proof.
  unfold contains, jget. rewrite jfind_reparsed. destruct (jfind j k); [reflexivity|discriminate].
Qed.

Lemma contains_reparsed j k : contains (reparsed j) k = contains j k.
Proof. unfold contains. rewrite jfind_reparsed. destruct (jfind j k); reflexivity. Qed.

Lemma jsize_reparsed_object m : jsize (reparsed (JObject m)) = jsize (JObject m).
Proof. cbn. apply length_map. Qed.

Lemma is_string_inv j : is_string j = true -> j = JString (get_string j).
Proof. destruct j; cbn; congruence. Qed.

Lemma is_boolean_inv j : is_boolean j = true -> j = JBool (get_bool j).
Proof. destruct j; cbn; congruence. Qed.

Lemma eq_str_inv j s : eq_str j s = true -> j = JString s.
Proof. destruct j; cbn; try discriminate. intros H. apply String.eqb_eq in H. congruence. Qed.

Lemma eq_str_refl s : eq_str (JString s) s = true.
Proof. cbn. apply String.eqb_refl. Qed.

Lemma obj_find_In k m v : obj_find k m = Some v -> In (k, v) m.
Proof.
  induction m as [|[k' v'] m IH]; cbn; [discriminate|].
  destruct (String.eqb k k') eqn:E; [|auto].
  apply String.eqb_eq in E as <-. intros [= ->]. auto.
Qed.

Lemma obj_find_NoDup k m v : NoDup (map fst m) -> In (k, v) m -> obj_find k m = Some v.
Proof.
  induction m as [|[k' v'] m IH]; cbn; [tauto|]. intros Hnd [H|H].
  - injection H as -> ->. rewrite String.eqb_refl. reflexivity.
  - inversion_clear Hnd. destruct (String.eqb k k') eqn:E; [|auto].
    apply String.eqb_eq in E as <-. destruct H0. apply in_map_iff. exists (k, v). auto.
Qed.

Lemma json_eqb_array l r :
  json_eqb (JArray l) (JArray r) = true <-> Forall2 (fun x y => json_eqb x y = true) l r.
Proof.
  revert r. induction l as [|x l IH]; intros [|y r]; cbn; split; intros H;
    try discriminate; try (now constructor); try (inversion H; fail).
  - bool_split. constructor; [assumption|]. now apply IH.
  - inversion_clear H. apply andb_true_intro. split; [assumption|]. now apply IH.
Qed.

(** A document without floats equals itself. *)
Fixpoint float_free (j : json) : bool :=
  match j with
  | JFloat _ => false
  | JArray l => forallb float_free l
  | JObject m => forallb (fun kv => float_free (snd kv)) m
  | _ => true
  end.

Lemma json_eqb_refl j : float_free j = true -> json_eqb j j = true.
Proof.
  induction j as [| | | | | |l IH|m IH] using json_nested_ind; cbn; intros H;
    try reflexivity; try discriminate.
  - apply Bool.eqb_reflx.
  - apply Z.eqb_refl.
  - apply Z.eqb_refl.
  - apply String.eqb_refl.
  - induction IH; cbn in *; [reflexivity|]. bool_split; auto.
  - induction IH as [|[k v] m]; cbn in *; [reflexivity|]. rewrite String.eqb_refl. bool_split; auto.
Qed.

#[export] Hint Resolve is_string_inv is_boolean_inv eq_str_inv eq_str_refl : tg.
