(* ===== verification/Utf8.v ===== *)
(** UTF-8 validation ([common::valid_utf8], src/src/common/utf8.hpp), against
    the definition of the encoding. *)
From S2P Require Import Prelude.

(** * The validator *)

(** The lead byte: sequence length and the payload bits of the first byte. *)
Definition lead (first : Z) : option (nat * Z) :=
  if first <=? 0x7F then Some (1%nat, first)
  else if (0xC2 <=? first) && (first <=? 0xDF) then Some (2%nat, Z.land first 0x1F)
  else if (0xE0 <=? first) && (first <=? 0xEF) then Some (3%nat, Z.land first 0x0F)
  else if (0xF0 <=? first) && (first <=? 0xF4) then Some (4%nat, Z.land first 0x07)
  else None.

(** The inner loop: [n] continuation bytes are folded into the code point. *)
Fixpoint continuations (n : nat) (codepoint : Z) (bytes : list Z) : option (Z * list Z) :=
  match n with
  | O => Some (codepoint, bytes)
  | S n' =>
      match bytes with
      | [] => None
      | byte :: rest =>
          if negb (Z.land byte 0xC0 =? 0x80) then None
          else continuations n'
                 (u32 (Z.lor (Z.shiftl codepoint 6) (Z.land byte 0x3F))) rest
      end
  end.

(** The overlong, surrogate and range test after the loop. *)
Definition rejected (length : nat) (codepoint : Z) : bool :=
  (Nat.eqb length 3 && (codepoint <? 0x800)) ||
  (Nat.eqb length 4 && (codepoint <? 0x10000)) ||
  ((0xD800 <=? codepoint) && (codepoint <=? 0xDFFF)) ||
  (0x10FFFF <? codepoint).

(** One iteration of the outer loop on the bytes from [index] on: the bytes
    after the sequence, or [None] where the code returns false. *)
Definition step_utf8 (value : list Z) : option (list Z) :=
  match value with
  | [] => None
  | first :: rest =>
      match lead first with
      | None => None
      | Some (length, codepoint) =>
          if Nat.ltb (List.length value) length then None
          else match continuations (length - 1) codepoint rest with
               | None => None
               | Some (codepoint, rest') =>
                   if rejected length codepoint then None else Some rest'
               end
      end
  end.

(** The outer loop; [None] when [fuel] iterations do not end it. *)
Fixpoint valid_utf8_loop (fuel : nat) (value : list Z) : option bool :=
  match value with
  | [] => Some true
  | _ =>
      match fuel with
      | O => None
      | S fuel' =>
          match step_utf8 value with
          | None => Some false
          | Some rest => valid_utf8_loop fuel' rest
          end
      end
  end.

(** Every iteration consumes a byte, so the length of the value is enough
    fuel ([valid_utf8_loop_ends]). *)
Definition valid_utf8_bytes (value : list Z) : bool :=
  match valid_utf8_loop (List.length value) value with Some answer => answer | None => false end.

Definition valid_utf8 (value : string) : bool := valid_utf8_bytes (bytes_of value).

#[global] Arguments valid_utf8 : simpl never.

(** * The encoding *)

(** Unicode scalar values. *)
Definition scalar (c : Z) : Prop := 0 <= c < 0xD800 \/ 0xDFFF < c <= 0x10FFFF.

Definition encode (c : Z) : list Z :=
  if c <? 0x80 then [c]
  else if c <? 0x800 then [0xC0 + c / 64; 0x80 + c mod 64]
  else if c <? 0x10000 then [0xE0 + c / 4096; 0x80 + (c / 64) mod 64; 0x80 + c mod 64]
  else [0xF0 + c / 262144; 0x80 + (c / 4096) mod 64; 0x80 + (c / 64) mod 64; 0x80 + c mod 64].

Definition encode_all (cs : list Z) : list Z := flat_map encode cs.

Definition is_byte (b : Z) : Prop := 0 <= b < 256.

(** * Bit operations as arithmetic *)

Lemma land_ones_mod x n : 0 <= n -> Z.land x (2 ^ n - 1) = x mod 2 ^ n.
Proof. intros. rewrite <- Z.land_ones by lia. rewrite Z.ones_equiv. f_equal. Qed.

Lemma land_1F x : Z.land x 0x1F = x mod 32.
Proof. apply (land_ones_mod x 5). lia. Qed.
Lemma land_0F x : Z.land x 0x0F = x mod 16.
Proof. apply (land_ones_mod x 4). lia. Qed.
Lemma land_07 x : Z.land x 0x07 = x mod 8.
Proof. apply (land_ones_mod x 3). lia. Qed.
Lemma land_3F x : Z.land x 0x3F = x mod 64.
Proof. apply (land_ones_mod x 6). lia. Qed.

(** A byte has the continuation tag exactly when it is in [0x80, 0xBF]. *)
Lemma continuation_tag b :
  is_byte b -> (Z.land b 0xC0 =? 0x80) = (0x80 <=? b) && (b <=? 0xBF).
Proof.
  intros Hb. unfold is_byte in Hb.
  assert (Z.land b 0xC0 = (b / 64 mod 4) * 64) as ->.
  { change 0xC0 with (Z.shiftl 3 6).
    replace (b / 64 mod 4 * 64) with (Z.shiftl (Z.shiftr b 6 mod 2 ^ 2) 6)
      by (rewrite Z.shiftl_mul_pow2, Z.shiftr_div_pow2 by lia; reflexivity).
    rewrite <- Z.land_ones by lia.
    apply Z.bits_inj'. intros n Hn.
    rewrite Z.land_spec.
    destruct (Z.ltb_spec n 6).
    - rewrite !Z.shiftl_spec_low by lia. apply andb_false_r.
    - rewrite !Z.shiftl_spec, Z.land_spec, Z.shiftr_spec by lia.
      change (Z.ones 2) with 3. f_equal. f_equal. lia. }
  destruct (Z.eqb_spec (b / 64 mod 4 * 64) 128), (Z.leb_spec 128 b), (Z.leb_spec b 191);
    cbn; try reflexivity; exfalso; Z.div_mod_to_equations; lia.
Qed.

(** Appending six bits is multiplying by 64 and adding. *)
Lemma lor_six cp b : Z.lor (Z.shiftl cp 6) (Z.land b 0x3F) = cp * 64 + b mod 64.
Proof.
  rewrite land_3F. assert (0 <= b mod 64 < 64) by (apply Z.mod_pos_bound; lia).
  pose proof (Z.add_lor_land (Z.shiftl cp 6) (b mod 64)) as E.
  assert (Z.land (Z.shiftl cp 6) (b mod 64) = 0) as Z0.
  { apply Z.bits_inj'. intros n Hn. rewrite Z.land_spec, Z.bits_0.
    destruct (Z.ltb_spec n 6); [rewrite Z.shiftl_spec_low by lia; reflexivity|].
    change 64 with (2 ^ 6). rewrite Z.mod_pow2_bits_high by lia. apply andb_false_r. }
  assert (Z.shiftl cp 6 = cp * 64) by (rewrite Z.shiftl_mul_pow2 by lia; reflexivity). lia.
Qed.

Lemma push_six cp b :
  0 <= cp < 67108864 ->
  u32 (Z.lor (Z.shiftl cp 6) (Z.land b 0x3F)) = cp * 64 + b mod 64.
Proof.
  intros H. rewrite lor_six. assert (0 <= b mod 64 < 64) by (apply Z.mod_pos_bound; lia).
  unfold u32. apply Z.mod_small. lia.
Qed.

(** * One step and one code point *)

Lemma length_encode c : (1 <= List.length (encode c) <= 4)%nat.
Proof. unfold encode. repeat destruct (_ <? _); cbn; lia. Qed.

Lemma encode_bytes c : scalar c -> Forall is_byte (encode c).
Proof.
  unfold scalar, encode, is_byte. intros H.
  destruct (Z.ltb_spec c 0x80); [repeat constructor; lia|].
  destruct (Z.ltb_spec c 0x800); [repeat constructor; Z.div_mod_to_equations; lia|].
  destruct (Z.ltb_spec c 0x10000); repeat constructor; Z.div_mod_to_equations; lia.
Qed.

(** Decides the boolean comparisons of the goal by case analysis and [lia]. *)
Ltac cmp :=
  repeat (match goal with
  | |- context [?a <=? ?b] => destruct (Z.leb_spec a b); try (exfalso; lia)
  | |- context [?a <? ?b] => destruct (Z.ltb_spec a b); try (exfalso; lia)
  end; cbn [andb orb negb]).

Lemma continuations_one n cp b rest :
  0 <= cp < 67108864 -> is_byte b -> 0x80 <= b <= 0xBF ->
  continuations (S n) cp (b :: rest) = continuations n (cp * 64 + (b - 0x80)) rest.
Proof.
  intros Hcp Hb Hr. cbn [continuations].
  rewrite (continuation_tag b Hb), push_six by lia. cmp. cbn.
  do 2 f_equal. Z.div_mod_to_equations. lia.
Qed.

Lemma continuations_inv n cp bytes c rest :
  0 <= cp < 67108864 -> Forall is_byte bytes ->
  continuations (S n) cp bytes = Some (c, rest) ->
  exists b bytes', bytes = b :: bytes' /\ 0x80 <= b <= 0xBF /\
    Forall is_byte bytes' /\ continuations n (cp * 64 + (b - 0x80)) bytes' = Some (c, rest).
Proof.
  intros Hcp Hbs H. destruct bytes as [|b bytes']; [discriminate|].
  inversion_clear Hbs as [|? ? Hb Hbs'].
  assert (0x80 <= b <= 0xBF) as Hr.
  { cbn [continuations] in H. rewrite (continuation_tag b Hb) in H.
    destruct (Z.leb_spec 0x80 b), (Z.leb_spec b 0xBF); cbn in H; try discriminate; lia. }
  exists b, bytes'. rewrite <- (continuations_one n cp b bytes') by auto. auto.
Qed.

(** Finishes a multi-byte sequence: [E] computes the code point back. *)
Ltac finish_sequence E :=
  cbn [Nat.ltb Nat.leb Nat.sub List.length app];
  rewrite !continuations_one by (unfold is_byte; Z.div_mod_to_equations; lia);
  cbn [continuations]; rewrite E; unfold rejected; cbn [Nat.eqb andb orb]; cmp; reflexivity.

Lemma step_two c rest :
  0x80 <= c < 0x800 -> step_utf8 (0xC0 + c / 64 :: 0x80 + c mod 64 :: rest) = Some rest.
Proof.
  intros H. unfold step_utf8, lead.
  assert (0x2 <= c / 64 < 0x20) by (Z.div_mod_to_equations; lia).
  assert (0 <= c mod 64 < 64) by (apply Z.mod_pos_bound; lia).
  assert ((192 + c / 64) mod 32 * 64 + (128 + c mod 64 - 128) = c) as E
    by (Z.div_mod_to_equations; lia).
  cmp. rewrite land_1F. finish_sequence E.
Qed.

Lemma step_three c rest :
  0x800 <= c < 0x10000 -> ~ (0xD800 <= c <= 0xDFFF) ->
  step_utf8 (0xE0 + c / 4096 :: 0x80 + (c / 64) mod 64 :: 0x80 + c mod 64 :: rest) = Some rest.
Proof.
  intros H Hs. unfold step_utf8, lead.
  assert (0 <= c / 4096 < 0x10) by (Z.div_mod_to_equations; lia).
  assert (0 <= c mod 64 < 64) by (apply Z.mod_pos_bound; lia).
  assert (0 <= (c / 64) mod 64 < 64) by (apply Z.mod_pos_bound; lia).
  assert (((224 + c / 4096) mod 16 * 64 + (128 + (c / 64) mod 64 - 128)) * 64
          + (128 + c mod 64 - 128) = c) as E by (Z.div_mod_to_equations; lia).
  cmp. rewrite land_0F. finish_sequence E.
Qed.

Lemma step_four c rest :
  0x10000 <= c <= 0x10FFFF ->
  step_utf8 (0xF0 + c / 262144 :: 0x80 + (c / 4096) mod 64 :: 0x80 + (c / 64) mod 64
             :: 0x80 + c mod 64 :: rest) = Some rest.
Proof.
  intros H. unfold step_utf8, lead.
  assert (0 <= c / 262144 < 5) by (Z.div_mod_to_equations; lia).
  assert (0 <= c mod 64 < 64) by (apply Z.mod_pos_bound; lia).
  assert (0 <= (c / 64) mod 64 < 64) by (apply Z.mod_pos_bound; lia).
  assert (0 <= (c / 4096) mod 64 < 64) by (apply Z.mod_pos_bound; lia).
  assert ((((240 + c / 262144) mod 8 * 64 + (128 + (c / 4096) mod 64 - 128)) * 64
           + (128 + (c / 64) mod 64 - 128)) * 64 + (128 + c mod 64 - 128) = c) as E
    by (Z.div_mod_to_equations; lia).
  cmp. rewrite land_07. finish_sequence E.
Qed.

(** The encoding of a scalar value is consumed by exactly one iteration. *)
Lemma step_complete c rest : scalar c -> step_utf8 (encode c ++ rest) = Some rest.
Proof.
  unfold scalar, encode. intros Hc.
  destruct (Z.ltb_spec c 0x80).
  - unfold step_utf8, lead, rejected. cbn [app List.length]. cmp. cbn. cmp; reflexivity.
  - destruct (Z.ltb_spec c 0x800); [apply step_two; lia|].
    destruct (Z.ltb_spec c 0x10000); [apply step_three; lia | apply step_four; lia].
Qed.

(** Recovers the code point of an accepted sequence of two to four bytes. *)
Ltac invert_continuations :=
  repeat match goal with
  | H : continuations (S _) _ ?l = Some _ |- _ =>
      apply continuations_inv in H;
        [ destruct H as (? & ? & -> & ? & ? & H) | Z.div_mod_to_equations; lia | assumption ]
  | H : continuations O _ _ = Some _ |- _ => cbn in H; injection H as <- <-
  end.

Lemma rejected_false length c :
  rejected length c = false ->
  (length = 3%nat -> 0x800 <= c) /\ (length = 4%nat -> 0x10000 <= c) /\
  ~ (0xD800 <= c <= 0xDFFF) /\ c <= 0x10FFFF.
Proof.
  unfold rejected. intros H. bool_split. z_bool.
  repeat split; intros; subst; cbn in *; z_bool; try lia.
Qed.

(** The bytes of an accepted sequence are the encoding of its code point. *)
Ltac recover_bytes :=
  unfold encode; cmp; cbn [app]; repeat f_equal; Z.div_mod_to_equations; lia.

Lemma app_two a b rest :
  0xC2 <= a <= 0xDF -> 0x80 <= b <= 0xBF ->
  a :: b :: rest = encode ((a - 192) * 64 + (b - 128)) ++ rest.
Proof. intros. recover_bytes. Qed.

Lemma app_three a b c rest :
  0xE0 <= a <= 0xEF -> 0x80 <= b <= 0xBF -> 0x80 <= c <= 0xBF ->
  0x800 <= ((a - 224) * 64 + (b - 128)) * 64 + (c - 128) ->
  a :: b :: c :: rest = encode (((a - 224) * 64 + (b - 128)) * 64 + (c - 128)) ++ rest.
Proof. intros. recover_bytes. Qed.

Lemma app_four a b c d rest :
  0xF0 <= a <= 0xF4 -> 0x80 <= b <= 0xBF -> 0x80 <= c <= 0xBF -> 0x80 <= d <= 0xBF ->
  0x10000 <= (((a - 240) * 64 + (b - 128)) * 64 + (c - 128)) * 64 + (d - 128) ->
  a :: b :: c :: d :: rest =
  encode ((((a - 240) * 64 + (b - 128)) * 64 + (c - 128)) * 64 + (d - 128)) ++ rest.
Proof. intros. recover_bytes. Qed.

(** An iteration that continues has consumed the encoding of a scalar value. *)
Lemma step_sound value rest :
  Forall is_byte value -> step_utf8 value = Some rest ->
  exists c, scalar c /\ value = encode c ++ rest.
Proof.
  unfold step_utf8. intros Hb H. destruct value as [|first tail]; [discriminate|].
  inversion_clear Hb as [|? ? Hf Ht]. unfold is_byte in Hf.
  destruct (lead first) as [[n cp]|] eqn:L; [|discriminate].
  destruct (Nat.ltb _ n); [discriminate|].
  destruct (continuations (n - 1) cp tail) as [[c r]|] eqn:C; [|discriminate].
  destruct (rejected n c) eqn:R; [discriminate|]. injection H as <-.
  apply rejected_false in R. destruct R as (R3 & R4 & Rs & Rm).
  unfold lead in L. repeat (step_in L; [injection L as <- <-|]; bool_split; z_bool);
    try discriminate; cbn [Nat.sub] in C;
    rewrite ?land_1F, ?land_0F, ?land_07 in C; invert_continuations.
  - exists first. split; [unfold scalar; lia|]. unfold encode. cmp. reflexivity.
  - exists ((first - 192) * 64 + (x - 128)).
    split; [unfold scalar; lia | apply app_two; lia].
  - assert (first mod 16 = first - 224) as E by (Z.div_mod_to_equations; lia). rewrite E in *.
    specialize (R3 eq_refl).
    exists (((first - 224) * 64 + (x - 128)) * 64 + (x1 - 128)).
    split; [unfold scalar; lia | apply app_three; lia].
  - assert (first mod 8 = first - 240) as E by (Z.div_mod_to_equations; lia). rewrite E in *.
    specialize (R4 eq_refl).
    exists ((((first - 240) * 64 + (x - 128)) * 64 + (x1 - 128)) * 64 + (x0 - 128)).
    split; [unfold scalar; lia | apply app_four; lia].
Qed.

(** * The validator against the encoding *)

Lemma step_shorter value rest :
  Forall is_byte value -> step_utf8 value = Some rest ->
  (List.length rest < List.length value)%nat /\ Forall is_byte rest.
Proof.
  intros Hb H. destruct (step_sound _ _ Hb H) as (c & _ & ->).
  rewrite length_app. pose proof (length_encode c).
  split; [lia | apply Forall_app in Hb; tauto].
Qed.

(** Every iteration consumes a byte, so the loop ends within as many iterations as
    there are bytes. *)
Lemma valid_utf8_loop_ends fuel value :
  Forall is_byte value -> (List.length value <= fuel)%nat ->
  exists answer, valid_utf8_loop fuel value = Some answer.
Proof.
  revert value. induction fuel as [|fuel IH]; intros value Hb Hl; destruct value as [|b value'];
    [now exists true | cbn in Hl; lia | now exists true |].
  cbn [valid_utf8_loop]. destruct (step_utf8 (b :: value')) as [rest|] eqn:S; [|now exists false].
  destruct (step_shorter _ _ Hb S) as [Hs Hr]. apply IH; [exact Hr | cbn in *; lia].
Qed.

Lemma valid_utf8_loop_sound fuel value :
  Forall is_byte value -> valid_utf8_loop fuel value = Some true ->
  exists cs, Forall scalar cs /\ value = encode_all cs.
Proof.
  revert value. induction fuel as [|fuel IH]; intros value Hb H; destruct value as [|b value'].
  1, 3: exists []; split; [constructor | reflexivity].
  - discriminate.
  - cbn [valid_utf8_loop] in H. destruct (step_utf8 (b :: value')) as [rest|] eqn:S; [|discriminate].
    destruct (step_sound _ _ Hb S) as (c & Hc & E).
    destruct (IH rest) as (cs & Hcs & ->); [apply (step_shorter _ _ Hb S) | exact H |].
    exists (c :: cs). split; [constructor; assumption | exact E].
Qed.

Lemma valid_utf8_loop_complete fuel value :
  (List.length value <= fuel)%nat ->
  (exists cs, Forall scalar cs /\ value = encode_all cs) ->
  valid_utf8_loop fuel value = Some true.
Proof.
  revert value. induction fuel as [|fuel IH]; intros value Hl (cs & Hcs & E).
  - destruct value; [reflexivity | cbn in Hl; lia].
  - destruct cs as [|c cs]; cbn in E; subst value; [reflexivity|].
    inversion_clear Hcs as [|? ? Hc Hcs']. pose proof (length_encode c) as Hlen.
    rewrite length_app in Hl. cbn [valid_utf8_loop]. rewrite (step_complete _ _ Hc).
    assert (valid_utf8_loop fuel (encode_all cs) = Some true) as L.
    { apply IH; [unfold encode_all; lia | exists cs; auto]. }
    fold (encode_all cs). rewrite L. destruct (encode c ++ encode_all cs); reflexivity.
Qed.

(** The bytes of an accepted text are an encoding, and encodings are accepted. *)
Lemma valid_utf8_bytes_sound value :
  Forall is_byte value -> valid_utf8_bytes value = true ->
  exists cs, Forall scalar cs /\ value = encode_all cs.
Proof.
  intros Hb H. apply (valid_utf8_loop_sound (List.length value) value Hb). revert H.
  unfold valid_utf8_bytes. destruct (valid_utf8_loop _ value) as [[]|]; congruence.
Qed.

Lemma valid_utf8_bytes_complete value :
  (exists cs, Forall scalar cs /\ value = encode_all cs) -> valid_utf8_bytes value = true.
Proof.
  intros H. unfold valid_utf8_bytes.
  now rewrite (valid_utf8_loop_complete (List.length value) value (Nat.le_refl _) H).
Qed.

(** C40.  The loop of [valid_utf8] ends within as many iterations as the text has
    bytes, whatever they are, and its answer is true exactly when the text is the
    UTF-8 encoding of a sequence of Unicode scalar values: no overlong form, no
    surrogate, nothing above U+10FFFF and no truncated sequence is accepted, and
    every well-formed text is. *)
Theorem valid_utf8_correct (value : string) :
  valid_utf8_loop (List.length (bytes_of value)) (bytes_of value) = Some (valid_utf8 value)
  /\ (valid_utf8 value = true <->
      exists cs, Forall scalar cs /\ bytes_of value = encode_all cs).
Proof.
  split; [|split].
  - unfold valid_utf8, valid_utf8_bytes.
    destruct (valid_utf8_loop_ends (List.length (bytes_of value)) (bytes_of value)
      (bytes_of_range value) (Nat.le_refl _)) as (answer & ->). reflexivity.
  - apply valid_utf8_bytes_sound, bytes_of_range.
  - apply valid_utf8_bytes_complete.
Qed.
