(* ===== verification/CanonicalJson.v ===== *)
(** Canonical JSON ([common::canonical_json], src/src/common/canonical_json.cpp):
    the byte string that request fingerprints and audit hashes are taken of. *)
From Stdlib Require Import Permutation Sorted.
From S2P Require Import Prelude DecimalText Json Utf8.

(** * The serializer *)

Inductive CanonicalJsonError : Type :=
| InvalidUtf8
| UnsupportedType.

Definition unsigned_bytes_less (left right : string) : bool := str_ltb left right.

Definition hex_digit (n : Z) : ascii :=
  match String.get (Z.to_nat n) "0123456789abcdef" with
  | Some c => c
  | None => "0"%char
  end.

Fixpoint append_characters (value output : string) : string :=
  match value with
  | EmptyString => output
  | String character rest =>
      let byte := byte_of character in
      append_characters rest
        (if (byte =? byte_of dquote) || (byte =? byte_of backslash)
         then output +++ str1 backslash +++ str1 character
         else if byte <=? 0x1f
         then output +++ "\u00" +++ str1 (hex_digit (Z.shiftr byte 4))
                     +++ str1 (hex_digit (Z.land byte 0x0f))
         else output +++ str1 character)
  end.

Definition append_string (value output : string) : result CanonicalJsonError string :=
  if negb (valid_utf8 value) then Err InvalidUtf8
  else Ok (append_characters value (output +++ str1 dquote) +++ str1 dquote).

(** An element still to be appended: the call [append_value(item, output)]. *)
Abbreviation appender := (string -> result CanonicalJsonError string).

Fixpoint append_items (first : bool) (items : list appender) (output : string) :
    result CanonicalJsonError string :=
  match items with
  | [] => Ok output
  | item :: rest =>
      output <- item (if first then output else output +++ ",");;
      append_items false rest output
  end.

Definition append_array (items : list appender) (output : string) :
    result CanonicalJsonError string :=
  output <- append_items true items (output +++ "[");;
  Ok (output +++ "]").

Fixpoint insert_member {A} (x : string * A) (l : list (string * A)) : list (string * A) :=
  match l with
  | [] => [x]
  | y :: r => if unsigned_bytes_less (fst y) (fst x) then y :: insert_member x r else x :: l
  end.

(** [std::ranges::sort] by key. *)
Definition sort_members {A} (l : list (string * A)) : list (string * A) :=
  fold_right insert_member [] l.

Fixpoint append_members (first : bool) (members : list (string * appender)) (output : string) :
    result CanonicalJsonError string :=
  match members with
  | [] => Ok output
  | (key, item) :: rest =>
      output <- append_string key (if first then output else output +++ ",");;
      output <- item (output +++ ":");;
      append_members false rest output
  end.

Definition append_object (members : list (string * appender)) (output : string) :
    result CanonicalJsonError string :=
  output <- append_members true (sort_members members) (output +++ "{");;
  Ok (output +++ "}").

Fixpoint append_value (value : json) (output : string) : result CanonicalJsonError string :=
  match value with
  | JNull => Ok (output +++ "null")
  | JBool b => Ok (output +++ if b then "true" else "false")
  | JUnsigned n => Ok (output +++ to_string n)
  | JInteger n => Ok (output +++ to_string n)
  | JString s => append_string s output
  | JArray items => append_array (map append_value items) output
  | JObject members => append_object (map (fun kv => (fst kv, append_value (snd kv))) members) output
  | JFloat _ => Err UnsupportedType
  end.

Definition canonical_json (value : json) : result CanonicalJsonError string :=
  append_value value "".

(** * What the output denotes *)

(** Documents up to the integer tag and the order of members. *)
Fixpoint norm (value : json) : json :=
  match value with
  | JUnsigned n => JInteger n
  | JArray l => JArray (map norm l)
  | JObject m => JObject (sort_members (map (fun kv => (fst kv, norm (snd kv))) m))
  | _ => value
  end.

(** Documents the contract supports: no floating-point number, and every
    string and member name is valid UTF-8. *)
Fixpoint canonicalizable (value : json) : bool :=
  match value with
  | JFloat _ => false
  | JString s => valid_utf8 s
  | JArray l => forallb canonicalizable l
  | JObject m => forallb (fun kv => valid_utf8 (fst kv) && canonicalizable (snd kv)) m
  | _ => true
  end.

(** The text of a string literal. *)
Definition escape_char (c : ascii) : string :=
  let byte := byte_of c in
  if (byte =? byte_of dquote) || (byte =? byte_of backslash) then str1 backslash +++ str1 c
  else if byte <=? 0x1f
  then "\u00" +++ str1 (hex_digit (Z.shiftr byte 4)) +++ str1 (hex_digit (Z.land byte 0x0f))
  else str1 c.

Fixpoint escape (s : string) : string :=
  match s with
  | EmptyString => EmptyString
  | String c r => escape_char c +++ escape r
  end.

Definition quoted (s : string) : string := str1 dquote +++ escape s +++ str1 dquote.

#[global] Arguments quoted : simpl never.

Fixpoint joined (first : bool) (l : list string) : string :=
  match l with
  | [] => EmptyString
  | x :: r => (if first then "" else ",") +++ x +++ joined false r
  end.

(** The text of a supported document, without an accumulator. *)
Fixpoint emit (value : json) : string :=
  match value with
  | JNull => "null"
  | JBool b => if b then "true" else "false"
  | JUnsigned n | JInteger n => to_string n
  | JFloat _ => ""
  | JString s => quoted s
  | JArray l => "[" +++ joined true (map emit l) +++ "]"
  | JObject m =>
      "{" +++ joined true (map (fun kv => quoted (fst kv) +++ ":" +++ snd kv)
                              (sort_members (map (fun kv => (fst kv, emit (snd kv))) m))) +++ "}"
  end.

(** * Sorting *)

Lemma insert_member_map {A B} (f : A -> B) x (l : list (string * A)) :
  map (fun kv => (fst kv, f (snd kv))) (insert_member x l) =
  insert_member (fst x, f (snd x)) (map (fun kv => (fst kv, f (snd kv))) l).
Proof.
  induction l as [|y l IH]; cbn; [reflexivity|]. unfold unsigned_bytes_less.
  destruct (str_ltb (fst y) (fst x)); cbn; [f_equal; exact IH | reflexivity].
Qed.

Lemma sort_members_map {A B} (f : A -> B) (l : list (string * A)) :
  sort_members (map (fun kv => (fst kv, f (snd kv))) l) =
  map (fun kv => (fst kv, f (snd kv))) (sort_members l).
Proof.
  unfold sort_members. induction l as [|x l IH]; cbn; [reflexivity|].
  rewrite IH, insert_member_map. reflexivity.
Qed.

Lemma insert_member_perm {A} x (l : list (string * A)) : Permutation (x :: l) (insert_member x l).
Proof.
  induction l as [|y l IH]; cbn; [reflexivity|].
  destruct (unsigned_bytes_less _ _); [|reflexivity].
  rewrite <- IH. apply perm_swap.
Qed.

Lemma sort_members_perm {A} (l : list (string * A)) : Permutation l (sort_members l).
Proof. induction l as [|x l IH]; cbn; [reflexivity|]. rewrite <- insert_member_perm, <- IH. reflexivity. Qed.

(** Insertions of different keys commute, so the iteration order is lost. *)
Lemma insert_member_swap {A} (x y : string * A) l :
  fst x <> fst y -> insert_member x (insert_member y l) = insert_member y (insert_member x l).
Proof.
  intros Hne. unfold unsigned_bytes_less in *.
  assert (forall a b c, str_ltb a b = true -> str_ltb a c = false -> str_ltb c b = true) as Hneg.
  { intros a b c H1 H2. destruct (str_ltb c b) eqn:E; [reflexivity|].
    destruct (str_ltb b c) eqn:E2; [rewrite (str_ltb_trans _ _ _ H1 E2) in H2; discriminate|].
    rewrite (str_ltb_total _ _ E E2) in H2. congruence. }
  induction l as [|z l IH]; cbn; unfold unsigned_bytes_less.
  - destruct (str_ltb (fst y) (fst x)) eqn:E1, (str_ltb (fst x) (fst y)) eqn:E2; try reflexivity.
    + rewrite (str_ltb_asym _ _ E1) in E2. discriminate.
    + destruct Hne. symmetry. apply str_ltb_total; assumption.
  - destruct (str_ltb (fst z) (fst x)) eqn:Ex, (str_ltb (fst z) (fst y)) eqn:Ey;
      cbn; unfold unsigned_bytes_less; rewrite ?Ex, ?Ey; [rewrite IH; reflexivity| | |].
    + rewrite (Hneg _ _ _ Ex Ey). cbn. unfold unsigned_bytes_less. rewrite ?Ex. reflexivity.
    + rewrite (Hneg _ _ _ Ey Ex). cbn. unfold unsigned_bytes_less. rewrite ?Ey. reflexivity.
    + destruct (str_ltb (fst y) (fst x)) eqn:E1, (str_ltb (fst x) (fst y)) eqn:E2;
        cbn; unfold unsigned_bytes_less; rewrite ?Ex, ?Ey; try reflexivity.
      * rewrite (str_ltb_asym _ _ E1) in E2. discriminate.
      * destruct Hne. symmetry. apply str_ltb_total; assumption.
Qed.

Lemma sort_members_order {A} (l1 l2 : list (string * A)) :
  Permutation l1 l2 -> NoDup (map fst l1) -> sort_members l1 = sort_members l2.
Proof.
  unfold sort_members. induction 1; cbn; intros Hnd; [reflexivity | | |].
  - inversion_clear Hnd. rewrite IHPermutation by assumption. reflexivity.
  - inversion_clear Hnd as [|? ? Hnot _]. apply insert_member_swap.
    intros E. apply Hnot. rewrite E. left. reflexivity.
  - rewrite IHPermutation1, IHPermutation2; auto.
    apply (Permutation_NoDup (Permutation_map fst H)). assumption.
Qed.

(** Members in non-descending key order. *)
Definition ascending {A} : list (string * A) -> Prop :=
  Sorted (fun x y => str_ltb (fst y) (fst x) = false).

Lemma insert_member_ascending {A} (x : string * A) l : ascending l -> ascending (insert_member x l).
Proof.
  unfold ascending. induction 1 as [|y l Hs IH Hd]; cbn; [repeat constructor|].
  unfold unsigned_bytes_less. destruct (str_ltb (fst y) (fst x)) eqn:E.
  - constructor; [exact IH|]. destruct Hd as [|z l Hz]; cbn.
    + constructor. apply str_ltb_asym, E.
    + unfold unsigned_bytes_less. destruct (str_ltb (fst z) (fst x)); constructor;
        [exact Hz | apply str_ltb_asym, E].
  - repeat constructor; assumption.
Qed.

Lemma sort_members_ascending {A} (l : list (string * A)) : ascending (sort_members l).
Proof.
  induction l as [|x l IH]; [constructor|]. apply insert_member_ascending, IH.
Qed.

Lemma sort_members_fixed {A} (l : list (string * A)) : ascending l -> sort_members l = l.
Proof.
  unfold ascending, sort_members. induction 1 as [|x l Hs IH Hd]; cbn; [reflexivity|].
  rewrite IH. destruct Hd as [|y l Hy]; cbn; [reflexivity|].
  unfold unsigned_bytes_less. rewrite Hy. reflexivity.
Qed.

Lemma sort_members_idem {A} (l : list (string * A)) : sort_members (sort_members l) = sort_members l.
Proof. apply sort_members_fixed, sort_members_ascending. Qed.

Lemma Forall_sort_members {A} (P : string * A -> Prop) l :
  Forall P l <-> Forall P (sort_members l).
Proof. split; apply Permutation_Forall; [|symmetry]; apply sort_members_perm. Qed.

(** * The accumulator *)

Lemma append_characters_escape value output :
  append_characters value output = output +++ escape value.
Proof.
  revert output. induction value as [|c r IH]; intros output; cbn; [symmetry; apply str_app_nil_r|].
  rewrite IH. unfold escape_char.
  destruct (_ || _); [|destruct (_ <=? _)]; rewrite ?str_app_assoc; reflexivity.
Qed.

Lemma append_string_spec value output :
  append_string value output =
  if valid_utf8 value then Ok (output +++ quoted value) else Err InvalidUtf8.
Proof.
  unfold append_string. destruct (valid_utf8 value); cbn [negb]; [|reflexivity].
  rewrite append_characters_escape. unfold quoted. rewrite !str_app_assoc. reflexivity.
Qed.

(** What an element's appender does: on every accumulator it appends the
    element's text, or on every accumulator it fails. *)
Definition appends (a : appender) (ok : bool) (text : string) : Prop :=
  forall output, if ok then a output = Ok (output +++ text) else exists e, a output = Err e.

Lemma append_items_spec {A} (f : A -> appender) (ok : A -> bool) (text : A -> string) l :
  Forall (fun x => appends (f x) (ok x) (text x)) l ->
  forall first output,
  if forallb ok l
  then append_items first (map f l) output = Ok (output +++ joined first (map text l))
  else exists e, append_items first (map f l) output = Err e.
Proof.
  induction 1 as [|x l Hx _ IH]; intros first output; cbn; [rewrite str_app_nil_r; reflexivity|].
  specialize (Hx (if first then output else output +++ ",")).
  destruct (ok x); cbn.
  - rewrite Hx. cbn. specialize (IH false ((if first then output else output +++ ",") +++ text x)).
    destruct (forallb ok l); [|exact IH]. rewrite IH. f_equal.
    destruct first; rewrite ?str_app_assoc; reflexivity.
  - destruct Hx as [e ->]. exists e. reflexivity.
Qed.

Lemma append_members_spec {A} (f : A -> appender) (ok : A -> bool) (text : A -> string) l :
  Forall (fun kv : string * A => appends (f (snd kv)) (ok (snd kv)) (text (snd kv))) l ->
  forall first output,
  if forallb (fun kv => valid_utf8 (fst kv) && ok (snd kv)) l
  then append_members first (map (fun kv => (fst kv, f (snd kv))) l) output =
       Ok (output +++ joined first (map (fun kv => quoted (fst kv) +++ ":" +++ text (snd kv)) l))
  else exists e, append_members first (map (fun kv => (fst kv, f (snd kv))) l) output = Err e.
Proof.
  induction 1 as [|[k x] l Hx _ IH]; intros first output; cbn; [rewrite str_app_nil_r; reflexivity|].
  rewrite append_string_spec. destruct (valid_utf8 k); cbn; [|eauto].
  specialize (Hx (((if first then output else output +++ ",") +++ quoted k) +++ ":")).
  cbn in Hx. destruct (ok x); cbn.
  - rewrite Hx. cbn. match goal with |- context [append_members false _ ?o] => specialize (IH false o) end.
    destruct (forallb _ l); [|exact IH]. rewrite IH. f_equal.
    destruct first; rewrite ?str_app_assoc; reflexivity.
  - destruct Hx as [e ->]. exists e. reflexivity.
Qed.

Lemma forallb_sort_members {A} (p : string * A -> bool) l :
  forallb p (sort_members l) = forallb p l.
Proof.
  apply eq_true_iff_eq. rewrite !forallb_forall.
  pose proof (sort_members_perm l) as Hp.
  split; intros H x Hx; apply H; [apply (Permutation_in _ Hp Hx)|].
  apply (Permutation_in _ (Permutation_sym Hp) Hx).
Qed.

Lemma append_value_spec v : appends (append_value v) (canonicalizable v) (emit v).
Proof.
  induction v using json_nested_ind; intros output; cbn [append_value canonicalizable emit].
  1-5: eauto.
  - rewrite append_string_spec. destruct (valid_utf8 s); eauto.
  - unfold append_array. pose proof (append_items_spec append_value canonicalizable emit l H true (output +++ "[")) as A.
    destruct (forallb canonicalizable l); [|destruct A as [e A]; exists e];
      rewrite A; cbn; rewrite ?str_app_assoc; reflexivity.
  - unfold append_object. rewrite sort_members_map.
    apply Forall_sort_members in H.
    pose proof (append_members_spec append_value canonicalizable emit _ H true (output +++ "{")) as A.
    rewrite forallb_sort_members in A.
    destruct (forallb _ m); [|destruct A as [e A]; exists e]; rewrite A; cbn; [|reflexivity].
    rewrite sort_members_map, map_map, ?str_app_assoc. reflexivity.
Qed.

(** * Reading the text back *)

Definition hex_value (c : ascii) : Z :=
  if is_digit c then byte_of c - 48 else byte_of c - 87.

(** The character denoted at the front of the body of a string literal. *)
Definition unescape_char (s : string) : option (ascii * string) :=
  match s with
  | EmptyString => None
  | String c r =>
      if Ascii.eqb c dquote then None
      else if Ascii.eqb c backslash then
        match r with
        | String "u" (String _ (String _ (String h (String l r')))) =>
            Some (ascii_of_Z (hex_value h * 16 + hex_value l), r')
        | String d r' => Some (d, r')
        | EmptyString => None
        end
      else Some (c, r)
  end.

Lemma unescape_escape c r : unescape_char (escape_char c +++ r) = Some (c, r).
Proof. destruct c as [[] [] [] [] [] [] [] []]; reflexivity. Qed.

Lemma escape_inj s1 s2 r1 r2 :
  escape s1 +++ String dquote r1 = escape s2 +++ String dquote r2 -> s1 = s2 /\ r1 = r2.
Proof.
  revert s2. induction s1 as [|c s1 IH]; intros [|d s2]; cbn [escape]; intros H.
  - injection H. auto.
  - apply (f_equal unescape_char) in H. rewrite str_app_assoc, unescape_escape in H. discriminate.
  - apply (f_equal unescape_char) in H. rewrite str_app_assoc, unescape_escape in H. discriminate.
  - apply (f_equal unescape_char) in H. rewrite !str_app_assoc, !unescape_escape in H.
    injection H as -> H. destruct (IH _ H). split; congruence.
Qed.

Lemma quoted_inj s1 s2 r1 r2 : quoted s1 +++ r1 = quoted s2 +++ r2 -> s1 = s2 /\ r1 = r2.
Proof.
  unfold quoted. cbn. intros H. injection H. rewrite !str_app_assoc. apply escape_inj.
Qed.

(** Numbers: digits and a sign, ended by a delimiter. *)
Definition delim_char (c : ascii) : bool :=
  Ascii.eqb c "," || Ascii.eqb c "]" || Ascii.eqb c "}".

Definition delimited (r : string) : Prop :=
  match r with EmptyString => True | String c _ => delim_char c = true end.

Lemma delim_not_num c : delim_char c = true -> num_char c = false.
Proof. destruct c as [[] [] [] [] [] [] [] []]; vm_compute; congruence. Qed.

Lemma span_inj a b r1 r2 :
  str_all num_char a = true -> str_all num_char b = true -> delimited r1 -> delimited r2 ->
  a +++ r1 = b +++ r2 -> a = b /\ r1 = r2.
Proof.
  revert b. induction a as [|c a IH]; intros [|d b]; cbn; intros Ha Hb D1 D2 H; bool_split.
  - auto.
  - subst r1. apply delim_not_num in D1. congruence.
  - subst r2. apply delim_not_num in D2. congruence.
  - injection H as -> H. destruct (IH b) as [-> ->]; auto.
Qed.

(** * Injectivity *)

(** A text that starts a value: non-empty, and not with a delimiter. *)
Definition starts_value (t : string) : Prop :=
  match t with EmptyString => False | String c _ => delim_char c = false end.

Lemma num_not_delim c : num_char c = true -> delim_char c = false.
Proof.
  intros H. destruct (delim_char c) eqn:E; [|reflexivity]. apply delim_not_num in E. congruence.
Qed.

Lemma emit_starts v : canonicalizable v = true -> starts_value (emit v).
Proof.
  destruct v as [|b|n|n|f|s|l|m]; cbn; try discriminate; intros _; try reflexivity.
  - destruct b; reflexivity.
  - destruct (to_string_starts n) as (c & t & -> & H). apply num_not_delim, H.
  - destruct (to_string_starts n) as (c & t & -> & H). apply num_not_delim, H.
Qed.

Lemma joined_inj {A B} (text : A -> string) (g : A -> B) (close : ascii) l1 l2 :
  delim_char close = true -> close <> ","%char ->
  (forall x y r1 r2, In x l1 -> In y l2 -> delimited r1 -> delimited r2 ->
     text x +++ r1 = text y +++ r2 -> g x = g y /\ r1 = r2) ->
  (forall x, In x l1 \/ In x l2 -> starts_value (text x)) ->
  forall first r1 r2,
  joined first (map text l1) +++ String close r1 = joined first (map text l2) +++ String close r2 ->
  map g l1 = map g l2 /\ r1 = r2.
Proof.
  intros Hc Hcomma. revert l2. induction l1 as [|x l1 IH]; intros [|y l2] Hinj Hst first r1 r2; cbn; intros H.
  - injection H. auto.
  - exfalso. destruct first; [|injection H; congruence]. cbn in H.
    specialize (Hst y (or_intror (or_introl eq_refl))).
    destruct (text y); [contradiction|]. injection H as <- _. cbn in Hst. congruence.
  - exfalso. destruct first; [|injection H; congruence]. cbn in H.
    specialize (Hst x (or_introl (or_introl eq_refl))).
    destruct (text x); [contradiction|]. injection H as -> _. cbn in Hst. congruence.
  - rewrite !str_app_assoc in H. apply str_app_inj_l in H.
    assert (forall l r, delimited (joined false (map text l) +++ String close r)) as Hd
      by (intros [|]; cbn; auto).
    apply Hinj in H; [|left; reflexivity | left; reflexivity | apply Hd | apply Hd].
    destruct H as [-> H]. apply IH in H; [destruct H; split; congruence | |].
    + intros. apply Hinj; auto; right; assumption.
    + intros z [Hz|Hz]; apply Hst; [left|right]; right; assumption.
Qed.

Definition member_text (kv : string * json) : string := quoted (fst kv) +++ ":" +++ emit (snd kv).

Lemma emit_object m :
  emit (JObject m) = "{" +++ joined true (map member_text (sort_members m)) +++ "}".
Proof.
  cbn [emit]. rewrite (sort_members_map emit), map_map. reflexivity.
Qed.

Lemma norm_object m :
  norm (JObject m) = JObject (map (fun kv => (fst kv, norm (snd kv))) (sort_members m)).
Proof. cbn [norm]. rewrite (sort_members_map norm). reflexivity. Qed.

Definition determined (v1 : json) : Prop :=
  forall v2 r1 r2, canonicalizable v1 = true -> canonicalizable v2 = true ->
  delimited r1 -> delimited r2 -> emit v1 +++ r1 = emit v2 +++ r2 -> norm v1 = norm v2 /\ r1 = r2.

(** A number's text does not start like anything else. *)
Ltac not_number H n :=
  let c := fresh "c" in let t := fresh "t" in let E := fresh "E" in let Hn := fresh "Hn" in
  destruct (to_string_starts n) as (c & t & E & Hn);
  cbn [emit] in H; unfold quoted in H; cbn in H; rewrite E in H; cbn in H;
  injection H; intros; subst c; discriminate Hn.

Lemma determined_array l : Forall determined l -> determined (JArray l).
Proof.
  intros IH v2 r1 r2 C1 C2 D1 D2 H. cbn [canonicalizable] in C1. rewrite forallb_forall in C1.
  rewrite Forall_forall in IH.
  destruct v2 as [|b|n|n|f|s|l2|m2]; try discriminate C2; try discriminate H.
  - destruct b; discriminate H.
  - not_number H n.
  - not_number H n.
  - cbn [emit] in H. rewrite !str_app_assoc in H. apply str_app_inj_l in H.
    cbn [canonicalizable] in C2. rewrite forallb_forall in C2.
    apply (joined_inj emit norm "]") in H; [|reflexivity|discriminate| |].
    + destruct H as [H ->]. cbn [norm]. split; congruence.
    + intros x y s1 s2 Hx Hy. apply IH; auto.
    + intros x [Hx|Hx]; apply emit_starts; auto.
Qed.

Lemma In_sorted {A} (x : string * A) l : In x (sort_members l) <-> In x l.
Proof.
  pose proof (sort_members_perm l) as P. split; apply Permutation_in; [symmetry|]; exact P.
Qed.

Lemma determined_object m : Forall (fun kv => determined (snd kv)) m -> determined (JObject m).
Proof.
  intros IH v2 r1 r2 C1 C2 D1 D2 H. cbn [canonicalizable] in C1. rewrite forallb_forall in C1.
  rewrite Forall_forall in IH.
  destruct v2 as [|b|n|n|f|s|l2|m2]; try discriminate C2; try discriminate H.
  - destruct b; discriminate H.
  - not_number H n.
  - not_number H n.
  - rewrite !emit_object, !str_app_assoc in H. apply str_app_inj_l in H.
    cbn [canonicalizable] in C2. rewrite forallb_forall in C2.
    apply (joined_inj member_text (fun kv => (fst kv, norm (snd kv))) "}") in H;
      [|reflexivity|discriminate| |].
    + destruct H as [H ->]. rewrite !norm_object, H. auto.
    + intros [k1 x] [k2 y] s1 s2 Hx Hy Ds1 Ds2 E. rewrite In_sorted in Hx, Hy.
      specialize (C1 _ Hx). specialize (C2 _ Hy). cbn in C1, C2. bool_split.
      unfold member_text in E. cbn [fst snd] in *. rewrite !str_app_assoc in E.
      apply quoted_inj in E. destruct E as [-> E]. apply str_app_inj_l in E.
      apply (IH _ Hx) in E; auto. cbn in *. destruct E. split; congruence.
    + intros x _. reflexivity.
Qed.

Lemma determined_number n v1 : emit v1 = to_string n -> norm v1 = JInteger n -> determined v1.
Proof.
  intros E1 N1 v2 r1 r2 C1 C2 D1 D2 H. rewrite E1 in H. rewrite N1.
  destruct v2 as [|b|k|k|f|s|l2|m2]; try discriminate C2.
  3, 4: destruct (span_inj _ _ _ _ (to_string_chars n) (to_string_chars k) D1 D2 H) as [Hn ->];
        apply to_string_inj in Hn; subst; auto.
  - not_number H n.
  - destruct b; not_number H n.
  - not_number H n.
  - not_number H n.
  - not_number H n.
Qed.

Lemma determined_all v : determined v.
Proof.
  induction v using json_nested_ind.
  3, 4: apply (determined_number n); reflexivity.
  5: apply determined_array; assumption.
  5: apply determined_object; assumption.
  all: intros v2 r1 r2 C1 C2 D1 D2 H; try discriminate C1;
    destruct v2 as [|b2|k|k|f2|s2|l2|m2]; try discriminate C2; try (not_number H k).
  all: try destruct b; try destruct b2; try discriminate H; try (not_number H k).
  all: cbn [emit] in H.
  all: try (apply quoted_inj in H as [-> ->]; auto; fail).
  all: try (injection H as ->; auto; fail).
Qed.

(** * Theorems *)

(** [canonical_json] succeeds exactly on the documents without a
    floating-point number whose strings and member names, at every depth, are
    valid UTF-8; on every other document it returns an error and no text. *)
Theorem canonical_json_total (value : json) :
  is_ok (canonical_json value) = canonicalizable value.
Proof.
  unfold canonical_json. pose proof (append_value_spec value "") as A.
  destruct (canonicalizable value); [rewrite A | destruct A as [e ->]]; reflexivity.
Qed.

Lemma canonical_json_emit value text :
  canonical_json value = Ok text -> canonicalizable value = true /\ text = emit value.
Proof.
  unfold canonical_json. pose proof (append_value_spec value "") as A. intros H.
  destruct (canonicalizable value); [|destruct A as [e A]]; rewrite A in H;
    [injection H as <-; auto | discriminate].
Qed.

(** [norm] keeps the text. *)
Lemma emit_norm v : emit (norm v) = emit v.
Proof.
  induction v using json_nested_ind; try reflexivity.
  - cbn [norm emit]. rewrite map_map. f_equal. f_equal. f_equal.
    apply map_ext_in. rewrite Forall_forall in H. exact H.
  - rewrite norm_object, !emit_object, sort_members_map, map_map. do 3 f_equal.
    rewrite (sort_members_idem m). apply map_ext_in. intros [k x] Hx.
    rewrite In_sorted in Hx. rewrite Forall_forall in H.
    unfold member_text. rewrite <- (H _ Hx). reflexivity.
Qed.

(** C39.  canonical bytes identify documents: two documents with canonical
    bytes have the same bytes exactly when they are equal up to the integer tag
    and the order of object members, at every depth.  In particular a
    fingerprint taken of the bytes never confuses two different requests, and
    does not depend on the order in which an object is traversed. *)
Theorem canonical_json_identifies (v1 v2 : json) (t1 t2 : string) :
  canonical_json v1 = Ok t1 -> canonical_json v2 = Ok t2 ->
  (t1 = t2 <-> norm v1 = norm v2).
Proof.
  intros H1 H2. apply canonical_json_emit in H1 as [C1 ->].
  apply canonical_json_emit in H2 as [C2 ->]. split; intros H.
  - apply (determined_all v1 v2 "" ""); try assumption; cbn; auto. rewrite !str_app_nil_r. exact H.
  - rewrite <- (emit_norm v1), <- (emit_norm v2), H. reflexivity.
Qed.

Definition sample_left : json :=
  JObject [("b", JUnsigned 2); ("a", JArray [JString "x"; JNull])].
Definition sample_right : json :=
  JObject [("a", JArray [JString "x"; JNull]); ("b", JInteger 2)].

Lemma canonical_json_identifies_witness :
  exists t1 t2, canonical_json sample_left = Ok t1 /\ canonical_json sample_right = Ok t2 /\ t1 = t2.
Proof.
  eexists. eexists. split; [|split].
  3: eapply (canonical_json_identifies sample_left sample_right).
  all: vm_compute; reflexivity.
Defined.

(** the canonical bytes do not depend on the iteration order of an
    object's members. *)
Theorem canonical_json_order_independent (m1 m2 : list (string * json)) :
  Permutation m1 m2 -> NoDup (map fst m1) ->
  canonical_json (JObject m1) = canonical_json (JObject m2).
Proof.
  intros Hp Hnd. unfold canonical_json. cbn [append_value]. unfold append_object.
  rewrite !sort_members_map, (sort_members_order _ _ Hp Hnd). reflexivity.
Qed.

Lemma canonical_json_order_independent_witness :
  canonical_json (JObject [("b", JUnsigned 2); ("a", JNull)]) =
  canonical_json (JObject [("a", JNull); ("b", JUnsigned 2)]).
Proof.
  apply canonical_json_order_independent; [constructor|].
  cbn. repeat constructor; cbn; intuition discriminate.
Defined.
