(* ===== verification/Sha256.v ===== *)
(** SHA-256 (src/src/common/sha256.hpp, sha256.cpp): the incremental hash the
    fingerprints, audit chains and snapshot identities are built on, against a
    one-shot definition with explicit message padding. *)
From S2P Require Import Prelude Json CanonicalJson.

(** * The implementation *)

(** Four constants to a row. *)
Definition kRoundConstants : list Z :=
  List.concat
    [[0x428a2f98; 0x71374491; 0xb5c0fbcf; 0xe9b5dba5];
     [0x3956c25b; 0x59f111f1; 0x923f82a4; 0xab1c5ed5];
     [0xd807aa98; 0x12835b01; 0x243185be; 0x550c7dc3];
     [0x72be5d74; 0x80deb1fe; 0x9bdc06a7; 0xc19bf174];
     [0xe49b69c1; 0xefbe4786; 0x0fc19dc6; 0x240ca1cc];
     [0x2de92c6f; 0x4a7484aa; 0x5cb0a9dc; 0x76f988da];
     [0x983e5152; 0xa831c66d; 0xb00327c8; 0xbf597fc7];
     [0xc6e00bf3; 0xd5a79147; 0x06ca6351; 0x14292967];
     [0x27b70a85; 0x2e1b2138; 0x4d2c6dfc; 0x53380d13];
     [0x650a7354; 0x766a0abb; 0x81c2c92e; 0x92722c85];
     [0xa2bfe8a1; 0xa81a664b; 0xc24b8b70; 0xc76c51a3];
     [0xd192e819; 0xd6990624; 0xf40e3585; 0x106aa070];
     [0x19a4c116; 0x1e376c08; 0x2748774c; 0x34b0bcb5];
     [0x391c0cb3; 0x4ed8aa4a; 0x5b9cca4f; 0x682e6ff3];
     [0x748f82ee; 0x78a5636f; 0x84c87814; 0x8cc70208];
     [0x90befffa; 0xa4506ceb; 0xbef9a3f7; 0xc67178f2]].

(** [std::rotr] on 32 bits. *)
Definition rotr (x n : Z) : Z := Z.lor (Z.shiftr x n) (u32 (Z.shiftl x (32 - n))).
Definition not32 (x : Z) : Z := Z.lxor x 0xFFFFFFFF.

Definition at_ (l : list Z) (i : nat) : Z := nth i l 0.

(** The first sixteen words: the block as big-endian 32-bit words. *)
Definition load_words (block : list Z) : list Z :=
  map (fun index =>
    let offset := (index * 4)%nat in
    Z.lor (Z.lor (Z.lor (Z.shiftl (at_ block offset) 24)
                        (Z.shiftl (at_ block (offset + 1)) 16))
                 (Z.shiftl (at_ block (offset + 2)) 8))
          (at_ block (offset + 3)))
    (seq 0 16).

Definition extend_words (words : list Z) : list Z :=
  fold_left (fun words index =>
    let first := at_ words (index - 15) in
    let second := at_ words (index - 2) in
    let sigma0 := Z.lxor (Z.lxor (rotr first 7) (rotr first 18)) (Z.shiftr first 3) in
    let sigma1 := Z.lxor (Z.lxor (rotr second 17) (rotr second 19)) (Z.shiftr second 10) in
    words ++ [u32 (at_ words (index - 16) + sigma0 + at_ words (index - 7) + sigma1)])
    (seq 16 48) words.

(** One round on the working variables [a ... h]. *)
Definition round (words v : list Z) (index : nat) : list Z :=
  match v with
  | [a; b; c; d; e; f; g; h] =>
      let sum1 := Z.lxor (Z.lxor (rotr e 6) (rotr e 11)) (rotr e 25) in
      let choose := Z.lxor (Z.land e f) (Z.land (not32 e) g) in
      let temporary1 := u32 (h + sum1 + choose + at_ kRoundConstants index + at_ words index) in
      let sum0 := Z.lxor (Z.lxor (rotr a 2) (rotr a 13)) (rotr a 22) in
      let majority := Z.lxor (Z.lxor (Z.land a b) (Z.land a c)) (Z.land b c) in
      let temporary2 := u32 (sum0 + majority) in
      [u32 (temporary1 + temporary2); a; b; c; u32 (d + temporary1); e; f; g]
  | _ => v
  end.

Definition transform (digest block : list Z) : list Z :=
  let words := extend_words (load_words block) in
  let v := fold_left (round words) (seq 0 64) digest in
  map (fun p => u32 (fst p + snd p)) (combine digest v).

Record Sha256 : Type := mkSha256 {
  digest_ : list Z;
  block_ : list Z;
  block_size_ : nat;
  total_size_ : Z
}.

Definition initial_digest : list Z :=
  [0x6a09e667; 0xbb67ae85; 0x3c6ef372; 0xa54ff53a;
   0x510e527f; 0x9b05688c; 0x1f83d9ab; 0x5be0cd19].

Definition new_sha256 : Sha256 := mkSha256 initial_digest (repeat 0 64) 0 0.

(** [std::copy_n] into the block at [pos]. *)
Definition splice (block : list Z) (pos : nat) (data : list Z) : list Z :=
  firstn pos block ++ data ++ skipn (pos + List.length data) block.

(** The copy loop of [update]; every iteration consumes at least one byte, so
    the number of bytes is enough fuel. *)
Fixpoint update_loop (fuel : nat) (st : Sha256) (bytes : list Z) : Sha256 :=
  match bytes, fuel with
  | [], _ => st
  | _, O => st
  | _, S fuel' =>
      let copied := Nat.min (List.length bytes) (64 - block_size_ st) in
      let block := splice (block_ st) (block_size_ st) (firstn copied bytes) in
      let size := (block_size_ st + copied)%nat in
      let st' :=
        if Nat.eqb size 64
        then mkSha256 (transform (digest_ st) block) block 0 (total_size_ st)
        else mkSha256 (digest_ st) block size (total_size_ st) in
      update_loop fuel' st' (skipn copied bytes)
  end.

Definition update (st : Sha256) (bytes : list Z) : result string Sha256 :=
  if u64_max - total_size_ st <? Z.of_nat (List.length bytes)
  then Err "SHA-256 input is too large"
  else Ok (update_loop (List.length bytes)
             (mkSha256 (digest_ st) (block_ st) (block_size_ st)
                       (u64 (total_size_ st + Z.of_nat (List.length bytes)))) bytes).

Definition update_string (st : Sha256) (bytes : string) : result string Sha256 :=
  update st (bytes_of bytes).

(** The eight length bytes, big endian. *)
Definition length_bytes (bit_length : Z) : list Z :=
  map (fun index => u8 (Z.shiftr bit_length ((7 - Z.of_nat index) * 8))) (seq 0 8).

Definition digest_bytes (digest : list Z) : list Z :=
  flat_map (fun word => [u8 (Z.shiftr word 24); u8 (Z.shiftr word 16); u8 (Z.shiftr word 8); u8 word])
           digest.

Definition finish (st : Sha256) : list Z :=
  let bit_length := u64 (total_size_ st * 8) in
  let block := splice (block_ st) (block_size_ st) [0x80] in
  let size := S (block_size_ st) in
  let '(digest, block, size) :=
    if Nat.ltb 56 size
    then let block := splice block size (repeat 0 (64 - size)) in
         (transform (digest_ st) block, block, 0%nat)
    else (digest_ st, block, size) in
  let block := splice block size (repeat 0 (56 - size)) in
  let block := splice block 56 (length_bytes bit_length) in
  digest_bytes (transform digest block).

Definition hex (digest : list Z) : string :=
  fold_right (fun byte rest =>
    String (hex_digit (Z.shiftr byte 4)) (String (hex_digit (Z.land byte 0x0f)) rest))
    EmptyString digest.

Definition finish_hex (st : Sha256) : string := hex (finish st).

Definition sha256_hex (bytes : string) : result string string :=
  st <- update_string new_sha256 bytes;;
  Ok (finish_hex st).

Definition sha256_string (bytes : string) : result string string :=
  h <- sha256_hex bytes;;
  Ok ("sha256:" +++ h).

Definition domain_separated_sha256 (domain payload : string) : result string string :=
  if str_contains nul domain then Err "SHA-256 domain contains its separator"
  else
    st <- update_string new_sha256 domain;;
    st <- update st [0];;
    st <- update_string st payload;;
    Ok ("sha256:" +++ finish_hex st).

(** * The one-shot definition *)

(** The message, the bit 1, the least number of zero bits that makes the
    length 448 modulo 512, and the length in bits as a 64-bit number. *)
Definition padding_zeros (len : nat) : nat := Z.to_nat ((55 - Z.of_nat len) mod 64).

Definition padding (len : nat) : list Z :=
  0x80 :: repeat 0 (padding_zeros len) ++ length_bytes (u64 (Z.of_nat len * 8)).

(** Folds [transform] over the complete blocks; returns the incomplete rest. *)
Fixpoint absorb (fuel : nat) (digest bytes : list Z) : list Z * list Z :=
  match fuel with
  | O => (digest, bytes)
  | S fuel' =>
      if Nat.leb 64 (List.length bytes)
      then absorb fuel' (transform digest (firstn 64 bytes)) (skipn 64 bytes)
      else (digest, bytes)
  end.

Definition sha256 (message : list Z) : list Z :=
  let padded := message ++ padding (List.length message) in
  digest_bytes (fst (absorb (List.length padded) initial_digest padded)).

(** A stream of [update] calls. *)
Fixpoint update_all (st : Sha256) (chunks : list (list Z)) : result string Sha256 :=
  match chunks with
  | [] => Ok st
  | c :: rest => st <- update st c;; update_all st rest
  end.

Example sha256_abc :
  sha256_hex "abc" = Ok "ba7816bf8f01cfea414140de5dae2223b00361a396177a9cb410ff61f20015ad".
Proof. vm_compute. reflexivity. Qed.

Example sha256_two_blocks :
  sha256_hex "abcdbcdecdefdefgefghfghighijhijkijkljklmklmnlmnomnopnopq" =
  Ok "248d6a61d20638b8e5c026930c3e6039a33ce45964ff2167f6ecedd419db06c1".
Proof. vm_compute. reflexivity. Qed.

(** * The separator *)

Lemma bytes_of_inj s t : bytes_of s = bytes_of t -> s = t.
Proof.
  revert t. induction s as [|c s IH]; intros [|d t] H; try discriminate; [reflexivity|].
  injection H as Hc Hs. apply byte_of_inj in Hc. f_equal; auto.
Qed.

Lemma separated_inj domain payload domain' payload' :
  str_contains nul domain = false -> str_contains nul domain' = false ->
  bytes_of domain ++ 0 :: bytes_of payload = bytes_of domain' ++ 0 :: bytes_of payload' ->
  domain = domain' /\ payload = payload'.
Proof.
  unfold str_contains.
  revert domain'. induction domain as [|c s IH]; intros [|d t] N N' H.
  - injection H as H. auto using bytes_of_inj.
  - injection H as Hd _. change 0 with (byte_of nul) in Hd. apply byte_of_inj in Hd.
    subst d. discriminate N'.
  - injection H as Hd _. change 0 with (byte_of nul) in Hd. apply byte_of_inj in Hd.
    subst c. discriminate N.
  - injection H as Hc Hs. apply byte_of_inj in Hc. subst d. cbn [str_find] in N, N'.
    destruct (Ascii.eqb nul c); [discriminate|].
    destruct (IH t) as [-> ->]; auto.
    + destruct (str_find nul s); [discriminate | reflexivity].
    + destruct (str_find nul t); [discriminate | reflexivity].
Qed.

(** * Absorbing blocks *)

Definition absorb_all (digest bytes : list Z) : list Z * list Z :=
  absorb (List.length bytes) digest bytes.

Lemma absorb_fuel n m d bytes :
  (List.length bytes <= n)%nat -> (List.length bytes <= m)%nat -> absorb n d bytes = absorb m d bytes.
Proof.
  revert m d bytes. induction n as [|n IH]; intros m d bytes Hn Hm.
  - destruct bytes; [destruct m; reflexivity | cbn in Hn; lia].
  - destruct m as [|m]; [destruct bytes; [reflexivity | cbn in Hm; lia]|].
    cbn [absorb]. destruct (Nat.leb_spec 64 (List.length bytes)); [|reflexivity].
    apply IH; rewrite length_skipn; lia.
Qed.

Lemma absorb_short d bytes : (List.length bytes < 64)%nat -> absorb_all d bytes = (d, bytes).
Proof.
  intros H. unfold absorb_all. destruct (List.length bytes) eqn:E; [reflexivity|].
  cbn [absorb]. rewrite E. destruct (Nat.leb_spec 64 (S n)); [lia | reflexivity].
Qed.

Lemma absorb_block d block rest :
  List.length block = 64%nat ->
  absorb_all d (block ++ rest) = absorb_all (transform d block) rest.
Proof.
  intros H. unfold absorb_all.
  rewrite (absorb_fuel _ (S (List.length (block ++ rest)))) by lia. cbn [absorb].
  rewrite length_app, H. destruct (Nat.leb_spec 64 (64 + List.length rest)); [|lia].
  rewrite firstn_app, skipn_app, H, Nat.sub_diag, firstn_O, app_nil_r.
  rewrite firstn_all2, skipn_all2 by lia. cbn [skipn app]. apply absorb_fuel; lia.
Qed.

Lemma absorb_app d a b :
  absorb_all d (a ++ b) = let '(d', r) := absorb_all d a in absorb_all d' (r ++ b).
Proof.
  remember (List.length a) as n eqn:Hn. revert d a Hn.
  induction n as [n IH] using (well_founded_induction Wf_nat.lt_wf). intros d a Hn.
  destruct (Nat.ltb_spec (List.length a) 64) as [Hs|Hl].
  { rewrite (absorb_short d a) by lia. reflexivity. }
  rewrite <- (firstn_skipn 64 a) at 1 2. rewrite <- app_assoc.
  assert (List.length (firstn 64 a) = 64%nat) by (rewrite length_firstn; lia).
  rewrite (absorb_block d (firstn 64 a) (skipn 64 a ++ b)) by assumption.
  rewrite (absorb_block d (firstn 64 a) (skipn 64 a)) by assumption.
  apply (IH (List.length (skipn 64 a))); [rewrite length_skipn; lia | reflexivity].
Qed.

Lemma absorb_rest d bytes :
  List.length (snd (absorb_all d bytes)) = (List.length bytes mod 64)%nat.
Proof.
  remember (List.length bytes) as n eqn:Hn. revert d bytes Hn.
  induction n as [n IH] using (well_founded_induction Wf_nat.lt_wf). intros d bytes Hn.
  destruct (Nat.ltb_spec n 64) as [Hs|Hl].
  - rewrite absorb_short, Nat.mod_small by lia. cbn. congruence.
  - rewrite <- (firstn_skipn 64 bytes), absorb_block by (rewrite length_firstn; lia).
    rewrite (IH (n - 64)%nat) by (rewrite ?length_skipn; lia).
    replace n with ((n - 64) + 1 * 64)%nat at 2 by lia. rewrite Nat.Div0.mod_add. reflexivity.
Qed.

(** * The streaming invariant *)

Lemma splice_app (pre rest data : list Z) pos :
  List.length pre = pos ->
  splice (pre ++ rest) pos data = pre ++ data ++ skipn (List.length data) rest.
Proof.
  intros <-. unfold splice. rewrite firstn_app, Nat.sub_diag, firstn_O, app_nil_r, firstn_all.
  do 2 f_equal. rewrite skipn_app, skipn_all2 by lia. cbn. f_equal. lia.
Qed.

(** The bytes absorbed so far are [message]. *)
Definition absorbed (st : Sha256) (message : list Z) : Prop :=
  absorb_all initial_digest message = (digest_ st, firstn (block_size_ st) (block_ st)) /\
  List.length (block_ st) = 64%nat /\ (block_size_ st < 64)%nat.

Lemma absorbed_new : absorbed new_sha256 [].
Proof. repeat split; cbn; lia. Qed.

Lemma update_loop_absorbed fuel st message bytes :
  (List.length bytes <= fuel)%nat -> absorbed st message ->
  absorbed (update_loop fuel st bytes) (message ++ bytes) /\
  total_size_ (update_loop fuel st bytes) = total_size_ st.
Proof.
  revert st message bytes. induction fuel as [|fuel IH]; intros st message bytes Hf Hinv;
    (destruct bytes as [|b bytes'] eqn:Eb; [rewrite app_nil_r; cbn; auto|]).
  { cbn in Hf; lia. }
  rewrite <- Eb in *. destruct Hinv as (Ha & Hb & Hs).
  assert (List.length bytes <> 0%nat) as Hne by (rewrite Eb; discriminate).
  cbn [update_loop]. rewrite Eb, <- Eb. 
  set (copied := Nat.min (List.length bytes) (64 - block_size_ st)).
  assert (List.length (firstn copied bytes) = copied) as Hc by (rewrite length_firstn; lia).
  assert (List.length (firstn (block_size_ st) (block_ st)) = block_size_ st) as Hp
    by (rewrite length_firstn; lia).
  assert (absorb_all initial_digest (message ++ firstn copied bytes) =
          absorb_all (digest_ st) (firstn (block_size_ st) (block_ st) ++ firstn copied bytes)) as Hab
    by (rewrite absorb_app, Ha; reflexivity).
  replace (message ++ bytes) with ((message ++ firstn copied bytes) ++ skipn copied bytes)
    by (rewrite <- app_assoc, firstn_skipn; reflexivity).
  match goal with |- context [update_loop fuel ?s _] => set (st' := s) end.
  enough (absorbed st' (message ++ firstn copied bytes) /\ total_size_ st' = total_size_ st) as [Hi Ht].
  { rewrite <- Ht. apply IH; [rewrite length_skipn; lia | exact Hi]. }
  unfold st', splice, absorbed. rewrite Hc, Hab.
  destruct (Nat.eqb_spec (block_size_ st + copied) 64) as [E|E]; cbn [digest_ block_ block_size_ total_size_].
  - rewrite E, (skipn_all2 (n := 64)), app_nil_r by lia.
    rewrite <- (app_nil_r (_ ++ _)) at 1.
    rewrite absorb_block by (rewrite length_app; lia).
    rewrite length_app. repeat split; lia.
  - rewrite absorb_short by (rewrite length_app; lia).
    set (pre := firstn (block_size_ st) (block_ st) ++ firstn copied bytes).
    assert (List.length pre = (block_size_ st + copied)%nat) as Hl
      by (unfold pre; rewrite length_app; lia).
    rewrite app_assoc. fold pre. rewrite length_app, length_skipn, Hl.
    rewrite <- Hl at 1. rewrite firstn_app, Nat.sub_diag, firstn_O, app_nil_r, firstn_all.
    repeat split; lia.
Qed.

(** * Finishing *)

Lemma padding_zeros_spec len :
  padding_zeros len =
  if Nat.ltb 56 (S (len mod 64)) then (119 - len mod 64)%nat else (55 - len mod 64)%nat.
Proof.
  unfold padding_zeros. pose proof (Nat.div_mod_eq len 64).
  pose proof (Nat.mod_upper_bound len 64).
  destruct (Nat.ltb_spec 56 (S (len mod 64))); apply Nat2Z.inj;
    rewrite Z2Nat.id by (apply Z.mod_pos_bound; lia); Z.div_mod_to_equations; lia.
Qed.

Lemma absorb_last d block : List.length block = 64%nat -> fst (absorb_all d block) = transform d block.
Proof.
  intros H. rewrite <- (app_nil_r block), absorb_block, absorb_short by (cbn; lia || exact H).
  rewrite app_nil_r. reflexivity.
Qed.

(** The final block when the length fits behind the message. *)
Lemma final_one_block r rest lb :
  (List.length r < 56)%nat -> (List.length r + List.length rest = 64)%nat -> List.length lb = 8%nat ->
  splice (splice (r ++ [0x80] ++ skipn 1 rest) (S (List.length r)) (repeat 0 (56 - S (List.length r))))
         56 lb =
  r ++ 0x80 :: repeat 0 (55 - List.length r) ++ lb.
Proof.
  intros Hr Hl Hlb. rewrite app_assoc.
  rewrite (splice_app (r ++ [0x80])) by (rewrite length_app; cbn [List.length]; lia).
  rewrite app_assoc, splice_app by (rewrite !length_app, repeat_length; cbn [List.length]; lia).
  rewrite repeat_length, skipn_skipn, skipn_skipn, skipn_all2 by lia.
  rewrite app_nil_r, <- !app_assoc. reflexivity.
Qed.

(** The two blocks when it does not. *)
Lemma final_first_block r rest :
  (56 <= List.length r < 64)%nat -> (List.length r + List.length rest = 64)%nat ->
  splice (r ++ [0x80] ++ skipn 1 rest) (S (List.length r)) (repeat 0 (64 - S (List.length r))) =
  r ++ 0x80 :: repeat 0 (63 - List.length r).
Proof.
  intros Hr Hl. rewrite app_assoc, splice_app by (rewrite length_app; cbn [List.length]; lia).
  rewrite repeat_length, skipn_skipn, skipn_all2 by lia.
  rewrite app_nil_r, <- !app_assoc. reflexivity.
Qed.

Lemma final_second_block block lb :
  List.length block = 64%nat -> List.length lb = 8%nat ->
  splice (splice block 0 (repeat 0 (56 - 0))) 56 lb = repeat 0 56 ++ lb.
Proof.
  intros Hb Hlb. rewrite (splice_app [] block) by reflexivity. cbn [app].
  rewrite splice_app by (rewrite repeat_length; reflexivity).
  rewrite repeat_length, skipn_skipn, skipn_all2, app_nil_r by lia. reflexivity.
Qed.

Lemma finish_absorbed st message :
  absorbed st message -> total_size_ st = Z.of_nat (List.length message) ->
  finish st = sha256 message.
Proof.
  intros (Ha & Hb & Hs) Ht. unfold sha256.
  fold (absorb_all initial_digest (message ++ padding (List.length message))).
  rewrite absorb_app, Ha.
  pose proof (absorb_rest initial_digest message) as Hr. rewrite Ha in Hr. cbn [snd] in Hr.
  unfold finish, padding. rewrite Ht, padding_zeros_spec, <- Hr.
  set (lb := length_bytes _). assert (List.length lb = 8%nat) as Hlb by reflexivity. clearbody lb.
  pose proof (firstn_skipn (block_size_ st) (block_ st)) as Hblock.
  assert (List.length (skipn (block_size_ st) (block_ st)) = (64 - block_size_ st)%nat) as Hrest
    by (rewrite length_skipn; lia).
  assert (List.length (firstn (block_size_ st) (block_ st)) = block_size_ st) as Hl
    by (rewrite length_firstn; lia).
  set (r := firstn (block_size_ st) (block_ st)) in *.
  set (rest := skipn (block_size_ st) (block_ st)) in *. clearbody r rest.
  rewrite <- Hblock, (splice_app r rest [0x80]) by exact Hl. cbn [List.length]. rewrite <- Hl in *.
  destruct (Nat.ltb_spec 56 (S (List.length r))).
  - rewrite final_first_block, final_second_block by (rewrite ?length_app; cbn [List.length];
      rewrite ?repeat_length; lia).
    replace (119 - List.length r)%nat with ((63 - List.length r) + 56)%nat by lia.
    rewrite repeat_app, <- app_assoc, app_comm_cons, app_assoc, absorb_block, absorb_last;
      [reflexivity | rewrite length_app, repeat_length; lia |].
    rewrite length_app. cbn [List.length]. rewrite repeat_length. lia.
  - rewrite final_one_block by lia. rewrite absorb_last; [reflexivity|].
    rewrite length_app. cbn [List.length]. rewrite length_app, repeat_length. lia.
Qed.

Lemma update_absorbed st message bytes :
  absorbed st message -> total_size_ st = Z.of_nat (List.length message) ->
  Z.of_nat (List.length (message ++ bytes)) <= u64_max ->
  exists st', update st bytes = Ok st' /\ absorbed st' (message ++ bytes) /\
    total_size_ st' = Z.of_nat (List.length (message ++ bytes)).
Proof.
  intros Ha Ht Hb. rewrite length_app in *. unfold update. rewrite Ht.
  destruct (Z.ltb_spec (u64_max - Z.of_nat (List.length message)) (Z.of_nat (List.length bytes))); [lia|].
  eexists. split; [reflexivity|].
  match goal with |- context [update_loop _ ?s _] => set (st0 := s) end.
  assert (absorbed st0 message) as H0 by exact Ha.
  destruct (update_loop_absorbed (List.length bytes) st0 message bytes) as [Hi Hs]; auto.
  split; [exact Hi|]. rewrite Hs. unfold st0. cbn. rewrite u64_small; lia.
Qed.

Lemma update_all_absorbed chunks st message :
  absorbed st message -> total_size_ st = Z.of_nat (List.length message) ->
  Z.of_nat (List.length (message ++ List.concat chunks)) <= u64_max ->
  exists st', update_all st chunks = Ok st' /\ absorbed st' (message ++ List.concat chunks) /\
    total_size_ st' = Z.of_nat (List.length (message ++ List.concat chunks)).
Proof.
  revert st message. induction chunks as [|c chunks IH]; intros st message Ha Ht Hb; cbn in *.
  - rewrite app_nil_r. eauto.
  - rewrite !app_assoc in *.
    destruct (update_absorbed st message c Ha Ht) as (st' & -> & Ha' & Ht').
    { rewrite length_app in Hb. lia. }
    apply IH; assumption.
Qed.

(** hashing is independent of how the input is cut: feeding any sequence
    of chunks whose total length fits 64 bits to [update] succeeds, and
    [finish] then returns the SHA-256 of their concatenation as defined in one
    shot over the padded message, whatever the chunk boundaries. *)
Theorem streaming_matches_one_shot (chunks : list (list Z)) :
  Z.of_nat (List.length (List.concat chunks)) <= u64_max ->
  exists st, update_all new_sha256 chunks = Ok st /\ finish st = sha256 (List.concat chunks).
Proof.
  intros H. destruct (update_all_absorbed chunks new_sha256 []) as (st & Hu & Ha & Ht).
  - apply absorbed_new.
  - reflexivity.
  - exact H.
  - exists st. split; [exact Hu | apply finish_absorbed; assumption].
Qed.

Lemma streaming_matches_one_shot_witness :
  exists st, update_all new_sha256 [[97]; []; [98; 99]] = Ok st /\ finish st = sha256 [97; 98; 99].
Proof. apply (streaming_matches_one_shot [[97]; []; [98; 99]]). vm_compute. discriminate. Defined.

(** domain separation.  A domain without NUL and a payload that fit 64
    bits together hash to the digest of [domain, NUL, payload], and that
    preimage determines both: two different (domain, payload) pairs are never
    hashed as the same byte string.  A domain that contains NUL is refused. *)
Theorem domain_separation (domain payload : string) :
  if str_contains nul domain
  then domain_separated_sha256 domain payload = Err "SHA-256 domain contains its separator"
  else (Z.of_nat (List.length (bytes_of domain ++ 0 :: bytes_of payload)) <= u64_max ->
        domain_separated_sha256 domain payload =
        Ok ("sha256:" +++ hex (sha256 (bytes_of domain ++ 0 :: bytes_of payload)))) /\
       forall domain' payload', str_contains nul domain' = false ->
         bytes_of domain ++ 0 :: bytes_of payload = bytes_of domain' ++ 0 :: bytes_of payload' ->
         domain = domain' /\ payload = payload'.
Proof.
  unfold domain_separated_sha256. destruct (str_contains nul domain) eqn:N; [reflexivity|]. split.
  - intros Hb. destruct (update_all_absorbed [bytes_of domain; [0]; bytes_of payload] new_sha256 [])
      as (st & Hu & Ha & Ht).
    + apply absorbed_new.
    + reflexivity.
    + cbn. rewrite app_nil_r. exact Hb.
    + cbn [List.concat app] in Ha, Ht. rewrite app_nil_r in Ha, Ht.
      apply finish_absorbed in Ha; [|exact Ht]. cbn [update_all] in Hu. unfold update_string.
      destruct (update new_sha256 _) as [s1|]; cbn [bind] in *; [|discriminate].
      destruct (update s1 _) as [s2|]; cbn [bind] in *; [|discriminate].
      destruct (update s2 _) as [s3|]; cbn [bind] in *; [|discriminate].
      injection Hu as ->. unfold finish_hex. rewrite Ha. reflexivity.
  - intros domain' payload' N' H. apply separated_inj; assumption.
Qed.
