(* ===== verification/Paths.v ===== *)
(** Account names, path derivation and endpoint safety checks
    (src/src/common/paths.cpp, paths.hpp).

    Path derivation is pure.  The checks that touch the file system are
    parameterised by the system calls they issue ([lstat], [mkdir], [unlink])
    over an abstract file-system state. *)
From S2P Require Import Prelude DecimalText.

Definition kMaxAccountNameLength : Z := 32.

Definition account_char (c : ascii) : bool :=
  in_range "A" "Z" c || in_range "a" "z" c || in_range "0" "9" c
  || Ascii.eqb c "_" || Ascii.eqb c "-".

Definition valid_account_name (name : string) : bool :=
  if str_empty name || (kMaxAccountNameLength <? str_len name) then false
  else str_all account_char name.

Record Environment := {
  xdg_runtime_dir : option string;
  xdg_config_home : option string;
  xdg_data_home : option string;
  xdg_state_home : option string;
  tmpdir : option string;
  home : string;
  uid : Z;
  test_dc : bool
}.

Definition value_or {A} (o : option A) (d : A) : A :=
  match o with Some a => a | None => d end.

(** [env_value]: [getenv] with an empty value read as unset. *)
Definition env_value (getenv : string -> option string) (name : string) : option string :=
  match getenv name with
  | None => None
  | Some value => if str_empty value then None else Some value
  end.

(** [parse_test_dc]: the value of [enabled], or the error. *)
Definition parse_test_dc (value : option string) : result string bool :=
  match value with
  | None => Ok false
  | Some v =>
      if str_empty v then Ok false
      else if String.eqb v "1" then Ok true
      else Err "TGCLI_TEST_DC must be exactly 1 when set"
  end.

(** [real_environment]: throws [InvalidTestDcEnvironment], here its message. *)
Definition real_environment (getenv : string -> option string) (getuid : Z) :
    result string Environment :=
  let env := env_value getenv in
  test <- (match parse_test_dc (getenv "TGCLI_TEST_DC") with
           | Ok b => Ok b
           | Err _ => Err "TGCLI_TEST_DC must be exactly 1 when set"
           end) ;;
  Ok {| xdg_runtime_dir := env "XDG_RUNTIME_DIR";
        xdg_config_home := env "XDG_CONFIG_HOME";
        xdg_data_home := env "XDG_DATA_HOME";
        xdg_state_home := env "XDG_STATE_HOME";
        tmpdir := env "TMPDIR";
        home := value_or (env "HOME") "/";
        uid := getuid;
        test_dc := test |}.

Inductive AccountSelectionSource := Explicit | FromEnvironment | Default | ImplicitMain.

Record AccountSelectionInput := {
  explicit_account : option string;
  environment_account : option string;
  default_account : option string
}.

Record AccountSelection := { sel_name : string; sel_source : AccountSelectionSource }.

Definition invalid_account_message (name : string) : string :=
  "invalid account name '" +++ name +++ "': use 1-" +++ to_string kMaxAccountNameLength
  +++ " characters from [A-Za-z0-9_-]".

Definition select_account (input : AccountSelectionInput) : result string AccountSelection :=
  let selection :=
    match explicit_account input, environment_account input, default_account input with
    | Some n, _, _ => {| sel_name := n; sel_source := Explicit |}
    | None, Some n, _ => {| sel_name := n; sel_source := FromEnvironment |}
    | None, None, Some n => {| sel_name := n; sel_source := Default |}
    | None, None, None => {| sel_name := "main"; sel_source := ImplicitMain |}
    end in
  check (valid_account_name (sel_name selection))
        (invalid_account_message (sel_name selection)) ;;;
  Ok selection.

(** * Derived paths *)

Definition namespace_name (env : Environment) : string :=
  if test_dc env then "tgcli-test" else "tgcli".

Definition runtime_dir (env : Environment) : string :=
  match xdg_runtime_dir env with
  | Some d => d +++ "/" +++ namespace_name env
  | None =>
      value_or (tmpdir env) "/tmp" +++ "/" +++ namespace_name env +++ "-" +++ to_string (uid env)
  end.

(** [sun_path_size] is [sizeof(sockaddr_un{}.sun_path)]: 108 on Linux, 104 on
    macOS. *)
Definition endpoint_path (sun_path_size : Z) (account : string) (env : Environment)
    (suffix : string) : result string string :=
  check (valid_account_name account) (invalid_account_message account) ;;;
  let path := runtime_dir env +++ "/" +++ account +++ suffix in
  check (negb (sun_path_size <=? str_len path))
        ("socket path too long for sun_path (" +++ to_string (str_len path) +++ " bytes): "
         +++ path) ;;;
  Ok path.

Definition socket_path size account env := endpoint_path size account env ".sock".
Definition control_socket_path size account env := endpoint_path size account env ".ctl".

Definition config_file (env : Environment) : string :=
  value_or (xdg_config_home env) (home env +++ "/.config") +++ "/" +++ namespace_name env
  +++ "/config.toml".

Definition config_lock_file (env : Environment) : string :=
  value_or (xdg_config_home env) (home env +++ "/.config") +++ "/" +++ namespace_name env
  +++ "/config.lock".

(** [require_valid_account_name] throws [std::invalid_argument]. *)
Definition require_valid_account_name (account : string) : result string unit :=
  check (valid_account_name account) "invalid account name for path derivation".

Definition account_data_dir (account : string) (env : Environment) : result string string :=
  require_valid_account_name account ;;;
  Ok (value_or (xdg_data_home env) (home env +++ "/.local/share") +++ "/" +++ namespace_name env
      +++ "/accounts/" +++ account).

Definition account_state_dir (account : string) (env : Environment) : result string string :=
  require_valid_account_name account ;;;
  Ok (value_or (xdg_state_home env) (home env +++ "/.local/state") +++ "/" +++ namespace_name env
      +++ "/accounts/" +++ account).

Definition tdlib_log_file (account : string) (env : Environment) : result string string :=
  d <- account_state_dir account env ;; Ok (d +++ "/tdlib.log").

Definition removals_state_dir (env : Environment) : string :=
  value_or (xdg_state_home env) (home env +++ "/.local/state") +++ "/" +++ namespace_name env
  +++ "/removals".

(** * File-system checks *)

(** The fields of [struct stat] that the code reads. *)
Record stat := {
  st_dev : Z; st_ino : Z; st_ctim_sec : Z; st_ctim_nsec : Z;
  st_mode : Z; st_uid : Z; st_nlink : Z
}.

Record SocketIdentity := {
  device : Z; inode : Z; change_seconds : Z; change_nanoseconds : Z
}.

#[export] Instance SocketIdentity_eq_dec : EqDec SocketIdentity.
Proof. intros [] []. repeat decide equality; apply Z.eq_dec. Defined.

Definition socket_identity (st : stat) : SocketIdentity :=
  {| device := st_dev st; inode := st_ino st;
     change_seconds := st_ctim_sec st; change_nanoseconds := st_ctim_nsec st |}.

(** [S_ISSOCK] and [S_ISDIR]. *)
Definition S_ISSOCK (mode : Z) : bool := Z.land mode 61440 =? 49152.
Definition S_ISDIR (mode : Z) : bool := Z.land mode 61440 =? 16384.

Definition ENOENT : Z := 2.
Definition EEXIST : Z := 17.

(** The position of the last [c] ([std::string::rfind]). *)
Fixpoint str_rfind (c : ascii) (s : string) : option nat :=
  match s with
  | EmptyString => None
  | String d r =>
      match str_rfind c r with
      | Some n => Some (S n)
      | None => if Ascii.eqb c d then Some O else None
      end
  end.

Section FileSystem.
(** The file system, its calls ([inr] is [errno]) and [strerror]. *)
Variable W : Type.
Variable lstat : string -> W -> stat + Z.
Variable mkdir : string -> Z -> W -> option Z * W.
Variable unlink : string -> W -> option Z * W.
Variable strerror : Z -> string.

(** [Ok None] is [missing = true]. *)
Definition inspect_socket (path : string) (owner : Z) (allow_missing : bool) (w : W) :
    result string (option SocketIdentity) :=
  match lstat path w with
  | inr errno =>
      if (errno =? ENOENT) && allow_missing then Ok None
      else Err ("cannot stat " +++ path +++ ": " +++ strerror errno)
  | inl st =>
      if allow_missing && (st_nlink st =? 0) then Ok None
      else
        check (S_ISSOCK (st_mode st)) (path +++ " exists and is not a unix socket") ;;;
        check (st_uid st =? owner)
              (path +++ " is owned by uid " +++ to_string (st_uid st) +++ ", not "
               +++ to_string owner) ;;;
        check (Z.land (st_mode st) 4095 =? 384)
              (path +++ " has unsafe permissions; expected mode 0600") ;;;
        check (st_nlink st =? 1) (path +++ " has an unexpected hard-link count") ;;;
        Ok (Some (socket_identity st))
  end.

Definition validate_private_dir (dir : string) (owner : Z) (w : W) : result string unit :=
  match lstat dir w with
  | inr errno => Err ("cannot stat " +++ dir +++ ": " +++ strerror errno)
  | inl st =>
      check (S_ISDIR (st_mode st)) (dir +++ " exists and is not a directory") ;;;
      check (st_uid st =? owner)
            (dir +++ " is owned by uid " +++ to_string (st_uid st) +++ ", not "
             +++ to_string owner) ;;;
      check (Z.land (st_mode st) 63 =? 0)
            (dir +++ " is group/other accessible; expected mode 0700")
  end.

Definition ensure_private_dir (dir : string) (owner : Z) (w : W) : result string unit * W :=
  let '(e, w1) := mkdir dir 448 w in
  match e with
  | Some errno =>
      if errno =? EEXIST then (validate_private_dir dir owner w1, w1)
      else (Err ("cannot create " +++ dir +++ ": " +++ strerror errno), w1)
  | None => (validate_private_dir dir owner w1, w1)
  end.

(** [inspect_socket_endpoint] never allows a missing endpoint. *)
Definition inspect_socket_endpoint (path : string) (owner : Z) (w : W) :
    result string (option SocketIdentity) :=
  inspect_socket path owner false w.

Definition find_socket_endpoint (path : string) (owner : Z) (w : W) :
    result string (option SocketIdentity) :=
  inspect_socket path owner true w.

Definition prepare_socket_endpoint (path : string) (owner : Z) (w : W) :
    result string unit * W :=
  match str_rfind "/" path with
  | None | Some O => (Err ("socket path has no private parent directory: " +++ path), w)
  | Some separator =>
      let '(r, w1) := ensure_private_dir (str_take separator path) owner w in
      match r with
      | Err e => (Err e, w1)
      | Ok _ =>
          match inspect_socket path owner true w1 with
          | Err e => (Err e, w1)
          | Ok None => (Ok tt, w1)
          | Ok (Some _) =>
              let '(u, w2) := unlink path w1 in
              match u with
              | Some errno =>
                  (Err ("cannot remove stale socket " +++ path +++ ": " +++ strerror errno), w2)
              | None => (Ok tt, w2)
              end
          end
      end
  end.

Definition socket_endpoint_changed (path : string) (owner : Z) (ident : SocketIdentity)
    (w : W) : result string bool :=
  current <- inspect_socket path owner true w ;;
  match current with
  | None => Ok true
  | Some c => Ok (negb (eqb c ident))
  end.

Definition unlink_socket_endpoint_if_same (path : string) (ident : SocketIdentity) (w : W) : W :=
  match lstat path w with
  | inr _ => w
  | inl st =>
      if S_ISSOCK (st_mode st) && eqb (socket_identity st) ident
      then snd (unlink path w) else w
  end.
End FileSystem.

(** * Properties *)

Lemma account_no_dot name : valid_account_name name = true -> str_find "." name = None.
Proof.
  unfold valid_account_name. destruct (_ || _); [discriminate|]. intros H.
  apply str_find_none. revert H. apply str_all_impl.
  intros [[] [] [] [] [] [] [] []]; vm_compute; congruence.
Qed.

Lemma account_len name : valid_account_name name = true -> 1 <= str_len name <= 32.
Proof.
  unfold valid_account_name, kMaxAccountNameLength.
  destruct (_ || _) eqn:E; [discriminate|]. intros _. bool_split. z_bool.
  destruct name; [discriminate|]. unfold str_len in *. cbn [String.length] in *. lia.
Qed.

Lemma endpoint_path_ok size account env suffix p :
  endpoint_path size account env suffix = Ok p <->
  valid_account_name account = true /\ str_len p < size /\
  p = runtime_dir env +++ "/" +++ account +++ suffix.
Proof.
  unfold endpoint_path, check. destruct (valid_account_name account); cbn [bind];
    [|split; [discriminate | intros [? _]; discriminate]].
  destruct (size <=? _) eqn:E; cbn [bind negb]; z_bool; split.
  - discriminate.
  - intros (_ & L & ->). lia.
  - intros H. injection H as <-. auto.
  - intros (_ & _ & ->). reflexivity.
Qed.

(** Endpoints of different accounts, and the request and control
    endpoints of one account, never share a path: a path determines the
    account and the suffix it was derived from. *)
Theorem account_endpoints_isolated size env a b sa sb p :
  In sa [".sock"; ".ctl"] -> In sb [".sock"; ".ctl"] ->
  endpoint_path size a env sa = Ok p -> endpoint_path size b env sb = Ok p ->
  a = b /\ sa = sb.
Proof.
  intros Ia Ib Ea Eb. apply endpoint_path_ok in Ea as (Va & _ & ->).
  apply endpoint_path_ok in Eb as (Vb & _ & E).
  apply str_app_inj_l, str_app_inj_l in E.
  assert (exists ra rb, sa = String "." ra /\ sb = String "." rb) as (ra & rb & -> & ->).
  { destruct Ia as [<-|[<-|[]]], Ib as [<-|[<-|[]]]; eauto. }
  apply str_split_unique in E; auto using account_no_dot.
  destruct E as [-> ->]. auto.
Qed.

Definition plain_env : Environment :=
  {| xdg_runtime_dir := None; xdg_config_home := None; xdg_data_home := None;
     xdg_state_home := None; tmpdir := None; home := "/home/u"; uid := 1000;
     test_dc := false |}.

Lemma account_endpoints_isolated_witness :
  endpoint_path 108 "work" plain_env ".ctl" = Ok "/tmp/tgcli-1000/work.ctl" /\
  "work" = "work" /\ ".ctl" = ".ctl".
Proof.
  split; [reflexivity|].
  refine (account_endpoints_isolated 108 plain_env "work" "work" ".ctl" ".ctl"
            "/tmp/tgcli-1000/work.ctl" _ _ eq_refl eq_refl); cbn; auto.
Defined.

(** The length limit on account names does what it is for: with neither
    [XDG_RUNTIME_DIR] nor [TMPDIR] set, both endpoints of every valid account
    fit [sun_path], on Linux and on macOS, for every 32-bit user id. *)
Theorem fallback_endpoints_fit size account env :
  valid_account_name account = true ->
  xdg_runtime_dir env = None -> tmpdir env = None ->
  0 <= uid env < 4294967296 -> 104 <= size ->
  (exists p, socket_path size account env = Ok p) /\
  (exists p, control_socket_path size account env = Ok p).
Proof.
  intros V X T U S. pose proof (account_len _ V).
  assert (str_len (to_string (uid env)) <= 10) by (apply to_string_len_le; lia).
  assert (str_len (runtime_dir env) <= 26) as R.
  { unfold runtime_dir. rewrite X, T. unfold namespace_name. cbn [value_or].
    destruct (test_dc env); rewrite !str_len_app;
      change (str_len "/tmp") with 4; change (str_len "/") with 1;
      change (str_len "tgcli-test") with 10; change (str_len "tgcli") with 5;
      change (str_len "-") with 1; lia. }
  split; eexists; apply endpoint_path_ok; repeat split; trivial; rewrite !str_len_app;
    change (str_len "/") with 1; change (str_len ".sock") with 5;
    change (str_len ".ctl") with 4; lia.
Qed.

Lemma fallback_endpoints_fit_witness :
  (exists p, socket_path 104 "abcdefghijklmnopqrstuvwxyz_-0123" plain_env = Ok p) /\
  (exists p, control_socket_path 104 "abcdefghijklmnopqrstuvwxyz_-0123" plain_env = Ok p).
Proof. apply fallback_endpoints_fit; (reflexivity || (cbn; lia)). Defined.

(** What [inspect_socket] requires of an endpoint it accepts. *)
Definition private_socket (owner : Z) (st : stat) : Prop :=
  S_ISSOCK (st_mode st) = true /\ st_uid st = owner /\
  Z.land (st_mode st) 4095 = 384 /\ st_nlink st = 1.

Definition private_dir (owner : Z) (st : stat) : Prop :=
  S_ISDIR (st_mode st) = true /\ st_uid st = owner /\ Z.land (st_mode st) 63 = 0.

Lemma inspect_socket_some W lstat strerror path owner allow (w : W) ident :
  inspect_socket W lstat strerror path owner allow w = Ok (Some ident) ->
  exists st, lstat path w = inl st /\ private_socket owner st /\ ident = socket_identity st.
Proof.
  unfold inspect_socket. destruct (lstat path w) as [st|errno].
  - destruct (allow && _); [discriminate|]. intros H.
    repeat (inv_bind H; match goal with E : check _ _ = _ |- _ => apply check_ok in E end).
    injection H as <-. z_bool. exists st. repeat split; auto.
  - destruct (_ && _); discriminate.
Qed.

Lemma validate_private_dir_ok W lstat strerror dir owner (w : W) u :
  validate_private_dir W lstat strerror dir owner w = Ok u ->
  exists st, lstat dir w = inl st /\ private_dir owner st.
Proof.
  unfold validate_private_dir. destruct (lstat dir w) as [st|errno]; [|discriminate].
  intros H. inv_bind H. inv_bind H. apply check_ok in E, E0, H. z_bool.
  exists st. repeat split; auto.
Qed.

Lemma ensure_private_dir_world W lstat mkdir strerror dir owner (w : W) :
  snd (ensure_private_dir W lstat mkdir strerror dir owner w) = snd (mkdir dir 448 w).
Proof.
  unfold ensure_private_dir. destruct (mkdir dir 448 w) as [[errno|] w1]; [|reflexivity].
  destruct (errno =? EEXIST); reflexivity.
Qed.

Lemma ensure_private_dir_ok W lstat mkdir strerror dir owner (w w1 : W) u :
  ensure_private_dir W lstat mkdir strerror dir owner w = (Ok u, w1) ->
  exists st, lstat dir w1 = inl st /\ private_dir owner st.
Proof.
  unfold ensure_private_dir. destruct (mkdir dir 448 w) as [[errno|] w2]; intros H.
  - destruct (errno =? EEXIST); [|discriminate]. injection H as H <-.
    eapply validate_private_dir_ok, H.
  - injection H as H <-. eapply validate_private_dir_ok, H.
Qed.

(** Preparing an endpoint before [bind] removes nothing but a stale
    private socket: besides the [mkdir] of the parent directory the only
    change it can make is one [unlink] of the endpoint itself, issued in a
    state where the parent is a private directory of the user and the
    endpoint is a singly linked mode-0600 socket of the user.  Success means
    that the parent is private and that the endpoint was absent or was
    removed. *)
Theorem prepare_socket_endpoint_safe
    W lstat mkdir unlink strerror path owner (w : W) r w' :
  prepare_socket_endpoint W lstat mkdir unlink strerror path owner w = (r, w') ->
  (w' = w /\ r <> Ok tt) \/
  exists n, let dir := str_take (S n) path in
  let w1 := snd (mkdir dir 448 w) in
  str_rfind "/" path = Some (S n) /\
  ((w' = w1 /\
    (r = Ok tt -> inspect_socket W lstat strerror path owner true w1 = Ok None /\
       exists d, lstat dir w1 = inl d /\ private_dir owner d)) \/
   (w' = snd (unlink path w1) /\ (r = Ok tt <-> fst (unlink path w1) = None) /\
    exists d st, lstat dir w1 = inl d /\ private_dir owner d /\
                 lstat path w1 = inl st /\ private_socket owner st)).
Proof.
  unfold prepare_socket_endpoint. destruct (str_rfind "/" path) as [[|n]|]; intros H;
    [injection H as <- <-; left; split; congruence | |
     injection H as <- <-; left; split; congruence].
  right. exists n. cbv zeta. split; [reflexivity|].
  rewrite <- (ensure_private_dir_world W lstat mkdir strerror _ owner w).
  destruct (ensure_private_dir _ _ _ _ _ owner w) as [r1 w1] eqn:D. cbn [snd].
  destruct r1 as [[]|e]; [|injection H as <- <-; left; split; [reflexivity | discriminate]].
  apply ensure_private_dir_ok in D as (d & Hd & Pd).
  destruct (inspect_socket _ _ _ _ _ _ w1) as [[ident|]|e] eqn:I.
  - right. apply inspect_socket_some in I as (st & Hs & Ps & _).
    destruct (unlink path w1) as [[errno|] w2]; injection H as <- <-;
      (split; [reflexivity | split; [split; discriminate || reflexivity | eauto 8]]).
  - injection H as <- <-. left. eauto 6.
  - injection H as <- <-. left. split; [reflexivity | discriminate].
Qed.

(** A file system with one stale private socket, for evaluation: the state is
    whether the socket exists. *)
Definition sample_dir : stat :=
  {| st_dev := 1; st_ino := 2; st_ctim_sec := 0; st_ctim_nsec := 0;
     st_mode := 16384 + 448; st_uid := 1000; st_nlink := 2 |}.
Definition sample_socket : stat :=
  {| st_dev := 1; st_ino := 3; st_ctim_sec := 0; st_ctim_nsec := 0;
     st_mode := 49152 + 384; st_uid := 1000; st_nlink := 1 |}.
Definition sample_lstat (path : string) (present : bool) : stat + Z :=
  if String.eqb path "/run/tgcli" then inl sample_dir
  else if present then inl sample_socket else inr ENOENT.
Definition sample_mkdir (_ : string) (_ : Z) (w : bool) : option Z * bool := (Some EEXIST, w).
Definition sample_unlink (_ : string) (_ : bool) : option Z * bool := (None, false).

Lemma prepare_socket_endpoint_safe_witness :
  let r := prepare_socket_endpoint bool sample_lstat sample_mkdir sample_unlink (fun _ => "")
             "/run/tgcli/main.sock" 1000 true in
  r = (Ok tt, false) /\
  ((false = true /\ @Ok string unit tt <> Ok tt) \/
   exists n, let dir := str_take (S n) "/run/tgcli/main.sock" in
   let w1 := snd (sample_mkdir dir 448 true) in
   str_rfind "/" "/run/tgcli/main.sock" = Some (S n) /\
   ((false = w1 /\
     (@Ok string unit tt = Ok tt ->
        inspect_socket bool sample_lstat (fun _ => "") "/run/tgcli/main.sock" 1000 true w1
        = Ok None /\ exists d, sample_lstat dir w1 = inl d /\ private_dir 1000 d)) \/
    (false = snd (sample_unlink "/run/tgcli/main.sock" w1) /\
     (@Ok string unit tt = Ok tt <-> fst (sample_unlink "/run/tgcli/main.sock" w1) = None) /\
     exists d st, sample_lstat dir w1 = inl d /\ private_dir 1000 d /\
       sample_lstat "/run/tgcli/main.sock" w1 = inl st /\ private_socket 1000 st))).
Proof.
  split; [reflexivity|].
  apply (prepare_socket_endpoint_safe bool sample_lstat sample_mkdir sample_unlink (fun _ => "")
           "/run/tgcli/main.sock" 1000 true (Ok tt) false). reflexivity.
Defined.
