(* ===== verification/FrameIo.v ===== *)
(** Line transport (src/src/proto/frame_io.cpp, frame_budget.hpp).

    System calls are scripts: each [recv], [send] and [poll] consumes the next
    observation of a list.  A loop that needs an observation the script does
    not have is still blocked, which is the result [None]; every other result
    is what the function returns.  Buffer wiping is modelled by its effect on
    [buffer_]: it is emptied. *)
From S2P Require Import Prelude DecimalText.

(** * Frame budget (src/src/common/frame_budget.hpp) *)

Definition kMaximumSerializedFrameBytes : Z := 16842751.

(** [decimal_digits]: at most one iteration per digit of a 64-bit value. *)
Fixpoint decimal_digits_loop (fuel : nat) (value digits : Z) : Z :=
  match fuel with
  | O => digits
  | S f => if 10 <=? value then decimal_digits_loop f (value / 10) (digits + 1) else digits
  end.

Definition decimal_digits (value : Z) : Z := decimal_digits_loop 20 value 1.

Definition maximum_result_payload_bytes (request_id : Z) : Z :=
  u64 (kMaximumSerializedFrameBytes - 31 - decimal_digits request_id).

Definition kMinimumResultPayloadBytes : Z := maximum_result_payload_bytes u64_max.

(** * Waiting *)

Definition EINTR : Z := 4.
Definition EAGAIN : Z := 11.

(** One [poll]: the clock before it, and what it returned. *)
Inductive poll_result :=
| PollFailed (errno : Z)
| PollTimeout
| PollReady (nval : bool).

Record poll_observation := { poll_now : Z; polled : poll_result }.

(** The millisecond argument of [poll]: the remaining nanoseconds rounded up,
    bounded by [INT_MAX]. *)
Definition poll_timeout (remaining : Z) : Z :=
  let truncated := Z.quot remaining 1000000 in
  let timeout := if truncated * 1000000 <? remaining then truncated + 1 else truncated in
  Z.min timeout i32_max.

Section Io.
Variable strerror : Z -> string.

Fixpoint wait_for_io (deadline : Z) (operation : string) (observations : list poll_observation)
    : option (result string unit) :=
  match observations with
  | [] => None
  | o :: rest =>
      if deadline <=? poll_now o then Some (Err ("timed out " +++ operation))
      else
        match polled o with
        | PollFailed errno =>
            if errno =? EINTR then wait_for_io deadline operation rest
            else Some (Err ("poll while " +++ operation +++ ": " +++ strerror errno))
        | PollTimeout => Some (Err ("timed out " +++ operation))
        | PollReady true => Some (Err ("invalid descriptor while " +++ operation))
        | PollReady false => Some (Ok tt)
        end
  end.

(** [deadline == nullptr || wait_for_io(...)]. *)
Definition wait_if (deadline : option Z) (operation : string) (polls : list poll_observation)
    : option (result string unit) :=
  match deadline with
  | None => Some (Ok tt)
  | Some d => wait_for_io d operation polls
  end.

Definition retryable (deadline : option Z) (errno : Z) : bool :=
  (errno =? EINTR) || (match deadline with Some _ => errno =? EAGAIN | None => false end).

(** * Writing *)

(** One round of the loop: the polls, then [send] (a count, or [errno]). *)
Record send_observation := { send_polls : list poll_observation; sent : nat + Z }.

(** The bytes offered to [send]: the rest of the line, then the newline. *)
Definition offered (line : string) (written : nat) : string :=
  if Nat.eqb written (String.length line) then str1 newline else str_drop written line.

(** Returns the result and the bytes handed to the kernel. *)
Fixpoint write_loop (deadline : option Z) (line : string) (written : nat) (out : string)
    (script : list send_observation) : option (result string unit * string) :=
  if Nat.leb (String.length line + 1) written then Some (Ok tt, out)
  else
    match script with
    | [] => None
    | o :: rest =>
        match wait_if deadline "writing frame" (send_polls o) with
        | None => None
        | Some (Err e) => Some (Err e, out)
        | Some (Ok _) =>
            match sent o with
            | inr errno =>
                if retryable deadline errno then write_loop deadline line written out rest
                else Some (Err ("write: " +++ strerror errno), out)
            | inl count =>
                write_loop deadline line (written + count)
                           (out +++ str_take count (offered line written)) rest
            end
        end
    end.

Definition write_line (deadline : option Z) (line : string) (script : list send_observation) :=
  write_loop deadline line 0 EmptyString script.

(** * Reading *)

Inductive ReadChunkStatus := Data (chunk : string) | Retry | Eof | Failed (error : string).

(** One round: the polls, then [recv] (the bytes received, or [errno]). *)
Record recv_observation := { recv_polls : list poll_observation; received : string + Z }.

Definition read_chunk (deadline : option Z) (o : recv_observation) : option ReadChunkStatus :=
  match wait_if deadline "reading frame" (recv_polls o) with
  | None => None
  | Some (Err e) => Some (Failed e)
  | Some (Ok _) =>
      match received o with
      | inr errno =>
          if retryable deadline errno then Some Retry
          else Some (Failed ("read: " +++ strerror errno))
      | inl EmptyString => Some Eof
      | inl chunk => Some (Data chunk)
      end
  end.

Record FrameReader := { buffer_ : string; eof_ : bool }.

Definition new_reader : FrameReader := {| buffer_ := EmptyString; eof_ := false |}.

(** [Ok (Some line)] is a line, [Ok None] the end of the stream with [error]
    left empty, [Err e] an empty optional with [error = e]. *)
Definition outcome := result string (option string).

Definition too_long : string :=
  "frame exceeds " +++ to_string kMaximumSerializedFrameBytes +++ " bytes".

Fixpoint read_line_impl (deadline : option Z) (r : FrameReader)
    (script : list recv_observation) : option (outcome * FrameReader * list recv_observation) :=
  let wiped := {| buffer_ := EmptyString; eof_ := eof_ r |} in
  match str_find newline (buffer_ r) with
  | Some pos =>
      if kMaximumSerializedFrameBytes <? Z.of_nat pos then Some (Err too_long, wiped, script)
      else
        Some (Ok (Some (str_take pos (buffer_ r))),
              {| buffer_ := str_drop (S pos) (buffer_ r); eof_ := eof_ r |}, script)
  | None =>
      if eof_ r then
        if str_empty (buffer_ r) then Some (Ok None, r, script)
        else Some (Err "connection closed mid-frame", wiped, script)
      else if kMaximumSerializedFrameBytes <? str_len (buffer_ r) then
        Some (Err too_long, wiped, script)
      else
        match script with
        | [] => None
        | o :: rest =>
            match read_chunk deadline o with
            | None => None
            | Some (Failed e) => Some (Err e, wiped, rest)
            | Some Retry => read_line_impl deadline r rest
            | Some Eof =>
                read_line_impl deadline {| buffer_ := buffer_ r; eof_ := true |} rest
            | Some (Data chunk) =>
                read_line_impl deadline {| buffer_ := buffer_ r +++ chunk; eof_ := eof_ r |} rest
            end
        end
  end.

Definition read_line := read_line_impl None.
Definition read_line_until (deadline : Z) := read_line_impl (Some deadline).
End Io.

(** * Properties *)

(** ** Frame budget *)

Lemma decimal_digits_loop_spec fuel v d :
  1 <= v < 10 ^ (Z.of_nat fuel + 1) ->
  exists j, 0 <= j /\ decimal_digits_loop fuel v d = d + j /\ 10 ^ j <= v < 10 ^ (j + 1).
Proof.
  revert v d. induction fuel as [|f IH]; intros v d H.
  - exists 0. cbn in *. lia.
  - cbn [decimal_digits_loop]. destruct (10 <=? v) eqn:E; z_bool.
    + rewrite Nat2Z.inj_succ in H.
      replace (Z.succ (Z.of_nat f) + 1) with (Z.succ (Z.of_nat f + 1)) in H by lia.
      rewrite Z.pow_succ_r in H by lia.
      destruct (IH (v / 10) (d + 1)) as (j & J & -> & B).
      { split; [apply Z.div_le_lower_bound; lia | apply Z.div_lt_upper_bound; lia]. }
      exists (j + 1). split; [lia | split; [lia|]].
      replace (j + 1 + 1) with (Z.succ (j + 1)) by lia. rewrite !Z.pow_succ_r, Z.pow_add_r by lia.
      rewrite (Z.pow_add_r 10 j 1) in B by lia.
      pose proof (Z.div_mod v 10). pose proof (Z.mod_pos_bound v 10). lia.
    + exists 0. cbn. lia.
Qed.

Lemma decimal_digits_len v : 0 <= v <= u64_max -> decimal_digits v = str_len (to_string v).
Proof.
  unfold decimal_digits, u64_max. intros H. destruct (Z.eq_dec v 0) as [->|N]; [reflexivity|].
  destruct (decimal_digits_loop_spec 20 v 1) as (j & J & -> & B);
    [change (10 ^ (Z.of_nat 20 + 1)) with 1000000000000000000000; lia|].
  destruct (to_string_len v) as (L & C); [lia|].
  apply (digits_unique v); try lia. replace (1 + j - 1) with j by lia.
  replace (1 + j) with (j + 1) by lia. exact B.
Qed.

Lemma decimal_digits_range v : 0 <= v <= u64_max -> 1 <= decimal_digits v <= 20.
Proof.
  intros H. rewrite decimal_digits_len by exact H. split.
  - unfold u64_max in H. destruct (Z.eq_dec v 0) as [->|N];
      [change (str_len (to_string 0)) with 1; lia|].
    destruct (to_string_len v); lia.
  - apply to_string_len_le; [unfold u64_max in H; change (10 ^ 20) with 100000000000000000000; lia | lia].
Qed.

(** ** Writing *)

(** [send] takes no more than it is offered. *)
Fixpoint sends_within (line : string) (written : nat) (script : list send_observation) : Prop :=
  match script with
  | [] => True
  | o :: rest =>
      match sent o with
      | inl count =>
          (count <= String.length (offered line written))%nat /\
          sends_within line (written + count) rest
      | inr _ => sends_within line written rest
      end
  end.

Definition terminated (line : string) : string := line +++ str1 newline.

Lemma terminated_length line : String.length (terminated line) = (String.length line + 1)%nat.
Proof. apply str_length_app. Qed.

(** The bytes of one [send] are the next bytes of the terminated line. *)
Lemma offered_next line written count :
  (written <= String.length line)%nat -> (count <= String.length (offered line written))%nat ->
  str_take count (offered line written) = str_take count (str_drop written (terminated line)) /\
  (written + count <= String.length line + 1)%nat.
Proof.
  unfold offered, terminated. intros W.
  destruct (Nat.eqb written (String.length line)) eqn:E.
  - apply Nat.eqb_eq in E as ->. rewrite str_drop_app. cbn. intros C. split; [reflexivity | lia].
  - apply Nat.eqb_neq in E. rewrite str_drop_length. intros C.
    rewrite str_drop_app_l by lia. rewrite str_take_app_l by (rewrite str_drop_length; lia).
    split; [reflexivity | lia].
Qed.

Lemma write_loop_spec strerror deadline line script : forall written out r o,
  (written <= String.length line + 1)%nat -> out = str_take written (terminated line) ->
  sends_within line written script ->
  write_loop strerror deadline line written out script = Some (r, o) ->
  exists rest, terminated line = o +++ rest /\ (r = Ok tt <-> rest = EmptyString).
Proof.
  induction script as [|s script IH]; intros written out r o W -> S H; cbn [write_loop] in H;
    destruct (Nat.leb _ written) eqn:L; try discriminate;
    try (apply Nat.leb_le in L; injection H as <- <-; exists EmptyString;
         rewrite str_take_all, str_app_nil_r by (rewrite terminated_length; lia); tauto).
  apply Nat.leb_gt in L. cbn [sends_within] in S.
  assert (F : forall e o', Some (Err e, str_take written (terminated line)) = Some (r, o') ->
    exists rest, terminated line = o' +++ rest /\ (r = Ok tt <-> rest = EmptyString)).
  { intros e o' E. injection E as <- <-. exists (str_drop written (terminated line)).
    split; [symmetry; apply str_take_drop|]. split; [discriminate|]. intros C.
    apply (f_equal String.length) in C. rewrite str_drop_length, terminated_length in C.
    cbn in C. lia. }
  destruct (wait_if _ _ _ (send_polls s)) as [[[]|e]|]; [|exact (F _ _ H) | discriminate].
  destruct (sent s) as [count|errno].
  - destruct S as [C S]. destruct (offered_next line written count) as [E B]; [lia | exact C|].
    eapply IH; [exact B | | exact S | exact H]. now rewrite E, str_take_take_drop.
  - destruct (retryable deadline errno); [|exact (F _ _ H)].
    eapply IH; [|reflexivity | exact S | exact H]. lia.
Qed.

(** Writing a line is all-or-reported: whatever partial writes,
    interruptions and errors occur, the bytes handed to the kernel are a
    prefix of the line followed by one newline, and success is reported
    exactly when all of it was handed over. *)
Theorem write_line_delivers strerror deadline line script r out :
  sends_within line 0 script ->
  write_line strerror deadline line script = Some (r, out) ->
  exists rest, terminated line = out +++ rest /\ (r = Ok tt <-> rest = EmptyString).
Proof.
  intros S H. eapply write_loop_spec; [|reflexivity | exact S | exact H]. lia.
Qed.

Definition sample_sends : list send_observation :=
  [ {| send_polls := []; sent := inl 2%nat |}; {| send_polls := []; sent := inr EINTR |};
    {| send_polls := []; sent := inl 1%nat |}; {| send_polls := []; sent := inl 1%nat |} ].

Lemma write_line_delivers_witness :
  write_line (fun _ => "") None "abc" sample_sends = Some (Ok tt, terminated "abc") /\
  exists rest, terminated "abc" = terminated "abc" +++ rest /\
               (@Ok string unit tt = Ok tt <-> rest = EmptyString).
Proof.
  split; [reflexivity|].
  apply (write_line_delivers (fun _ => "") None "abc" sample_sends (Ok tt) (terminated "abc"));
    [cbn; lia | reflexivity].
Defined.

(** ** Reading *)

(** The bytes a script delivers before the end of the stream; [None] when the
    script has an error or no end. *)
Fixpoint stream (script : list recv_observation) : option string :=
  match script with
  | [] => None
  | o :: rest =>
      match received o with
      | inr errno => if errno =? EINTR then stream rest else None
      | inl EmptyString => Some EmptyString
      | inl chunk => option_map (String.append chunk) (stream rest)
      end
  end.

(** What the reader should answer from the bytes alone. *)
Definition next_line (bytes : string) : outcome :=
  match str_find newline bytes with
  | Some pos =>
      if kMaximumSerializedFrameBytes <? Z.of_nat pos then Err too_long
      else Ok (Some (str_take pos bytes))
  | None =>
      if kMaximumSerializedFrameBytes <? str_len bytes then Err too_long
      else if str_empty bytes then Ok None
      else Err "connection closed mid-frame"
  end.

(** The unread bytes of a reader and a script. *)
Definition pending (r : FrameReader) (script : list recv_observation) : option string :=
  if eof_ r then Some (buffer_ r) else option_map (String.append (buffer_ r)) (stream script).

(** The end of the stream is noticed only without a pending line. *)
Definition reader_ok (r : FrameReader) : Prop :=
  eof_ r = true ->
  str_find newline (buffer_ r) = None /\ str_len (buffer_ r) <= kMaximumSerializedFrameBytes.

Lemma next_line_buffered b d pos :
  str_find newline b = Some pos ->
  next_line (b +++ d) =
  (if kMaximumSerializedFrameBytes <? Z.of_nat pos then Err too_long
   else Ok (Some (str_take pos b))).
Proof.
  intros F. unfold next_line. rewrite (str_find_app_l _ _ d _ F).
  destruct (_ <? _); [reflexivity|]. rewrite str_take_app_l; [reflexivity|].
  pose proof (str_find_length _ _ _ F). lia.
Qed.

Lemma next_line_oversized b d :
  str_find newline b = None -> kMaximumSerializedFrameBytes < str_len b ->
  next_line (b +++ d) = Err too_long.
Proof.
  intros F L. unfold next_line. rewrite (str_find_app_r _ _ d F). unfold str_len in L.
  destruct (str_find newline d) as [n|]; cbn [option_map].
  - destruct (_ <? _) eqn:E; [reflexivity|]. z_bool. lia.
  - rewrite str_len_app. pose proof (str_len_nonneg d). unfold str_len at 1.
    destruct (_ <? _) eqn:E; [reflexivity|]. z_bool. lia.
Qed.

Lemma next_line_eof b :
  str_find newline b = None -> str_len b <= kMaximumSerializedFrameBytes ->
  next_line b = if str_empty b then Ok None else Err "connection closed mid-frame".
Proof.
  intros F L. unfold next_line. rewrite F. destruct (_ <? _) eqn:E; [z_bool; lia | reflexivity].
Qed.

(** One read answers [next_line] of the pending bytes and consumes that line. *)
Definition reads_next (strerror : Z -> string) (r : FrameReader)
    (script : list recv_observation) (bytes : string) : Prop :=
  exists r' script',
    read_line strerror r script = Some (next_line bytes, r', script') /\ reader_ok r' /\
    (forall line, next_line bytes = Ok (Some line) ->
       exists rest, bytes = terminated line +++ rest /\ pending r' script' = Some rest).

Lemma reader_ok_wiped e : reader_ok {| buffer_ := EmptyString; eof_ := e |}.
Proof. intros _. split; [reflexivity | discriminate]. Qed.

Lemma reads_buffered strerror r script bytes pos :
  reader_ok r -> pending r script = Some bytes -> str_find newline (buffer_ r) = Some pos ->
  reads_next strerror r script bytes.
Proof.
  intros R P F. unfold pending in P.
  destruct (eof_ r) eqn:X; [destruct (R X); congruence|].
  destruct (stream script) as [d|] eqn:D; [|discriminate]. injection P as <-.
  unfold reads_next. rewrite (next_line_buffered _ d _ F).
  assert (read_line strerror r script =
    if kMaximumSerializedFrameBytes <? Z.of_nat pos
    then Some (Err too_long, {| buffer_ := EmptyString; eof_ := eof_ r |}, script)
    else Some (Ok (Some (str_take pos (buffer_ r))),
               {| buffer_ := str_drop (S pos) (buffer_ r); eof_ := eof_ r |}, script)) as ->
    by (unfold read_line; destruct script; cbn [read_line_impl]; rewrite F; reflexivity).
  destruct (_ <? _).
  - do 2 eexists. split; [reflexivity|]. split; [apply reader_ok_wiped | discriminate].
  - do 2 eexists. split; [reflexivity|]. rewrite X. split; [discriminate|].
    intros line H. injection H as <-. destruct (str_find_some _ _ _ F) as [E _].
    unfold pending, terminated. cbn [eof_ buffer_]. rewrite D. eexists. split; [|reflexivity].
    rewrite E at 1. rewrite !str_app_assoc. reflexivity.
Qed.

Lemma reads_at_eof strerror r script :
  reader_ok r -> eof_ r = true -> reads_next strerror r script (buffer_ r).
Proof.
  intros R X. destruct (R X) as [F L]. unfold reads_next. rewrite (next_line_eof _ F L).
  assert (read_line strerror r script =
    if str_empty (buffer_ r) then Some (Ok None, r, script)
    else Some (Err "connection closed mid-frame",
               {| buffer_ := EmptyString; eof_ := eof_ r |}, script)) as ->
    by (unfold read_line; destruct script; cbn [read_line_impl]; rewrite F, X; reflexivity).
  destruct (str_empty (buffer_ r)); do 2 eexists;
    (split; [reflexivity | split; [|discriminate]]); [exact R | apply reader_ok_wiped].
Qed.

(** Reading depends on the pending bytes only, not on how they are cut. *)
Lemma read_line_pending strerror script : forall r bytes,
  reader_ok r -> pending r script = Some bytes -> reads_next strerror r script bytes.
Proof.
  induction script as [|o script IH]; intros r bytes R P;
    (destruct (str_find newline (buffer_ r)) as [pos|] eqn:F;
     [now apply (reads_buffered _ r _ _ pos)|]);
    (unfold pending in P; destruct (eof_ r) eqn:X;
     [injection P as <-; now apply reads_at_eof|]); [discriminate|].
  destruct (kMaximumSerializedFrameBytes <? str_len (buffer_ r)) eqn:L.
  { destruct (stream (o :: script)) as [d|]; [|discriminate]. injection P as <-.
    unfold reads_next. rewrite next_line_oversized by (z_bool; assumption).
    unfold read_line. cbn [read_line_impl]. rewrite F, X, L.
    do 2 eexists. split; [reflexivity|]. split; [apply reader_ok_wiped | discriminate]. }
  assert (Step : forall r1, read_line strerror r (o :: script) = read_line strerror r1 script ->
    reader_ok r1 -> pending r1 script = Some bytes -> reads_next strerror r (o :: script) bytes).
  { intros r1 E R1 P1. unfold reads_next. rewrite E. now apply IH. }
  cbn [stream] in P. unfold read_line in Step. cbn [read_line_impl] in Step.
  rewrite F, X, L in Step. unfold read_chunk in Step. cbn [wait_if] in Step.
  destruct (received o) as [[|c chunk]|errno].
  - cbn in P. injection P as <-. rewrite str_app_nil_r in *. z_bool.
    eapply Step; [reflexivity | intros _; cbn; auto | reflexivity].
  - eapply Step; [reflexivity | discriminate|]. unfold pending. cbn [eof_ buffer_].
    destruct (stream script) as [d|]; [|discriminate]. cbn [option_map] in P |- *.
    now rewrite str_app_assoc.
  - unfold retryable in Step. rewrite orb_false_r in Step.
    destruct (errno =? EINTR); [|discriminate].
    apply (Step r eq_refl R). unfold pending. now rewrite X.
Qed.

(** Reading a line is total and independent of how the kernel cuts the
    stream: once the stream ends, the answer is a function of the pending
    bytes (the first line; a size error when that line or the unfinished rest
    exceeds the frame limit; a mid-frame error when the stream ends inside a
    line; end of stream otherwise), and a returned line is removed from the
    pending bytes with its newline and nothing else. *)
Theorem read_line_correct strerror r script bytes :
  reader_ok r -> pending r script = Some bytes ->
  exists r' script',
    read_line strerror r script = Some (next_line bytes, r', script') /\ reader_ok r' /\
    (forall line, next_line bytes = Ok (Some line) ->
       exists rest, bytes = terminated line +++ rest /\ pending r' script' = Some rest).
Proof. apply read_line_pending. Qed.

Definition sample_recvs : list recv_observation :=
  [ {| recv_polls := []; received := inl "ab" |}; {| recv_polls := []; received := inr EINTR |};
    {| recv_polls := []; received := inl (String "c" (String newline "d")) |};
    {| recv_polls := []; received := inl (str1 newline) |};
    {| recv_polls := []; received := inl EmptyString |} ].

Lemma read_line_correct_witness :
  exists r' script',
    read_line (fun _ => "") new_reader sample_recvs =
      Some (next_line (terminated "abc" +++ terminated "d"), r', script') /\ reader_ok r' /\
    (forall line, next_line (terminated "abc" +++ terminated "d") = Ok (Some line) ->
       exists rest, terminated "abc" +++ terminated "d" = terminated line +++ rest /\
                    pending r' script' = Some rest).
Proof.
  apply (read_line_correct (fun _ => "") new_reader sample_recvs);
    [discriminate | reflexivity].
Defined.

(** Reading [n] times in a row. *)
Fixpoint read_lines (strerror : Z -> string) (n : nat) (r : FrameReader)
    (script : list recv_observation) : option (list outcome) :=
  match n with
  | O => Some []
  | S m =>
      match read_line strerror r script with
      | None => None
      | Some (o, r', script') => option_map (cons o) (read_lines strerror m r' script')
      end
  end.

(** A line the protocol can carry. *)
Definition carriable (line : string) : Prop :=
  str_find newline line = None /\ str_len line <= kMaximumSerializedFrameBytes.

Lemma next_line_terminated line rest :
  carriable line -> next_line (terminated line +++ rest) = Ok (Some line).
Proof.
  intros [F L]. unfold terminated, str1. rewrite str_app_assoc. cbn [String.append].
  unfold next_line. rewrite (str_find_app newline line rest F), str_take_app.
  unfold str_len in L. destruct (_ <? _) eqn:E; [z_bool; lia | reflexivity].
Qed.

(** The bytes of some lines, each with its newline. *)
Definition lines_text (lines : list string) : string := fold_right (fun l text => terminated l +++ text) EmptyString lines.

(** Complete lines are read in order; what follows them decides the last answer. *)
Lemma read_lines_pending strerror lines tail : forall r script,
  Forall carriable lines -> reader_ok r -> pending r script = Some (lines_text lines +++ tail) ->
  read_lines strerror (S (List.length lines)) r script =
  Some (map (fun l => Ok (Some l)) lines ++ [next_line tail]).
Proof.
  induction lines as [|l lines IH]; intros r script C R P.
  - destruct (read_line_pending strerror _ _ _ R P) as (r' & s' & E & _).
    cbn [List.length read_lines]. rewrite E. reflexivity.
  - inversion C as [|? ? Cl Cs]; subst. cbn [lines_text fold_right] in P.
    fold (lines_text lines) in P. rewrite str_app_assoc in P.
    destruct (read_line_pending strerror _ _ _ R P) as (r' & s' & E & R' & Next).
    rewrite next_line_terminated in * by exact Cl.
    destruct (Next _ eq_refl) as (rest & Eq & P'). apply str_app_inj_l in Eq as <-.
    cbn [List.length read_lines]. rewrite E. specialize (IH r' s' Cs R' P').
    cbn [read_lines List.length] in IH. rewrite IH. reflexivity.
Qed.

(** Writing lines one after the other, each with what [send] does meanwhile, up to
    the first failure: the lines reported as written and all the bytes handed to
    the kernel. *)
Fixpoint write_lines (strerror : Z -> string) (deadline : option Z)
    (jobs : list (string * list send_observation)) : option (list string * string) :=
  match jobs with
  | [] => Some ([], EmptyString)
  | (line, script) :: jobs =>
      match write_line strerror deadline line script with
      | None => None
      | Some (Err _, out) => Some ([], out)
      | Some (Ok _, out) =>
          option_map (fun '(written, rest) => (line :: written, out +++ rest))
            (write_lines strerror deadline jobs)
      end
  end.

(** A proper prefix of a terminated line has no newline. *)
Lemma unfinished_line line out rest :
  carriable line -> terminated line = out +++ rest -> rest <> EmptyString ->
  str_find newline out = None /\ str_len out <= kMaximumSerializedFrameBytes.
Proof.
  intros [F L] E N.
  assert (String.length out <= String.length line)%nat as K.
  { apply (f_equal String.length) in E. rewrite terminated_length, str_length_app in E.
    destruct rest; [congruence|]. cbn in E. lia. }
  assert (out = str_take (String.length out) line) as P.
  { apply (f_equal (str_take (String.length out))) in E. rewrite str_take_app in E.
    unfold terminated in E. now rewrite str_take_app_l in E by exact K. }
  split; [|unfold str_len in *; lia].
  destruct (str_find newline out) as [n|] eqn:X; [|reflexivity]. exfalso.
  rewrite <- (str_take_drop (String.length out) line), <- P in F.
  now rewrite (str_find_app_l _ _ _ _ X) in F.
Qed.

Lemma write_lines_bytes strerror deadline jobs : forall written out,
  Forall (fun job => carriable (fst job) /\ sends_within (fst job) 0 (snd job)) jobs ->
  write_lines strerror deadline jobs = Some (written, out) ->
  written = firstn (List.length written) (map fst jobs) /\
  exists tail, out = lines_text written +++ tail /\ str_find newline tail = None
    /\ str_len tail <= kMaximumSerializedFrameBytes
    /\ (List.length written = List.length jobs -> tail = EmptyString).
Proof.
  induction jobs as [|[line script] jobs IH]; intros written out J W; cbn [write_lines] in W.
  - injection W as <- <-. split; [reflexivity|]. exists EmptyString. repeat split; discriminate.
  - inversion_clear J as [|? ? [C S] J']. cbn [fst snd] in C, S.
    destruct (write_line strerror deadline line script) as [[[[]|e] o]|] eqn:L; [| |discriminate];
      destruct (write_line_delivers _ _ _ _ _ _ S L) as (rest & E & Done).
    + rewrite (proj1 Done eq_refl), str_app_nil_r in E. subst o.
      destruct (write_lines _ _ jobs) as [[w o]|]; [|discriminate]. injection W as <- <-.
      destruct (IH w o J' eq_refl) as (P & tail & -> & T). split; [cbn; f_equal; exact P|].
      exists tail. cbn [lines_text fold_right List.length]. fold (lines_text w).
      split; [now rewrite str_app_assoc|]. destruct T as (T1 & T2 & T3). repeat split; auto.
    + injection W as <- <-. split; [reflexivity|]. exists o.
      assert (rest <> EmptyString) as N by (intros ->; now discriminate (proj2 Done eq_refl)).
      destruct (unfinished_line _ _ _ C E N) as [T1 T2]. repeat split; [exact T1 | exact T2 | discriminate].
Qed.

(** C26.  The peers agree on lines.  One side writes lines with [write_line], one
    after the other, under partial sends, interruptions and errors; the other
    side receives those bytes, cut in whatever way, and then the end of the
    stream.  The reader returns exactly the lines that were reported as written,
    in order (they are the first of the lines), and then the end of the stream
    without an error when all of them were written; when a write failed, it
    returns no part of that line: it reports the end of the stream, or a
    connection closed inside a frame.  ([send] takes no more than it is offered,
    and the lines have no newline and fit the frame limit.) *)
Theorem written_lines_read_back strerror deadline jobs written out script :
  Forall (fun job => carriable (fst job) /\ sends_within (fst job) 0 (snd job)) jobs ->
  write_lines strerror deadline jobs = Some (written, out) ->
  stream script = Some out ->
  written = firstn (List.length written) (map fst jobs) /\
  exists last,
    read_lines strerror (S (List.length written)) new_reader script =
      Some (map (fun l => Ok (Some l)) written ++ [last])
    /\ (last = Ok None \/ last = Err "connection closed mid-frame")
    /\ (List.length written = List.length jobs -> last = Ok None).
Proof.
  intros J W S. destruct (write_lines_bytes _ _ _ _ _ J W) as (P & tail & -> & F & L & Z).
  split; [exact P|]. exists (next_line tail). split; [|split].
  - apply read_lines_pending; [|discriminate|].
    + apply Forall_forall. intros l H. rewrite P in H.
      assert (In l (map fst jobs)) as I
        by (rewrite <- (firstn_skipn (List.length written) (map fst jobs)); apply in_or_app; now left).
      apply in_map_iff in I as (job & <- & I). rewrite Forall_forall in J. now apply J.
    + unfold pending. cbn [eof_ buffer_ new_reader]. rewrite S. reflexivity.
  - rewrite (next_line_eof _ F L). destruct (str_empty tail); auto.
  - intros E. rewrite (Z E). reflexivity.
Qed.

Definition sample_jobs : list (string * list send_observation) :=
  [("abc", sample_sends); ("d", [ {| send_polls := []; sent := inl 1%nat |};
                                  {| send_polls := []; sent := inl 1%nat |} ])].

Lemma written_lines_read_back_witness :
  write_lines (fun _ => "") None sample_jobs = Some (["abc"; "d"], terminated "abc" +++ terminated "d")
  /\ exists last,
    read_lines (fun _ => "") 3 new_reader sample_recvs =
      Some (map (fun l => Ok (Some l)) ["abc"; "d"] ++ [last]) /\ last = Ok None.
Proof.
  split; [reflexivity|].
  destruct (written_lines_read_back (fun _ => "") None sample_jobs ["abc"; "d"]
    (terminated "abc" +++ terminated "d") sample_recvs) as (_ & last & R & _ & E);
    [repeat constructor; cbn; (reflexivity || discriminate || lia) | reflexivity | reflexivity |].
  exists last. split; [exact R | exact (E eq_refl)].
Defined.

(** The millisecond timeout never rounds a pending deadline down to a busy
    loop, and only shortens the wait when it exceeds [INT_MAX]. *)
Lemma poll_timeout_rounds_up remaining :
  0 < remaining ->
  1 <= poll_timeout remaining <= i32_max /\
  (poll_timeout remaining < i32_max ->
   (poll_timeout remaining - 1) * 1000000 < remaining <= poll_timeout remaining * 1000000).
Proof.
  intros H. unfold poll_timeout, i32_max.
  pose proof (Z.quot_rem' remaining 1000000). pose proof (Z.rem_bound_pos remaining 1000000).
  destruct (_ <? remaining) eqn:E; z_bool; lia.
Qed.
