(* ===== verification/FsPath.v ===== *)
(** Lexical operations of [std::filesystem::path] on POSIX that the sources
    use: iteration over components, equality, [is_absolute], [root_path],
    [lexically_normal] and [generic_string]. *)
From S2P Require Import Prelude.

(** A path without its redundant separators: whether it starts with the root
    directory, its filenames, and whether a separator follows the last of
    them. *)
Record fs_path := { has_root : bool; names : list string; trailing : bool }.

#[export] Instance fs_path_eq_dec : EqDec fs_path.
Proof. intros [] []. repeat decide equality. Defined.

(** The segments between separators. *)
Fixpoint segments (s : string) : list string :=
  match s with
  | EmptyString => [EmptyString]
  | String c r =>
      if Ascii.eqb c "/" then EmptyString :: segments r
      else match segments r with
           | x :: l => String c x :: l
           | [] => [str1 c]
           end
  end.

Fixpoint ends_in_slash (s : string) : bool :=
  match s with
  | EmptyString => false
  | String c EmptyString => Ascii.eqb c "/"
  | String _ r => ends_in_slash r
  end.

Definition nonempty (s : string) : bool := negb (str_empty s).

Definition path_of (s : string) : fs_path :=
  let ns := filter nonempty (segments s) in
  {| has_root := starts_with s "/"; names := ns;
     trailing := ends_in_slash s && negb (match ns with [] => true | _ => false end) |}.

(** The elements [begin()..end()]. *)
Definition components (p : fs_path) : list string :=
  (if has_root p then ["/"] else []) ++ names p ++ (if trailing p then [EmptyString] else []).

Definition is_absolute (p : fs_path) : bool := has_root p.

(** [p == p.root_path()]. *)
Definition is_root_path (p : fs_path) : bool :=
  match names p with [] => true | _ => false end.

(** One filename of [lexically_normal]: the reversed names kept so far, and
    whether a separator now ends the path. *)
Definition normal_step (root : bool) (st : list string * bool) (n : string) :
    list string * bool :=
  let '(stack, _) := st in
  if String.eqb n "." then (stack, true)
  else if String.eqb n ".." then
    match stack with
    | top :: rest =>
        if String.eqb top ".." then (n :: stack, false) else (rest, true)
    | [] => if root then ([], true) else ([n], false)
    end
  else (n :: stack, false).

Definition lexically_normal (p : fs_path) : fs_path :=
  match names p with
  | [] => p
  | ns =>
      let '(stack, tr) := fold_left (normal_step (has_root p)) ns ([], false) in
      match stack with
      | [] =>
          if has_root p then {| has_root := true; names := []; trailing := false |}
          else {| has_root := false; names := ["."]; trailing := false |}
      | top :: _ =>
          {| has_root := has_root p; names := rev stack;
             trailing := negb (String.eqb top "..") && (tr || trailing p) |}
      end
  end.

Definition generic_string (p : fs_path) : string :=
  (if has_root p then "/" else EmptyString) +++ String.concat "/" (names p)
  +++ (if trailing p then "/" else EmptyString).

(** * Lemmas *)

(** An ordinary filename. *)
Definition plain_name (n : string) : Prop :=
  nonempty n = true /\ str_find "/" n = None /\ n <> "." /\ n <> "..".

Lemma normal_step_names st n :
  Forall plain_name (fst st) -> nonempty n = true -> str_find "/" n = None ->
  Forall plain_name (fst (normal_step true st n)).
Proof.
  intros F N S. destruct st as [stack tr]. cbn [fst] in F. unfold normal_step.
  destruct (String.eqb n ".") eqn:D; [exact F|].
  destruct (String.eqb n "..") eqn:DD.
  - destruct stack as [|top rest]; [constructor|]. inversion F as [|? ? P Fr]; subst.
    destruct (String.eqb top "..") eqn:T; [|exact Fr].
    apply String.eqb_eq in T. destruct P as (_ & _ & _ & P). congruence.
  - constructor; [|exact F]. apply String.eqb_neq in D, DD. repeat split; auto.
Qed.

Lemma segments_no_slash s : Forall (fun x => str_find "/" x = None) (segments s).
Proof.
  induction s as [|c s IH]; cbn [segments]; [repeat constructor|].
  destruct (Ascii.eqb c "/") eqn:E; [constructor; [reflexivity | exact IH]|].
  destruct (segments s) as [|x l]; [constructor; [|constructor] | inversion IH; subst; constructor; auto];
    cbn [str_find str1]; (destruct (Ascii.eqb "/" c) eqn:E2;
      [apply Ascii.eqb_eq in E2; subst; discriminate|]); [reflexivity | now rewrite H1].
Qed.

(** Every filename of the normal form of an absolute path is ordinary. *)
Lemma lexically_normal_plain s :
  has_root (path_of s) = true ->
  Forall plain_name (names (lexically_normal (path_of s))).
Proof.
  intros R. set (p := path_of s) in *.
  assert (F : Forall (fun n => nonempty n = true /\ str_find "/" n = None) (names p)).
  { apply Forall_forall. intros n Hn. apply filter_In in Hn as [Hn N]. split; [exact N|].
    exact (proj1 (Forall_forall _ _) (segments_no_slash s) n Hn). }
  assert (G : forall l st, Forall (fun n => nonempty n = true /\ str_find "/" n = None) l ->
    Forall plain_name (fst st) ->
    Forall plain_name (fst (fold_left (normal_step true) l st))).
  { induction l as [|n l IH]; intros st Fl P; cbn [fold_left]; [exact P|].
    inversion Fl as [|? ? [N S] Fr]; subst. apply IH; [exact Fr|].
    apply normal_step_names; auto. }
  unfold lexically_normal. rewrite R. specialize (G (names p) ([], false) F (Forall_nil _)).
  destruct (names p) as [|n l] eqn:E; [rewrite E; constructor|].
  destruct (fold_left _ _ _) as [[|top rest] tr]; [constructor|].
  cbn [names fst] in *. apply Forall_rev. exact G.
Qed.
