(* ===== verification/Deadline.v ===== *)
(** Request deadlines (src/src/common/deadline.hpp).

    Floating-point values are [spec_float]s, [m * 2^e] exactly; integers are
    [Z] with the conversions of the code.  [RequestClock] is
    [std::chrono::steady_clock]: signed 64-bit nanoseconds.  [long double] is
    the x87 extended format (64-bit significand). *)
From Stdlib Require Import SpecFloat.
From S2P Require Import Prelude.

(** [expires_at]. *)
Record RequestDeadline := { expires_at : option Z }.

Inductive DeadlineDefault := Default60 | Unlimited.

(** [std::numeric_limits<Rep>::digits] of a 64-bit signed [Rep]. *)
Definition rep_digits : Z := 63.

(** [std::frexp]: the exponent [E] with [2^(E-1) <= m*2^e < 2^E]. *)
Definition frexp_exponent (m : positive) (e : Z) : Z := Zpos (digits2_pos m) + e.

(** [std::floor], as an integer. *)
Definition floor_ticks (m : positive) (e : Z) : Z := Z.shiftl (Zpos m) e.

(** [requested_ticks > integral_ticks]. *)
Definition above (m : positive) (e : Z) (integral : Z) : bool :=
  if e <? 0 then integral * 2 ^ (- e) <? Zpos m else integral <? Zpos m * 2 ^ e.

Definition ceil_request_ticks (requested_ticks : spec_float) (maximum_ticks : Z) : option Z :=
  match requested_ticks with
  | S754_finite false m e =>
      if maximum_ticks <=? 0 then None
      else if rep_digits <? frexp_exponent m e then None
      else
        let integral_count := u64 (floor_ticks m e) in
        let maximum_count := u64 maximum_ticks in
        let has_fraction := above m e (floor_ticks m e) in
        if (maximum_count <? integral_count)
           || (has_fraction && (integral_count =? maximum_count)) then None
        else Some (i64_of (u64 (integral_count + (if has_fraction then 1 else 0))))
  | _ => None
  end.

(** [std::isfinite(x) && !(x <= 0.0)]. *)
Definition positive_finite (x : spec_float) : bool :=
  match x with S754_finite false _ _ => true | _ => false end.

(** [TickDuration(duration<long double>(x)).count()]: one rounded
    multiplication by the ratio 10^9 of seconds to nanoseconds. *)
Definition tick_count (seconds : spec_float) : spec_float :=
  SFmul 64 16384 seconds (S754_finite false 1000000000 0).

Definition sixty : spec_float := S754_finite false 60 0.

Definition request_deadline (timeout_seconds : option spec_float) (policy : DeadlineDefault)
    (now : Z) : option RequestDeadline :=
  match timeout_seconds, policy with
  | None, Unlimited => Some {| expires_at := None |}
  | _, _ =>
      let seconds := match timeout_seconds with Some x => x | None => sixty end in
      if negb (positive_finite seconds) then None
      else
        let available_ticks := if 0 <? now then i64_max - now else i64_max in
        match ceil_request_ticks (tick_count seconds) available_ticks with
        | None => None
        | Some duration =>
            if duration <=? 0 then None
            else Some {| expires_at := Some (i64_of (now + duration)) |}
        end
  end.

Definition deadline_expired (deadline : RequestDeadline) (now : Z) : bool :=
  match expires_at deadline with Some t => t <=? now | None => false end.

Definition event_precedes_deadline (observed_at : option Z) (deadline : RequestDeadline) : bool :=
  match observed_at with
  | None => false
  | Some o => match expires_at deadline with None => true | Some t => o <? t end
  end.

(** * Properties *)

(** [n] is the ceiling of [m * 2^e]. *)
Definition is_ceiling (n : Z) (m : positive) (e : Z) : Prop :=
  if e <? 0 then (n - 1) * 2 ^ (- e) < Zpos m <= n * 2 ^ (- e) else n = Zpos m * 2 ^ e.

Lemma digits2_pos_bounds m :
  2 ^ (Zpos (digits2_pos m) - 1) <= Zpos m < 2 ^ Zpos (digits2_pos m).
Proof.
  induction m as [m IH|m IH|]; cbn [digits2_pos]; [| |cbn; lia];
    rewrite Pos2Z.inj_succ;
    replace (Z.succ (Zpos (digits2_pos m)) - 1) with (Z.succ (Zpos (digits2_pos m) - 1)) by lia;
    rewrite !Z.pow_succ_r by lia; lia.
Qed.

Lemma floor_ticks_spec m e :
  0 <= floor_ticks m e /\
  (if e <? 0 then floor_ticks m e * 2 ^ (- e) <= Zpos m < (floor_ticks m e + 1) * 2 ^ (- e)
   else floor_ticks m e = Zpos m * 2 ^ e).
Proof.
  unfold floor_ticks. split; [apply Z.shiftl_nonneg; lia|].
  destruct (e <? 0) eqn:E; z_bool.
  - rewrite <- Z.shiftr_opp_r, Z.shiftr_div_pow2 by lia.
    pose proof (Z.pow_pos_nonneg 2 (- e)). pose proof (Z.div_mod (Zpos m) (2 ^ (- e))).
    pose proof (Z.mod_pos_bound (Zpos m) (2 ^ (- e))). nia.
  - apply Z.shiftl_mul_pow2. lia.
Qed.

(** The [frexp] test bounds the floor below [2^63] when it passes. *)
Lemma floor_small m e : frexp_exponent m e <= 63 -> floor_ticks m e <= i64_max.
Proof.
  unfold frexp_exponent, i64_max. intros H. pose proof (digits2_pos_bounds m) as B.
  destruct (floor_ticks_spec m e) as [F0 F]. destruct (e <? 0) eqn:E; z_bool.
  - assert (Zpos m < 2 ^ 63 * 2 ^ (- e)).
    { rewrite <- Z.pow_add_r by lia. pose proof (Z.pow_le_mono_r 2 (Zpos (digits2_pos m)) (63 + - e)).
      lia. }
    pose proof (Z.pow_pos_nonneg 2 (- e)). nia.
  - assert (Zpos m * 2 ^ e < 2 ^ 63); [|lia].
    apply Z.lt_le_trans with (2 ^ Zpos (digits2_pos m) * 2 ^ e).
    + pose proof (Z.pow_pos_nonneg 2 e). nia.
    + rewrite <- Z.pow_add_r by lia. apply Z.pow_le_mono_r; lia.
Qed.

(** When it fails, the value is at least [2^63]. *)
Lemma floor_large m e : 63 < frexp_exponent m e -> i64_max < floor_ticks m e.
Proof.
  unfold frexp_exponent, i64_max. intros H. pose proof (digits2_pos_bounds m) as B.
  destruct (floor_ticks_spec m e) as [F0 F]. destruct (e <? 0) eqn:E; z_bool.
  - assert (2 ^ 63 * 2 ^ (- e) <= Zpos m).
    { rewrite <- Z.pow_add_r by lia.
      pose proof (Z.pow_le_mono_r 2 (63 + - e) (Zpos (digits2_pos m) - 1)). lia. }
    pose proof (Z.pow_pos_nonneg 2 (- e)). nia.
  - assert (2 ^ 63 <= Zpos m * 2 ^ e); [|lia].
    apply Z.le_trans with (2 ^ (Zpos (digits2_pos m) - 1) * 2 ^ e).
    + rewrite <- Z.pow_add_r by lia. apply Z.pow_le_mono_r; lia.
    + pose proof (Z.pow_pos_nonneg 2 e). nia.
Qed.

(** The ceiling is the floor, plus one when there is a fraction. *)
Lemma ceiling_of_floor n m e :
  is_ceiling n m e <-> n = floor_ticks m e + (if above m e (floor_ticks m e) then 1 else 0).
Proof.
  unfold is_ceiling, above. destruct (floor_ticks_spec m e) as [F0 F].
  destruct (e <? 0) eqn:E; z_bool.
  - pose proof (Z.pow_pos_nonneg 2 (- e)). set (q := 2 ^ (- e)) in *. clearbody q.
    destruct (_ <? _) eqn:A; z_bool; split; intros; nia.
  - rewrite <- F. rewrite Z.ltb_irrefl. lia.
Qed.

(** [ceil_request_ticks] is exact: for a positive finite request it
    returns the ceiling of the requested ticks when that ceiling is at most
    the positive maximum, and nothing otherwise; no conversion to the
    unsigned and back to the signed type wraps. *)
Theorem ceil_request_ticks_exact m e maximum n :
  0 < maximum <= i64_max ->
  (ceil_request_ticks (S754_finite false m e) maximum = Some n <->
   is_ceiling n m e /\ n <= maximum).
Proof.
  intros Hm. unfold ceil_request_ticks. rewrite ceiling_of_floor.
  destruct (floor_ticks_spec m e) as [F0 _].
  destruct (maximum <=? 0) eqn:?; z_bool; [lia|].
  set (frac := above m e _). set (k := if frac then 1 else 0).
  destruct (rep_digits <? frexp_exponent m e) eqn:D; z_bool; unfold rep_digits in D.
  - apply floor_large in D. split; [discriminate|]. destruct frac; subst k; lia.
  - apply floor_small in D. unfold i64_max in *.
    rewrite (u64_small (floor_ticks m e)), (u64_small maximum) by (unfold u64_max; lia).
    assert (Hk : 0 <= floor_ticks m e + k <= u64_max) by (unfold u64_max; destruct frac; subst k; lia).
    destruct (_ || _) eqn:G.
    + split; [discriminate|]. apply orb_true_iff in G as [G|G]; bool_split; z_bool;
        [destruct frac; subst k; lia|]. subst k. rewrite H. lia.
    + bool_split. z_bool. rewrite (u64_small _ Hk).
      assert (floor_ticks m e + k <= maximum).
      { destruct frac; subst k; [|lia]. cbn in H0. z_bool. lia. }
      rewrite i64_of_small by (unfold i64_min, i64_max; destruct frac; subst k; lia).
      split; [intros E; injection E as <-; auto | intros [-> _]; reflexivity].
Qed.

Lemma ceil_request_ticks_exact_witness :
  is_ceiling 3 5 (-1) /\ 3 <= 3 /\
  (ceil_request_ticks (S754_finite false 5 (-1)) 3 = Some 3 <->
   is_ceiling 3 5 (-1) /\ 3 <= 3).
Proof.
  split; [cbn; lia | split; [lia|]].
  apply (ceil_request_ticks_exact 5 (-1) 3 3). unfold i64_max. lia.
Defined.

Lemma ceil_request_ticks_some x maximum n :
  0 < maximum <= i64_max -> ceil_request_ticks x maximum = Some n ->
  exists m e, x = S754_finite false m e /\ is_ceiling n m e /\ 1 <= n <= maximum.
Proof.
  intros Hm. destruct x as [| | |[] m e]; try discriminate. intros H.
  apply ceil_request_ticks_exact in H as [C L]; [|exact Hm].
  exists m, e. repeat split; auto. unfold is_ceiling in C.
  destruct (e <? 0) eqn:E; z_bool;
    [pose proof (Z.pow_pos_nonneg 2 (- e)) | pose proof (Z.pow_pos_nonneg 2 e)]; nia.
Qed.

(** A deadline never wraps and is never in the past: when
    [request_deadline] grants one, it expires strictly after [now], no
    earlier than the requested ticks rounded up and at an instant the clock
    can represent, so it has not expired at [now] and everything observed at
    [now] precedes it; without a timeout the daemon policy gives exactly
    sixty seconds or no deadline at all. *)
Theorem request_deadline_sound (timeout : option spec_float) policy now d :
  i64_min <= now < i64_max -> request_deadline timeout policy now = Some d ->
  deadline_expired d now = false /\ event_precedes_deadline (Some now) d = true /\
  match expires_at d with
  | None => timeout = None /\ policy = Unlimited
  | Some t =>
      now < t <= i64_max /\
      exists m e, tick_count (match timeout with Some x => x | None => sixty end)
                  = S754_finite false m e /\ is_ceiling (t - now) m e /\
      (timeout = None -> policy = Default60 /\ t = now + 60000000000)
  end.
Proof.
  intros Hn H. unfold deadline_expired, event_precedes_deadline.
  assert ((timeout = None /\ policy = Unlimited /\ d = {| expires_at := None |}) \/
          exists n t, ceil_request_ticks
            (tick_count (match timeout with Some x => x | None => sixty end))
            (if 0 <? now then i64_max - now else i64_max) = Some n /\ 0 < n /\
            d = {| expires_at := Some t |} /\ t = i64_of (now + n) /\
            (timeout = None -> policy = Default60)) as [(-> & -> & ->)|C].
  { unfold request_deadline in H.
    destruct timeout as [x|], policy; try (left; injection H as <-; auto; fail); right;
      (destruct (negb _); [discriminate|];
       match type of H with context [ceil_request_ticks ?a ?b] =>
         destruct (ceil_request_ticks a b) as [n|] eqn:E end; [|discriminate];
       destruct (n <=? 0) eqn:P; [discriminate|]; injection H as <-; z_bool;
       exists n, (i64_of (now + n)); repeat split; auto; discriminate). }
  - cbn. auto.
  - destruct C as (n & t & E & P & -> & -> & U). cbn [expires_at].
    assert (B : 0 < (if 0 <? now then i64_max - now else i64_max) <= i64_max)
      by (unfold i64_max in *; destruct (0 <? now) eqn:?; z_bool; lia).
    pose proof (ceil_request_ticks_some _ _ _ B E) as (m & e & Ex & C & L).
    assert (now + n <= i64_max)
      by (unfold i64_max in *; destruct (0 <? now) eqn:?; z_bool; lia).
    rewrite i64_of_small by lia.
    repeat split; try (apply Z.leb_gt; lia); try (apply Z.ltb_lt; lia); try lia.
    exists m, e. split; [exact Ex|]. replace (now + n - now) with n by lia.
    split; [exact C|]. intros ->. split; [auto|].
    vm_compute in Ex. injection Ex as <- <-. cbn in C. lia.
Qed.

Lemma request_deadline_sound_witness :
  exists d, request_deadline None Default60 5 = Some d /\
            deadline_expired d 5 = false.
Proof.
  exists {| expires_at := Some 60000000005 |}. split; [vm_compute; reflexivity|].
  refine (proj1 (request_deadline_sound None Default60 5 _ _ _));
    [unfold i64_min, i64_max; lia | vm_compute; reflexivity].
Defined.
