(* ===== verification/InviteLink.v ===== *)
(** Telegram invite links (src/src/common/invite_link.hpp): the token of a
    link and the spellings that name the same invite.  [SensitiveString] is
    its text; wiping is not modelled. *)
From S2P Require Import Prelude.

Definition invite_char (c : ascii) : bool :=
  in_range "A" "Z" c || in_range "a" "z" c || in_range "0" "9" c
  || Ascii.eqb c "_" || Ascii.eqb c "-".

Definition valid_telegram_invite_token (value : string) : bool :=
  if str_empty value then false else str_all invite_char value.

(** The loop over the prefixes, which stops at the first that matches. *)
Fixpoint strip_first (prefixes : list string) (link : string) : option string :=
  match prefixes with
  | [] => None
  | prefix :: rest =>
      if starts_with link prefix then Some (str_drop (String.length prefix) link)
      else strip_first rest link
  end.

Definition telegram_invite_token (link : string) : option string :=
  match strip_first ["https://t.me/"; "t.me/"] link with
  | None => None
  | Some remainder =>
      if starts_with remainder "+" then
        let token := str_drop 1 remainder in
        if valid_telegram_invite_token token then Some token else None
      else if negb (starts_with remainder "joinchat/") then None
      else
        let token := str_drop (String.length "joinchat/") remainder in
        if valid_telegram_invite_token token then Some token else None
  end.

Definition is_exact_telegram_invite_link (link : string) : bool :=
  match telegram_invite_token link with Some _ => true | None => false end.

Definition alias_prefixes : list string :=
  ["https://t.me/+"; "t.me/+"; "https://t.me/joinchat/"; "t.me/joinchat/"].

(** The second loop: a candidate equal to a retained alias is dropped. *)
Definition retain (aliases candidates : list string) : list string :=
  fold_left (fun acc c => if str_in c acc then acc else acc ++ [c]) candidates aliases.

Definition exact_telegram_invite_aliases (link : string) : list string :=
  match telegram_invite_token link with
  | None => []
  | Some token => retain [] (link :: map (fun prefix => prefix +++ token) alias_prefixes)
  end.

(** * Properties *)

Lemma invite_token_nonempty t : valid_telegram_invite_token t = true -> t <> EmptyString.
Proof. intros H ->. discriminate. Qed.

Lemma starts_with_inv p s :
  starts_with s p = true -> s = p +++ str_drop (String.length p) s.
Proof. intros H. apply starts_with_spec in H as [r ->]. now rewrite str_drop_app. Qed.

Lemma strip_first_some ps link r :
  strip_first ps link = Some r -> exists p, In p ps /\ link = p +++ r.
Proof.
  induction ps as [|p ps IH]; cbn [strip_first]; [discriminate|].
  destruct (starts_with link p) eqn:E; intros H.
  - injection H as <-. exists p. split; [now left | now apply starts_with_inv].
  - destruct (IH H) as (q & I & ->). exists q. split; [now right | reflexivity].
Qed.

Lemma token_cases t (o : option string) :
  (if valid_telegram_invite_token t then Some t else None) = o ->
  forall u, o = Some u -> u = t /\ valid_telegram_invite_token u = true.
Proof. destruct (valid_telegram_invite_token t) eqn:E; intros <- u H; inversion H; subst; auto. Qed.

(** The links with token [t] are the four spellings of it. *)
Lemma invite_token_spec link t :
  telegram_invite_token link = Some t <->
  valid_telegram_invite_token t = true /\ In link (map (fun p => p +++ t) alias_prefixes).
Proof.
  split.
  - unfold telegram_invite_token. destruct (strip_first _ link) as [r|] eqn:E; [|discriminate].
    apply strip_first_some in E as (p & Ip & ->).
    destruct (starts_with r "+") eqn:P.
    + intros H. destruct (token_cases _ _ eq_refl _ H) as [-> V]. split; [exact V|].
      apply starts_with_inv in P. set (t' := str_drop 1 r) in *.
      change (String.length "+") with 1%nat in P. fold t' in P. rewrite P.
      destruct Ip as [<-|[<-|[]]]; cbn; auto.
    + destruct (starts_with r "joinchat/") eqn:J; [|discriminate]. cbn [negb]. intros H.
      destruct (token_cases _ _ eq_refl _ H) as [-> V]. split; [exact V|].
      apply starts_with_inv in J. set (t' := str_drop _ r) in *. rewrite J.
      destruct Ip as [<-|[<-|[]]]; cbn; auto.
  - intros [V I]. unfold telegram_invite_token.
    assert (E : String.prefix EmptyString t = true) by (destruct t; reflexivity).
    destruct I as [<-|[<-|[<-|[<-|[]]]]]; cbn; rewrite ?E, V; reflexivity.
Qed.

Lemma retain_spec candidates aliases :
  NoDup aliases ->
  NoDup (retain aliases candidates) /\
  (forall x, In x (retain aliases candidates) <-> In x aliases \/ In x candidates).
Proof.
  revert aliases. induction candidates as [|c cs IH]; cbn; intros aliases N; [tauto|].
  destruct (str_in c aliases) eqn:E.
  - apply str_in_In in E. destruct (IH _ N) as [N' H]. split; [exact N'|].
    intros x. rewrite H. intuition (subst; auto).
  - assert (~ In c aliases) by (intros C; apply str_in_In in C; congruence).
    destruct (IH (aliases ++ [c])) as [N' H'].
    { apply NoDup_app; auto; [constructor; [tauto | constructor]|].
      intros x Hx [<-|[]]. contradiction. }
    split; [exact N'|]. intros x. rewrite H', in_app_iff. cbn. intuition (subst; auto).
Qed.

(** The aliases of an invite link are exactly the links that name the
    same invite, each once and the given link among them: any two exact links
    have the same token if and only if each lists the other as an alias. *)
Theorem invite_aliases_complete (link : string) :
  NoDup (exact_telegram_invite_aliases link) /\
  (is_exact_telegram_invite_link link = false -> exact_telegram_invite_aliases link = []) /\
  (is_exact_telegram_invite_link link = true ->
     In link (exact_telegram_invite_aliases link) /\
     forall other, In other (exact_telegram_invite_aliases link) <->
                   telegram_invite_token other = telegram_invite_token link).
Proof.
  unfold exact_telegram_invite_aliases, is_exact_telegram_invite_link.
  destruct (telegram_invite_token link) as [t|] eqn:T;
    [|split; [constructor | split; [reflexivity | discriminate]]].
  destruct (retain_spec (link :: map (fun p => p +++ t) alias_prefixes) [] (NoDup_nil _))
    as [N H].
  split; [exact N | split; [discriminate | intros _]]. split; [apply H; cbn; auto|].
  intros other. rewrite H, invite_token_spec. apply invite_token_spec in T as [V I].
  cbn [In]. intuition (subst; auto).
Qed.

Example invite_aliases_evaluates :
  exact_telegram_invite_aliases "t.me/joinchat/AbC_-9" =
    ["t.me/joinchat/AbC_-9"; "https://t.me/+AbC_-9"; "t.me/+AbC_-9";
     "https://t.me/joinchat/AbC_-9"] /\
  telegram_invite_token "https://t.me/+a+b" = None.
Proof. split; reflexivity. Qed.
