(* ===== verification/Operation.v ===== *)
(** Operation identities (src/src/proto/operation.hpp), the M6 write policy
    table (src/src/daemon/m6_write_policy.cpp), the audit operation names
    (src/src/daemon/account_audit.cpp) and [WriteOperation]
    (src/src/daemon/write_operation.cpp).

    The modules [M3], [M6] and [Audit] hold the three [enum class]es, whose
    constructors share names in the sources.  A lookup is a linear search of a
    constant table on one field ([lookup_by]); [nullptr] and [nullopt] are
    [None]. *)
From S2P Require Import Prelude.

(** * Matching a command path *)

(** [command_matches]: one iteration per element of [command]; the path is
    cut at its first space. *)
Fixpoint command_matches (command : list string) (command_path : string) : bool :=
  match command_path with
  | EmptyString => match command with [] => true | _ => false end
  | _ =>
      match command with
      | [] => false
      | part :: rest =>
          match str_find " " command_path with
          | None => String.eqb part command_path && command_matches rest EmptyString
          | Some separator =>
              String.eqb part (str_take separator command_path)
              && command_matches rest (str_drop (S separator) command_path)
          end
      end
  end.

(** * M3/M4 operations *)

Module M3.

Inductive M3Operation : Set :=
| Send
| MsgEdit
| MsgDelete
| MsgForward
| MsgReact
| MsgPin
| MsgUnpin
| ChatMarkRead
| ChatMute
| ChatUnmute
| ChatPin
| ChatUnpin
| ChatArchive
| ChatUnarchive
| ChatJoin
| ChatLeave
| SavedAttach.

#[global] Instance M3_eq_dec : EqDec M3Operation.
Proof. intros [] []; (left; reflexivity) || (right; discriminate). Defined.

#[global] Instance M3_enum : Enum M3Operation.
Proof.
  refine {| enumerate := [Send; MsgEdit; MsgDelete; MsgForward; MsgReact; MsgPin; MsgUnpin;
    ChatMarkRead; ChatMute; ChatUnmute; ChatPin; ChatUnpin; ChatArchive; ChatUnarchive;
    ChatJoin; ChatLeave; SavedAttach] |}.
  intros []; cbn; tauto.
Defined.

Record M3OperationIdentity := {
  operation : M3Operation;
  canonical_name : string;
  command_path : string
}.

Definition kM3OperationIdentities : list M3OperationIdentity :=
  [ Build_M3OperationIdentity Send "send" "send";
    Build_M3OperationIdentity MsgEdit "msg_edit" "msg edit";
    Build_M3OperationIdentity MsgDelete "msg_delete" "msg delete";
    Build_M3OperationIdentity MsgForward "msg_forward" "msg forward";
    Build_M3OperationIdentity MsgReact "msg_react" "msg react";
    Build_M3OperationIdentity MsgPin "msg_pin" "msg pin";
    Build_M3OperationIdentity MsgUnpin "msg_unpin" "msg unpin";
    Build_M3OperationIdentity ChatMarkRead "chat_mark_read" "chat mark-read";
    Build_M3OperationIdentity ChatMute "chat_mute" "chat mute";
    Build_M3OperationIdentity ChatUnmute "chat_unmute" "chat unmute";
    Build_M3OperationIdentity ChatPin "chat_pin" "chat pin";
    Build_M3OperationIdentity ChatUnpin "chat_unpin" "chat unpin";
    Build_M3OperationIdentity ChatArchive "chat_archive" "chat archive";
    Build_M3OperationIdentity ChatUnarchive "chat_unarchive" "chat unarchive";
    Build_M3OperationIdentity ChatJoin "chat_join" "chat join";
    Build_M3OperationIdentity ChatLeave "chat_leave" "chat leave";
    Build_M3OperationIdentity SavedAttach "saved_attach" "saved attach" ].

Definition m3_operation_identity (op : M3Operation) : option M3OperationIdentity :=
  lookup_by operation kM3OperationIdentities op.

Definition parse_m3_operation (name : string) : option M3Operation :=
  option_map operation (lookup_by canonical_name kM3OperationIdentities name).

(** The [std::string_view] overload of [m3_operation_for_command]. *)
Definition m3_operation_for_path (path : string) : option M3Operation :=
  option_map operation (lookup_by command_path kM3OperationIdentities path).

(** The [std::span<const std::string>] overload. *)
Definition m3_operation_for_command (command : list string) : option M3Operation :=
  option_map operation
    (find_by (fun i => command_matches command (command_path i)) kM3OperationIdentities).

End M3.

(** * M6 operations *)

Module M6.

Inductive M6Operation : Set :=
| ContactList
| ContactSearch
| ContactAdd
| ContactRemove
| ContactBlock
| ContactUnblock
| FolderList
| FolderShow
| FolderCreate
| FolderEdit
| FolderDelete
| FolderAddChat
| FolderRemoveChat
| TopicList
| TopicCreate
| TopicEdit
| TopicClose
| TopicReopen
| ChatSetTitle
| ChatSetPhoto
| ChatSetDescription
| ChatInviteLink
| ChatPromote
| ChatDemote
| ChatBan
| ChatUnban
| ChatKick
| ChatSetPermissions
| StorageStats
| StorageOptimize.

#[global] Instance M6_eq_dec : EqDec M6Operation.
Proof. intros [] []; (left; reflexivity) || (right; discriminate). Defined.

#[global] Instance M6_enum : Enum M6Operation.
Proof.
  refine {| enumerate := [ContactList; ContactSearch; ContactAdd; ContactRemove; ContactBlock;
    ContactUnblock; FolderList; FolderShow; FolderCreate; FolderEdit; FolderDelete;
    FolderAddChat; FolderRemoveChat; TopicList; TopicCreate; TopicEdit; TopicClose; TopicReopen;
    ChatSetTitle; ChatSetPhoto; ChatSetDescription; ChatInviteLink; ChatPromote; ChatDemote;
    ChatBan; ChatUnban; ChatKick; ChatSetPermissions; StorageStats; StorageOptimize] |}.
  intros []; cbn; tauto.
Defined.

Inductive M6Tier : Set := Read | Write | Destructive.

#[global] Instance M6Tier_eq_dec : EqDec M6Tier.
Proof. intros [] []; (left; reflexivity) || (right; discriminate). Defined.

Record M6OperationIdentity := {
  operation : M6Operation;
  canonical_name : string;
  command_path : string;
  tier : M6Tier;
  mutation : bool;
  idempotent : bool
}.

Definition kM6OperationIdentities : list M6OperationIdentity :=
  [ Build_M6OperationIdentity ContactList "contact_list" "contact list" Read false false;
    Build_M6OperationIdentity ContactSearch "contact_search" "contact search" Read false false;
    Build_M6OperationIdentity ContactAdd "contact_add" "contact add" Write true true;
    Build_M6OperationIdentity ContactRemove "contact_remove" "contact remove" Write true true;
    Build_M6OperationIdentity ContactBlock "contact_block" "contact block" Write true true;
    Build_M6OperationIdentity ContactUnblock "contact_unblock" "contact unblock" Write true true;
    Build_M6OperationIdentity FolderList "folder_list" "folder list" Read false false;
    Build_M6OperationIdentity FolderShow "folder_show" "folder show" Read false false;
    Build_M6OperationIdentity FolderCreate "folder_create" "folder create" Write true true;
    Build_M6OperationIdentity FolderEdit "folder_edit" "folder edit" Write true true;
    Build_M6OperationIdentity FolderDelete "folder_delete" "folder delete" Destructive true true;
    Build_M6OperationIdentity FolderAddChat "folder_add_chat" "folder add-chat" Write true true;
    Build_M6OperationIdentity FolderRemoveChat "folder_remove_chat" "folder remove-chat" Write true true;
    Build_M6OperationIdentity TopicList "topic_list" "topic list" Read false false;
    Build_M6OperationIdentity TopicCreate "topic_create" "topic create" Write true true;
    Build_M6OperationIdentity TopicEdit "topic_edit" "topic edit" Write true true;
    Build_M6OperationIdentity TopicClose "topic_close" "topic close" Write true true;
    Build_M6OperationIdentity TopicReopen "topic_reopen" "topic reopen" Write true true;
    Build_M6OperationIdentity ChatSetTitle "chat_set_title" "chat set-title" Write true true;
    Build_M6OperationIdentity ChatSetPhoto "chat_set_photo" "chat set-photo" Write true true;
    Build_M6OperationIdentity ChatSetDescription "chat_set_description" "chat set-description" Write true true;
    Build_M6OperationIdentity ChatInviteLink "chat_invite_link" "chat invite-link" Destructive true false;
    Build_M6OperationIdentity ChatPromote "chat_promote" "chat promote" Write true true;
    Build_M6OperationIdentity ChatDemote "chat_demote" "chat demote" Write true true;
    Build_M6OperationIdentity ChatBan "chat_ban" "chat ban" Destructive true true;
    Build_M6OperationIdentity ChatUnban "chat_unban" "chat unban" Write true true;
    Build_M6OperationIdentity ChatKick "chat_kick" "chat kick" Destructive true true;
    Build_M6OperationIdentity ChatSetPermissions "chat_set_permissions" "chat set-permissions" Write true true;
    Build_M6OperationIdentity StorageStats "storage_stats" "storage stats" Read false false;
    Build_M6OperationIdentity StorageOptimize "storage_optimize" "storage optimize" Destructive true false ].

Definition m6_operation_identity (op : M6Operation) : option M6OperationIdentity :=
  lookup_by operation kM6OperationIdentities op.

Definition parse_m6_operation (name : string) : option M6Operation :=
  option_map operation (lookup_by canonical_name kM6OperationIdentities name).

Definition m6_operation_for_path (path : string) : option M6Operation :=
  option_map operation (lookup_by command_path kM6OperationIdentities path).

Definition m6_operation_for_command (command : list string) : option M6Operation :=
  option_map operation
    (find_by (fun i => command_matches command (command_path i)) kM6OperationIdentities).

End M6.

Inductive SessionOperation : Set := SessionList | SessionTerminateOp.

Definition session_operation_name (op : SessionOperation) : string :=
  match op with
  | SessionList => "session_list"
  | SessionTerminateOp => "session_terminate"
  end.

(** * Idempotency keys *)

Definition key_alphanumeric (c : ascii) : bool :=
  in_range "A" "Z" c || in_range "a" "z" c || in_range "0" "9" c.

Definition valid_idempotency_key (key : string) : bool :=
  match key with
  | EmptyString => false
  | String c rest =>
      negb (128 <? str_len key) && key_alphanumeric c
      && str_all (fun v => key_alphanumeric v || Ascii.eqb v "." || Ascii.eqb v "_"
                           || Ascii.eqb v ":" || Ascii.eqb v "-") rest
  end.

(** * M6 write policies *)

Record M6WritePolicy := {
  policy_operation : M6.M6Operation;
  audit_name : string;
  tdlib_functions : list string;
  tdlib_function_count : nat;
  policy_idempotent : bool;
  policy_uses_photo_spool : bool
}.

Definition kPolicies : list M6WritePolicy :=
  [ Build_M6WritePolicy M6.ContactAdd "contact_add" ["addContact"; EmptyString] 1 true false;
    Build_M6WritePolicy M6.ContactRemove "contact_remove" ["removeContacts"; EmptyString] 1 true
    false;
    Build_M6WritePolicy M6.ContactBlock "contact_block" ["setMessageSenderBlockList";
    EmptyString] 1 true false;
    Build_M6WritePolicy M6.ContactUnblock "contact_unblock" ["setMessageSenderBlockList";
    EmptyString] 1 true false;
    Build_M6WritePolicy M6.FolderCreate "folder_create" ["createChatFolder"; EmptyString] 1 true
    false;
    Build_M6WritePolicy M6.FolderEdit "folder_edit" ["editChatFolder"; EmptyString] 1 true false;
    Build_M6WritePolicy M6.FolderDelete "folder_delete" ["deleteChatFolder"; EmptyString] 1 true
    false;
    Build_M6WritePolicy M6.FolderAddChat "folder_add_chat" ["editChatFolder"; EmptyString] 1
    true false;
    Build_M6WritePolicy M6.FolderRemoveChat "folder_remove_chat" ["editChatFolder"; EmptyString]
    1 true false;
    Build_M6WritePolicy M6.TopicCreate "topic_create" ["createForumTopic"; EmptyString] 1 true
    false;
    Build_M6WritePolicy M6.TopicEdit "topic_edit" ["editForumTopic"; EmptyString] 1 true false;
    Build_M6WritePolicy M6.TopicClose "topic_close" ["toggleForumTopicIsClosed"; EmptyString] 1
    true false;
    Build_M6WritePolicy M6.TopicReopen "topic_reopen" ["toggleForumTopicIsClosed"; EmptyString]
    1 true false;
    Build_M6WritePolicy M6.ChatSetTitle "chat_set_title" ["setChatTitle"; EmptyString] 1 true
    false;
    Build_M6WritePolicy M6.ChatSetPhoto "chat_set_photo" ["setChatPhoto"; EmptyString] 1 true true;
    Build_M6WritePolicy M6.ChatSetDescription "chat_set_description" ["setChatDescription";
    EmptyString] 1 true false;
    Build_M6WritePolicy M6.ChatInviteLink "chat_invite_link" ["createChatInviteLink";
    "revokeChatInviteLink"] 2 false false;
    Build_M6WritePolicy M6.ChatPromote "chat_promote" ["setChatMemberStatus"; EmptyString] 1
    true false;
    Build_M6WritePolicy M6.ChatDemote "chat_demote" ["setChatMemberStatus"; EmptyString] 1 true
    false;
    Build_M6WritePolicy M6.ChatBan "chat_ban" ["setChatMemberStatus"; EmptyString] 1 true false;
    Build_M6WritePolicy M6.ChatUnban "chat_unban" ["setChatMemberStatus"; EmptyString] 1 true
    false;
    Build_M6WritePolicy M6.ChatKick "chat_kick" ["setChatMemberStatus"; EmptyString] 1 true false;
    Build_M6WritePolicy M6.ChatSetPermissions "chat_set_permissions" ["setChatPermissions";
    EmptyString] 1 true false;
    Build_M6WritePolicy M6.StorageOptimize "storage_optimize" ["optimizeStorage"; EmptyString] 1
    false false ].

Definition m6_write_policy (op : M6.M6Operation) : option M6WritePolicy :=
  lookup_by policy_operation kPolicies op.

Definition parse_m6_write_operation (name : string) : option M6.M6Operation :=
  option_map policy_operation (lookup_by audit_name kPolicies name).

Definition valid_m6_tdlib_function (op : M6.M6Operation) (function : string) : bool :=
  match m6_write_policy op with
  | None => false
  | Some policy =>
      str_in function (firstn (tdlib_function_count policy) (tdlib_functions policy))
  end.

(** * Audit operations *)

Module Audit.

Inductive AccountAuditOperation : Set :=
| Send
| MsgEdit
| MsgDelete
| MsgForward
| MsgReact
| MsgPin
| MsgUnpin
| ChatMarkRead
| ChatMute
| ChatUnmute
| ChatPin
| ChatUnpin
| ChatArchive
| ChatUnarchive
| ChatJoin
| ChatLeave
| SavedAttach
| SessionTerminate
| ContactAdd
| ContactRemove
| ContactBlock
| ContactUnblock
| FolderCreate
| FolderEdit
| FolderDelete
| FolderAddChat
| FolderRemoveChat
| TopicCreate
| TopicEdit
| TopicClose
| TopicReopen
| ChatSetTitle
| ChatSetPhoto
| ChatSetDescription
| ChatInviteLink
| ChatPromote
| ChatDemote
| ChatBan
| ChatUnban
| ChatKick
| ChatSetPermissions
| StorageOptimize.

#[global] Instance Audit_eq_dec : EqDec AccountAuditOperation.
Proof. intros [] []; (left; reflexivity) || (right; discriminate). Defined.

#[global] Instance Audit_enum : Enum AccountAuditOperation.
Proof.
  refine {| enumerate := [Send; MsgEdit; MsgDelete; MsgForward; MsgReact; MsgPin; MsgUnpin;
    ChatMarkRead; ChatMute; ChatUnmute; ChatPin; ChatUnpin; ChatArchive; ChatUnarchive;
    ChatJoin; ChatLeave; SavedAttach; SessionTerminate; ContactAdd; ContactRemove; ContactBlock;
    ContactUnblock; FolderCreate; FolderEdit; FolderDelete; FolderAddChat; FolderRemoveChat;
    TopicCreate; TopicEdit; TopicClose; TopicReopen; ChatSetTitle; ChatSetPhoto;
    ChatSetDescription; ChatInviteLink; ChatPromote; ChatDemote; ChatBan; ChatUnban; ChatKick;
    ChatSetPermissions; StorageOptimize] |}.
  intros []; cbn; tauto.
Defined.

Definition kOperations : list (AccountAuditOperation * string) :=
  [ (Send, "send");
    (MsgEdit, "msg_edit");
    (MsgDelete, "msg_delete");
    (MsgForward, "msg_forward");
    (MsgReact, "msg_react");
    (MsgPin, "msg_pin");
    (MsgUnpin, "msg_unpin");
    (ChatMarkRead, "chat_mark_read");
    (ChatMute, "chat_mute");
    (ChatUnmute, "chat_unmute");
    (ChatPin, "chat_pin");
    (ChatUnpin, "chat_unpin");
    (ChatArchive, "chat_archive");
    (ChatUnarchive, "chat_unarchive");
    (ChatJoin, "chat_join");
    (ChatLeave, "chat_leave");
    (SavedAttach, "saved_attach");
    (SessionTerminate, "session_terminate");
    (ContactAdd, "contact_add");
    (ContactRemove, "contact_remove");
    (ContactBlock, "contact_block");
    (ContactUnblock, "contact_unblock");
    (FolderCreate, "folder_create");
    (FolderEdit, "folder_edit");
    (FolderDelete, "folder_delete");
    (FolderAddChat, "folder_add_chat");
    (FolderRemoveChat, "folder_remove_chat");
    (TopicCreate, "topic_create");
    (TopicEdit, "topic_edit");
    (TopicClose, "topic_close");
    (TopicReopen, "topic_reopen");
    (ChatSetTitle, "chat_set_title");
    (ChatSetPhoto, "chat_set_photo");
    (ChatSetDescription, "chat_set_description");
    (ChatInviteLink, "chat_invite_link");
    (ChatPromote, "chat_promote");
    (ChatDemote, "chat_demote");
    (ChatBan, "chat_ban");
    (ChatUnban, "chat_unban");
    (ChatKick, "chat_kick");
    (ChatSetPermissions, "chat_set_permissions");
    (StorageOptimize, "storage_optimize") ].

Definition account_audit_operation_name (op : AccountAuditOperation) : string :=
  match lookup_by fst kOperations op with
  | Some entry => snd entry
  | None => EmptyString
  end.

Definition parse_account_audit_operation (value : string) : option AccountAuditOperation :=
  option_map fst (lookup_by snd kOperations value).

Definition m6_operation_for_audit (op : AccountAuditOperation) : option M6.M6Operation :=
  match lookup_by fst kOperations op with
  | None => None
  | Some entry =>
      match M6.parse_m6_operation (snd entry) with
      | None => None
      | Some parsed =>
          match m6_write_policy parsed with Some _ => Some parsed | None => None end
      end
  end.

End Audit.

(** * [WriteOperation] *)

Module WriteOp.

Definition audit_for_m3 (op : M3.M3Operation) : option Audit.AccountAuditOperation :=
  match M3.m3_operation_identity op with
  | None => None
  | Some ident => Audit.parse_account_audit_operation (M3.canonical_name ident)
  end.

Definition audit_for_m6 (op : M6.M6Operation) : option Audit.AccountAuditOperation :=
  match M6.m6_operation_identity op with
  | None => None
  | Some ident =>
      if negb (M6.mutation ident) then None
      else Audit.parse_account_audit_operation (M6.canonical_name ident)
  end.

(** The helper [m6]. *)
Definition m6 (op : Audit.AccountAuditOperation) : option M6.M6Operation :=
  match M6.parse_m6_operation (Audit.account_audit_operation_name op) with
  | None => None
  | Some parsed =>
      match m6_write_policy parsed with Some _ => Some parsed | None => None end
  end.

(** The only data member is the optional audit operation. *)
Record WriteOperation := { audit : option Audit.AccountAuditOperation }.

Definition default_write : WriteOperation := {| audit := audit_for_m3 M3.Send |}.
Definition of_m3 (op : M3.M3Operation) : WriteOperation := {| audit := audit_for_m3 op |}.
Definition of_m6 (op : M6.M6Operation) : WriteOperation := {| audit := audit_for_m6 op |}.
Definition of_audit (op : Audit.AccountAuditOperation) : WriteOperation :=
  {| audit := Some op |}.

Definition name (w : WriteOperation) : string :=
  match audit w with
  | Some op => Audit.account_audit_operation_name op
  | None => EmptyString
  end.

Definition destructive (w : WriteOperation) : bool :=
  match audit w with
  | None => false
  | Some op =>
      if eqb op Audit.SessionTerminate || eqb op Audit.MsgDelete || eqb op Audit.ChatLeave
      then true
      else
        match m6 op with
        | None => false
        | Some o =>
            match M6.m6_operation_identity o with
            | None => false
            | Some ident => eqb (M6.tier ident) M6.Destructive
            end
        end
  end.

(** [operation ? m6_write_policy( *operation) : nullptr]. *)
Definition policy_of (op : Audit.AccountAuditOperation) : option M6WritePolicy :=
  match m6 op with Some o => m6_write_policy o | None => None end.

Definition idempotent (w : WriteOperation) : bool :=
  match audit w with
  | None => false
  | Some op =>
      match policy_of op with
      | None => negb (eqb op Audit.SessionTerminate)
      | Some policy => policy_idempotent policy
      end
  end.

Definition uses_photo_spool (w : WriteOperation) : bool :=
  match audit w with
  | None => false
  | Some op =>
      match policy_of op with
      | None => false
      | Some policy => policy_uses_photo_spool policy
      end
  end.

Definition eq_m3 (left : WriteOperation) (right : M3.M3Operation) : bool :=
  eqb (audit left) (audit_for_m3 right).

Definition eq_m6 (left : WriteOperation) (right : M6.M6Operation) : bool :=
  eqb (audit left) (audit_for_m6 right).

End WriteOp.

(** * Properties *)

(** ** Command paths *)

Definition space_free (s : string) : bool := negb (str_contains " " s).

Definition spaces_free (l : list string) : bool := forallb space_free l.

(** A path that ends in a space loses an empty last token in
    [command_matches]; no path of the tables does. *)
Fixpoint ends_in_space (s : string) : bool :=
  match s with
  | EmptyString => false
  | String c EmptyString => Ascii.eqb c " "
  | String _ r => ends_in_space r
  end.

Definition proper_path (s : string) : bool := negb (str_empty s) && negb (ends_in_space s).

Lemma space_free_find s : space_free s = true -> str_find " " s = None.
Proof. unfold space_free, str_contains. destruct (str_find _ _); [discriminate | auto]. Qed.

Lemma ends_in_space_app a c b :
  ends_in_space (a ++ String c b) = ends_in_space (String c b).
Proof. induction a as [|d a IH]; [reflexivity|]. cbn in *. rewrite IH.
  destruct (a ++ String c b)%string eqn:E; [destruct a; discriminate | reflexivity]. Qed.

Lemma concat_cons s a b l :
  String.concat s (a :: b :: l) = (a ++ s ++ String.concat s (b :: l))%string.
Proof. reflexivity. Qed.

(** On tokens without spaces, matching a path is equality with the joined
    command. *)
Lemma command_matches_join command path :
  spaces_free command = true -> proper_path path = true ->
  command_matches command path = String.eqb (String.concat " " command) path.
Proof.
  revert path. induction command as [|part rest IH]; intros path Hc Hp.
  - destruct path; [discriminate | reflexivity].
  - cbn in Hc. bool_split. apply space_free_find in H.
    unfold proper_path in Hp. bool_split. destruct path as [|c p]; [discriminate|].
    set (path := String c p) in *.
    change (command_matches (part :: rest) path) with
      (match str_find " " path with
       | None => String.eqb part path && command_matches rest EmptyString
       | Some n => String.eqb part (str_take n path)
                   && command_matches rest (str_drop (S n) path)
       end).
    destruct (str_find " " path) as [n|] eqn:F.
    + destruct (str_find_some _ _ _ F) as [E N].
      assert (Hrest : proper_path (str_drop (S n) path) = true).
      { rewrite E, ends_in_space_app in H2. unfold proper_path.
        destruct (str_drop (S n) path); [discriminate|]. exact (f_equal negb H2). }
      rewrite (IH _ H0 Hrest). apply eq_true_iff_eq.
      rewrite andb_true_iff, !String.eqb_eq. split.
      * intros [-> R]. destruct rest as [|b l];
          [change (EmptyString = str_drop (S n) path) in R; rewrite <- R in Hrest; discriminate|].
        rewrite concat_cons, R. symmetry. exact E.
      * intros R. destruct rest as [|b l].
        { cbn in R. subst part. congruence. }
        rewrite concat_cons in R. rewrite E in R. apply str_split_unique in R; [|assumption..].
        destruct R as [-> R]. auto.
    + destruct rest as [|b l].
      * cbn. apply andb_true_r.
      * cbn [command_matches]. rewrite andb_false_r. symmetry. apply String.eqb_neq.
        rewrite concat_cons. intros E. rewrite <- E in F. cbn in F.
        rewrite str_find_app in F by assumption. discriminate.
Qed.

Lemma find_ext {A} (p q : A -> bool) l :
  (forall x, In x l -> p x = q x) -> List.find p l = List.find q l.
Proof.
  induction l as [|x l IH]; cbn; intros H; [reflexivity|].
  rewrite (H x) by auto. destruct (q x); auto.
Qed.

(** Both overloads of a command lookup agree when every path of the table is
    proper. *)
Lemma lookup_overloads_agree {I} (path : I -> string) table command :
  forallb (fun i => proper_path (path i)) table = true ->
  spaces_free command = true ->
  find_by (fun i => command_matches command (path i)) table =
  lookup_by path table (String.concat " " command).
Proof.
  intros Hp Hc. rewrite forallb_forall in Hp. apply find_ext. intros i Hi.
  rewrite command_matches_join by auto. apply eq_true_iff_eq.
  rewrite eqb_eq, String.eqb_eq. split; congruence.
Qed.

(** A command given as a list of tokens resolves to the same M3 and M6
    operation as its space-joined path, whenever no token contains a space;
    so the frame admission (tokens) and the daemon policy (joined path) never
    disagree about which operation a command names. *)
Theorem command_overloads_agree (command : list string) :
  spaces_free command = true ->
  M3.m3_operation_for_command command = M3.m3_operation_for_path (String.concat " " command) /\
  M6.m6_operation_for_command command = M6.m6_operation_for_path (String.concat " " command).
Proof.
  intros H. split.
  - unfold M3.m3_operation_for_command. now rewrite lookup_overloads_agree.
  - unfold M6.m6_operation_for_command. now rewrite lookup_overloads_agree.
Qed.

Lemma command_overloads_agree_witness :
  M3.m3_operation_for_command ["chat"; "mark-read"] = Some M3.ChatMarkRead /\
  M3.m3_operation_for_path "chat mark-read" = Some M3.ChatMarkRead /\
  M3.m3_operation_for_command ["chat"; "mark-read"] =
    M3.m3_operation_for_path (String.concat " " ["chat"; "mark-read"]).
Proof.
  split; [reflexivity | split; [reflexivity|]].
  exact (proj1 (command_overloads_agree ["chat"; "mark-read"] eq_refl)).
Defined.

(** ** Identity tables *)

(** A table whose [name] column has no duplicates and whose [op] column lists
    every operation: names and operations determine each other. *)
Section Roundtrip.
Context {I O : Type} `{EqDec O} (op : I -> O) (name : I -> string) (table : list I).
Hypothesis names_unique : NoDup (map name table).
Hypothesis ops_unique : NoDup (map op table).

Lemma name_roundtrip o i :
  lookup_by op table o = Some i ->
  forall n, option_map op (lookup_by name table n) = Some o <-> n = name i.
Proof.
  intros L n. apply lookup_by_some in L as [Hi <-]. split.
  - destruct (lookup_by name table n) as [j|] eqn:E; [|discriminate].
    apply lookup_by_some in E as [Hj <-]. intros F. injection F as F.
    assert (Some i = Some j) as G; [|injection G as <-; reflexivity].
    rewrite <- (lookup_by_unique op table i), <- (lookup_by_unique op table j)
      by assumption. now rewrite F.
  - intros ->. now rewrite (lookup_by_unique name table i).
Qed.

Lemma op_listed o :
  In o (map op table) -> exists i, lookup_by op table o = Some i /\ op i = o.
Proof.
  intros Ho. destruct (lookup_by op table o) eqn:E.
  - exists i. split; [reflexivity|]. now apply lookup_by_some in E.
  - apply lookup_by_none in E. contradiction.
Qed.
End Roundtrip.

Lemma m3_listed o : In o (map M3.operation M3.kM3OperationIdentities).
Proof. exact (enumerated o). Qed.

Lemma m6_listed o : In o (map M6.operation M6.kM6OperationIdentities).
Proof. exact (enumerated o). Qed.

(** The identity tables are total and injective: every M3 and M6
    operation has one identity, the persistent name of that identity is the
    only string that parses back to the operation, its command path is the
    only path that resolves to it, and no name or path belongs to both
    tables. *)
Theorem operation_identities_roundtrip :
  (forall o, exists i, M3.m3_operation_identity o = Some i /\
     (forall n, M3.parse_m3_operation n = Some o <-> n = M3.canonical_name i) /\
     (forall p, M3.m3_operation_for_path p = Some o <-> p = M3.command_path i)) /\
  (forall o, exists i, M6.m6_operation_identity o = Some i /\
     (forall n, M6.parse_m6_operation n = Some o <-> n = M6.canonical_name i) /\
     (forall p, M6.m6_operation_for_path p = Some o <-> p = M6.command_path i)) /\
  (forall s, (M3.parse_m3_operation s = None \/ M6.parse_m6_operation s = None) /\
     (M3.m3_operation_for_path s = None \/ M6.m6_operation_for_path s = None)).
Proof.
  split; [|split].
  - intros o. destruct (op_listed _ _ o (m3_listed o)) as (i & E & _). exists i.
    split; [exact E|]. split; apply name_roundtrip; (nodup_by_computation || exact E).
  - intros o. destruct (op_listed _ _ o (m6_listed o)) as (i & E & _). exists i.
    split; [exact E|]. split; apply name_roundtrip; (nodup_by_computation || exact E).
  - intros s. split.
    + unfold M3.parse_m3_operation. destruct (lookup_by _ _ s) as [i|] eqn:E; [right | now left].
      apply lookup_by_some in E as [Hi <-]. revert i Hi. apply Forall_forall.
      repeat (constructor; [reflexivity|]). constructor.
    + unfold M3.m3_operation_for_path. destruct (lookup_by _ _ s) as [i|] eqn:E; [right | now left].
      apply lookup_by_some in E as [Hi <-]. revert i Hi. apply Forall_forall.
      repeat (constructor; [reflexivity|]). constructor.
Qed.

(** ** Classification of writes *)

(** [WriteOperation] classifies every operation consistently with the
    identity tables although it goes through the audit names: an M6 operation
    yields a write exactly when its identity is a mutation, exactly when a
    write policy exists, and then its destructiveness and idempotency are the
    identity's; every M3 operation yields an idempotent write, destructive
    for message deletion and leaving a chat only; and every audit operation
    is [session_terminate], the image of one M3 operation, or the image of
    one M6 mutation. *)
Theorem write_operation_classification :
  (forall o i, M6.m6_operation_identity o = Some i ->
     let w := WriteOp.of_m6 o in
     (WriteOp.audit w <> None <-> M6.mutation i = true) /\
     (m6_write_policy o <> None <-> M6.mutation i = true) /\
     WriteOp.destructive w = (M6.mutation i && eqb (M6.tier i) M6.Destructive)%bool /\
     WriteOp.idempotent w = M6.idempotent i /\
     (M6.mutation i = true -> WriteOp.name w = M6.canonical_name i)) /\
  (forall o, let w := WriteOp.of_m3 o in
     WriteOp.idempotent w = true /\ WriteOp.uses_photo_spool w = false /\
     (WriteOp.destructive w = true <-> o = M3.MsgDelete \/ o = M3.ChatLeave)) /\
  (forall a, Audit.parse_account_audit_operation (Audit.account_audit_operation_name a) = Some a /\
     (a = Audit.SessionTerminate \/
      (exists o, WriteOp.audit (WriteOp.of_m3 o) = Some a /\ WriteOp.m6 a = None) \/
      (exists o, WriteOp.audit (WriteOp.of_m6 o) = Some a /\ WriteOp.m6 a = Some o /\
                 Audit.m6_operation_for_audit a = Some o))).
Proof.
  split; [|split].
  - intros o i E. destruct o; vm_compute in E; injection E as <-; cbv zeta;
      (split; [split; [intros H; revert H; vm_compute; congruence | vm_compute; congruence]|]);
      (split; [split; [intros H; revert H; vm_compute; congruence | vm_compute; congruence]|]);
      repeat split; solve [discriminate | vm_compute; reflexivity].
  - intros o; split; [|split]; [destruct o; reflexivity .. |].
    destruct o; vm_compute; split; intros H; try discriminate; try (destruct H; discriminate); auto.
  - intros a. split; [destruct a; reflexivity|].
    destruct (WriteOp.m6 a) as [o|] eqn:E.
    + right; right. exists o. destruct a; vm_compute in E; try discriminate;
        injection E as <-; repeat split; reflexivity.
    + destruct (eq_dec a Audit.SessionTerminate); [now left | right; left].
      destruct (M3.parse_m3_operation (Audit.account_audit_operation_name a)) as [o|] eqn:F.
      * exists o. destruct a; vm_compute in F; try discriminate; injection F as <-;
          repeat split; reflexivity.
      * destruct a; vm_compute in E, F; congruence.
Qed.
