(* ===== verification/DestructivePlan.v ===== *)
(** Destructive plans (src/src/proto/destructive_plan.cpp, .hpp): the exact
    documents a user confirms before an irreversible action, their validators,
    parsers and serializers.

    A parser returns the plan or the message stored through [error].
    [parse_m6_destructive_plan] can also throw ([value.value("action", ...)]
    on a member that is not a string), so that function and
    [parse_destructive_plan] fail with [failure]. *)
From S2P Require Import Prelude DecimalText Json Utf8 Paths FsPath.

(** * Field tests *)

(** Both overloads of [exact_fields]. *)
Definition exact_fields (value : json) (fields : list string) : bool :=
  is_object value && Nat.eqb (jsize value) (List.length fields)
  && forallb (contains value) fields.

Definition valid_unsigned_decimal (value : string) : bool :=
  if str_empty value || (negb (str_len value =? 1) && starts_with value "0")
     || negb (str_all is_digit value)
  then false
  else match decimal_value value with
       | Some parsed => parsed <=? u64_max
       | None => false
       end.

(** [None] is [false]; [Some rest] leaves [identity] at [rest]. *)
Definition consume_identity_field (identity prefix : string) (final : bool) : option string :=
  if negb (starts_with identity prefix) then None
  else
    let identity := str_drop (String.length prefix) identity in
    if final then
      if valid_unsigned_decimal identity then Some EmptyString else None
    else
      match str_find ";" identity with
      | None => None
      | Some separator =>
          if valid_unsigned_decimal (str_take separator identity)
          then Some (str_drop (S separator) identity) else None
      end.

Definition valid_normalized_absolute_path (value : string) : bool :=
  if str_empty value || str_contains nul value then false
  else
    let candidate := path_of value in
    if negb (is_absolute candidate) || is_root_path candidate then false
    else String.eqb (generic_string (lexically_normal candidate)) value.

Definition int53_max : Z := 9007199254740991.

Definition valid_int53 (value : json) (positive : bool) : bool :=
  if negb (is_number_integer value) then false
  else
    let number := get_i64 value in
    if positive then (0 <? number) && (number <=? int53_max)
    else negb (number =? 0) && (- int53_max <=? number) && (number <=? int53_max).

Definition username_char (c : ascii) : bool :=
  in_range "A" "Z" c || in_range "a" "z" c || in_range "0" "9" c || Ascii.eqb c "_".

Definition valid_username (item : json) : bool :=
  is_string item
  && (let username := get_string item in
      negb (str_empty username) && (str_len username <=? 32) && str_all username_char username).

Definition valid_chat_identity (value : json) : bool :=
  if negb (exact_fields value ["id"; "title"; "type"; "is_bot"; "usernames"])
     || negb (valid_int53 (jget value "id") false)
     || negb (is_string (jget value "title"))
     || (1048576 <? str_len (get_string (jget value "title")))
     || negb (valid_utf8 (get_string (jget value "title")))
     || negb (is_string (jget value "type"))
     || negb (is_boolean (jget value "is_bot"))
     || negb (is_array (jget value "usernames"))
     || Nat.ltb 100 (jsize (jget value "usernames"))
  then false
  else
    let type := get_string (jget value "type") in
    if (negb (String.eqb type "private") && negb (String.eqb type "basic_group")
        && negb (String.eqb type "supergroup") && negb (String.eqb type "channel"))
       || (negb (String.eqb type "private") && get_bool (jget value "is_bot"))
    then false
    else forallb valid_username (elements (jget value "usernames")).

Definition valid_positive_int32 (value : json) : bool :=
  is_number_integer value && (0 <? get_i64 value) && (get_i64 value <=? i32_max).

Definition valid_string (value : json) (allow_empty : bool) : bool :=
  is_string value && (allow_empty || negb (str_empty (get_string value)))
  && negb (str_contains nul (get_string value)) && valid_utf8 (get_string value).

(** [std::from_chars] into [std::int64_t], required to consume the whole
    text: an optional minus sign and digits. *)
Definition from_chars_i64 (text : string) : option Z :=
  let check_range n := if (i64_min <=? n) && (n <=? i64_max) then Some n else None in
  match text with
  | EmptyString => None
  | String c rest =>
      if Ascii.eqb c "-" then
        if str_empty rest then None
        else match decimal_value rest with Some n => check_range (- n) | None => None end
      else match decimal_value text with Some n => check_range n | None => None end
  end.

Definition valid_canonical_int64 (value : json) (positive : bool) : bool :=
  is_string value
  && match from_chars_i64 (get_string value) with
     | Some parsed =>
         String.eqb (to_string parsed) (get_string value) && (negb positive || (0 <? parsed))
     | None => false
     end.

Definition valid_sha256 (value : json) : bool :=
  is_string value
  && (let text := get_string value in
      (str_len text =? 71) && starts_with text "sha256:" && str_all is_lower_hex (str_drop 7 text)).

(** The [all_of] with the set [seen]. *)
Fixpoint unique_strings (seen : list string) (items : list json) : bool :=
  match items with
  | [] => true
  | item :: rest =>
      valid_string item false && negb (str_in (get_string item) seen)
      && unique_strings (get_string item :: seen) rest
  end.

Definition valid_string_array (value : json) (maximum : nat) : bool :=
  if negb (is_array value) || Nat.ltb maximum (jsize value) then false
  else unique_strings [] (elements value).

Definition valid_user_identity (value : json) : bool :=
  exact_fields value ["id"; "display_name"; "usernames"; "is_bot"]
  && valid_int53 (jget value "id") true && valid_string (jget value "display_name") true
  && valid_string_array (jget value "usernames") 64 && is_boolean (jget value "is_bot").

(** The loop over the entities, with [prior_end]. *)
Fixpoint valid_entities (prior_end : Z) (entities : list json) : bool :=
  match entities with
  | [] => true
  | entity :: rest =>
      if negb (exact_fields entity ["offset"; "length"; "custom_emoji_id"])
         || negb (is_number_integer (jget entity "offset"))
         || negb (is_number_integer (jget entity "length"))
         || negb (valid_canonical_int64 (jget entity "custom_emoji_id") true)
      then false
      else
        let offset := get_i64 (jget entity "offset") in
        let length := get_i64 (jget entity "length") in
        if (offset <? prior_end) || (length <=? 0) || (i32_max - length <? offset) then false
        else valid_entities (offset + length) rest
  end.

Definition valid_folder_name (value : json) : bool :=
  if negb (exact_fields value ["text"; "animate_custom_emoji"; "custom_emoji_entities"])
     || negb (valid_string (jget value "text") false)
     || (48 <? str_len (get_string (jget value "text")))
     || negb (is_boolean (jget value "animate_custom_emoji"))
     || negb (is_array (jget value "custom_emoji_entities"))
  then false
  else valid_entities 0 (elements (jget value "custom_emoji_entities")).

Definition folder_icons : list string :=
  ["all"; "unread"; "unmuted"; "bots"; "channels"; "groups"; "private"; "custom";
   "setup"; "cat"; "crown"; "favorite"; "flower"; "game"; "home"; "love";
   "mask"; "party"; "sport"; "study"; "trade"; "travel"; "work"; "airplane";
   "book"; "light"; "like"; "money"; "note"; "palette"].

Definition valid_folder_icon (value : json) : bool :=
  is_null value || (is_string value && str_in (get_string value) folder_icons).

(** [valid_ids]: the elements inserted into the shared set [ids], or [None]. *)
Fixpoint insert_ids (ids : list Z) (items : list json) : option (list Z) :=
  match items with
  | [] => Some ids
  | item :: rest =>
      if valid_int53 item false && negb (existsb (Z.eqb (get_i64 item)) ids)
      then insert_ids (get_i64 item :: ids) rest
      else None
  end.

Definition valid_ids (ids : list Z) (items : json) : option (list Z) :=
  if is_array items && Nat.leb (jsize items) 100 then insert_ids ids (elements items) else None.

Definition folder_fields : list string :=
  ["id"; "name"; "icon"; "color_id"; "is_shareable"; "has_my_invite_links"; "pinned_chat_ids";
   "included_chat_ids"; "excluded_chat_ids"; "exclude_muted"; "exclude_read";
   "exclude_archived"; "include_contacts"; "include_non_contacts"; "include_bots";
   "include_groups"; "include_channels"].

Definition folder_booleans : list string :=
  ["exclude_muted"; "exclude_read"; "exclude_archived"; "include_contacts";
   "include_non_contacts"; "include_bots"; "include_groups"; "include_channels"].

Definition valid_folder_snapshot (value : json) : bool :=
  if negb (exact_fields value folder_fields)
     || negb (valid_positive_int32 (jget value "id"))
     || negb (valid_folder_name (jget value "name"))
     || negb (valid_folder_icon (jget value "icon"))
     || negb (is_number_integer (jget value "color_id"))
     || (get_i64 (jget value "color_id") <? -1) || (6 <? get_i64 (jget value "color_id"))
     || negb (is_boolean (jget value "is_shareable"))
     || negb (is_boolean (jget value "has_my_invite_links"))
  then false
  else
    match valid_ids [] (jget value "pinned_chat_ids") with
    | None => false
    | Some ids1 =>
        match valid_ids ids1 (jget value "included_chat_ids") with
        | None => false
        | Some ids2 =>
            if Nat.ltb 100 (jsize (jget value "pinned_chat_ids")
                            + jsize (jget value "included_chat_ids"))
            then false
            else
              match valid_ids ids2 (jget value "excluded_chat_ids") with
              | None => false
              | Some _ => forallb (fun field => is_boolean (jget value field)) folder_booleans
              end
        end
    end.

(** Position of the first occurrence in a table. *)
Fixpoint index_of (s : string) (names : list string) : option nat :=
  match names with
  | [] => None
  | n :: r => if String.eqb s n then Some O else option_map S (index_of s r)
  end.

(** [prior] is [None] while [first]. *)
Fixpoint closed_strings (prior : option nat) (names : list string) (items : list json) : bool :=
  match items with
  | [] => true
  | item :: rest =>
      is_string item
      && match index_of (get_string item) names with
         | None => false
         | Some index =>
             negb (match prior with Some p => Nat.leb index p | None => false end)
             && closed_strings (Some index) names rest
         end
  end.

Definition valid_closed_strings (value : json) (names : list string) : bool :=
  if negb (is_array value) || Nat.ltb (List.length names) (jsize value) then false
  else closed_strings None names (elements value).

Definition rights : list string :=
  ["change-info"; "post-messages"; "edit-messages"; "delete-messages"; "invite-users";
   "restrict-members"; "pin-messages"; "manage-topics"; "promote-members";
   "manage-video-chats"; "post-stories"; "edit-stories"; "delete-stories";
   "manage-direct-messages"; "manage-tags"; "anonymous"].

Definition permissions : list string :=
  ["send-basic-messages"; "send-audios"; "send-documents"; "send-photos"; "send-videos";
   "send-video-notes"; "send-voice-notes"; "send-polls"; "send-other-messages";
   "add-link-previews"; "react-to-messages"; "edit-tag"; "change-info"; "invite-users";
   "pin-messages"; "create-topics"].

Definition int32_date (value : json) : bool :=
  is_number_integer value && (0 <=? get_i64 value) && (get_i64 value <=? i32_max).

Definition valid_member_status (value : json) : bool :=
  if negb (is_object value) || negb (contains value "kind") || negb (is_string (jget value "kind"))
  then false
  else
    let kind := get_string (jget value "kind") in
    if String.eqb kind "creator" then
      exact_fields value ["kind"; "is_anonymous"; "is_member"]
      && is_boolean (jget value "is_anonymous") && is_boolean (jget value "is_member")
    else if String.eqb kind "administrator" then
      exact_fields value ["kind"; "can_be_edited"; "can_manage_chat"; "rights"]
      && is_boolean (jget value "can_be_edited") && is_boolean (jget value "can_manage_chat")
      && valid_closed_strings (jget value "rights") rights
    else if String.eqb kind "member" then
      exact_fields value ["kind"; "member_until_date"] && int32_date (jget value "member_until_date")
    else if String.eqb kind "restricted" then
      exact_fields value ["kind"; "is_member"; "restricted_until_date"; "permissions"]
      && is_boolean (jget value "is_member") && int32_date (jget value "restricted_until_date")
      && valid_closed_strings (jget value "permissions") permissions
    else if String.eqb kind "left" then exact_fields value ["kind"]
    else
      String.eqb kind "banned" && exact_fields value ["kind"; "banned_until_date"]
      && int32_date (jget value "banned_until_date").

Definition device_types : list string :=
  ["android"; "apple"; "brave"; "chrome"; "edge"; "firefox"; "ipad"; "iphone"; "linux";
   "mac"; "opera"; "safari"; "ubuntu"; "unknown"; "vivaldi"; "windows"; "xbox"].

Definition valid_session_target (value : json) : bool :=
  exact_fields value
    ["id"; "is_current"; "is_password_pending"; "is_unconfirmed"; "device_type";
     "application_name"; "application_version"; "device_model"; "platform";
     "system_version"; "last_active_date"]
  && valid_canonical_int64 (jget value "id") false && eq_bool (jget value "is_current") false
  && is_boolean (jget value "is_password_pending") && is_boolean (jget value "is_unconfirmed")
  && is_string (jget value "device_type")
  && str_in (get_string (jget value "device_type")) device_types
  && valid_string (jget value "application_name") true
  && valid_string (jget value "application_version") true
  && valid_string (jget value "device_model") true && valid_string (jget value "platform") true
  && valid_string (jget value "system_version") true
  && (is_null (jget value "last_active_date")
      || valid_string (jget value "last_active_date") false).

(** The loop of [parse_message_ids]; [prior] is [result.back()]. *)
Fixpoint message_ids_loop (prior : option Z) (items : list json) : option (list Z) :=
  match items with
  | [] => Some []
  | item :: rest =>
      if negb (valid_int53 item true) then None
      else
        let id := get_i64 item in
        if match prior with Some p => id <=? p | None => false end then None
        else option_map (cons id) (message_ids_loop (Some id) rest)
  end.

Definition parse_message_ids (value : json) : option (list Z) :=
  if negb (is_array value) || jempty value || Nat.ltb 100 (jsize value) then None
  else message_ids_loop None (elements value).

(** * Paths *)

Definition equivalent_path (lhs rhs : string) : bool :=
  eqb (lexically_normal (path_of lhs)) (lexically_normal (path_of rhs)).

(** [component_prefix] on the component sequences. *)
Fixpoint component_prefix (prefix value : list string) : bool :=
  match prefix, value with
  | [], _ => true
  | _ :: _, [] => false
  | p :: ps, v :: vs => String.eqb p v && component_prefix ps vs
  end.

Definition overlapping_paths (lhs rhs : string) : bool :=
  let left := components (lexically_normal (path_of lhs)) in
  let right := components (lexically_normal (path_of rhs)) in
  component_prefix left right || component_prefix right left.

(** * Plans *)

Record RootIdentity := { path : string; device : Z; inode : Z; owner : Z }.

Record AccountRemovePlanInput := {
  account : string;
  keep_session : bool;
  delete_paths : string * string;
  config_path : string;
  config_snapshot : string;
  data_root : option RootIdentity;
  state_root : option RootIdentity;
  reassign_default : option string
}.

(** Each class has one private constructor over its data members. *)
Record LogoutPlan := { logout_account : string }.
Record AccountRemovePlan := { input_ : AccountRemovePlanInput }.
Record MsgDeletePlan := {
  md_account : string; md_chat : json; message_ids : list Z;
  requested_for_all : bool; effective_for_all : bool
}.
Record ChatLeavePlan := { cl_account : string; cl_chat : json }.
Record M6DestructivePlan := { action : string; m6_value : json }.
Record RawDestructivePlan := { raw_account : string; function : string; request_sha256 : string }.

Inductive DestructivePlan :=
| PLogout (p : LogoutPlan)
| PAccountRemove (p : AccountRemovePlan)
| PMsgDelete (p : MsgDeletePlan)
| PChatLeave (p : ChatLeavePlan)
| PM6 (p : M6DestructivePlan)
| PRaw (p : RawDestructivePlan).

Definition remote_logout (p : AccountRemovePlan) : bool := negb (keep_session (input_ p)).

Definition valid_root (root : option RootIdentity) (expected_path : string) : bool :=
  match root with
  | None => true
  | Some r => String.eqb (path r) expected_path && valid_normalized_absolute_path (path r)
  end.

Definition duplicate_roots (lhs rhs : option RootIdentity) : bool :=
  match lhs, rhs with
  | Some l, Some r =>
      equivalent_path (path l) (path r) || ((device l =? device r) && (inode l =? inode r))
  | _, _ => false
  end.

(** For a document that is not null: [Err] is [nullopt] with [error] set. *)
Definition parse_root (value : json) (expected_path : string) : result string RootIdentity :=
  check (negb (negb (exact_fields value ["path"; "device"; "inode"; "owner"])
               || negb (is_string (jget value "path"))
               || negb (is_number_unsigned (jget value "device"))
               || negb (is_number_unsigned (jget value "inode"))
               || negb (is_number_unsigned (jget value "owner"))))
        "root identity must contain exactly path and unsigned device, inode, owner" ;;;
  let root := {| path := get_string (jget value "path");
                 device := get_u64 (jget value "device");
                 inode := get_u64 (jget value "inode");
                 owner := get_u64 (jget value "owner") |} in
  check (negb (negb (String.eqb (path root) expected_path)
               || negb (valid_normalized_absolute_path (path root))))
        "root identity path must exactly match its normalized delete path" ;;;
  Ok root.

Definition serialize_root (root : option RootIdentity) : json :=
  match root with
  | None => JNull
  | Some r =>
      jobject [("path", JString (path r)); ("device", JUnsigned (device r));
               ("inode", JUnsigned (inode r)); ("owner", JUnsigned (owner r))]
  end.

Definition serialize_nullable_string (value : option string) : json := jopt JString value.

Definition valid_config_snapshot_identity (identity : string) (allow_missing : bool) : bool :=
  if String.eqb identity "missing" then allow_missing
  else if negb (starts_with identity "sha256:") then false
  else
    let identity := str_drop (String.length "sha256:") identity in
    match str_find ";" identity with
    | None => false
    | Some hash_end =>
        if negb (Nat.eqb hash_end 64) || negb (str_all is_lower_hex (str_take hash_end identity))
        then false
        else
          match consume_identity_field (str_drop (S hash_end) identity) "dev:" false with
          | None => false
          | Some i1 =>
              match consume_identity_field i1 "ino:" false with
              | None => false
              | Some i2 =>
                  match consume_identity_field i2 "size:" false with
                  | None => false
                  | Some i3 =>
                      match consume_identity_field i3 "ctime_ns:" true with
                      | None => false
                      | Some i4 => str_empty i4
                      end
                  end
              end
          end
    end.

Definition make_logout_plan (acct : string) : result string LogoutPlan :=
  check (valid_account_name acct) "logout plan account is invalid" ;;;
  Ok {| logout_account := acct |}.

Definition make_account_remove_plan (input : AccountRemovePlanInput) :
    result string AccountRemovePlan :=
  let '(d0, d1) := delete_paths input in
  check (valid_account_name (account input)) "account removal plan account is invalid" ;;;
  check (negb (negb (valid_normalized_absolute_path d0)
               || negb (valid_normalized_absolute_path d1) || overlapping_paths d0 d1))
        "account removal delete paths must be disjoint normalized absolute paths" ;;;
  check (negb (negb (valid_normalized_absolute_path (config_path input))
               || overlapping_paths (config_path input) d0
               || overlapping_paths (config_path input) d1))
        "account removal config path must not overlap either delete path" ;;;
  check (valid_config_snapshot_identity (config_snapshot input) false)
        "account removal config snapshot identity is invalid" ;;;
  check (negb (negb (valid_root (data_root input) d0) || negb (valid_root (state_root input) d1)))
        "account removal root identity does not match its delete path" ;;;
  check (negb (duplicate_roots (data_root input) (state_root input)))
        "account removal roots identify the same path or filesystem object" ;;;
  check (match reassign_default input with
         | Some r => negb (negb (valid_account_name r) || String.eqb r (account input))
         | None => true
         end)
        "account removal default reassignment is invalid" ;;;
  Ok {| input_ := input |}.

Definition parse_logout_plan (value : json) : result string LogoutPlan :=
  check (negb (negb (exact_fields value ["operation"; "account"; "remote_logout"; "tdlib_request"])
               || negb (is_string (jget value "operation"))
               || negb (eq_str (jget value "operation") "logout")
               || negb (is_string (jget value "account"))
               || negb (is_boolean (jget value "remote_logout"))
               || negb (get_bool (jget value "remote_logout"))
               || negb (is_string (jget value "tdlib_request"))
               || negb (eq_str (jget value "tdlib_request") "logOut")))
        "logout plan must have the exact contract shape and constants" ;;;
  make_logout_plan (get_string (jget value "account")).

(** [value["delete_paths"][i]]. *)
Definition nth_json (value : json) (i : nat) : json := nth i (elements value) JNull.

(** The nullable root member of an account removal plan. *)
Definition parse_optional_root (value : json) (expected_path : string) :
    result string (option RootIdentity) :=
  if is_null value then Ok None
  else r <- parse_root value expected_path ;; Ok (Some r).

Definition account_remove_fields : list string :=
  ["operation"; "account"; "remote_logout"; "keep_session"; "delete_paths"; "config_path";
   "config_snapshot"; "data_root"; "state_root"; "reassign_default"].

Definition parse_account_remove_plan (value : json) : result string AccountRemovePlan :=
  check (negb (negb (exact_fields value account_remove_fields)
               || negb (is_string (jget value "operation"))
               || negb (eq_str (jget value "operation") "account_remove")
               || negb (is_string (jget value "account"))
               || negb (is_boolean (jget value "remote_logout"))
               || negb (is_boolean (jget value "keep_session"))
               || Bool.eqb (get_bool (jget value "remote_logout"))
                           (get_bool (jget value "keep_session"))
               || negb (is_array (jget value "delete_paths"))
               || negb (Nat.eqb (jsize (jget value "delete_paths")) 2)
               || negb (is_string (nth_json (jget value "delete_paths") 0))
               || negb (is_string (nth_json (jget value "delete_paths") 1))
               || negb (is_string (jget value "config_path"))
               || negb (is_string (jget value "config_snapshot"))
               || (negb (is_null (jget value "reassign_default"))
                   && negb (is_string (jget value "reassign_default")))))
        "account removal plan must have the exact contract shape and types" ;;;
  let d0 := get_string (nth_json (jget value "delete_paths") 0) in
  let d1 := get_string (nth_json (jget value "delete_paths") 1) in
  data <- parse_optional_root (jget value "data_root") d0 ;;
  state <- parse_optional_root (jget value "state_root") d1 ;;
  make_account_remove_plan
    {| account := get_string (jget value "account");
       keep_session := get_bool (jget value "keep_session");
       delete_paths := (d0, d1);
       config_path := get_string (jget value "config_path");
       config_snapshot := get_string (jget value "config_snapshot");
       data_root := data;
       state_root := state;
       reassign_default :=
         if is_null (jget value "reassign_default") then None
         else Some (get_string (jget value "reassign_default")) |}.

Definition parse_msg_delete_plan (value : json) : result string MsgDeletePlan :=
  check (negb (negb (exact_fields value ["operation"; "account"; "tdlib_request"; "chat";
                                         "message_ids"; "requested_for_all";
                                         "effective_for_all"])
               || negb (eq_str (jget value "operation") "msg_delete")
               || negb (is_string (jget value "account"))
               || negb (valid_account_name (get_string (jget value "account")))
               || negb (eq_str (jget value "tdlib_request") "deleteMessages")
               || negb (valid_chat_identity (jget value "chat"))
               || negb (is_boolean (jget value "requested_for_all"))
               || negb (is_boolean (jget value "effective_for_all"))))
        "message deletion plan must have the exact contract shape and types" ;;;
  ids <- of_option "message deletion plan ids must be unique ascending positive int53 values"
           (parse_message_ids (jget value "message_ids")) ;;
  let type := get_string (jget (jget value "chat") "type") in
  let requested := get_bool (jget value "requested_for_all") in
  let effective := get_bool (jget value "effective_for_all") in
  check (negb (if String.eqb type "supergroup" || String.eqb type "channel"
               then negb requested || negb effective
               else negb (Bool.eqb effective requested)))
        "message deletion plan revoke policy contradicts its chat identity" ;;;
  Ok {| md_account := get_string (jget value "account"); md_chat := jget value "chat";
        message_ids := ids; requested_for_all := requested; effective_for_all := effective |}.

Definition parse_chat_leave_plan (value : json) : result string ChatLeavePlan :=
  check (negb (negb (exact_fields value ["operation"; "account"; "tdlib_request"; "chat"])
               || negb (eq_str (jget value "operation") "chat_leave")
               || negb (is_string (jget value "account"))
               || negb (valid_account_name (get_string (jget value "account")))
               || negb (eq_str (jget value "tdlib_request") "leaveChat")
               || negb (valid_chat_identity (jget value "chat"))
               || eq_str (jget (jget value "chat") "type") "private"))
        "chat leave plan must have the exact contract shape and group target" ;;;
  Ok {| cl_account := get_string (jget value "account"); cl_chat := jget value "chat" |}.

Definition valid_function_name (f : string) : bool :=
  match f with
  | EmptyString => false
  | String c rest => negb (128 <? str_len f) && is_alpha c && str_all is_alnum rest
  end.

Definition parse_raw_destructive_plan (value : json) : result string RawDestructivePlan :=
  check (negb (negb (exact_fields value ["operation"; "account"; "function"; "request_sha256"])
               || negb (eq_str (jget value "operation") "raw")
               || negb (is_string (jget value "account"))
               || negb (valid_account_name (get_string (jget value "account")))
               || negb (is_string (jget value "function"))
               || negb (valid_sha256 (jget value "request_sha256"))))
        "raw destructive plan must match its exact target contract" ;;;
  let f := get_string (jget value "function") in
  check (valid_function_name f) "raw destructive plan function is invalid" ;;;
  Ok {| raw_account := get_string (jget value "account"); function := f;
        request_sha256 := get_string (jget value "request_sha256") |}.

Definition make_raw_destructive_plan (acct f sha : string) : result string RawDestructivePlan :=
  parse_raw_destructive_plan
    (jobject [("operation", JString "raw"); ("account", JString acct);
              ("function", JString f); ("request_sha256", JString sha)]).

(** The lambda [exact] of [parse_m6_destructive_plan]. *)
Definition m6_exact (value : json) (fields : list string) (tdlib_request : string) : bool :=
  exact_fields value fields && eq_str (jget value "tdlib_request") tdlib_request.

Definition empty_array (value : json) : bool := is_array value && jempty value.

Definition m6_folder_delete (value : json) : bool :=
  m6_exact value ["operation"; "account"; "tdlib_request"; "folder"; "leave_chat_ids"]
           "deleteChatFolder"
  && valid_folder_snapshot (jget value "folder") && empty_array (jget value "leave_chat_ids").

(** [value.value("action", std::string{})] throws on a member that is not a
    string. *)
Definition m6_chat_invite_link (value : json) : result failure bool :=
  chosen <- (match jfind value "action" with
             | None => Ok EmptyString
             | Some (JString a) => Ok a
             | Some _ => Err Thrown
             end) ;;
  Ok (m6_exact value ["operation"; "account"; "tdlib_request"; "chat"; "action";
                      "invite_link_sha256"]
               (if String.eqb chosen "create" then "createChatInviteLink"
                else "revokeChatInviteLink")
      && valid_chat_identity (jget value "chat") && is_string (jget value "action")
      && ((eq_str (jget value "action") "create" && is_null (jget value "invite_link_sha256"))
          || (eq_str (jget value "action") "revoke"
              && valid_sha256 (jget value "invite_link_sha256")))).

Definition m6_member_change (operation : string) (value : json) : bool :=
  m6_exact value ["operation"; "account"; "tdlib_request"; "chat"; "user"; "before"; "after"]
           "setChatMemberStatus"
  && valid_chat_identity (jget value "chat") && valid_user_identity (jget value "user")
  && valid_member_status (jget value "before")
  && eq_str (jget value "after") (if String.eqb operation "chat_ban" then "banned" else "left").

Definition m6_storage_optimize (value : json) : bool :=
  m6_exact value ["operation"; "account"; "tdlib_request"; "size"; "ttl"; "count";
                  "immunity_delay"; "file_types"; "chat_ids"; "exclude_chat_ids";
                  "return_deleted_file_statistics"; "chat_limit"] "optimizeStorage"
  && eq_int (jget value "size") (-1) && eq_int (jget value "ttl") (-1)
  && eq_int (jget value "count") (-1) && eq_int (jget value "immunity_delay") (-1)
  && empty_array (jget value "file_types") && empty_array (jget value "chat_ids")
  && empty_array (jget value "exclude_chat_ids")
  && eq_bool (jget value "return_deleted_file_statistics") false
  && eq_int (jget value "chat_limit") 100.

Definition m6_session_terminate (value : json) : bool :=
  m6_exact value ["operation"; "account"; "tdlib_request"; "session"] "terminateSession"
  && valid_session_target (jget value "session").

(** The disjunction [valid]; the operations exclude each other. *)
Definition m6_valid (operation : string) (value : json) : result failure bool :=
  if String.eqb operation "folder_delete" then Ok (m6_folder_delete value)
  else if String.eqb operation "chat_invite_link" then m6_chat_invite_link value
  else if String.eqb operation "chat_ban" || String.eqb operation "chat_kick"
  then Ok (m6_member_change operation value)
  else if String.eqb operation "storage_optimize" then Ok (m6_storage_optimize value)
  else if String.eqb operation "session_terminate" then Ok (m6_session_terminate value)
  else Ok false.

Definition parse_m6_destructive_plan (value : json) : result failure M6DestructivePlan :=
  check (negb (negb (is_object value) || negb (contains value "operation")
               || negb (is_string (jget value "operation")) || negb (contains value "account")
               || negb (is_string (jget value "account"))
               || negb (valid_account_name (get_string (jget value "account")))
               || negb (contains value "tdlib_request")
               || negb (is_string (jget value "tdlib_request"))))
        (Rejected "M6 destructive plan must have the common exact contract fields") ;;;
  let operation := get_string (jget value "operation") in
  valid <- m6_valid operation value ;;
  check valid (Rejected "M6 destructive plan must match its exact action contract") ;;;
  Ok {| action := operation; m6_value := value |}.

Definition m6_operations : list string :=
  ["folder_delete"; "chat_invite_link"; "chat_ban"; "chat_kick"; "storage_optimize";
   "session_terminate"].

Definition parse_destructive_plan (value : json) : result failure DestructivePlan :=
  check (is_object value) (Rejected "destructive plan must be an object") ;;;
  match jfind value "operation" with
  | Some (JString operation) =>
      if String.eqb operation "logout" then reported (rmap PLogout (parse_logout_plan value))
      else if String.eqb operation "account_remove" then
        reported (rmap PAccountRemove (parse_account_remove_plan value))
      else if String.eqb operation "msg_delete" then
        reported (rmap PMsgDelete (parse_msg_delete_plan value))
      else if String.eqb operation "chat_leave" then
        reported (rmap PChatLeave (parse_chat_leave_plan value))
      else if str_in operation m6_operations then rmap PM6 (parse_m6_destructive_plan value)
      else if String.eqb operation "raw" then
        reported (rmap PRaw (parse_raw_destructive_plan value))
      else Err (Rejected "destructive plan operation is unknown")
  | _ => Err (Rejected "destructive plan operation must be a string")
  end.

(** * Serializers *)

Definition serialize_logout (p : LogoutPlan) : json :=
  jobject [("operation", JString "logout"); ("account", JString (logout_account p));
           ("remote_logout", JBool true); ("tdlib_request", JString "logOut")].

Definition serialize_account_remove (p : AccountRemovePlan) : json :=
  let i := input_ p in
  jobject [("operation", JString "account_remove"); ("account", JString (account i));
           ("remote_logout", JBool (remote_logout p)); ("keep_session", JBool (keep_session i));
           ("delete_paths", JArray [JString (fst (delete_paths i));
                                    JString (snd (delete_paths i))]);
           ("config_path", JString (config_path i));
           ("config_snapshot", JString (config_snapshot i));
           ("data_root", serialize_root (data_root i));
           ("state_root", serialize_root (state_root i));
           ("reassign_default", serialize_nullable_string (reassign_default i))].

Definition serialize_msg_delete (p : MsgDeletePlan) : json :=
  jobject [("operation", JString "msg_delete"); ("account", JString (md_account p));
           ("tdlib_request", JString "deleteMessages"); ("chat", md_chat p);
           ("message_ids", JArray (map JInteger (message_ids p)));
           ("requested_for_all", JBool (requested_for_all p));
           ("effective_for_all", JBool (effective_for_all p))].

Definition serialize_chat_leave (p : ChatLeavePlan) : json :=
  jobject [("operation", JString "chat_leave"); ("account", JString (cl_account p));
           ("tdlib_request", JString "leaveChat"); ("chat", cl_chat p)].

Definition serialize_m6 (p : M6DestructivePlan) : json := m6_value p.

Definition serialize_raw (p : RawDestructivePlan) : json :=
  jobject [("operation", JString "raw"); ("account", JString (raw_account p));
           ("function", JString (function p)); ("request_sha256", JString (request_sha256 p))].

Definition serialize_plan (plan : DestructivePlan) : json :=
  match plan with
  | PLogout p => serialize_logout p
  | PAccountRemove p => serialize_account_remove p
  | PMsgDelete p => serialize_msg_delete p
  | PChatLeave p => serialize_chat_leave p
  | PM6 p => serialize_m6 p
  | PRaw p => serialize_raw p
  end.
