(* ===== verification/DestructivePlanFacts.v ===== *)
(** Properties of destructive plans (model in DestructivePlan.v). *)
From S2P Require Import Prelude DecimalText Json Utf8 Paths FsPath DestructivePlan.

(** * Round trips *)

Lemma logout_reparse p :
  parse_logout_plan (serialize_logout p) = make_logout_plan (logout_account p).
Proof. reflexivity. Qed.

Lemma logout_account_valid v p :
  parse_logout_plan v = Ok p -> make_logout_plan (logout_account p) = Ok p.
Proof.
  unfold parse_logout_plan. rewrite check_seq. intros [_ H]. unfold make_logout_plan in *.
  rewrite check_seq in H. destruct H as [V H]. injection H as <-. cbn. now rewrite V.
Qed.

Lemma chat_leave_reparse v p :
  parse_chat_leave_plan v = Ok p -> parse_chat_leave_plan (serialize_chat_leave p) = Ok p.
Proof.
  unfold parse_chat_leave_plan at 1. rewrite check_seq. intros [C H]. injection H as <-.
  bool_split. cbn [cl_account cl_chat].
  set (acct := get_string (jget v "account")) in *. set (chat := jget v "chat") in *.
  unfold parse_chat_leave_plan. rewrite check_seq.
  change (jget (serialize_chat_leave {| cl_account := acct; cl_chat := chat |}) "chat") with chat.
  change (get_string (jget (serialize_chat_leave {| cl_account := acct; cl_chat := chat |}) "account"))
    with acct.
  split; [|reflexivity]. rewrite_bools. reflexivity.
Qed.

Lemma int53_positive_reparse item :
  valid_int53 item true = true -> valid_int53 (JInteger (get_i64 item)) true = true.
Proof.
  unfold valid_int53. destruct (is_number_integer item); [|discriminate]. intros H. exact H.
Qed.

Lemma message_ids_loop_reparse items : forall prior ids,
  message_ids_loop prior items = Some ids ->
  message_ids_loop prior (map JInteger ids) = Some ids /\ List.length ids = List.length items.
Proof.
  induction items as [|item items IH]; intros prior ids H; cbn [message_ids_loop] in H.
  - injection H as <-. auto.
  - destruct (valid_int53 item true) eqn:V; [|discriminate]. cbn [negb] in H.
    destruct (match prior with Some p => _ | None => false end) eqn:P; [discriminate|].
    destruct (message_ids_loop (Some (get_i64 item)) items) as [rest|] eqn:E; [|discriminate].
    injection H as <-. destruct (IH _ _ E) as [E' L]. cbn [map message_ids_loop List.length].
    rewrite (int53_positive_reparse _ V). cbn [negb get_i64]. rewrite P, E'. cbn. auto.
Qed.

Lemma parse_message_ids_reparse v ids :
  parse_message_ids v = Some ids -> parse_message_ids (JArray (map JInteger ids)) = Some ids.
Proof.
  unfold parse_message_ids. destruct v as [| | | | | |items|]; try discriminate.
  cbn [is_array negb elements]. unfold jempty. cbn [jsize]. rewrite length_map.
  destruct (_ || _) eqn:B; [discriminate|]. intros H.
  destruct (message_ids_loop_reparse _ _ _ H) as [E L]. rewrite L.
  cbn [orb] in *. rewrite B. exact E.
Qed.

Lemma msg_delete_reparse v p :
  parse_msg_delete_plan v = Ok p -> parse_msg_delete_plan (serialize_msg_delete p) = Ok p.
Proof.
  unfold parse_msg_delete_plan at 1. rewrite check_seq. intros [C H].
  destruct (parse_message_ids (jget v "message_ids")) as [ids|] eqn:I; [|discriminate H].
  cbn [of_option bind] in H. rewrite check_seq in H. destruct H as [R H].
  injection H as <-. set (acct := get_string (jget v "account")) in *.
  set (chat := jget v "chat") in *. set (rq := get_bool (jget v "requested_for_all")) in *.
  set (ef := get_bool (jget v "effective_for_all")) in *.
  set (p := Build_MsgDeletePlan _ _ _ _ _). unfold parse_msg_delete_plan.
  change (jget (serialize_msg_delete p) "chat") with chat.
  change (get_string (jget (serialize_msg_delete p) "account")) with acct.
  change (jget (serialize_msg_delete p) "message_ids") with (JArray (map JInteger ids)).
  change (get_bool (jget (serialize_msg_delete p) "requested_for_all")) with rq.
  change (get_bool (jget (serialize_msg_delete p) "effective_for_all")) with ef.
  rewrite (parse_message_ids_reparse _ _ I). cbn [of_option bind]. rewrite !check_seq.
  bool_split. split; [rewrite_bools; reflexivity|]. split; [now rewrite R | reflexivity].
Qed.

Lemma raw_reparse v p :
  parse_raw_destructive_plan v = Ok p -> parse_raw_destructive_plan (serialize_raw p) = Ok p.
Proof.
  unfold parse_raw_destructive_plan at 1. rewrite !check_seq. intros (C & F & H). injection H as <-.
  bool_split. destruct (jget v "request_sha256") as [| | | | |sha| |] eqn:S; try discriminate.
  cbn [get_string]. set (acct := get_string (jget v "account")) in *.
  set (f := get_string (jget v "function")) in *. set (p := Build_RawDestructivePlan _ _ _).
  unfold parse_raw_destructive_plan.
  change (get_string (jget (serialize_raw p) "account")) with acct.
  change (get_string (jget (serialize_raw p) "function")) with f.
  change (jget (serialize_raw p) "request_sha256") with (JString sha).
  rewrite !check_seq. split; [rewrite_bools; reflexivity | split; [exact F | reflexivity]].
Qed.

Lemma m6_reparse v p :
  parse_m6_destructive_plan v = Ok p -> m6_value p = v /\ action p = get_string (jget v "operation").
Proof.
  unfold parse_m6_destructive_plan. rewrite check_seq. intros [_ H].
  destruct (m6_valid _ v); [|discriminate]. cbn [bind] in H. rewrite check_seq in H.
  destruct H as [_ H]. injection H as <-. auto.
Qed.

(** An accepted root identity is read back from its document. *)
Lemma root_reparse r expected :
  valid_root r expected = true -> parse_optional_root (serialize_root r) expected = Ok r.
Proof.
  destruct r as [[p d i o]|]; [|reflexivity]. cbn [valid_root path]. intros H. bool_split.
  unfold parse_optional_root. change (is_null (serialize_root (Some _))) with false. cbn iota.
  set (v := serialize_root _).
  assert (parse_root v expected = Ok {| path := p; device := d; inode := i; owner := o |}) as ->;
    [|reflexivity].
  unfold parse_root. change (get_string (jget v "path")) with p. rewrite !check_seq.
  cbn [path]. split; [reflexivity|]. split; [rewrite_bools; reflexivity | reflexivity].
Qed.

Lemma make_account_remove_roots i p :
  make_account_remove_plan i = Ok p ->
  p = {| input_ := i |} /\ valid_root (data_root i) (fst (delete_paths i)) = true /\
  valid_root (state_root i) (snd (delete_paths i)) = true.
Proof.
  unfold make_account_remove_plan. destruct (delete_paths i) as [d0 d1].
  rewrite !check_seq. intros (_ & _ & _ & _ & R & _ & _ & H). injection H as <-. bool_split. auto.
Qed.

Lemma account_remove_reparse i p :
  make_account_remove_plan i = Ok p ->
  parse_account_remove_plan (serialize_account_remove p) = Ok p.
Proof.
  intros M. pose proof (make_account_remove_roots _ _ M) as (-> & D & S).
  destruct i as [acct ks [d0 d1] cp cs dr sr rd]. cbn [data_root state_root delete_paths fst snd] in *.
  set (p := {| input_ := _ |}) in *. set (v := serialize_account_remove p).
  unfold parse_account_remove_plan.
  change (jget v "data_root") with (serialize_root dr).
  change (jget v "state_root") with (serialize_root sr).
  change (get_string (nth_json (jget v "delete_paths") 0)) with d0.
  change (get_string (nth_json (jget v "delete_paths") 1)) with d1.
  rewrite (root_reparse _ _ D), (root_reparse _ _ S). cbn [bind]. rewrite check_seq.
  change (jget v "reassign_default") with (jopt JString rd).
  split; [destruct ks, rd; reflexivity|]. rewrite <- M. destruct rd; reflexivity.
Qed.

Lemma account_remove_made v p :
  parse_account_remove_plan v = Ok p -> exists i, make_account_remove_plan i = Ok p.
Proof.
  unfold parse_account_remove_plan. rewrite check_seq. intros [_ H].
  inv_bind H. inv_bind H. eauto.
Qed.


Definition sample_chat : json :=
  JObject [("id", JInteger (-1001)); ("is_bot", JBool false); ("title", JString "Team");
           ("type", JString "supergroup"); ("usernames", JArray [JString "team_1"])].

Definition sample_msg_delete : json :=
  JObject [("account", JString "main"); ("chat", sample_chat); ("effective_for_all", JBool true);
           ("message_ids", JArray [JUnsigned 5; JUnsigned 9]); ("operation", JString "msg_delete");
           ("requested_for_all", JBool true); ("tdlib_request", JString "deleteMessages")].

Definition sample_msg_delete_plan : DestructivePlan :=
  PMsgDelete {| md_account := "main"; md_chat := sample_chat; message_ids := [5; 9];
                requested_for_all := true; effective_for_all := true |}.


(** * Message deletion *)

Lemma message_ids_loop_sorted items : forall prior ids,
  message_ids_loop prior items = Some ids ->
  strictly_increasing (match prior with Some p => p :: ids | None => ids end) = true /\
  Forall (fun id => 0 < id <= int53_max) ids.
Proof.
  induction items as [|item items IH]; intros prior ids H; cbn [message_ids_loop] in H.
  - injection H as <-. destruct prior; auto.
  - destruct (valid_int53 item true) eqn:V; [|discriminate]. cbn [negb] in H.
    destruct (match prior with Some p => _ | None => false end) eqn:P; [discriminate|].
    destruct (message_ids_loop (Some (get_i64 item)) items) as [rest|] eqn:E; [|discriminate].
    injection H as <-. apply IH in E as [S F]. split.
    + destruct prior as [p|]; [|exact S]. cbn [strictly_increasing]. bool_split; [|exact S].
      z_bool. now apply Z.ltb_lt.
    + constructor; [|exact F]. unfold valid_int53 in V.
      destruct (is_number_integer item); [|discriminate]. cbn [negb] in V. bool_split. z_bool. lia.
Qed.

(** An accepted message deletion names between one and a hundred
    distinct messages, in ascending order, all positive 53-bit integers (so
    they are exact in every JSON reader); in supergroups and channels it
    always deletes for everyone, elsewhere exactly as requested. *)
Theorem msg_delete_plan_contract v p :
  parse_msg_delete_plan v = Ok p ->
  valid_account_name (md_account p) = true /\
  (1 <= List.length (message_ids p) <= 100)%nat /\
  strictly_increasing (message_ids p) = true /\
  Forall (fun id => 0 < id <= int53_max) (message_ids p) /\
  (let type := get_string (jget (md_chat p) "type") in
   if String.eqb type "supergroup" || String.eqb type "channel"
   then requested_for_all p = true /\ effective_for_all p = true
   else effective_for_all p = requested_for_all p).
Proof.
  unfold parse_msg_delete_plan. rewrite check_seq. intros [C H].
  destruct (parse_message_ids (jget v "message_ids")) as [ids|] eqn:I; [|discriminate H].
  cbn [of_option bind] in H. rewrite check_seq in H. destruct H as [R H]. injection H as <-.
  cbn [md_account message_ids md_chat requested_for_all effective_for_all].
  bool_split. unfold parse_message_ids in I.
  destruct (jget v "message_ids") as [| | | | | |items|]; try discriminate.
  cbn [is_array negb elements orb] in I. unfold jempty in I. cbn [jsize] in I.
  destruct (_ || _) eqn:B; [discriminate|]. apply orb_false_iff in B as [B0 B1].
  apply Nat.eqb_neq in B0. apply Nat.ltb_ge in B1.
  destruct (message_ids_loop_reparse _ _ _ I) as [_ L].
  destruct (message_ids_loop_sorted _ _ _ I) as [S F].
  repeat split; try assumption; try lia.
  destruct (String.eqb _ "supergroup" || _); [bool_split; auto|].
  bool_split. now apply Bool.eqb_prop.
Qed.

Lemma msg_delete_plan_contract_witness :
  exists p, parse_msg_delete_plan sample_msg_delete = Ok p /\
            strictly_increasing (message_ids p) = true.
Proof.
  exists {| md_account := "main"; md_chat := sample_chat; message_ids := [5; 9];
            requested_for_all := true; effective_for_all := true |}.
  assert (E : parse_msg_delete_plan sample_msg_delete = Ok
    {| md_account := "main"; md_chat := sample_chat; message_ids := [5; 9];
       requested_for_all := true; effective_for_all := true |}) by (vm_compute; reflexivity).
  split; [exact E|]. exact (proj1 (proj2 (proj2 (msg_delete_plan_contract _ _ E)))).
Defined.

(** * Account removal *)

Lemma component_prefix_spec a b : component_prefix a b = true <-> exists c, b = a ++ c.
Proof.
  revert b. induction a as [|x a IH]; intros b; cbn [component_prefix].
  - split; [intros _; exists b; reflexivity | reflexivity].
  - destruct b as [|y b]; [split; [discriminate | intros [c C]; discriminate]|].
    rewrite andb_true_iff, String.eqb_eq, IH. split.
    + intros [-> [c ->]]. exists c. reflexivity.
    + intros [c C]. injection C as -> ->. eauto.
Qed.

Lemma ends_in_slash_app a : ends_in_slash (a +++ "/") = true.
Proof.
  induction a as [|c a IH]; [reflexivity|]. cbn [String.append ends_in_slash].
  destruct (a +++ "/") eqn:E; [destruct a; discriminate | exact IH].
Qed.

(** A normalized absolute path without a trailing separator: its components
    are the root and its filenames. *)
Lemma normalized_components d :
  valid_normalized_absolute_path d = true -> ends_in_slash d = false ->
  components (lexically_normal (path_of d)) = "/" :: names (lexically_normal (path_of d)).
Proof.
  unfold valid_normalized_absolute_path. destruct (_ || _); [discriminate|].
  destruct (negb _ || _) eqn:A; [discriminate|]. apply orb_false_iff in A as [A _].
  apply negb_false_iff in A. unfold is_absolute in A. intros E S. apply String.eqb_eq in E.
  assert (R : has_root (lexically_normal (path_of d)) = true).
  { unfold lexically_normal. rewrite A. destruct (names (path_of d)); [exact A|].
    destruct (fold_left _ _ _) as [[|top rest] tr]; reflexivity. }
  unfold components, generic_string in *. rewrite R in *.
  destruct (trailing (lexically_normal (path_of d))); [|now rewrite app_nil_r].
  exfalso. rewrite <- E in S.
  rewrite <- str_app_assoc, ends_in_slash_app in S. discriminate.
Qed.

(** The absolute file with filenames [f] lies at or below directory [d]. *)
Definition inside (d : string) (f : list string) : Prop :=
  exists z, f = names (lexically_normal (path_of d)) ++ z.

Lemma app_prefixes {A} (a b c d : list A) :
  a ++ c = b ++ d -> (exists e, b = a ++ e) \/ (exists e, a = b ++ e).
Proof.
  revert b. induction a as [|x a IH]; intros b H; [left; exists b; reflexivity|].
  destruct b as [|y b]; [right; exists (x :: a); reflexivity|].
  injection H as -> H. destruct (IH b H) as [[e ->]|[e ->]]; [left | right]; exists e; reflexivity.
Qed.

Lemma not_overlapping_disjoint a b f :
  valid_normalized_absolute_path a = true -> valid_normalized_absolute_path b = true ->
  ends_in_slash a = false -> ends_in_slash b = false ->
  overlapping_paths a b = false -> inside a f -> ~ inside b f.
Proof.
  intros Va Vb Sa Sb O [z ->] [z' E]. unfold overlapping_paths in O.
  rewrite (normalized_components a Va Sa), (normalized_components b Vb Sb) in O.
  cbn [component_prefix] in O. rewrite String.eqb_refl in O. cbn [andb] in O.
  apply orb_false_iff in O as [O1 O2].
  destruct (app_prefixes _ _ _ _ E) as [P|P];
    [rewrite (proj2 (component_prefix_spec _ _) P) in O1
    |rewrite (proj2 (component_prefix_spec _ _) P) in O2]; discriminate.
Qed.

(** C32.  An accepted account removal deletes two directories that share no
    file and never the configuration: with paths written without a trailing
    separator, no file lies below both directories, the configuration file
    lies below neither, the recorded roots are different objects, and the
    default account is never reassigned to the account being removed. *)
Theorem account_remove_plan_safe i p :
  make_account_remove_plan i = Ok p ->
  let '(d0, d1) := delete_paths i in
  ends_in_slash d0 = false -> ends_in_slash d1 = false -> ends_in_slash (config_path i) = false ->
  valid_account_name (account i) = true /\
  (forall f, inside d0 f -> ~ inside d1 f) /\
  ~ inside d0 (names (lexically_normal (path_of (config_path i)))) /\
  ~ inside d1 (names (lexically_normal (path_of (config_path i)))) /\
  (forall r s, data_root i = Some r -> state_root i = Some s ->
     path r = d0 /\ path s = d1 /\ (device r <> device s \/ inode r <> inode s)) /\
  (forall a, reassign_default i = Some a -> valid_account_name a = true /\ a <> account i).
Proof.
  unfold make_account_remove_plan. destruct (delete_paths i) as [d0 d1]. rewrite !check_seq.
  intros (A & D & C & _ & R & Du & Re & _) S0 S1 Sc. bool_split.
  assert (self : forall s, inside s (names (lexically_normal (path_of s))))
    by (intros s; exists []; now rewrite app_nil_r).
  split; [exact A|]. split; [|split; [|split; [|split]]].
  - intros f. now apply not_overlapping_disjoint.
  - intros I. refine (not_overlapping_disjoint (config_path i) d0 _ _ _ _ _ _ (self _) I);
      assumption.
  - intros I. refine (not_overlapping_disjoint (config_path i) d1 _ _ _ _ _ _ (self _) I);
      assumption.
  - intros r s Er Es. rewrite Er, Es in *. cbn [valid_root duplicate_roots] in *. bool_split.
    str_bool. repeat split; auto.
    destruct (Z.eq_dec (device r) (device s)) as [e|n]; [|now left].
    right. intros I. rewrite e, I, !Z.eqb_refl in *. discriminate.
  - intros a E. rewrite E in Re. bool_split. split; [assumption|].
    apply String.eqb_neq. assumption.
Qed.

Definition sample_identity : string :=
  "sha256:0123456789abcdef0123456789abcdef0123456789abcdef0123456789abcdef;dev:1;ino:22;size:0;ctime_ns:3".

Definition removal_input (d0 d1 config : string) : AccountRemovePlanInput :=
  {| account := "work"; keep_session := false; delete_paths := (d0, d1); config_path := config;
     config_snapshot := sample_identity; data_root := None; state_root := None;
     reassign_default := Some "main" |}.

Lemma account_remove_plan_safe_witness :
  let i := removal_input "/data/work" "/state/work" "/etc/tgcli.toml" in
  make_account_remove_plan i = Ok {| input_ := i |} /\
  ~ inside "/data/work" (names (lexically_normal (path_of "/etc/tgcli.toml"))).
Proof.
  intros i. assert (E : make_account_remove_plan i = Ok {| input_ := i |})
    by (vm_compute; reflexivity).
  split; [exact E|].
  exact (proj1 (proj2 (proj2 (account_remove_plan_safe i _ E eq_refl eq_refl eq_refl)))).
Defined.

(** The restriction to paths without a trailing separator is needed: the
    components of ["/data/work/"] end with an empty filename, which is no
    prefix of any path below the directory, and the plan is accepted with the
    configuration inside a directory to be deleted. *)
Theorem trailing_separator_defeats_overlap_check :
  let i := removal_input "/data/work/" "/state/work" "/data/work/config.toml" in
  make_account_remove_plan i = Ok {| input_ := i |} /\
  inside "/data/work/" (names (lexically_normal (path_of "/data/work/config.toml"))).
Proof. split; [vm_compute; reflexivity | exists ["config.toml"]; reflexivity]. Qed.

(** The 53-bit test of a signed identifier converts an unsigned document
    number with wrap-around, and accepts numbers far outside the range. *)
Theorem int53_check_wraps :
  valid_int53 (JUnsigned 18446744073709551611) false = true /\
  int53_max < get_u64 (JUnsigned 18446744073709551611).
Proof. split; reflexivity. Qed.

(** A plan whose [action] is not a string is not rejected with a message. *)
Theorem m6_action_type_escapes :
  parse_destructive_plan
    (JObject [("account", JString "main"); ("action", JUnsigned 1);
              ("operation", JString "chat_invite_link");
              ("tdlib_request", JString "createChatInviteLink")]) = Err Thrown.
Proof. vm_compute. reflexivity. Qed.

(** * Configuration snapshots *)

Lemma valid_unsigned_decimal_spec s :
  valid_unsigned_decimal s = true <-> exists n, 0 <= n <= u64_max /\ s = to_string n.
Proof.
  assert (C : forall c r, negb (negb (str_len (String c r) =? 1) && starts_with (String c r) "0")
              = canonical_digits (String c r)).
  { intros c r. unfold canonical_digits, starts_with. cbn [String.prefix].
    assert (String.prefix EmptyString r = true) as -> by (destruct r; reflexivity).
    unfold str_len. cbn [String.length].
    destruct (ascii_dec "0" c) as [<-|N].
    - destruct r; [reflexivity|]. cbn [String.length str_empty].
      destruct (_ =? 1) eqn:E; [z_bool; lia | reflexivity].
    - rewrite andb_false_r. destruct (Ascii.eqb c "0") eqn:E; [apply Ascii.eqb_eq in E; congruence|].
      reflexivity. }
  unfold valid_unsigned_decimal. split.
  - destruct s as [|c r]; [discriminate|]. destruct (_ || _) eqn:B; [discriminate|].
    apply orb_false_iff in B as [B D]. apply orb_false_iff in B as [_ B]. apply negb_true_iff in B.
    rewrite C in B. destruct (decimal_value (String c r)) as [n|] eqn:E; [|discriminate].
    intros L. z_bool. exists n. split; [split; [now apply decimal_value_nonneg in E | exact L]|].
    symmetry. now apply decimal_value_canonical.
  - intros (n & R & ->). pose proof (canonical_digits_to_string n) as Cn.
    rewrite decimal_value_to_string, to_string_digits by lia.
    destruct (to_string n) as [|c r] eqn:E; [discriminate Cn; lia|].
    rewrite <- C in Cn. cbn [str_empty orb]. rewrite (proj1 (negb_true_iff _) (Cn (proj1 R))).
    cbn [orb negb]. now apply Z.leb_le.
Qed.

Lemma digits_no_semicolon n : 0 <= n -> str_find ";" (to_string n) = None.
Proof.
  intros H. apply str_find_none. apply (str_all_impl is_digit); [|now apply to_string_digits].
  intros [[] [] [] [] [] [] [] []]; vm_compute; congruence.
Qed.

Lemma consume_field_spec identity prefix rest :
  consume_identity_field identity prefix false = Some rest <->
  exists n, 0 <= n <= u64_max /\ identity = prefix +++ to_string n +++ ";" +++ rest.
Proof.
  unfold consume_identity_field. split.
  - destruct (starts_with identity prefix) eqn:P; [|discriminate]. cbn [negb].
    apply starts_with_spec in P as [r ->]. rewrite str_drop_app.
    destruct (str_find ";" r) as [k|] eqn:F; [|discriminate].
    destruct (valid_unsigned_decimal (str_take k r)) eqn:V; [|discriminate].
    intros H. injection H as <-. apply valid_unsigned_decimal_spec in V as (n & R & E).
    exists n. split; [exact R|]. destruct (str_find_some _ _ _ F) as [Er _].
    rewrite Er at 1. rewrite E. reflexivity.
  - intros (n & R & ->). rewrite starts_with_app, str_drop_app. cbn [negb].
    cbn [String.append]. rewrite (str_find_app ";" (to_string n) rest) by (apply digits_no_semicolon; lia).
    rewrite str_take_app. rewrite (proj2 (valid_unsigned_decimal_spec (to_string n))) by eauto.
    replace (S (String.length (to_string n))) with (String.length (to_string n) + 1)%nat by lia.
    now rewrite <- str_drop_drop, str_drop_app.
Qed.

Lemma consume_last_spec identity prefix rest :
  consume_identity_field identity prefix true = Some rest <->
  rest = EmptyString /\ exists n, 0 <= n <= u64_max /\ identity = prefix +++ to_string n.
Proof.
  unfold consume_identity_field. split.
  - destruct (starts_with identity prefix) eqn:P; [|discriminate]. cbn [negb].
    apply starts_with_spec in P as [r ->]. rewrite str_drop_app.
    destruct (valid_unsigned_decimal r) eqn:V; [|discriminate]. intros H. injection H as <-.
    apply valid_unsigned_decimal_spec in V as (n & R & ->). eauto.
  - intros (-> & n & R & ->). rewrite starts_with_app, str_drop_app. cbn [negb].
    now rewrite (proj2 (valid_unsigned_decimal_spec (to_string n))) by eauto.
Qed.

(** The text of a configuration snapshot identity. *)
Definition snapshot_identity (hash : string) (dev ino size ctime : Z) : string :=
  "sha256:" +++ hash +++ ";" +++ "dev:" +++ to_string dev +++ ";" +++ "ino:" +++ to_string ino
  +++ ";" +++ "size:" +++ to_string size +++ ";" +++ "ctime_ns:" +++ to_string ctime.

Lemma hex_no_semicolon h : str_all is_lower_hex h = true -> str_find ";" h = None.
Proof.
  intros H. apply str_find_none. revert H. apply str_all_impl.
  intros [[] [] [] [] [] [] [] []]; vm_compute; congruence.
Qed.

(** The accepted configuration snapshot identities are exactly the
    canonical ones: a SHA-256 in 64 lowercase hexadecimal digits and the
    device, inode, size and change time as 64-bit decimals without leading
    zeros. *)
Theorem config_snapshot_identity_canonical s :
  valid_config_snapshot_identity s false = true <->
  exists hash dev ino size ctime,
    String.length hash = 64%nat /\ str_all is_lower_hex hash = true /\
    0 <= dev <= u64_max /\ 0 <= ino <= u64_max /\ 0 <= size <= u64_max /\
    0 <= ctime <= u64_max /\ s = snapshot_identity hash dev ino size ctime.
Proof.
  unfold valid_config_snapshot_identity. split.
  - destruct (String.eqb s "missing"); [discriminate|].
    destruct (starts_with s "sha256:") eqn:P; [|discriminate]. cbn [negb].
    apply starts_with_spec in P as [r ->]. rewrite str_drop_app.
    destruct (str_find ";" r) as [k|] eqn:F; [|discriminate].
    destruct (_ || _) eqn:B; [discriminate|]. apply orb_false_iff in B as [K X].
    apply negb_false_iff in K, X. apply Nat.eqb_eq in K. subst k.
    destruct (consume_identity_field _ "dev:" false) as [i1|] eqn:E1; [|discriminate].
    destruct (consume_identity_field i1 "ino:" false) as [i2|] eqn:E2; [|discriminate].
    destruct (consume_identity_field i2 "size:" false) as [i3|] eqn:E3; [|discriminate].
    destruct (consume_identity_field i3 "ctime_ns:" true) as [i4|] eqn:E4; [|discriminate].
    intros _. apply consume_field_spec in E1 as (dev & Rd & E1), E2 as (ino & Ri & ->),
      E3 as (size & Rs & ->). apply consume_last_spec in E4 as (_ & ctime & Rc & ->).
    exists (str_take 64 r), dev, ino, size, ctime.
    destruct (str_find_some _ _ _ F) as [Er _].
    split; [rewrite str_take_length; pose proof (str_find_length _ _ _ F); lia|].
    do 5 (split; [assumption|]). unfold snapshot_identity.
    rewrite Er at 1. rewrite E1. reflexivity.
  - intros (hash & dev & ino & size & ctime & L & X & Rd & Ri & Rs & Rc & ->).
    unfold snapshot_identity. rewrite starts_with_app, str_drop_app. cbn [negb].
    replace (String.eqb ("sha256:" +++ _) "missing") with false by reflexivity.
    set (tail := "dev:" +++ _). change (";" +++ tail) with (String ";" tail).
    rewrite (str_find_app ";" hash tail (hex_no_semicolon _ X)).
    rewrite str_take_app, L, X. cbn [Nat.eqb negb orb].
    replace 65%nat with (String.length hash + 1)%nat by lia.
    rewrite <- str_drop_drop, str_drop_app. cbn [str_drop]. subst tail.
    set (t1 := "ino:" +++ _). assert (consume_identity_field
      ("dev:" +++ to_string dev +++ ";" +++ t1) "dev:" false = Some t1) as ->
      by (apply consume_field_spec; eauto). subst t1.
    set (t2 := "size:" +++ _). assert (consume_identity_field
      ("ino:" +++ to_string ino +++ ";" +++ t2) "ino:" false = Some t2) as ->
      by (apply consume_field_spec; eauto). subst t2.
    set (t3 := "ctime_ns:" +++ _). assert (consume_identity_field
      ("size:" +++ to_string size +++ ";" +++ t3) "size:" false = Some t3) as ->
      by (apply consume_field_spec; eauto). subst t3.
    assert (consume_identity_field ("ctime_ns:" +++ to_string ctime) "ctime_ns:" true
            = Some EmptyString) as -> by (apply consume_last_spec; eauto).
    reflexivity.
Qed.

Example config_snapshot_identity_sample :
  valid_config_snapshot_identity sample_identity false = true /\
  valid_config_snapshot_identity "missing" true = true /\
  valid_config_snapshot_identity "missing" false = false.
Proof. repeat split; vm_compute; reflexivity. Qed.
