(* ===== verification/LocalSelector.v ===== *)
(** Chat selectors resolved without the network
    (src/src/daemon/local_selector.cpp, .hpp): ids, usernames, t.me links and
    titles. *)
From S2P Require Import Prelude Utf8 FsPath InviteLink DestructivePlan.

Definition kMaximumInt53 : Z := 9007199254740991.

Inductive LocalSelectorKind :=
| Numeric | Username | PublicChatLink | BotStartLink | MessageLink | ChatInviteLink
| DirectMessagesChatLink | InvalidLink | UnsupportedLink | Title.

Record LocalSelector := { kind : LocalSelectorKind; chat_id : Z; value : string }.

(** * Character classes and numbers *)

(** [ascii_alpha], [ascii_digit] and [ascii_alnum] are [is_alpha], [is_digit]
    and [is_alnum]. *)
Definition decimal_syntax (v : string) : bool :=
  match v with
  | EmptyString => false
  | String c r =>
      let digits := if Ascii.eqb c "-" || Ascii.eqb c "+" then r else v in
      negb (str_empty digits) && str_all is_digit digits
  end.

Definition parse_chat_id (v : string) : option Z :=
  let v := if starts_with v "+" then str_drop 1 v else v in
  match from_chars_i64 v with
  | Some parsed =>
      if (parsed =? 0) || (parsed <? - kMaximumInt53) || (kMaximumInt53 <? parsed)
      then None else Some parsed
  | None => None
  end.

Definition ascii_lower (c : ascii) : ascii :=
  if is_upper c then ascii_of_Z (byte_of c + 32) else c.

Fixpoint ascii_starts_with_case_insensitive (v prefix : string) : bool :=
  match prefix, v with
  | EmptyString, _ => true
  | String p prefix', String c v' =>
      Ascii.eqb (ascii_lower c) (ascii_lower p) && ascii_starts_with_case_insensitive v' prefix'
  | String _ _, EmptyString => false
  end.

Definition scheme_char (c : ascii) : bool :=
  is_alnum c || Ascii.eqb c "+" || Ascii.eqb c "." || Ascii.eqb c "-".

(** The [while] of [url_like]. *)
Fixpoint skip_scheme (v : string) : string :=
  match v with
  | String c r => if scheme_char c then skip_scheme r else v
  | EmptyString => EmptyString
  end.

(** The loop over the hosts: the first that is a prefix decides. *)
Fixpoint known_host (hosts : list string) (v : string) : bool :=
  match hosts with
  | [] => false
  | host :: rest =>
      if negb (ascii_starts_with_case_insensitive v host) then known_host rest v
      else
        match str_drop (String.length host) v with
        | EmptyString => true
        | String next _ =>
            Ascii.eqb next "/" || Ascii.eqb next ":" || Ascii.eqb next "?" || Ascii.eqb next "#"
        end
  end.

Definition url_like (v : string) : bool :=
  let scheme :=
    match v with
    | String c r => is_alpha c && starts_with (skip_scheme r) "://"
    | EmptyString => false
    end in
  scheme || known_host ["t.me"; "www.t.me"] v.

Fixpoint str_back (v : string) : option ascii :=
  match v with
  | EmptyString => None
  | String c EmptyString => Some c
  | String _ r => str_back r
  end.

Fixpoint username_loop (previous_underscore : bool) (v : string) : bool :=
  match v with
  | EmptyString => true
  | String c r =>
      if negb (is_alnum c) && negb (Ascii.eqb c "_") then false
      else if Ascii.eqb c "_" && previous_underscore then false
      else username_loop (Ascii.eqb c "_") r
  end.

Definition username (v : string) : bool :=
  match v with
  | EmptyString => false
  | String first _ =>
      if (32 <? str_len v) || negb (is_alpha first)
         || match str_back v with Some c => Ascii.eqb c "_" | None => false end
      then false
      else username_loop false v
  end.

Definition component_character (c : ascii) : bool :=
  is_alnum c || Ascii.eqb c "_" || Ascii.eqb c "+" || Ascii.eqb c "-".

Definition query_character (c : ascii) : bool :=
  is_alnum c || Ascii.eqb c "_" || Ascii.eqb c "-".

Definition base64url (v : string) : bool := negb (str_empty v) && str_all query_character v.

Definition decimal_component (v : string) : bool := negb (str_empty v) && str_all is_digit v.

Definition positive_decimal (v : string) : bool :=
  match v with
  | EmptyString => false
  | String c _ => in_range "1" "9" c && str_all is_digit v
  end.

(** * Links *)

(** One [key=value] pair. *)
Definition query_pair (pair : string) : bool :=
  if str_empty pair then false
  else
    let '(key, val) :=
      match str_find "=" pair with
      | None => (pair, EmptyString)
      | Some equals => (str_take equals pair, str_drop (S equals) pair)
      end in
    negb (str_empty key) && str_all query_character key && str_all query_character val.

(** The loop of [valid_query_envelope]; every iteration drops at least one
    character. *)
Fixpoint query_loop (fuel : nat) (query : string) : bool :=
  match fuel with
  | O => false
  | S fuel =>
      if str_empty query then false
      else
        match str_find "&" query with
        | None => query_pair query
        | Some stop =>
            query_pair (str_take stop query) && query_loop fuel (str_drop (S stop) query)
        end
  end.

Definition valid_query_envelope (query : string) : bool :=
  query_loop (S (String.length query)) query.

Definition good_component (c : string) : bool :=
  negb (str_empty c) && str_all component_character c.

Fixpoint components_loop (fuel : nat) (path : string) : option (list string) :=
  match fuel with
  | O => None
  | S fuel =>
      if str_empty path then Some []
      else
        match str_find "/" path with
        | None => if good_component path then Some [path] else None
        | Some stop =>
            if good_component (str_take stop path) then
              option_map (cons (str_take stop path)) (components_loop fuel (str_drop (S stop) path))
            else None
        end
  end.

Definition path_components (path : string) : option (list string) :=
  if str_empty path || ends_in_slash path then None
  else components_loop (S (String.length path)) path.

Definition classified (k : LocalSelectorKind) (v : string) : LocalSelector :=
  {| kind := k; chat_id := 0; value := v |}.

Definition classify_query_link (components : list string) (query : string) : LocalSelector :=
  match components with
  | [name] =>
      if negb (username name) then classified InvalidLink EmptyString
      else if String.eqb query "direct" then classified DirectMessagesChatLink name
      else if starts_with query "start" then
        if negb (starts_with query "start=") || negb (str_all query_character (str_drop 6 query))
        then classified InvalidLink EmptyString
        else classified BotStartLink name
      else classified UnsupportedLink EmptyString
  | _ => classified UnsupportedLink EmptyString
  end.

Definition classify_single_path (v : string) : LocalSelector :=
  if starts_with v "+" then
    if base64url (str_drop 1 v) then classified ChatInviteLink EmptyString
    else classified InvalidLink EmptyString
  else if username v then classified PublicChatLink v
  else classified InvalidLink EmptyString.

Definition classify_double_path (first second : string) : LocalSelector :=
  if String.eqb first "joinchat" then
    if base64url second then classified ChatInviteLink EmptyString
    else classified InvalidLink EmptyString
  else if negb (username first) then classified InvalidLink EmptyString
  else if positive_decimal second then classified MessageLink EmptyString
  else if decimal_component second then classified InvalidLink EmptyString
  else classified UnsupportedLink EmptyString.

Definition classify_private_path (first second third : string) : LocalSelector :=
  if negb (String.eqb first "c") then classified UnsupportedLink EmptyString
  else if positive_decimal second && positive_decimal third
  then classified MessageLink EmptyString
  else classified InvalidLink EmptyString.

Definition classify_path_link (components : list string) : LocalSelector :=
  match components with
  | [v] => classify_single_path v
  | [first; second] => classify_double_path first second
  | [first; second; third] => classify_private_path first second third
  | _ => classified UnsupportedLink EmptyString
  end.

Definition link_char (c : ascii) : bool :=
  negb (127 <? byte_of c) && negb (Ascii.eqb c "%") && negb (Ascii.eqb c "#").

(** What follows the prefix of a link. *)
Definition classify_after_prefix (link : string) : LocalSelector :=
  if str_empty link || negb (str_all link_char link) then classified InvalidLink EmptyString
  else
    let '(path, query) :=
      match str_find "?" link with
      | None => (link, None)
      | Some question => (str_take question link, Some (str_drop (S question) link))
      end in
    if match query with Some q => str_contains "?" q | None => false end
    then classified InvalidLink EmptyString
    else
      match path_components path with
      | None => classified InvalidLink EmptyString
      | Some components =>
          match query with
          | Some q =>
              if valid_query_envelope q then classify_query_link components q
              else classified InvalidLink EmptyString
          | None => classify_path_link components
          end
      end.

Definition classify_local_link (link : string) : LocalSelector :=
  classify_after_prefix
    (str_drop (if starts_with link "https://t.me/" then String.length "https://t.me/"
               else String.length "t.me/") link).

Definition classify_local_selector (selector : string) : option LocalSelector :=
  if str_empty selector || negb (valid_utf8 selector) then None
  else if decimal_syntax selector then
    match parse_chat_id selector with
    | Some id => Some {| kind := Numeric; chat_id := id; value := selector |}
    | None => None
    end
  else if starts_with selector "@" then
    if str_len selector =? 1 then None
    else Some {| kind := Username; chat_id := 0; value := str_drop 1 selector |}
  else if starts_with selector "https://t.me/" || starts_with selector "t.me/" then
    Some (classify_local_link selector)
  else if url_like selector then Some (classified InvalidLink EmptyString)
  else Some (classified Title selector).

(** * Lemmas *)

Lemma base64url_token v : base64url v = valid_telegram_invite_token v.
Proof.
  unfold base64url, valid_telegram_invite_token. destruct v as [|c v]; [reflexivity|].
  cbn [str_empty negb andb]. generalize (String c v). intros s.
  induction s as [|d s IH]; cbn; [reflexivity|]. rewrite IH. f_equal.
Qed.

(** Seven-bit text is UTF-8. *)
Lemma ascii_valid_utf8 s : str_all link_char s = true -> valid_utf8 s = true.
Proof.
  intros H. unfold valid_utf8. apply valid_utf8_bytes_complete.
  exists (bytes_of s). split.
  - apply Forall_forall. intros b Hb. pose proof (bytes_of_range s) as R.
    rewrite Forall_forall in R. specialize (R _ Hb). left.
    induction s as [|c s IH]; cbn in *; [tauto|]. bool_split. destruct Hb as [<-|Hb]; auto.
    unfold link_char in *. bool_split. z_bool. lia.
  - induction s as [|c s IH]; [reflexivity|]. cbn in H. bool_split.
    change (bytes_of (String c s)) with (byte_of c :: bytes_of s).
    unfold encode_all. cbn [flat_map]. fold (encode_all (bytes_of s)). rewrite <- IH by auto.
    unfold link_char in *. bool_split. z_bool.
    unfold encode. destruct (byte_of c <? 0x80) eqn:E; [reflexivity|]. z_bool. lia.
Qed.

Lemma slash_end_of_app a b : b <> EmptyString -> ends_in_slash (a ++ b)%string = ends_in_slash b.
Proof.
  intros Hb. induction a as [|c a IH]; [reflexivity|]. cbn.
  destruct (a ++ b)%string eqn:E; [|exact IH]. destruct a; cbn in E; congruence.
Qed.

Lemma no_slash_end v : str_find "/" v = None -> ends_in_slash v = false.
Proof.
  induction v as [|c v IH]; [reflexivity|]. cbn [str_find].
  destruct (Ascii.eqb "/" c) eqn:E; [discriminate|]. destruct (str_find "/" v); [discriminate|].
  intros _. destruct v; [|exact (IH eq_refl)].
  cbn [ends_in_slash]. rewrite Ascii.eqb_sym. exact E.
Qed.

Lemma invite_char_ok c :
  invite_char c = true ->
  link_char c = true /\ component_character c = true /\ Ascii.eqb "/" c = false
  /\ Ascii.eqb "?" c = false.
Proof. destruct c as [[] [] [] [] [] [] [] []]; vm_compute; auto; discriminate. Qed.

Lemma invite_no_char d t :
  (forall c, invite_char c = true -> Ascii.eqb d c = false) ->
  str_all invite_char t = true -> str_find d t = None.
Proof.
  intros Hd H. apply str_find_none. revert H. apply str_all_impl.
  intros c Hc. now rewrite (Hd c Hc).
Qed.

(** The components found are the text between the separators. *)
Lemma components_loop_concat fuel path l :
  components_loop fuel path = Some l -> ends_in_slash path = false -> path = String.concat "/" l.
Proof.
  revert path l. induction fuel as [|fuel IH]; intros path l; cbn [components_loop]; [discriminate|].
  destruct (str_empty path) eqn:P.
  { apply str_empty_true in P as ->. now intros [= <-]. }
  destruct (str_find "/" path) as [stop|] eqn:F.
  - destruct (good_component _); [|discriminate].
    destruct (components_loop fuel _) as [r|] eqn:C; [|discriminate]. intros [= <-] N.
    destruct (str_find_some _ _ _ F) as (E & _). rewrite E in N.
    rewrite slash_end_of_app in N by discriminate. rewrite E at 1.
    destruct (str_drop (S stop) path) as [|c b]; [discriminate N|].
    rewrite (IH _ _ C N). destruct r as [|x r]; [|reflexivity].
    discriminate (IH _ _ C N).
  - destruct (good_component path); [|discriminate]. now intros [= <-] _.
Qed.

Lemma path_components_concat path l :
  path_components path = Some l -> path = String.concat "/" l.
Proof.
  unfold path_components. destruct (str_empty path); [discriminate|]. cbn [orb].
  destruct (ends_in_slash path) eqn:E; [discriminate|]. intros H.
  exact (components_loop_concat _ _ _ H E).
Qed.

Definition invite_path (path : string) : Prop :=
  exists t, valid_telegram_invite_token t = true /\ (path = "+" +++ t \/ path = "joinchat/" +++ t).

Lemma classify_path_invite l :
  kind (classify_path_link l) = ChatInviteLink -> invite_path (String.concat "/" l).
Proof.
  destruct l as [|a [|b [|c [|d l]]]]; cbn; try discriminate.
  - unfold classify_single_path. destruct (starts_with a "+") eqn:P.
    + destruct (base64url (str_drop 1 a)) eqn:B; [|discriminate]. intros _.
      rewrite base64url_token in B. exists (str_drop 1 a). split; [exact B|]. left.
      exact (starts_with_inv _ _ P).
    + destruct (username a); discriminate.
  - unfold classify_double_path. destruct (String.eqb a "joinchat") eqn:J.
    + apply String.eqb_eq in J as ->. destruct (base64url b) eqn:B; [|discriminate]. intros _.
      rewrite base64url_token in B. exists b. split; [exact B|]. right. reflexivity.
    + repeat (step_goal; try discriminate).
  - unfold classify_private_path. repeat (step_goal; try discriminate).
Qed.

Lemma classify_query_invite l q : kind (classify_query_link l q) <> ChatInviteLink.
Proof. unfold classify_query_link. repeat (step_goal; try discriminate). Qed.

Lemma good_token t :
  valid_telegram_invite_token t = true ->
  str_all link_char t = true /\ good_component t = true /\ str_find "?" t = None
  /\ str_find "/" t = None.
Proof.
  intros V. pose proof (invite_token_nonempty _ V) as Nt.
  assert (str_all invite_char t = true) as A
    by (unfold valid_telegram_invite_token in V; destruct t; [discriminate | exact V]).
  unfold good_component. repeat split.
  - revert A. apply str_all_impl. intros c Hc. apply invite_char_ok in Hc. tauto.
  - apply andb_true_intro. split; [destruct t; [congruence | reflexivity]|].
    revert A. apply str_all_impl. intros c Hc. apply invite_char_ok in Hc. tauto.
  - apply invite_no_char; [|exact A]. intros c Hc. apply invite_char_ok in Hc. tauto.
  - apply invite_no_char; [|exact A]. intros c Hc. apply invite_char_ok in Hc. tauto.
Qed.

Lemma classify_link_invite path :
  invite_path path ->
  str_all link_char path = true /\
  classify_after_prefix path = classified ChatInviteLink EmptyString.
Proof.
  intros (t & V & E). destruct (good_token _ V) as (L & G & Q & Sl).
  pose proof (invite_token_nonempty _ V) as Nt.
  unfold classify_after_prefix, path_components.
  destruct E as [-> | ->].
  - assert (str_all link_char ("+" +++ t) = true) as L' by exact L. split; [exact L'|].
    rewrite L', !(str_find_app_r _ "+" t) by reflexivity. rewrite Q. cbn [option_map].
    rewrite slash_end_of_app, no_slash_end by assumption. cbn [str_empty String.append orb negb].
    cbn [components_loop str_empty].
    assert (str_find "/" (String "+" t) = None) as -> by (cbn; now rewrite Sl).
    assert (good_component (String "+" t) = true) as -> by exact (proj2 (andb_prop _ _ G)).
    unfold classify_path_link, classify_single_path.
    change (starts_with (String "+" t) "+") with (String.prefix EmptyString t).
    change (str_drop 1 (String "+" t)) with t. rewrite base64url_token, V. now destruct t.
  - assert (str_all link_char ("joinchat/" +++ t) = true) as L' by exact L. split; [exact L'|].
    rewrite L', (str_find_app_r "?" "joinchat/" t) by reflexivity. rewrite Q. cbn [option_map].
    rewrite slash_end_of_app, no_slash_end by assumption. change (str_empty ("joinchat/" +++ t)) with false.
    cbn [orb negb].
    assert (components_loop (S (String.length ("joinchat/" +++ t))) ("joinchat/" +++ t)
            = Some ["joinchat"; t]) as ->.
    { cbn [components_loop String.append str_empty]. cbn -[components_loop good_component].
      cbn [components_loop]. rewrite Sl, G. destruct t; [congruence | reflexivity]. }
    unfold classify_path_link, classify_double_path. now rewrite base64url_token, V.
Qed.

Lemma after_prefix_invite path :
  kind (classify_after_prefix path) = ChatInviteLink -> invite_path path.
Proof.
  unfold classify_after_prefix. destruct (_ || _); [discriminate|].
  destruct (str_find "?" path) as [q|] eqn:Q.
  - destruct (str_contains _ _); [discriminate|].
    destruct (path_components _); [|discriminate].
    destruct (valid_query_envelope _); [|discriminate]. intros H.
    destruct (classify_query_invite _ _ H).
  - destruct (path_components path) as [l|] eqn:C; [|discriminate].
    rewrite (path_components_concat _ _ C). apply classify_path_invite.
Qed.

Lemma invite_path_aliases path :
  invite_path path ->
  is_exact_telegram_invite_link ("https://t.me/" +++ path) = true /\
  is_exact_telegram_invite_link ("t.me/" +++ path) = true.
Proof.
  intros (t & V & E). unfold is_exact_telegram_invite_link.
  assert (forall link, In link (map (fun p => p +++ t) alias_prefixes) ->
            telegram_invite_token link = Some t) as T by (intros; now apply invite_token_spec).
  split; rewrite T; auto; destruct E as [-> | ->]; cbn; auto.
Qed.

Lemma classify_prefixed link path :
  In link ["https://t.me/" +++ path; "t.me/" +++ path] ->
  str_all link_char path = true -> classify_local_selector link = Some (classify_after_prefix path).
Proof.
  intros I L. unfold classify_local_selector.
  rewrite ascii_valid_utf8 by (destruct I as [<-|[<-|[]]]; exact L).
  destruct I as [<-|[<-|[]]]; cbn; try reflexivity; destruct path; reflexivity.
Qed.

(** The selector parser and the invite parser agree: a selector is
    classified as a chat invite exactly when it is one of the links whose token
    the invite code extracts (and redacts), so no invite link escapes either
    under another spelling. *)
Theorem invite_links_agree (selector : string) :
  (exists s, classify_local_selector selector = Some s /\ kind s = ChatInviteLink) <->
  is_exact_telegram_invite_link selector = true.
Proof.
  split.
  - intros (s & E & K). unfold classify_local_selector in E. destruct (_ || _); [discriminate|].
    destruct (decimal_syntax _).
    { destruct (parse_chat_id _); inversion E; subst s; discriminate. }
    destruct (starts_with selector "@").
    { destruct (_ =? _); inversion E; subst s; discriminate. }
    destruct (starts_with selector "https://t.me/" || starts_with selector "t.me/") eqn:P.
    2: { destruct (url_like _); inversion E; subst s; discriminate. }
    injection E as <-. unfold classify_local_link in K. apply after_prefix_invite in K.
    apply invite_path_aliases in K as [K1 K2].
    destruct (starts_with selector "https://t.me/") eqn:H.
    + apply starts_with_inv in H. now rewrite H.
    + apply starts_with_inv in P. now rewrite P.
  - unfold is_exact_telegram_invite_link. destruct (telegram_invite_token _) as [t|] eqn:T;
      [|discriminate]. intros _. apply invite_token_spec in T as [V I].
    exists (classified ChatInviteLink EmptyString). split; [|reflexivity].
    assert (exists path, invite_path path /\
              In selector ["https://t.me/" +++ path; "t.me/" +++ path]) as (path & P & I').
    { destruct I as [<-|[<-|[<-|[<-|[]]]]];
        [exists ("+" +++ t) | exists ("+" +++ t) | exists ("joinchat/" +++ t)
        | exists ("joinchat/" +++ t)]; (split; [exists t; auto | cbn; auto]). }
    destruct (classify_link_invite _ P) as [L C]. now rewrite (classify_prefixed _ _ I' L), C.
Qed.
