(* ===== verification/Fingerprint.v ===== *)
(** Request fingerprints (src/src/daemon/request_fingerprint.cpp, .hpp): the hash
    under which the idempotency store recognises a repeated request.  The outer
    [Err] of a result is an exception of the hash. *)
From S2P Require Import Prelude DecimalText Json Utf8 CanonicalJson Sha256 Paths InviteLink Operation.
From S2P Require Import DestructivePlan LocalSelector.

(** * Payloads *)

Inductive FingerprintParseMode := Plain | MarkdownV2 | Html.

Inductive FingerprintSchedule := ScheduleOnline | ScheduleAt (send_date : Z).

Inductive TopicKind := TopicForum | TopicThread | TopicDirect | TopicSaved.

Record TopicRef := { topic_kind : TopicKind; topic_id : Z }.

Inductive ChatJoinFingerprintTarget :=
| ChatJoinUsernameFingerprint (username : string)
| ChatJoinInviteFingerprint (invite_link_sha256 : string).

(** The variant of the 17 structures, with their members. *)
Inductive FingerprintPayload :=
| SendFingerprintPayload (chat_selector text : string) (parse_mode : FingerprintParseMode)
    (reply_to : option Z) (requested_topic : option TopicRef) (silent : bool)
    (schedule : option FingerprintSchedule)
| MsgEditFingerprintPayload (chat_selector : string) (message_id : Z) (text : string)
| MsgDeleteFingerprintPayload (chat_selector : string) (message_ids : list Z) (for_all : bool)
| MsgForwardFingerprintPayload (from_selector to_selector : string) (message_ids : list Z)
    (drop_author : bool)
| MsgReactFingerprintPayload (chat_selector : string) (message_id : Z) (reaction : string)
    (remove big : bool)
| MsgPinFingerprintPayload (chat_selector : string) (message_id : Z)
| MsgUnpinFingerprintPayload (chat_selector : string) (message_id : Z)
| ChatMarkReadFingerprintPayload (chat_selector : string)
| ChatMuteFingerprintPayload (chat_selector : string) (duration_seconds : Z)
| ChatUnmuteFingerprintPayload (chat_selector : string) (duration_seconds : Z)
| ChatPinFingerprintPayload (chat_selector : string)
| ChatUnpinFingerprintPayload (chat_selector : string)
| ChatArchiveFingerprintPayload (chat_selector : string)
| ChatUnarchiveFingerprintPayload (chat_selector : string)
| ChatJoinFingerprintPayload (target : ChatJoinFingerprintTarget)
| ChatLeaveFingerprintPayload (chat_selector : string)
| SavedAttachFingerprintPayload (message_id : Z) (name : string) (size : Z) (sha256 caption : string).

Record ResolverPrincipal := {
  principal_id : Z; is_bot : bool; client_id : Z; client_generation : Z; auth_sequence : Z }.

Inductive FingerprintError := InvalidAccount | InvalidPrincipal | InvalidPayload | CanonicalJsonFailed.

(** * Validation *)

Definition kMaximumMessageScalars : Z := 4096.
Definition kMaximumCaptionScalars : Z := 1024.
Definition kMaximumCaptionBytes : Z := 4096.

Definition valid_positive_int53 (v : Z) : bool := (0 <? v) && (v <=? kMaximumInt53).

Definition valid_message_id (v : Z) : bool :=
  negb (v =? 0) && (- kMaximumInt53 <=? v) && (v <=? kMaximumInt53).

Fixpoint scalars (v : string) : Z :=
  match v with
  | EmptyString => 0
  | String c r => (if Z.land (byte_of c) 0xc0 =? 0x80 then 0 else 1) + scalars r
  end.

Definition valid_text (v : string) (maximum_scalars : Z) (allow_empty : bool)
    (maximum_bytes : option Z) : bool :=
  if (negb allow_empty && str_empty v) || str_contains nul v || negb (valid_utf8 v)
     || match maximum_bytes with Some m => m <? str_len v | None => false end then false
  else scalars v <=? maximum_scalars.

Definition valid_hash (v : string) : bool :=
  (str_len v =? 7 + 64) && starts_with v "sha256:"
  && str_all (fun c => in_range "0" "9" c || in_range "a" "f" c) (str_drop 7 v).

(** The loop over [previous]. *)
Fixpoint ids_ascend (previous : option Z) (values : list Z) : bool :=
  match values with
  | [] => true
  | v :: rest =>
      if negb (valid_message_id v) || match previous with Some p => v <=? p | None => false end
      then false else ids_ascend (Some v) rest
  end.

Definition valid_message_ids (values : list Z) : bool :=
  match values with
  | [] => false
  | _ => if Nat.ltb 100 (List.length values) then false else ids_ascend None values
  end.

Definition decimal_selector (v : string) : option Z :=
  let v := if starts_with v "+" then str_drop 1 v else v in
  match from_chars_i64 v with
  | Some parsed => if valid_message_id parsed then Some parsed else None
  | None => None
  end.

Definition global_link_remainder (selector : string) : option string :=
  strip_first ["https://t.me/"; "t.me/"] selector.

Definition valid_mute_duration (duration : Z) : bool :=
  ((1 <=? duration) && (duration <=? 31622400)) || (duration =? 2147483647).

(** The loop over the bytes of a name: C0, DEL and C1 controls are refused. *)
Fixpoint no_controls (v : string) : bool :=
  match v with
  | EmptyString => true
  | String c r =>
      let byte := byte_of c in
      if (byte <=? 0x1f) || (byte =? 0x7f)
         || ((byte =? 0xc2)
             && match r with
                | String d _ => (0x80 <=? byte_of d) && (byte_of d <=? 0x9f)
                | EmptyString => false
                end)
      then false else no_controls r
  end.

Definition valid_basename (v : string) : bool :=
  if str_empty v || (255 <? str_len v) || String.eqb v "." || String.eqb v ".."
     || str_contains "/" v || negb (valid_utf8 v) then false
  else no_controls v.

(** * Canonical selectors *)

Definition idempotency_key_hash (raw_key : string) : result string string :=
  domain_separated_sha256 "tgcli-idempotency-key-v1" raw_key.

Definition invite_link_hash (raw_invite : string) : result string string :=
  domain_separated_sha256 "tgcli-invite-link-v1" raw_invite.

Definition canonical_write_selector (selector : string) : result string (option string) :=
  if str_empty selector || str_contains nul selector || negb (valid_utf8 selector) then Ok None
  else if decimal_syntax selector then Ok (option_map to_string (decimal_selector selector))
  else if starts_with selector "@" then Ok (if 1 <? str_len selector then Some selector else None)
  else
    match global_link_remainder selector with
    | Some _ =>
        if is_exact_telegram_invite_link selector
        then hash <- invite_link_hash selector ;; Ok (Some hash)
        else Ok (Some selector)
    | None => Ok None
    end.

Definition selector_json (selector : string) : result string (option json) :=
  canonical <- canonical_write_selector selector ;; Ok (option_map JString canonical).

(** * The document of a payload *)

Definition topic_json (topic : option TopicRef) : option json :=
  match topic with
  | None => Some JNull
  | Some topic =>
      match topic_kind topic with
      | TopicForum =>
          if (topic_id topic <=? 0) || (2147483647 <? topic_id topic) then None
          else Some (jobject [("kind", JString "forum"); ("id", JInteger (topic_id topic))])
      | _ => None
      end
  end.

Definition schedule_json (schedule : option FingerprintSchedule) : option json :=
  match schedule with
  | None => Some JNull
  | Some ScheduleOnline => Some (jobject [("kind", JString "online")])
  | Some (ScheduleAt send_date) =>
      if send_date <=? 0 then None
      else Some (jobject [("kind", JString "at"); ("send_date", JInteger send_date)])
  end.

Definition parse_mode_name (mode : FingerprintParseMode) : string :=
  match mode with Plain => "plain" | MarkdownV2 => "markdown_v2" | Html => "html" end.

Definition ids_json (ids : list Z) : json := JArray (map JInteger ids).

(** [if (!selector || ...) return nullopt; return json{...}]. *)
Definition selected (selector : string) (ok : bool) (document : json -> json) :
    result string (option json) :=
  selector <- selector_json selector ;;
  Ok match selector with
     | Some selector => if ok then Some (document selector) else None
     | None => None
     end.

Definition message_target_payload (selector : string) (message_id : Z) : result string (option json) :=
  selected selector (valid_message_id message_id) (fun selector =>
    jobject [("chat_selector", selector); ("message_id", JInteger message_id)]).

Definition chat_target_payload (selector : string) : result string (option json) :=
  selected selector true (fun selector => jobject [("chat_selector", selector)]).

Definition optional_id (id : option Z) : json :=
  match id with Some id => JInteger id | None => JNull end.

Definition make_payload (payload : FingerprintPayload) : result string (option json) :=
  match payload with
  | SendFingerprintPayload chat_selector text parse_mode reply_to requested_topic silent schedule =>
      selector <- selector_json chat_selector ;;
      Ok match selector, topic_json requested_topic, schedule_json schedule with
         | Some selector, Some topic, Some schedule =>
             if negb (valid_text text kMaximumMessageScalars false None)
                || match reply_to with Some id => negb (valid_message_id id) | None => false end
             then None
             else Some (jobject [("chat_selector", selector); ("text", JString text);
                                 ("parse_mode", JString (parse_mode_name parse_mode));
                                 ("reply_to", optional_id reply_to); ("requested_topic", topic);
                                 ("silent", JBool silent); ("schedule", schedule)])
         | _, _, _ => None
         end
  | MsgEditFingerprintPayload chat_selector message_id text =>
      selected chat_selector
        (valid_message_id message_id && valid_text text kMaximumMessageScalars false None)
        (fun selector => jobject [("chat_selector", selector); ("message_id", JInteger message_id);
                                  ("text", JString text)])
  | MsgDeleteFingerprintPayload chat_selector message_ids for_all =>
      selected chat_selector (valid_message_ids message_ids)
        (fun selector => jobject [("chat_selector", selector); ("message_ids", ids_json message_ids);
                                  ("for_all", JBool for_all)])
  | MsgForwardFingerprintPayload from_selector to_selector message_ids drop_author =>
      from <- selector_json from_selector ;;
      to <- selector_json to_selector ;;
      Ok match from, to with
         | Some from, Some to =>
             if valid_message_ids message_ids
             then Some (jobject [("from_selector", from); ("to_selector", to);
                                 ("message_ids", ids_json message_ids);
                                 ("drop_author", JBool drop_author)])
             else None
         | _, _ => None
         end
  | MsgReactFingerprintPayload chat_selector message_id reaction remove big =>
      selected chat_selector (valid_message_id message_id && valid_text reaction 64 false (Some 64))
        (fun selector => jobject [("chat_selector", selector); ("message_id", JInteger message_id);
                                  ("reaction", JString reaction); ("remove", JBool remove);
                                  ("big", JBool big)])
  | MsgPinFingerprintPayload chat_selector message_id
  | MsgUnpinFingerprintPayload chat_selector message_id =>
      message_target_payload chat_selector message_id
  | ChatMuteFingerprintPayload chat_selector duration =>
      selected chat_selector (valid_mute_duration duration)
        (fun selector => jobject [("chat_selector", selector); ("duration_seconds", JInteger duration)])
  | ChatUnmuteFingerprintPayload chat_selector duration =>
      selected chat_selector (duration =? 0)
        (fun selector => jobject [("chat_selector", selector); ("duration_seconds", JInteger duration)])
  | ChatMarkReadFingerprintPayload chat_selector
  | ChatPinFingerprintPayload chat_selector
  | ChatUnpinFingerprintPayload chat_selector
  | ChatArchiveFingerprintPayload chat_selector
  | ChatUnarchiveFingerprintPayload chat_selector
  | ChatLeaveFingerprintPayload chat_selector => chat_target_payload chat_selector
  | ChatJoinFingerprintPayload (ChatJoinUsernameFingerprint username) =>
      canonical <- canonical_write_selector username ;;
      Ok match canonical with
         | Some canonical =>
             if negb (starts_with username "@") || negb (String.eqb canonical username) then None
             else Some (jobject [("source", JString "username"); ("username", JString username)])
         | None => None
         end
  | ChatJoinFingerprintPayload (ChatJoinInviteFingerprint hash) =>
      Ok (if valid_hash hash
          then Some (jobject [("source", JString "invite_link"); ("invite_link_sha256", JString hash)])
          else None)
  | SavedAttachFingerprintPayload message_id name size sha256 caption =>
      Ok (if valid_message_id message_id && valid_basename name && valid_hash sha256
             && valid_text caption kMaximumCaptionScalars true (Some kMaximumCaptionBytes)
          then Some (jobject [("message_id", JInteger message_id); ("topic", JString "inherit_saved");
                              ("name", JString name); ("size", JUnsigned size);
                              ("sha256", JString sha256); ("caption", JString caption)])
          else None)
  end.

Definition fingerprint_operation (payload : FingerprintPayload) : M3.M3Operation :=
  match payload with
  | SendFingerprintPayload _ _ _ _ _ _ _ => M3.Send
  | MsgEditFingerprintPayload _ _ _ => M3.MsgEdit
  | MsgDeleteFingerprintPayload _ _ _ => M3.MsgDelete
  | MsgForwardFingerprintPayload _ _ _ _ => M3.MsgForward
  | MsgReactFingerprintPayload _ _ _ _ _ => M3.MsgReact
  | MsgPinFingerprintPayload _ _ => M3.MsgPin
  | MsgUnpinFingerprintPayload _ _ => M3.MsgUnpin
  | ChatMarkReadFingerprintPayload _ => M3.ChatMarkRead
  | ChatMuteFingerprintPayload _ _ => M3.ChatMute
  | ChatUnmuteFingerprintPayload _ _ => M3.ChatUnmute
  | ChatPinFingerprintPayload _ => M3.ChatPin
  | ChatUnpinFingerprintPayload _ => M3.ChatUnpin
  | ChatArchiveFingerprintPayload _ => M3.ChatArchive
  | ChatUnarchiveFingerprintPayload _ => M3.ChatUnarchive
  | ChatJoinFingerprintPayload _ => M3.ChatJoin
  | ChatLeaveFingerprintPayload _ => M3.ChatLeave
  | SavedAttachFingerprintPayload _ _ _ _ _ => M3.SavedAttach
  end.

Definition fingerprint_root (account : string) (principal : ResolverPrincipal) (name : string)
    (payload : json) : json :=
  jobject [("version", JInteger 1); ("account", JString account);
           ("principal", jobject [("id", JInteger (principal_id principal));
                                  ("is_bot", JBool (is_bot principal))]);
           ("operation", JString name); ("payload", payload)].

Definition request_fingerprint (account : string) (principal : ResolverPrincipal)
    (payload : FingerprintPayload) : result string (result FingerprintError string) :=
  if negb (valid_account_name account) then Ok (Err InvalidAccount)
  else if negb (valid_positive_int53 (principal_id principal)) then Ok (Err InvalidPrincipal)
  else
    match M3.m3_operation_identity (fingerprint_operation payload) with
    | None => Ok (Err InvalidPayload)
    | Some identity =>
        normalized_payload <- make_payload payload ;;
        match normalized_payload with
        | None => Ok (Err InvalidPayload)
        | Some normalized_payload =>
            match canonical_json (fingerprint_root account principal (M3.canonical_name identity)
                                    normalized_payload) with
            | Err _ => Ok (Err CanonicalJsonFailed)
            | Ok canonical =>
                hash <- domain_separated_sha256 "tgcli-idempotency-request-v1" canonical ;;
                Ok (Ok hash)
            end
        end
    end.

(** * Golden fingerprints *)

Definition golden_principal : ResolverPrincipal :=
  {| principal_id := 42; is_bot := false; client_id := 0; client_generation := 0; auth_sequence := 0 |}.

Definition golden (payload : FingerprintPayload) : option string :=
  match request_fingerprint "main" golden_principal payload with Ok (Ok h) => Some h | _ => None end.

Definition file_hash : string :=
  "sha256:aaaaaaaaaaaaaaaaaaaaaaaaaaaaaaaaaaaaaaaaaaaaaaaaaaaaaaaaaaaaaaaa".

Definition golden_send (selector : string) : FingerprintPayload :=
  SendFingerprintPayload selector "Hello" Plain None None false None.

(** The fingerprints that tests/request_fingerprint_test.cpp records. *)
Example golden_fingerprints :
  map golden
    [golden_send "-001001"; MsgEditFingerprintPayload "@alice" 11 "revised";
     MsgDeleteFingerprintPayload "t.me/alice" [11; 12] true;
     MsgForwardFingerprintPayload "-1001" "@bob" [21; 22] false;
     MsgReactFingerprintPayload "@alice" 11 "👍" false true;
     MsgPinFingerprintPayload "@alice" 11; MsgUnpinFingerprintPayload "@alice" 11;
     ChatMarkReadFingerprintPayload "@alice"; ChatMuteFingerprintPayload "@alice" 3600;
     ChatUnmuteFingerprintPayload "@alice" 0; ChatPinFingerprintPayload "@alice";
     ChatUnpinFingerprintPayload "@alice"; ChatArchiveFingerprintPayload "@alice";
     ChatUnarchiveFingerprintPayload "@alice";
     ChatJoinFingerprintPayload (ChatJoinUsernameFingerprint "@alice");
     ChatLeaveFingerprintPayload "@group"; SavedAttachFingerprintPayload 50 "a.txt" 3 file_hash "cap";
     golden_send "https://t.me/+RawInviteSentinel_77"; golden_send "t.me/project?start=A_B"]
  = map Some
    ["sha256:77fedce438c0d6c481e491465b9d43ee8f7a4abd5afd131df1a11161b81d22ea";
     "sha256:14b796a4e2f5b8f7beeb07df8110b6247ae0b4a3bc708377193fef84de2ecdb0";
     "sha256:84b8fc00d8b551cbccb36b3f7a07170f2d263031d8c1df2581f3430a46c096f7";
     "sha256:1bc206f3126c15ce402f6e4813e6e1a12f770b498beb16dda2f68fb012358d59";
     "sha256:e1d463ca1adb705a6199a79e0e59249650cb5b6f7f38f51cd48be9d0ce7f74f1";
     "sha256:4037f9d22f88009522f0d8058cdd7bba5e29414da6cba02515529716443526b9";
     "sha256:989d9e36713a4600b48e417ecb33f243dedd2055edd39d84d1fe65fca19bc7bd";
     "sha256:e020de245323eb5e4dc205dcc3c12976d2d820ba91bbf5643cad169e1e210357";
     "sha256:3371330d718f4ac001da84dc542fbc1a8970ea1d760a4755ecf9fe706e19096b";
     "sha256:98aba68c01c249afb10b98e1f9b599a10c95cde605e4ef8b37c6b187b104e364";
     "sha256:f5189907874211bdcaad11a0fe64ed187afae0d4c911de9069c92726cf55af9a";
     "sha256:9b6093c05010a4d7d1b9ca1fb0f32dc01bce4c975815043500fd4b8a30a994c0";
     "sha256:c09d580e7ab97c6e771578a4ffd09ec493745c387774ec157521bf3f5e43a2b9";
     "sha256:131d13e6870e041492430961105de388f1a661a25d9b6bb8cf24787338a9176a";
     "sha256:f7bbc74c6f9e304b89ffd1e4991160dc1c8fcf8cb379062f287a75a603243000";
     "sha256:c44419fae0bf062901bbf65c2823aa556ddd40e380bbee5fcf857f0976debf08";
     "sha256:d2db09acb4b7df6350eb37984ee15371182f8aeb7f09daa94efcbec371775f49";
     "sha256:dbcdb8fd83e13683aa84e6b093a4956e548ff23f914830e9bb20d0f0ba5a609d";
     "sha256:e27a0264d01838cfa8adf9d7f1b3bb4696ff2f5a7f3de1c26def850b08003f66"].
Proof. vm_compute. reflexivity. Qed.
