(* ===== verification/FingerprintFacts.v ===== *)
(** The fingerprint of a request identifies it: what is hashed, which spellings of
    a selector are the same, and that nothing else is confused. *)
From S2P Require Import Prelude DecimalText Json Utf8 CanonicalJson Sha256 Paths InviteLink Operation.
From S2P Require Import DestructivePlan LocalSelector Fingerprint.

(** * What is hashed *)

(** The canonical text of a selector, for a selector that has one. *)
Definition canonical (selector : string) : string :=
  match canonical_write_selector selector with Ok (Some c) => c | _ => selector end.

(** A payload with its selectors rewritten: what a request asks for, apart from
    the spelling of its selectors. *)
Definition map_selectors (f : string -> string) (payload : FingerprintPayload) : FingerprintPayload :=
  match payload with
  | SendFingerprintPayload s t m r q b d => SendFingerprintPayload (f s) t m r q b d
  | MsgEditFingerprintPayload s i t => MsgEditFingerprintPayload (f s) i t
  | MsgDeleteFingerprintPayload s l b => MsgDeleteFingerprintPayload (f s) l b
  | MsgForwardFingerprintPayload s s' l b => MsgForwardFingerprintPayload (f s) (f s') l b
  | MsgReactFingerprintPayload s i r b b' => MsgReactFingerprintPayload (f s) i r b b'
  | MsgPinFingerprintPayload s i => MsgPinFingerprintPayload (f s) i
  | MsgUnpinFingerprintPayload s i => MsgUnpinFingerprintPayload (f s) i
  | ChatMarkReadFingerprintPayload s => ChatMarkReadFingerprintPayload (f s)
  | ChatMuteFingerprintPayload s d => ChatMuteFingerprintPayload (f s) d
  | ChatUnmuteFingerprintPayload s d => ChatUnmuteFingerprintPayload (f s) d
  | ChatPinFingerprintPayload s => ChatPinFingerprintPayload (f s)
  | ChatUnpinFingerprintPayload s => ChatUnpinFingerprintPayload (f s)
  | ChatArchiveFingerprintPayload s => ChatArchiveFingerprintPayload (f s)
  | ChatUnarchiveFingerprintPayload s => ChatUnarchiveFingerprintPayload (f s)
  | ChatLeaveFingerprintPayload s => ChatLeaveFingerprintPayload (f s)
  | _ => payload
  end.

Abbreviation canonical_payload := (map_selectors canonical).

(** The payload document of a canonical payload, without the checks. *)
Definition topic_document (topic : option TopicRef) : json :=
  match topic with
  | None => JNull
  | Some topic => jobject [("kind", JString "forum"); ("id", JInteger (topic_id topic))]
  end.

Definition schedule_document (schedule : option FingerprintSchedule) : json :=
  match schedule with
  | None => JNull
  | Some ScheduleOnline => jobject [("kind", JString "online")]
  | Some (ScheduleAt d) => jobject [("kind", JString "at"); ("send_date", JInteger d)]
  end.

Definition payload_document (payload : FingerprintPayload) : json :=
  match payload with
  | SendFingerprintPayload s text mode reply topic silent schedule =>
      jobject [("chat_selector", JString s); ("text", JString text);
               ("parse_mode", JString (parse_mode_name mode)); ("reply_to", optional_id reply);
               ("requested_topic", topic_document topic); ("silent", JBool silent);
               ("schedule", schedule_document schedule)]
  | MsgEditFingerprintPayload s i text =>
      jobject [("chat_selector", JString s); ("message_id", JInteger i); ("text", JString text)]
  | MsgDeleteFingerprintPayload s l b =>
      jobject [("chat_selector", JString s); ("message_ids", ids_json l); ("for_all", JBool b)]
  | MsgForwardFingerprintPayload s s' l b =>
      jobject [("from_selector", JString s); ("to_selector", JString s'); ("message_ids", ids_json l);
               ("drop_author", JBool b)]
  | MsgReactFingerprintPayload s i r b b' =>
      jobject [("chat_selector", JString s); ("message_id", JInteger i); ("reaction", JString r);
               ("remove", JBool b); ("big", JBool b')]
  | MsgPinFingerprintPayload s i | MsgUnpinFingerprintPayload s i =>
      jobject [("chat_selector", JString s); ("message_id", JInteger i)]
  | ChatMuteFingerprintPayload s d | ChatUnmuteFingerprintPayload s d =>
      jobject [("chat_selector", JString s); ("duration_seconds", JInteger d)]
  | ChatMarkReadFingerprintPayload s | ChatPinFingerprintPayload s | ChatUnpinFingerprintPayload s
  | ChatArchiveFingerprintPayload s | ChatUnarchiveFingerprintPayload s
  | ChatLeaveFingerprintPayload s => jobject [("chat_selector", JString s)]
  | ChatJoinFingerprintPayload (ChatJoinUsernameFingerprint u) =>
      jobject [("source", JString "username"); ("username", JString u)]
  | ChatJoinFingerprintPayload (ChatJoinInviteFingerprint h) =>
      jobject [("source", JString "invite_link"); ("invite_link_sha256", JString h)]
  | SavedAttachFingerprintPayload i n z h c =>
      jobject [("message_id", JInteger i); ("topic", JString "inherit_saved"); ("name", JString n);
               ("size", JUnsigned z); ("sha256", JString h); ("caption", JString c)]
  end.

(** Every topic of the payload is a forum topic: the other kinds are refused. *)
Definition forum_topics (payload : FingerprintPayload) : bool :=
  match payload with
  | SendFingerprintPayload _ _ _ _ (Some t) _ _ =>
      match topic_kind t with TopicForum => true | _ => false end
  | _ => true
  end.

(** ** Seven-bit texts *)

Lemma class_utf8 (p : ascii -> bool) s :
  (forall c, p c = true -> link_char c = true) -> str_all p s = true -> valid_utf8 s = true.
Proof.
  intros P H. apply ascii_valid_utf8. induction s as [|c s IH]; cbn in *; [reflexivity|]. bool_split; auto.
Qed.

(** The case analysis over the 256 characters. *)
Ltac each_char := let c := fresh in intros c; destruct c as [[] [] [] [] [] [] [] []]; vm_compute; congruence.

Lemma account_utf8 name : valid_account_name name = true -> valid_utf8 name = true.
Proof.
  unfold valid_account_name. destruct (_ || _); [discriminate|]. apply class_utf8. each_char.
Qed.

(** The characters of a hash. *)
Definition hash_char (c : ascii) : bool :=
  is_lower_hex c || Ascii.eqb c "s" || Ascii.eqb c "h" || Ascii.eqb c ":".

Lemma hex_digit_char n : hash_char (hex_digit n) = true.
Proof.
  unfold hex_digit. destruct (Z.to_nat n) as [|m]; [reflexivity|].
  do 15 (destruct m as [|m]; [reflexivity|]). destruct m; reflexivity.
Qed.

Lemma hex_chars l : str_all hash_char (hex l) = true.
Proof. induction l as [|b l IH]; cbn [hex fold_right str_all]; [reflexivity|]. now rewrite !hex_digit_char. Qed.

Lemma hash_utf8 s : str_all hash_char s = true -> valid_utf8 s = true.
Proof. apply class_utf8. each_char. Qed.

Lemma valid_hash_utf8 s : valid_hash s = true -> valid_utf8 s = true.
Proof.
  unfold valid_hash. intros H. bool_split. apply starts_with_inv in H1. rewrite H1.
  apply hash_utf8. rewrite str_all_app. change (String.length "sha256:") with 7%nat. cbn [str_all].
  cbn [andb]. refine (str_all_impl _ hash_char _ _ H0). each_char.
Qed.

(** ** The hash *)

Lemma update_fits st message bytes st' :
  absorbed st message -> total_size_ st = Z.of_nat (List.length message) ->
  total_size_ st <= u64_max -> update st bytes = Ok st' ->
  absorbed st' (message ++ bytes) /\ total_size_ st' = Z.of_nat (List.length (message ++ bytes))
  /\ total_size_ st' <= u64_max.
Proof.
  intros A T B U. assert (Z.of_nat (List.length (message ++ bytes)) <= u64_max) as F.
  { unfold update in U. rewrite length_app.
    destruct (Z.ltb_spec (u64_max - total_size_ st) (Z.of_nat (List.length bytes))); [discriminate | lia]. }
  destruct (update_absorbed st message bytes A T F) as (s & E & A' & T'). rewrite E in U. injection U as ->.
  repeat split; try apply A'; lia.
Qed.

(** A hash that was computed is the SHA-256 of domain, separator and payload. *)
Lemma separated_hash domain payload h :
  domain_separated_sha256 domain payload = Ok h ->
  h = "sha256:" +++ hex (sha256 (bytes_of domain ++ 0 :: bytes_of payload)).
Proof.
  unfold domain_separated_sha256, update_string. destruct (str_contains nul domain); [discriminate|].
  destruct (update new_sha256 _) as [s1|] eqn:U1; cbn [bind]; [|discriminate].
  destruct (update s1 _) as [s2|] eqn:U2; cbn [bind]; [|discriminate].
  destruct (update s2 _) as [s3|] eqn:U3; cbn [bind]; [|discriminate]. intros [= <-].
  apply (update_fits _ []) in U1 as (A1 & T1 & B1); [|apply absorbed_new | reflexivity | vm_compute; discriminate].
  eapply update_fits in U2 as (A2 & T2 & B2); [|eassumption..].
  eapply update_fits in U3 as (A3 & T3 & B3); [|eassumption..].
  unfold finish_hex. rewrite (finish_absorbed _ _ A3 T3), <- !app_assoc. reflexivity.
Qed.

Lemma separated_utf8 domain payload h : domain_separated_sha256 domain payload = Ok h -> valid_utf8 h = true.
Proof.
  intros H. apply separated_hash in H as ->. apply hash_utf8. rewrite str_all_app, hex_chars. reflexivity.
Qed.

(** ** Selectors *)

Lemma canonical_utf8 s c : canonical_write_selector s = Ok (Some c) -> valid_utf8 c = true.
Proof.
  unfold canonical_write_selector. destruct (_ || _) eqn:V; [discriminate|]. bool_split.
  destruct (decimal_syntax s).
  - destruct (decimal_selector s); [|discriminate]. intros [= <-].
    apply (class_utf8 num_char); [each_char | apply to_string_chars].
  - destruct (starts_with s "@"); [destruct (1 <? str_len s); intros [= <-]; assumption|].
    destruct (global_link_remainder s); [|discriminate].
    destruct (is_exact_telegram_invite_link s); [|intros [= <-]; assumption].
    destruct (invite_link_hash s) eqn:E; [|discriminate]. intros [= <-]. exact (separated_utf8 _ _ _ E).
Qed.

Lemma canonical_value s c : canonical_write_selector s = Ok (Some c) -> canonical s = c.
Proof. unfold canonical. now intros ->. Qed.

Lemma selector_json_inv s j :
  selector_json s = Ok (Some j) -> j = JString (canonical s) /\ valid_utf8 (canonical s) = true.
Proof.
  unfold selector_json. destruct (canonical_write_selector s) as [[c|]|] eqn:E; try discriminate.
  intros [= <-]. rewrite (canonical_value _ _ E). split; [reflexivity | exact (canonical_utf8 _ _ E)].
Qed.

Lemma selected_inv s ok document j :
  selected s ok document = Ok (Some j) ->
  ok = true /\ j = document (JString (canonical s)) /\ valid_utf8 (canonical s) = true.
Proof.
  unfold selected. destruct (selector_json s) as [[v|]|] eqn:E; cbn [bind]; try discriminate.
  apply selector_json_inv in E as [-> U]. destruct ok; [|discriminate]. intros [= <-]. auto.
Qed.

Lemma valid_text_utf8 v n e b : valid_text v n e b = true -> valid_utf8 v = true.
Proof.
  unfold valid_text. destruct (valid_utf8 v); [reflexivity|]. cbn [negb]. rewrite !orb_true_r. discriminate.
Qed.

Lemma valid_basename_utf8 v : valid_basename v = true -> valid_utf8 v = true.
Proof. unfold valid_basename. destruct (valid_utf8 v); [reflexivity|]. cbn [negb]. rewrite orb_true_r. discriminate. Qed.

Lemma ids_canonicalizable l : canonicalizable (ids_json l) = true.
Proof. cbn. induction l; cbn; auto. Qed.

(** ** Documents *)

Lemma topic_json_inv t j :
  topic_json t = Some j ->
  j = topic_document t /\ (forall x, t = Some x -> topic_kind x = TopicForum) /\ canonicalizable j = true.
Proof.
  destruct t as [[[] i]|]; cbn; try discriminate; [|intros [= <-]; repeat split; discriminate].
  destruct (_ || _); [discriminate|]. intros [= <-]. repeat split. now intros x [= <-].
Qed.

Lemma schedule_json_inv d j : schedule_json d = Some j -> j = schedule_document d /\ canonicalizable j = true.
Proof.
  destruct d as [[|n]|]; cbn; try (intros [= <-]; auto; fail).
  destruct (n <=? 0); [discriminate|]. intros [= <-]. auto.
Qed.

#[local] Hint Resolve valid_text_utf8 valid_basename_utf8 valid_hash_utf8 : utf8.

(** The document of an accepted payload, and that it has canonical bytes. *)
Lemma make_payload_inv q j :
  make_payload q = Ok (Some j) ->
  j = payload_document (canonical_payload q) /\ forum_topics q = true /\ canonicalizable j = true.
Proof.
  destruct q as [s t m r p b d| | | s s' l b| | | | | | | | | | |[u|h]| |]; cbn [make_payload];
    unfold message_target_payload, chat_target_payload; intros H.
  1: {
    destruct (selector_json s) as [[v|]|] eqn:S; cbn [bind] in H; try discriminate.
    apply selector_json_inv in S as [-> U].
    destruct (topic_json p) as [tj|] eqn:T; [|discriminate]. apply topic_json_inv in T as (-> & F & CT).
    destruct (schedule_json d) as [dj|] eqn:D; [|discriminate]. apply schedule_json_inv in D as (-> & CD).
    destruct (_ || _) eqn:V; [discriminate|]. bool_split. injection H as <-. split; [reflexivity|]. split.
    + destruct p as [x|]; [|reflexivity]. cbn. now rewrite (F x eq_refl).
    + cbn. rewrite U, CT, CD, (valid_text_utf8 _ _ _ _ H0). destruct m, r; reflexivity. }
  3: { destruct (selector_json s) as [[v|]|] eqn:S, (selector_json s') as [[v'|]|] eqn:S'; cbn [bind] in H;
         try discriminate.
       apply selector_json_inv in S as [-> U]. apply selector_json_inv in S' as [-> U'].
       destruct (valid_message_ids l); [|discriminate]. injection H as <-. repeat split.
       cbn. rewrite U, U'. change (forallb canonicalizable _) with (canonicalizable (ids_json l)).
       now rewrite ids_canonicalizable. }
  13: { destruct (canonical_write_selector u) as [[c|]|] eqn:S; cbn [bind] in H; try discriminate.
        destruct (_ || _) eqn:V; [discriminate|]. bool_split. injection H as <-. repeat split.
        apply String.eqb_eq in H1 as ->. cbn. now rewrite (canonical_utf8 _ _ S). }
  13: { destruct (valid_hash h) eqn:V; [|discriminate]. injection H as <-. repeat split. cbn.
        now rewrite (valid_hash_utf8 _ V). }
  14: { destruct (_ && valid_text _ _ _ _) eqn:V; [|discriminate]. bool_split. injection H as <-. repeat split. cbn.
        erewrite (valid_hash_utf8 sha256), (valid_basename_utf8 name), (valid_text_utf8 caption) by eassumption.
        reflexivity. }
  all: apply selected_inv in H as (V & -> & U); bool_split; repeat split; cbn; rewrite U; try reflexivity.
  all: try change (forallb canonicalizable _) with (canonicalizable (ids_json message_ids)).
  all: rewrite ?ids_canonicalizable; try reflexivity.
  all: match goal with V : valid_text _ _ _ _ = true |- _ => rewrite (valid_text_utf8 _ _ _ _ V); reflexivity end.
Qed.

(** ** Documents determine their payload *)

Lemma ids_norm_inj l l' : norm (ids_json l) = norm (ids_json l') -> l = l'.
Proof.
  cbn. intros [= H]. rewrite !map_map in H. revert l' H.
  induction l as [|x l IH]; intros [|y l'] [=]; [reflexivity|]. f_equal; auto.
Qed.

Lemma payload_document_inj q q' :
  fingerprint_operation q = fingerprint_operation q' -> forum_topics q = true -> forum_topics q' = true ->
  norm (payload_document q) = norm (payload_document q') -> q = q'.
Proof.
  intros O F F' N.
  destruct q as [| | | | | | | | | | | | | |[]| |], q' as [| | | | | | | | | | | | | |[]| |]; try discriminate O; clear O.
  all: cbn -[ids_json topic_document schedule_document optional_id parse_mode_name] in N.
  all: try discriminate N; injection N; intros; subst; try reflexivity.
  2, 3: f_equal; apply ids_norm_inj; cbn; congruence.
  f_equal.
  - destruct parse_mode, parse_mode0; try discriminate; reflexivity.
  - destruct reply_to, reply_to0; cbn in *; congruence.
  - destruct requested_topic as [[[] i]|], requested_topic0 as [[[] i']|]; cbn in *; congruence.
  - destruct schedule as [[|n]|], schedule0 as [[|n']|]; cbn in *; congruence.
Qed.

(** ** The bytes that are hashed *)

Definition operation_name (payload : FingerprintPayload) : string :=
  match M3.m3_operation_identity (fingerprint_operation payload) with
  | Some identity => M3.canonical_name identity
  | None => EmptyString
  end.

Definition fingerprint_text (account : string) (principal : ResolverPrincipal)
    (payload : FingerprintPayload) : string :=
  emit (fingerprint_root account principal (operation_name payload)
          (payload_document (canonical_payload payload))).

Definition fingerprint_bytes (account : string) (principal : ResolverPrincipal)
    (payload : FingerprintPayload) : list Z :=
  bytes_of "tgcli-idempotency-request-v1" ++ 0 :: bytes_of (fingerprint_text account principal payload).

Lemma operation_name_inj q q' :
  operation_name q = operation_name q' -> fingerprint_operation q = fingerprint_operation q'.
Proof.
  unfold operation_name. generalize (fingerprint_operation q), (fingerprint_operation q').
  intros [] []; cbn; congruence.
Qed.

Lemma operation_map_selectors f q : fingerprint_operation (map_selectors f q) = fingerprint_operation q.
Proof. now destruct q. Qed.

Lemma forum_map_selectors f q : forum_topics (map_selectors f q) = forum_topics q.
Proof. now destruct q. Qed.

Lemma root_canonicalizable account principal q j :
  valid_account_name account = true -> canonicalizable j = true ->
  canonicalizable (fingerprint_root account principal (operation_name q) j) = true.
Proof.
  intros A C. cbn. rewrite (account_utf8 _ A), C. unfold operation_name.
  destruct (fingerprint_operation q); reflexivity.
Qed.

(** What a call returns on every branch: the two defensive errors, an operation
    without identity and a document without canonical bytes, do not occur. *)
Theorem request_fingerprint_outcome account principal payload :
  request_fingerprint account principal payload =
  if negb (valid_account_name account) then Ok (Err InvalidAccount)
  else if negb (valid_positive_int53 (principal_id principal)) then Ok (Err InvalidPrincipal)
  else
    accepted <- make_payload payload ;;
    match accepted with
    | None => Ok (Err InvalidPayload)
    | Some _ =>
        hash <- domain_separated_sha256 "tgcli-idempotency-request-v1"
                  (fingerprint_text account principal payload) ;;
        Ok (Ok hash)
    end.
Proof.
  unfold request_fingerprint. destruct (valid_account_name account) eqn:A; [|reflexivity].
  destruct (valid_positive_int53 _); [|reflexivity]. cbn [negb].
  destruct (M3.m3_operation_identity (fingerprint_operation payload)) as [identity|] eqn:I;
    [|destruct payload; discriminate].
  destruct (make_payload payload) as [[j|]|] eqn:P; [|reflexivity..]. cbn [bind].
  apply make_payload_inv in P as (-> & _ & C).
  assert (M3.canonical_name identity = operation_name payload) as ->
    by (unfold operation_name; now rewrite I).
  pose proof (root_canonicalizable account principal payload _ A C) as R.
  rewrite <- canonical_json_total in R. unfold is_ok in R.
  destruct (canonical_json _) as [t|] eqn:E; [|discriminate].
  apply canonical_json_emit in E as [_ ->]. reflexivity.
Qed.

Lemma fingerprint_accepted account principal q h :
  request_fingerprint account principal q = Ok (Ok h) ->
  domain_separated_sha256 "tgcli-idempotency-request-v1" (fingerprint_text account principal q) = Ok h
  /\ forum_topics q = true
  /\ canonicalizable (fingerprint_root account principal (operation_name q)
                         (payload_document (canonical_payload q))) = true.
Proof.
  rewrite request_fingerprint_outcome. destruct (valid_account_name account) eqn:A; [|discriminate].
  destruct (valid_positive_int53 _); [|discriminate]. cbn [negb].
  destruct (make_payload q) as [[j|]|] eqn:P; try discriminate. cbn [bind].
  apply make_payload_inv in P as (-> & F & C). destruct (domain_separated_sha256 _ _); [|discriminate].
  intros [= ->]. repeat split; [exact F | now apply root_canonicalizable].
Qed.

(** C20.  A fingerprint identifies a request: it is the SHA-256 of bytes that two
    accepted requests share exactly when they have the same account, the same
    principal and the same operation and arguments, up to the spelling of their
    selectors.  So a repeated request is recognised, and a different one is not
    mistaken for it unless SHA-256 collides on the two byte strings. *)
Theorem fingerprint_identifies_request account principal q h account' principal' q' h' :
  request_fingerprint account principal q = Ok (Ok h) ->
  request_fingerprint account' principal' q' = Ok (Ok h') ->
  h = "sha256:" +++ hex (sha256 (fingerprint_bytes account principal q))
  /\ h' = "sha256:" +++ hex (sha256 (fingerprint_bytes account' principal' q'))
  /\ (fingerprint_bytes account principal q = fingerprint_bytes account' principal' q' <->
      account = account' /\ principal_id principal = principal_id principal'
      /\ is_bot principal = is_bot principal' /\ canonical_payload q = canonical_payload q').
Proof.
  intros H H'. apply fingerprint_accepted in H as (D & F & C). apply fingerprint_accepted in H' as (D' & F' & C').
  split; [exact (separated_hash _ _ _ D)|]. split; [exact (separated_hash _ _ _ D')|]. split.
  - intros B. apply separated_inj in B as [_ T]; [|reflexivity..].
    destruct (determined_all _ _ "" "" C C' I I) as [N _]; [now rewrite !str_app_nil_r|].
    cbn -[payload_document operation_name] in N. injection N as -> O P -> ->.
    apply operation_name_inj in O. repeat split.
    apply payload_document_inj; rewrite ?operation_map_selectors, ?forum_map_selectors; assumption.
  - intros (-> & PI & PB & Q). unfold fingerprint_bytes, fingerprint_text.
    assert (operation_name q = operation_name q') as ->.
    { unfold operation_name. now rewrite <- (operation_map_selectors canonical q), Q, operation_map_selectors. }
    unfold fingerprint_root. now rewrite PI, PB, Q.
Qed.

Lemma fingerprint_identifies_request_witness :
  exists h h',
    request_fingerprint "main" golden_principal (golden_send "-001001") = Ok (Ok h)
    /\ request_fingerprint "main" golden_principal (golden_send "-1001") = Ok (Ok h')
    /\ fingerprint_bytes "main" golden_principal (golden_send "-001001")
       = fingerprint_bytes "main" golden_principal (golden_send "-1001").
Proof.
  eexists. eexists. split; [|split].
  3: eapply (fingerprint_identifies_request "main" golden_principal (golden_send "-001001") _
               "main" golden_principal (golden_send "-1001") _).
  all: vm_compute; auto.
Defined.

(** * Which selectors are the same *)

Definition is_invite (s : string) : bool :=
  negb (decimal_syntax s) && negb (starts_with s "@") && is_exact_telegram_invite_link s.

(** The first character of a canonical selector tells its kind. *)
Lemma canonical_cases s c :
  canonical_write_selector s = Ok (Some c) ->
  (exists n, decimal_syntax s = true /\ decimal_selector s = Some n /\ c = to_string n)
  \/ (is_invite s = true /\ invite_link_hash s = Ok c /\ starts_with c "s" = true)
  \/ (decimal_syntax s = false /\ is_invite s = false /\ c = s
      /\ (starts_with s "@" || starts_with s "h" || starts_with s "t") = true).
Proof.
  unfold canonical_write_selector, is_invite. destruct (_ || _); [discriminate|].
  destruct (decimal_syntax s).
  - destruct (decimal_selector s) as [n|]; [|discriminate]. intros [= <-]. left. eauto.
  - cbn [negb andb]. destruct (starts_with s "@"); cbn [negb andb orb].
    + destruct (1 <? str_len s); [|discriminate]. intros [= <-]. right. right. auto.
    + destruct (global_link_remainder s) as [r|] eqn:G; [|discriminate].
      destruct (is_exact_telegram_invite_link s); cbn [orb].
      * destruct (invite_link_hash s) as [h|] eqn:E; [|discriminate]. intros [= <-]. right. left.
        repeat split. apply separated_hash in E as ->. reflexivity.
      * intros [= <-]. right. right. repeat split.
        apply strip_first_some in G as (p & [<-|[<-|[]]] & ->); reflexivity.
Qed.

(** No text starts in two ways. *)
Ltac first_char :=
  try match goal with H : context [starts_with (to_string ?n) _] |- _ =>
    let T := fresh in destruct (to_string_starts n) as (? & ? & T & ?); rewrite T in H end;
  repeat match goal with H : starts_with ?s _ = true |- _ => is_var s; destruct s; [discriminate H|]
                    | H : (starts_with ?s _ || _) = true |- _ => is_var s; destruct s; [discriminate H|]
                    | H : (starts_with ?s _ || _ || _) = true |- _ => is_var s; destruct s; [discriminate H|] end;
  cbn in *; match goal with c : ascii |- _ => destruct c as [[] [] [] [] [] [] [] []]; discriminate end.

(** Two accepted selectors have the same canonical text exactly when they are the
    same text, decimals of the same number, or invite links with the same hash. *)
Theorem selectors_identified s s' c c' :
  canonical_write_selector s = Ok (Some c) -> canonical_write_selector s' = Ok (Some c') ->
  (c = c' <->
   s = s'
   \/ (decimal_syntax s = true /\ decimal_syntax s' = true /\ decimal_selector s = decimal_selector s')
   \/ (is_invite s = true /\ is_invite s' = true /\ invite_link_hash s = invite_link_hash s')).
Proof.
  intros H H'. split.
  - intros <-.
    destruct (canonical_cases _ _ H) as [(n & D & N & ->)|[(I & E & S)|(D & I & -> & S)]],
      (canonical_cases _ _ H') as [(n' & D' & N' & E')|[(I' & E' & S')|(D' & I' & E' & S')]].
    1: apply to_string_inj in E' as ->; right; left; repeat split; congruence.
    4: right; right; repeat split; congruence.
    7: left; exact E'.
    all: exfalso; try subst; first_char.
  - intros [<-|[(D & D' & E)|(I & I' & E)]].
    + congruence.
    + revert H H'. unfold canonical_write_selector. rewrite D, D', E.
      destruct (_ || _), (_ || _); congruence.
    + destruct (canonical_cases _ _ H) as [(n & D & _)|[(_ & X & _)|(_ & X & _)]],
        (canonical_cases _ _ H') as [(n' & D' & _)|[(_ & X' & _)|(_ & X' & _)]]; try congruence;
        unfold is_invite in *; rewrite ?D, ?D' in *; discriminate.
Qed.
