(* ===== verification/M6Domain.v ===== *)
(** Closed vocabularies and canonical texts of the M6 commands
    (src/src/daemon/m6_domain.cpp, .hpp). *)
From S2P Require Import Prelude DecimalText Utf8 DestructivePlan LocalSelector.

Inductive M6TextKind := FolderName | TopicName | ChatTitle | ChatDescription.

(** * Closed vocabularies

    An enumerator is its position in the table of names. *)

Definition kFolderIcons : list string :=
  ["all"; "unread"; "unmuted"; "bots"; "channels"; "groups"; "private"; "custom"; "setup"; "cat";
   "crown"; "favorite"; "flower"; "game"; "home"; "love"; "mask"; "party"; "sport"; "study";
   "trade"; "travel"; "work"; "airplane"; "book"; "light"; "like"; "money"; "note"; "palette"].

Definition kTopicColors : list string := ["blue"; "yellow"; "purple"; "green"; "pink"; "red"].

Definition kAdminRights : list string :=
  ["change-info"; "post-messages"; "edit-messages"; "delete-messages"; "invite-users";
   "restrict-members"; "pin-messages"; "manage-topics"; "promote-members"; "manage-video-chats";
   "post-stories"; "edit-stories"; "delete-stories"; "manage-direct-messages"; "manage-tags";
   "anonymous"].

Definition kChatPermissions : list string :=
  ["send-basic-messages"; "send-audios"; "send-documents"; "send-photos"; "send-videos";
   "send-video-notes"; "send-voice-notes"; "send-polls"; "send-other-messages";
   "add-link-previews"; "react-to-messages"; "edit-tag"; "change-info"; "invite-users";
   "pin-messages"; "create-topics"].

Definition parse_closed (v : string) (names : list string) : option nat := index_of v names.

Definition closed_name (v : nat) (names : list string) : string := nth v names EmptyString.

Definition parse_m6_folder_icon (v : string) : option nat := parse_closed v kFolderIcons.
Definition parse_m6_topic_color (v : string) : option nat := parse_closed v kTopicColors.
Definition parse_m6_admin_right (v : string) : option nat := parse_closed v kAdminRights.
Definition parse_m6_chat_permission (v : string) : option nat := parse_closed v kChatPermissions.
Definition m6_folder_icon_name (v : nat) : string := closed_name v kFolderIcons.
Definition m6_topic_color_name (v : nat) : string := closed_name v kTopicColors.
Definition m6_admin_right_name (v : nat) : string := closed_name v kAdminRights.
Definition m6_chat_permission_name (v : nat) : string := closed_name v kChatPermissions.

Definition has_value {A} (o : option A) : bool := match o with Some _ => true | None => false end.

(** * Canonical texts *)

Definition utf8_first (byte : Z) : bool := negb (Z.land byte 0xC0 =? 0x80).

(** [replace_all]: [skip] characters of a replaced occurrence remain to be
    dropped. *)
Fixpoint replace_loop (needle replacement : string) (skip : nat) (v : string) : string :=
  match v with
  | EmptyString => EmptyString
  | String c r =>
      match skip with
      | S skip => replace_loop needle replacement skip r
      | O =>
          if starts_with v needle
          then replacement +++ replace_loop needle replacement (Nat.pred (String.length needle)) r
          else String c (replace_loop needle replacement 0 r)
      end
  end.

Definition replace_all (v needle replacement : string) : string :=
  replace_loop needle replacement 0 v.

(** The loop of [clean_input]. *)
Fixpoint clean_loop (v : string) : string :=
  match v with
  | EmptyString => EmptyString
  | String c r =>
      let byte := byte_of c in
      if byte =? 13 then clean_loop r
      else if (byte <=? 0x1F) && negb (byte =? 10) then String " " (clean_loop r)
      else
        match r with
        | EmptyString => String c EmptyString
        | String c1 r1 =>
            match r1 with
            | String c2 r2 =>
                if (byte =? 0xE2) && (byte_of c1 =? 0x80)
                   && ((0xA8 <=? byte_of c2) && (byte_of c2 <=? 0xAE))
                then clean_loop r2
                else if (byte =? 0xCC)
                        && ((byte_of c1 =? 0xB3) || (byte_of c1 =? 0xBF) || (byte_of c1 =? 0x8A))
                then clean_loop r1
                else String c (clean_loop r)
            | EmptyString =>
                if (byte =? 0xCC)
                   && ((byte_of c1 =? 0xB3) || (byte_of c1 =? 0xBF) || (byte_of c1 =? 0x8A))
                then EmptyString
                else String c (clean_loop r)
            end
        end
  end.

(** [None] is the [false] of text that is not UTF-8. *)
Definition clean_input (v : string) : option string :=
  if valid_utf8 v then Some (clean_loop v) else None.

Definition bytes_string (l : list Z) : string := string_of_list_ascii (map ascii_of_Z l).

Definition unicode_spaces : list string :=
  map bytes_string
    [[0xC2; 0xA0]; [0xE1; 0x9A; 0x80]; [0xE1; 0xA0; 0x8E]; [0xE2; 0x80; 0x80];
     [0xE2; 0x80; 0x81]; [0xE2; 0x80; 0x82]; [0xE2; 0x80; 0x83]; [0xE2; 0x80; 0x84];
     [0xE2; 0x80; 0x85]; [0xE2; 0x80; 0x86]; [0xE2; 0x80; 0x87]; [0xE2; 0x80; 0x88];
     [0xE2; 0x80; 0x89]; [0xE2; 0x80; 0x8A]; [0xE2; 0x80; 0xAF]; [0xE2; 0x81; 0x9F];
     [0xE2; 0xA0; 0x80]; [0xE3; 0x80; 0x80]; [0xEF; 0xBF; 0xBC]; [0xF3; 0xA0; 0x80; 0x80]].

Definition normalize_unicode_spaces (v : string) : string :=
  fold_left (fun v space => replace_all v space " ") unicode_spaces v.

Definition space_or_lf (c : ascii) : bool := Ascii.eqb c " " || Ascii.eqb c newline.

Fixpoint trim_left (v : string) : string :=
  match v with
  | String c r => if space_or_lf c then trim_left r else v
  | EmptyString => EmptyString
  end.

Fixpoint trim_right (v : string) : string :=
  match v with
  | String c r =>
      let r' := trim_right r in
      if str_empty r' && space_or_lf c then EmptyString else String c r'
  | EmptyString => EmptyString
  end.

Definition trim_space_and_lf (v : string) : string := trim_right (trim_left v).

(** [remaining] is [maximum - count]. *)
Fixpoint truncate_scalars (remaining : nat) (v : string) : string :=
  match v with
  | EmptyString => EmptyString
  | String c r =>
      if utf8_first (byte_of c) then
        match remaining with
        | O => EmptyString
        | S remaining => String c (truncate_scalars remaining r)
        end
      else String c (truncate_scalars remaining r)
  end.

Definition maximum_scalars (kind : M6TextKind) : nat :=
  match kind with
  | FolderName => 12
  | ChatDescription => 255
  | TopicName | ChatTitle => 128
  end.

(** The loop that joins runs of spaces and line feeds. *)
Fixpoint collapse (previous_space : bool) (v : string) : string :=
  match v with
  | EmptyString => EmptyString
  | String c r =>
      if space_or_lf c then
        if previous_space then collapse true r else String " " (collapse true r)
      else String c (collapse false r)
  end.

Definition canonical_text (kind : M6TextKind) (v : string) : string :=
  match clean_input v with
  | None => EmptyString
  | Some cleaned =>
      let v1 := trim_space_and_lf (normalize_unicode_spaces cleaned) in
      let v2 := trim_space_and_lf (truncate_scalars (maximum_scalars kind) v1) in
      match kind with
      | ChatDescription => v2
      | _ => trim_space_and_lf (collapse false v2)
      end
  end.

Definition valid_m6_canonical_text (kind : M6TextKind) (v : string) : bool :=
  if negb (valid_utf8 v) || str_contains nul v then false
  else
    let canonical := canonical_text kind v in
    let permits_empty := match kind with ChatDescription => true | _ => false end in
    String.eqb canonical v && (permits_empty || negb (str_empty canonical)).

(** * Selectors, numbers and links *)

Definition valid_m6_exact_selector (v : string) : bool :=
  match classify_local_selector v with
  | None => false
  | Some selector =>
      match LocalSelector.kind selector with
      | Numeric | Username | PublicChatLink => true
      | _ => false
      end
  end.

Definition parse_m6_positive_int32 (v : string) : option Z :=
  match v with
  | EmptyString => None
  | String c _ =>
      if negb (in_range "1" "9" c) || negb (str_all is_digit v) then None
      else
        match from_chars_i64 v with
        | Some parsed => if i32_max <? parsed then None else Some parsed
        | None => None
        end
  end.

Definition valid_m6_contact_query (v : string) : bool :=
  negb (str_empty v) && (str_len v <=? 256) && negb (str_contains nul v) && valid_utf8 v.

Definition control_scalar (codepoint : Z) : bool :=
  (codepoint <=? 0x1F) || ((0x7F <=? codepoint) && (codepoint <=? 0x9F)).

(** The length and the first bits announced by a lead byte. *)
Definition lead_bits (first : Z) : nat * Z :=
  if (0xC2 <=? first) && (first <=? 0xDF) then (2%nat, Z.land first 0x1F)
  else if (0xE0 <=? first) && (first <=? 0xEF) then (3%nat, Z.land first 0x0F)
  else if 0xF0 <=? first then (4%nat, Z.land first 0x07)
  else (1%nat, first).

Fixpoint push_continuations (n : nat) (codepoint : Z) (bytes : list Z) : Z :=
  match n, bytes with
  | S n, b :: rest => push_continuations n (Z.lor (Z.shiftl codepoint 6) (Z.land b 0x3F)) rest
  | _, _ => codepoint
  end.

(** Every iteration drops at least one byte. *)
Fixpoint control_loop (fuel : nat) (bytes : list Z) : bool :=
  match fuel, bytes with
  | S fuel, first :: rest =>
      let '(length, codepoint) := lead_bits first in
      if control_scalar (push_continuations (Nat.pred length) codepoint rest) then true
      else control_loop fuel (skipn (Nat.pred length) rest)
  | _, _ => false
  end.

Definition contains_control_scalar (v : string) : bool :=
  control_loop (String.length v) (bytes_of v).

Definition valid_m6_invite_link (v : string) : bool :=
  negb (str_empty v) && (str_len v <=? 4096) && negb (str_contains nul v) && valid_utf8 v
  && negb (contains_control_scalar v).

(** * Properties *)

(** A character of a cleaned text: no control character but the line feed. *)
Definition visible (c : ascii) : bool := (0x20 <=? byte_of c) || (byte_of c =? 10).

Fixpoint scalars (v : string) : nat :=
  match v with
  | EmptyString => 0
  | String c r => ((if utf8_first (byte_of c) then 1 else 0) + scalars r)%nat
  end.

Definition starts_clean (v : string) : bool :=
  match v with String c _ => negb (space_or_lf c) | EmptyString => true end.

Definition ends_clean (v : string) : bool :=
  match str_back v with Some c => negb (space_or_lf c) | None => true end.

(** Single spaces only, and no line feed. *)
Fixpoint single_spaced (previous_space : bool) (v : string) : bool :=
  match v with
  | EmptyString => true
  | String c r =>
      negb (Ascii.eqb c newline) && negb (previous_space && Ascii.eqb c " ")
      && single_spaced (Ascii.eqb c " ") r
  end.

Section kept.
Variable p : ascii -> bool.

Lemma trim_left_all v : str_all p v = true -> str_all p (trim_left v) = true.
Proof.
  induction v as [|c v IH]; cbn; [auto|]. intros H.
  destruct (space_or_lf c); [bool_split; auto | exact H].
Qed.

Lemma trim_right_all v : str_all p v = true -> str_all p (trim_right v) = true.
Proof.
  induction v as [|c v IH]; cbn; [auto|]. intros H. bool_split.
  destruct (_ && _); cbn; [reflexivity|]. rewrite_bools. cbn. auto.
Qed.

Lemma truncate_all n v : str_all p v = true -> str_all p (truncate_scalars n v) = true.
Proof.
  revert n. induction v as [|c v IH]; intros n; cbn; [auto|]. intros H. bool_split.
  destruct (utf8_first _); [destruct n|]; cbn; rewrite_bools; cbn; auto.
Qed.

Hypothesis p_space : p " " = true.

Lemma collapse_all b v : str_all p v = true -> str_all p (collapse b v) = true.
Proof.
  revert b. induction v as [|c v IH]; intros b; cbn; [auto|]. intros H. bool_split.
  destruct (space_or_lf c); [destruct b|]; cbn; rewrite ?p_space; rewrite_bools; cbn; auto.
Qed.

Lemma replace_all_all v needle :
  str_all p v = true -> str_all p (replace_all v needle " ") = true.
Proof.
  unfold replace_all. generalize 0%nat. induction v as [|c v IH]; intros n H; [reflexivity|].
  cbn [str_all] in H. bool_split. cbn [replace_loop]. destruct n; [|auto].
  destruct (starts_with _ _); cbn; rewrite ?p_space; rewrite_bools; cbn; auto.
Qed.

Lemma normalize_all v : str_all p v = true -> str_all p (normalize_unicode_spaces v) = true.
Proof.
  unfold normalize_unicode_spaces. revert v. induction unicode_spaces as [|s l IH]; cbn; auto using replace_all_all.
Qed.
End kept.

Lemma clean_loop_visible v : str_all visible (clean_loop v) = true.
Proof.
  enough (forall n v, (String.length v <= n)%nat -> str_all visible (clean_loop v) = true) as H
    by (apply (H (String.length v)); lia).
  clear v. induction n as [|n IH]; intros v L; [destruct v; [reflexivity | cbn in L; lia]|].
  destruct v as [|c r]; [reflexivity|]. cbn [String.length] in L.
  assert (str_all visible (clean_loop r) = true) as Hr by (apply IH; lia).
  cbn [clean_loop]. destruct (byte_of c =? 13); [exact Hr|].
  destruct ((byte_of c <=? 31) && negb (byte_of c =? 10)) eqn:E; [exact Hr|].
  assert (visible c = true) as Hc.
  { unfold visible. destruct (byte_of c =? 10); [apply orb_true_r|].
    rewrite andb_true_r in E. z_bool. apply orb_true_iff. left. apply Z.leb_le. lia. }
  assert (forall s, str_all visible s = true -> str_all visible (String c s) = true) as K
    by (intros s Hs; cbn; now rewrite Hc, Hs).
  clear E.
  destruct r as [|c1 r1]; [now apply K|]. cbn [String.length] in L.
  destruct r1 as [|c2 r2].
  - destruct (_ && _); [reflexivity | now apply K].
  - cbn [String.length] in L. destruct (_ && _); [apply IH; lia|].
    destruct (_ && _); [apply IH; cbn; lia | now apply K].
Qed.

Lemma scalars_trim v : (scalars (trim_space_and_lf v) <= scalars v)%nat.
Proof.
  unfold trim_space_and_lf. etransitivity.
  - instantiate (1 := scalars (trim_left v)). generalize (trim_left v). clear v. intros v.
    induction v as [|c v IH]; cbn; [lia|]. destruct (_ && _); cbn; lia.
  - induction v as [|c v IH]; cbn; [lia|]. destruct (space_or_lf c); cbn; lia.
Qed.

Lemma scalars_truncate n v : (scalars (truncate_scalars n v) <= n)%nat.
Proof.
  revert n. induction v as [|c v IH]; intros n; cbn; [lia|].
  destruct (utf8_first (byte_of c)) eqn:E.
  - destruct n; cbn; [lia|]. rewrite E. specialize (IH n). lia.
  - cbn. rewrite E. apply IH.
Qed.

Lemma scalars_collapse b v : (scalars (collapse b v) <= scalars v)%nat.
Proof.
  revert b. induction v as [|c v IH]; intros b; cbn; [lia|].
  destruct (space_or_lf c) eqn:E.
  - assert (utf8_first (byte_of c) = true) as ->.
    { unfold space_or_lf in E. apply orb_true_iff in E as [E|E]; apply Ascii.eqb_eq in E as ->;
        reflexivity. }
    specialize (IH true). destruct b; cbn [scalars]; [lia|].
    change (utf8_first (byte_of " ")) with true. cbn iota. lia.
  - cbn. specialize (IH false). lia.
Qed.

Lemma trim_clean v :
  starts_clean (trim_space_and_lf v) = true /\ ends_clean (trim_space_and_lf v) = true.
Proof.
  unfold trim_space_and_lf. split.
  - assert (starts_clean (trim_left v) = true) as H.
    { induction v as [|c v IH]; cbn; [reflexivity|]. destruct (space_or_lf c) eqn:E; [exact IH|].
      cbn. now rewrite E. }
    destruct (trim_left v) as [|c w]; [reflexivity|]. cbn in *.
    apply negb_true_iff in H. rewrite H, andb_false_r. cbn. now rewrite H.
  - unfold ends_clean. induction (trim_left v) as [|c w IH]; [reflexivity|]. cbn [trim_right].
    destruct (trim_right w) as [|d w'] eqn:E; [|exact IH]. cbn.
    destruct (space_or_lf c) eqn:S; cbn; [reflexivity|]. now rewrite S.
Qed.

Lemma single_spaced_weaken v : single_spaced true v = true -> single_spaced false v = true.
Proof. destruct v; cbn; [auto|]. intros H. bool_split; rewrite_bools; reflexivity. Qed.

Lemma single_spaced_collapse b v : single_spaced b (collapse b v) = true.
Proof.
  revert b. induction v as [|c v IH]; intros b; cbn; [reflexivity|].
  destruct (space_or_lf c) eqn:E; [destruct b; [apply IH|]|].
  - cbn. apply IH.
  - unfold space_or_lf in E. bool_split. cbn [single_spaced]. rewrite_bools.
    rewrite andb_false_r. apply IH.
Qed.

Lemma single_spaced_trim v :
  single_spaced false v = true -> single_spaced false (trim_space_and_lf v) = true.
Proof.
  intros H. unfold trim_space_and_lf.
  assert (forall v b, single_spaced b v = true -> single_spaced b (trim_right v) = true) as R.
  { induction v0 as [|c w IH]; intros b Hw; [reflexivity|]. cbn in Hw. bool_split. cbn.
    destruct (str_empty _ && _); cbn; [reflexivity|]. rewrite_bools. cbn. auto. }
  apply R. clear R. induction v as [|c w IH]; [reflexivity|]. cbn [trim_left].
  destruct (space_or_lf c); [|exact H]. apply IH. cbn in H. bool_split.
  destruct (Ascii.eqb c " "); auto using single_spaced_weaken.
Qed.

(** A text accepted as canonical is within the scalar limit of its kind,
    has no control character, no surrounding blank, and, except in a
    description, single spaces and no line feed: two names that differ only
    invisibly are not both accepted. *)
Theorem canonical_text_shape (kind : M6TextKind) (v : string) :
  valid_m6_canonical_text kind v = true ->
  (scalars v <= maximum_scalars kind)%nat /\ str_all visible v = true
  /\ starts_clean v = true /\ ends_clean v = true
  /\ (kind <> ChatDescription -> v <> EmptyString /\ single_spaced false v = true).
Proof.
  unfold valid_m6_canonical_text. destruct (_ || _); [discriminate|]. intros H. bool_split.
  str_bool. unfold canonical_text, clean_input in *.
  destruct (valid_utf8 v) eqn:U; [|subst v; now destruct kind].
  set (v1 := trim_space_and_lf (normalize_unicode_spaces (clean_loop v))) in *.
  set (v2 := trim_space_and_lf (truncate_scalars (maximum_scalars kind) v1)) in *.
  assert (str_all visible v2 = true) as A2.
  { unfold v2, v1, trim_space_and_lf.
    auto 10 using trim_left_all, trim_right_all, truncate_all, normalize_all, clean_loop_visible. }
  assert ((scalars v2 <= maximum_scalars kind)%nat) as S2.
  { unfold v2. etransitivity; [apply scalars_trim | apply scalars_truncate]. }
  destruct (trim_clean (truncate_scalars (maximum_scalars kind) v1)) as [C1 C2].
  destruct (trim_clean (collapse false v2)) as [C3 C4].
  assert (str_all visible (trim_space_and_lf (collapse false v2)) = true) as A3
    by (unfold trim_space_and_lf; auto using trim_left_all, trim_right_all, collapse_all).
  assert ((scalars (trim_space_and_lf (collapse false v2)) <= maximum_scalars kind)%nat) as S3
    by (etransitivity; [apply scalars_trim | etransitivity; [apply scalars_collapse | exact S2]]).
  pose proof (single_spaced_trim _ (single_spaced_collapse false v2)) as S4.
  assert (v <> EmptyString \/ kind = ChatDescription) as N.
  { destruct kind; auto; left; intros ->; destruct (str_empty _) eqn:E in *;
      try discriminate; congruence. }
  fold v2 in C1, C2. clearbody v2. clear v1 U.
  destruct kind; subst v; repeat split; try tauto; intros; destruct N; congruence.
Qed.

Lemma canonical_text_shape_witness :
  (scalars "release notes" <= 128)%nat /\ single_spaced false "release notes" = true.
Proof.
  destruct (canonical_text_shape TopicName "release notes") as (S & _ & _ & _ & K);
    [vm_compute; reflexivity|].
  split; [exact S | apply K; discriminate].
Defined.
