(* ===== verification/M6Audit.v ===== *)
(** The closed shapes of M6 audit documents
    (src/src/daemon/m6_audit_contract.cpp): arguments, plans and results of the
    twenty-four mutations. *)
From S2P Require Import Prelude Json Utf8 Paths Operation DestructivePlan M6Domain.

(** [exact_fields], [valid_positive_int32] and [valid_string] are those of
    [DestructivePlan]. *)

Definition valid_int53 (v : json) (positive : bool) : bool :=
  is_number_integer v
  && ((if positive then 1 else - int53_max) <=? get_i64 v) && (get_i64 v <=? int53_max).

Definition valid_hash (v : json) : bool := valid_sha256 v.

Definition valid_canonical_int64 (v : json) (positive : bool) : bool :=
  if negb (is_string v) then false
  else
    let text := get_string v in
    if str_empty text || starts_with text "+"
       || ((1 <? str_len text) && starts_with text "0") || String.eqb text "-0"
    then false
    else
      match from_chars_i64 text with
      | Some parsed => negb positive || (0 <? parsed)
      | None => false
      end.

Definition valid_user_identity (v : json) : bool :=
  exact_fields v ["id"; "display_name"; "usernames"; "is_bot"]
  && valid_int53 (jget v "id") true && valid_string (jget v "display_name") true
  && valid_string_array (jget v "usernames") 64 && is_boolean (jget v "is_bot").

Definition valid_chat_identity (v : json) : bool :=
  exact_fields v ["id"; "title"; "type"; "is_bot"; "usernames"]
  && valid_int53 (jget v "id") false && negb (eq_int (jget v "id") 0)
  && valid_string (jget v "title") true && is_string (jget v "type")
  && is_boolean (jget v "is_bot") && valid_string_array (jget v "usernames") 64
  && str_in (get_string (jget v "type")) ["private"; "basic_group"; "supergroup"; "channel"].

Definition valid_closed_array (v : json) (names : list string) (minimum : nat) : bool :=
  is_array v && Nat.leb minimum (jsize v) && Nat.leb (jsize v) (List.length names)
  && closed_strings None names (elements v).

(** The loop over the entities, with [previous_end]. *)
Fixpoint folder_entities (previous_end : Z) (entities : list json) : bool :=
  match entities with
  | [] => true
  | entity :: rest =>
      exact_fields entity ["offset"; "length"; "custom_emoji_id"]
      && is_number_integer (jget entity "offset") && is_number_integer (jget entity "length")
      && valid_canonical_int64 (jget entity "custom_emoji_id") true
      && (let offset := get_i64 (jget entity "offset") in
          let length := get_i64 (jget entity "length") in
          negb ((offset <? previous_end) || (length <=? 0) || (i32_max - length <? offset))
          && folder_entities (offset + length) rest)
  end.

Definition valid_folder_name (v : json) : bool :=
  exact_fields v ["text"; "animate_custom_emoji"; "custom_emoji_entities"]
  && is_string (jget v "text")
  && valid_m6_canonical_text FolderName (get_string (jget v "text"))
  && is_boolean (jget v "animate_custom_emoji") && is_array (jget v "custom_emoji_entities")
  && folder_entities 0 (elements (jget v "custom_emoji_entities")).

Definition valid_icon (v : json) : bool :=
  is_null v || (is_string v && has_value (parse_m6_folder_icon (get_string v))).

Definition valid_color_id (v : json) : bool :=
  is_number_integer v && (-1 <=? get_i64 v) && (get_i64 v <=? 6).

(** [all_of] with the set [ids] of the members inserted so far. *)
Fixpoint insert_ids (ids : list Z) (items : list json) : option (list Z) :=
  match items with
  | [] => Some ids
  | item :: rest =>
      if valid_int53 item false && negb (eq_int item 0) && negb (existsb (Z.eqb (get_i64 item)) ids)
      then insert_ids (get_i64 item :: ids) rest
      else None
  end.

Definition valid_ids (ids : list Z) (items : json) : option (list Z) :=
  if is_array items && Nat.leb (jsize items) 100 then insert_ids ids (elements items) else None.

Definition valid_folder_snapshot (v : json) : bool :=
  exact_fields v folder_fields && valid_positive_int32 (jget v "id")
  && valid_folder_name (jget v "name") && valid_icon (jget v "icon")
  && valid_color_id (jget v "color_id") && is_boolean (jget v "is_shareable")
  && is_boolean (jget v "has_my_invite_links")
  && match valid_ids [] (jget v "pinned_chat_ids") with
     | None => false
     | Some ids1 =>
         match valid_ids ids1 (jget v "included_chat_ids") with
         | None => false
         | Some ids2 =>
             negb (Nat.ltb 100 (jsize (jget v "pinned_chat_ids")
                                + jsize (jget v "included_chat_ids")))
             && match valid_ids ids2 (jget v "excluded_chat_ids") with
                | None => false
                | Some _ => forallb (fun field => is_boolean (jget v field)) folder_booleans
                end
         end
     end.

Definition valid_topic_info (v : json) : bool :=
  exact_fields v
    ["chat_id"; "id"; "name"; "icon"; "creation_date"; "creator"; "is_general"; "is_outgoing";
     "is_closed"; "is_hidden"; "is_name_implicit"]
  && valid_int53 (jget v "chat_id") false && negb (eq_int (jget v "chat_id") 0)
  && valid_positive_int32 (jget v "id") && is_string (jget v "name")
  && valid_m6_canonical_text TopicName (get_string (jget v "name"))
  && exact_fields (jget v "icon") ["color"; "custom_emoji_id"]
  && is_string (jget (jget v "icon") "color")
  && has_value (parse_m6_topic_color (get_string (jget (jget v "icon") "color")))
  && valid_canonical_int64 (jget (jget v "icon") "custom_emoji_id") false
  && valid_string (jget v "creation_date") false
  && exact_fields (jget v "creator") ["type"; "id"]
  && (eq_str (jget (jget v "creator") "type") "user"
      || eq_str (jget (jget v "creator") "type") "chat")
  && valid_int53 (jget (jget v "creator") "id") false
  && negb (eq_int (jget (jget v "creator") "id") 0)
  && is_boolean (jget v "is_general") && is_boolean (jget v "is_outgoing")
  && is_boolean (jget v "is_closed") && is_boolean (jget v "is_hidden")
  && is_boolean (jget v "is_name_implicit").

Definition valid_member_status (v : json) : bool :=
  is_object v && contains v "kind" && is_string (jget v "kind")
  && (let kind := get_string (jget v "kind") in
      if String.eqb kind "creator" then
        exact_fields v ["kind"; "is_anonymous"; "is_member"]
        && is_boolean (jget v "is_anonymous") && is_boolean (jget v "is_member")
      else if String.eqb kind "administrator" then
        exact_fields v ["kind"; "can_be_edited"; "can_manage_chat"; "rights"]
        && is_boolean (jget v "can_be_edited") && is_boolean (jget v "can_manage_chat")
        && valid_closed_array (jget v "rights") kAdminRights 0
      else if String.eqb kind "member" then
        exact_fields v ["kind"; "member_until_date"] && int32_date (jget v "member_until_date")
      else if String.eqb kind "restricted" then
        exact_fields v ["kind"; "is_member"; "restricted_until_date"; "permissions"]
        && is_boolean (jget v "is_member") && int32_date (jget v "restricted_until_date")
        && valid_closed_array (jget v "permissions") kChatPermissions 0
      else if String.eqb kind "left" then exact_fields v ["kind"]
      else
        String.eqb kind "banned" && exact_fields v ["kind"; "banned_until_date"]
        && int32_date (jget v "banned_until_date")).

Definition terminal_member_status (operation : M6.M6Operation) : string :=
  match operation with
  | M6.ChatDemote => "member"
  | M6.ChatBan => "banned"
  | M6.ChatUnban | M6.ChatKick => "left"
  | _ => EmptyString
  end.

Definition file_snapshot_fields : list string :=
  ["path"; "name"; "size"; "sha256"; "device"; "inode"; "mtime_ns"; "ctime_ns"].

Definition valid_file_snapshot (v : json) : bool :=
  exact_fields v file_snapshot_fields
  && valid_string (jget v "path") false && valid_string (jget v "name") false
  && is_number_unsigned (jget v "size") && valid_hash (jget v "sha256")
  && is_number_unsigned (jget v "device") && is_number_unsigned (jget v "inode")
  && is_number_integer (jget v "mtime_ns") && is_number_integer (jget v "ctime_ns").

(** * Storage statistics *)

Definition file_types : list string :=
  ["none"; "animation"; "audio"; "document"; "live-photo-video"; "notification-sound"; "photo";
   "photo-story"; "profile-photo"; "secret"; "secret-thumbnail"; "secure";
   "self-destructing-live-photo-video"; "self-destructing-photo"; "self-destructing-video";
   "self-destructing-video-note"; "self-destructing-voice-note"; "sticker"; "thumbnail";
   "unknown"; "video"; "video-note"; "video-story"; "voice-note"; "wallpaper"].

Definition natural_int53 (v : json) : bool := valid_int53 v false && (0 <=? get_i64 v).
Definition natural_integer (v : json) : bool := is_number_integer v && (0 <=? get_i64 v).

(** The inner loop: [row_size], [row_count] and the set [types]. *)
Fixpoint file_type_rows (row_size row_count : Z) (types : list string) (items : list json) :
    option (Z * Z) :=
  match items with
  | [] => Some (row_size, row_count)
  | item :: rest =>
      if exact_fields item ["file_type"; "size"; "count"] && is_string (jget item "file_type")
         && str_in (get_string (jget item "file_type")) file_types
         && natural_int53 (jget item "size") && natural_integer (jget item "count")
         && negb (str_in (get_string (jget item "file_type")) types)
         && negb (int53_max - get_i64 (jget item "size") <? row_size)
         && negb (i32_max - get_i64 (jget item "count") <? row_count)
      then
        file_type_rows (row_size + get_i64 (jget item "size"))
          (row_count + get_i64 (jget item "count")) (get_string (jget item "file_type") :: types)
          rest
      else None
  end.

(** The outer loop: totals, the set [chats] and the flag [aggregate]. *)
Fixpoint chat_rows (total_size total_count : Z) (chats : list Z) (aggregate : bool)
    (rows : list json) : option (Z * Z) :=
  match rows with
  | [] => Some (total_size, total_count)
  | row :: rest =>
      if negb (exact_fields row ["chat_id"; "size"; "count"; "by_file_type"]
               && valid_int53 (jget row "chat_id") false && natural_int53 (jget row "size")
               && natural_integer (jget row "count") && is_array (jget row "by_file_type")
               && Nat.leb (jsize (jget row "by_file_type")) 25)
      then None
      else
        let id := get_i64 (jget row "chat_id") in
        if ((id =? 0) && aggregate) || (negb (id =? 0) && existsb (Z.eqb id) chats) then None
        else
          match file_type_rows 0 0 [] (elements (jget row "by_file_type")) with
          | None => None
          | Some (row_size, row_count) =>
              if negb (eq_int (jget row "size") row_size)
                 || negb (eq_int (jget row "count") row_count)
                 || (int53_max - row_size <? total_size) || (i32_max - row_count <? total_count)
              then None
              else
                chat_rows (total_size + row_size) (total_count + row_count)
                  (if id =? 0 then chats else id :: chats) (aggregate || (id =? 0)) rest
          end
  end.

Definition valid_storage_statistics (v : json) : bool :=
  exact_fields v ["size"; "count"; "by_chat"] && natural_int53 (jget v "size")
  && natural_integer (jget v "count") && (get_i64 (jget v "count") <=? i32_max)
  && is_array (jget v "by_chat") && Nat.leb (jsize (jget v "by_chat")) 101
  && match chat_rows 0 0 [] false (elements (jget v "by_chat")) with
     | Some (total_size, total_count) =>
         eq_int (jget v "size") total_size && eq_int (jget v "count") total_count
     | None => false
     end.

(** * Plans *)

Definition common_plan (policy : M6WritePolicy) (v : json) (account : string) : bool :=
  is_object v && contains v "operation" && eq_str (jget v "operation") (audit_name policy)
  && contains v "account" && eq_str (jget v "account") account && valid_account_name account
  && contains v "tdlib_request" && is_string (jget v "tdlib_request")
  && valid_m6_tdlib_function (policy_operation policy) (get_string (jget v "tdlib_request")).

(** [{"operation", "account", "tdlib_request", ...}]. *)
Definition plan_fields (v : json) (fields : list string) : bool :=
  exact_fields v ("operation" :: "account" :: "tdlib_request" :: fields).

Definition empty_list (v : json) : bool := is_array v && jempty v.

Definition folder_change (v : json) : bool :=
  valid_folder_snapshot (jget v "before") && valid_folder_snapshot (jget v "after")
  && json_eqb (jget (jget v "before") "id") (jget v "folder_id")
  && json_eqb (jget (jget v "after") "id") (jget v "folder_id")
  && negb (json_eqb (jget v "before") (jget v "after")).

Definition canonical_member (kind : M6TextKind) (v : json) : bool :=
  is_string v && valid_m6_canonical_text kind (get_string v).

(** The [switch] of [valid_m6_audit_plan]. *)
Definition plan_shape (operation : M6.M6Operation) (v : json) : bool :=
  match operation with
  | M6.ContactAdd =>
      plan_fields v ["user"; "first_name"; "last_name"; "phone_number_sha256"; "share_phone_number"]
      && valid_user_identity (jget v "user") && valid_string (jget v "first_name") false
      && valid_string (jget v "last_name") true && valid_hash (jget v "phone_number_sha256")
      && eq_bool (jget v "share_phone_number") false
  | M6.ContactRemove =>
      plan_fields v ["user"; "is_contact"] && valid_user_identity (jget v "user")
      && eq_bool (jget v "is_contact") false
  | M6.ContactBlock | M6.ContactUnblock =>
      plan_fields v ["user"; "blocked"] && valid_user_identity (jget v "user")
      && eq_bool (jget v "blocked") (eqb operation M6.ContactBlock)
  | M6.FolderCreate =>
      plan_fields v ["name"; "icon"; "color_id"; "chat_ids"] && valid_folder_name (jget v "name")
      && valid_icon (jget v "icon") && valid_color_id (jget v "color_id")
      && is_array (jget v "chat_ids") && negb (jempty (jget v "chat_ids"))
      && Nat.leb (jsize (jget v "chat_ids")) 100
      && has_value (insert_ids [] (elements (jget v "chat_ids")))
  | M6.FolderEdit =>
      plan_fields v ["folder_id"; "before"; "after"] && valid_positive_int32 (jget v "folder_id")
      && folder_change v
  | M6.FolderDelete =>
      plan_fields v ["folder"; "leave_chat_ids"] && valid_folder_snapshot (jget v "folder")
      && empty_list (jget v "leave_chat_ids")
  | M6.FolderAddChat | M6.FolderRemoveChat =>
      plan_fields v ["folder_id"; "chat"; "before"; "after"]
      && valid_positive_int32 (jget v "folder_id") && valid_chat_identity (jget v "chat")
      && folder_change v
  | M6.TopicCreate =>
      plan_fields v ["chat"; "name"; "icon"] && valid_chat_identity (jget v "chat")
      && canonical_member TopicName (jget v "name") && is_string (jget v "icon")
      && has_value (parse_m6_topic_color (get_string (jget v "icon")))
  | M6.TopicEdit =>
      plan_fields v ["chat"; "before"; "name"] && valid_chat_identity (jget v "chat")
      && valid_topic_info (jget v "before") && canonical_member TopicName (jget v "name")
      && negb (json_eqb (jget v "name") (jget (jget v "before") "name"))
  | M6.TopicClose | M6.TopicReopen =>
      plan_fields v ["chat"; "before"; "closed"] && valid_chat_identity (jget v "chat")
      && valid_topic_info (jget v "before")
      && eq_bool (jget v "closed") (eqb operation M6.TopicClose)
      && negb (json_eqb (jget (jget v "before") "is_closed") (jget v "closed"))
  | M6.ChatSetTitle =>
      plan_fields v ["chat"; "title"] && valid_chat_identity (jget v "chat")
      && canonical_member ChatTitle (jget v "title")
  | M6.ChatSetPhoto =>
      plan_fields v ["chat"; "delete"; "file"] && valid_chat_identity (jget v "chat")
      && is_boolean (jget v "delete")
      && (if eq_bool (jget v "delete") true then is_null (jget v "file")
          else valid_file_snapshot (jget v "file"))
  | M6.ChatSetDescription =>
      plan_fields v ["chat"; "description"] && valid_chat_identity (jget v "chat")
      && canonical_member ChatDescription (jget v "description")
  | M6.ChatInviteLink =>
      plan_fields v ["chat"; "action"; "invite_link_sha256"] && valid_chat_identity (jget v "chat")
      && ((eq_str (jget v "action") "create" && is_null (jget v "invite_link_sha256")
           && eq_str (jget v "tdlib_request") "createChatInviteLink")
          || (eq_str (jget v "action") "revoke" && valid_hash (jget v "invite_link_sha256")
              && eq_str (jget v "tdlib_request") "revokeChatInviteLink"))
  | M6.ChatPromote =>
      plan_fields v ["chat"; "user"; "before"; "can_manage_chat"; "rights"]
      && valid_chat_identity (jget v "chat") && valid_user_identity (jget v "user")
      && valid_member_status (jget v "before") && eq_bool (jget v "can_manage_chat") true
      && valid_closed_array (jget v "rights") kAdminRights 1
  | M6.ChatDemote | M6.ChatBan | M6.ChatUnban | M6.ChatKick =>
      plan_fields v ["chat"; "user"; "before"; "after"] && valid_chat_identity (jget v "chat")
      && valid_user_identity (jget v "user") && valid_member_status (jget v "before")
      && eq_str (jget v "after") (terminal_member_status operation)
  | M6.ChatSetPermissions =>
      plan_fields v ["chat"; "permissions"] && valid_chat_identity (jget v "chat")
      && valid_closed_array (jget v "permissions") kChatPermissions 0
  | M6.StorageOptimize =>
      plan_fields v
        ["size"; "ttl"; "count"; "immunity_delay"; "file_types"; "chat_ids"; "exclude_chat_ids";
         "return_deleted_file_statistics"; "chat_limit"]
      && eq_int (jget v "size") (-1) && eq_int (jget v "ttl") (-1) && eq_int (jget v "count") (-1)
      && eq_int (jget v "immunity_delay") (-1) && empty_list (jget v "file_types")
      && empty_list (jget v "chat_ids") && empty_list (jget v "exclude_chat_ids")
      && eq_bool (jget v "return_deleted_file_statistics") false
      && eq_int (jget v "chat_limit") 100
  | M6.ContactList | M6.ContactSearch | M6.FolderList | M6.FolderShow | M6.TopicList
  | M6.StorageStats => false
  end.

Definition valid_m6_audit_plan (operation : M6.M6Operation) (v : json) (account : string) : bool :=
  match m6_write_policy operation with
  | None => false
  | Some policy => common_plan policy v account && plan_shape operation v
  end.

(** Arguments are the plan without its envelope: they are completed to a
    synthetic plan and validated as such. *)
Definition synthetic_plan (operation : M6.M6Operation) (policy : M6WritePolicy) (v : json) : json :=
  let revoke :=
    eqb operation M6.ChatInviteLink && contains v "action" && eq_str (jget v "action") "revoke" in
  jset (jset (jset v "operation" (JString (audit_name policy))) "account" (JString "main"))
    "tdlib_request"
    (JString (nth (if revoke then 1 else 0)%nat (tdlib_functions policy) EmptyString)).

Definition valid_m6_audit_arguments (operation : M6.M6Operation) (v : json) : bool :=
  match m6_write_policy operation with
  | None => false
  | Some policy =>
      if negb (is_object v) || contains v "operation" || contains v "account"
         || contains v "tdlib_request"
      then false
      else valid_m6_audit_plan operation (synthetic_plan operation policy v) "main"
  end.

(** * Results *)

Definition valid_m6_audit_result (operation : M6.M6Operation) (v : json) : bool :=
  match operation with
  | M6.ContactAdd | M6.ContactRemove =>
      exact_fields v ["user"; "is_contact"] && valid_user_identity (jget v "user")
      && eq_bool (jget v "is_contact") (eqb operation M6.ContactAdd)
  | M6.ContactBlock | M6.ContactUnblock =>
      exact_fields v ["user"; "blocked"] && valid_user_identity (jget v "user")
      && eq_bool (jget v "blocked") (eqb operation M6.ContactBlock)
  | M6.FolderCreate | M6.FolderEdit =>
      exact_fields v ["folder"] && valid_folder_snapshot (jget v "folder")
  | M6.FolderDelete =>
      exact_fields v ["folder_id"; "deleted"] && valid_positive_int32 (jget v "folder_id")
      && eq_bool (jget v "deleted") true
  | M6.FolderAddChat | M6.FolderRemoveChat =>
      exact_fields v ["folder"; "chat"; "included"] && valid_folder_snapshot (jget v "folder")
      && valid_chat_identity (jget v "chat")
      && eq_bool (jget v "included") (eqb operation M6.FolderAddChat)
  | M6.TopicCreate => exact_fields v ["topic"] && valid_topic_info (jget v "topic")
  | M6.TopicEdit =>
      exact_fields v ["chat"; "topic_id"; "name"] && valid_chat_identity (jget v "chat")
      && valid_positive_int32 (jget v "topic_id") && canonical_member TopicName (jget v "name")
  | M6.TopicClose | M6.TopicReopen =>
      exact_fields v ["chat"; "topic_id"; "closed"] && valid_chat_identity (jget v "chat")
      && valid_positive_int32 (jget v "topic_id")
      && eq_bool (jget v "closed") (eqb operation M6.TopicClose)
  | M6.ChatSetTitle =>
      exact_fields v ["chat"; "title"] && valid_chat_identity (jget v "chat")
      && is_string (jget v "title")
  | M6.ChatSetPhoto =>
      exact_fields v ["chat"; "photo"] && valid_chat_identity (jget v "chat")
      && (eq_str (jget v "photo") "set" || eq_str (jget v "photo") "deleted")
  | M6.ChatSetDescription =>
      exact_fields v ["chat"; "description"] && valid_chat_identity (jget v "chat")
      && is_string (jget v "description")
  | M6.ChatInviteLink =>
      exact_fields v ["chat"; "action"; "invite_link"] && valid_chat_identity (jget v "chat")
      && ((eq_str (jget v "action") "create" && valid_string (jget v "invite_link") false)
          || (eq_str (jget v "action") "revoke"
              && (is_null (jget v "invite_link") || valid_string (jget v "invite_link") false)))
  | M6.ChatPromote =>
      exact_fields v ["chat"; "user"; "status"; "can_manage_chat"; "rights"]
      && valid_chat_identity (jget v "chat") && valid_user_identity (jget v "user")
      && eq_str (jget v "status") "administrator" && eq_bool (jget v "can_manage_chat") true
      && valid_closed_array (jget v "rights") kAdminRights 1
  | M6.ChatDemote | M6.ChatBan | M6.ChatUnban | M6.ChatKick =>
      exact_fields v ["chat"; "user"; "status"] && valid_chat_identity (jget v "chat")
      && valid_user_identity (jget v "user")
      && eq_str (jget v "status") (terminal_member_status operation)
  | M6.ChatSetPermissions =>
      exact_fields v ["chat"; "permissions"] && valid_chat_identity (jget v "chat")
      && valid_closed_array (jget v "permissions") kChatPermissions 0
  | M6.StorageOptimize =>
      exact_fields v ["optimized"; "statistics"] && eq_bool (jget v "optimized") true
      && valid_storage_statistics (jget v "statistics")
  | M6.ContactList | M6.ContactSearch | M6.FolderList | M6.FolderShow | M6.TopicList
  | M6.StorageStats => false
  end.

Definition same_member (field : string) (a b : json) : bool :=
  negb (contains a field && contains b field && negb (json_eqb (jget a field) (jget b field))).

Definition m6_result_matches_plan (operation : M6.M6Operation) (result plan : json) : bool :=
  if negb (valid_m6_audit_result operation result) || negb (is_object plan)
     || negb (same_member "chat" result plan) || negb (same_member "user" result plan)
  then false
  else
    match operation with
    | M6.ContactAdd | M6.ContactRemove | M6.ContactBlock | M6.ContactUnblock
    | M6.ChatDemote | M6.ChatBan | M6.ChatUnban | M6.ChatKick => true
    | M6.FolderCreate =>
        let folder := jget result "folder" in
        json_eqb (jget folder "name") (jget plan "name")
        && json_eqb (jget folder "color_id") (jget plan "color_id")
        && (is_null (jget plan "icon") || json_eqb (jget folder "icon") (jget plan "icon"))
        && jempty (jget folder "pinned_chat_ids")
        && json_eqb (jget folder "included_chat_ids") (jget plan "chat_ids")
        && jempty (jget folder "excluded_chat_ids")
    | M6.FolderEdit => json_eqb (jget result "folder") (jget plan "after")
    | M6.FolderDelete => json_eqb (jget result "folder_id") (jget (jget plan "folder") "id")
    | M6.FolderAddChat | M6.FolderRemoveChat =>
        json_eqb (jget result "folder") (jget plan "after")
        && json_eqb (jget result "chat") (jget plan "chat")
    | M6.TopicCreate =>
        json_eqb (jget (jget result "topic") "chat_id") (jget (jget plan "chat") "id")
        && json_eqb (jget (jget result "topic") "name") (jget plan "name")
    | M6.TopicEdit =>
        json_eqb (jget result "topic_id") (jget (jget plan "before") "id")
        && json_eqb (jget result "name") (jget plan "name")
    | M6.TopicClose | M6.TopicReopen =>
        json_eqb (jget result "topic_id") (jget (jget plan "before") "id")
        && json_eqb (jget result "closed") (jget plan "closed")
    | M6.ChatSetTitle => json_eqb (jget result "title") (jget plan "title")
    | M6.ChatSetPhoto =>
        eq_str (jget result "photo") (if eq_bool (jget plan "delete") true then "deleted" else "set")
    | M6.ChatSetDescription => json_eqb (jget result "description") (jget plan "description")
    | M6.ChatInviteLink => json_eqb (jget result "action") (jget plan "action")
    | M6.ChatPromote => json_eqb (jget result "rights") (jget plan "rights")
    | M6.ChatSetPermissions => json_eqb (jget result "permissions") (jget plan "permissions")
    | M6.StorageOptimize => true
    | M6.ContactList | M6.ContactSearch | M6.FolderList | M6.FolderShow | M6.TopicList
    | M6.StorageStats => false
    end.

Definition m6_arguments_match_plan (operation : M6.M6Operation) (arguments plan : json) : bool :=
  if negb (valid_m6_audit_arguments operation arguments) || negb (is_object plan) then false
  else
    json_eqb (jerase (jerase (jerase plan "operation") "account") "tdlib_request") arguments.
