(* ===== verification/AuditSchema.v ===== *)
(** The documents of the account audit log
    (src/src/daemon/account_audit.cpp): scalar validators, arguments, plans,
    results and terminals of every audited operation, and the spool references
    of src/src/daemon/file_spool.cpp.

    All functions are pure predicates on documents.  Where the C++ switches on
    the operation, [default] is the M6 contract. *)
From S2P Require Import Prelude Json Utf8 Paths Operation DestructivePlan M6Domain M6Audit.
Import Audit.

(** * Limits (account_audit_limits.hpp, exit_codes.hpp) *)

Definition kRequestSourceBytes : Z := 16777216 + 65536 - 1.
Definition kChatTitleBytes : Z := 1048576.
Definition kChatUsernameCount : nat := 100.
Definition kSessionStringBytes : Z := 1048576.
Definition kMessageTextScalars : Z := 4096.
Definition kMessageTextBytes : Z := 16384.
Definition kForwardItemCount : nat := 100.
Definition kForwardTerminalBytes : Z := 4194304.
Definition kSingleMessageTerminalBytes : Z := 65536.
Definition kOtherTerminalBytes : Z := 32768.
Definition kM6TerminalBytes : Z := 16842700.
Definition kAuditEnvelopeBytes : Z := 4096.
Definition kIntentJsonBytes : Z := 134217728.
Definition kNonVectorJsonBytes : Z := 65536.
Definition kVectorJsonBytes : Z := kM6TerminalBytes + kAuditEnvelopeBytes.
Definition kMaximumForwardProgressRecords : nat := 101.

Definition kGeneric : Z := 1.
Definition kNotAuthed : Z := 3.
Definition kRateLimited : Z := 5.
Definition kTimeout : Z := 7.

(** * Stages and reasons *)

Inductive AccountAuditStage : Set :=
| IdempotencyPending | SpoolReady | DispatchStarted | TemporaryIdsObserved | ForwardProgress
| MutationConfirmed.

#[export] Instance AccountAuditStage_eq_dec : EqDec AccountAuditStage.
Proof. intros [] []; (left; reflexivity) || (right; discriminate). Defined.

Inductive AccountAuditMutationState : Set := MutationNone | MutationPossible | MutationConfirmedState.

#[export] Instance AccountAuditMutationState_eq_dec : EqDec AccountAuditMutationState.
Proof. intros [] []; (left; reflexivity) || (right; discriminate). Defined.

Inductive AccountAuditDurabilityReason : Set :=
| PathInvalid | WrongOwner | WrongType | WrongMode | WrongLinkCount | TooLarge | CapacityExhausted
| OpenFailed | LockFailed | ReadFailed | WriteFailed | SyncFailed | RenameFailed
| DirectorySyncFailed | ParseError | SchemaError | Contradiction.

#[export] Instance AccountAuditDurabilityReason_eq_dec : EqDec AccountAuditDurabilityReason.
Proof. intros [] []; (left; reflexivity) || (right; discriminate). Defined.

Definition kStages : list (AccountAuditStage * string) :=
  [(IdempotencyPending, "idempotency_pending"); (SpoolReady, "spool_ready");
   (DispatchStarted, "dispatch_started"); (TemporaryIdsObserved, "temporary_ids_observed");
   (ForwardProgress, "forward_progress"); (MutationConfirmed, "mutation_confirmed")].

Definition kDurabilityReasons : list (AccountAuditDurabilityReason * string) :=
  [(PathInvalid, "path_invalid"); (WrongOwner, "wrong_owner"); (WrongType, "wrong_type");
   (WrongMode, "wrong_mode"); (WrongLinkCount, "wrong_link_count"); (TooLarge, "too_large");
   (CapacityExhausted, "capacity_exhausted"); (OpenFailed, "open_failed");
   (LockFailed, "lock_failed"); (ReadFailed, "read_failed"); (WriteFailed, "write_failed");
   (SyncFailed, "sync_failed"); (RenameFailed, "rename_failed");
   (DirectorySyncFailed, "directory_sync_failed"); (ParseError, "parse_error");
   (SchemaError, "schema_error"); (Contradiction, "contradiction")].

Definition account_audit_stage_name (stage : AccountAuditStage) : string :=
  match lookup_by fst kStages stage with Some entry => snd entry | None => EmptyString end.

Definition parse_account_audit_stage (v : string) : option AccountAuditStage :=
  option_map fst (lookup_by snd kStages v).

Definition account_audit_mutation_state_name (state : AccountAuditMutationState) : string :=
  match state with
  | MutationNone => "none"
  | MutationPossible => "possible"
  | MutationConfirmedState => "confirmed"
  end.

Definition account_audit_durability_reason_name (r : AccountAuditDurabilityReason) : string :=
  match lookup_by fst kDurabilityReasons r with Some entry => snd entry | None => EmptyString end.

(** * Scalars *)

Definition utf8_scalar_count (v : string) : option Z :=
  if valid_utf8 v then Some (Z.of_nat (scalars v)) else None.

Definition valid_string (v : json) (maximum : Z) : bool :=
  is_string v && (str_len (get_string v) <=? maximum) && valid_utf8 (get_string v).

Definition json_int64 (v : json) : option Z :=
  match v with
  | JUnsigned n => if i64_max <? n then None else Some n
  | JInteger n => Some n
  | _ => None
  end.

Definition valid_int64 (v : json) : bool := has_value (json_int64 v).

Definition int64_between (low high : Z) (v : json) : bool :=
  match json_int64 v with Some n => (low <=? n) && (n <=? high) | None => false end.

Definition valid_int32 (v : json) : bool := int64_between i32_min i32_max v.
Definition valid_nonnegative_int32 (v : json) : bool := int64_between 0 i32_max v.
Definition valid_positive_int32 (v : json) : bool := int64_between 1 i32_max v.

Definition contains_nul (v : string) : bool := str_contains nul v.

Definition valid_utf8_text (v : json) (maximum_bytes maximum_scalars : Z) (allow_empty : bool) :
    bool :=
  valid_string v maximum_bytes
  && (allow_empty || negb (str_empty (get_string v))) && negb (contains_nul (get_string v))
  && match utf8_scalar_count (get_string v) with
     | Some n => n <=? maximum_scalars
     | None => false
     end.

Definition valid_selector_string (v : json) : bool :=
  valid_string v kRequestSourceBytes && negb (str_empty (get_string v))
  && negb (contains_nul (get_string v)).

Fixpoint ends_with_char (c : ascii) (s : string) : bool :=
  match s with
  | EmptyString => false
  | String d EmptyString => Ascii.eqb d c
  | String _ r => ends_with_char c r
  end.

Definition valid_argument_path (v : json) : bool :=
  valid_string v 4096 && negb (str_empty (get_string v)) && negb (contains_nul (get_string v))
  && negb (ends_with_char "/" (get_string v)).

(** The width and the first bits of a scalar, by the tag of its lead byte. *)
Definition scalar_lead (lead : Z) : nat * Z :=
  if Z.land lead 0xe0 =? 0xc0 then (2%nat, Z.land lead 0x1f)
  else if Z.land lead 0xf0 =? 0xe0 then (3%nat, Z.land lead 0x0f)
  else if Z.land lead 0xf8 =? 0xf0 then (4%nat, Z.land lead 0x07)
  else (1%nat, lead).

(** The loop of [valid_safe_basename]; every iteration drops a byte. *)
Fixpoint no_control_scalar (fuel : nat) (bytes : list Z) : bool :=
  match fuel, bytes with
  | S fuel, first :: rest =>
      let '(width, bits) := scalar_lead first in
      negb (control_scalar (push_continuations (Nat.pred width) bits rest))
      && no_control_scalar fuel (skipn (Nat.pred width) rest)
  | _, _ => true
  end.

Definition valid_safe_basename (v : json) : bool :=
  if negb (valid_string v 255) then false
  else
    let name := get_string v in
    if str_empty name || String.eqb name "." || String.eqb name ".." || str_contains "/" name
    then false
    else no_control_scalar (String.length name) (bytes_of name).

(** The loop of [valid_canonical_absolute_path]: the components after the
    leading separator, the last of which is [basename]. *)
Fixpoint canonical_components (basename : string) (components : list string) : bool :=
  match components with
  | [] => false
  | component :: rest =>
      if str_empty component || String.eqb component "." || String.eqb component ".." then false
      else
        match rest with
        | [] => String.eqb component basename
        | _ => canonical_components basename rest
        end
  end.

Definition valid_canonical_absolute_path (v : json) (basename : string) : bool :=
  if negb (valid_string v 4096) then false
  else
    let path := get_string v in
    if (str_len path <? 2) || negb (starts_with path "/") || ends_with_char "/" path
       || contains_nul path
    then false
    else canonical_components basename (FsPath.segments (str_drop 1 path)).

Definition valid_hex (v : string) (size : Z) : bool :=
  (str_len v =? size) && str_all is_lower_hex v.

Definition valid_hash (v : json) : bool :=
  is_string v && starts_with (get_string v) "sha256:" && valid_hex (str_drop 7 (get_string v)) 64.

(** * Dates *)

Definition leap_year (y : Z) : bool :=
  (y mod 4 =? 0) && (negb (y mod 100 =? 0) || (y mod 400 =? 0)).

Definition days_in_month (y m : Z) : Z :=
  if m =? 2 then (if leap_year y then 29 else 28)
  else if (m =? 4) || (m =? 6) || (m =? 9) || (m =? 11) then 30 else 31.

(** [std::chrono::year_month_day::ok] and [std::chrono::sys_days] on the
    proleptic Gregorian calendar. *)
Definition date_ok (y m d : Z) : bool :=
  (1 <=? m) && (m <=? 12) && (1 <=? d) && (d <=? days_in_month y m).

Definition days_before_year (y : Z) : Z :=
  let n := y - 1 in 365 * n + n / 4 - n / 100 + n / 400.

Definition days_before_month (y m : Z) : Z :=
  fold_left (fun acc k => acc + days_in_month y k) (map Z.of_nat (seq 1 (Z.to_nat (m - 1)))) 0.

Definition sys_days (y m d : Z) : Z :=
  days_before_year y - days_before_year 1970 + days_before_month y m + (d - 1).

Definition char_at (s : string) (n : nat) : ascii :=
  match String.get n s with Some c => c | None => nul end.

Definition digit_at (s : string) (n : nat) : Z := byte_of (char_at s n) - byte_of "0".

Definition two_digits (s : string) (n : nat) : Z := digit_at s n * 10 + digit_at s (S n).

Definition timestamp_unix_seconds (v : json) : option Z :=
  if negb (is_string v) then None
  else
    let text := get_string v in
    let at_is n c := Ascii.eqb (char_at text n) c in
    let digits begin count :=
      forallb (fun n => is_digit (char_at text n)) (seq begin count) in
    if negb (str_len text =? 20) || negb (at_is 4%nat "-"%char) || negb (at_is 7%nat "-"%char)
       || negb (at_is 10%nat "T"%char) || negb (at_is 13%nat ":"%char)
       || negb (at_is 16%nat ":"%char) || negb (at_is 19%nat "Z"%char)
    then None
    else if negb (digits 0%nat 4%nat && digits 5%nat 2%nat && digits 8%nat 2%nat
                  && digits 11%nat 2%nat && digits 14%nat 2%nat && digits 17%nat 2%nat)
    then None
    else
      let year := two_digits text 0 * 100 + two_digits text 2 in
      let month := two_digits text 5 in
      let day := two_digits text 8 in
      if (year <? 1970) || negb (date_ok year month day) || (23 <? two_digits text 11)
         || (59 <? two_digits text 14) || (59 <? two_digits text 17)
      then None
      else
        Some (sys_days year month day * 86400 + two_digits text 11 * 3600
              + two_digits text 14 * 60 + two_digits text 17).

Definition valid_timestamp (v : json) : bool := has_value (timestamp_unix_seconds v).

Definition valid_session_timestamp (v : json) : bool :=
  match timestamp_unix_seconds v with
  | Some seconds => (1 <=? seconds) && (seconds <=? i32_max)
  | None => false
  end.

(** * Identifiers *)

Definition valid_int53 (v : json) (positive : bool) : bool :=
  int64_between (if positive then 1 else - int53_max) int53_max v.

Definition valid_message_id (v : json) : bool :=
  match json_int64 v with Some n => negb (n =? 0) && valid_int53 v false | None => false end.

(** The loop with the set [unique]. *)
Fixpoint unique_message_ids (unique : list Z) (items : list json) : bool :=
  match items with
  | [] => true
  | item :: rest =>
      match json_int64 item with
      | Some n =>
          valid_message_id item && negb (existsb (Z.eqb n) unique)
          && unique_message_ids (n :: unique) rest
      | None => false
      end
  end.

Definition sized_array (v : json) (minimum maximum : nat) : bool :=
  is_array v && Nat.leb minimum (jsize v) && Nat.leb (jsize v) maximum.

Definition valid_message_id_array (v : json) (minimum maximum : nat) : bool :=
  sized_array v minimum maximum && unique_message_ids [] (elements v).

Fixpoint strict_message_ids (previous : option Z) (items : list json) : bool :=
  match items with
  | [] => true
  | item :: rest =>
      match json_int64 item with
      | Some n =>
          valid_message_id item
          && negb (match previous with Some p => n <=? p | None => false end)
          && strict_message_ids (Some n) rest
      | None => false
      end
  end.

Definition valid_strict_message_id_array (v : json) : bool :=
  sized_array v 1 100 && strict_message_ids None (elements v).

Definition valid_mute_duration (v : json) : bool :=
  match json_int64 v with
  | Some n => ((1 <=? n) && (n <=? 31622400)) || (n =? i32_max)
  | None => false
  end.

Definition is_int64_zero (v : json) : bool :=
  match json_int64 v with Some n => n =? 0 | None => false end.

Definition valid_session_id (v : json) : bool :=
  if negb (is_string v) then false
  else
    let text := get_string v in
    if str_empty text || String.eqb text "-0" || starts_with text "+"
       || ((1 <? str_len text) && starts_with text "0")
       || ((2 <? str_len text) && starts_with text "-0")
    then false
    else has_value (from_chars_i64 text).

Definition chat_types : list string := ["private"; "basic_group"; "supergroup"; "channel"].

Definition valid_chat_identity (v : json) : bool :=
  exact_fields v ["id"; "title"; "type"; "is_bot"; "usernames"]
  && valid_int53 (jget v "id") false && valid_string (jget v "title") kChatTitleBytes
  && is_string (jget v "type") && is_boolean (jget v "is_bot") && is_array (jget v "usernames")
  && Nat.leb (jsize (jget v "usernames")) kChatUsernameCount
  && (let type := get_string (jget v "type") in
      str_in type chat_types
      && negb (eq_int (jget v "id") 0 || (negb (String.eqb type "private") && eq_bool (jget v "is_bot") true))
      && forallb valid_username (elements (jget v "usernames"))).

Definition valid_topic (v : json) (kind : string) (int32_only : bool) : bool :=
  is_null v
  || (exact_fields v ["kind"; "id"] && eq_str (jget v "kind") kind && valid_int53 (jget v "id") true
      && (negb int32_only || (get_i64 (jget v "id") <=? i32_max))).

Definition valid_schedule (v : json) : bool :=
  is_null v
  || (is_object v && contains v "kind" && is_string (jget v "kind")
      && (if eq_str (jget v "kind") "online" then exact_fields v ["kind"]
          else
            eq_str (jget v "kind") "at" && exact_fields v ["kind"; "send_date"]
            && valid_positive_int32 (jget v "send_date"))).

Definition valid_file_snapshot (v : json) : bool :=
  exact_fields v file_snapshot_fields && valid_safe_basename (jget v "name")
  && valid_canonical_absolute_path (jget v "path") (get_string (jget v "name"))
  && is_number_unsigned (jget v "size") && valid_hash (jget v "sha256")
  && is_number_unsigned (jget v "device") && is_number_unsigned (jget v "inode")
  && valid_int64 (jget v "mtime_ns") && valid_int64 (jget v "ctime_ns").

Definition valid_schedule_plan (schedule observed_server_unix_time : json) : bool :=
  if negb (valid_schedule schedule) then false
  else if is_null schedule || eq_str (jget schedule "kind") "online" then
    is_null observed_server_unix_time
  else
    match json_int64 (jget schedule "send_date"), json_int64 observed_server_unix_time with
    | Some send_date, Some server_now =>
        (server_now <=? send_date - 11) && (send_date - 367 * 86400 <=? server_now)
    | _, _ => false
    end.

(** * Arguments *)

Definition valid_parse_mode (v : json) : bool :=
  eq_str v "plain" || eq_str v "markdown_v2" || eq_str v "html".

Definition nullable (valid : json -> bool) (v : json) : bool := is_null v || valid v.

Definition valid_message_text (v : json) : bool :=
  valid_utf8_text v kMessageTextBytes kMessageTextScalars false.

Definition valid_reaction (v : json) : bool := valid_utf8_text v 64 64 false.
Definition valid_caption (v : json) : bool := valid_utf8_text v 4096 1024 true.

Definition remove_or_big (v : json) : bool :=
  is_boolean (jget v "remove") && is_boolean (jget v "big")
  && negb (eq_bool (jget v "remove") true && eq_bool (jget v "big") true).

Definition valid_duration (operation : AccountAuditOperation) (v : json) : bool :=
  if eqb operation ChatMute then valid_mute_duration v else is_int64_zero v.

Definition valid_arguments (operation : AccountAuditOperation) (v : json) : bool :=
  match operation with
  | Send =>
      exact_fields v ["chat"; "text"; "parse_mode"; "reply_to"; "topic"; "silent"; "schedule"]
      && valid_selector_string (jget v "chat") && valid_message_text (jget v "text")
      && valid_parse_mode (jget v "parse_mode") && nullable valid_message_id (jget v "reply_to")
      && valid_topic (jget v "topic") "forum" true && is_boolean (jget v "silent")
      && valid_schedule (jget v "schedule")
  | MsgEdit =>
      exact_fields v ["chat"; "message_id"; "text"] && valid_selector_string (jget v "chat")
      && valid_message_id (jget v "message_id") && valid_message_text (jget v "text")
  | MsgDelete =>
      exact_fields v ["chat"; "message_ids"; "for_all"] && valid_selector_string (jget v "chat")
      && valid_strict_message_id_array (jget v "message_ids") && is_boolean (jget v "for_all")
  | MsgForward =>
      exact_fields v ["from"; "to"; "message_ids"; "drop_author"]
      && valid_selector_string (jget v "from") && valid_selector_string (jget v "to")
      && valid_strict_message_id_array (jget v "message_ids") && is_boolean (jget v "drop_author")
  | MsgReact =>
      exact_fields v ["chat"; "message_id"; "reaction"; "remove"; "big"]
      && valid_selector_string (jget v "chat") && valid_message_id (jget v "message_id")
      && valid_reaction (jget v "reaction") && remove_or_big v
  | MsgPin | MsgUnpin =>
      exact_fields v ["chat"; "message_id"] && valid_selector_string (jget v "chat")
      && valid_message_id (jget v "message_id")
  | ChatMarkRead | ChatPin | ChatUnpin | ChatArchive | ChatUnarchive | ChatLeave =>
      exact_fields v ["chat"] && valid_selector_string (jget v "chat")
  | ChatMute | ChatUnmute =>
      exact_fields v ["chat"; "duration_seconds"] && valid_selector_string (jget v "chat")
      && valid_duration operation (jget v "duration_seconds")
  | ChatJoin =>
      if exact_fields v ["source"; "username"] then
        eq_str (jget v "source") "username" && valid_selector_string (jget v "username")
      else
        exact_fields v ["source"; "invite_link_sha256"] && eq_str (jget v "source") "invite_link"
        && valid_hash (jget v "invite_link_sha256")
  | SavedAttach =>
      exact_fields v ["message_id"; "path"; "caption"] && valid_message_id (jget v "message_id")
      && valid_argument_path (jget v "path") && valid_caption (jget v "caption")
  | SessionTerminate => exact_fields v ["session_id"] && valid_session_id (jget v "session_id")
  | _ =>
      match m6_operation_for_audit operation with
      | Some m6 => valid_m6_audit_arguments m6 v
      | None => false
      end
  end.

Definition expected_tdlib_functions (operation : AccountAuditOperation) : list string :=
  match operation with
  | Send | SavedAttach => ["sendMessage"]
  | MsgEdit => ["editMessageText"]
  | MsgDelete => ["deleteMessages"]
  | MsgForward => ["forwardMessages"]
  | MsgReact => ["addMessageReaction"; "removeMessageReaction"]
  | MsgPin => ["pinChatMessage"]
  | MsgUnpin => ["unpinChatMessage"]
  | ChatMarkRead => ["viewMessages"; EmptyString]
  | ChatMute | ChatUnmute => ["setChatNotificationSettings"]
  | ChatPin | ChatUnpin => ["toggleChatIsPinned"]
  | ChatArchive | ChatUnarchive => ["addChatToList"]
  | ChatJoin => ["joinChat"; "joinChatByInviteLink"]
  | ChatLeave => ["leaveChat"]
  | SessionTerminate => ["terminateSession"]
  | _ =>
      match m6_operation_for_audit operation with
      | None => []
      | Some m6 =>
          match m6_write_policy m6 with
          | None => []
          | Some policy => firstn (tdlib_function_count policy) (tdlib_functions policy)
          end
      end
  end.

(** * Plans *)

Definition valid_session_target (v : json) : bool :=
  exact_fields v
    ["id"; "is_current"; "is_password_pending"; "is_unconfirmed"; "device_type";
     "application_name"; "application_version"; "device_model"; "platform"; "system_version";
     "last_active_date"]
  && valid_session_id (jget v "id") && eq_bool (jget v "is_current") false
  && is_boolean (jget v "is_password_pending") && is_boolean (jget v "is_unconfirmed")
  && is_string (jget v "device_type")
  && valid_string (jget v "application_name") kSessionStringBytes
  && valid_string (jget v "application_version") kSessionStringBytes
  && valid_string (jget v "device_model") kSessionStringBytes
  && valid_string (jget v "platform") kSessionStringBytes
  && valid_string (jget v "system_version") kSessionStringBytes
  && str_in (get_string (jget v "device_type")) device_types
  && nullable valid_session_timestamp (jget v "last_active_date").

Definition is_group_type (v : json) : bool := eq_str v "supergroup" || eq_str v "channel".

(** The envelope every plan starts with. *)
Definition plan_envelope (operation : AccountAuditOperation) (v : json) (account : string) : bool :=
  is_object v && contains v "operation"
  && eq_str (jget v "operation") (account_audit_operation_name operation)
  && contains v "account" && eq_str (jget v "account") account && contains v "tdlib_request"
  && (let functions := expected_tdlib_functions operation in
      if is_null (jget v "tdlib_request") then str_in EmptyString functions
      else
        is_string (jget v "tdlib_request")
        && str_in (get_string (jget v "tdlib_request")) functions).

Definition plan_body (operation : AccountAuditOperation) (v : json) (account : string) : bool :=
  match operation with
  | Send =>
      plan_fields v
        ["chat"; "text"; "parse_mode"; "reply_to"; "requested_topic"; "effective_topic"; "silent";
         "schedule"; "observed_server_unix_time"]
      && valid_chat_identity (jget v "chat") && valid_message_text (jget v "text")
      && valid_parse_mode (jget v "parse_mode") && nullable valid_message_id (jget v "reply_to")
      && valid_topic (jget v "requested_topic") "forum" true
      && valid_topic (jget v "effective_topic") "forum" true && is_boolean (jget v "silent")
      && valid_schedule_plan (jget v "schedule") (jget v "observed_server_unix_time")
  | MsgEdit =>
      plan_fields v ["chat"; "message_id"; "text"] && valid_chat_identity (jget v "chat")
      && valid_message_id (jget v "message_id") && valid_message_text (jget v "text")
  | MsgDelete =>
      plan_fields v ["chat"; "message_ids"; "requested_for_all"; "effective_for_all"]
      && valid_chat_identity (jget v "chat")
      && valid_strict_message_id_array (jget v "message_ids")
      && is_boolean (jget v "requested_for_all") && is_boolean (jget v "effective_for_all")
      && (if is_group_type (jget (jget v "chat") "type") then
            eq_bool (jget v "requested_for_all") true && eq_bool (jget v "effective_for_all") true
          else json_eqb (jget v "effective_for_all") (jget v "requested_for_all"))
  | MsgForward =>
      plan_fields v ["from"; "to"; "message_ids"; "drop_author"]
      && valid_chat_identity (jget v "from") && valid_chat_identity (jget v "to")
      && valid_strict_message_id_array (jget v "message_ids") && is_boolean (jget v "drop_author")
  | MsgReact =>
      plan_fields v ["chat"; "message_id"; "reaction"; "remove"; "big"]
      && valid_chat_identity (jget v "chat") && valid_message_id (jget v "message_id")
      && valid_reaction (jget v "reaction") && remove_or_big v
      && eq_str (jget v "tdlib_request")
           (if eq_bool (jget v "remove") true then "removeMessageReaction"
            else "addMessageReaction")
  | MsgPin | MsgUnpin =>
      plan_fields v ["chat"; "message_id"; "pinned"] && valid_chat_identity (jget v "chat")
      && valid_message_id (jget v "message_id") && is_boolean (jget v "pinned")
  | ChatMarkRead =>
      plan_fields v ["chat"; "last_message_id"] && valid_chat_identity (jget v "chat")
      && nullable valid_message_id (jget v "last_message_id")
      && (if is_null (jget v "last_message_id") then is_null (jget v "tdlib_request")
          else eq_str (jget v "tdlib_request") "viewMessages")
  | ChatMute | ChatUnmute =>
      plan_fields v ["chat"; "muted"; "duration_seconds"] && valid_chat_identity (jget v "chat")
      && is_boolean (jget v "muted") && eq_bool (jget v "muted") (eqb operation ChatMute)
      && valid_duration operation (jget v "duration_seconds")
  | ChatPin | ChatUnpin =>
      plan_fields v ["chat"; "chat_list"; "pinned"] && valid_chat_identity (jget v "chat")
      && (eq_str (jget v "chat_list") "main" || eq_str (jget v "chat_list") "archive")
      && is_boolean (jget v "pinned")
  | ChatArchive | ChatUnarchive =>
      plan_fields v ["chat"; "archived"] && valid_chat_identity (jget v "chat")
      && is_boolean (jget v "archived")
  | ChatJoin =>
      plan_fields v ["source"; "chat"; "invite_link_sha256"]
      && (if eq_str (jget v "source") "username" then
            eq_str (jget v "tdlib_request") "joinChat" && valid_chat_identity (jget v "chat")
            && is_null (jget v "invite_link_sha256")
          else
            eq_str (jget v "source") "invite_link"
            && eq_str (jget v "tdlib_request") "joinChatByInviteLink"
            && nullable valid_chat_identity (jget v "chat")
            && valid_hash (jget v "invite_link_sha256"))
  | ChatLeave =>
      plan_fields v ["chat"] && valid_chat_identity (jget v "chat")
      && negb (eq_str (jget (jget v "chat") "type") "private")
  | SavedAttach =>
      plan_fields v ["chat"; "message_id"; "effective_topic"; "caption"; "file"]
      && valid_chat_identity (jget v "chat") && valid_message_id (jget v "message_id")
      && valid_topic (jget v "effective_topic") "saved" false && valid_caption (jget v "caption")
      && valid_file_snapshot (jget v "file")
  | SessionTerminate =>
      plan_fields v ["session"] && valid_session_target (jget v "session")
  | _ =>
      match m6_operation_for_audit operation with
      | Some m6 => valid_m6_audit_plan m6 v account
      | None => false
      end
  end.

Definition valid_plan (operation : AccountAuditOperation) (v : json) (account : string) : bool :=
  plan_envelope operation v account && plan_body operation v account.

Definition same (field : string) (a b : json) : bool := json_eqb (jget a field) (jget b field).

Definition arguments_match_plan (operation : AccountAuditOperation) (arguments plan : json) :
    bool :=
  match operation with
  | Send =>
      same "text" arguments plan && same "parse_mode" arguments plan
      && same "reply_to" arguments plan
      && json_eqb (jget arguments "topic") (jget plan "requested_topic")
      && same "silent" arguments plan && same "schedule" arguments plan
  | MsgEdit => same "message_id" arguments plan && same "text" arguments plan
  | MsgDelete =>
      same "message_ids" arguments plan
      && json_eqb (jget arguments "for_all") (jget plan "requested_for_all")
  | MsgForward => same "message_ids" arguments plan && same "drop_author" arguments plan
  | MsgReact =>
      same "message_id" arguments plan && same "reaction" arguments plan
      && same "remove" arguments plan && same "big" arguments plan
  | MsgPin | MsgUnpin =>
      same "message_id" arguments plan && eq_bool (jget plan "pinned") (eqb operation MsgPin)
  | ChatMute | ChatUnmute =>
      same "duration_seconds" arguments plan
      && eq_bool (jget plan "muted") (eqb operation ChatMute)
  | ChatPin | ChatUnpin => eq_bool (jget plan "pinned") (eqb operation ChatPin)
  | ChatArchive | ChatUnarchive => eq_bool (jget plan "archived") (eqb operation ChatArchive)
  | ChatJoin =>
      same "source" arguments plan
      && (if eq_str (jget arguments "source") "username" then
            eq_str (jget plan "tdlib_request") "joinChat" && is_object (jget plan "chat")
            && is_null (jget plan "invite_link_sha256")
          else
            eq_str (jget plan "tdlib_request") "joinChatByInviteLink"
            && same "invite_link_sha256" plan arguments)
  | SavedAttach => same "message_id" arguments plan && same "caption" arguments plan
  | SessionTerminate => json_eqb (jget arguments "session_id") (jget (jget plan "session") "id")
  | ChatMarkRead | ChatLeave => true
  | _ =>
      match m6_operation_for_audit operation with
      | Some m6 => m6_arguments_match_plan m6 arguments plan
      | None => false
      end
  end.

(** * Results *)

Definition valid_message_topic (v : json) : bool :=
  is_null v
  || (exact_fields v ["kind"; "id"] && is_string (jget v "kind")
      && (let kind := get_string (jget v "kind") in
          str_in kind ["forum"; "thread"; "direct"; "saved"] && valid_int53 (jget v "id") true
          && (negb (String.eqb kind "forum") || (get_i64 (jget v "id") <=? i32_max)))).

Definition nonzero_int53 (v : json) : bool := valid_int53 v false && negb (eq_int v 0).

Definition valid_sender (v : json) : bool :=
  is_object v && exact_fields v ["type"; "id"] && is_string (jget v "type")
  && (if eq_str (jget v "type") "user" then valid_int53 (jget v "id") true
      else eq_str (jget v "type") "chat" && nonzero_int53 (jget v "id")).

Definition valid_message_write_result (v : json) : bool :=
  exact_fields v
    ["id"; "chat_id"; "date"; "sender"; "is_outgoing"; "topic"; "type"; "text"; "scheduled"]
  && valid_message_id (jget v "id") && nonzero_int53 (jget v "chat_id")
  && is_boolean (jget v "is_outgoing") && valid_message_topic (jget v "topic")
  && is_string (jget v "type") && valid_string (jget v "text") kMessageTextBytes
  && is_boolean (jget v "scheduled")
  && str_in (get_string (jget v "type")) ["text"; "photo"; "video"; "doc"; "voice"; "other"]
  && match utf8_scalar_count (get_string (jget v "text")) with
     | Some n => n <=? kMessageTextScalars
     | None => false
     end
  && Bool.eqb (is_null (jget v "date")) (get_bool (jget v "scheduled"))
  && nullable valid_timestamp (jget v "date") && valid_sender (jget v "sender").

Definition valid_forward_item (v : json) : bool :=
  is_object v && contains v "source_id" && valid_message_id (jget v "source_id")
  && contains v "status" && is_string (jget v "status")
  && (if eq_str (jget v "status") "pending" then
        exact_fields v ["source_id"; "status"; "temporary_message_id"]
        && valid_message_id (jget v "temporary_message_id")
      else if eq_str (jget v "status") "sent" then
        exact_fields v ["source_id"; "status"; "message"]
        && valid_message_write_result (jget v "message")
      else
        eq_str (jget v "status") "failed"
        && exact_fields v ["source_id"; "status"; "failure_reason"; "tdlib_code"; "retry_after"]
        && is_string (jget v "failure_reason")
        && (let reason := get_string (jget v "failure_reason") in
            str_in reason ["upstream_null"; "tdlib_error"; "deleted_before_confirmation"]
            && nullable valid_int32 (jget v "tdlib_code")
            && nullable valid_nonnegative_int32 (jget v "retry_after")
            && (if negb (String.eqb reason "tdlib_error") then
                  is_null (jget v "tdlib_code") && is_null (jget v "retry_after")
                else
                  negb (is_null (jget v "tdlib_code"))
                  && (if eq_int (jget v "tdlib_code") 429 then negb (is_null (jget v "retry_after"))
                      else is_null (jget v "retry_after"))))).

Definition status_is (status : string) (item : json) : bool := eq_str (jget item "status") status.

(** The loop over the items of a forward result. *)
Fixpoint sent_items (previous : option Z) (items : list json) : bool :=
  match items with
  | [] => true
  | item :: rest =>
      valid_forward_item item && status_is "sent" item
      && match json_int64 (jget item "source_id") with
         | None => false
         | Some source =>
             negb (match previous with Some p => source <=? p | None => false end)
             && sent_items (Some source) rest
         end
  end.

Definition valid_result_data (operation : AccountAuditOperation) (v : json) : bool :=
  match operation with
  | Send | MsgEdit | SavedAttach => valid_message_write_result v
  | MsgDelete =>
      exact_fields v ["chat_id"; "message_ids"; "for_all"; "deleted"]
      && nonzero_int53 (jget v "chat_id") && valid_strict_message_id_array (jget v "message_ids")
      && is_boolean (jget v "for_all") && eq_bool (jget v "deleted") true
  | MsgForward =>
      exact_fields v ["from_chat_id"; "to_chat_id"; "items"]
      && nonzero_int53 (jget v "from_chat_id") && nonzero_int53 (jget v "to_chat_id")
      && sized_array (jget v "items") 1 kForwardItemCount
      && sent_items None (elements (jget v "items"))
  | MsgReact =>
      exact_fields v ["chat_id"; "message_id"; "reaction"; "removed"; "big"]
      && nonzero_int53 (jget v "chat_id") && valid_message_id (jget v "message_id")
      && valid_reaction (jget v "reaction") && is_boolean (jget v "removed")
      && is_boolean (jget v "big")
  | MsgPin | MsgUnpin =>
      exact_fields v ["chat_id"; "message_id"; "pinned"] && nonzero_int53 (jget v "chat_id")
      && valid_message_id (jget v "message_id") && eq_bool (jget v "pinned") (eqb operation MsgPin)
  | ChatMarkRead =>
      exact_fields v ["chat_id"; "last_read_message_id"; "marked_read"]
      && nonzero_int53 (jget v "chat_id")
      && nullable valid_message_id (jget v "last_read_message_id")
      && eq_bool (jget v "marked_read") true
  | ChatMute | ChatUnmute =>
      exact_fields v ["chat_id"; "muted"; "duration_seconds"] && nonzero_int53 (jget v "chat_id")
      && eq_bool (jget v "muted") (eqb operation ChatMute)
      && valid_duration operation (jget v "duration_seconds")
  | ChatPin | ChatUnpin =>
      exact_fields v ["chat_id"; "chat_list"; "pinned"] && nonzero_int53 (jget v "chat_id")
      && (eq_str (jget v "chat_list") "main" || eq_str (jget v "chat_list") "archive")
      && eq_bool (jget v "pinned") (eqb operation ChatPin)
  | ChatArchive | ChatUnarchive =>
      exact_fields v ["chat_id"; "archived"] && nonzero_int53 (jget v "chat_id")
      && eq_bool (jget v "archived") (eqb operation ChatArchive)
  | ChatJoin =>
      exact_fields v ["status"; "chat_id"]
      && (if eq_str (jget v "status") "joined" then nonzero_int53 (jget v "chat_id")
          else eq_str (jget v "status") "request_sent" && nullable nonzero_int53 (jget v "chat_id"))
  | ChatLeave =>
      exact_fields v ["chat_id"; "left"] && nonzero_int53 (jget v "chat_id")
      && eq_bool (jget v "left") true
  | SessionTerminate =>
      exact_fields v ["session_id"; "terminated"] && valid_session_id (jget v "session_id")
      && eq_bool (jget v "terminated") true
  | _ =>
      match m6_operation_for_audit operation with
      | Some m6 => valid_m6_audit_result m6 v
      | None => false
      end
  end.

(** * Bounded document trees

    The explicit stack of [valid_json_tree]: [pending] is the vector with its
    back first, [remaining] is [16384 - nodes]. *)

Definition kMaximumTreeNodes : Z := 16384.
Definition kMaximumTreeDepth : Z := 32.

Definition tree_string (s : string) : bool :=
  (str_len s <=? kRequestSourceBytes) && valid_utf8 s && negb (contains_nul s).

Definition tree_key (key : string) : bool :=
  valid_utf8 key && negb (contains_nul key) && negb (String.eqb key "idempotency_key")
  && negb (String.eqb key "invite").

Fixpoint tree_loop (remaining : nat) (pending : list (json * Z)) : bool :=
  match pending with
  | [] => true
  | (current, depth) :: rest =>
      if kMaximumTreeDepth <? depth then false
      else
        match remaining with
        | O => false
        | S remaining =>
            match current with
            | JString s => tree_string s && tree_loop remaining rest
            | JArray l =>
                tree_loop remaining (rev (map (fun item => (item, depth + 1)) l) ++ rest)
            | JObject m =>
                forallb (fun kv => tree_key (fst kv)) m
                && tree_loop remaining (rev (map (fun kv => (snd kv, depth + 1)) m) ++ rest)
            | _ => tree_loop remaining rest
            end
        end
  end.

Definition valid_json_tree (v : json) : bool :=
  tree_loop (Z.to_nat kMaximumTreeNodes) [(v, 0)].

(** * Errors stored as terminals *)

Definition auth_states : list string :=
  ["unknown"; "wait_tdlib_parameters"; "wait_phone_number"; "wait_premium_purchase";
   "wait_email_address"; "wait_email_code"; "wait_code"; "wait_other_device_confirmation";
   "wait_registration"; "wait_password"; "ready"; "logging_out"; "closing"; "closed"].

Definition valid_auth_state (v : json) (allow_null : bool) : bool :=
  (allow_null && is_null v) || (is_string v && str_in (get_string v) auth_states).

Definition valid_operation_field (operation : AccountAuditOperation) (details : json) : bool :=
  contains details "operation" && is_string (jget details "operation")
  && eq_str (jget details "operation") (account_audit_operation_name operation).

(** The loop of [valid_forward_items]: [previous] and the two sets. *)
Fixpoint forward_items_loop (require_terminal : bool) (previous : option Z)
    (temporary_ids final_ids : list Z) (items : list json) : bool :=
  match items with
  | [] => true
  | item :: rest =>
      valid_forward_item item
      && match json_int64 (jget item "source_id") with
         | None => false
         | Some source =>
             if match previous with Some p => source <=? p | None => false end
                || (require_terminal && status_is "pending" item)
             then false
             else if status_is "pending" item then
               match json_int64 (jget item "temporary_message_id") with
               | None => false
               | Some temporary =>
                   negb (existsb (Z.eqb temporary) temporary_ids)
                   && forward_items_loop require_terminal (Some source)
                        (temporary :: temporary_ids) final_ids rest
               end
             else if status_is "sent" item then
               match json_int64 (jget (jget item "message") "id") with
               | None => false
               | Some final_id =>
                   negb (existsb (Z.eqb final_id) final_ids)
                   && forward_items_loop require_terminal (Some source) temporary_ids
                        (final_id :: final_ids) rest
               end
             else forward_items_loop require_terminal (Some source) temporary_ids final_ids rest
         end
  end.

Definition valid_forward_items (items : json) (allow_empty require_terminal : bool) : bool :=
  is_array items && (allow_empty || negb (jempty items))
  && Nat.leb (jsize items) kForwardItemCount
  && forward_items_loop require_terminal None [] [] (elements items).

Definition valid_forward_timeout_items (items : json) : bool :=
  valid_forward_items items true false
  && (jempty items || existsb (status_is "pending") (elements items)).

Definition single_send (operation : AccountAuditOperation) : bool :=
  eqb operation Send || eqb operation SavedAttach.

(** Send, attach and forward report temporary ids. *)
Definition reports_temporary (operation : AccountAuditOperation) : bool :=
  single_send operation || eqb operation MsgForward.

Definition uses_spool (operation : AccountAuditOperation) : bool :=
  eqb operation SavedAttach || WriteOp.uses_photo_spool (WriteOp.of_audit operation).

(** The vector [complete] of one combination of the four flags. *)
Definition complete_stages (operation : AccountAuditOperation)
    (keyed temporary progress mutation_proof : bool) : list AccountAuditStage :=
  let w := WriteOp.of_audit operation in
  (if keyed && WriteOp.idempotent w then [IdempotencyPending] else [])
  ++ (if eqb operation SavedAttach || (WriteOp.uses_photo_spool w && temporary)
      then [SpoolReady] else [])
  ++ [DispatchStarted]
  ++ (if temporary && reports_temporary operation then [TemporaryIdsObserved] else [])
  ++ (if progress && eqb operation MsgForward then [ForwardProgress] else [])
  ++ (if mutation_proof then [MutationConfirmed] else []).

Fixpoint is_prefix (l complete : list AccountAuditStage) : bool :=
  match l, complete with
  | [], _ => true
  | x :: l', y :: complete' => eqb x y && is_prefix l' complete'
  | _ :: _, [] => false
  end.

Definition legal_completed_stages (operation : AccountAuditOperation)
    (completed : list AccountAuditStage) : bool :=
  match completed with
  | [] => true
  | _ =>
      existsb (fun keyed => existsb (fun temporary => existsb (fun progress =>
        existsb (fun mutation_proof =>
          is_prefix completed (complete_stages operation keyed temporary progress mutation_proof))
        [false; true]) [false; true]) [false; true]) [false; true]
  end.

(** The loop over [completed_stages]: the stages in order, [None] for an
    item that is no stage or a repeated one. *)
Fixpoint parse_stages (seen : list AccountAuditStage) (items : list json) :
    option (list AccountAuditStage) :=
  match items with
  | [] => Some []
  | item :: rest =>
      if negb (is_string item) then None
      else
        match parse_account_audit_stage (get_string item) with
        | None => None
        | Some stage =>
            if existsb (eqb stage) seen then None
            else option_map (cons stage) (parse_stages (stage :: seen) rest)
        end
  end.

Definition has_stage (stage : AccountAuditStage) (l : list AccountAuditStage) : bool :=
  existsb (eqb stage) l.

Definition mutation_names : list string := ["none"; "possible"; "confirmed"].

Definition valid_audit_incomplete_details (operation : AccountAuditOperation) (details : json) :
    bool :=
  exact_fields details ["account"; "path"; "mutation_state"; "completed_stages"]
  && is_string (jget details "account") && valid_account_name (get_string (jget details "account"))
  && valid_selector_string (jget details "path") && is_string (jget details "mutation_state")
  && is_array (jget details "completed_stages")
  && (let mutation := get_string (jget details "mutation_state") in
      str_in mutation mutation_names
      && match parse_stages [] (elements (jget details "completed_stages")) with
         | None => false
         | Some completed =>
             legal_completed_stages operation completed
             && (if negb (has_stage DispatchStarted completed) then String.eqb mutation "none"
                 else if has_stage MutationConfirmed completed then String.eqb mutation "confirmed"
                 else if has_stage ForwardProgress completed then true
                 else String.eqb mutation "possible")
         end).

Definition timeout_fields : list string := ["operation"; "phase"; "state"; "outcome"; "idempotency"].

Definition valid_timeout_details (operation : AccountAuditOperation) (details : json) : bool :=
  if eqb operation SessionTerminate then
    exact_fields details timeout_fields && valid_operation_field operation details
    && valid_auth_state (jget details "state") true
    && (eq_str (jget details "phase") "preflight" || eq_str (jget details "phase") "dispatch")
    && eq_str (jget details "outcome")
         (if eq_str (jget details "phase") "preflight" then "not_started" else "unknown")
    && eq_str (jget details "idempotency") "not_requested"
  else if negb (valid_operation_field operation details && contains details "phase"
                && is_string (jget details "phase") && contains details "state"
                && valid_auth_state (jget details "state") true && contains details "outcome"
                && is_string (jget details "outcome") && contains details "idempotency"
                && is_string (jget details "idempotency"))
  then false
  else
    let idempotency := get_string (jget details "idempotency") in
    if eq_str (jget details "phase") "preflight" then
      exact_fields details timeout_fields && eq_str (jget details "outcome") "not_started"
      && str_in idempotency ["not_requested"; "not_created"; "removed"]
    else if eq_str (jget details "phase") "replay_confirmation" then
      exact_fields details timeout_fields
      && (eqb operation MsgDelete || eqb operation ChatLeave)
      && eq_str (jget details "outcome") "not_started"
      && String.eqb idempotency "completed_unchanged"
    else if eq_str (jget details "phase") "dispatch" then
      negb (reports_temporary operation) && exact_fields details timeout_fields
      && eq_str (jget details "outcome") "unknown"
      && str_in idempotency ["not_requested"; "pending"]
    else if negb (eq_str (jget details "phase") "confirmation")
            || negb (eq_str (jget details "outcome") "unknown")
            || negb (str_in idempotency ["not_requested"; "pending"])
    then false
    else if eqb operation MsgForward then
      exact_fields details (timeout_fields ++ ["items"])
      && valid_forward_timeout_items (jget details "items")
    else
      single_send operation && exact_fields details (timeout_fields ++ ["temporary_message_id"])
      && nullable valid_message_id (jget details "temporary_message_id").

(** The loop of the rate-limit branch: the largest [retry_after], [None] when
    an item is no rate-limit failure. *)
Fixpoint rate_limited_items (maximum_retry : Z) (items : list json) : option Z :=
  match items with
  | [] => Some maximum_retry
  | item :: rest =>
      if status_is "failed" item && eq_str (jget item "failure_reason") "tdlib_error"
         && eq_int (jget item "tdlib_code") 429
         && valid_nonnegative_int32 (jget item "retry_after")
      then
        rate_limited_items
          (Z.max maximum_retry
             (match json_int64 (jget item "retry_after") with Some n => n | None => 0 end)) rest
      else None
  end.

Definition count_sent (items : json) : nat :=
  List.length (filter (status_is "sent") (elements items)).

Definition valid_forward_error_details (code : string) (details : json) : bool :=
  if String.eqb code "RATE_LIMITED" then
    exact_fields details ["operation"; "tdlib_code"; "retry_after"; "items"]
    && eq_str (jget details "operation") "msg_forward" && eq_int (jget details "tdlib_code") 429
    && valid_nonnegative_int32 (jget details "retry_after")
    && valid_forward_items (jget details "items") true true
    && (jempty (jget details "items")
        || match rate_limited_items 0 (elements (jget details "items")) with
           | Some maximum_retry => eq_int (jget details "retry_after") maximum_retry
           | None => false
           end)
  else
    exact_fields details ["operation"; "from_chat_id"; "to_chat_id"; "items"]
    && eq_str (jget details "operation") "msg_forward"
    && nonzero_int53 (jget details "from_chat_id") && nonzero_int53 (jget details "to_chat_id")
    && valid_forward_items (jget details "items") false true
    && (let sent := count_sent (jget details "items") in
        if String.eqb code "FORWARD_PARTIAL" then
          Nat.ltb 0 sent && Nat.ltb sent (jsize (jget details "items"))
        else Nat.eqb sent 0).

Definition stored_messages : list (string * list string) :=
  [("AUDIT_INCOMPLETE", ["a prior audited invocation did not reach a terminal proof"]);
   ("TIMEOUT", ["request timed out"]);
   ("DAEMON_SHUTDOWN", ["daemon is shutting down"]);
   ("NOT_AUTHED", ["authorization was lost"]);
   ("TDLIB_ERROR", ["Telegram request failed"]);
   ("RATE_LIMITED", ["Telegram rate limit exceeded"]);
   ("INTERNAL",
    ["internal error"; "TDLib returned data outside the supported persistence bounds";
     "TDLib returned malformed session data"; "TDLib returned a malformed response"]);
   ("SEND_FAILED", ["message was deleted before confirmation"]);
   ("FORWARD_FAILED", ["messages could not be forwarded"]);
   ("FORWARD_PARTIAL", ["some messages could not be forwarded"]);
   ("JOIN_APPROVAL_REQUIRED", ["join request requires approval"]);
   ("JOIN_DECLINED", ["join request was declined"]);
   ("INPUT_CHANGED", ["input file changed while being read"]);
   ("SPOOL_UNAVAILABLE", ["attachment spool is unavailable"]);
   ("PRECONDITION_FAILED", ["operation precondition failed"])].

Definition valid_stored_error_message (code : string) (message : json) : bool :=
  is_string message
  && match find (fun entry => String.eqb (fst entry) code) stored_messages with
     | Some entry => str_in (get_string message) (snd entry)
     | None => false
     end.

Definition precondition_reasons : list string :=
  ["not_editable"; "not_deletable_for_self"; "not_deletable_for_all"; "not_forwardable";
   "not_copyable"; "not_pinnable"; "not_replyable"; "wrong_content_type"; "wrong_chat_type";
   "wrong_topic"; "chat_not_listed"; "saved_notifications_unsupported";
   "online_schedule_unsupported"; "schedule_window_elapsed"; "schedule_too_far";
   "reply_markup_preservation_unsupported"; "reaction_unavailable"].

Definition allowed_preconditions (operation : AccountAuditOperation) : list string :=
  match operation with
  | Send =>
      ["not_replyable"; "wrong_topic"; "online_schedule_unsupported"; "schedule_window_elapsed";
       "schedule_too_far"]
  | MsgEdit => ["not_editable"; "wrong_content_type"; "reply_markup_preservation_unsupported"]
  | MsgDelete => ["not_deletable_for_self"; "not_deletable_for_all"]
  | MsgForward => ["not_forwardable"; "not_copyable"]
  | MsgReact => ["reaction_unavailable"]
  | MsgPin => ["not_pinnable"]
  | ChatMute | ChatUnmute => ["saved_notifications_unsupported"]
  | ChatPin | ChatUnpin => ["chat_not_listed"]
  | ChatLeave => ["wrong_chat_type"]
  | SavedAttach => ["wrong_content_type"; "wrong_topic"]
  | _ => []
  end.

(** The tests on [code], in order; [exit] and the message are checked in
    each. *)
Definition stored_error_details (operation : AccountAuditOperation) (code : string)
    (message details : json) (exit : Z) : bool :=
  let op := valid_operation_field operation details in
  if String.eqb code "AUDIT_INCOMPLETE" then
    (exit =? kGeneric) && eq_str message "a prior audited invocation did not reach a terminal proof"
    && valid_audit_incomplete_details operation details
  else if String.eqb code "TIMEOUT" then
    (exit =? kTimeout) && valid_timeout_details operation details
  else if String.eqb code "DAEMON_SHUTDOWN" then
    (exit =? kGeneric) && exact_fields details ["reason"]
    && eq_str (jget details "reason") "daemon_shutdown"
  else if String.eqb code "NOT_AUTHED" then
    (exit =? kNotAuthed) && exact_fields details ["account"; "state"; "reason"]
    && is_string (jget details "account")
    && valid_account_name (get_string (jget details "account"))
    && valid_auth_state (jget details "state") false
    && eq_str (jget details "reason") "authorization_lost"
  else if String.eqb code "TDLIB_ERROR" then
    (exit =? kGeneric) && exact_fields details ["operation"; "tdlib_code"] && op
    && valid_int32 (jget details "tdlib_code")
  else if String.eqb code "RATE_LIMITED" then
    (exit =? kRateLimited)
    && (if eqb operation MsgForward && contains details "items" then
          valid_forward_error_details code details
        else
          exact_fields details ["operation"; "tdlib_code"; "retry_after"] && op
          && eq_int (jget details "tdlib_code") 429
          && valid_nonnegative_int32 (jget details "retry_after"))
  else if String.eqb code "INTERNAL" then
    (exit =? kGeneric) && op
    && (if eqb operation SessionTerminate then
          exact_fields details ["operation"; "reason"; "tdlib_type_id"]
          && eq_str (jget details "reason") "malformed_tdlib_response"
          && nullable valid_int32 (jget details "tdlib_type_id")
        else if has_value (m6_operation_for_audit operation) then
          exact_fields details ["operation"; "reason"]
          && ((eq_str (jget details "reason") "internal_error" && eq_str message "internal error")
              || (eq_str (jget details "reason") "malformed_tdlib_response"
                  && eq_str message "TDLib returned a malformed response"))
        else
          exact_fields details ["operation"; "reason"]
          && eq_str (jget details "reason") "internal_error")
  else if String.eqb code "SEND_FAILED" then
    (exit =? kGeneric) && single_send operation
    && exact_fields details ["operation"; "chat_id"; "temporary_message_id"; "reason"] && op
    && nonzero_int53 (jget details "chat_id")
    && valid_message_id (jget details "temporary_message_id")
    && eq_str (jget details "reason") "deleted_before_confirmation"
  else if String.eqb code "FORWARD_FAILED" || String.eqb code "FORWARD_PARTIAL" then
    (exit =? kGeneric) && eqb operation MsgForward && valid_forward_error_details code details
  else if String.eqb code "JOIN_APPROVAL_REQUIRED" then
    (exit =? kGeneric) && eqb operation ChatJoin
    && exact_fields details ["operation"; "bot_user_id"; "query_id"] && op
    && valid_int53 (jget details "bot_user_id") true && valid_int53 (jget details "query_id") true
  else if String.eqb code "JOIN_DECLINED" then
    (exit =? kGeneric) && eqb operation ChatJoin && exact_fields details ["operation"] && op
  else if String.eqb code "INPUT_CHANGED" then
    (exit =? kGeneric) && eqb operation SavedAttach && exact_fields details ["operation"; "path"]
    && op && valid_argument_path (jget details "path")
  else if String.eqb code "SPOOL_UNAVAILABLE" then
    uses_spool operation && (exit =? kGeneric)
    && exact_fields details ["operation"; "path"; "reason"] && op
    && valid_argument_path (jget details "path") && is_string (jget details "reason")
    && str_in (get_string (jget details "reason")) (map snd kDurabilityReasons)
  else if String.eqb code "PRECONDITION_FAILED" then
    (exit =? kGeneric) && exact_fields details ["operation"; "chat_id"; "message_id"; "reason"]
    && op && nullable nonzero_int53 (jget details "chat_id")
    && nullable valid_message_id (jget details "message_id") && is_string (jget details "reason")
    && str_in (get_string (jget details "reason")) precondition_reasons
    && str_in (get_string (jget details "reason")) (allowed_preconditions operation)
  else false.

Definition valid_stored_error (operation : AccountAuditOperation) (v : json) : bool :=
  exact_fields v ["kind"; "code"; "message"; "details"; "exit_code"]
  && eq_str (jget v "kind") "error" && is_string (jget v "code") && is_object (jget v "details")
  && valid_int32 (jget v "exit_code") && valid_json_tree v
  && valid_stored_error_message (get_string (jget v "code")) (jget v "message")
  && stored_error_details operation (get_string (jget v "code")) (jget v "message")
       (jget v "details")
       (match json_int64 (jget v "exit_code") with Some n => n | None => 0 end).

Definition valid_terminal (operation : AccountAuditOperation) (v : json) : bool :=
  if exact_fields v ["kind"; "data"] then
    eq_str (jget v "kind") "result" && valid_json_tree v
    && valid_result_data operation (jget v "data")
  else valid_stored_error operation v.

Definition terminal_proves_mutation (operation : AccountAuditOperation) (terminal : json) : bool :=
  if negb (valid_terminal operation terminal) then false
  else if eq_str (jget terminal "kind") "result" then true
  else
    let code := get_string (jget terminal "code") in
    if eqb operation MsgForward then
      if String.eqb code "TIMEOUT" then
        existsb (status_is "sent") (elements (jget (jget terminal "details") "items"))
      else String.eqb code "FORWARD_PARTIAL" || String.eqb code "INTERNAL"
    else String.eqb code "INTERNAL" && (single_send operation || eqb operation MsgEdit).

Definition terminal_proves_explicit_no_mutation (operation : AccountAuditOperation)
    (terminal : json) : bool :=
  if negb (valid_terminal operation terminal) || negb (eq_str (jget terminal "kind") "error")
  then false
  else
    let code := get_string (jget terminal "code") in
    if eqb operation ChatJoin then
      String.eqb code "JOIN_APPROVAL_REQUIRED" || String.eqb code "JOIN_DECLINED"
    else
      single_send operation && (String.eqb code "TDLIB_ERROR" || String.eqb code "RATE_LIMITED").

Definition terminal_byte_ceiling (operation : AccountAuditOperation) : Z :=
  if eqb operation MsgForward then kForwardTerminalBytes
  else if single_send operation || eqb operation MsgEdit then kSingleMessageTerminalBytes
  else if has_value (m6_operation_for_audit operation) then kM6TerminalBytes
  else kOtherTerminalBytes.

(** * Spool references (file_spool.cpp) *)

Record FileSnapshot := {
  path : string; name : string; size : Z; sha256 : string;
  device : Z; inode : Z; mtime_ns : Z; ctime_ns : Z
}.

Record SpoolRef := { relative_path : string; file : FileSnapshot }.

#[export] Instance FileSnapshot_eq_dec : EqDec FileSnapshot.
Proof. intros [] []; repeat decide equality. Defined.

#[export] Instance SpoolRef_eq_dec : EqDec SpoolRef.
Proof. intros [] []; repeat decide equality. Defined.

Fixpoint has_forbidden_basename_control (bytes : list Z) : bool :=
  match bytes with
  | [] => false
  | byte :: rest =>
      (byte <=? 0x1f) || (byte =? 0x7f)
      || ((byte =? 0xc2)
          && match rest with next :: _ => (0x80 <=? next) && (next <=? 0x9f) | [] => false end)
      || has_forbidden_basename_control rest
  end.

Definition valid_basename (v : string) : bool :=
  negb (str_empty v) && (str_len v <=? 255) && negb (String.eqb v ".") && negb (String.eqb v "..")
  && negb (str_contains "/" v) && negb (str_contains nul v) && valid_utf8 v
  && negb (has_forbidden_basename_control (bytes_of v)).

Definition valid_invocation_id (v : string) : bool := valid_hex v 32.

(** The invocation and the file name of [spool/<invocation>/<name>]. *)
Definition parse_spool_path (reference : SpoolRef) : option (string * string) :=
  match str_find "/" (relative_path reference) with
  | None => None
  | Some first =>
      let rest := str_drop (S first) (relative_path reference) in
      match str_find "/" rest with
      | None => None
      | Some second =>
          let invocation := str_take second rest in
          let base := str_drop (S second) rest in
          if str_contains "/" base || negb (String.eqb (str_take first (relative_path reference)) "spool")
             || negb (valid_invocation_id invocation) || negb (valid_basename base)
             || negb (String.eqb base (name (file reference)))
          then None else Some (invocation, base)
      end
  end.

Definition valid_spool_reference (reference : SpoolRef) (invocation_id : string) : bool :=
  match parse_spool_path reference with
  | Some (invocation, _) => str_empty invocation_id || String.eqb invocation invocation_id
  | None => false
  end.

Definition file_snapshot_json (f : FileSnapshot) : json :=
  jobject [("path", JString (path f)); ("name", JString (name f)); ("size", JUnsigned (size f));
           ("sha256", JString (sha256 f)); ("device", JUnsigned (device f));
           ("inode", JUnsigned (inode f)); ("mtime_ns", JInteger (mtime_ns f));
           ("ctime_ns", JInteger (ctime_ns f))].

(** [file_snapshot_from_audit]. *)
Definition file_snapshot_of (v : json) : FileSnapshot :=
  {| path := get_string (jget v "path"); name := get_string (jget v "name");
     size := get_u64 (jget v "size"); sha256 := get_string (jget v "sha256");
     device := get_u64 (jget v "device"); inode := get_u64 (jget v "inode");
     mtime_ns := get_i64 (jget v "mtime_ns"); ctime_ns := get_i64 (jget v "ctime_ns") |}.

(** * Contracts for persisted values *)

(** [terminal_matches_plan]; [intent] carries the account and the plan. *)
Definition terminal_matches_plan (operation : AccountAuditOperation) (terminal intent : json) :
    bool :=
  if eq_str (jget terminal "kind") "error" then
    let details := jget terminal "details" in
    negb (contains details "account"
          && negb (json_eqb (jget details "account") (jget intent "account")))
    && (negb (contains details "operation")
        || eq_str (jget details "operation") (account_audit_operation_name operation))
  else
    let data := jget terminal "data" in
    let plan := jget intent "plan" in
    let chat := json_eqb (jget data "chat_id") (jget (jget plan "chat") "id") in
    match operation with
    | Send | SavedAttach => chat
    | MsgEdit => chat && json_eqb (jget data "id") (jget plan "message_id")
    | MsgDelete =>
        chat && same "message_ids" data plan
        && json_eqb (jget data "for_all") (jget plan "effective_for_all")
    | MsgForward =>
        json_eqb (jget data "from_chat_id") (jget (jget plan "from") "id")
        && json_eqb (jget data "to_chat_id") (jget (jget plan "to") "id")
    | MsgReact =>
        chat && same "message_id" data plan && same "reaction" data plan
        && json_eqb (jget data "removed") (jget plan "remove") && same "big" data plan
    | MsgPin | MsgUnpin => chat && same "message_id" data plan && same "pinned" data plan
    | ChatMarkRead =>
        chat && json_eqb (jget data "last_read_message_id") (jget plan "last_message_id")
    | ChatMute | ChatUnmute => chat && same "muted" data plan && same "duration_seconds" data plan
    | ChatPin | ChatUnpin => chat && same "chat_list" data plan && same "pinned" data plan
    | ChatArchive | ChatUnarchive => chat && same "archived" data plan
    | ChatJoin => is_null (jget data "chat_id") || is_null (jget plan "chat") || chat
    | ChatLeave => chat
    | SessionTerminate => json_eqb (jget data "session_id") (jget (jget plan "session") "id")
    | _ =>
        match m6_operation_for_audit operation with
        | Some m6 => m6_result_matches_plan m6 data plan
        | None => false
        end
    end.

Definition validate_account_audit_persisted_terminal (operation : AccountAuditOperation)
    (terminal plan : json) (account : string) : bool :=
  if negb (valid_plan operation plan account) || negb (valid_terminal operation terminal)
  then false
  else
    terminal_matches_plan operation terminal
      (jobject [("account", JString account); ("plan", plan)]).

(** [plan.value("message_ids", json::array())]: [None] is the exception on a
    plan that is no object. *)
Definition planned_message_ids (plan : json) : option json :=
  if is_object plan then
    Some (match jfind plan "message_ids" with Some v => v | None => JArray [] end)
  else None.

Definition validate_account_audit_persisted_temporary_ids (operation : AccountAuditOperation)
    (temporary_ids plan : json) : bool :=
  if negb (is_array temporary_ids) || jempty temporary_ids then is_array temporary_ids
  else if negb (reports_temporary operation) then false
  else if eqb operation MsgForward then
    match planned_message_ids plan with
    | Some ids => valid_message_id_array temporary_ids 1 (jsize ids)
    | None => false
    end
  else valid_message_id_array temporary_ids 1 1 && Nat.eqb (jsize temporary_ids) 1.

(** Items and planned ids, position by position. *)
Fixpoint sources_match (items ids : list json) : bool :=
  match items, ids with
  | [], [] => true
  | item :: items', id :: ids' => json_eqb (jget item "source_id") id && sources_match items' ids'
  | _, _ => false
  end.

Definition validate_account_audit_persisted_forward_progress (operation : AccountAuditOperation)
    (items plan : json) : bool :=
  if negb (is_array items) || jempty items then is_array items
  else
    eqb operation MsgForward && is_object plan && contains plan "message_ids"
    && is_array (jget plan "message_ids") && valid_forward_items items false false
    && sources_match (elements items) (elements (jget plan "message_ids")).

Definition validate_account_audit_persisted_spool (spool : SpoolRef) (invocation_id : string) :
    bool :=
  valid_spool_reference spool invocation_id && valid_file_snapshot (file_snapshot_json (file spool)).

Definition account_audit_terminal_reservation (operation : AccountAuditOperation) : Z :=
  if has_value (m6_operation_for_audit operation) then kOtherTerminalBytes
  else terminal_byte_ceiling operation.
