(* ===== verification/AuditSchemaFacts.v ===== *)
(** Properties of the audit documents of [AuditSchema]: bounded trees and safe
    file names. *)
From S2P Require Import Prelude Json Utf8 Operation DestructivePlan M6Domain AuditSchema.
Import Audit.

(** * Document trees *)

(** The recursive reading of [valid_json_tree]. *)
Fixpoint tree_spec (depth : Z) (v : json) : bool :=
  (depth <=? kMaximumTreeDepth)
  && match v with
     | JString s => tree_string s
     | JArray l => forallb (tree_spec (depth + 1)) l
     | JObject m => forallb (fun kv => tree_key (fst kv) && tree_spec (depth + 1) (snd kv)) m
     | _ => true
     end.

Fixpoint tree_nodes (v : json) : nat :=
  match v with
  | JArray l => S (list_sum (map tree_nodes l))
  | JObject m => S (list_sum (map (fun kv => tree_nodes (snd kv)) m))
  | _ => 1
  end.

Definition pending_nodes (pending : list (json * Z)) : nat :=
  list_sum (map (fun p => tree_nodes (fst p)) pending).

Definition pending_ok (pending : list (json * Z)) : bool :=
  forallb (fun p => tree_spec (snd p) (fst p)) pending.

Lemma forallb_rev {A} (f : A -> bool) l : forallb f (rev l) = forallb f l.
Proof.
  induction l as [|x l IH]; cbn; [reflexivity|]. rewrite forallb_app, IH. cbn.
  rewrite andb_true_r. apply andb_comm.
Qed.

Lemma list_sum_rev l : list_sum (rev l) = list_sum l.
Proof.
  induction l as [|x l IH]; [reflexivity|]. cbn [rev]. rewrite list_sum_app, IH.
  unfold list_sum. cbn. lia.
Qed.

Lemma forallb_map {A B} (f : A -> B) g l : forallb g (map f l) = forallb (fun x => g (f x)) l.
Proof. induction l; cbn; congruence. Qed.

Lemma forallb_and {A} (f g : A -> bool) l :
  forallb (fun x => f x && g x) l = forallb f l && forallb g l.
Proof.
  induction l as [|x l IH]; cbn; [reflexivity|]. rewrite IH.
  destruct (f x), (g x), (forallb f l); reflexivity.
Qed.

Lemma pushed_ok {A} (f : A -> json) d (l : list A) rest :
  pending_ok (rev (map (fun x => (f x, d)) l) ++ rest) =
  forallb (fun x => tree_spec d (f x)) l && pending_ok rest.
Proof. unfold pending_ok. now rewrite forallb_app, forallb_rev, forallb_map. Qed.

Lemma pushed_nodes {A} (f : A -> json) (d : Z) (l : list A) rest :
  pending_nodes (rev (map (fun x => (f x, d)) l) ++ rest) =
  (list_sum (map (fun x => tree_nodes (f x)) l) + pending_nodes rest)%nat.
Proof.
  unfold pending_nodes.
  now rewrite map_app, list_sum_app, map_rev, list_sum_rev, map_map.
Qed.

Lemma tree_nodes_pos v : (1 <= tree_nodes v)%nat.
Proof. destruct v; cbn; lia. Qed.

Lemma leb_S m n : (S m <=? S n)%nat = (m <=? n)%nat.
Proof. reflexivity. Qed.

Lemma tree_loop_spec remaining pending :
  tree_loop remaining pending = pending_ok pending && Nat.leb (pending_nodes pending) remaining.
Proof.
  revert pending. induction remaining as [|n IH]; intros [|[v d] rest]; try reflexivity.
  - cbn [tree_loop]. unfold pending_nodes at 1. cbn. pose proof (tree_nodes_pos v).
    destruct (Nat.leb _ _) eqn:L; [apply Nat.leb_le in L; lia|]. rewrite andb_false_r.
    now destruct (_ <? _).
  - unfold pending_ok, pending_nodes. cbn [map fst snd list_sum fold_right forallb].
    fold (pending_ok rest) (pending_nodes rest). cbn [tree_loop].
    destruct (Z.ltb_spec kMaximumTreeDepth d) as [D|D].
    { destruct v; cbn; destruct (Z.leb_spec d kMaximumTreeDepth); try lia; reflexivity. }
    assert ((d <=? kMaximumTreeDepth) = true) as D' by (apply Z.leb_le; lia).
    destruct v as [| | | | |s|l|m]; cbn [tree_spec tree_nodes]; rewrite D'; cbn [andb];
      rewrite ?IH; try reflexivity.
    + cbn [Nat.add]. rewrite leb_S, andb_assoc. reflexivity.
    + rewrite (pushed_ok (fun x => x)), (pushed_nodes (fun x => x)).
      cbn [Nat.add]. rewrite leb_S. reflexivity.
    + rewrite (pushed_ok snd), (pushed_nodes snd). cbn [Nat.add].
      rewrite leb_S, forallb_and, !andb_assoc. reflexivity.
Qed.

Lemma json_tree_spec (v : json) :
  valid_json_tree v = tree_spec 0 v && (Z.of_nat (tree_nodes v) <=? kMaximumTreeNodes).
Proof.
  unfold valid_json_tree. rewrite tree_loop_spec. unfold pending_ok, pending_nodes.
  cbn [map fst snd list_sum fold_right forallb]. rewrite andb_true_r, Nat.add_0_r. f_equal.
  destruct (Z.leb_spec (Z.of_nat (tree_nodes v)) kMaximumTreeNodes) as [L|L];
    [apply Nat.leb_le | apply Nat.leb_gt]; unfold kMaximumTreeNodes in *; lia.
Qed.

(** The iterative validator with its explicit stack computes the
    recursive definition: every string and key of the document is admissible,
    no value is nested deeper than 32 and there are at most 16384 values. *)
Theorem json_tree_iterative (v : json) :
  valid_json_tree v = tree_spec 0 v && (Z.of_nat (tree_nodes v) <=? kMaximumTreeNodes).
Proof. apply json_tree_spec. Qed.

(** A member of an admissible object. *)
Lemma tree_spec_member d v k w :
  tree_spec d v = true -> jfind v k = Some w -> tree_spec (d + 1) w = true.
Proof.
  destruct v; try discriminate. cbn [tree_spec jfind]. intros H F. bool_split.
  apply obj_find_In in F. rewrite forallb_forall in H0. specialize (H0 _ F). bool_split. assumption.
Qed.

Lemma nodes_member m k w :
  obj_find k m = Some w ->
  (tree_nodes w + List.length m <= S (list_sum (map (fun kv => tree_nodes (snd kv)) m)))%nat.
Proof.
  assert (forall l : list (string * json),
    (List.length l <= list_sum (map (fun kv => tree_nodes (snd kv)) l))%nat) as B.
  { induction l as [|[? x] l IH]; cbn; [lia|]. pose proof (tree_nodes_pos x). unfold list_sum in IH. lia. }
  induction m as [|[k' x] m IH]; cbn [obj_find]; [discriminate|].
  cbn [map snd list_sum fold_right List.length].
  destruct (String.eqb _ _); intros H.
  - injection H as <-. specialize (B m). unfold list_sum in B. lia.
  - specialize (IH H). pose proof (tree_nodes_pos x). unfold list_sum in IH. lia.
Qed.

Lemma jget_find v k : contains v k = true -> jfind v k = Some (jget v k).
Proof. unfold contains, jget. destruct (jfind v k); [reflexivity | discriminate]. Qed.

(** * File names *)

Definition lead_table (lead : Z) : nat * Z :=
  if (0xC0 <=? lead) && (lead <=? 0xDF) then (2%nat, lead - 0xC0)
  else if (0xE0 <=? lead) && (lead <=? 0xEF) then (3%nat, lead - 0xE0)
  else if (0xF0 <=? lead) && (lead <=? 0xF7) then (4%nat, lead - 0xF0)
  else (1%nat, lead).

(** The tag tests of the decoder, over the 256 bytes. *)
Lemma scalar_lead_table lead : 0 <= lead < 256 -> scalar_lead lead = lead_table lead.
Proof.
  intros H. replace lead with (Z.of_nat (Z.to_nat lead)) by lia.
  assert (Forall (fun n => scalar_lead (Z.of_nat n) = lead_table (Z.of_nat n)) (seq 0 256)) as A
    by (repeat (apply Forall_cons; [vm_compute; reflexivity|]); apply Forall_nil).
  rewrite Forall_forall in A. apply A, in_seq. lia.
Qed.

Lemma push_continuations_cons n cp b rest :
  push_continuations (S n) cp (b :: rest) = push_continuations n (cp * 64 + b mod 64) rest.
Proof. cbn [push_continuations]. now rewrite lor_six. Qed.

(** The decoder reads back one encoded scalar value. *)
Lemma decode_encode c rest :
  scalar c ->
  exists first tail width bits,
    encode c = first :: tail /\ scalar_lead first = (width, bits)
    /\ push_continuations (Nat.pred width) bits (tail ++ rest) = c
    /\ skipn (Nat.pred width) (tail ++ rest) = rest.
Proof.
  intros Hc. unfold scalar in Hc. unfold encode.
  destruct (Z.ltb_spec c 0x80); [|destruct (Z.ltb_spec c 0x800); [|destruct (Z.ltb_spec c 0x10000)]];
    do 4 eexists; (split; [reflexivity|]); rewrite scalar_lead_table by (Z.div_mod_to_equations; lia);
    unfold lead_table.
  - cmp. repeat split.
  - assert (0x2 <= c / 64 < 0x20) by (Z.div_mod_to_equations; lia). cmp.
    split; [reflexivity|]. cbn [Nat.pred app skipn]. split; [|reflexivity].
    rewrite push_continuations_cons. cbn [push_continuations]. Z.div_mod_to_equations; lia.
  - assert (0 <= c / 4096 < 0x10) by (Z.div_mod_to_equations; lia). cmp.
    split; [reflexivity|]. cbn [Nat.pred app skipn]. split; [|reflexivity].
    rewrite !push_continuations_cons. cbn [push_continuations]. Z.div_mod_to_equations; lia.
  - assert (0 <= c / 262144 < 5) by (Z.div_mod_to_equations; lia). cmp.
    split; [reflexivity|]. cbn [Nat.pred app skipn]. split; [|reflexivity].
    rewrite !push_continuations_cons. cbn [push_continuations]. Z.div_mod_to_equations; lia.
Qed.

Lemma no_control_encode fuel cs :
  Forall scalar cs -> (List.length (encode_all cs) <= fuel)%nat ->
  no_control_scalar fuel (encode_all cs) = negb (existsb control_scalar cs).
Proof.
  revert fuel. induction cs as [|c cs IH]; intros fuel H L; [now destruct fuel|].
  inversion_clear H as [|? ? Hc Hcs]. unfold encode_all in *. cbn [flat_map] in *.
  rewrite length_app in L. pose proof (length_encode c). destruct fuel as [|fuel]; [lia|].
  destruct (decode_encode c (flat_map encode cs) Hc) as (f & t & w & b & E & S & D & K).
  rewrite E. cbn [app no_control_scalar]. rewrite S, D, K, IH by (auto; lia).
  cbn. now rewrite negb_orb.
Qed.

Lemma forbidden_encode c rest :
  scalar c ->
  has_forbidden_basename_control (encode c ++ rest) =
  control_scalar c || has_forbidden_basename_control rest.
Proof.
  intros Hc. unfold scalar in Hc. unfold encode, control_scalar.
  destruct (Z.ltb_spec c 0x80); [|destruct (Z.ltb_spec c 0x800); [|destruct (Z.ltb_spec c 0x10000)]];
    cbn [app has_forbidden_basename_control].
  - cmp; destruct (Z.eqb_spec c 127), (Z.eqb_spec c 194); try lia; reflexivity.
  - assert (0x2 <= c / 64 < 0x20) by (Z.div_mod_to_equations; lia).
    assert (0 <= c mod 64 < 64) by (apply Z.mod_pos_bound; lia).
    destruct (Z.eqb_spec (192 + c / 64) 127), (Z.eqb_spec (128 + c mod 64) 127),
      (Z.eqb_spec (128 + c mod 64) 194); try lia.
    destruct (Z.eqb_spec (192 + c / 64) 194); cmp; try reflexivity;
      exfalso; Z.div_mod_to_equations; lia.
  - assert (0 <= c / 4096 < 0x10) by (Z.div_mod_to_equations; lia).
    assert (0 <= c mod 64 < 64) by (apply Z.mod_pos_bound; lia).
    assert (0 <= (c / 64) mod 64 < 64) by (apply Z.mod_pos_bound; lia).
    cmp; repeat match goal with |- context [?a =? ?b] => destruct (Z.eqb_spec a b); try lia end;
      reflexivity.
  - assert (0 <= c / 262144 < 5) by (Z.div_mod_to_equations; lia).
    assert (0 <= c mod 64 < 64) by (apply Z.mod_pos_bound; lia).
    assert (0 <= (c / 64) mod 64 < 64) by (apply Z.mod_pos_bound; lia).
    assert (0 <= (c / 4096) mod 64 < 64) by (apply Z.mod_pos_bound; lia).
    cmp; repeat match goal with |- context [?a =? ?b] => destruct (Z.eqb_spec a b); try lia end;
      reflexivity.
Qed.

Lemma forbidden_encode_all cs :
  Forall scalar cs -> has_forbidden_basename_control (encode_all cs) = existsb control_scalar cs.
Proof.
  induction 1 as [|c cs Hc _ IH]; [reflexivity|].
  unfold encode_all in *. cbn [flat_map existsb]. now rewrite forbidden_encode, IH.
Qed.

(** A NUL is a forbidden control character. *)
Lemma nul_forbidden s : str_contains nul s = true -> has_forbidden_basename_control (bytes_of s) = true.
Proof.
  unfold str_contains. induction s as [|c s IH]; [discriminate|]. cbn [str_find].
  change (bytes_of (String c s)) with (byte_of c :: bytes_of s).
  cbn [has_forbidden_basename_control].
  destruct (Ascii.eqb nul c) eqn:E.
  - apply Ascii.eqb_eq in E as <-. reflexivity.
  - destruct (str_find nul s); [|discriminate]. intros _. rewrite IH by reflexivity.
    apply orb_true_r.
Qed.

(** The file spool and the audit log accept the same file names, although
    one tests bytes and the other decodes scalar values: a spooled file can
    always be recorded, and a recorded name can always be spooled. *)
Theorem basename_validators_agree (s : string) :
  valid_safe_basename (JString s) = valid_basename s.
Proof.
  unfold valid_safe_basename, valid_basename, valid_string. cbn [is_string get_string andb].
  destruct (valid_utf8 s) eqn:U; [|now rewrite !andb_false_r].
  destruct (str_len s <=? 255); [|cbn; now rewrite !andb_false_r].
  assert (exists cs, Forall scalar cs /\ bytes_of s = encode_all cs) as (cs & Hcs & E)
    by (apply (valid_utf8_bytes_sound _ (bytes_of_range s) U)).
  rewrite E, no_control_encode, forbidden_encode_all by (auto; rewrite <- E, length_bytes_of; lia).
  destruct (str_contains nul s) eqn:N.
  - apply nul_forbidden in N. rewrite E, forbidden_encode_all in N by auto. rewrite N.
    rewrite !andb_false_r. cbn. now destruct (_ || _).
  - destruct (str_empty s), (String.eqb s "."), (String.eqb s ".."), (str_contains "/" s);
      reflexivity.
Qed.

(** * A terminal without items

    [terminal_proves_mutation] reads [details["items"]] of every forward
    timeout, but a timeout before dispatch is a valid terminal that has no such
    member: the constant subscript is then outside its contract (the model
    reads null). *)
Definition preflight_timeout : json :=
  jobject [("kind", JString "error"); ("code", JString "TIMEOUT");
           ("message", JString "request timed out"); ("exit_code", JUnsigned 7);
           ("details",
            jobject [("operation", JString "msg_forward"); ("phase", JString "preflight");
                     ("state", JNull); ("outcome", JString "not_started");
                     ("idempotency", JString "not_requested")])].

Lemma forward_timeout_without_items :
  valid_terminal MsgForward preflight_timeout = true
  /\ contains (jget preflight_timeout "details") "items" = false.
Proof. vm_compute. split; reflexivity. Qed.
