(* ===== verification/AuditLog.v ===== *)
(** The records of the account audit log and the automaton that reads them
    (src/src/daemon/account_audit.cpp): validation of intents, checkpoints and
    outcomes, the six-stage history, the scan of a group, what a restart
    recovers, and the pins of the idempotency store.

    A function that reports through [std::string& error] returns [result]; the
    text printer of the JSON library is the parameter [json_dump], [None] where
    it throws. *)
From S2P Require Import Prelude Json Paths Operation DestructivePlan M6Domain AuditSchema.
Import Audit.

(** * Records *)

Record AccountAuditRecordIdentity := { invocation_id : string; timestamp : string }.

Record AccountAuditIntentInput := {
  i_identity : AccountAuditRecordIdentity;
  i_account : string;
  i_operation : AccountAuditOperation;
  i_arguments : json;
  i_plan : json;
  i_request_fingerprint : string;
  i_config_snapshot : string;
  i_authority_source : string;
  i_confirmation_source : option string;
  i_idempotency_key_hash : option string;
  i_request_source_bytes : Z
}.

Record AccountAuditCheckpointInput := {
  c_identity : AccountAuditRecordIdentity;
  c_account : string;
  c_operation : AccountAuditOperation;
  c_sequence : Z;
  c_stage : AccountAuditStage;
  c_data : json
}.

Record AccountAuditOutcomeInput := {
  o_identity : AccountAuditRecordIdentity;
  o_account : string;
  o_operation : AccountAuditOperation;
  o_success : bool;
  o_mutation_state : AccountAuditMutationState;
  o_completed_stages : list AccountAuditStage;
  o_terminal : json
}.

Definition valid_checkpoint_data (operation : AccountAuditOperation) (stage : AccountAuditStage)
    (v : json) : bool :=
  match stage with
  | IdempotencyPending =>
      WriteOp.idempotent (WriteOp.of_audit operation)
      && exact_fields v ["key_hash"; "request_fingerprint"; "expires_at"; "reserved_terminal_bytes"]
      && valid_hash (jget v "key_hash") && valid_hash (jget v "request_fingerprint")
      && is_number_unsigned (jget v "expires_at")
      && is_number_unsigned (jget v "reserved_terminal_bytes")
  | SpoolReady =>
      uses_spool operation && exact_fields v ["file"; "relative_path"]
      && valid_file_snapshot (jget v "file") && valid_string (jget v "relative_path") 4096
  | DispatchStarted =>
      exact_fields v ["tdlib_function"; "dispatch_token"; "client_generation"]
      && is_string (jget v "tdlib_function")
      && negb (str_empty (get_string (jget v "tdlib_function")))
      && str_in (get_string (jget v "tdlib_function")) (expected_tdlib_functions operation)
      && is_string (jget v "dispatch_token")
      && valid_hex (get_string (jget v "dispatch_token")) 32
      && is_number_unsigned (jget v "client_generation")
  | TemporaryIdsObserved =>
      reports_temporary operation && exact_fields v ["temporary_message_ids"]
      && valid_message_id_array (jget v "temporary_message_ids") 1 100
  | ForwardProgress =>
      eqb operation MsgForward && exact_fields v ["items"]
      && valid_forward_items (jget v "items") false false
  | MutationConfirmed =>
      exact_fields v ["terminal"] && terminal_proves_mutation operation (jget v "terminal")
  end.

Definition destructive_operation (operation : AccountAuditOperation) : bool :=
  WriteOp.destructive (WriteOp.of_audit operation).

Definition command_of (v : json) : option AccountAuditOperation :=
  parse_account_audit_operation (get_string (jget v "command")).

Definition valid_common_identity (v : json) : bool :=
  contains v "invocation_id" && is_string (jget v "invocation_id")
  && valid_hex (get_string (jget v "invocation_id")) 32
  && contains v "timestamp" && valid_timestamp (jget v "timestamp")
  && contains v "account" && is_string (jget v "account")
  && valid_account_name (get_string (jget v "account"))
  && contains v "command" && is_string (jget v "command") && has_value (command_of v).

Section records.
Variable json_dump : json -> option string.

Definition serialized_size_at_most (v : json) (maximum : Z) : bool :=
  match json_dump v with Some text => str_len text <=? maximum | None => false end.

(** [left.dump() == right.dump()]. *)
Definition canonical_json_equal (left right : json) : bool :=
  match json_dump left, json_dump right with
  | Some l, Some r => String.eqb l r
  | _, _ => false
  end.

Definition intent_fields : list string :=
  ["schema_version"; "phase"; "invocation_id"; "timestamp"; "account"; "command"; "arguments";
   "plan"; "request_fingerprint"; "config_snapshot"; "authority_source"; "confirmation_source";
   "idempotency_key_hash"].

Definition valid_confirmation (operation : AccountAuditOperation) (v : json) : bool :=
  if destructive_operation operation then eq_str v "yes" || eq_str v "tty" else is_null v.

Definition valid_intent_content (operation : AccountAuditOperation) (document : json) : bool :=
  valid_arguments operation (jget document "arguments")
  && valid_plan operation (jget document "plan") (get_string (jget document "account"))
  && arguments_match_plan operation (jget document "arguments") (jget document "plan")
  && valid_hash (jget document "request_fingerprint")
  && is_string (jget document "config_snapshot")
  && valid_config_snapshot_identity (get_string (jget document "config_snapshot")) false
  && (eq_str (jget document "authority_source") "request"
      || eq_str (jget document "authority_source") "config")
  && valid_confirmation operation (jget document "confirmation_source")
  && nullable valid_hash (jget document "idempotency_key_hash")
  && negb (eqb operation SessionTerminate
           && negb (is_null (jget document "idempotency_key_hash"))).

Definition validate_intent_impl (document : json) : result string unit :=
  check (exact_fields document intent_fields && eq_int (jget document "schema_version") 2
         && eq_str (jget document "phase") "intent" && valid_common_identity document)
    "invalid v2 intent envelope" ;;;
  operation <- of_option "invalid v2 intent operation" (command_of document) ;;
  check (valid_intent_content operation document) "invalid v2 intent fields" ;;;
  check (valid_json_tree document && serialized_size_at_most document kIntentJsonBytes)
    "v2 intent exceeds its byte ceiling".

Definition checkpoint_fields : list string :=
  ["schema_version"; "phase"; "invocation_id"; "timestamp"; "account"; "command";
   "checkpoint_sequence"; "stage"; "data"].

Definition stage_of (v : json) : option AccountAuditStage :=
  parse_account_audit_stage (get_string (jget v "stage")).

Definition spool_path (invocation base : string) : string :=
  "spool/" +++ invocation +++ "/" +++ base.

Definition validate_checkpoint_impl (document : json) : result string unit :=
  check (exact_fields document checkpoint_fields && eq_int (jget document "schema_version") 2
         && eq_str (jget document "phase") "checkpoint" && valid_common_identity document
         && is_number_unsigned (jget document "checkpoint_sequence")
         && negb (get_u64 (jget document "checkpoint_sequence") =? 0)
         && (get_u64 (jget document "checkpoint_sequence") <=? 4294967295)
         && is_string (jget document "stage"))
    "invalid v2 checkpoint envelope" ;;;
  operation <- of_option "invalid v2 checkpoint operation" (command_of document) ;;
  stage <- of_option "invalid v2 checkpoint data" (stage_of document) ;;
  let data := jget document "data" in
  check (valid_checkpoint_data operation stage data) "invalid v2 checkpoint data" ;;;
  check (negb (eqb stage IdempotencyPending
               && ((253402300799 <? get_u64 (jget data "expires_at"))
                   || (4294967295 <? get_u64 (jget data "reserved_terminal_bytes")))))
    "v2 idempotency checkpoint integer is out of range" ;;;
  check (negb (eqb stage SpoolReady
               && negb (eq_str (jget data "relative_path")
                          (spool_path (get_string (jget document "invocation_id"))
                             (get_string (jget (jget data "file") "name"))))))
    "v2 spool checkpoint path is not canonical" ;;;
  check (negb (eqb stage MutationConfirmed
               && negb (serialized_size_at_most (jget data "terminal")
                          (terminal_byte_ceiling operation))))
    "v2 mutation terminal exceeds its operation ceiling" ;;;
  check (valid_json_tree document
         && serialized_size_at_most document
              (if eqb stage ForwardProgress || eqb stage MutationConfirmed then kVectorJsonBytes
               else kNonVectorJsonBytes))
    "v2 checkpoint exceeds its byte ceiling".

Definition outcome_fields : list string :=
  ["schema_version"; "phase"; "invocation_id"; "timestamp"; "account"; "command"; "success";
   "mutation_state"; "completed_stages"; "terminal"].

Definition is_error (terminal : json) : bool := eq_str (jget terminal "kind") "error".
Definition is_result (terminal : json) : bool := eq_str (jget terminal "kind") "result".

(** The large condition of [validate_outcome_impl], negated. *)
Definition outcome_consistent (operation : AccountAuditOperation) (document : json)
    (completed : list AccountAuditStage) : bool :=
  let terminal := jget document "terminal" in
  let mutation := get_string (jget document "mutation_state") in
  let success := get_bool (jget document "success") in
  let has_dispatch := has_stage DispatchStarted completed in
  let has_progress := has_stage ForwardProgress completed in
  let has_proof := has_stage MutationConfirmed completed in
  let none := String.eqb mutation "none" in
  let possible := String.eqb mutation "possible" in
  let confirmed := String.eqb mutation "confirmed" in
  let successful_mark_read_noop :=
    eqb operation ChatMarkRead && success && none && negb has_dispatch && negb has_proof
    && is_result terminal && is_null (jget (jget terminal "data") "last_read_message_id") in
  let spool_unavailable := is_error terminal && eq_str (jget terminal "code") "SPOOL_UNAVAILABLE" in
  legal_completed_stages operation completed
  && Bool.eqb (is_result terminal) success
  && negb (success && negb successful_mark_read_noop && (negb confirmed || negb has_proof))
  && negb (negb has_dispatch && negb none)
  && negb (has_proof && negb confirmed)
  && negb (has_dispatch && negb has_progress && negb has_proof && negb possible
           && negb (none && terminal_proves_explicit_no_mutation operation terminal))
  && negb (confirmed && negb has_proof && negb has_progress)
  && negb ((possible || confirmed) && negb has_dispatch)
  && negb (spool_unavailable
           && (negb (uses_spool operation) || has_dispatch || negb none
               || existsb (fun stage => negb (eqb stage IdempotencyPending)
                                        && negb (eqb stage SpoolReady)) completed))
  && serialized_size_at_most terminal (terminal_byte_ceiling operation)
  && serialized_size_at_most document kVectorJsonBytes.

Definition validate_outcome_impl (document : json) : result string unit :=
  check (exact_fields document outcome_fields && eq_int (jget document "schema_version") 2
         && eq_str (jget document "phase") "outcome" && valid_common_identity document
         && is_boolean (jget document "success") && is_string (jget document "mutation_state")
         && is_array (jget document "completed_stages"))
    "invalid v2 outcome envelope" ;;;
  operation <- of_option "invalid v2 outcome terminal" (command_of document) ;;
  let terminal := jget document "terminal" in
  check (valid_terminal operation terminal) "invalid v2 outcome terminal" ;;;
  let mutation := get_string (jget document "mutation_state") in
  check (str_in mutation mutation_names) "invalid v2 outcome mutation state" ;;;
  completed <- of_option "invalid v2 outcome stage"
                 (parse_stages [] (elements (jget document "completed_stages"))) ;;
  let details := jget terminal "details" in
  check (negb (is_error terminal && contains details "account"
               && negb (json_eqb (jget details "account") (jget document "account"))))
    "v2 outcome terminal account contradicts the envelope" ;;;
  check (negb (is_error terminal && eq_str (jget terminal "code") "AUDIT_INCOMPLETE"
               && (negb (eq_str (jget details "mutation_state") mutation)
                   || negb (json_eqb (jget details "completed_stages")
                              (jget document "completed_stages")))))
    "v2 incomplete terminal contradicts the outcome prefix" ;;;
  check (outcome_consistent operation document completed) "invalid v2 outcome terminal".

(** * Construction *)

Definition stage_json (stage : AccountAuditStage) : json := JString (account_audit_stage_name stage).

Definition make_account_audit_intent (input : AccountAuditIntentInput) : result string json :=
  check (negb (i_request_source_bytes input =? 0)
         && (i_request_source_bytes input <=? kRequestSourceBytes))
    "request source exceeds the v2 admission ceiling" ;;;
  let document :=
    jobject
      [("schema_version", JInteger 2); ("phase", JString "intent");
       ("invocation_id", JString (invocation_id (i_identity input)));
       ("timestamp", JString (timestamp (i_identity input)));
       ("account", JString (i_account input));
       ("command", JString (account_audit_operation_name (i_operation input)));
       ("arguments", i_arguments input); ("plan", i_plan input);
       ("request_fingerprint", JString (i_request_fingerprint input));
       ("config_snapshot", JString (i_config_snapshot input));
       ("authority_source", JString (i_authority_source input));
       ("confirmation_source", jopt JString (i_confirmation_source input));
       ("idempotency_key_hash", jopt JString (i_idempotency_key_hash input))] in
  validate_intent_impl document ;;; Ok document.

Definition make_account_audit_checkpoint (input : AccountAuditCheckpointInput) :
    result string json :=
  let document :=
    jobject
      [("schema_version", JInteger 2); ("phase", JString "checkpoint");
       ("invocation_id", JString (invocation_id (c_identity input)));
       ("timestamp", JString (timestamp (c_identity input)));
       ("account", JString (c_account input));
       ("command", JString (account_audit_operation_name (c_operation input)));
       ("checkpoint_sequence", JUnsigned (c_sequence input));
       ("stage", stage_json (c_stage input)); ("data", c_data input)] in
  validate_checkpoint_impl document ;;; Ok document.

Definition outcome_document (input : AccountAuditOutcomeInput) : json :=
  jobject
    [("schema_version", JInteger 2); ("phase", JString "outcome");
     ("invocation_id", JString (invocation_id (o_identity input)));
     ("timestamp", JString (timestamp (o_identity input)));
     ("account", JString (o_account input));
     ("command", JString (account_audit_operation_name (o_operation input)));
     ("success", JBool (o_success input));
     ("mutation_state", JString (account_audit_mutation_state_name (o_mutation_state input)));
     ("completed_stages", JArray (map stage_json (o_completed_stages input)));
     ("terminal", o_terminal input)].

Definition make_account_audit_outcome (input : AccountAuditOutcomeInput) : result string json :=
  validate_outcome_impl (outcome_document input) ;;; Ok (outcome_document input).

(** * The history of a group *)

Definition allowed_order (operation : AccountAuditOperation) : list AccountAuditStage :=
  let w := WriteOp.of_audit operation in
  if eqb operation SavedAttach then
    [IdempotencyPending; SpoolReady; DispatchStarted; TemporaryIdsObserved; MutationConfirmed]
  else if WriteOp.uses_photo_spool w then
    [IdempotencyPending; SpoolReady; DispatchStarted; MutationConfirmed]
  else if eqb operation MsgForward then
    [IdempotencyPending; DispatchStarted; TemporaryIdsObserved; ForwardProgress; MutationConfirmed]
  else if eqb operation Send then
    [IdempotencyPending; DispatchStarted; TemporaryIdsObserved; MutationConfirmed]
  else if negb (WriteOp.idempotent w) then [DispatchStarted; MutationConfirmed]
  else [IdempotencyPending; DispatchStarted; MutationConfirmed].

Fixpoint position_in (stage : AccountAuditStage) (order : list AccountAuditStage) : option nat :=
  match order with
  | [] => None
  | s :: rest => if eqb s stage then Some O else option_map S (position_in stage rest)
  end.

(** The local variables of [transition_history]. *)
Record History := {
  previous_sequence : Z;
  previous_position : option nat;
  previous_forward : option json;
  progress_count : nat;
  saw_idempotency : bool;
  saw_spool : bool;
  saw_dispatch : bool;
  saw_temporary_ids : bool;
  saw_mutation : bool
}.

Definition empty_history : History :=
  {| previous_sequence := 0; previous_position := None; previous_forward := None;
     progress_count := 0; saw_idempotency := false; saw_spool := false; saw_dispatch := false;
     saw_temporary_ids := false; saw_mutation := false |}.

Definition not_equal (a b : json) : bool := negb (json_eqb a b).

(** The loop over two forward vectors of the same size; the value is
    [advanced]. *)
Fixpoint forward_advance (before after : list json) : result string bool :=
  match before, after with
  | b :: before', a :: after' =>
      check (negb (negb (same "source_id" b a) || (negb (status_is "pending" b) && not_equal b a)))
        "forward vector regressed or changed terminal item" ;;;
      check (negb (status_is "pending" b && status_is "pending" a && not_equal b a))
        "forward pending item changed without becoming terminal" ;;;
      rest <- forward_advance before' after' ;;
      Ok (not_equal b a || rest)
  | _, _ => Ok false
  end.

(** The predecessors a stage needs, and the flags it sets ([switch]). *)
Definition stage_transition (operation : AccountAuditOperation) (stage : AccountAuditStage)
    (h : History) : result string History :=
  let started := has_value (previous_position h) in
  let set i s d t m :=
    {| previous_sequence := previous_sequence h; previous_position := previous_position h;
       previous_forward := previous_forward h; progress_count := progress_count h;
       saw_idempotency := i; saw_spool := s; saw_dispatch := d; saw_temporary_ids := t;
       saw_mutation := m |} in
  let i := saw_idempotency h in let s := saw_spool h in let d := saw_dispatch h in
  let t := saw_temporary_ids h in let m := saw_mutation h in
  match stage with
  | IdempotencyPending =>
      check (negb (started || i)) "idempotency checkpoint is not first" ;;; Ok (set true s d t m)
  | SpoolReady =>
      check (negb (negb (uses_spool operation) || s || d || (started && negb i)))
        "spool checkpoint has an illegal predecessor" ;;; Ok (set i true d t m)
  | DispatchStarted =>
      check (negb (d || m || (eqb operation SavedAttach && negb s)
                   || (started && negb i && negb s)))
        "dispatch checkpoint has an illegal predecessor" ;;; Ok (set i s true t m)
  | TemporaryIdsObserved =>
      check (negb (negb d || t || m)) "temporary ids checkpoint has an illegal predecessor" ;;;
      Ok (set i s d true m)
  | ForwardProgress =>
      check (negb (negb d || m)) "forward progress has an illegal predecessor" ;;;
      Ok (set i s d t m)
  | MutationConfirmed =>
      check (negb (negb d || m)) "mutation proof has an illegal predecessor" ;;;
      Ok (set i s d t true)
  end.

Definition progress_transition (stage : AccountAuditStage) (data : json) (h : History) :
    result string History :=
  if negb (eqb stage ForwardProgress) then Ok h
  else
    check (Nat.leb (S (progress_count h)) kMaximumForwardProgressRecords)
      "too many forward progress records" ;;;
    let current := jget data "items" in
    match previous_forward h with
    | None => Ok tt
    | Some before =>
        check (Nat.eqb (jsize current) (jsize before)) "forward vector size changed" ;;;
        advanced <- forward_advance (elements before) (elements current) ;;
        check advanced "forward progress did not advance"
    end ;;;
    Ok {| previous_sequence := previous_sequence h; previous_position := previous_position h;
          previous_forward := Some current; progress_count := S (progress_count h);
          saw_idempotency := saw_idempotency h; saw_spool := saw_spool h;
          saw_dispatch := saw_dispatch h; saw_temporary_ids := saw_temporary_ids h;
          saw_mutation := saw_mutation h |}.

(** One iteration. *)
Definition history_step (operation : AccountAuditOperation) (h : History)
    (checkpoint : AccountAuditCheckpointInput) : result string History :=
  let stage := c_stage checkpoint in
  check (eqb (c_operation checkpoint) operation
         && (previous_sequence h <? c_sequence checkpoint)
         && valid_checkpoint_data operation stage (c_data checkpoint))
    "invalid v2 checkpoint history identity or sequence" ;;;
  position <- of_option "illegal v2 checkpoint stage" (position_in stage (allowed_order operation)) ;;
  check (negb (match previous_position h with Some p => Nat.ltb position p | None => false end))
    "v2 checkpoint stage regression" ;;;
  check (negb (match previous_position h with
               | Some p => Nat.eqb position p && negb (eqb stage ForwardProgress)
               | None => false end))
    "repeated non-forward checkpoint stage" ;;;
  check (negb (eqb stage IdempotencyPending
               && negb (WriteOp.idempotent (WriteOp.of_audit operation))))
    "operation cannot use idempotency" ;;;
  h <- stage_transition operation stage h ;;
  h <- progress_transition stage (c_data checkpoint) h ;;
  Ok {| previous_sequence := c_sequence checkpoint; previous_position := Some position;
        previous_forward := previous_forward h; progress_count := progress_count h;
        saw_idempotency := saw_idempotency h; saw_spool := saw_spool h;
        saw_dispatch := saw_dispatch h; saw_temporary_ids := saw_temporary_ids h;
        saw_mutation := saw_mutation h |}.

Fixpoint run_history (operation : AccountAuditOperation) (h : History)
    (history : list AccountAuditCheckpointInput) : result string History :=
  match history with
  | [] => Ok h
  | checkpoint :: rest => h' <- history_step operation h checkpoint ;; run_history operation h' rest
  end.

Definition transition_history (operation : AccountAuditOperation)
    (history : list AccountAuditCheckpointInput) : result string unit :=
  run_history operation empty_history history ;;; Ok tt.

(** * The open group *)

Record AccountAuditOpenGroup := {
  audit_generation : Z;
  intent : json;
  checkpoints : list json;
  completed_stages : list AccountAuditStage;
  keyed : bool;
  has_spool : bool;
  dispatch_started : bool;
  mutation_confirmed : bool;
  forward_complete : bool;
  any_forward_sent : bool
}.

Definition incomplete_terminal (account audit_path : string) (mutation : AccountAuditMutationState)
    (completed : list AccountAuditStage) : json :=
  jobject
    [("kind", JString "error"); ("code", JString "AUDIT_INCOMPLETE");
     ("message", JString "a prior audited invocation did not reach a terminal proof");
     ("details",
      jobject [("account", JString account); ("path", JString audit_path);
               ("mutation_state", JString (account_audit_mutation_state_name mutation));
               ("completed_stages", JArray (map stage_json completed))]);
     ("exit_code", JInteger 1)].

Definition forward_vector_complete (items : json) : bool :=
  negb (existsb (status_is "pending") (elements items)).

Definition stage_is (stage : string) (checkpoint : json) : bool :=
  eq_str (jget checkpoint "stage") stage.

(** [find_if] from the back. *)
Definition last_checkpoint (stage : string) (g : AccountAuditOpenGroup) : option json :=
  find (stage_is stage) (rev (checkpoints g)).

Definition final_forward_items (g : AccountAuditOpenGroup) : option json :=
  option_map (fun checkpoint => jget (jget checkpoint "data") "items")
    (last_checkpoint "forward_progress" g).

Definition rate_limited_failure (item : json) : bool :=
  eq_str (jget item "failure_reason") "tdlib_error" && eq_int (jget item "tdlib_code") 429
  && negb (is_null (jget item "retry_after")).

Definition forward_error (code message : string) (from to items : json) : json :=
  jobject
    [("kind", JString "error"); ("code", JString code); ("message", JString message);
     ("details",
      jobject [("operation", JString "msg_forward"); ("from_chat_id", from); ("to_chat_id", to);
               ("items", items)]);
     ("exit_code", JInteger 1)].

Definition derive_forward_terminal (g : AccountAuditOpenGroup) : result string json :=
  items <- of_option "terminal forward vector is unavailable" (final_forward_items g) ;;
  check (forward_vector_complete items) "terminal forward vector is unavailable" ;;;
  let from := jget (jget (jget (intent g) "plan") "from") "id" in
  let to := jget (jget (jget (intent g) "plan") "to") "id" in
  let sent := count_sent items in
  Ok (if Nat.eqb sent (jsize items) then
        jobject [("kind", JString "result");
                 ("data", jobject [("from_chat_id", from); ("to_chat_id", to); ("items", items)])]
      else if Nat.ltb 0 sent then
        forward_error "FORWARD_PARTIAL" "some messages could not be forwarded" from to items
      else if forallb rate_limited_failure (elements items) then
        jobject
          [("kind", JString "error"); ("code", JString "RATE_LIMITED");
           ("message", JString "Telegram rate limit exceeded");
           ("details",
            jobject [("operation", JString "msg_forward"); ("tdlib_code", JInteger 429);
                     ("retry_after",
                      JInteger (fold_left (fun m item => Z.max m (get_i64 (jget item "retry_after")))
                                  (elements items) 0));
                     ("items", items)]);
           ("exit_code", JInteger 5)]
      else forward_error "FORWARD_FAILED" "messages could not be forwarded" from to items).

Definition forward_terminal_items (terminal : json) : option json :=
  if is_result terminal then jfind (jget terminal "data") "items"
  else jfind (jget terminal "details") "items".

Definition terminal_matches_latest_forward (g : AccountAuditOpenGroup) (terminal : json) : bool :=
  match forward_terminal_items terminal with
  | None => true
  | Some terminal_items =>
      match final_forward_items g with
      | None =>
          is_error terminal && jempty terminal_items
          && (eq_str (jget terminal "code") "RATE_LIMITED"
              || eq_str (jget terminal "code") "TIMEOUT")
      | Some durable_items =>
          canonical_json_equal terminal_items durable_items
          && sources_match (elements terminal_items)
               (elements (jget (jget (intent g) "arguments") "message_ids"))
      end
  end.

Definition deletion_ambiguity (item : json) : bool :=
  status_is "failed" item && eq_str (jget item "failure_reason") "deleted_before_confirmation".

Definition derive_mutation_state (g : AccountAuditOpenGroup) : AccountAuditMutationState :=
  if mutation_confirmed g || any_forward_sent g then MutationConfirmedState
  else if negb (dispatch_started g) then MutationNone
  else if negb (forward_complete g) then MutationPossible
  else
    match final_forward_items g with
    | None => MutationPossible
    | Some items =>
        if existsb deletion_ambiguity (elements items) then MutationPossible else MutationNone
    end.

(** * Completed groups *)

Record AccountAuditCompletedGroupView := {
  v_audit_generation : Z;
  v_invocation_id : string;
  v_account : string;
  v_operation : AccountAuditOperation;
  v_request_fingerprint : string;
  v_idempotency_key_hash : option string;
  v_plan : json;
  v_intent_timestamp : string;
  v_intent_unix_seconds : Z;
  v_idempotency_pending : option json;
  v_spool : option SpoolRef;
  v_temporary_message_ids : json;
  v_forward_progress : json;
  v_mutation_proof : option json;
  v_completed_stages : list AccountAuditStage;
  v_outcome : option json
}.

Definition spool_of (data : json) : SpoolRef :=
  {| relative_path := get_string (jget data "relative_path");
     file := file_snapshot_of (jget data "file") |}.

(** The last value a loop over the checkpoints assigns. *)
Definition last_data (stage : string) (g : AccountAuditOpenGroup) : option json :=
  option_map (fun checkpoint => jget checkpoint "data") (last_checkpoint stage g).

Definition make_completed_view (g : AccountAuditOpenGroup) (outcome : json) :
    result string AccountAuditCompletedGroupView :=
  let error := "validated completed group lost its typed intent facts" in
  operation <- of_option error (command_of (intent g)) ;;
  unix_seconds <- of_option error (timestamp_unix_seconds (jget (intent g) "timestamp")) ;;
  let hash := jget (intent g) "idempotency_key_hash" in
  Ok {| v_audit_generation := audit_generation g;
        v_invocation_id := get_string (jget (intent g) "invocation_id");
        v_account := get_string (jget (intent g) "account");
        v_operation := operation;
        v_request_fingerprint := get_string (jget (intent g) "request_fingerprint");
        v_idempotency_key_hash := if is_null hash then None else Some (get_string hash);
        v_plan := jget (intent g) "plan";
        v_intent_timestamp := get_string (jget (intent g) "timestamp");
        v_intent_unix_seconds := unix_seconds;
        v_idempotency_pending := last_data "idempotency_pending" g;
        v_spool := option_map spool_of (last_data "spool_ready" g);
        v_temporary_message_ids :=
          match last_data "temporary_ids_observed" g with
          | Some data => jget data "temporary_message_ids"
          | None => JArray []
          end;
        v_forward_progress :=
          match last_data "forward_progress" g with
          | Some data => jget data "items"
          | None => JArray []
          end;
        v_mutation_proof := last_data "mutation_confirmed" g;
        v_completed_stages := completed_stages g;
        v_outcome := Some outcome |}.

(** * The scan *)

Record AccountAuditHoldSeed := {
  seed_generation : Z; seed_invocation_id : string; seed_spool : SpoolRef
}.

Definition open_group (audit_generation : Z) (document : json) : AccountAuditOpenGroup :=
  {| audit_generation := audit_generation; intent := document; checkpoints := [];
     completed_stages := []; keyed := negb (is_null (jget document "idempotency_key_hash"));
     has_spool := false; dispatch_started := false; mutation_confirmed := false;
     forward_complete := false; any_forward_sent := false |}.

(** The typed form of a validated checkpoint document; [None] is a lost enum
    identity. *)
Definition checkpoint_input (document : json) : option AccountAuditCheckpointInput :=
  match command_of document, stage_of document with
  | Some operation, Some stage =>
      Some {| c_identity :=
                {| invocation_id := get_string (jget document "invocation_id");
                   timestamp := get_string (jget document "timestamp") |};
              c_account := get_string (jget document "account");
              c_operation := operation;
              c_sequence := u32 (get_u64 (jget document "checkpoint_sequence"));
              c_stage := stage;
              c_data := jget document "data" |}
  | _, _ => None
  end.

Fixpoint checkpoint_inputs (documents : list json) : option (list AccountAuditCheckpointInput) :=
  match documents with
  | [] => Some []
  | document :: rest =>
      match checkpoint_input document, checkpoint_inputs rest with
      | Some input, Some inputs => Some (input :: inputs)
      | _, _ => None
      end
  end.

(** The temporary ids of the items still pending. *)
Definition pending_ids (items : json) : json :=
  JArray (map (fun item => jget item "temporary_message_id")
            (filter (status_is "pending") (elements items))).

(** What a checkpoint says against its intent, stage by stage. *)
Definition checkpoint_agrees (g : AccountAuditOpenGroup) (checkpoint : AccountAuditCheckpointInput) :
    result string unit :=
  let data := c_data checkpoint in
  let hash := jget (intent g) "idempotency_key_hash" in
  let message_ids := jget (jget (intent g) "arguments") "message_ids" in
  match c_stage checkpoint with
  | IdempotencyPending =>
      check (negb (is_null hash) && json_eqb (jget data "key_hash") hash
             && same "request_fingerprint" data (intent g))
        "idempotency checkpoint contradicts the intent"
  | SpoolReady =>
      check (json_eqb (jget data "file") (jget (jget (intent g) "plan") "file"))
        "spool checkpoint file contradicts the intent"
  | TemporaryIdsObserved =>
      let forward := eqb (c_operation checkpoint) MsgForward in
      let maximum_count := if forward then jsize message_ids else 1%nat in
      let count := jsize (jget data "temporary_message_ids") in
      check (Nat.leb count maximum_count && (forward || Nat.eqb count 1))
        "temporary id vector does not match the intent"
  | ForwardProgress =>
      let items := jget data "items" in
      check (Nat.eqb (jsize items) (jsize message_ids)) "forward vector does not match the intent" ;;;
      check (sources_match (elements items) (elements message_ids))
        "forward source order does not match the intent" ;;;
      match find (stage_is "forward_progress") (checkpoints g) with
      | Some _ => Ok tt
      | None =>
          check (match find (stage_is "temporary_ids_observed") (checkpoints g) with
                 | None => jempty (pending_ids items)
                 | Some temporary =>
                     json_eqb (jget (jget temporary "data") "temporary_message_ids")
                       (pending_ids items)
                 end)
            "forward pending ids do not match the durable temporary ids"
      end
  | _ => Ok tt
  end.

(** What a mutation proof must agree with. *)
Definition proof_agrees (g : AccountAuditOpenGroup) (checkpoint : AccountAuditCheckpointInput) :
    result string unit :=
  if negb (eqb (c_stage checkpoint) MutationConfirmed) then Ok tt
  else
    let operation := c_operation checkpoint in
    let terminal := jget (c_data checkpoint) "terminal" in
    check (terminal_matches_plan operation terminal (intent g))
      "mutation proof terminal contradicts the immutable plan" ;;;
    if negb (eqb operation MsgForward) then Ok tt
    else
      check (terminal_matches_latest_forward g terminal)
        "mutation proof terminal contradicts the latest durable forward vector" ;;;
      if is_error terminal && eq_str (jget terminal "code") "INTERNAL" then
        check (negb (has_value (final_forward_items g)))
          "forward oversized terminal follows a persisted vector"
      else if is_error terminal && eq_str (jget terminal "code") "TIMEOUT" then
        check (negb (forward_complete g)) "forward timeout mutation proof follows a complete vector"
      else if negb (forward_complete g) then
        Err "forward mutation proof precedes a complete vector"
      else
        derived <- derive_forward_terminal g ;;
        check (canonical_json_equal terminal derived)
          "forward mutation proof contradicts the terminal vector".

Definition push_checkpoint (g : AccountAuditOpenGroup) (document : json)
    (checkpoint : AccountAuditCheckpointInput) : AccountAuditOpenGroup :=
  let stage := c_stage checkpoint in
  let items := jget (c_data checkpoint) "items" in
  let progress := eqb stage ForwardProgress in
  {| audit_generation := audit_generation g; intent := intent g;
     checkpoints := checkpoints g ++ [document];
     completed_stages :=
       if progress && has_stage stage (completed_stages g) then completed_stages g
       else completed_stages g ++ [stage];
     keyed := keyed g;
     has_spool := has_spool g || eqb stage SpoolReady;
     dispatch_started := dispatch_started g || eqb stage DispatchStarted;
     mutation_confirmed := mutation_confirmed g || eqb stage MutationConfirmed;
     forward_complete := if progress then forward_vector_complete items else forward_complete g;
     any_forward_sent :=
       any_forward_sent g || (progress && existsb (status_is "sent") (elements items)) |}.

Definition consume_checkpoint (g : AccountAuditOpenGroup) (document : json) :
    result string AccountAuditOpenGroup :=
  checkpoint <- of_option "validated v2 checkpoint lost its enum identity"
                  (checkpoint_input document) ;;
  checkpoint_agrees g checkpoint ;;;
  history <- of_option "validated v2 history lost its enum identity"
               (checkpoint_inputs (checkpoints g)) ;;
  transition_history (c_operation checkpoint) (history ++ [checkpoint]) ;;;
  proof_agrees g checkpoint ;;;
  Ok (push_checkpoint g document checkpoint).

(** What an outcome must agree with; the group as the visitor sees it. *)
Definition consume_outcome (g : AccountAuditOpenGroup) (document : json) :
    result string AccountAuditCompletedGroupView :=
  let terminal := jget document "terminal" in
  check (json_eqb (jget document "completed_stages") (JArray (map stage_json (completed_stages g))))
    "v2 outcome stages do not match the durable prefix" ;;;
  let operation := command_of (intent g) in
  let expected := derive_mutation_state g in
  let explicit_no_mutation :=
    match operation with
    | Some op =>
        eqb expected MutationPossible && eq_str (jget document "mutation_state") "none"
        && terminal_proves_explicit_no_mutation op terminal
    | None => false
    end in
  check (eq_str (jget document "mutation_state") (account_audit_mutation_state_name expected)
         || explicit_no_mutation)
    "v2 outcome mutation state contradicts the durable prefix" ;;;
  operation <- of_option "v2 outcome terminal contradicts the immutable plan" operation ;;
  check (terminal_matches_plan operation terminal (intent g))
    "v2 outcome terminal contradicts the immutable plan" ;;;
  check (negb (eqb operation MsgForward && negb (terminal_matches_latest_forward g terminal)))
    "v2 outcome terminal contradicts the latest durable forward vector" ;;;
  (if mutation_confirmed g then
     check (match last_checkpoint "mutation_confirmed" g with
            | Some found =>
                canonical_json_equal terminal (jget (jget found "data") "terminal")
            | None => false
            end)
       "v2 outcome terminal contradicts the mutation proof"
   else if forward_complete g then
     derived <- derive_forward_terminal g ;;
     check (canonical_json_equal terminal derived)
       "v2 outcome contradicts the terminal forward vector"
   else Ok tt) ;;;
  make_completed_view g document.

Definition matching_group (state : option AccountAuditOpenGroup) (document : json) :
    option AccountAuditOpenGroup :=
  match state with
  | Some g =>
      if same "invocation_id" (intent g) document && same "command" (intent g) document
         && same "account" (intent g) document
      then Some g else None
  | None => None
  end.

(** One record: the new open group, and the group it completed. *)
Definition consume_v2 (generation : Z) (document : json) (state : option AccountAuditOpenGroup) :
    result string (option AccountAuditOpenGroup * option AccountAuditCompletedGroupView) :=
  check (is_object document && contains document "phase" && is_string (jget document "phase"))
    "invalid v2 record phase" ;;;
  let phase := get_string (jget document "phase") in
  if String.eqb phase "intent" then
    match state with
    | Some _ => Err "v2 intent contradicts chronology"
    | None => validate_intent_impl document ;;; Ok (Some (open_group generation document), None)
    end
  else if String.eqb phase "checkpoint" then
    validate_checkpoint_impl document ;;;
    g <- of_option "v2 record has no matching open group" (matching_group state document) ;;
    g' <- consume_checkpoint g document ;;
    Ok (Some g', None)
  else if String.eqb phase "outcome" then
    validate_outcome_impl document ;;;
    g <- of_option "v2 record has no matching open group" (matching_group state document) ;;
    view <- consume_outcome g document ;;
    Ok (None, Some view)
  else Err "invalid v2 record phase".

(** The seed kept for a spool a completed group still references. *)
Definition hold_seed (view : AccountAuditCompletedGroupView) : option AccountAuditHoldSeed :=
  option_map
    (fun spool => {| seed_generation := v_audit_generation view;
                     seed_invocation_id := v_invocation_id view; seed_spool := spool |})
    (v_spool view).

(** [make_spool_hold_seed], for the group left open. *)
Definition open_hold_seed (g : AccountAuditOpenGroup) : option AccountAuditHoldSeed :=
  option_map
    (fun checkpoint =>
       {| seed_generation := audit_generation g;
          seed_invocation_id := get_string (jget (intent g) "invocation_id");
          seed_spool := spool_of (jget checkpoint "data") |})
    (find (stage_is "spool_ready") (checkpoints g)).

(** The records of one scan, in order. *)
Fixpoint scan (generation : Z) (state : option AccountAuditOpenGroup) (documents : list json) :
    result string (option AccountAuditOpenGroup * list AccountAuditCompletedGroupView) :=
  match documents with
  | [] => Ok (state, [])
  | document :: rest =>
      '(state', completed) <- consume_v2 generation document state ;;
      '(state'', views) <- scan generation state' rest ;;
      Ok (state'', match completed with Some view => view :: views | None => views end)
  end.

(** * Recovery after a restart *)

Record AccountAuditPin := {
  pin_generation : Z; pin_invocation_id : string; pin_fingerprint : string;
  pin_operation : AccountAuditOperation
}.

Inductive AccountAuditPinSource :=
| KnownAccountAuditPins (pins : list AccountAuditPin)
| UnavailableAccountAuditPins (reason : AccountAuditDurabilityReason)
| AbsentAccountAuditPinsByPolicy.

Inductive AccountAuditRecoveryBoundary :=
| DeleteSpoolAndSyncRoot | AppendMutationProofAndSync | AppendOutcomeAndSync
| TransitionStoreAndSync | CleanupSpoolAndSyncRoot.

Record AccountAuditRecoveryPlan := {
  r_mutation_state : AccountAuditMutationState;
  r_terminal : json;
  r_boundaries : list AccountAuditRecoveryBoundary;
  r_continue_current_request : bool;
  r_retain_store : bool;
  r_retain_spool : bool;
  r_complete_store : bool
}.

Definition when {A} (b : bool) (x : A) : list A := if b then [x] else [].

Definition classify_account_audit_recovery (g : AccountAuditOpenGroup) (account audit_path : string)
    (pins : AccountAuditPinSource) : result string AccountAuditRecoveryPlan :=
  operation <- of_option "audit recovery group has an invalid operation" (command_of (intent g)) ;;
  match pins with
  | UnavailableAccountAuditPins _ => Err "audit pin provider is unavailable"
  | _ => Ok tt
  end ;;;
  match pins with
  | AbsentAccountAuditPinsByPolicy =>
      check (negb (keyed g || has_spool g))
        "store-dependent audit group cannot be recovered without store policy"
  | _ => Ok tt
  end ;;;
  let plan := jget (intent g) "plan" in
  if negb (dispatch_started g) then
    let mark_read_noop :=
      eqb operation ChatMarkRead && is_null (jget plan "tdlib_request")
      && is_null (jget plan "last_message_id") in
    Ok {| r_mutation_state := MutationNone;
          r_terminal :=
            if mark_read_noop then
              jobject [("kind", JString "result");
                       ("data",
                        jobject [("chat_id", jget (jget plan "chat") "id");
                                 ("last_read_message_id", JNull); ("marked_read", JBool true)])]
            else incomplete_terminal account audit_path MutationNone (completed_stages g);
          r_boundaries :=
            when (has_spool g) DeleteSpoolAndSyncRoot ++ [AppendOutcomeAndSync]
            ++ when (keyed g) TransitionStoreAndSync;
          r_continue_current_request := true; r_retain_store := false; r_retain_spool := false;
          r_complete_store :=
            keyed g && mark_read_noop && has_stage IdempotencyPending (completed_stages g) |}
  else if negb (mutation_confirmed g) && negb (forward_complete g) then
    Ok {| r_mutation_state := derive_mutation_state g;
          r_terminal :=
            incomplete_terminal account audit_path (derive_mutation_state g) (completed_stages g);
          r_boundaries := [AppendOutcomeAndSync]; r_continue_current_request := false;
          r_retain_store := keyed g; r_retain_spool := has_spool g; r_complete_store := false |}
  else
    derived <- (if forward_complete g && negb (mutation_confirmed g) then derive_forward_terminal g
                else Ok JNull) ;;
    terminal <- (if mutation_confirmed g then
                   found <- of_option "mutation proof is missing its stored terminal"
                              (last_checkpoint "mutation_confirmed" g) ;;
                   Ok (jget (jget found "data") "terminal")
                 else Ok derived) ;;
    let retain_incomplete_forward :=
      eqb operation MsgForward && mutation_confirmed g && negb (forward_complete g)
      && has_value (final_forward_items g) in
    Ok {| r_mutation_state := derive_mutation_state g;
          r_terminal := terminal;
          r_boundaries :=
            when (forward_complete g && any_forward_sent g && negb (mutation_confirmed g))
              AppendMutationProofAndSync
            ++ [AppendOutcomeAndSync] ++ when (keyed g) TransitionStoreAndSync
            ++ when (has_spool g && negb retain_incomplete_forward) CleanupSpoolAndSyncRoot;
          r_continue_current_request := true;
          r_retain_store := keyed g && retain_incomplete_forward;
          r_retain_spool := has_spool g && retain_incomplete_forward;
          r_complete_store := false |}.

(** * Pins: the intents the idempotency store still refers to *)

Record AccountAuditPinMatch := { pin : AccountAuditPin; matched : bool }.

Definition pin_key_is (generation : Z) (invocation : string) (m : AccountAuditPinMatch) : bool :=
  (pin_generation (pin m) =? generation) && String.eqb (pin_invocation_id (pin m)) invocation.

(** The map from key to match; its iteration order is not observed. *)
Fixpoint index_pins (index : list AccountAuditPinMatch) (pins : list AccountAuditPin) :
    result string (list AccountAuditPinMatch) :=
  match pins with
  | [] => Ok index
  | p :: rest =>
      check (negb (pin_generation p =? 0) && valid_hex (pin_invocation_id p) 32
             && valid_hash (JString (pin_fingerprint p))
             && negb (str_empty (account_audit_operation_name (pin_operation p))))
        "audit pin has an invalid tuple" ;;;
      check (negb (existsb (pin_key_is (pin_generation p) (pin_invocation_id p)) index))
        "audit pin tuple is duplicated" ;;;
      index_pins ({| pin := p; matched := false |} :: index) rest
  end.

Definition make_pin_index (source : option AccountAuditPinSource) :
    result string (list AccountAuditPinMatch) :=
  match source with
  | Some (KnownAccountAuditPins pins) =>
      check (Nat.leb (List.length pins) (Z.to_nat 10000))
        "audit pin count exceeds the bounded store maximum" ;;;
      index_pins [] pins
  | _ => Ok []
  end.

Definition match_pin (pins : list AccountAuditPinMatch) (generation : Z) (intent : json) :
    result string (list AccountAuditPinMatch) :=
  let invocation := get_string (jget intent "invocation_id") in
  match find (pin_key_is generation invocation) pins with
  | None => Ok pins
  | Some found =>
      check (negb (matched found)
             && match command_of intent with
                | Some operation => eqb (pin_operation (pin found)) operation
                | None => false
                end
             && String.eqb (pin_fingerprint (pin found))
                  (get_string (jget intent "request_fingerprint")))
        "audit pin does not uniquely match its durable intent" ;;;
      Ok (map (fun m => if pin_key_is generation invocation m
                        then {| pin := pin m; matched := true |} else m) pins)
  end.

Definition all_pins_matched (pins : list AccountAuditPinMatch) : bool := forallb matched pins.

End records.
