(* ===== verification/IdempotencyStore.v ===== *)
(** The idempotency store (src/src/daemon/idempotency_store.cpp,
    idempotency_store.hpp): entries and their validation, the canonical
    snapshot with its reserved space, decoding, lookup, and the transitions of
    one entry.  The files that hold a snapshot are in [IdempotencyFile].

    The JSON parser with its duplicate-key callback is the parameter
    [json_parse]: [None] where the text is no document, otherwise the document
    and whether a key was repeated. *)
From S2P Require Import Prelude Json CanonicalJson Paths FsPath Operation DestructivePlan.
From S2P Require Import M6Domain M6Audit AuditSchema AuditLog.
Import Audit.

(** * Data *)

Definition kIdempotencyStoreMaximumBytes : Z := 16 * 1024 * 1024.
Definition kIdempotencyStoreMaximumEntries : nat := Z.to_nat 10000.
Definition kIdempotencyRetentionSeconds : Z := 604800.
Definition kIdempotencyMaximumUnixSeconds : Z := 253402300799.

Definition kFinalName : string := "idempotency.db".
Definition kTempName : string := ".idempotency.db.tmp".

Inductive IdempotencyEntryState : Set := Pending | Completed.

#[export] Instance IdempotencyEntryState_eq_dec : EqDec IdempotencyEntryState.
Proof. intros x y; decide equality. Defined.

Record IdempotencyEntry := {
  key_hash : string;
  request_fingerprint : string;
  operation : AccountAuditOperation;
  state : IdempotencyEntryState;
  entry_invocation_id : string;
  entry_audit_generation : Z;
  created_at : Z;
  expires_at : Z;
  reserved_terminal_bytes : Z;
  plan : json;
  temporary_message_ids : json;
  forward_progress : json;
  spool : option SpoolRef;
  terminal : option json
}.

Record IdempotencyPendingInput := {
  p_key_hash : string;
  p_request_fingerprint : string;
  p_operation : AccountAuditOperation;
  p_invocation_id : string;
  p_audit_generation : Z;
  p_created_at : Z;
  p_plan : json
}.

Inductive Interruption : Set := DeadlineInterruption | CancelledInterruption.

Record IdempotencyFailure := {
  f_reason : AccountAuditDurabilityReason;
  f_account : string;
  f_path : string;
  f_detail : string;
  f_interruption : option Interruption
}.

Record IdempotencySnapshot := {
  entries : list IdempotencyEntry;
  canonical_bytes : string
}.

Definition make_failure (account path : string) (reason : AccountAuditDurabilityReason)
    (detail : string) : IdempotencyFailure :=
  {| f_reason := reason; f_account := account; f_path := path; f_detail := detail;
     f_interruption := None |}.

(** * Scalars *)

Definition valid_digest (value : string) : bool :=
  starts_with value "sha256:" && (str_len value =? 71) && str_all is_lower_hex (str_drop 7 value).

Definition parse_idempotency_key_hash (value : string) : option string :=
  if valid_digest value then Some value else None.

Definition parse_idempotency_request_fingerprint (value : string) : option string :=
  if valid_digest value then Some value else None.

(** [path::filename] and [path::parent_path] of a path. *)
Definition filename (p : fs_path) : string :=
  if trailing p then EmptyString else last (names p) EmptyString.

Definition parent_path (p : fs_path) : fs_path :=
  if trailing p then {| has_root := has_root p; names := names p; trailing := false |}
  else {| has_root := has_root p; names := removelast (names p); trailing := false |}.

Definition valid_frozen_state_path (state_directory account : string) : bool :=
  valid_account_name account && negb (str_empty state_directory)
  && negb (str_contains nul state_directory)
  && (let p := path_of state_directory in
      is_absolute p && String.eqb (generic_string (lexically_normal p)) state_directory
      && String.eqb (filename p) account).

Definition valid_public_store_path (store_path account : string) : bool :=
  let p := path_of store_path in
  is_absolute p && String.eqb (generic_string (lexically_normal p)) store_path
  && String.eqb (filename p) kFinalName && String.eqb (filename (parent_path p)) account.

(** * Documents *)

Definition spool_json (s : SpoolRef) : json :=
  jobject [("relative_path", JString (relative_path s)); ("file", file_snapshot_json (file s))].

Definition parse_spool (value : json) (invocation_id : string) : option SpoolRef :=
  let f := jget value "file" in
  if negb (exact_fields value ["relative_path"; "file"]) || negb (is_string (jget value "relative_path"))
     || negb (exact_fields f file_snapshot_fields)
  then None
  else if negb (is_string (jget f "path")) || negb (is_string (jget f "name"))
          || negb (is_number_unsigned (jget f "size")) || negb (is_string (jget f "sha256"))
          || negb (is_number_unsigned (jget f "device")) || negb (is_number_unsigned (jget f "inode"))
          || negb (is_number_integer (jget f "mtime_ns"))
          || negb (is_number_integer (jget f "ctime_ns"))
  then None
  else
    let result := {| relative_path := get_string (jget value "relative_path");
                     file := file_snapshot_of f |} in
    if validate_account_audit_persisted_spool result invocation_id then Some result else None.

Definition state_name (s : IdempotencyEntryState) : string :=
  match s with Pending => "pending" | Completed => "completed" end.

Definition json_or_null (v : option json) : json :=
  match v with Some v => v | None => JNull end.

Definition entry_json (e : IdempotencyEntry) : json :=
  jobject
    [("key_hash", JString (key_hash e)); ("request_fingerprint", JString (request_fingerprint e));
     ("operation", JString (account_audit_operation_name (operation e)));
     ("state", JString (state_name (state e)));
     ("invocation_id", JString (entry_invocation_id e));
     ("audit_generation", JUnsigned (entry_audit_generation e));
     ("created_at", JUnsigned (created_at e)); ("expires_at", JUnsigned (expires_at e));
     ("reserved_terminal_bytes", JUnsigned (reserved_terminal_bytes e)); ("plan", plan e);
     ("temporary_message_ids", temporary_message_ids e); ("forward_progress", forward_progress e);
     ("spool", match spool e with Some s => spool_json s | None => JNull end);
     ("terminal", json_or_null (terminal e))].

Definition mutable_json (temporary_ids progress terminal : json) : json :=
  jobject [("temporary_message_ids", temporary_ids); ("forward_progress", progress);
           ("terminal", terminal)].

(** The bytes the mutable members take over an empty entry. *)
Definition mutable_charge (e : IdempotencyEntry) : option Z :=
  match canonical_json (mutable_json (JArray []) (JArray []) JNull),
        canonical_json (mutable_json (temporary_message_ids e) (forward_progress e)
                          (json_or_null (terminal e))) with
  | Ok baseline, Ok current =>
      if str_len current <? str_len baseline then None
      else Some (str_len current - str_len baseline)
  | _, _ => None
  end.

Definition valid_entry (e : IdempotencyEntry) (account : string) : bool :=
  if negb (valid_digest (key_hash e)) || negb (valid_digest (request_fingerprint e))
     || negb (WriteOp.idempotent (WriteOp.of_audit (operation e)))
     || negb (valid_invocation_id (entry_invocation_id e)) || (entry_audit_generation e =? 0)
     || (kIdempotencyMaximumUnixSeconds <? created_at e)
     || (kIdempotencyMaximumUnixSeconds <? expires_at e)
     || (kIdempotencyMaximumUnixSeconds - kIdempotencyRetentionSeconds <? created_at e)
     || negb (expires_at e =? u64 (created_at e + kIdempotencyRetentionSeconds))
     || negb (valid_plan (operation e) (plan e) account)
     || negb (validate_account_audit_persisted_temporary_ids (operation e) (temporary_message_ids e)
                (plan e))
     || negb (validate_account_audit_persisted_forward_progress (operation e) (forward_progress e)
                (plan e))
     || match spool e with
        | Some s => negb (validate_account_audit_persisted_spool s (entry_invocation_id e))
        | None => false
        end
  then false
  else
    match mutable_charge e with
    | None => false
    | Some charge =>
        match state e with
        | Pending =>
            negb (has_value (terminal e))
            && (reserved_terminal_bytes e =? account_audit_terminal_reservation (operation e))
            && (charge <=? reserved_terminal_bytes e)
        | Completed =>
            (reserved_terminal_bytes e =? 0) && jempty (temporary_message_ids e)
            && jempty (forward_progress e)
            && match terminal e with
               | Some t =>
                   validate_account_audit_persisted_terminal (operation e) t (plan e) account
               | None => false
               end
            && (charge <=? account_audit_terminal_reservation (operation e))
        end
    end.

(** * Snapshots *)

Definition entry_pin (e : IdempotencyEntry) : AccountAuditPin :=
  {| pin_generation := entry_audit_generation e; pin_invocation_id := entry_invocation_id e;
     pin_fingerprint := request_fingerprint e; pin_operation := operation e |}.

#[export] Instance AccountAuditPin_eq_dec : EqDec AccountAuditPin.
Proof. intros [] []; repeat decide equality. Defined.

(** The local variables of the loop of [canonicalize_snapshot]. *)
Record Accumulated := {
  prior : option string;
  remaining : Z;
  invocations : list string;
  seen_pins : list AccountAuditPin
}.

Definition nothing_accumulated : Accumulated :=
  {| prior := None; remaining := 0; invocations := []; seen_pins := [] |}.

(** One iteration; [None] is the schema error. *)
Definition accumulate (account : string) (acc : Accumulated) (e : IdempotencyEntry) :
    option Accumulated :=
  if negb (valid_entry e account)
     || match prior acc with Some p => negb (str_ltb p (key_hash e)) | None => false end
     || str_in (entry_invocation_id e) (invocations acc)
     || existsb (eqb (entry_pin e)) (seen_pins acc)
  then None
  else
    match mutable_charge e with
    | None => None
    | Some charge =>
        let entry_remaining :=
          match state e with
          | Pending => u64 (reserved_terminal_bytes e - charge)
          | Completed => 0
          end in
        if u64 (kIdempotencyStoreMaximumBytes - entry_remaining) <? remaining acc then None
        else
          Some {| prior := Some (key_hash e); remaining := u64 (remaining acc + entry_remaining);
                  invocations := entry_invocation_id e :: invocations acc;
                  seen_pins := entry_pin e :: seen_pins acc |}
    end.

Fixpoint accumulate_all (account : string) (acc : Accumulated) (l : list IdempotencyEntry) :
    option Accumulated :=
  match l with
  | [] => Some acc
  | e :: rest =>
      match accumulate account acc e with
      | Some acc' => accumulate_all account acc' rest
      | None => None
      end
  end.

Definition snapshot_document (l : list IdempotencyEntry) : json :=
  jobject [("schema_version", JInteger 1); ("entries", JArray (map entry_json l))].

Definition canonicalize_snapshot (l : list IdempotencyEntry) (account : string) :
    result AccountAuditDurabilityReason IdempotencySnapshot :=
  check (Nat.leb (List.length l) kIdempotencyStoreMaximumEntries) SchemaError ;;;
  acc <- of_option SchemaError (accumulate_all account nothing_accumulated l) ;;
  match canonical_json (snapshot_document l) with
  | Err _ => Err SchemaError
  | Ok bytes =>
      check (negb ((kIdempotencyStoreMaximumBytes <? str_len bytes)
                   || (u64 (kIdempotencyStoreMaximumBytes - str_len bytes) <? remaining acc)))
        SchemaError ;;;
      Ok {| entries := l; canonical_bytes := bytes |}
  end.

Definition entry_fields : list string :=
  ["key_hash"; "request_fingerprint"; "operation"; "state"; "invocation_id"; "audit_generation";
   "created_at"; "expires_at"; "reserved_terminal_bytes"; "plan"; "temporary_message_ids";
   "forward_progress"; "spool"; "terminal"].

Definition parse_state (v : json) : option IdempotencyEntryState :=
  if eq_str v "pending" then Some Pending
  else if eq_str v "completed" then Some Completed
  else None.

(** [std::optional<SpoolRef>] from the member; the outer [None] is a bad
    reference. *)
Definition parse_entry_spool (v : json) (invocation_id : string) : option (option SpoolRef) :=
  if is_null v then Some None
  else match parse_spool v invocation_id with Some s => Some (Some s) | None => None end.

Definition parse_entry (value : json) (account : string) : option IdempotencyEntry :=
  if negb (exact_fields value entry_fields) || negb (is_string (jget value "key_hash"))
     || negb (is_string (jget value "request_fingerprint"))
     || negb (is_string (jget value "operation")) || negb (is_string (jget value "state"))
     || negb (is_string (jget value "invocation_id"))
     || negb (is_number_unsigned (jget value "audit_generation"))
     || negb (is_number_unsigned (jget value "created_at"))
     || negb (is_number_unsigned (jget value "expires_at"))
     || negb (is_number_unsigned (jget value "reserved_terminal_bytes"))
     || (4294967295 <? get_u64 (jget value "reserved_terminal_bytes"))
  then None
  else
    match parse_idempotency_key_hash (get_string (jget value "key_hash")),
          parse_idempotency_request_fingerprint (get_string (jget value "request_fingerprint")),
          parse_account_audit_operation (get_string (jget value "operation")),
          parse_state (jget value "state"),
          parse_entry_spool (jget value "spool") (get_string (jget value "invocation_id")) with
    | Some key, Some fingerprint, Some op, Some st, Some sp =>
        if negb (WriteOp.idempotent (WriteOp.of_audit op)) then None
        else
          let t := jget value "terminal" in
          let e := {| key_hash := key; request_fingerprint := fingerprint; operation := op;
                      state := st; entry_invocation_id := get_string (jget value "invocation_id");
                      entry_audit_generation := get_u64 (jget value "audit_generation");
                      created_at := get_u64 (jget value "created_at");
                      expires_at := get_u64 (jget value "expires_at");
                      reserved_terminal_bytes := u32 (get_u64 (jget value "reserved_terminal_bytes"));
                      plan := jget value "plan";
                      temporary_message_ids := jget value "temporary_message_ids";
                      forward_progress := jget value "forward_progress"; spool := sp;
                      terminal := if is_null t then None else Some t |} in
          if valid_entry e account then Some e else None
    | _, _, _, _, _ => None
    end.

Fixpoint parse_entries (account : string) (values : list json) : option (list IdempotencyEntry) :=
  match values with
  | [] => Some []
  | value :: rest =>
      match parse_entry value account, parse_entries account rest with
      | Some e, Some l => Some (e :: l)
      | _, _ => None
      end
  end.

Section decoding.
Variable json_parse : string -> option (json * bool).

Definition decode_snapshot (bytes account : string) :
    result AccountAuditDurabilityReason IdempotencySnapshot :=
  check (negb (str_empty bytes)) ParseError ;;;
  '(document, duplicate) <- of_option ParseError (json_parse bytes) ;;
  check (negb duplicate) ParseError ;;;
  let values := jget document "entries" in
  check (exact_fields document ["schema_version"; "entries"]
         && is_number_unsigned (jget document "schema_version")
         && eq_int (jget document "schema_version") 1 && is_array values
         && Nat.leb (jsize values) kIdempotencyStoreMaximumEntries) SchemaError ;;;
  l <- of_option SchemaError (parse_entries account (elements values)) ;;
  snapshot <- canonicalize_snapshot l account ;;
  check (String.eqb (canonical_bytes snapshot) bytes) SchemaError ;;;
  Ok snapshot.
End decoding.

Definition make_idempotency_pending_entry (input : IdempotencyPendingInput)
    (account store_path : string) : result IdempotencyFailure IdempotencyEntry :=
  check (valid_public_store_path store_path account)
    (make_failure account store_path PathInvalid "invalid public idempotency path") ;;;
  check (p_created_at input <=? kIdempotencyMaximumUnixSeconds - kIdempotencyRetentionSeconds)
    (make_failure account store_path SchemaError "idempotency expiry cannot be represented") ;;;
  let e := {| key_hash := p_key_hash input; request_fingerprint := p_request_fingerprint input;
              operation := p_operation input; state := Pending;
              entry_invocation_id := p_invocation_id input;
              entry_audit_generation := p_audit_generation input;
              created_at := p_created_at input;
              expires_at := u64 (p_created_at input + kIdempotencyRetentionSeconds);
              reserved_terminal_bytes := account_audit_terminal_reservation (p_operation input);
              plan := p_plan input; temporary_message_ids := JArray [];
              forward_progress := JArray []; spool := None; terminal := None |} in
  check (valid_entry e account)
    (make_failure account store_path SchemaError "invalid pending idempotency entry") ;;;
  Ok e.

Definition serialize_idempotency_snapshot (snapshot : IdempotencySnapshot)
    (account store_path : string) : result IdempotencyFailure string :=
  match canonicalize_snapshot (entries snapshot) account with
  | Err reason => Err (make_failure account store_path reason "invalid idempotency snapshot")
  | Ok canonical => Ok (canonical_bytes canonical)
  end.

Definition idempotency_unavailable_terminal (failure : IdempotencyFailure) : json :=
  jobject
    [("kind", JString "error"); ("code", JString "IDEMPOTENCY_UNAVAILABLE");
     ("message", JString "idempotency store is unavailable");
     ("details",
      jobject [("account", JString (f_account failure)); ("path", JString (f_path failure));
               ("reason", JString (account_audit_durability_reason_name (f_reason failure)))]);
     ("exit_code", JInteger 6)].

(** * Lookup *)

(** [std::ranges::lower_bound] on the key: [first] and [len] of the binary
    search; [fuel] bounds the halvings. *)
Fixpoint lower_bound_loop (fuel : nat) (l : list IdempotencyEntry) (key : string)
    (first len : nat) : nat :=
  match fuel with
  | O => first
  | S fuel =>
      match len with
      | O => first
      | _ =>
          let half := Nat.div2 len in
          let middle := (first + half)%nat in
          match nth_error l middle with
          | Some e =>
              if str_ltb (key_hash e) key
              then lower_bound_loop fuel l key (S middle) (len - half - 1)
              else lower_bound_loop fuel l key first half
          | None => first
          end
      end
  end.

Definition lower_bound (l : list IdempotencyEntry) (key : string) : nat :=
  lower_bound_loop (S (List.length l)) l key 0 (List.length l).

(** The iterator tested against [end()] and the key. *)
Definition find_entry (l : list IdempotencyEntry) (key : string) : option (nat * IdempotencyEntry) :=
  let position := lower_bound l key in
  match nth_error l position with
  | Some e => if String.eqb (key_hash e) key then Some (position, e) else None
  | None => None
  end.

Inductive IdempotencyLookupStatus : Set := Miss | PendingHit | CompletedHit | Conflict.

Record IdempotencyLookup := {
  l_status : IdempotencyLookupStatus;
  l_incumbent : option IdempotencyEntry
}.

Definition lookup (snapshot : IdempotencySnapshot) (key fingerprint : string) : IdempotencyLookup :=
  match find_entry (entries snapshot) key with
  | None => {| l_status := Miss; l_incumbent := None |}
  | Some (_, e) =>
      {| l_status :=
           if negb (String.eqb (request_fingerprint e) fingerprint) then Conflict
           else match state e with Pending => PendingHit | Completed => CompletedHit end;
         l_incumbent := Some e |}
  end.

Definition pins (snapshot : IdempotencySnapshot) : AccountAuditPinSource :=
  KnownAccountAuditPins (map entry_pin (entries snapshot)).

(** [vector::insert] and [vector::erase] at a position; [*it = e]. *)
Definition insert_at (n : nat) (e : IdempotencyEntry) (l : list IdempotencyEntry) :
    list IdempotencyEntry := firstn n l ++ e :: skipn n l.
Definition erase_at (n : nat) (l : list IdempotencyEntry) : list IdempotencyEntry :=
  firstn n l ++ skipn (S n) l.
Definition replace_at (n : nat) (e : IdempotencyEntry) (l : list IdempotencyEntry) :
    list IdempotencyEntry := firstn n l ++ e :: skipn (S n) l.

(** * Transitions of one entry

    The lambdas given to [mutate_owned_entry]: the new entry or the detail of a
    schema failure. *)

Definition with_spool (e : IdempotencyEntry) (s : option SpoolRef) : IdempotencyEntry :=
  {| key_hash := key_hash e; request_fingerprint := request_fingerprint e; operation := operation e;
     state := state e; entry_invocation_id := entry_invocation_id e;
     entry_audit_generation := entry_audit_generation e; created_at := created_at e;
     expires_at := expires_at e; reserved_terminal_bytes := reserved_terminal_bytes e;
     plan := plan e; temporary_message_ids := temporary_message_ids e;
     forward_progress := forward_progress e; spool := s; terminal := terminal e |}.

Definition with_progress (e : IdempotencyEntry) (ids items : json) : IdempotencyEntry :=
  {| key_hash := key_hash e; request_fingerprint := request_fingerprint e; operation := operation e;
     state := state e; entry_invocation_id := entry_invocation_id e;
     entry_audit_generation := entry_audit_generation e; created_at := created_at e;
     expires_at := expires_at e; reserved_terminal_bytes := reserved_terminal_bytes e;
     plan := plan e; temporary_message_ids := ids; forward_progress := items; spool := spool e;
     terminal := terminal e |}.

Definition with_terminal (e : IdempotencyEntry) (t : json) : IdempotencyEntry :=
  {| key_hash := key_hash e; request_fingerprint := request_fingerprint e; operation := operation e;
     state := Completed; entry_invocation_id := entry_invocation_id e;
     entry_audit_generation := entry_audit_generation e; created_at := created_at e;
     expires_at := expires_at e; reserved_terminal_bytes := 0; plan := plan e;
     temporary_message_ids := JArray []; forward_progress := JArray []; spool := spool e;
     terminal := Some t |}.

Definition apply_spool_transition (s : SpoolRef) (account : string) (e : IdempotencyEntry) :
    result string IdempotencyEntry :=
  check (negb (negb (eqb (state e) Pending) || negb (eqb (operation e) SavedAttach)
               || negb (validate_account_audit_persisted_spool s (entry_invocation_id e))
               || negb (is_object (plan e)) || negb (contains (plan e) "file")
               || negb (json_eqb (jget (plan e) "file") (file_snapshot_json (file s)))
               || match spool e with Some s' => negb (eqb s' s) | None => false end))
    "invalid spool transition" ;;;
  check (valid_entry (with_spool e (Some s)) account) "invalid spool transition" ;;;
  Ok (with_spool e (Some s)).

Definition temporary_ids_transition (ids : json) (e : IdempotencyEntry) :
    result string IdempotencyEntry :=
  check (eqb (state e) Pending
         && validate_account_audit_persisted_temporary_ids (operation e) ids (plan e)
         && negb (negb (jempty (temporary_message_ids e))
                  && negb (json_eqb (temporary_message_ids e) ids)))
    "invalid temporary-id transition" ;;;
  Ok (with_progress e ids (forward_progress e)).

Fixpoint items_advance (before after : list json) : bool :=
  match before, after with
  | b :: before', a :: after' =>
      negb (negb (same "source_id" b a) || (negb (status_is "pending" b) && not_equal b a)
            || (status_is "pending" b && status_is "pending" a && not_equal b a))
      && items_advance before' after'
  | _, _ => true
  end.

Definition advances (before items : json) : bool :=
  jempty before || json_eqb before items
  || (is_array before && is_array items && Nat.eqb (jsize before) (jsize items)
      && items_advance (elements before) (elements items)).

Definition forward_progress_transition (items : json) (e : IdempotencyEntry) :
    result string IdempotencyEntry :=
  check (eqb (state e) Pending
         && validate_account_audit_persisted_forward_progress (operation e) items (plan e)
         && advances (forward_progress e) items)
    "invalid forward-progress transition" ;;;
  Ok (with_progress e (temporary_message_ids e) items).

Definition complete_transition (t : json) (account : string) (e : IdempotencyEntry) :
    result string IdempotencyEntry :=
  check (validate_account_audit_persisted_terminal (operation e) t (plan e) account)
    "invalid completed terminal" ;;;
  match state e with
  | Completed =>
      check (match terminal e with Some t' => json_eqb t' t | None => false end)
        "completed terminal changed" ;;;
      Ok e
  | Pending =>
      check (match mutable_charge (with_terminal e t) with
             | Some charge => charge <=? account_audit_terminal_reservation (operation e)
             | None => false
             end)
        "completed terminal exceeds reservation" ;;;
      Ok (with_terminal e t)
  end.

Definition clear_spool_transition (e : IdempotencyEntry) : result string IdempotencyEntry :=
  check (eqb (state e) Completed) "pending spool reference cannot be cleared" ;;;
  Ok (with_spool e None).

(** [operator==] of entries. *)
Definition opt_json_eqb (a b : option json) : bool :=
  match a, b with
  | Some a, Some b => json_eqb a b
  | None, None => true
  | _, _ => false
  end.

Definition entry_eqb (a b : IdempotencyEntry) : bool :=
  String.eqb (key_hash a) (key_hash b)
  && String.eqb (request_fingerprint a) (request_fingerprint b)
  && eqb (operation a) (operation b) && eqb (state a) (state b)
  && String.eqb (entry_invocation_id a) (entry_invocation_id b)
  && (entry_audit_generation a =? entry_audit_generation b) && (created_at a =? created_at b)
  && (expires_at a =? expires_at b) && (reserved_terminal_bytes a =? reserved_terminal_bytes b)
  && json_eqb (plan a) (plan b)
  && json_eqb (temporary_message_ids a) (temporary_message_ids b)
  && json_eqb (forward_progress a) (forward_progress b)
  && match spool a, spool b with
     | Some s, Some s' => eqb s s'
     | None, None => true
     | _, _ => false
     end
  && opt_json_eqb (terminal a) (terminal b).
