(* ===== verification/IdempotencyFile.v ===== *)
(** The files of the idempotency store
    (src/src/daemon/idempotency_store.cpp): the checks on their metadata, the
    stable read, the atomic rewrite through a temporary file, and the operations
    of [IdempotencyStore] built on them.

    The directory is an inode table with two names.  What the sources cannot
    control is the environment [Env]: which system calls fail, how many bytes a
    read or a write moves, what other processes do at the stages the code
    announces, whether the lease holds, and interruption.  Every system call
    advances [ticks]; [log] keeps the directory after every change.

    What a process sees and what a crash of the machine leaves are different
    things: an inode is [synced] only after [fsync] on its descriptor, and the
    names of earlier moments stay in [unsynced_names] until [fsync] on the
    directory.  [after_crash] relates a directory to the ones a crash can leave
    of it. *)
From S2P Require Import Prelude Json Operation DestructivePlan M6Domain AuditSchema AuditLog.
From S2P Require Import IdempotencyStore.
Import Audit.

(** * Metadata *)

Record Meta := {
  st_dev : Z; st_ino : Z; st_size : Z; st_mode : Z; st_uid : Z; st_nlink : Z
}.

Definition S_ISLNK (mode : Z) : bool := Z.land mode 0xF000 =? 0xA000.
Definition S_ISREG (mode : Z) : bool := Z.land mode 0xF000 =? 0x8000.
Definition S_ISDIR (mode : Z) : bool := Z.land mode 0xF000 =? 0x4000.

Definition same_identity (left right : Meta) : bool :=
  (st_dev left =? st_dev right) && (st_ino left =? st_ino right) && (st_size left =? st_size right)
  && (st_mode left =? st_mode right) && (st_uid left =? st_uid right)
  && (st_nlink left =? st_nlink right).

Definition same_file_object (left right : Meta) : bool :=
  (st_dev left =? st_dev right) && (st_ino left =? st_ino right) && (st_mode left =? st_mode right)
  && (st_uid left =? st_uid right) && (st_nlink left =? st_nlink right).

Definition classify_root (metadata : Meta) (expected_uid : Z) : option AccountAuditDurabilityReason :=
  if negb (S_ISDIR (st_mode metadata)) then Some WrongType
  else if negb (st_uid metadata =? expected_uid) then Some WrongOwner
  else if negb (Z.land (st_mode metadata) 0xFFF =? 0x1C0) then Some WrongMode
  else None.

Definition classify_file (metadata : Meta) (expected_uid : Z) (enforce_size : bool) :
    option AccountAuditDurabilityReason :=
  if S_ISLNK (st_mode metadata) then Some PathInvalid
  else if negb (S_ISREG (st_mode metadata)) then Some WrongType
  else if negb (st_uid metadata =? expected_uid) then Some WrongOwner
  else if negb (Z.land (st_mode metadata) 0xFFF =? 0x180) then Some WrongMode
  else if negb (st_nlink metadata =? 1) then Some WrongLinkCount
  else if enforce_size && ((st_size metadata <? 0)
                           || (kIdempotencyStoreMaximumBytes <? st_size metadata))
  then Some TooLarge
  else None.

(** * The directory *)

(** [synced]: the inode was not changed since it was last synced. *)
Record Node := {
  n_dev : Z; n_mode : Z; n_uid : Z; n_nlink : Z; content : string; synced : bool
}.

(** [unsynced_names]: the inodes of the two names before each change since the
    directory was last synced. *)
Record Fs := {
  root_meta : Meta;
  final_ino : option Z;
  temp_ino : option Z;
  unsynced_names : list (option Z * option Z);
  inodes : Z -> option Node
}.

Inductive FileName : Set := Final | Temp.

Definition named_ino (fs : Fs) (name : FileName) : option Z :=
  match name with Final => final_ino fs | Temp => temp_ino fs end.

Definition stat_node (ino : Z) (n : Node) : Meta :=
  {| st_dev := n_dev n; st_ino := ino; st_size := str_len (content n); st_mode := n_mode n;
     st_uid := n_uid n; st_nlink := n_nlink n |}.

Definition stat_ino (fs : Fs) (ino : Z) : option Meta := option_map (stat_node ino) (inodes fs ino).

Definition stat_name (fs : Fs) (name : FileName) : option Meta :=
  match named_ino fs name with Some ino => stat_ino fs ino | None => None end.

Definition set_inode (fs : Fs) (ino : Z) (n : option Node) : Fs :=
  {| root_meta := root_meta fs; final_ino := final_ino fs; temp_ino := temp_ino fs;
     unsynced_names := unsynced_names fs;
     inodes := fun i => if i =? ino then n else inodes fs i |}.

Definition set_names (fs : Fs) (final temp : option Z) : Fs :=
  {| root_meta := root_meta fs; final_ino := final; temp_ino := temp;
     unsynced_names := (final_ino fs, temp_ino fs) :: unsynced_names fs; inodes := inodes fs |}.

(** [fsync] on the descriptor of a file and on the one of the directory. *)
Definition sync_node (ino : Z) (fs : Fs) : option (unit * Fs) :=
  match inodes fs ino with
  | Some n =>
      Some (tt, set_inode fs ino
        (Some {| n_dev := n_dev n; n_mode := n_mode n; n_uid := n_uid n; n_nlink := n_nlink n;
                 content := content n; synced := true |}))
  | None => None
  end.

Definition sync_names (fs : Fs) : option (unit * Fs) :=
  Some (tt, {| root_meta := root_meta fs; final_ino := final_ino fs; temp_ino := temp_ino fs;
               unsynced_names := []; inodes := inodes fs |}).

(** What the two names may denote after a crash: what they denote now, or what
    they denoted at some moment since the directory was synced. *)
Definition finals (fs : Fs) : list (option Z) := final_ino fs :: map fst (unsynced_names fs).
Definition temps (fs : Fs) : list (option Z) := temp_ino fs :: map snd (unsynced_names fs).

(** A crash: each name is one of those, a synced inode is as it was, and of an
    inode that was not synced nothing is known. *)
Definition after_crash (fs fs' : Fs) : Prop :=
  In (final_ino fs') (finals fs) /\ In (temp_ino fs') (temps fs)
  /\ (forall i n, inodes fs i = Some n -> synced n = true -> inodes fs' i = Some n).

Inductive IdempotencyStoreStage : Set :=
| BeforeStateOpen | AfterStateOpen | BeforeFinalInspect | AfterFinalOpen | DuringFinalRead
| BeforeTempInspect | BeforeTempUnlink | BeforeTempCleanupDirectorySync | BeforeCapacity
| BeforeTempCreate | AfterTempCreate | DuringTempWrite | BeforeTempFileSync | BeforeTempRevalidate
| BeforeFinalRevalidate | BeforeRename | AfterRename | BeforeFinalNameRevalidate
| BeforeDirectorySync.

Record Env := {
  os_fails : nat -> bool;
  os_count : nat -> nat;
  disturb : IdempotencyStoreStage -> Fs -> Fs;
  lease_error : option string;
  interruption : nat -> option (AccountAuditDurabilityReason * string * Interruption);
  fresh : Fs -> Z;
  device_uid : Z * Z
}.

Record World := { fs : Fs; ticks : nat; log : list Fs }.

Definition io (A : Type) : Type := World -> result IdempotencyFailure A * World.

Definition ret {A} (a : A) : io A := fun w => (Ok a, w).
Definition raise {A} (e : IdempotencyFailure) : io A := fun w => (Err e, w).
Definition ibind {A B} (m : io A) (k : A -> io B) : io B :=
  fun w => match m w with
           | (Ok a, w') => k a w'
           | (Err e, w') => (Err e, w')
           end.

Notation "x <~ a ;; b" := (ibind a (fun x => b))
  (at level 61, a at next level, right associativity) : tg_scope.
Notation "a ;~ b" := (ibind a (fun _ => b))
  (at level 61, right associativity) : tg_scope.

Section files.
Variable env : Env.
Variable json_parse : string -> option (json * bool).
Variable account : string.
Variable store_path : string.
Variable expected_uid : Z.

Definition failure (reason : AccountAuditDurabilityReason) : IdempotencyFailure :=
  make_failure account store_path reason EmptyString.

Definition guarded (b : bool) (e : IdempotencyFailure) : io unit := if b then ret tt else raise e.

(** [notify]: the hook of a stage. *)
Definition notify (stage : IdempotencyStoreStage) : io unit := fun w =>
  (Ok tt, {| fs := disturb env stage (fs w); ticks := ticks w; log := log w |}).

(** A system call that only reads. *)
Definition query {A} (f : Fs -> option A) (e : IdempotencyFailure) : io A := fun w =>
  let w' := {| fs := fs w; ticks := S (ticks w); log := log w |} in
  if os_fails env (ticks w) then (Err e, w')
  else match f (fs w) with Some a => (Ok a, w') | None => (Err e, w') end.

(** A system call that changes the directory. *)
Definition change {A} (f : Fs -> option (A * Fs)) (e : IdempotencyFailure) : io A := fun w =>
  if os_fails env (ticks w) then (Err e, {| fs := fs w; ticks := S (ticks w); log := log w |})
  else match f (fs w) with
       | Some (a, fs') => (Ok a, {| fs := fs'; ticks := S (ticks w); log := fs' :: log w |})
       | None => (Err e, {| fs := fs w; ticks := S (ticks w); log := log w |})
       end.

(** [guard.interrupted]. *)
Definition check_interruption (honor : bool) : io unit := fun w =>
  if honor then
    let w' := {| fs := fs w; ticks := S (ticks w); log := log w |} in
    match interruption env (ticks w) with
    | Some (reason, detail, kind) =>
        (Err {| f_reason := reason; f_account := account; f_path := store_path; f_detail := detail;
                f_interruption := Some kind |}, w')
    | None => (Ok tt, w')
    end
  else (Ok tt, w).

Definition classified (reason : option AccountAuditDurabilityReason) : io unit :=
  match reason with Some r => raise (failure r) | None => ret tt end.

Definition open_root (honor_interruption : bool) : io Meta :=
  match lease_error env with
  | Some error => raise (make_failure account store_path LockFailed error)
  | None =>
      check_interruption honor_interruption ;~
      notify BeforeStateOpen ;~
      named <~ query (fun fs => Some (root_meta fs)) (failure OpenFailed) ;;
      guarded (negb (S_ISLNK (st_mode named))) (failure PathInvalid) ;~
      classified (classify_root named expected_uid) ;~
      opened <~ query (fun fs => Some (root_meta fs)) (failure OpenFailed) ;;
      guarded (same_identity named opened) (failure PathInvalid) ;~
      classified (classify_root opened expected_uid) ;~
      notify AfterStateOpen ;~
      ret opened
  end.

Record StoreImage := {
  snapshot : IdempotencySnapshot;
  final_present : bool;
  final_metadata : option Meta;
  temp_present : bool;
  temp_metadata : option Meta
}.

Definition kIoChunk : nat := Z.to_nat 65536.

(** How much of [requested] bytes a read or a write moves. *)
Definition transfer (requested : nat) : io nat := fun w =>
  (Ok (Nat.min (os_count env (ticks w)) requested), w).

(** The read loop: [size] bytes of the open file from [offset]. *)
Fixpoint read_loop (fuel : nat) (honor : bool) (ino : Z) (size offset : nat) (bytes : string) :
    io string :=
  if Nat.leb size offset then ret bytes
  else
    match fuel with
    | O => raise (failure ReadFailed)
    | S fuel =>
        check_interruption honor ;~
        notify DuringFinalRead ;~
        count <~ transfer (Nat.min kIoChunk (size - offset)) ;;
        chunk <~ query (fun fs => option_map (fun n => str_take count (str_drop offset (content n)))
                                    (inodes fs ino)) (failure ReadFailed) ;;
        if str_empty chunk then raise (failure ReadFailed)
        else read_loop fuel honor ino size (offset + String.length chunk) (bytes +++ chunk)
    end.

Definition read_stable_file (named_metadata : Meta) (honor_interruption : bool) :
    io (string * Meta) :=
  ino <~ query (fun fs => final_ino fs) (failure OpenFailed) ;;
  descriptor <~ query (fun fs => stat_ino fs ino) (failure OpenFailed) ;;
  guarded (same_identity named_metadata descriptor) (failure PathInvalid) ;~
  classified (classify_file descriptor expected_uid true) ;~
  notify AfterFinalOpen ;~
  let size := Z.to_nat (st_size descriptor) in
  bytes <~ read_loop size honor_interruption ino size 0 EmptyString ;;
  extra <~ query (fun fs => option_map (fun n => str_take 1 (str_drop size (content n)))
                              (inodes fs ino)) (failure ReadFailed) ;;
  guarded (str_empty extra) (failure ReadFailed) ;~
  final_descriptor <~ query (fun fs => stat_ino fs ino) (failure ReadFailed) ;;
  final_named <~ query (fun fs => Some (stat_name fs Final)) (failure ReadFailed) ;;
  match final_named with
  | None => raise (failure PathInvalid)
  | Some final_named =>
      guarded (same_identity descriptor final_descriptor) (failure ReadFailed) ;~
      guarded (same_identity final_descriptor final_named) (failure PathInvalid) ;~
      ret (bytes, descriptor)
  end.

(** A variant that holds a reason, as a failure. *)
Definition of_reason {A} (r : result AccountAuditDurabilityReason A) (detail : string) : io A :=
  match r with Ok a => ret a | Err reason => raise (make_failure account store_path reason detail) end.

Definition inspect_final (honor_interruption : bool) : io (IdempotencySnapshot * option Meta) :=
  final_named <~ query (fun fs => Some (stat_name fs Final)) (failure OpenFailed) ;;
  match final_named with
  | None => empty <~ of_reason (canonicalize_snapshot [] account) EmptyString ;; ret (empty, None)
  | Some named =>
      classified (classify_file named expected_uid true) ;~
      read <~ read_stable_file named honor_interruption ;;
      decoded <~ of_reason (decode_snapshot json_parse (fst read) account) EmptyString ;;
      ret (decoded, Some (snd read))
  end.

Definition inspect_image (honor_interruption : bool) : io StoreImage :=
  open_root honor_interruption ;~
  notify BeforeFinalInspect ;~
  found <~ inspect_final honor_interruption ;;
  notify BeforeTempInspect ;~
  temp_named <~ query (fun fs => Some (stat_name fs Temp)) (failure OpenFailed) ;;
  match temp_named with
  | None =>
      ret {| snapshot := fst found; final_present := has_value (snd found);
             final_metadata := snd found; temp_present := false; temp_metadata := None |}
  | Some named =>
      classified (classify_file named expected_uid false) ;~
      ret {| snapshot := fst found; final_present := has_value (snd found);
             final_metadata := snd found; temp_present := true; temp_metadata := Some named |}
  end.

(** [write] at the end of an open file. *)
Definition append_node (ino : Z) (bytes : string) (fs : Fs) : option (unit * Fs) :=
  match inodes fs ino with
  | Some n =>
      Some (tt, set_inode fs ino
        (Some {| n_dev := n_dev n; n_mode := n_mode n; n_uid := n_uid n; n_nlink := n_nlink n;
                 content := content n +++ bytes; synced := false |}))
  | None => None
  end.

(** [write_all]: [rest] is what is still to be written to the open file. *)
Fixpoint write_all (fuel : nat) (ino : Z) (rest : string) : io unit :=
  if str_empty rest then ret tt
  else
    match fuel with
    | O => raise (failure WriteFailed)
    | S fuel =>
        notify DuringTempWrite ;~
        count <~ transfer (Nat.min kIoChunk (String.length rest)) ;;
        if Nat.eqb count 0 then raise (failure WriteFailed)
        else
          change (append_node ino (str_take count rest)) (failure WriteFailed) ;~
          write_all fuel ino (str_drop count rest)
    end.

(** [openat] with [O_CREAT | O_EXCL]: an unused inode, or no space. *)
Definition create_temp (fs : Fs) : option (Z * Fs) :=
  match temp_ino fs, inodes fs (fresh env fs) with
  | Some _, _ | _, Some _ => None
  | None, None =>
      let ino := fresh env fs in
      let n := {| n_dev := fst (device_uid env); n_mode := 0x8180; n_uid := snd (device_uid env);
                  n_nlink := 1; content := EmptyString; synced := false |} in
      Some (ino, set_names (set_inode fs ino (Some n)) (final_ino fs) (Some ino))
  end.

Definition chmod_node (ino : Z) (fs : Fs) : option (unit * Fs) :=
  match inodes fs ino with
  | Some n =>
      Some (tt, set_inode fs ino
        (Some {| n_dev := n_dev n; n_mode := Z.lor (Z.land (n_mode n) 0xF000) 0x180;
                 n_uid := n_uid n; n_nlink := n_nlink n; content := content n; synced := false |}))
  | None => None
  end.

Definition rename_temp (fs : Fs) : option (unit * Fs) :=
  match temp_ino fs with
  | Some ino => Some (tt, set_names fs (Some ino) None)
  | None => None
  end.

(** The final name as the image saw it. *)
Definition final_unchanged (image : StoreImage) (current : option Meta) : bool :=
  match current, final_metadata image with
  | None, _ => negb (final_present image)
  | Some current, Some metadata => final_present image && same_identity metadata current
  | Some _, None => false
  end.

Definition rewrite_snapshot (expected : IdempotencySnapshot) (desired : list IdempotencyEntry) :
    io IdempotencySnapshot :=
  desired <~ of_reason (canonicalize_snapshot desired account) "invalid prospective snapshot" ;;
  image <~ inspect_image true ;;
  guarded (String.eqb (canonical_bytes (snapshot image)) (canonical_bytes expected)
           && negb (temp_present image))
    (make_failure account store_path Contradiction
       "store changed or retained a temp before rewrite") ;~
  open_root false ;~
  notify BeforeTempCreate ;~
  ino <~ change create_temp (failure OpenFailed) ;;
  change (chmod_node ino) (failure WriteFailed) ;~
  notify AfterTempCreate ;~
  temp_metadata <~ query (fun fs => stat_ino fs ino) (failure OpenFailed) ;;
  classified (classify_file temp_metadata expected_uid false) ;~
  write_all (String.length (canonical_bytes desired)) ino (canonical_bytes desired) ;~
  notify BeforeTempFileSync ;~
  change (sync_node ino) (failure SyncFailed) ;~
  notify BeforeTempRevalidate ;~
  synced_temp <~ query (fun fs => stat_ino fs ino) (failure PathInvalid) ;;
  named_temp <~ query (fun fs => stat_name fs Temp) (failure PathInvalid) ;;
  guarded (same_file_object temp_metadata synced_temp && same_file_object temp_metadata named_temp
           && (st_size synced_temp =? str_len (canonical_bytes desired))
           && (st_size named_temp =? st_size synced_temp)) (failure PathInvalid) ;~
  notify BeforeFinalRevalidate ;~
  current_final <~ query (fun fs => Some (stat_name fs Final)) (failure PathInvalid) ;;
  guarded (final_unchanged image current_final) (failure PathInvalid) ;~
  notify BeforeRename ;~
  change rename_temp (failure RenameFailed) ;~
  notify AfterRename ;~
  notify BeforeFinalNameRevalidate ;~
  final_named <~ query (fun fs => stat_name fs Final) (failure PathInvalid) ;;
  guarded (same_identity synced_temp final_named) (failure PathInvalid) ;~
  notify BeforeDirectorySync ;~
  change sync_names (failure DirectorySyncFailed) ;~
  ret desired.

(** * The operations of the store *)

Inductive IdempotencyWriteStatus : Set := Applied | Unchanged | IncumbentPreserved | WriteFailure.

Record IdempotencyWriteResult := {
  w_status : IdempotencyWriteStatus;
  w_snapshot : IdempotencySnapshot;
  w_failure : option IdempotencyFailure
}.

Definition no_snapshot : IdempotencySnapshot := {| entries := []; canonical_bytes := EmptyString |}.

Definition failed (s : IdempotencySnapshot) (e : IdempotencyFailure) : IdempotencyWriteResult :=
  {| w_status := WriteFailure; w_snapshot := s; w_failure := Some e |}.
Definition done (status : IdempotencyWriteStatus) (s : IdempotencySnapshot) : IdempotencyWriteResult :=
  {| w_status := status; w_snapshot := s; w_failure := None |}.

(** Runs an [io] and answers on both outcomes. *)
Definition attempt {A R} (m : io A) (on_failure : IdempotencyFailure -> R)
    (k : A -> World -> R * World) : World -> R * World :=
  fun w => match m w with
           | (Ok a, w') => k a w'
           | (Err e, w') => (on_failure e, w')
           end.

Definition answer {R} (r : R) : World -> R * World := fun w => (r, w).

Inductive IdempotencyInspectionStatus : Set := Clean | Unavailable | Interrupted.

Record IdempotencyStoreInspection := {
  i_status : IdempotencyInspectionStatus;
  i_snapshot : IdempotencySnapshot;
  i_stale_temp_present : bool;
  i_failure : option IdempotencyFailure
}.

Definition inspect : World -> IdempotencyStoreInspection * World :=
  attempt (inspect_image true)
    (fun e => {| i_status := if has_value (f_interruption e) then Interrupted else Unavailable;
                 i_snapshot := no_snapshot; i_stale_temp_present := false; i_failure := Some e |})
    (fun image =>
       answer {| i_status := Clean; i_snapshot := snapshot image;
                 i_stale_temp_present := temp_present image; i_failure := None |}).

Definition unlink_temp (fs : Fs) : option (unit * Fs) :=
  match temp_ino fs with
  | Some _ => Some (tt, set_names fs (final_ino fs) None)
  | None => None
  end.

Definition remove_temp (metadata : option Meta) : io unit :=
  open_root true ;~
  current <~ query (fun fs => stat_name fs Temp) (failure PathInvalid) ;;
  guarded (match metadata with Some m => same_identity m current | None => false end)
    (failure PathInvalid) ;~
  notify BeforeTempUnlink ;~
  change unlink_temp (failure RenameFailed) ;~
  notify BeforeTempCleanupDirectorySync ;~
  change sync_names (failure DirectorySyncFailed).

Definition cleanup_stale_temp : World -> IdempotencyWriteResult * World :=
  attempt (inspect_image true) (failed no_snapshot) (fun image =>
    if negb (temp_present image) then answer (done Unchanged (snapshot image))
    else
      attempt (remove_temp (temp_metadata image)) (failed no_snapshot)
        (fun _ => answer (done Applied (snapshot image)))).

Inductive IdempotencyInsertStatus : Set := Inserted | UnexpectedIncumbent | InsertFailed.

Record IdempotencyInsertResult := {
  n_status : IdempotencyInsertStatus;
  n_incumbent : option IdempotencyEntry;
  n_snapshot : IdempotencySnapshot;
  n_failure : option IdempotencyFailure
}.

Definition insert_failed (s : IdempotencySnapshot) (e : IdempotencyFailure) :
    IdempotencyInsertResult :=
  {| n_status := InsertFailed; n_incumbent := None; n_snapshot := s; n_failure := Some e |}.

Definition contradiction (detail : string) : IdempotencyFailure :=
  make_failure account store_path Contradiction detail.

Definition insert_if_absent (e : IdempotencyEntry) : World -> IdempotencyInsertResult * World :=
  if negb (eqb (state e) Pending) || negb (valid_entry e account) then
    answer (insert_failed no_snapshot
              (make_failure account store_path SchemaError "invalid pending idempotency entry"))
  else
    attempt (inspect_image true) (insert_failed no_snapshot) (fun image =>
      let current := snapshot image in
      if temp_present image then
        answer (insert_failed no_snapshot
                  (contradiction "stale temp was not reconciled before insertion"))
      else
        match find_entry (entries current) (key_hash e) with
        | Some (_, found) =>
            answer {| n_status := UnexpectedIncumbent; n_incumbent := Some found;
                      n_snapshot := current; n_failure := None |}
        | None =>
            attempt (notify BeforeCapacity) (insert_failed no_snapshot) (fun _ =>
              if Nat.leb kIdempotencyStoreMaximumEntries (List.length (entries current)) then
                answer (insert_failed current (failure CapacityExhausted))
              else
                let desired :=
                  insert_at (lower_bound (entries current) (key_hash e)) e (entries current) in
                match canonicalize_snapshot desired account with
                | Err _ => answer (insert_failed current (failure CapacityExhausted))
                | Ok prospective =>
                    attempt (rewrite_snapshot current (entries prospective))
                      (insert_failed no_snapshot)
                      (fun written =>
                         answer {| n_status := Inserted; n_incumbent := None;
                                   n_snapshot := written; n_failure := None |})
                end)
        end).

Definition mutate_owned_entry (key invocation : string)
    (mutation : IdempotencyEntry -> result string IdempotencyEntry)
    (preserve_other_incumbent : bool) : World -> IdempotencyWriteResult * World :=
  attempt (inspect_image true) (failed no_snapshot) (fun image =>
    let current := snapshot image in
    if temp_present image then
      answer (failed no_snapshot
                (contradiction "stale temp was not reconciled before store transition"))
    else
      match find_entry (entries current) key with
      | None => answer (failed current (contradiction "owned idempotency entry is missing"))
      | Some (position, found) =>
          if negb (String.eqb (entry_invocation_id found) invocation) then
            if preserve_other_incumbent then answer (done IncumbentPreserved current)
            else
              answer (failed current
                        (contradiction "idempotency entry belongs to another invocation"))
          else
            match mutation found with
            | Err detail =>
                answer (failed current (make_failure account store_path SchemaError detail))
            | Ok desired =>
                if entry_eqb desired found then answer (done Unchanged current)
                else
                  attempt (rewrite_snapshot current (replace_at position desired (entries current)))
                    (failed no_snapshot) (fun written => answer (done Applied written))
            end
      end).

Inductive IdempotencySpoolPreflightStatus : Set := Ready | PreflightFailed.

Record IdempotencySpoolPreflightResult := {
  s_status : IdempotencySpoolPreflightStatus;
  s_prospective_snapshot : IdempotencySnapshot;
  s_failure : option IdempotencyFailure
}.

Definition preflight_failed (s : IdempotencySnapshot) (e : IdempotencyFailure) :
    IdempotencySpoolPreflightResult :=
  {| s_status := PreflightFailed; s_prospective_snapshot := s; s_failure := Some e |}.

Definition preflight_spool_update (key invocation : string) (s : SpoolRef) :
    World -> IdempotencySpoolPreflightResult * World :=
  attempt (inspect_image true) (preflight_failed no_snapshot) (fun image =>
    let current := snapshot image in
    if temp_present image then
      answer (preflight_failed current
                (contradiction "stale temp was not reconciled before spool preflight"))
    else
      match find_entry (entries current) key with
      | Some (position, found) =>
          if negb (String.eqb (entry_invocation_id found) invocation) then
            answer (preflight_failed current
                      (contradiction "spool preflight has no matching owned entry"))
          else
            match apply_spool_transition s account found with
            | Err detail =>
                answer (preflight_failed current
                          (make_failure account store_path SchemaError detail))
            | Ok desired =>
                match canonicalize_snapshot (replace_at position desired (entries current)) account with
                | Err _ => answer (preflight_failed current (failure CapacityExhausted))
                | Ok prospective =>
                    answer {| s_status := Ready; s_prospective_snapshot := prospective;
                              s_failure := None |}
                end
            end
      | None =>
          answer (preflight_failed current
                    (contradiction "spool preflight has no matching owned entry"))
      end).

Definition update_spool (key invocation : string) (s : SpoolRef) :
    World -> IdempotencyWriteResult * World := fun w =>
  let '(preflight, w') := preflight_spool_update key invocation s w in
  match s_status preflight with
  | PreflightFailed =>
      ({| w_status := WriteFailure; w_snapshot := s_prospective_snapshot preflight;
          w_failure := s_failure preflight |}, w')
  | Ready => mutate_owned_entry key invocation (apply_spool_transition s account) false w'
  end.

Definition update_temporary_message_ids (key invocation : string) (temporary_ids : json) :=
  mutate_owned_entry key invocation (temporary_ids_transition temporary_ids) false.

Definition update_forward_progress (key invocation : string) (items : json) :=
  mutate_owned_entry key invocation (forward_progress_transition items) false.

Definition complete (key invocation : string) (t : json) :=
  mutate_owned_entry key invocation (complete_transition t account) false.

Definition clear_spool (key invocation : string) :=
  mutate_owned_entry key invocation clear_spool_transition false.

Definition remove_owned (key invocation : string) : World -> IdempotencyWriteResult * World :=
  attempt (inspect_image true) (failed no_snapshot) (fun image =>
    let current := snapshot image in
    if temp_present image then
      answer (failed no_snapshot (contradiction "stale temp was not reconciled before removal"))
    else
      match find_entry (entries current) key with
      | None => answer (done Unchanged current)
      | Some (position, found) =>
          if negb (String.eqb (entry_invocation_id found) invocation) then
            answer (done IncumbentPreserved current)
          else
            attempt (rewrite_snapshot current (erase_at position (entries current)))
              (failed no_snapshot) (fun written => answer (done Applied written))
      end).

Record IdempotencySweepResult := {
  sw_result : IdempotencyWriteResult;
  sw_removed : list IdempotencyEntry
}.

Definition swept (r : IdempotencyWriteResult) (removed : list IdempotencyEntry) :
    IdempotencySweepResult := {| sw_result := r; sw_removed := removed |}.

Definition sweep_expired (sampled_now : Z) : World -> IdempotencySweepResult * World :=
  if kIdempotencyMaximumUnixSeconds <? sampled_now then
    answer (swept (failed no_snapshot
                     (make_failure account store_path SchemaError
                        "wall-clock sample is unrepresentable")) [])
  else
    attempt (inspect_image true) (fun e => swept (failed no_snapshot e) []) (fun image =>
      let current := snapshot image in
      if temp_present image then
        answer (swept (failed no_snapshot
                         (contradiction "stale temp was not reconciled before expiry")) [])
      else
        let expired e := expires_at e <=? sampled_now in
        let removed := filter expired (entries current) in
        match removed with
        | [] => answer (swept (done Unchanged current) [])
        | _ =>
            attempt (rewrite_snapshot current (filter (fun e => negb (expired e)) (entries current)))
              (fun e => swept (failed no_snapshot e) removed)
              (fun written => answer (swept (done Applied written) removed))
        end).

Definition apply_reconciled_snapshot (expected : IdempotencySnapshot)
    (desired : list IdempotencyEntry) : World -> IdempotencyWriteResult * World :=
  match canonicalize_snapshot desired account with
  | Err reason =>
      answer (failed no_snapshot
                (make_failure account store_path reason "invalid reconciled idempotency snapshot"))
  | Ok canonical =>
      if String.eqb (canonical_bytes canonical) (canonical_bytes expected) then
        answer (done Unchanged expected)
      else
        attempt (rewrite_snapshot expected (entries canonical)) (failed no_snapshot)
          (fun written => answer (done Applied written))
  end.
End files.

(** [IdempotencyStore::create]; [public_path] is the path its failure reports. *)
Record IdempotencyStore := { state_directory_ : string; store_path_ : string; account_ : string }.

Definition create (state_directory account public_path : string) :
    result IdempotencyFailure IdempotencyStore :=
  check (valid_frozen_state_path state_directory account)
    (make_failure account public_path PathInvalid "invalid frozen idempotency path") ;;;
  Ok {| state_directory_ := state_directory; store_path_ := state_directory +++ "/" +++ kFinalName;
        account_ := account |}.
