(* ===== verification/AuditSamples.v ===== *)
(** Small audit groups, as documents, on which the theorems about the audit log
    are applied, and a printer for them. *)
From S2P Require Import Prelude Json CanonicalJson Operation AuditSchema AuditLog.
Import Audit.

(** A printer of documents without floating-point numbers. *)
Definition sample_dump (v : json) : option string :=
  match canonical_json v with Ok text => Some text | Err _ => None end.

Definition sample_hash : string :=
  "0123456789abcdef0123456789abcdef0123456789abcdef0123456789abcdef".

Definition sample_key : string :=
  "sha256:" +++ sample_hash.

Definition sample_config : string :=
  sample_key +++ ";dev:1;ino:2;size:3;ctime_ns:5".

Definition sample_identity : AccountAuditRecordIdentity :=
  {| invocation_id := "00112233445566778899aabbccddeeff"; timestamp := "2026-01-02T03:04:05Z" |}.

Definition sample_chat : json :=
  jobject [("id", JUnsigned 77); ("title", JString "t"); ("type", JString "private");
           ("is_bot", JBool false); ("usernames", JArray [])].

Definition sample_intent (operation : AccountAuditOperation) (arguments plan : json) :
    AccountAuditIntentInput :=
  {| i_identity := sample_identity; i_account := "main"; i_operation := operation;
     i_arguments := arguments; i_plan := plan; i_request_fingerprint := sample_key;
     i_config_snapshot := sample_config; i_authority_source := "request";
     i_confirmation_source := None; i_idempotency_key_hash := None; i_request_source_bytes := 10 |}.

Definition built (r : result string json) : json :=
  match r with Ok document => document | Err _ => JNull end.

(** Archiving a chat. *)
Definition archive_plan : json :=
  jobject [("operation", JString "chat_archive"); ("account", JString "main");
           ("tdlib_request", JString "addChatToList"); ("chat", sample_chat);
           ("archived", JBool true)].

Definition archive_intent : json :=
  built (make_account_audit_intent sample_dump
    (sample_intent ChatArchive (jobject [("chat", JString "@t")]) archive_plan)).

Definition sample_checkpoint (operation : AccountAuditOperation) (sequence : Z)
    (stage : AccountAuditStage) (data : json) : json :=
  built (make_account_audit_checkpoint sample_dump
    {| c_identity := sample_identity; c_account := "main"; c_operation := operation;
       c_sequence := sequence; c_stage := stage; c_data := data |}).

Definition archive_dispatch : json :=
  sample_checkpoint ChatArchive 1 DispatchStarted
    (jobject [("tdlib_function", JString "addChatToList");
              ("dispatch_token", JString "ffeeddccbbaa99887766554433221100");
              ("client_generation", JUnsigned 3)]).

Definition archive_terminal : json :=
  jobject [("kind", JString "result");
           ("data", jobject [("chat_id", JInteger 77); ("archived", JBool true)])].

Definition archive_proof : json :=
  sample_checkpoint ChatArchive 2 MutationConfirmed (jobject [("terminal", archive_terminal)]).

Definition archive_outcome : json :=
  built (make_account_audit_outcome sample_dump
    {| o_identity := sample_identity; o_account := "main"; o_operation := ChatArchive;
       o_success := true; o_mutation_state := MutationConfirmedState;
       o_completed_stages := [DispatchStarted; MutationConfirmed]; o_terminal := archive_terminal |}).

(** The same request, abandoned before anything was sent. *)
Definition archive_abandoned : json :=
  built (make_account_audit_outcome sample_dump
    {| o_identity := sample_identity; o_account := "main"; o_operation := ChatArchive;
       o_success := false; o_mutation_state := MutationNone; o_completed_stages := [];
       o_terminal := incomplete_terminal "main" "/a" MutationNone [] |}).

(** Records that leave a group open, and one more that completes it. *)
Definition completes (documents : list json) (outcome : json) : bool :=
  match scan sample_dump 1 None documents with
  | Ok (Some g, _) =>
      match consume_v2 sample_dump 1 outcome (Some g) with
      | Ok (None, Some _) => true
      | _ => false
      end
  | _ => false
  end.

Lemma completes_inv documents outcome :
  completes documents outcome = true ->
  exists g views view,
    scan sample_dump 1 None documents = Ok (Some g, views)
    /\ consume_v2 sample_dump 1 outcome (Some g) = Ok (None, Some view).
Proof.
  unfold completes. destruct (scan _ _ _ _) as [[[g|] views]|]; try discriminate.
  destruct (consume_v2 _ _ _ _) as [[[?|] [view|]]|] eqn:C; try discriminate. eauto 6.
Qed.

Lemma archive_completes :
  completes [archive_intent; archive_dispatch; archive_proof] archive_outcome = true.
Proof. vm_compute. reflexivity. Qed.

Lemma archive_abandonable : completes [archive_intent] archive_abandoned = true.
Proof. vm_compute. reflexivity. Qed.
