(* ===== verification/AuditLogFacts.v ===== *)
(** Properties of the audit log automaton of [AuditLog]: the invariant of the
    open group, what a completed group guarantees, and recovery. *)
From S2P Require Import Prelude Json Operation M6Domain AuditSchema AuditLog AuditSamples.
Import Audit.

(** * Stages *)

#[export] Instance AccountAuditStage_enum : Enum AccountAuditStage.
Proof.
  refine {| enumerate := [IdempotencyPending; SpoolReady; DispatchStarted; TemporaryIdsObserved;
                          ForwardProgress; MutationConfirmed] |}.
  intros []; cbn; tauto.
Defined.

#[export] Instance list_eq_dec' {A} `{EqDec A} : EqDec (list A) := list_eq_dec eq_dec.
#[export] Instance nat_eq_dec : EqDec nat := PeanoNat.Nat.eq_dec.

(** [completed_stages] after a checkpoint of stage [s]. *)
Definition advance (l : list AccountAuditStage) (s : AccountAuditStage) : list AccountAuditStage :=
  if eqb s ForwardProgress && has_stage s l then l else l ++ [s].

Definition last_position (operation : AccountAuditOperation) (l : list AccountAuditStage) :
    option nat :=
  match rev l with
  | [] => None
  | s :: _ => position_in s (allowed_order operation)
  end.

(** The history a list of completed stages stands for. *)
Definition summary (operation : AccountAuditOperation) (l : list AccountAuditStage) : History :=
  {| previous_sequence := 0; previous_position := last_position operation l;
     previous_forward := None; progress_count := 0;
     saw_idempotency := has_stage IdempotencyPending l; saw_spool := has_stage SpoolReady l;
     saw_dispatch := has_stage DispatchStarted l;
     saw_temporary_ids := has_stage TemporaryIdsObserved l;
     saw_mutation := has_stage MutationConfirmed l |}.

Definition summarised (operation : AccountAuditOperation) (l : list AccountAuditStage)
    (h : History) : Prop :=
  previous_position h = last_position operation l
  /\ saw_idempotency h = has_stage IdempotencyPending l /\ saw_spool h = has_stage SpoolReady l
  /\ saw_dispatch h = has_stage DispatchStarted l
  /\ saw_temporary_ids h = has_stage TemporaryIdsObserved l
  /\ saw_mutation h = has_stage MutationConfirmed l.

(** The tests of [history_step] on the stages alone. *)
Definition admitted (operation : AccountAuditOperation) (l : list AccountAuditStage)
    (s : AccountAuditStage) : bool :=
  match position_in s (allowed_order operation) with
  | None => false
  | Some position =>
      negb (match last_position operation l with Some p => Nat.ltb position p | None => false end)
      && negb (match last_position operation l with
               | Some p => Nat.eqb position p && negb (eqb s ForwardProgress)
               | None => false end)
      && negb (eqb s IdempotencyPending && negb (WriteOp.idempotent (WriteOp.of_audit operation)))
      && is_ok (stage_transition operation s (summary operation l))
  end.

(** Every list [legal_completed_stages] accepts. *)
Fixpoint prefixes {A} (l : list A) : list (list A) :=
  [] :: match l with [] => [] | x :: r => map (cons x) (prefixes r) end.

Definition all_legal (operation : AccountAuditOperation) : list (list AccountAuditStage) :=
  flat_map (fun keyed => flat_map (fun temporary => flat_map (fun progress =>
    flat_map (fun proof => prefixes (complete_stages operation keyed temporary progress proof))
      [false; true]) [false; true]) [false; true]) [false; true].

Lemma is_prefix_prefixes l c : In l (prefixes c) -> is_prefix l c = true.
Proof.
  revert l. induction c as [|x c IH]; cbn; intros l [<-|H]; try reflexivity; [tauto|].
  apply in_map_iff in H as (r & <- & H). cbn. now rewrite eqb_refl, IH.
Qed.

Lemma existsb_pair (f : bool -> bool) b : f b = true -> existsb f [false; true] = true.
Proof. intros H. apply existsb_exists. exists b. split; [destruct b; cbn; tauto | exact H]. Qed.

Lemma all_legal_sound operation l :
  In l (all_legal operation) -> legal_completed_stages operation l = true.
Proof.
  unfold all_legal. intros H. destruct l as [|s l]; [reflexivity|]. unfold legal_completed_stages.
  repeat (apply in_flat_map in H as (? & _ & H)).
  apply (existsb_pair _ x), (existsb_pair _ x0), (existsb_pair _ x1), (existsb_pair _ x2).
  now apply is_prefix_prefixes.
Qed.

Definition in_lists (l : list AccountAuditStage) (ls : list (list AccountAuditStage)) : bool :=
  existsb (eqb l) ls.

Lemma in_lists_In l ls : in_lists l ls = true <-> In l ls.
Proof.
  unfold in_lists. rewrite existsb_exists. split.
  - intros (x & Hx & E). apply eqb_eq in E. congruence.
  - intros H. exists l. split; [exact H | apply eqb_refl].
Qed.

(** Operations with the same stages share a representative. *)
Definition representative (operation : AccountAuditOperation) : AccountAuditOperation :=
  match operation with
  | SavedAttach => SavedAttach
  | ChatSetPhoto => ChatSetPhoto
  | MsgForward => MsgForward
  | Send => Send
  | SessionTerminate | ChatInviteLink | StorageOptimize => SessionTerminate
  | _ => MsgEdit
  end.

Definition represented (operation : AccountAuditOperation) : bool :=
  let r := representative operation in
  eqb (allowed_order operation) (allowed_order r)
  && Bool.eqb (WriteOp.idempotent (WriteOp.of_audit operation))
       (WriteOp.idempotent (WriteOp.of_audit r))
  && Bool.eqb (uses_spool operation) (uses_spool r)
  && Bool.eqb (eqb operation SavedAttach) (eqb r SavedAttach)
  && eqb (all_legal operation) (all_legal r).

Lemma represented_true operation : represented operation = true.
Proof. revert operation. apply enum_forall. vm_compute. reflexivity. Qed.

(** One stage keeps a list legal, is its last position, is never repeated, and
    follows no mutation proof; checked for every representative, legal list and
    stage. *)
Definition stage_table (operation : AccountAuditOperation) : bool :=
  let legal := nodup eq_dec (all_legal operation) in
  forallb (fun l => forallb (fun s =>
    implb (admitted operation l s)
      (in_lists (advance l s) legal
       && eqb (last_position operation (advance l s)) (position_in s (allowed_order operation))
       && nodupb (advance l s) && negb (has_stage MutationConfirmed l))) (enumerate AccountAuditStage)) legal.

Lemma stage_table_true operation : stage_table (representative operation) = true.
Proof. destruct operation; vm_compute; reflexivity. Qed.

Lemma admitted_represented operation l s :
  admitted operation l s = admitted (representative operation) l s
  /\ last_position operation l = last_position (representative operation) l
  /\ allowed_order operation = allowed_order (representative operation)
  /\ all_legal operation = all_legal (representative operation).
Proof.
  pose proof (represented_true operation) as R. unfold represented in R. bool_split.
  apply eqb_eq in H, H0. apply eqb_prop in H1, H2, H3.
  assert (forall l, last_position operation l = last_position (representative operation) l) as L
    by (intros l'; unfold last_position; now rewrite H).
  split; [|exact (conj (L l) (conj H H0))]. unfold admitted. rewrite H, !L, H3. unfold stage_transition, summary.
  rewrite !L, H1, H2. reflexivity.
Qed.

Lemma admitted_step operation l s :
  In l (all_legal operation) -> admitted operation l s = true ->
  In (advance l s) (all_legal operation)
  /\ last_position operation (advance l s) = position_in s (allowed_order operation)
  /\ nodupb (advance l s) = true /\ has_stage MutationConfirmed l = false.
Proof.
  intros Hl Ha. destruct (admitted_represented operation l s) as (A & _ & O & L).
  destruct (admitted_represented operation (advance l s) s) as (_ & P & _).
  rewrite A in Ha. rewrite P, O, L in *. clear A P O L.
  pose proof (stage_table_true operation) as T. unfold stage_table in T.
  rewrite forallb_forall in T. specialize (T l (proj2 (nodup_In _ _ _) Hl)).
  rewrite forallb_forall in T. specialize (T s (enumerated s)). rewrite Ha in T.
  cbn [implb] in T. apply andb_prop in T as [T M]. apply andb_prop in T as [T N].
  apply andb_prop in T as [T P]. apply in_lists_In, nodup_In in T. apply eqb_eq in P.
  apply negb_true_iff in M. repeat (split; [assumption|]). exact M.
Qed.

Lemma has_stage_app x l r : has_stage x (l ++ r) = has_stage x l || has_stage x r.
Proof. apply existsb_app. Qed.

Lemma has_stage_advance x l s : has_stage x (advance l s) = has_stage x l || eqb x s.
Proof.
  unfold advance. destruct (eqb s ForwardProgress && has_stage s l) eqn:E.
  - bool_split. destruct (eqb x s) eqn:X; [|now rewrite orb_false_r].
    apply eqb_eq in X as ->. rewrite H0. reflexivity.
  - rewrite has_stage_app. cbn. now rewrite orb_false_r.
Qed.

(** The automaton on typed checkpoints follows the automaton on stages. *)
Lemma stage_transition_summary operation s l h h' :
  summarised operation l h -> stage_transition operation s h = Ok h' ->
  is_ok (stage_transition operation s (summary operation l)) = true
  /\ previous_position h' = previous_position h
  /\ saw_idempotency h' = (has_stage IdempotencyPending l || eqb IdempotencyPending s)
  /\ saw_spool h' = (has_stage SpoolReady l || eqb SpoolReady s)
  /\ saw_dispatch h' = (has_stage DispatchStarted l || eqb DispatchStarted s)
  /\ saw_temporary_ids h' = (has_stage TemporaryIdsObserved l || eqb TemporaryIdsObserved s)
  /\ saw_mutation h' = (has_stage MutationConfirmed l || eqb MutationConfirmed s).
Proof.
  intros (P & I & S & D & T & M) H. unfold stage_transition in *. cbn zeta in *.
  unfold summary. cbn [previous_position saw_idempotency saw_spool saw_dispatch saw_temporary_ids
    saw_mutation]. rewrite P, I, S, D, T, M in H.
  destruct s; apply check_seq in H as [C H]; injection H as <-; rewrite C; cbn;
    rewrite ?I, ?S, ?D, ?T, ?M, ?orb_false_r, ?orb_true_r, ?P; repeat split; reflexivity.
Qed.

Lemma progress_transition_flags s data h h' :
  progress_transition s data h = Ok h' ->
  previous_position h' = previous_position h /\ saw_idempotency h' = saw_idempotency h
  /\ saw_spool h' = saw_spool h /\ saw_dispatch h' = saw_dispatch h
  /\ saw_temporary_ids h' = saw_temporary_ids h /\ saw_mutation h' = saw_mutation h.
Proof.
  unfold progress_transition. destruct (negb _); [intros [= <-]; auto 10|].
  intros H. apply check_seq in H as [_ H].
  destruct (match previous_forward h with Some _ => _ | None => _ end); [|discriminate].
  injection H as <-. auto 10.
Qed.

(** A checkpoint the history accepts: its stage is admitted after the stages
    already completed, its number is new and its data is valid. *)
Lemma history_step_inv operation l h c h' :
  In l (all_legal operation) -> summarised operation l h ->
  history_step operation h c = Ok h' ->
  c_operation c = operation /\ previous_sequence h < c_sequence c
  /\ previous_sequence h' = c_sequence c
  /\ valid_checkpoint_data operation (c_stage c) (c_data c) = true
  /\ admitted operation l (c_stage c) = true
  /\ In (advance l (c_stage c)) (all_legal operation)
  /\ summarised operation (advance l (c_stage c)) h'.
Proof.
  intros Hl Hs H. unfold history_step in H. cbn zeta in H.
  apply check_seq in H as [C0 H]. bool_split. apply eqb_eq in H0. z_bool.
  destruct (position_in (c_stage c) (allowed_order operation)) as [p|] eqn:P; [|discriminate].
  cbn [of_option bind] in H. apply check_seq in H as [C1 H]. apply check_seq in H as [C2 H].
  apply check_seq in H as [C3 H]. inv_bind H. inv_bind H. injection H as <-.
  destruct (stage_transition_summary _ _ _ _ _ Hs E) as (K & T0 & T1 & T2 & T3 & T4 & T5).
  destruct (progress_transition_flags _ _ _ _ E0) as (Q0 & Q1 & Q2 & Q3 & Q4 & Q5).
  assert (admitted operation l (c_stage c) = true) as A.
  { unfold admitted. destruct Hs as (Hp & _). rewrite P, <- Hp, C1, C2, C3, K. reflexivity. }
  destruct (admitted_step _ _ _ Hl A) as (L & LP & _ & _).
  do 6 (split; [assumption || reflexivity|]).
  unfold summarised. cbn [previous_position saw_idempotency saw_spool saw_dispatch
    saw_temporary_ids saw_mutation].
  rewrite LP, P, !has_stage_advance, Q1, Q2, Q3, Q4, Q5, T1, T2, T3, T4, T5.
  repeat (split; [reflexivity|]). reflexivity.
Qed.

(** * The open group *)

Lemma has_stage_In s l : has_stage s l = true <-> In s l.
Proof.
  unfold has_stage. rewrite existsb_exists. split.
  - intros (x & Hx & E). apply eqb_eq in E. congruence.
  - intros H. exists s. split; [exact H | apply eqb_refl].
Qed.

Lemma eqb_sym {A} `{EqDec A} (x y : A) : eqb x y = eqb y x.
Proof. unfold eqb. destruct (eq_dec x y), (eq_dec y x); congruence. Qed.

Lemma json_eqb_string_l v s : json_eqb (JString s) v = true -> v = JString s.
Proof. destruct v; cbn; try discriminate. intros H. apply String.eqb_eq in H. congruence. Qed.

Lemma json_eqb_strings (l : list string) v :
  json_eqb v (JArray (map JString l)) = true -> v = JArray (map JString l).
Proof.
  destruct v as [| | | | | |r|]; try discriminate. intros H. f_equal.
  apply json_eqb_array in H. revert r H. induction l as [|s l IH]; intros r H; inversion H; subst;
    [reflexivity|]. cbn. f_equal; [|auto].
  destruct x; cbn in *; try discriminate. str_bool. congruence.
Qed.

(** The items of the forward vectors recorded so far. *)
Definition sent_somewhere (checkpoint : json) : bool :=
  stage_is "forward_progress" checkpoint
  && existsb (status_is "sent") (elements (jget (jget checkpoint "data") "items")).

(** Whether a record names the same invocation, command and account. *)
Definition belongs (intent document : json) : bool :=
  same "invocation_id" intent document && same "command" intent document
  && same "account" intent document.

Section scan.
Variable json_dump : json -> option string.


(** The invariant: the group is its records. *)
Record group_ok (g : AccountAuditOpenGroup) : Prop := {
  ok_intent : validate_intent_impl json_dump (intent g) = Ok tt;
  ok_records : Forall (fun d => validate_checkpoint_impl json_dump d = Ok tt
                                /\ belongs (intent g) d = true) (checkpoints g);
  ok_history : exists operation inputs h,
    command_of (intent g) = Some operation
    /\ checkpoint_inputs (checkpoints g) = Some inputs
    /\ run_history operation empty_history inputs = Ok h
    /\ completed_stages g = fold_left advance (map c_stage inputs) []
    /\ In (completed_stages g) (all_legal operation)
    /\ summarised operation (completed_stages g) h;
  ok_keyed : keyed g = negb (is_null (jget (intent g) "idempotency_key_hash"));
  ok_spool : has_spool g = has_stage SpoolReady (completed_stages g);
  ok_dispatch : dispatch_started g = has_stage DispatchStarted (completed_stages g);
  ok_mutation : mutation_confirmed g = has_stage MutationConfirmed (completed_stages g);
  ok_progress : has_stage ForwardProgress (completed_stages g) = has_value (final_forward_items g);
  ok_complete : forward_complete g =
    match final_forward_items g with
    | Some items => forward_vector_complete items
    | None => false
    end;
  ok_sent : any_forward_sent g = existsb sent_somewhere (checkpoints g);
  ok_proof : mutation_confirmed g = true ->
    exists document checkpoint,
      last_checkpoint "mutation_confirmed" g = Some document
      /\ checkpoint_input document = Some checkpoint
      /\ c_stage checkpoint = MutationConfirmed
      /\ proof_agrees json_dump g checkpoint = Ok tt
}.

Lemma run_history_app operation h l c :
  run_history operation h (l ++ [c]) =
  (h' <- run_history operation h l ;; history_step operation h' c).
Proof.
  revert h. induction l as [|x l IH]; intros h; cbn.
  - destruct (history_step operation h c); reflexivity.
  - destruct (history_step operation h x); cbn; [apply IH | reflexivity].
Qed.

Lemma checkpoint_inputs_app l d :
  checkpoint_inputs (l ++ [d]) =
  match checkpoint_inputs l, checkpoint_input d with
  | Some inputs, Some input => Some (inputs ++ [input])
  | _, _ => None
  end.
Proof.
  induction l as [|x l IH]; cbn.
  - destruct (checkpoint_input d); reflexivity.
  - rewrite IH. destruct (checkpoint_input x), (checkpoint_inputs l), (checkpoint_input d);
      reflexivity.
Qed.

Lemma of_option_ok {E A} (e : E) (o : option A) a : of_option e o = Ok a -> o = Some a.
Proof. destruct o; cbn; congruence. Qed.

Lemma summarised_empty operation : summarised operation [] empty_history.
Proof. repeat split. Qed.

Lemma nil_legal operation : In [] (all_legal operation).
Proof.
  unfold all_legal. repeat (apply in_flat_map; exists false; split; [now left|]).
  destruct (complete_stages _ _ _ _ _); now left.
Qed.

Lemma open_group_ok generation document :
  validate_intent_impl json_dump document = Ok tt -> group_ok (open_group generation document).
Proof.
  intros V. assert (exists operation, command_of document = Some operation) as (operation & C).
  { unfold validate_intent_impl in V. apply check_seq in V as [_ V]. inv_bind V.
    apply of_option_ok in E. eauto. }
  constructor; try reflexivity; try discriminate; [exact V | constructor|].
  exists operation, [], empty_history.
  split; [exact C|]. split; [reflexivity|]. split; [reflexivity|]. split; [reflexivity|].
  split; [apply nil_legal | apply summarised_empty].
Qed.

(** The stage a checkpoint document names. *)
Lemma parse_stage_name v s : parse_account_audit_stage v = Some s -> v = account_audit_stage_name s.
Proof.
  unfold parse_account_audit_stage. destruct (lookup_by snd kStages v) as [[s' n]|] eqn:E;
    [|discriminate]. cbn. intros [= ->]. apply lookup_by_some in E as [I E]. cbn in E. subst n.
  cbn in I. repeat (destruct I as [I|I]; [injection I as <- <-; reflexivity|]). tauto.
Qed.

Lemma stage_names_distinct s s' :
  String.eqb (account_audit_stage_name s) (account_audit_stage_name s') = eqb s s'.
Proof. destruct s, s'; reflexivity. Qed.

Lemma stage_is_name d c s :
  validate_checkpoint_impl json_dump d = Ok tt -> checkpoint_input d = Some c ->
  stage_is (account_audit_stage_name s) d = eqb (c_stage c) s.
Proof.
  intros V C. unfold validate_checkpoint_impl in V. apply check_seq in V as [V _].
  bool_split. unfold checkpoint_input in C. destruct (command_of d); [|discriminate].
  unfold stage_of in C. destruct (parse_account_audit_stage _) as [st|] eqn:P; [|discriminate].
  injection C as <-. cbn [c_stage]. unfold stage_is.
  match goal with S : is_string (jget d "stage") = true |- _ => apply is_string_inv in S; rewrite S end.
  cbn [eq_str]. apply parse_stage_name in P. rewrite P. apply stage_names_distinct.
Qed.

Lemma find_rev_app {A} (f : A -> bool) l x :
  find f (rev (l ++ [x])) = if f x then Some x else find f (rev l).
Proof. rewrite rev_app_distr. reflexivity. Qed.

Lemma belongs_matching g d : matching_group (Some g) d = Some g <-> belongs (intent g) d = true.
Proof. unfold matching_group, belongs. destruct (_ && _); split; congruence. Qed.

Lemma matching_some st d g :
  matching_group st d = Some g -> st = Some g /\ belongs (intent g) d = true.
Proof.
  unfold matching_group, belongs. destruct st as [g'|]; [|discriminate].
  destruct (_ && _) eqn:E; [|discriminate]. intros [= ->]. auto.
Qed.

Lemma valid_identity_command d :
  valid_common_identity d = true ->
  exists s operation, jget d "command" = JString s /\ command_of d = Some operation.
Proof.
  unfold valid_common_identity. intros H. bool_split.
  destruct (command_of d) as [operation|] eqn:C; [|discriminate].
  exists (get_string (jget d "command")), operation.
  split; [apply is_string_inv; assumption | reflexivity].
Qed.

Lemma intent_identity d : validate_intent_impl json_dump d = Ok tt -> valid_common_identity d = true.
Proof. unfold validate_intent_impl. intros V. apply check_seq in V as [V _]. bool_split. assumption. Qed.

Lemma belongs_command i d :
  valid_common_identity i = true -> belongs i d = true -> command_of d = command_of i.
Proof.
  intros V B. destruct (valid_identity_command _ V) as (s & op & E & _).
  unfold belongs, same in B. bool_split. unfold command_of in *. rewrite E in *.
  match goal with H : json_eqb (JString s) _ = true |- _ => apply json_eqb_string_l in H; rewrite H end.
  reflexivity.
Qed.

Lemma transition_ok operation l : transition_history operation l = Ok tt ->
  exists h, run_history operation empty_history l = Ok h.
Proof. unfold transition_history. destruct (run_history _ _ _); [eauto | discriminate]. Qed.

(** What the accepted checkpoint adds to the group. *)
Lemma consume_checkpoint_inv g d g' :
  group_ok g -> validate_checkpoint_impl json_dump d = Ok tt -> belongs (intent g) d = true ->
  consume_checkpoint json_dump g d = Ok g' ->
  exists operation c inputs h h',
    command_of (intent g) = Some operation /\ checkpoint_input d = Some c
    /\ c_operation c = operation /\ checkpoint_agrees g c = Ok tt
    /\ proof_agrees json_dump g c = Ok tt
    /\ g' = push_checkpoint g d c
    /\ checkpoint_inputs (checkpoints g) = Some inputs
    /\ completed_stages g = fold_left advance (map c_stage inputs) []
    /\ run_history operation empty_history inputs = Ok h
    /\ history_step operation h c = Ok h'
    /\ summarised operation (completed_stages g) h
    /\ In (completed_stages g) (all_legal operation).
Proof.
  intros G V B H. destruct (ok_history _ G) as (op & inputs & h & C & I & R & F & L & S).
  unfold consume_checkpoint in H. inv_bind H. apply of_option_ok in E. rename a into c.
  inv_bind H. destruct a. inv_bind H. apply of_option_ok in E1. rewrite I in E1.
  injection E1 as <-. inv_bind H. destruct a. inv_bind H. destruct a. injection H as <-.
  assert (c_operation c = op) as O.
  { pose proof (belongs_command _ _ (intent_identity _ (ok_intent _ G)) B) as K.
    rewrite C in K. unfold checkpoint_input in E. rewrite K in E.
    destruct (stage_of d); [|discriminate]. injection E as <-. reflexivity. }
  apply transition_ok in E1 as (hh & T). rewrite O, run_history_app, R in T. cbn [bind] in T.
  exists op, c, inputs, h, hh. repeat (split; [assumption || reflexivity|]). exact L.
Qed.

Lemma final_items_push g d c :
  validate_checkpoint_impl json_dump d = Ok tt -> checkpoint_input d = Some c ->
  final_forward_items (push_checkpoint g d c) =
  if eqb (c_stage c) ForwardProgress then Some (jget (jget d "data") "items")
  else final_forward_items g.
Proof.
  intros V C. unfold final_forward_items, last_checkpoint. cbn [checkpoints push_checkpoint].
  rewrite find_rev_app. change "forward_progress" with (account_audit_stage_name ForwardProgress).
  rewrite (stage_is_name _ _ _ V C). destruct (eqb _ _); reflexivity.
Qed.

Lemma input_data d c : checkpoint_input d = Some c -> c_data c = jget d "data".
Proof.
  unfold checkpoint_input. destruct (command_of d), (stage_of d); try discriminate.
  now intros [= <-].
Qed.

(** [proof_agrees] reads the intent and the latest forward vector. *)
Lemma proof_agrees_ext g g' c :
  intent g' = intent g -> final_forward_items g' = final_forward_items g ->
  forward_complete g' = forward_complete g ->
  proof_agrees json_dump g' c = proof_agrees json_dump g c.
Proof.
  intros I F C. unfold proof_agrees, terminal_matches_latest_forward, derive_forward_terminal.
  rewrite I, F, C. reflexivity.
Qed.

Lemma consume_checkpoint_ok g d g' :
  group_ok g -> validate_checkpoint_impl json_dump d = Ok tt -> belongs (intent g) d = true ->
  consume_checkpoint json_dump g d = Ok g' -> group_ok g'.
Proof.
  intros G V B H. destruct (consume_checkpoint_inv _ _ _ G V B H)
    as (op & c & inputs & h & h' & C & I & O & A & P & -> & CI & F & R & T & S & L).
  destruct (history_step_inv _ _ _ _ _ L S T) as (_ & _ & _ & _ & AD & L' & S').
  destruct (admitted_step _ _ _ L AD) as (_ & _ & _ & M).
  pose proof (final_items_push g d c V I) as FI.
  constructor; cbn [intent checkpoints completed_stages keyed has_spool dispatch_started
    mutation_confirmed forward_complete any_forward_sent push_checkpoint].
  - apply (ok_intent _ G).
  - apply Forall_app. split; [apply (ok_records _ G) | auto].
  - exists op, (inputs ++ [c]), h'. split; [exact C|].
    rewrite checkpoint_inputs_app, CI, I, run_history_app, R, map_app, fold_left_app, <- F.
    repeat (split; [assumption || reflexivity|]). exact S'.
  - apply (ok_keyed _ G).
  - fold (advance (completed_stages g) (c_stage c)).
    rewrite has_stage_advance, (ok_spool _ G). f_equal. apply eqb_sym.
  - fold (advance (completed_stages g) (c_stage c)).
    rewrite has_stage_advance, (ok_dispatch _ G). f_equal. apply eqb_sym.
  - fold (advance (completed_stages g) (c_stage c)).
    rewrite has_stage_advance, (ok_mutation _ G). f_equal. apply eqb_sym.
  - fold (advance (completed_stages g) (c_stage c)).
    rewrite has_stage_advance, (ok_progress _ G), FI, (eqb_sym ForwardProgress).
    destruct (eqb _ _); [apply orb_true_r | apply orb_false_r].
  - rewrite FI, (ok_complete _ G), (input_data _ _ I). destruct (eqb _ _); reflexivity.
  - rewrite existsb_app, (ok_sent _ G). f_equal. cbn [existsb]. rewrite orb_false_r.
    unfold sent_somewhere. change "forward_progress" with (account_audit_stage_name ForwardProgress).
    now rewrite (stage_is_name _ _ _ V I), (input_data _ _ I).
  - intros MC. rewrite (ok_mutation _ G), M in MC. cbn [orb] in MC. apply eqb_eq in MC.
    exists d, c. unfold last_checkpoint. cbn [checkpoints push_checkpoint].
    rewrite find_rev_app.
    change "mutation_confirmed" with (account_audit_stage_name MutationConfirmed).
    rewrite (stage_is_name _ _ _ V I), MC, eqb_refl. repeat (split; [assumption || reflexivity|]).
    rewrite <- P. rewrite MC in FI. apply proof_agrees_ext; [reflexivity | exact FI|].
    cbn [forward_complete push_checkpoint]. now rewrite MC.
Qed.

(** Whatever records a scan accepts, the open group satisfies the invariant. *)
Lemma consume_ok generation d st st' view :
  match st with Some g => group_ok g | None => True end ->
  consume_v2 json_dump generation d st = Ok (st', view) ->
  match st' with Some g => group_ok g | None => True end.
Proof.
  intros G H. unfold consume_v2 in H. apply check_seq in H as [_ H].
  destruct (String.eqb _ "intent").
  { destruct st as [g|]; [discriminate|]. inv_bind H. destruct a. injection H as <- <-.
    now apply open_group_ok. }
  destruct (String.eqb _ "checkpoint").
  { inv_bind H. destruct a. inv_bind H. apply of_option_ok, matching_some in E0 as [-> B].
    inv_bind H. injection H as <- <-. exact (consume_checkpoint_ok _ _ _ G E B E0). }
  destruct (String.eqb _ "outcome"); [|discriminate].
  inv_bind H. inv_bind H. inv_bind H. injection H as <- <-. exact I.
Qed.

Lemma scan_ok generation ds st st' views :
  match st with Some g => group_ok g | None => True end ->
  scan json_dump generation st ds = Ok (st', views) ->
  match st' with Some g => group_ok g | None => True end.
Proof.
  revert st views. induction ds as [|d ds IH]; intros st views G; cbn [scan].
  - intros [= <- <-]. exact G.
  - intros H. inv_bind H. destruct a as [s1 v1]. inv_bind H. destruct a as [s2 v2].
    injection H as <- <-. eapply IH; [|exact E0]. eapply consume_ok; eauto.
Qed.

(** * What a completed group guarantees *)

Lemma consume_outcome_inv g d view :
  group_ok g -> consume_outcome json_dump g d = Ok view ->
  exists operation,
    command_of (intent g) = Some operation
    /\ json_eqb (jget d "completed_stages") (JArray (map stage_json (completed_stages g))) = true
    /\ (eq_str (jget d "mutation_state")
           (account_audit_mutation_state_name (derive_mutation_state g)) = true
        \/ (derive_mutation_state g = MutationPossible
            /\ terminal_proves_explicit_no_mutation operation (jget d "terminal") = true))
    /\ terminal_matches_plan operation (jget d "terminal") (intent g) = true
    /\ (mutation_confirmed g = true ->
        exists found, last_checkpoint "mutation_confirmed" g = Some found
          /\ canonical_json_equal json_dump (jget d "terminal")
                (jget (jget found "data") "terminal") = true)
    /\ make_completed_view g d = Ok view.
Proof.
  intros G H. unfold consume_outcome in H. apply check_seq in H as [C1 H].
  apply check_seq in H as [C2 H]. inv_bind H. apply of_option_ok in E. rename a into op.
  apply check_seq in H as [C3 H]. apply check_seq in H as [_ H]. inv_bind H.
  exists op. split; [exact E|]. split; [exact C1|]. rewrite E in C2.
  split; [|split; [exact C3|split; [|exact H]]].
  - apply orb_true_iff in C2 as [C2|C2]; [now left|]. right. bool_split. apply eqb_eq in H0. auto.
  - intros M. rewrite M in E0. destruct (last_checkpoint _ g) as [found|];
      cbn in E0; [|discriminate]. exists found. split; [reflexivity|].
    destruct (canonical_json_equal _ _ _); [reflexivity | discriminate].
Qed.

(** The latest vector of a forward nobody received: nothing was sent. *)
Lemma none_sent g items :
  any_forward_sent g = false -> group_ok g -> final_forward_items g = Some items ->
  existsb (status_is "sent") (elements items) = false.
Proof.
  intros N G F. rewrite (ok_sent _ G) in N. unfold final_forward_items, last_checkpoint in F.
  destruct (find _ (rev (checkpoints g))) as [d|] eqn:E; [|discriminate]. injection F as <-.
  apply find_some in E as [I E]. apply in_rev in I.
  destruct (existsb (status_is "sent") _) eqn:S; [|reflexivity].
  assert (existsb sent_somewhere (checkpoints g) = true); [|congruence].
  apply existsb_exists. exists d. split; [exact I|]. unfold sent_somewhere. now rewrite E, S.
Qed.

Lemma derive_none g :
  group_ok g -> derive_mutation_state g = MutationNone ->
  dispatch_started g = false \/
  exists items, final_forward_items g = Some items /\ forward_vector_complete items = true
    /\ existsb (status_is "sent") (elements items) = false
    /\ existsb deletion_ambiguity (elements items) = false.
Proof.
  intros G. unfold derive_mutation_state.
  destruct (mutation_confirmed g); cbn [orb]; [discriminate|].
  destruct (any_forward_sent g) eqn:S; [discriminate|].
  destruct (dispatch_started g); cbn [negb]; [|now left].
  pose proof (ok_complete _ G) as C. destruct (forward_complete g); cbn [negb]; [|discriminate].
  destruct (final_forward_items g) as [items|] eqn:F; [|discriminate].
  destruct (existsb deletion_ambiguity _) eqn:A; [discriminate|]. intros _. right.
  exists items. repeat (split; [now auto|]).
  split; [exact (none_sent _ _ S G F) | exact A].
Qed.
End scan.

(** A consumed outcome closes the open group it belongs to. *)
Lemma consume_closes json_dump generation d st view :
  consume_v2 json_dump generation d st = Ok (None, Some view) ->
  exists g, st = Some g /\ belongs (intent g) d = true
    /\ validate_outcome_impl json_dump d = Ok tt /\ consume_outcome json_dump g d = Ok view.
Proof.
  unfold consume_v2. intros H. apply check_seq in H as [_ H].
  destruct (String.eqb _ "intent"); [destruct st; [discriminate|]; inv_bind H; discriminate|].
  destruct (String.eqb _ "checkpoint"); [inv_bind H; inv_bind H; inv_bind H; discriminate|].
  destruct (String.eqb _ "outcome"); [|discriminate].
  inv_bind H. destruct a. inv_bind H. apply of_option_ok, matching_some in E0 as [-> B].
  inv_bind H. injection H as ->. eauto 6.
Qed.

(** The stages of a document that lists them by name. *)
Lemma parse_stages_names seen l :
  nodupb l = true -> Forall (fun s => existsb (eqb s) seen = false) l ->
  parse_stages seen (map stage_json l) = Some l.
Proof.
  revert seen. induction l as [|s l IH]; intros seen N F; [reflexivity|].
  cbn [nodupb] in N. apply andb_prop in N as [N1 N2]. apply negb_true_iff in N1.
  inversion_clear F as [|? ? Fs Fl]. cbn [map parse_stages].
  assert (parse_account_audit_stage (get_string (stage_json s)) = Some s) as P
    by (destruct s; reflexivity).
  change (is_string (stage_json s)) with true. cbn [negb]. rewrite P, Fs, IH; [reflexivity|exact N2|].
  apply Forall_forall. intros x Hx. cbn [existsb]. rewrite Forall_forall in Fl.
  rewrite (Fl x Hx), orb_false_r. destruct (eqb x s) eqn:E; [|reflexivity].
  apply eqb_eq in E as ->. apply has_stage_In in Hx. unfold has_stage in Hx. congruence.
Qed.

Lemma stage_json_map l : map stage_json l = map JString (map account_audit_stage_name l).
Proof. now rewrite map_map. Qed.

(** Legal lists, checked for every representative. *)
Definition legal_facts (operation : AccountAuditOperation) : bool :=
  forallb (fun l =>
    nodupb l && Nat.leb (List.length l) 6
    && implb (has_stage TemporaryIdsObserved l || has_stage ForwardProgress l
              || has_stage MutationConfirmed l) (has_stage DispatchStarted l)
    && implb (eqb operation SavedAttach && has_stage DispatchStarted l) (has_stage SpoolReady l))
    (nodup eq_dec (all_legal operation)).

Lemma legal_facts_true operation : legal_facts (representative operation) = true.
Proof. destruct operation; vm_compute; reflexivity. Qed.

Lemma legal_list operation l :
  In l (all_legal operation) ->
  nodupb l = true /\ (List.length l <= 6)%nat
  /\ (has_stage ForwardProgress l = true -> has_stage DispatchStarted l = true)
  /\ (has_stage MutationConfirmed l = true -> has_stage DispatchStarted l = true)
  /\ (operation = SavedAttach -> has_stage DispatchStarted l = true -> has_stage SpoolReady l = true).
Proof.
  destruct (admitted_represented operation l SpoolReady) as (_ & _ & _ & L). rewrite L. intros H.
  pose proof (legal_facts_true operation) as T. unfold legal_facts in T.
  rewrite forallb_forall in T. specialize (T l (proj2 (nodup_In _ _ _) H)).
  apply andb_prop in T as [T T4]. apply andb_prop in T as [T T3]. apply andb_prop in T as [T1 T2].
  apply Nat.leb_le in T2. split; [exact T1|]. split; [exact T2|].
  rewrite implb_true_iff in T3, T4.
  split; [|split]; [intros K; apply T3; rewrite K, ?orb_true_r; reflexivity
    | intros K; apply T3; rewrite K, ?orb_true_r; reflexivity|].
  intros -> K. apply T4. now rewrite K.
Qed.

(** C34.  A group is recorded as having changed nothing only when nothing was
    dispatched, or Telegram explicitly refused, or a complete forward vector
    shows that no message was sent and none may have been. *)
Theorem no_mutation_outcome_sound json_dump generation documents g views outcome view :
  scan json_dump generation None documents = Ok (Some g, views) ->
  consume_v2 json_dump generation outcome (Some g) = Ok (None, Some view) ->
  jget outcome "mutation_state" = JString "none" ->
  exists operation, command_of (intent g) = Some operation /\
  (dispatch_started g = false
   \/ terminal_proves_explicit_no_mutation operation (jget outcome "terminal") = true
   \/ exists items, final_forward_items g = Some items /\ forward_vector_complete items = true
        /\ existsb (status_is "sent") (elements items) = false
        /\ existsb deletion_ambiguity (elements items) = false).
Proof.
  intros S C M. apply scan_ok in S; [|exact I].
  apply consume_closes in C as (g' & [= <-] & _ & _ & C).
  destruct (consume_outcome_inv _ _ _ _ S C) as (op & O & _ & [D|[_ D]] & _).
  - exists op. split; [exact O|]. rewrite M in D.
    assert (derive_mutation_state g = MutationNone) as N
      by (destruct (derive_mutation_state g); [reflexivity|discriminate|discriminate]).
    destruct (derive_none _ _ S N) as [K|K]; auto.
  - exists op. auto.
Qed.

(** Nothing dispatched, abandoned. *)
Lemma no_mutation_outcome_sound_witness :
  exists g operation, command_of (intent g) = Some operation.
Proof.
  destruct (completes_inv _ _ archive_abandonable) as (g & views & view & S & C).
  destruct (no_mutation_outcome_sound sample_dump 1 [archive_intent] g views archive_abandoned view
    S C eq_refl) as (operation & O & _).
  exists g, operation. exact O.
Defined.

(** C35.  A group is recorded as successful only with the very terminal of a
    durable mutation proof, except the reading of a chat with nothing to read,
    which dispatches nothing. *)
Theorem successful_outcome_proved json_dump generation documents g views outcome view :
  scan json_dump generation None documents = Ok (Some g, views) ->
  consume_v2 json_dump generation outcome (Some g) = Ok (None, Some view) ->
  jget outcome "success" = JBool true ->
  (exists proof, last_checkpoint "mutation_confirmed" g = Some proof
     /\ dispatch_started g = true
     /\ canonical_json_equal json_dump (jget outcome "terminal")
          (jget (jget proof "data") "terminal") = true)
  \/ (command_of (intent g) = Some ChatMarkRead /\ dispatch_started g = false).
Proof.
  intros S C M. apply scan_ok in S; [|exact I].
  apply consume_closes in C as (g' & [= <-] & B & V & C).
  destruct (consume_outcome_inv _ _ _ _ S C) as (op & O & St & _ & _ & P & _).
  destruct (ok_history _ _ S) as (op' & inputs & h & O' & _ & _ & _ & L & _).
  rewrite O in O'. injection O' as <-. destruct (legal_list _ _ L) as (N & _ & _ & MD & _).
  rewrite stage_json_map in St. apply json_eqb_strings in St.
  unfold validate_outcome_impl in V. apply check_seq in V as [_ V]. inv_bind V.
  apply of_option_ok in E. rewrite (belongs_command _ _ (intent_identity _ _ (ok_intent _ _ S)) B) in E.
  rewrite O in E. injection E as <-. apply check_seq in V as [_ V]. apply check_seq in V as [_ V].
  rewrite St, <- stage_json_map in V. cbn [elements] in V.
  rewrite parse_stages_names in V; [|exact N | apply Forall_forall; reflexivity].
  cbn [of_option bind] in V. apply check_seq in V as [_ V]. apply check_seq in V as [_ V].
  apply check_ok in V. unfold outcome_consistent in V. rewrite M in V. cbn zeta in V.
  cbn [get_bool andb] in V.
  do 8 (apply andb_prop in V as [V _]). apply andb_prop in V as [_ V].
  rewrite <- (ok_dispatch _ _ S), <- (ok_mutation _ _ S) in V.
  destruct (mutation_confirmed g) eqn:MC.
  - left. destruct (P eq_refl) as (found & F & K). exists found. repeat (split; [exact F|]).
    split; [|exact K]. rewrite (ok_dispatch _ _ S). apply MD. now rewrite <- (ok_mutation _ _ S).
  - right. rewrite orb_true_r, andb_true_r, negb_involutive in V.
    repeat (apply andb_prop in V as [V ?]). apply eqb_eq in V as ->.
    split; [exact O|]. now apply negb_true_iff.
Qed.

(** A dispatched and confirmed archive. *)
Lemma successful_outcome_proved_witness :
  exists g, (exists proof, last_checkpoint "mutation_confirmed" g = Some proof)
            \/ dispatch_started g = false.
Proof.
  destruct (completes_inv _ _ archive_completes) as (g & views & view & S & C).
  exists g.
  destruct (successful_outcome_proved sample_dump 1
    [archive_intent; archive_dispatch; archive_proof] g views archive_outcome view S C eq_refl)
    as [(proof & F & _)|[_ F]]; [left; exists proof | right]; exact F.
Defined.

(** * The open group and the grammar of the log *)

(** C4.  Whatever records were accepted, the group left open has a legal list
    of distinct stages, its flags say exactly which stages are there, a proof
    or a forward vector comes after the dispatch, and an attachment is
    dispatched only once its spool file is ready. *)
Theorem open_group_invariant json_dump generation documents g views :
  scan json_dump generation None documents = Ok (Some g, views) ->
  exists operation,
    command_of (intent g) = Some operation
    /\ legal_completed_stages operation (completed_stages g) = true
    /\ nodupb (completed_stages g) = true
    /\ has_spool g = has_stage SpoolReady (completed_stages g)
    /\ dispatch_started g = has_stage DispatchStarted (completed_stages g)
    /\ mutation_confirmed g = has_stage MutationConfirmed (completed_stages g)
    /\ (mutation_confirmed g = true -> dispatch_started g = true)
    /\ (any_forward_sent g = true -> dispatch_started g = true)
    /\ (operation = SavedAttach -> dispatch_started g = true -> has_spool g = true).
Proof.
  intros S. apply scan_ok in S; [|exact I].
  destruct (ok_history _ _ S) as (op & inputs & h & C & _ & _ & _ & L & _).
  destruct (legal_list _ _ L) as (N & _ & PD & MD & SD). exists op.
  rewrite <- (ok_dispatch _ _ S), <- (ok_mutation _ _ S), <- (ok_spool _ _ S) in *.
  split; [exact C|]. split; [exact (all_legal_sound _ _ L)|]. split; [exact N|].
  do 3 (split; [reflexivity|]). split; [exact MD|]. split; [|exact SD].
  intros A. apply PD. rewrite (ok_progress _ _ S). rewrite (ok_sent _ _ S) in A.
  apply existsb_exists in A as (d & J & A). unfold sent_somewhere in A. bool_split.
  unfold final_forward_items, last_checkpoint.
  destruct (find _ (rev (checkpoints g))) eqn:F; [reflexivity|].
  apply in_rev in J. apply (find_none _ _ F) in J. congruence.
Qed.

(** An archive that was dispatched and confirmed. *)
Lemma open_group_invariant_witness : exists g, mutation_confirmed g = true /\ dispatch_started g = true.
Proof.
  destruct (completes_inv _ _ archive_completes) as (g & views & view & S & C).
  exists g. destruct (open_group_invariant sample_dump 1 _ g views S)
    as (operation & _ & _ & _ & _ & _ & _ & D & _).
  assert (mutation_confirmed g = true) as M.
  { vm_compute in S. injection S as <- _. reflexivity. }
  split; [exact M | exact (D M)].
Defined.

(** A completed group, as records. *)
Record group_records := { g_intent : json; g_checkpoints : list json; g_outcome : json }.

Definition records (r : group_records) : list json :=
  g_intent r :: g_checkpoints r ++ [g_outcome r].

(** What a group records: valid documents of one invocation, in phase order. *)
Definition recorded (json_dump : json -> option string) (i : json) (cs : list json) : Prop :=
  validate_intent_impl json_dump i = Ok tt
  /\ Forall (fun d => validate_checkpoint_impl json_dump d = Ok tt /\ belongs i d = true) cs.

Definition completed (json_dump : json -> option string) (r : group_records)
    (view : AccountAuditCompletedGroupView) : Prop :=
  recorded json_dump (g_intent r) (g_checkpoints r)
  /\ validate_outcome_impl json_dump (g_outcome r) = Ok tt
  /\ belongs (g_intent r) (g_outcome r) = true
  /\ v_outcome view = Some (g_outcome r)
  /\ v_invocation_id view = get_string (jget (g_intent r) "invocation_id")
  /\ v_plan view = jget (g_intent r) "plan".

Definition open_records (st : option AccountAuditOpenGroup) : list json :=
  match st with Some g => intent g :: checkpoints g | None => [] end.

Definition state_ok (json_dump : json -> option string) (st : option AccountAuditOpenGroup) : Prop :=
  match st with Some g => group_ok json_dump g | None => True end.

Lemma view_facts g d view :
  make_completed_view g d = Ok view ->
  v_outcome view = Some d /\ v_invocation_id view = get_string (jget (intent g) "invocation_id")
  /\ v_plan view = jget (intent g) "plan".
Proof.
  unfold make_completed_view. intros H. inv_bind H. inv_bind H. injection H as <-. auto.
Qed.

Lemma consume_records json_dump generation d st st' view :
  state_ok json_dump st -> consume_v2 json_dump generation d st = Ok (st', view) ->
  match view with
  | None => open_records st' = open_records st ++ [d]
  | Some v => st' = None /\ exists r, completed json_dump r v /\ records r = open_records st ++ [d]
  end.
Proof.
  intros G H. unfold consume_v2 in H. apply check_seq in H as [_ H].
  destruct (String.eqb _ "intent").
  { destruct st as [g|]; [discriminate|]. inv_bind H. injection H as <- <-. reflexivity. }
  destruct (String.eqb _ "checkpoint").
  { inv_bind H. destruct a. inv_bind H. apply of_option_ok, matching_some in E0 as [-> B].
    inv_bind H. injection H as <- <-.
    destruct (consume_checkpoint_inv _ _ _ _ G E B E0)
      as (? & ? & ? & ? & ? & _ & _ & _ & _ & _ & -> & _). reflexivity. }
  destruct (String.eqb _ "outcome"); [|discriminate].
  inv_bind H. destruct a. inv_bind H. apply of_option_ok, matching_some in E0 as [-> B].
  inv_bind H. injection H as <- <-. split; [reflexivity|].
  destruct (consume_outcome_inv _ _ _ _ G E0) as (op & _ & _ & _ & _ & _ & V).
  exists {| g_intent := intent a; g_checkpoints := checkpoints a; g_outcome := d |}.
  split; [|reflexivity]. destruct (view_facts _ _ _ V) as (V1 & V2 & V3).
  split; [split; [apply (ok_intent _ _ G) | apply (ok_records _ _ G)] | auto 6].
Qed.

Lemma scan_records json_dump generation ds st st' views :
  state_ok json_dump st -> scan json_dump generation st ds = Ok (st', views) ->
  exists groups, open_records st ++ ds = flat_map records groups ++ open_records st'
    /\ Forall2 (completed json_dump) groups views.
Proof.
  revert st views. induction ds as [|d ds IH]; intros st views G; cbn [scan].
  - intros [= <- <-]. exists []. rewrite app_nil_r. auto.
  - intros H. inv_bind H. destruct a as [s1 v1]. inv_bind H. destruct a as [s2 v2].
    injection H as <- <-. pose proof (consume_records _ _ _ _ _ _ G E) as R.
    destruct (IH s1 v2 (consume_ok _ _ _ _ _ _ G E) E0) as (groups & K & F).
    destruct v1 as [v|].
    + destruct R as (-> & r & Q & R). exists (r :: groups). cbn [flat_map].
      rewrite R, <- !app_assoc. cbn [app]. rewrite <- K. split; [reflexivity | now constructor].
    + exists groups. rewrite R, <- app_assoc in K. auto.
Qed.

(** C24.  The records a scan accepts are a sequence of complete groups, each an
    intent, its checkpoints and its outcome, all valid and of one invocation,
    followed by the records of the group left open; and the views reported are
    those of the complete groups, in order. *)
Theorem scan_grammar json_dump generation documents state views :
  scan json_dump generation None documents = Ok (state, views) ->
  exists groups,
    documents = flat_map records groups ++ open_records state
    /\ Forall2 (completed json_dump) groups views
    /\ match state with
       | Some g => recorded json_dump (intent g) (checkpoints g)
       | None => True
       end.
Proof.
  intros S. destruct (scan_records json_dump generation documents None state views I S)
    as (groups & E & F).
  exists groups. split; [exact E|]. split; [exact F|].
  apply scan_ok in S; [|exact I]. destruct state as [g|]; [|exact I].
  split; [apply (ok_intent _ _ S) | apply (ok_records _ _ S)].
Qed.

(** One completed archive. *)
Lemma scan_grammar_witness :
  exists state views groups,
    scan sample_dump 1 None [archive_intent; archive_dispatch; archive_proof; archive_outcome]
      = Ok (state, views)
    /\ [archive_intent; archive_dispatch; archive_proof; archive_outcome]
       = flat_map records groups ++ open_records state.
Proof.
  destruct (scan sample_dump 1 None
    [archive_intent; archive_dispatch; archive_proof; archive_outcome]) as [[state views]|e] eqn:S.
  - exists state, views. destruct (scan_grammar sample_dump 1 _ state views S) as (groups & E & _).
    exists groups. split; [reflexivity | exact E].
  - vm_compute in S. discriminate S.
Defined.
