(* ===== verification/AuditRecovery.v ===== *)
(** Recovery of the group a crash left open
    (src/src/daemon/account_audit.cpp [classify_account_audit_recovery] and
    src/src/daemon/idempotency_reconciliation.cpp [append_recovery_outcome]):
    the records recovery appends are records the log accepts. *)
From S2P Require Import Prelude Json Paths Operation DestructivePlan M6Domain AuditSchema.
From S2P Require Import AuditSchemaFacts AuditLog AuditSamples AuditLogFacts.
Import Audit.

(** * The records *)

(** [append_recovery_outcome]: the input of the outcome. *)
Definition recovery_outcome_input (g : AccountAuditOpenGroup) (operation : AccountAuditOperation)
    (now : string) (mutation : AccountAuditMutationState) (stages : list AccountAuditStage)
    (terminal : json) : AccountAuditOutcomeInput :=
  {| o_identity := {| invocation_id := get_string (jget (intent g) "invocation_id");
                      timestamp := now |};
     o_account := get_string (jget (intent g) "account");
     o_operation := operation;
     o_success := eq_str (jget terminal "kind") "result";
     o_mutation_state := mutation;
     o_completed_stages := stages;
     o_terminal := terminal |}.

(** [append_recovery_checkpoint]: the input of the mutation proof. *)
Definition recovery_checkpoint_input (g : AccountAuditOpenGroup) (operation : AccountAuditOperation)
    (now : string) (sequence : Z) (terminal : json) : AccountAuditCheckpointInput :=
  {| c_identity := {| invocation_id := get_string (jget (intent g) "invocation_id");
                      timestamp := now |};
     c_account := get_string (jget (intent g) "account");
     c_operation := operation;
     c_sequence := sequence;
     c_stage := MutationConfirmed;
     c_data := jobject [("terminal", terminal)] |}.

(** The number of the next checkpoint, on 32 bits. *)
Definition recovery_sequence (g : AccountAuditOpenGroup) : Z :=
  match rev (checkpoints g) with
  | [] => 1
  | last :: _ => u32 (u32 (get_u64 (jget last "checkpoint_sequence")) + 1)
  end.

(** * Facts about groups *)

Lemma serialized_dump json_dump v n :
  serialized_size_at_most json_dump v n = true -> exists text, json_dump v = Some text.
Proof. unfold serialized_size_at_most. destruct (json_dump v); [eauto | discriminate]. Qed.

Lemma canonical_equal_refl json_dump v n :
  serialized_size_at_most json_dump v n = true -> canonical_json_equal json_dump v v = true.
Proof.
  intros H. apply serialized_dump in H as (t & H). unfold canonical_json_equal. rewrite H.
  apply String.eqb_refl.
Qed.

(** The identity a valid intent carries. *)
Lemma intent_strings json_dump i :
  validate_intent_impl json_dump i = Ok tt ->
  exists invocation account command operation,
    jget i "invocation_id" = JString invocation /\ valid_hex invocation 32 = true
    /\ jget i "account" = JString account /\ valid_account_name account = true
    /\ jget i "command" = JString command /\ command_of i = Some operation
    /\ command = account_audit_operation_name operation
    /\ has_value (timestamp_unix_seconds (jget i "timestamp")) = true
    /\ valid_intent_content operation i = true.
Proof.
  intros V. pose proof (intent_identity _ _ V) as D. unfold valid_common_identity in D.
  unfold validate_intent_impl in V. apply check_seq in V as [_ V]. inv_bind V.
  apply of_option_ok in E. apply check_seq in V as [C _]. bool_split.
  exists (get_string (jget i "invocation_id")), (get_string (jget i "account")),
    (get_string (jget i "command")), a.
  assert (get_string (jget i "command") = account_audit_operation_name a) as N.
  { unfold command_of in E. unfold parse_account_audit_operation in E.
    destruct (lookup_by _ _ _) as [e|] eqn:L; [|discriminate]. injection E as <-.
    apply lookup_by_some in L as [I L]. rewrite <- L. cbn in I.
    repeat (destruct I as [<-|I]; [reflexivity|]). tauto. }
  repeat (split; [now (assumption || apply is_string_inv; assumption)|]). assumption.
Qed.

(** * An outcome the log accepts *)

(** What an open group asks of the terminal its outcome carries. *)
Record acceptable (json_dump : json -> option string) (g : AccountAuditOpenGroup)
    (operation : AccountAuditOperation) (terminal : json) : Prop := {
  acc_valid : valid_terminal operation terminal = true;
  acc_plan : terminal_matches_plan operation terminal (intent g) = true;
  acc_incomplete : is_error terminal = true -> eq_str (jget terminal "code") "AUDIT_INCOMPLETE" = true ->
    eq_str (jget (jget terminal "details") "mutation_state")
      (account_audit_mutation_state_name (derive_mutation_state g)) = true
    /\ jget (jget terminal "details") "completed_stages"
       = JArray (map stage_json (completed_stages g));
  acc_spool : is_error terminal && eq_str (jget terminal "code") "SPOOL_UNAVAILABLE" = false;
  acc_success : is_result terminal = true ->
    mutation_confirmed g = true
    \/ (operation = ChatMarkRead /\ dispatch_started g = false
        /\ is_null (jget (jget terminal "data") "last_read_message_id") = true);
  acc_forward : operation = MsgForward ->
    terminal_matches_latest_forward json_dump g terminal = true;
  acc_proof : mutation_confirmed g = true ->
    exists found, last_checkpoint "mutation_confirmed" g = Some found
                  /\ jget (jget found "data") "terminal" = terminal;
  acc_derived : mutation_confirmed g = false -> forward_complete g = true ->
    derive_forward_terminal g = Ok terminal
}.

(** The mutation state of a reachable group against its stages. *)
Lemma derive_state_stages json_dump g :
  group_ok json_dump g ->
  (dispatch_started g = false -> derive_mutation_state g = MutationNone)
  /\ (mutation_confirmed g = true -> derive_mutation_state g = MutationConfirmedState)
  /\ (dispatch_started g = true -> has_stage ForwardProgress (completed_stages g) = false ->
      mutation_confirmed g = false -> derive_mutation_state g = MutationPossible)
  /\ (derive_mutation_state g = MutationConfirmedState -> mutation_confirmed g = false ->
      has_stage ForwardProgress (completed_stages g) = true).
Proof.
  intros G. destruct (ok_history _ _ G) as (op & inputs & h & _ & _ & _ & _ & L & _).
  destruct (legal_list _ _ L) as (_ & _ & PD & MD & _).
  rewrite <- (ok_dispatch _ _ G) in PD, MD. rewrite <- (ok_mutation _ _ G) in MD.
  assert (any_forward_sent g = true -> has_stage ForwardProgress (completed_stages g) = true) as SP.
  { rewrite (ok_sent _ _ G), (ok_progress _ _ G). intros S.
    apply existsb_exists in S as (d & I & S). unfold sent_somewhere in S. bool_split.
    unfold final_forward_items, last_checkpoint.
    destruct (find _ (rev (checkpoints g))) eqn:F; [reflexivity|].
    apply in_rev in I. apply (find_none _ _ F) in I. congruence. }
  pose proof (ok_complete _ _ G) as CO. pose proof (ok_progress _ _ G) as PR.
  unfold derive_mutation_state. split; [|split; [|split]].
  - intros D. rewrite D in *. destruct (mutation_confirmed g); [now discriminate MD|].
    destruct (any_forward_sent g); [now discriminate (PD (SP eq_refl)) | reflexivity].
  - intros ->. reflexivity.
  - intros D P M. rewrite D, M, P in *. destruct (any_forward_sent g); [now discriminate SP|].
    destruct (final_forward_items g); [discriminate|]. rewrite CO. reflexivity.
  - intros E M. rewrite M in E. destruct (any_forward_sent g); [now apply SP|]. cbn [orb] in E.
    destruct (dispatch_started g), (forward_complete g); try discriminate.
    destruct (final_forward_items g); [|discriminate]. cbn [negb] in E.
    destruct (existsb _ _); discriminate.
Qed.

Section outcome.
Variable json_dump : json -> option string.
Variables (g : AccountAuditOpenGroup) (operation : AccountAuditOperation) (now : string).
Variable terminal : json.
Hypothesis G : group_ok json_dump g.
Hypothesis C : command_of (intent g) = Some operation.
Hypothesis T : valid_timestamp (JString now) = true.
Hypothesis A : acceptable json_dump g operation terminal.

Let input := recovery_outcome_input g operation now (derive_mutation_state g)
               (completed_stages g) terminal.
Let document := outcome_document input.

Hypothesis TS : serialized_size_at_most json_dump terminal (terminal_byte_ceiling operation) = true.
Hypothesis DS : serialized_size_at_most json_dump document kVectorJsonBytes = true.

Lemma outcome_belongs : belongs (intent g) document = true.
Proof.
  destruct (intent_strings _ _ (ok_intent _ _ G))
    as (i & a & c & op & I & _ & AC & _ & CM & CO & -> & _).
  rewrite C in CO. injection CO as <-.
  unfold belongs, same. rewrite I, AC, CM.
  change (jget document "invocation_id") with (JString (get_string (jget (intent g) "invocation_id"))).
  change (jget document "command") with (JString (account_audit_operation_name operation)).
  change (jget document "account") with (JString (get_string (jget (intent g) "account"))).
  rewrite I, AC. cbn [get_string json_eqb]. now rewrite !String.eqb_refl.
Qed.

Lemma outcome_identity : valid_common_identity document = true /\ command_of document = Some operation.
Proof.
  destruct (intent_strings _ _ (ok_intent _ _ G))
    as (i & a & c & op & I & IH & AC & AH & CM & CO & CN & _).
  rewrite C in CO. injection CO as <-.
  assert (command_of document = Some operation) as D.
  { rewrite <- C. unfold command_of. rewrite CM, CN. reflexivity. }
  split; [|exact D]. unfold valid_common_identity. rewrite D.
  change (jget document "invocation_id") with (JString (get_string (jget (intent g) "invocation_id"))).
  change (jget document "timestamp") with (JString now).
  change (jget document "account") with (JString (get_string (jget (intent g) "account"))).
  rewrite I, AC, T. cbn [get_string]. rewrite IH, AH. reflexivity.
Qed.

Lemma state_names s s' :
  String.eqb (account_audit_mutation_state_name s) (account_audit_mutation_state_name s') = eqb s s'.
Proof. destruct s, s'; reflexivity. Qed.

Lemma outcome_is_consistent :
  outcome_consistent json_dump operation document (completed_stages g) = true.
Proof.
  destruct (ok_history _ _ G) as (op & inputs & h & CO & _ & _ & _ & L & _).
  rewrite C in CO. injection CO as <-. destruct (legal_list _ _ L) as (_ & _ & PD & MD & _).
  destruct (derive_state_stages _ _ G) as (D1 & D2 & D3 & D4).
  unfold outcome_consistent. cbn zeta.
  change (jget document "terminal") with terminal.
  change (jget document "mutation_state")
    with (JString (account_audit_mutation_state_name (derive_mutation_state g))).
  change (jget document "success") with (JBool (eq_str (jget terminal "kind") "result")).
  change (eq_str (jget terminal "kind") "result") with (is_result terminal).
  cbn [get_string get_bool]. rewrite (all_legal_sound _ _ L), eqb_reflx, TS, DS.
  rewrite (acc_spool _ _ _ _ A). cbn [andb negb]. rewrite !andb_true_r.
  change "none" with (account_audit_mutation_state_name MutationNone).
  change "possible" with (account_audit_mutation_state_name MutationPossible).
  change "confirmed" with (account_audit_mutation_state_name MutationConfirmedState).
  rewrite !state_names. rewrite <- (ok_dispatch _ _ G), <- (ok_mutation _ _ G) in *.
  assert (is_result terminal = true -> mutation_confirmed g = true
    \/ (eqb operation ChatMarkRead = true /\ dispatch_started g = false
        /\ is_null (jget (jget terminal "data") "last_read_message_id") = true)) as SU.
  { intros R. destruct (acc_success _ _ _ _ A R) as [?|(-> & ? & ?)]; auto. }
  generalize dependent (eqb operation ChatMarkRead).
  generalize dependent (is_null (jget (jget terminal "data") "last_read_message_id")).
  generalize (terminal_proves_explicit_no_mutation operation terminal).
  clear - MD PD D1 D2 D3 D4.
  destruct (dispatch_started g), (mutation_confirmed g),
    (has_stage ForwardProgress (completed_stages g)); try (specialize (MD eq_refl); discriminate);
    try (specialize (PD eq_refl); discriminate);
    try rewrite (D1 eq_refl); try rewrite (D2 eq_refl); try rewrite (D3 eq_refl eq_refl eq_refl);
    destruct (is_result terminal); intros t n m SU; try specialize (SU eq_refl);
    try (destruct (derive_mutation_state g); try specialize (D4 eq_refl eq_refl); try discriminate);
    destruct t, n, m; try reflexivity; destruct SU as [SU|(? & ? & ?)]; discriminate.
Qed.

Lemma outcome_validates : validate_outcome_impl json_dump document = Ok tt.
Proof.
  destruct outcome_identity as [ID CD].
  destruct (ok_history _ _ G) as (op & inputs & h & CO & _ & _ & _ & L & _).
  rewrite C in CO. injection CO as <-. destruct (legal_list _ _ L) as (N & _).
  unfold validate_outcome_impl. rewrite ID, CD.
  change (exact_fields document outcome_fields) with true.
  change (eq_int (jget document "schema_version") 2) with true.
  change (eq_str (jget document "phase") "outcome") with true.
  change (is_boolean (jget document "success")) with true.
  change (is_string (jget document "mutation_state")) with true.
  change (is_array (jget document "completed_stages")) with true.
  cbn [andb check bind of_option]. cbn zeta.
  change (jget document "terminal") with terminal. rewrite (acc_valid _ _ _ _ A).
  cbn [check bind].
  change (get_string (jget document "mutation_state"))
    with (account_audit_mutation_state_name (derive_mutation_state g)).
  assert (str_in (account_audit_mutation_state_name (derive_mutation_state g)) mutation_names = true)
    as -> by (destruct (derive_mutation_state g); reflexivity).
  change (elements (jget document "completed_stages")) with (map stage_json (completed_stages g)).
  rewrite parse_stages_names; [|exact N | apply Forall_forall; reflexivity]. cbn [check bind of_option].
  rewrite outcome_is_consistent.
  pose proof (acc_plan _ _ _ _ A) as P. unfold terminal_matches_plan in P.
  pose proof (acc_incomplete _ _ _ _ A) as IN. fold (is_error terminal) in P.
  destruct (is_error terminal); [|reflexivity].
  change (jget document "account") with (JString (get_string (jget (intent g) "account"))).
  change (jget document "completed_stages") with (JArray (map stage_json (completed_stages g))).
  apply andb_prop in P as [P _].
  destruct (intent_strings _ _ (ok_intent _ _ G)) as (i & a & c & op & _ & _ & AC & _).
  rewrite AC in *. cbn [get_string]. cbn [andb]. rewrite P. cbn [check bind].
  destruct (eq_str (jget terminal "code") "AUDIT_INCOMPLETE"); [|reflexivity].
  destruct (IN eq_refl eq_refl) as [-> ->].
  rewrite json_eqb_refl; [reflexivity|]. rewrite stage_json_map. cbn.
  apply forallb_forall. intros x Hx. apply in_map_iff in Hx as (y & <- & _). reflexivity.
Qed.

Lemma outcome_accepted generation :
  exists view, consume_v2 json_dump generation document (Some g) = Ok (None, Some view).
Proof.
  destruct (intent_strings _ _ (ok_intent _ _ G))
    as (i & a & c & op & _ & _ & _ & _ & _ & CO & _ & TI & _).
  rewrite C in CO. injection CO as <-.
  unfold consume_v2.
  change (is_object document && contains document "phase" && is_string (jget document "phase")) with true.
  change (get_string (jget document "phase")) with "outcome".
  cbn [check bind String.eqb Ascii.eqb Bool.eqb].
  rewrite outcome_validates, (proj2 (belongs_matching g document) outcome_belongs).
  cbn [bind of_option]. unfold consume_outcome.
  change (jget document "completed_stages") with (JArray (map stage_json (completed_stages g))).
  change (jget document "terminal") with terminal.
  change (jget document "mutation_state")
    with (JString (account_audit_mutation_state_name (derive_mutation_state g))).
  rewrite json_eqb_refl by (rewrite stage_json_map; cbn; apply forallb_forall; intros x Hx;
    apply in_map_iff in Hx as (y & <- & _); reflexivity).
  cbn zeta. rewrite eq_str_refl, C. cbn [orb check bind of_option].
  rewrite (acc_plan _ _ _ _ A). cbn [check bind].
  assert (eqb operation MsgForward && negb (terminal_matches_latest_forward json_dump g terminal)
          = false) as ->.
  { destruct (eqb operation MsgForward) eqn:E; [|reflexivity]. apply eqb_eq in E.
    now rewrite (acc_forward _ _ _ _ A E). }
  cbn [negb check bind]. unfold make_completed_view. rewrite C.
  destruct (timestamp_unix_seconds _) as [seconds|]; [|discriminate]. cbn [of_option bind].
  pose proof (acc_proof _ _ _ _ A) as PF. pose proof (acc_derived _ _ _ _ A) as DF.
  destruct (mutation_confirmed g).
  { destruct (PF eq_refl) as (found & -> & ->). rewrite (canonical_equal_refl _ _ _ TS).
    cbn [check bind]. eauto. }
  destruct (forward_complete g); [|cbn [bind]; eauto]. rewrite (DF eq_refl eq_refl). cbn [bind].
  rewrite (canonical_equal_refl _ _ _ TS). cbn [check bind]. eauto.
Qed.
End outcome.

(** * The terminals recovery chooses *)

Lemma integer_tree d v : d <= kMaximumTreeDepth -> has_value (json_int64 v) = true ->
  tree_spec d v = true /\ tree_nodes v = 1%nat.
Proof.
  intros D. destruct v; cbn; try discriminate; intros _; rewrite andb_true_r;
    (split; [now apply Z.leb_le | reflexivity]).
Qed.

Lemma tree_strings d l : d <= 31 -> Forall (fun s => tree_string s = true) l ->
  tree_spec d (JArray (map JString l)) = true
  /\ tree_nodes (JArray (map JString l)) = S (List.length l).
Proof.
  intros D F. cbn [tree_spec tree_nodes]. split.
  - bool_split; [apply Z.leb_le; unfold kMaximumTreeDepth; lia|].
    apply forallb_forall. intros x Hx. apply in_map_iff in Hx as (s & <- & Hs).
    rewrite Forall_forall in F. cbn [tree_spec]. rewrite (F s Hs), andb_true_r.
    apply Z.leb_le. unfold kMaximumTreeDepth. lia.
  - f_equal. rewrite map_map. cbn [tree_nodes]. clear. induction l; cbn; [reflexivity | now f_equal].
Qed.

Lemma stage_strings d l : d <= 31 ->
  tree_spec d (JArray (map stage_json l)) = true
  /\ tree_nodes (JArray (map stage_json l)) = S (List.length l).
Proof.
  intros D. rewrite stage_json_map. destruct (tree_strings d (map account_audit_stage_name l) D) as [A B].
  - apply Forall_forall. intros s Hs. apply in_map_iff in Hs as (x & <- & _). destruct x; reflexivity.
  - rewrite length_map in B. auto.
Qed.

Lemma contains_string v k s : jget v k = JString s -> contains v k = true.
Proof. unfold jget, contains. destruct (jfind v k); [reflexivity | discriminate]. Qed.

(** The account of an intent, as a string of the document. *)
Lemma intent_account json_dump i account :
  validate_intent_impl json_dump i = Ok tt -> jget i "account" = JString account ->
  tree_string account = true.
Proof.
  intros V E. unfold validate_intent_impl in V. apply check_seq in V as [_ V]. inv_bind V.
  apply check_seq in V as [_ V]. apply check_ok in V. bool_split. rewrite json_tree_spec in H.
  bool_split. eapply tree_spec_member in H; [|apply jget_find; exact (contains_string _ _ _ E)].
  rewrite E in H. cbn [tree_spec] in H. bool_split. assumption.
Qed.

Lemma incomplete_tree account path mutation stages :
  tree_string account = true -> tree_string path = true -> (List.length stages <= 6)%nat ->
  valid_json_tree (incomplete_terminal account path mutation stages) = true.
Proof.
  intros A P L. rewrite json_tree_spec.
  destruct (stage_strings 2 stages ltac:(lia)) as [K N].
  set (a := JArray (map stage_json stages)) in *.
  assert (tree_string (account_audit_mutation_state_name mutation) = true) as M
    by (destruct mutation; reflexivity).
  bool_split.
  - change (incomplete_terminal account path mutation stages) with
      (JObject [("code", JString "AUDIT_INCOMPLETE");
        ("details", JObject [("account", JString account); ("completed_stages", a);
           ("mutation_state", JString (account_audit_mutation_state_name mutation));
           ("path", JString path)]); ("exit_code", JInteger 1); ("kind", JString "error");
        ("message", JString "a prior audited invocation did not reach a terminal proof")]).
    cbn [tree_spec forallb fst snd]. change (0 + 1) with 1. change (1 + 1) with 2.
    rewrite K, A, P, M. reflexivity.
  - change (tree_nodes (incomplete_terminal account path mutation stages)) with
      (S (1 + (S (1 + (tree_nodes a + (1 + (1 + 0)))) + (1 + (1 + (1 + 0)))))%nat).
    rewrite N. apply Z.leb_le. unfold kMaximumTreeNodes. lia.
Qed.

Lemma acceptable_incomplete json_dump g operation account path :
  group_ok json_dump g -> command_of (intent g) = Some operation ->
  jget (intent g) "account" = JString account -> valid_selector_string (JString path) = true ->
  mutation_confirmed g = false -> forward_complete g = false ->
  acceptable json_dump g operation
    (incomplete_terminal account path (derive_mutation_state g) (completed_stages g)).
Proof.
  intros G C A P M F.
  destruct (intent_strings _ _ (ok_intent _ _ G)) as (_ & a & _ & _ & _ & _ & AC & AH & _).
  rewrite A in AC. injection AC as <-.
  destruct (ok_history _ _ G) as (op & inputs & h & CO & _ & _ & _ & L & _).
  rewrite C in CO. injection CO as <-. destruct (legal_list _ _ L) as (N & LE & PD & MD & _).
  destruct (derive_state_stages _ _ G) as (D1 & D2 & D3 & D4).
  set (t := incomplete_terminal account path (derive_mutation_state g) (completed_stages g)).
  constructor.
  - change (valid_terminal operation t) with (valid_stored_error operation t).
    unfold valid_stored_error.
    change (jget t "code") with (JString "AUDIT_INCOMPLETE").
    change (jget t "message") with (JString "a prior audited invocation did not reach a terminal proof").
    change (stored_error_details operation (get_string (JString "AUDIT_INCOMPLETE")) _
      (jget t "details") _) with (valid_audit_incomplete_details operation (jget t "details")).
    unfold t at 5. rewrite incomplete_tree; [|exact (intent_account _ _ _ (ok_intent _ _ G) A)| |exact LE].
    2:{ unfold valid_selector_string, valid_string in P. bool_split. unfold tree_string.
        cbn [get_string] in *. rewrite_bools. reflexivity. }
    change (exact_fields t _) with true. cbn [andb].
    unfold valid_audit_incomplete_details. cbn zeta.
    change (jget (jget t "details") "account") with (JString account).
    change (jget (jget t "details") "path") with (JString path).
    change (jget (jget t "details") "mutation_state")
      with (JString (account_audit_mutation_state_name (derive_mutation_state g))).
    change (elements (jget (jget t "details") "completed_stages"))
      with (map stage_json (completed_stages g)).
    cbn [get_string]. rewrite AH, P, parse_stages_names; [|exact N|apply Forall_forall; reflexivity].
    rewrite (all_legal_sound _ _ L).
    rewrite <- (ok_dispatch _ _ G), <- (ok_mutation _ _ G), M in *.
    assert (str_in (account_audit_mutation_state_name (derive_mutation_state g)) mutation_names = true)
      as -> by (destruct (derive_mutation_state g); reflexivity).
    destruct (dispatch_started g); [|now rewrite (D1 eq_refl)].
    destruct (has_stage ForwardProgress (completed_stages g)); [reflexivity|].
    now rewrite (D3 eq_refl eq_refl eq_refl).
  - unfold terminal_matches_plan. change (jget t "kind") with (JString "error").
    change (jget (jget t "details") "account") with (JString account). rewrite A.
    cbn [eq_str json_eqb]. rewrite !String.eqb_refl. reflexivity.
  - intros _ _. split; [apply eq_str_refl | reflexivity].
  - reflexivity.
  - discriminate.
  - intros _. reflexivity.
  - congruence.
  - congruence.
Qed.

(** The content of a recorded checkpoint. *)
Lemma checkpoint_content json_dump d c :
  validate_checkpoint_impl json_dump d = Ok tt -> checkpoint_input d = Some c ->
  valid_checkpoint_data (c_operation c) (c_stage c) (jget d "data") = true
  /\ exact_fields d checkpoint_fields = true /\ valid_json_tree d = true.
Proof.
  intros V I. unfold validate_checkpoint_impl in V. unfold checkpoint_input in I.
  destruct (command_of d) as [op|], (stage_of d) as [st|]; try discriminate. injection I as <-.
  apply check_seq in V as [E V]. cbn [of_option bind] in V. cbn zeta in V.
  apply check_seq in V as [D V]. do 3 (apply check_seq in V as [_ V]). apply check_ok in V.
  cbn [c_operation c_stage]. bool_split. auto.
Qed.

(** Terminals that prove a mutation. *)
Lemma proving_terminal operation terminal :
  terminal_proves_mutation operation terminal = true ->
  valid_terminal operation terminal = true
  /\ (is_error terminal = true -> eq_str (jget terminal "code") "AUDIT_INCOMPLETE" = false
      /\ eq_str (jget terminal "code") "SPOOL_UNAVAILABLE" = false).
Proof.
  unfold terminal_proves_mutation, is_error. destruct (valid_terminal _ _); [|discriminate].
  cbn [negb]. intros H. split; [reflexivity|]. intros K. apply eq_str_inv in K. rewrite K in H.
  destruct (jget terminal "code") as [| | | | |s| |]; try (split; reflexivity).
  cbn [eq_str get_string] in *. change (String.eqb "error" "result") with false in H. cbn iota in H.
  destruct (String.eqb s "AUDIT_INCOMPLETE") eqn:A.
  { str_bool. subst s. cbn in H. destruct (eqb operation MsgForward); discriminate. }
  destruct (String.eqb s "SPOOL_UNAVAILABLE") eqn:B; [|auto].
  str_bool. subst s. cbn in H. destruct (eqb operation MsgForward); discriminate.
Qed.

Lemma recorded_checkpoint json_dump g found stage :
  group_ok json_dump g -> last_checkpoint stage g = Some found ->
  validate_checkpoint_impl json_dump found = Ok tt /\ belongs (intent g) found = true
  /\ stage_is stage found = true.
Proof.
  intros G F. apply find_some in F as [I S]. apply in_rev in I.
  pose proof (ok_records _ _ G) as R. rewrite Forall_forall in R. destruct (R _ I). auto.
Qed.

Lemma acceptable_proof json_dump g operation :
  group_ok json_dump g -> command_of (intent g) = Some operation -> mutation_confirmed g = true ->
  exists found, last_checkpoint "mutation_confirmed" g = Some found
    /\ acceptable json_dump g operation (jget (jget found "data") "terminal").
Proof.
  intros G C M. destruct (ok_proof _ _ G M) as (d & c & F & I & S & P).
  exists d. split; [exact F|]. destruct (recorded_checkpoint _ _ _ _ G F) as (V & B & _).
  destruct (checkpoint_content _ _ _ V I) as (D & _). rewrite S in D.
  assert (c_operation c = operation) as O.
  { pose proof (belongs_command _ _ (intent_identity _ _ (ok_intent _ _ G)) B) as K.
    unfold checkpoint_input in I. rewrite K, C in I. destruct (stage_of d); [|discriminate].
    injection I as <-. reflexivity. }
  rewrite O in D. cbn [valid_checkpoint_data] in D. apply andb_prop in D as [_ D].
  apply proving_terminal in D as [VT CT]. set (t := jget (jget d "data") "terminal") in *.
  unfold proof_agrees in P. rewrite S, O, (input_data _ _ I) in P. fold t in P.
  rewrite eqb_refl in P. cbn [negb] in P. apply check_seq in P as [P1 P2].
  constructor; try assumption.
  - intros E K. destruct (CT E). congruence.
  - destruct (is_error t); [|reflexivity]. now destruct (CT eq_refl).
  - auto.
  - intros ->. rewrite eqb_refl in P2. cbn [negb] in P2. now apply check_seq in P2 as [P2 _].
  - intros _. exists d. auto.
  - congruence.
Qed.

(** Nothing to read: the result without a dispatch. *)
Definition mark_read_noop (plan : json) : bool :=
  is_null (jget plan "tdlib_request") && is_null (jget plan "last_message_id").

Definition noop_terminal (plan : json) : json :=
  jobject [("kind", JString "result");
           ("data", jobject [("chat_id", jget (jget plan "chat") "id");
                             ("last_read_message_id", JNull); ("marked_read", JBool true)])].

Lemma int53_integer v p : valid_int53 v p = true -> has_value (json_int64 v) = true.
Proof. unfold valid_int53, int64_between. destruct (json_int64 v); [reflexivity | discriminate]. Qed.

Lemma integer_refl v : has_value (json_int64 v) = true -> json_eqb v v = true.
Proof. intros H. apply json_eqb_refl. destruct v; try discriminate; reflexivity. Qed.

Lemma chat_id v : valid_chat_identity v = true -> nonzero_int53 (jget v "id") = true.
Proof.
  unfold valid_chat_identity, nonzero_int53. intros H. bool_split; now rewrite_bools.
Qed.

Lemma acceptable_noop json_dump g :
  group_ok json_dump g -> command_of (intent g) = Some ChatMarkRead -> dispatch_started g = false ->
  mark_read_noop (jget (intent g) "plan") = true ->
  acceptable json_dump g ChatMarkRead (noop_terminal (jget (intent g) "plan")).
Proof.
  intros G C D N. destruct (intent_strings _ _ (ok_intent _ _ G))
    as (_ & _ & _ & op & _ & _ & _ & _ & _ & CO & _ & _ & V).
  rewrite C in CO. injection CO as <-. unfold valid_intent_content in V.
  do 8 (apply andb_prop in V as [V _]). apply andb_prop in V as [_ V].
  unfold valid_plan, plan_body in V. apply andb_prop in V as [_ V].
  do 2 (apply andb_prop in V as [V _]). apply andb_prop in V as [_ V]. apply chat_id in V.
  unfold mark_read_noop in N. apply andb_prop in N as [_ N].
  destruct (ok_history _ _ G) as (op & inputs & h & CO & _ & _ & _ & L & _).
  destruct (legal_list _ _ L) as (_ & _ & PD & MD & _).
  rewrite <- (ok_dispatch _ _ G), D in *. rewrite <- (ok_mutation _ _ G) in MD.
  set (plan := jget (intent g) "plan") in *. set (t := noop_terminal plan).
  set (id := jget (jget plan "chat") "id") in *.
  assert (has_value (json_int64 id) = true) as J.
  { unfold nonzero_int53 in V. apply andb_prop in V as [V _]. exact (int53_integer _ _ V). }
  constructor.
  - unfold valid_terminal. change (exact_fields t ["kind"; "data"]) with true. cbn iota.
    change (eq_str (jget t "kind") "result") with true.
    change (valid_result_data ChatMarkRead (jget t "data")) with
      (nonzero_int53 id && true && true). rewrite V. cbn [andb]. rewrite andb_true_r.
    rewrite json_tree_spec. destruct (integer_tree 2 id ltac:(unfold kMaximumTreeDepth; lia) J) as [T K].
    change (tree_nodes t) with (S (S (tree_nodes id + (1 + (1 + 0))) + (1 + 0))). rewrite K.
    change (tree_spec 0 t) with ((tree_spec 2 id && true) && true). rewrite T. reflexivity.
  - change (terminal_matches_plan ChatMarkRead t (intent g)) with
      (json_eqb id id && json_eqb JNull (jget plan "last_message_id")).
    rewrite (integer_refl _ J). destruct (jget plan "last_message_id"); try discriminate. reflexivity.
  - discriminate.
  - reflexivity.
  - intros _. right. auto.
  - discriminate.
  - intros M. discriminate (MD M).
  - intros _ F. exfalso. rewrite (ok_complete _ _ G) in F.
    pose proof (ok_progress _ _ G) as P. destruct (final_forward_items g); [|discriminate].
    discriminate (PD P).
Qed.

(** * Recovery closes the group *)

(** The pins a recovery may go on with: those of the store, or none by policy for a
    group that does not depend on the store. *)
Definition usable (g : AccountAuditOpenGroup) (pins : AccountAuditPinSource) : bool :=
  match pins with
  | KnownAccountAuditPins _ => true
  | UnavailableAccountAuditPins _ => false
  | AbsentAccountAuditPinsByPolicy => negb (keyed g || has_spool g)
  end.

Lemma unusable_refused g account audit_path pins :
  usable g pins = false -> is_ok (classify_account_audit_recovery g account audit_path pins) = false.
Proof.
  unfold classify_account_audit_recovery. destruct (command_of (intent g)); [|reflexivity].
  destruct pins; [discriminate|reflexivity|]. cbn [usable of_option bind]. now intros ->.
Qed.

(** The byte ceilings of an outcome and of its terminal. *)
Definition within_ceilings (json_dump : json -> option string) (input : AccountAuditOutcomeInput) :
    bool :=
  serialized_size_at_most json_dump (o_terminal input) (terminal_byte_ceiling (o_operation input))
  && serialized_size_at_most json_dump (outcome_document input) kVectorJsonBytes.

Lemma made_within_ceilings json_dump g operation now mutation stages terminal d :
  group_ok json_dump g -> command_of (intent g) = Some operation ->
  let input := recovery_outcome_input g operation now mutation stages terminal in
  make_account_audit_outcome json_dump input = Ok d -> within_ceilings json_dump input = true.
Proof.
  intros G C input. unfold make_account_audit_outcome, validate_outcome_impl.
  destruct (intent_strings _ _ (ok_intent _ _ G)) as (i & a & c & op & _ & _ & _ & _ & CM & CO & CN & _).
  rewrite C in CO. injection CO as <-.
  assert (command_of (outcome_document input) = Some operation) as D.
  { rewrite <- C. unfold command_of. rewrite CM, CN. reflexivity. }
  rewrite D. intros H. inv_bind H. rename E into V. apply check_seq in V as [_ V].
  cbn [of_option bind] in V. cbn zeta in V. do 2 (apply check_seq in V as [_ V]). inv_bind V.
  do 2 (apply check_seq in V as [_ V]). apply check_ok in V. unfold outcome_consistent in V.
  apply andb_prop in V as [V V2]. apply andb_prop in V as [_ V1].
  unfold within_ceilings. now rewrite V2, andb_true_r.
Qed.

(** The terminal recovery chooses is one the open group accepts. *)
Lemma classified_acceptable json_dump g operation account audit_path pins :
  group_ok json_dump g -> command_of (intent g) = Some operation ->
  jget (intent g) "account" = JString account -> valid_selector_string (JString audit_path) = true ->
  mutation_confirmed g = true \/ forward_complete g = false -> usable g pins = true ->
  exists plan,
    classify_account_audit_recovery g account audit_path pins = Ok plan
    /\ r_mutation_state plan = derive_mutation_state g
    /\ acceptable json_dump g operation (r_terminal plan).
Proof.
  intros G C A P F U.
  assert (classify_account_audit_recovery g account audit_path pins
          = classify_account_audit_recovery g account audit_path (KnownAccountAuditPins [])) as ->.
  { unfold classify_account_audit_recovery. destruct pins; [reflexivity|discriminate|].
    cbn [usable] in U. now rewrite U. }
  unfold classify_account_audit_recovery. rewrite C. cbn [of_option bind].
  cbn zeta. destruct (derive_state_stages _ _ G) as (D1 & _).
  destruct (dispatch_started g) eqn:D; cbn [negb].
  - destruct (mutation_confirmed g) eqn:M; cbn [andb].
    + destruct (acceptable_proof _ _ _ G C M) as (found & L & K). rewrite L.
      destruct (forward_complete g); cbn [andb negb bind of_option];
        eexists; (split; [reflexivity|]); (split; [reflexivity | exact K]).
    + destruct F as [F|F]; [discriminate|]. rewrite F. cbn [negb].
      eexists. split; [reflexivity|]. split; [reflexivity|].
      exact (acceptable_incomplete _ _ _ _ _ G C A P M F).
  - eexists. split; [reflexivity|]. cbn [r_mutation_state r_terminal].
    split; [symmetry; auto|].
    destruct (eqb operation ChatMarkRead && is_null (jget (jget (intent g) "plan") "tdlib_request")
              && is_null (jget (jget (intent g) "plan") "last_message_id")) eqn:N.
    + apply andb_prop in N as [N N3]. apply andb_prop in N as [N1 N2]. apply eqb_eq in N1 as ->.
      apply acceptable_noop; auto. unfold mark_read_noop. now rewrite N2, N3.
    + rewrite <- (D1 eq_refl). apply acceptable_incomplete; auto.
      * destruct (mutation_confirmed g) eqn:M; [|reflexivity].
        destruct (ok_history _ _ G) as (op & inputs & h & _ & _ & _ & _ & L & _).
        destruct (legal_list _ _ L) as (_ & _ & _ & MD & _).
        rewrite <- (ok_dispatch _ _ G), <- (ok_mutation _ _ G), D, M in MD. now discriminate MD.
      * rewrite (ok_complete _ _ G). pose proof (ok_progress _ _ G) as PR.
        destruct (final_forward_items g); [|reflexivity].
        destruct (ok_history _ _ G) as (op & inputs & h & _ & _ & _ & _ & L & _).
        destruct (legal_list _ _ L) as (_ & _ & PD & _ & _).
        rewrite <- (ok_dispatch _ _ G), D in PD. now discriminate (PD PR).
Qed.

(** C21.  What recovery makes of a group a crash left open, whatever records the log
    had accepted, except a forward with a complete vector and no mutation proof yet.
    The group is classified exactly when the pins can be used: a plan if so, an
    error if not.  The outcome that the plan asks for passes every check of the
    record and is taken by the log as the record that closes the group, exactly
    when it and its terminal are within their byte ceilings; otherwise it is
    refused before it is written. *)
Theorem recovery_closes_group json_dump generation documents g views pins audit_path now :
  scan json_dump generation None documents = Ok (Some g, views) ->
  mutation_confirmed g = true \/ forward_complete g = false ->
  valid_selector_string (JString audit_path) = true -> valid_timestamp (JString now) = true ->
  let classified :=
    classify_account_audit_recovery g (get_string (jget (intent g) "account")) audit_path pins in
  is_ok classified = usable g pins
  /\ forall plan, classified = Ok plan ->
     exists operation, command_of (intent g) = Some operation
     /\ let input := recovery_outcome_input g operation now (r_mutation_state plan)
                       (completed_stages g) (r_terminal plan) in
        if within_ceilings json_dump input then
          make_account_audit_outcome json_dump input = Ok (outcome_document input)
          /\ exists view,
               consume_v2 json_dump generation (outcome_document input) (Some g) = Ok (None, Some view)
        else is_ok (make_account_audit_outcome json_dump input) = false.
Proof.
  intros S F P T classified. apply scan_ok in S; [|exact I].
  destruct (intent_strings _ _ (ok_intent _ _ S)) as (_ & a & _ & op & _ & _ & A & _ & _ & C & _).
  destruct (usable g pins) eqn:U.
  2: { pose proof (unusable_refused g (get_string (jget (intent g) "account")) audit_path pins U) as N.
       fold classified in N. split; [exact N|]. intros plan K. now rewrite K in N. }
  destruct (classified_acceptable _ _ _ _ _ pins S C A P F U) as (plan & K & M & Q).
  unfold classified. rewrite A. cbn [get_string]. rewrite K. split; [reflexivity|]. intros _ [= <-].
  exists op. split; [exact C|]. cbn zeta. rewrite M.
  destruct (within_ceilings json_dump _) eqn:W.
  - apply andb_prop in W as [TS DS]. cbn in TS. unfold make_account_audit_outcome.
    rewrite (outcome_validates _ _ _ _ _ S C T Q TS DS). split; [reflexivity|].
    exact (outcome_accepted _ _ _ _ _ S C T Q TS DS generation).
  - destruct (make_account_audit_outcome json_dump _) as [d|e] eqn:D; [|reflexivity].
    apply made_within_ceilings in D; [|exact S|exact C]. congruence.
Qed.

(** An archive interrupted after its dispatch: the outcome closes its group. *)
Lemma recovery_closes_group_witness :
  exists g plan view,
    classify_account_audit_recovery g (get_string (jget (intent g) "account")) "/audit"
      (KnownAccountAuditPins []) = Ok plan
    /\ consume_v2 sample_dump 1
         (outcome_document (recovery_outcome_input g ChatArchive "2026-01-02T03:04:05Z"
            (r_mutation_state plan) (completed_stages g) (r_terminal plan))) (Some g)
       = Ok (None, Some view).
Proof.
  assert (match scan sample_dump 1 None [archive_intent; archive_dispatch] with
          | Ok (Some g, _) =>
              negb (forward_complete g) && eqb (command_of (intent g)) (Some ChatArchive)
              && match classify_account_audit_recovery g (get_string (jget (intent g) "account")) "/audit"
                         (KnownAccountAuditPins []) with
                 | Ok plan =>
                     within_ceilings sample_dump
                       (recovery_outcome_input g ChatArchive "2026-01-02T03:04:05Z"
                          (r_mutation_state plan) (completed_stages g) (r_terminal plan))
                 | Err _ => false
                 end
          | _ => false
          end = true) as H by (vm_compute; reflexivity).
  destruct (scan sample_dump 1 None _) as [[[g|] views]|e] eqn:S; [|discriminate H ..].
  apply andb_prop in H as [H W]. apply andb_prop in H as [F C].
  apply negb_true_iff in F. apply eqb_eq in C.
  destruct (recovery_closes_group sample_dump 1 _ g views (KnownAccountAuditPins []) "/audit"
              "2026-01-02T03:04:05Z" S (or_intror F) eq_refl eq_refl) as [O K].
  destruct (classify_account_audit_recovery g _ "/audit" _) as [plan|e] eqn:P; [|discriminate O].
  destruct (K plan eq_refl) as (op & C' & R).
  rewrite C in C'. injection C' as <-. cbv zeta in R. rewrite W in R.
  destruct R as (_ & view & R). exists g, plan, view. auto.
Defined.
