(* ===== verification/Effects.v ===== *)
(** Programs with effects: a program calls effects and gets their answers, a
    statement of C++ completes with a value, by [return] or by an exception; and
    a logic of traces for them: the runs of a program as lists of calls with
    their answers, the inversion of runs that yield a value, and the calls a
    statement may make.  [E] is the type of the effects of a component, [R] what
    its function returns. *)
From S2P Require Import Prelude.

(** * Programs *)

Inductive answer (X : Type) : Type := Returned (x : X) | Threw.
Arguments Returned {X} x.
Arguments Threw {X}.

Inductive prog (E : Type -> Type) (A : Type) : Type :=
| Ret (a : A)
| Do {X : Type} (e : E X) (k : answer X -> prog E A).
Arguments Ret {E A} a.
Arguments Do {E A X} e k.

Fixpoint pbind {E A B} (m : prog E A) (k : A -> prog E B) : prog E B :=
  match m with
  | Ret a => k a
  | Do e c => Do e (fun x => pbind (c x) k)
  end.

(** A statement: a value, a [return], or an exception. *)
Inductive completion (R A : Type) : Type :=
| Value (a : A)
| Return (r : R)
| Raise.
Arguments Value {R A} a.
Arguments Return {R A} r.
Arguments Raise {R A}.

Definition stmt (E : Type -> Type) (R A : Type) : Type := prog E (completion R A).

Definition sbind {E R A B} (m : stmt E R A) (k : A -> stmt E R B) : stmt E R B :=
  pbind m (fun c => match c with
                    | Value a => k a
                    | Return r => Ret (Return r)
                    | Raise => Ret Raise
                    end).

Definition pure {E R A} (a : A) : stmt E R A := Ret (Value a).
Definition return_ {E R A} (r : R) : stmt E R A := Ret (Return r).
Definition act {E R X} (e : E X) : stmt E R X :=
  Do e (fun a => match a with Returned x => Ret (Value x) | Threw => Ret Raise end).

(** [try { m } catch (...) { handler }]. *)
Definition try_ {E R A} (m handler : stmt E R A) : stmt E R A :=
  pbind m (fun c => match c with Raise => handler | _ => Ret c end).

Declare Scope kernel_scope.
Delimit Scope kernel_scope with kernel.
Notation "x <- a ;; b" := (sbind a (fun x => b)) : kernel_scope.
Notation "a ;;; b" := (sbind a (fun _ => b)) : kernel_scope.

(** * Traces *)

Inductive event (E : Type -> Type) : Type :=
| Event {X : Type} (e : E X) (a : answer X).
Arguments Event {E X} e a.

(** [p] may perform the calls of [t], with their answers, and yield [r]. *)
Fixpoint runs {E A} (p : prog E A) (t : list (event E)) (r : A) : Prop :=
  match p with
  | Ret a => t = [] /\ r = a
  | Do e k => exists a t', t = Event e a :: t' /\ runs (k a) t' r
  end.

Section runs.
Context {E : Type -> Type} {R : Type}.

Lemma runs_pbind {A B} (m : prog E A) (k : A -> prog E B) t r :
  runs (pbind m k) t r ->
  exists t1 t2 a, t = t1 ++ t2 /\ runs m t1 a /\ runs (k a) t2 r.
Proof.
  revert t. induction m as [a | X e c IH]; cbn; intros t H.
  - exists [], t, a. auto.
  - destruct H as (a & t' & -> & H). destruct (IH a t' H) as (t1 & t2 & b & -> & H1 & H2).
    exists (Event e a :: t1), t2, b. split; [reflexivity |]. split; [| exact H2].
    exists a, t1. auto.
Qed.

Lemma runs_sbind {A B} (m : stmt E R A) (k : A -> stmt E R B) t c :
  runs (sbind m k) t c ->
  (exists t1 t2 a, t = t1 ++ t2 /\ runs m t1 (Value a) /\ runs (k a) t2 c)
  \/ (exists r, c = Return r /\ runs m t (Return r))
  \/ (c = Raise /\ runs m t Raise).
Proof.
  intros H. apply runs_pbind in H as (t1 & t2 & [a | r |] & -> & H1 & H2).
  - left. exists t1, t2, a. auto.
  - destruct H2 as [-> ->]. rewrite app_nil_r. right. left. exists r. auto.
  - destruct H2 as [-> ->]. rewrite app_nil_r. right. right. auto.
Qed.

Lemma runs_try {A} (m h : stmt E R A) t c :
  runs (try_ m h) t c ->
  (c <> Raise /\ runs m t c)
  \/ (exists t1 t2, t = t1 ++ t2 /\ runs m t1 Raise /\ runs h t2 c).
Proof.
  intros H. apply runs_pbind in H as (t1 & t2 & [a | r |] & -> & H1 & H2).
  - destruct H2 as [-> ->]. rewrite app_nil_r. left. split; [discriminate | exact H1].
  - destruct H2 as [-> ->]. rewrite app_nil_r. left. split; [discriminate | exact H1].
  - right. exists t1, t2. auto.
Qed.

Lemma runs_act {X} (e : E X) t c :
  runs (act e : stmt E R X) t c ->
  (exists x, t = [Event e (Returned x)] /\ c = Value x) \/ (t = [Event e Threw] /\ c = Raise).
Proof.
  intros (a & t' & -> & H). destruct a as [x |]; destruct H as [-> ->]; [left | right]; eauto.
Qed.

Lemma runs_pure {A} (a : A) t c : runs (pure a : stmt E R A) t c -> t = [] /\ c = Value a.
Proof. exact (fun H => H). Qed.

Lemma runs_return {A} r t (c : completion R A) : runs (return_ r : stmt E R A) t c -> t = [] /\ c = Return r.
Proof. exact (fun H => H). Qed.

(** What a statement that yields a value did. *)

Lemma runs_sbind_value {A B} (m : stmt E R A) (k : A -> stmt E R B) t b :
  runs (sbind m k) t (Value b) ->
  exists t1 t2 a, t = t1 ++ t2 /\ runs m t1 (Value a) /\ runs (k a) t2 (Value b).
Proof.
  intros H. apply runs_sbind in H as [H | [(r & Hc & _) | [Hc _]]]; [exact H | discriminate ..].
Qed.

Lemma runs_act_value {X} (e : E X) t x :
  runs (act e : stmt E R X) t (Value x) -> t = [Event e (Returned x)].
Proof.
  intros H. apply runs_act in H as [(y & -> & Hc) | [_ Hc]]; [| discriminate].
  injection Hc as ->. reflexivity.
Qed.

Lemma runs_pure_value {A} (a b : A) t : runs (pure a : stmt E R A) t (Value b) -> t = [] /\ b = a.
Proof. intros H. apply runs_pure in H as [-> Hc]. injection Hc as ->. auto. Qed.

Lemma runs_return_value {A} r t (b : A) : ~ runs (return_ r : stmt E R A) t (Value b).
Proof. intros H. apply runs_return in H as [_ Hc]. discriminate. Qed.

Lemma runs_try_value {A} (m h : stmt E R A) t a :
  runs (try_ m h) t (Value a) ->
  runs m t (Value a) \/ exists t1 t2, t = t1 ++ t2 /\ runs m t1 Raise /\ runs h t2 (Value a).
Proof. intros H. apply runs_try in H as [[_ H] | H]; auto. Qed.

End runs.

(** Every call of [m] satisfies [P]. *)
Definition emits {E R} (P : event E -> bool) {A} (m : stmt E R A) : Prop :=
  forall t c, runs m t c -> forallb P t = true.

Section emits.
Context {E : Type -> Type} {R : Type} (P : event E -> bool).

Lemma emits_pure {A} (a : A) : emits P (pure a : stmt E R A).
Proof. intros t c H. apply runs_pure in H as [-> _]. reflexivity. Qed.

Lemma emits_return {A} r : emits P (return_ r : stmt E R A).
Proof. intros t c H. apply runs_return in H as [-> _]. reflexivity. Qed.

Lemma emits_sbind {A B} (m : stmt E R A) (k : A -> stmt E R B) :
  emits P m -> (forall a, emits P (k a)) -> emits P (sbind m k).
Proof.
  intros Hm Hk t c H.
  apply runs_sbind in H as [(t1 & t2 & a & -> & H1 & H2) | [(r & -> & H) | [-> H]]];
    [rewrite forallb_app, (Hm _ _ H1), (Hk _ _ _ H2); reflexivity | exact (Hm _ _ H) ..].
Qed.

Lemma emits_try {A} (m h : stmt E R A) : emits P m -> emits P h -> emits P (try_ m h).
Proof.
  intros Hm Hh t c H. apply runs_try in H as [[_ H] | (t1 & t2 & -> & H1 & H2)];
    [exact (Hm _ _ H) | rewrite forallb_app, (Hm _ _ H1), (Hh _ _ H2); reflexivity].
Qed.

Lemma emits_act {X} (e : E X) : (forall a, P (Event e a) = true) -> emits P (act e : stmt E R X).
Proof.
  intros He t c H. apply runs_act in H as [(x & -> & _) | [-> _]]; cbn; rewrite He; reflexivity.
Qed.
End emits.


(** Every [return] of [m] satisfies [P]. *)
Definition returns_only {E R} (P : R -> Prop) {A} (m : stmt E R A) : Prop :=
  forall t r, runs m t (Return r) -> P r.

Section returns.
Context {E : Type -> Type} {R : Type} (P : R -> Prop).

Lemma returns_only_pure {A} (a : A) : returns_only P (pure a : stmt E R A).
Proof. intros t r H. apply runs_pure in H as [_ H]. discriminate. Qed.

Lemma returns_only_act {X} (e : E X) : returns_only P (act e : stmt E R X).
Proof. intros t r H. apply runs_act in H as [(x & _ & H) | [_ H]]; discriminate. Qed.

Lemma returns_only_return {A} r : P r -> returns_only P (return_ r : stmt E R A).
Proof. intros Hr t r' H. apply runs_return in H as [_ H]. injection H as ->. exact Hr. Qed.

Lemma returns_only_sbind {A B} (m : stmt E R A) (k : A -> stmt E R B) :
  returns_only P m -> (forall a, returns_only P (k a)) -> returns_only P (sbind m k).
Proof.
  intros Hm Hk t r H.
  apply runs_sbind in H as [(t1 & t2 & a & -> & H1 & H2) | [(r' & H & H1) | [H _]]].
  - exact (Hk _ _ _ H2).
  - injection H as ->. exact (Hm _ _ H1).
  - discriminate.
Qed.
End returns.

(** Where a call of a sequence was made. *)
Lemma in_sbind {E R A B} (m : stmt E R A) (k : A -> stmt E R B) t c ev :
  runs (sbind m k) t c -> In ev t ->
  (exists t1 c1, runs m t1 c1 /\ In ev t1)
  \/ exists t1 t2 a, t = t1 ++ t2 /\ runs m t1 (Value a) /\ runs (k a) t2 c /\ In ev t2.
Proof.
  intros H I. apply runs_sbind in H as [(t1 & t2 & a & -> & H1 & H2) | [(r & _ & H) | [_ H]]];
    [|left; eauto ..].
  apply in_app_or in I as [I | I]; [left; eauto | right; exists t1, t2, a; auto].
Qed.

Lemma in_emits {E R} (P : event E -> bool) {A} (m : stmt E R A) t c ev :
  emits P m -> runs m t c -> In ev t -> P ev = true.
Proof. intros H Hr I. exact (proj1 (forallb_forall P t) (H t c Hr) ev I). Qed.

(** Takes apart the runs that yield a value. *)
Ltac invert_value :=
  repeat match goal with
  | H : runs (sbind _ _) _ (Value _) |- _ =>
      let t1 := fresh "t" in let t2 := fresh "t" in let a := fresh "a" in
      let H1 := fresh "Hrun" in
      apply runs_sbind_value in H; destruct H as (t1 & t2 & a & -> & H1 & H)
  | H : runs (act _) _ (Value _) |- _ => apply runs_act_value in H as ->
  | H : runs (pure _) _ (Value _) |- _ => apply runs_pure_value in H; destruct H as [-> ?]; subst
  | H : runs (return_ _) _ (Value _) |- _ => apply runs_return_value in H as []
  end.

(** The calls and the [return]s of a statement, by its structure. *)
Ltac emit_step :=
  lazymatch goal with
  | |- emits _ (pure _) => apply emits_pure
  | |- emits _ (return_ _) => apply emits_return
  | |- emits _ (sbind _ _) => apply emits_sbind; [| intros ?]
  | |- emits _ (try_ _ _) => apply emits_try
  | |- emits _ (act _) => apply emits_act; reflexivity
  | |- emits _ (match ?x with _ => _ end) => destruct x
  | |- returns_only _ (pure _) => apply returns_only_pure
  | |- returns_only _ (return_ _) => apply returns_only_return
  | |- returns_only _ (sbind _ _) => apply returns_only_sbind; [| intros ?]
  | |- returns_only _ (act _) => apply returns_only_act
  | |- returns_only _ (match ?x with _ => _ end) => destruct x eqn:?
  end.
