(* ===== verification/SpoolInventory.v ===== *)
(** The attachment spool as the idempotency gate sees it
    (src/src/daemon/file_spool.hpp, file_spool.cpp): the errors of the spool, the
    inventory of its directories, and the comparison of an inventory with the
    files the audit log expects. *)
From S2P Require Import Prelude Json Operation DestructivePlan M6Domain AuditSchema.
From Stdlib Require Import Sorted.
Import Audit.

(** * Data *)

Inductive SourceFileReason : Set := Missing | Symlink | SourceWrongType | Empty | Unreadable.

Inductive FileSpoolErrorKind : Set :=
| InvalidInput | SourceUnavailable | InputChanged | DurabilityFailure | TimedOut | SpoolCancelled
| SpoolContradiction.

(** [bytes_hex] *)
Definition FilesystemDiagnosticPath : Set := string.

(** [DurabilityReason] has the members of [AccountAuditDurabilityReason]. *)
Record FileSpoolError := {
  fs_kind : FileSpoolErrorKind;
  fs_source_reason : option SourceFileReason;
  fs_durability_reason : option AccountAuditDurabilityReason;
  fs_cleanup_reference : option SpoolRef;
  fs_diagnostic_path : option FilesystemDiagnosticPath
}.

Definition durability_error (reason : AccountAuditDurabilityReason) : FileSpoolError :=
  {| fs_kind := DurabilityFailure; fs_source_reason := None; fs_durability_reason := Some reason;
     fs_cleanup_reference := None; fs_diagnostic_path := None |}.

Record ObservedFile := { of_name : string; of_path : FilesystemDiagnosticPath }.

Record SpoolInvocationObservation := {
  ob_invocation_id : string;
  ob_file_name : option string;
  ob_directory_path : FilesystemDiagnosticPath;
  ob_file_path : option FilesystemDiagnosticPath;
  ob_files : list ObservedFile
}.

Record SpoolInventory := {
  root_absent : bool;
  invocations : list SpoolInvocationObservation;
  inventory_contradiction : option FilesystemDiagnosticPath
}.

Record ExpectedSpoolObject := { ex_invocation_id : string; ex_file_name : string }.

Record SpoolReconciliation := {
  ready_invocations : list string;
  incomplete_invocations : list string;
  missing : list ExpectedSpoolObject;
  spool_contradiction_path : option FilesystemDiagnosticPath
}.

(** * The comparison *)

Definition select_contradiction_path (selected : option FilesystemDiagnosticPath)
    (candidate : FilesystemDiagnosticPath) : option FilesystemDiagnosticPath :=
  match selected with
  | Some s => if str_ltb candidate s then Some candidate else Some s
  | None => Some candidate
  end.

Fixpoint insert_expected (x : ExpectedSpoolObject) (l : list ExpectedSpoolObject) :
    list ExpectedSpoolObject :=
  match l with
  | [] => [x]
  | y :: l' =>
      if str_ltb (ex_invocation_id y) (ex_invocation_id x) then y :: insert_expected x l'
      else x :: l
  end.

Definition sort_expected (l : list ExpectedSpoolObject) : list ExpectedSpoolObject :=
  fold_right insert_expected [] l.

(** Each object is well formed and differs from the one before it. *)
Fixpoint well_formed_expected (previous : option string) (l : list ExpectedSpoolObject) : bool :=
  match l with
  | [] => true
  | x :: l' =>
      valid_invocation_id (ex_invocation_id x) && valid_basename (ex_file_name x)
      && match previous with
         | Some p => negb (String.eqb p (ex_invocation_id x))
         | None => true
         end
      && well_formed_expected (Some (ex_invocation_id x)) l'
  end.

(** [expected_by_id.find] and [erase]. *)
Definition find_expected (id : string) (l : list ExpectedSpoolObject) : option ExpectedSpoolObject :=
  find (fun x => String.eqb (ex_invocation_id x) id) l.

Definition erase_expected (id : string) (l : list ExpectedSpoolObject) : list ExpectedSpoolObject :=
  filter (fun x => negb (String.eqb (ex_invocation_id x) id)) l.

Fixpoint observe (observations : list SpoolInvocationObservation)
    (expected_by_id : list ExpectedSpoolObject) (r : SpoolReconciliation) : SpoolReconciliation :=
  match observations with
  | [] =>
      {| ready_invocations := ready_invocations r;
         incomplete_invocations := incomplete_invocations r;
         missing := missing r ++ expected_by_id;
         spool_contradiction_path := spool_contradiction_path r |}
  | o :: rest =>
      let contradicted path expected :=
        observe rest expected
          {| ready_invocations := ready_invocations r;
             incomplete_invocations := incomplete_invocations r; missing := missing r;
             spool_contradiction_path :=
               select_contradiction_path (spool_contradiction_path r) path |} in
      match find_expected (ob_invocation_id o) expected_by_id with
      | None => contradicted (ob_directory_path o) expected_by_id
      | Some found =>
          let remaining := erase_expected (ob_invocation_id o) expected_by_id in
          match ob_files o with
          | [] =>
              observe rest remaining
                {| ready_invocations := ready_invocations r;
                   incomplete_invocations := incomplete_invocations r ++ [ob_invocation_id o];
                   missing := missing r;
                   spool_contradiction_path := spool_contradiction_path r |}
          | files =>
              match find (fun f => negb (String.eqb (of_name f) (ex_file_name found))) files with
              | Some unequal => contradicted (of_path unequal) remaining
              | None =>
                  observe rest remaining
                    {| ready_invocations := ready_invocations r ++ [ob_invocation_id o];
                       incomplete_invocations := incomplete_invocations r; missing := missing r;
                       spool_contradiction_path := spool_contradiction_path r |}
              end
          end
      end
  end.

Definition reconcile_spool_inventory (inventory : SpoolInventory)
    (expected : list ExpectedSpoolObject) : result FileSpoolError SpoolReconciliation :=
  let expected := sort_expected expected in
  check (well_formed_expected None expected) (durability_error SchemaError) ;;;
  Ok (observe (invocations inventory) expected
        {| ready_invocations := []; incomplete_invocations := []; missing := [];
           spool_contradiction_path := inventory_contradiction inventory |}).

(** * What a reconciliation without contradiction says *)

Lemma select_some selected candidate : select_contradiction_path selected candidate <> None.
Proof. destruct selected as [s|]; cbn; [destruct (str_ltb candidate s)|]; discriminate. Qed.

Lemma find_expected_in id l x :
  find_expected id l = Some x -> In x l /\ ex_invocation_id x = id.
Proof. intros H. apply find_some in H as [I E]. apply String.eqb_eq in E. auto. Qed.

Lemma in_erase_expected x id l :
  In x (erase_expected id l) <-> In x l /\ ex_invocation_id x <> id.
Proof.
  unfold erase_expected. rewrite filter_In, negb_true_iff, String.eqb_neq. reflexivity.
Qed.

Lemma insert_expected_in x y l : In x (insert_expected y l) <-> x = y \/ In x l.
Proof.
  induction l as [|z l IH]; cbn; [intuition|].
  destruct (str_ltb (ex_invocation_id z) (ex_invocation_id y)); cbn; [rewrite IH|]; intuition.
Qed.

Lemma sort_expected_in x l : In x (sort_expected l) <-> In x l.
Proof.
  induction l as [|y l IH]; cbn; [reflexivity|]. rewrite insert_expected_in, IH. intuition.
Qed.

(** The contradictions of a loop only accumulate. *)
Lemma observe_contradiction observations expected r :
  spool_contradiction_path (observe observations expected r) = None ->
  spool_contradiction_path r = None.
Proof.
  revert expected r. induction observations as [|o rest IH]; intros expected r H; [exact H|].
  cbn [observe] in H. destruct (find_expected _ _) as [found|].
  - destruct (ob_files o) as [|f files]; [exact (IH _ _ H)|].
    destruct (find _ _); apply IH in H; [now apply select_some in H | exact H].
  - apply IH in H. now apply select_some in H.
Qed.

Lemma observe_spec observations expected r :
  spool_contradiction_path (observe observations expected r) = None ->
  let r' := observe observations expected r in
  (forall id, In id (ready_invocations r') <->
     In id (ready_invocations r)
     \/ exists o, In o observations /\ ob_invocation_id o = id /\ ob_files o <> [])
  /\ (forall o, In o observations -> exists x, In x expected
        /\ ex_invocation_id x = ob_invocation_id o
        /\ Forall (fun f => of_name f = ex_file_name x) (ob_files o))
  /\ (forall x, In x (missing r') <->
        In x (missing r)
        \/ In x expected
           /\ ~ exists o, In o observations /\ ob_invocation_id o = ex_invocation_id x).
Proof.
  revert expected r. induction observations as [|o rest IH]; intros expected r C; cbn [observe In].
  - cbn [ready_invocations missing]. split; [|split].
    + intros id. split; [auto | intros [H|(o & [] & _)]; exact H].
    + intros o [].
    + intros x. rewrite in_app_iff. split; intros [H|H]; auto; [right | right; apply H].
      split; [exact H | intros (o & [] & _)].
  - cbn [observe] in C. destruct (find_expected (ob_invocation_id o) expected) as [found|] eqn:F.
    2: { apply observe_contradiction in C. now apply select_some in C. }
    apply find_expected_in in F as [FI FE].
    assert (forall x, (In x (erase_expected (ob_invocation_id o) expected)
                       /\ ~ (exists p, In p rest /\ ob_invocation_id p = ex_invocation_id x))
                      <-> In x expected
                          /\ ~ (exists p, (o = p \/ In p rest)
                                          /\ ob_invocation_id p = ex_invocation_id x)) as MISS.
    { intros x. rewrite in_erase_expected. split.
      - intros [[I N] U]. split; [exact I|]. intros (p & [<-|J] & E); [congruence | eauto].
      - intros [I U]. split; [split; [exact I|] |]; [|intros (p & J & E); eauto].
        intros E. apply U. exists o. auto. }
    destruct (ob_files o) as [|f files] eqn:FS.
    + destruct (IH _ _ C) as (R & O & M). cbn in R, M. split; [|split].
      * intros id. rewrite R. split; intros [H|(p & I & E & N)]; eauto.
        { right. exists p. eauto. }
        { destruct I as [<-|I]; [congruence | right; eauto]. }
      * intros p [<-|I].
        { exists found. rewrite FS. auto. }
        { destruct (O p I) as (x & J & E). apply in_erase_expected in J as [J _]. eauto. }
      * intros x. rewrite M. split; (intros [H|H]; [auto | right; now apply MISS]).
    + destruct (find _ (f :: files)) as [u|] eqn:U.
      { apply observe_contradiction in C. now apply select_some in C. }
      destruct (IH _ _ C) as (R & O & M). cbn in R, M. split; [|split].
      * intros id. rewrite R, in_app_iff. split.
        { intros [[H|[<-|[]]]|(p & I & E & N)]; eauto.
          - right. exists o. rewrite FS. repeat split; [auto | discriminate].
          - right. exists p. eauto. }
        { intros [H|(p & [<-|I] & E & N)]; [auto | left; right; left; congruence | right; eauto]. }
      * intros p [<-|I].
        { exists found. rewrite FS. repeat split; [exact FI | exact FE |].
          apply Forall_forall. intros x J. apply (find_none _ _ U) in J.
          now apply negb_false_iff, String.eqb_eq in J. }
        { destruct (O p I) as (x & J & E). apply in_erase_expected in J as [J _]. eauto. }
      * intros x. rewrite M. split; (intros [H|H]; [auto | right; now apply MISS]).
Qed.
