(* ===== verification/Reconciliation.v ===== *)
(** The gate of the idempotency core
    (src/src/daemon/idempotency_reconciliation.cpp): the relation between the
    completed groups of the audit log, the store and the spool, the recovery of
    the group left open, and the two gates that bring them back into agreement
    before a request is admitted.

    The log, the store and the spool are effects of the gate.  The hooks that
    only announce a boundary to the tests are left out. *)
From S2P Require Import Prelude Json Operation DestructivePlan M6Domain AuditSchema AuditLog.
From S2P Require Import IdempotencyStore IdempotencyFile AuditRecovery SpoolInventory.
From S2P Require Import Effects.
From coqutil Require Import Datatypes.RecordSetters.
Import OCamlLikeNotations.
Import Audit.

#[local] Arguments constant {E} newValue _ /.

(** * Results *)

Record AccountAuditFailure := {
  af_reason : AccountAuditDurabilityReason;
  af_detail : string;
  af_interruption : option Interruption
}.

Definition no_audit_failure : AccountAuditFailure :=
  {| af_reason := PathInvalid; af_detail := EmptyString; af_interruption := None |}.

Definition audit_failure (reason : AccountAuditDurabilityReason) (detail : string) :
    AccountAuditFailure := {| af_reason := reason; af_detail := detail; af_interruption := None |}.

Definition no_store_failure : IdempotencyFailure :=
  make_failure EmptyString EmptyString PathInvalid EmptyString.

Inductive IdempotencyCoreGateStatus : Set :=
| GateClean | GateInterrupted | GateSpoolUnavailable | GateAuditUnavailable | GateAuditIncomplete
| GateStoreUnavailable.

Record IdempotencyCoreGateResult := {
  gate_status : IdempotencyCoreGateStatus;
  gate_snapshot : IdempotencySnapshot;
  gate_terminal : option json;
  gate_store_failure : IdempotencyFailure;
  gate_audit_failure : AccountAuditFailure;
  gate_spool_failure : option FileSpoolError
}.

(** A result with the defaults of its members. *)
Definition gate_result (status : IdempotencyCoreGateStatus) : IdempotencyCoreGateResult :=
  {| gate_status := status; gate_snapshot := no_snapshot; gate_terminal := None;
     gate_store_failure := no_store_failure; gate_audit_failure := no_audit_failure;
     gate_spool_failure := None |}.

Definition audit_result (status : IdempotencyCoreGateStatus) (failure : AccountAuditFailure) :
    IdempotencyCoreGateResult := { gate_result status with gate_audit_failure := failure }.

Definition spool_failure_result (failure : FileSpoolError) : IdempotencyCoreGateResult :=
  let interrupted i :=
    audit_result GateInterrupted
      {| af_reason := PathInvalid; af_detail := EmptyString; af_interruption := Some i |} in
  match fs_kind failure with
  | TimedOut => interrupted DeadlineInterruption
  | SpoolCancelled => interrupted CancelledInterruption
  | _ => { gate_result GateSpoolUnavailable with gate_spool_failure := Some failure }
  end.

Definition store_failure_result (failure : IdempotencyFailure) : IdempotencyCoreGateResult :=
  { gate_result (if has_value (f_interruption failure) then GateInterrupted
                 else GateStoreUnavailable) with gate_store_failure := failure }.

Inductive AccountAuditInspectionStatus : Set :=
| AuditClean | AuditLegacyOpen | AuditOpen | AuditContradiction | AuditUnavailable | AuditInterrupted.

Record AccountAuditInspection := {
  inspection_status : AccountAuditInspectionStatus;
  oldest_open : option AccountAuditOpenGroup;
  inspection_terminal : option json;
  inspection_failure : AccountAuditFailure
}.

Definition audit_failure_result (inspection : AccountAuditInspection) : IdempotencyCoreGateResult :=
  { gate_result match inspection_status inspection with
                | AuditInterrupted => GateInterrupted
                | AuditContradiction | AuditLegacyOpen => GateAuditIncomplete
                | AuditUnavailable => GateAuditUnavailable
                | AuditClean | AuditOpen => GateAuditIncomplete
                end
    with gate_audit_failure := inspection_failure inspection;
         gate_terminal := inspection_terminal inspection }.

(** * The relation between the log and the store *)

Definition PinIdentity : Set := Z * string * string * AccountAuditOperation.

Definition entry_identity (e : IdempotencyEntry) : PinIdentity :=
  (entry_audit_generation e, entry_invocation_id e, request_fingerprint e, operation e).

Definition view_identity (v : AccountAuditCompletedGroupView) : PinIdentity :=
  (v_audit_generation v, v_invocation_id v, v_request_fingerprint v, v_operation v).

Definition pin_identity_eqb (a b : PinIdentity) : bool :=
  let '(g, i, f, o) := a in
  let '(g', i', f', o') := b in
  (g =? g') && String.eqb i i' && String.eqb f f' && eqb o o'.

Record SpoolFact := {
  fact_generation : Z;
  fact_invocation_id : string;
  fact_spool : SpoolRef;
  fact_key_hash : option string;
  fact_retain : bool
}.

Record CompletedRelationState := {
  desired : list IdempotencyEntry;
  pin_keys : list (PinIdentity * string);
  seen : list PinIdentity;
  spools : list SpoolFact;
  relation_contradiction : string;
  sampled_now : Z;
  sampled_now_valid : bool;
  relation_account : string
}.

Definition select_contradiction (detail : string) (s : CompletedRelationState) :
    CompletedRelationState :=
  if str_empty (relation_contradiction s) then { s with relation_contradiction := detail } else s.

(** [std::map::emplace] and [std::map::find] of pins, [std::set::emplace]. *)
Definition find_pin (id : PinIdentity) (l : list (PinIdentity * string)) : option string :=
  option_map snd (find (fun p => pin_identity_eqb (fst p) id) l).

Definition emplace_pin (l : list (PinIdentity * string)) (e : IdempotencyEntry) :
    list (PinIdentity * string) :=
  match find_pin (entry_identity e) l with
  | Some _ => l
  | None => l ++ [(entry_identity e, key_hash e)]
  end.

Definition see (id : PinIdentity) (s : CompletedRelationState) : CompletedRelationState :=
  if existsb (pin_identity_eqb id) (seen s) then s else { s with seen := seen s ++ [id] }.

(** [*entry = e], where [entry] is the pointer [find_entry] gave for [key]. *)
Definition store_entry (key : string) (e : IdempotencyEntry) (s : CompletedRelationState) :
    CompletedRelationState :=
  match find_entry (desired s) key with
  | Some (position, _) => { s with desired := replace_at position e (desired s) }
  | None => s
  end.

Definition erase_entry (key : string) (s : CompletedRelationState) : CompletedRelationState :=
  match find_entry (desired s) key with
  | Some (position, _) => { s with desired := erase_at position (desired s) }
  | None => s
  end.

Definition found_entry (s : CompletedRelationState) (key : string) : option IdempotencyEntry :=
  option_map snd (find_entry (desired s) key).

Fixpoint json_prefix (prefix complete : list json) : bool :=
  match prefix, complete with
  | [], _ => true
  | p :: prefix', c :: complete' => json_eqb p c && json_prefix prefix' complete'
  | _ :: _, [] => false
  end.

Definition array_prefix (prefix complete : json) : bool :=
  is_array prefix && is_array complete && json_prefix (elements prefix) (elements complete).

Fixpoint items_can_advance (before after : list json) : bool :=
  match before, after with
  | b :: before', a :: after' =>
      negb (negb (is_object b) || negb (is_object a) || negb (same "source_id" b a)
            || (negb (status_is "pending" b) && not_equal b a)
            || (status_is "pending" b && status_is "pending" a && not_equal b a))
      && items_can_advance before' after'
  | _, _ => true
  end.

Definition forward_can_advance (before after : json) : bool :=
  is_array before && is_array after && Nat.eqb (jsize before) (jsize after)
  && items_can_advance (elements before) (elements after).

Definition pending_payload_matches (e : IdempotencyEntry) (payload : json) : bool :=
  is_object payload && Nat.eqb (jsize payload) 4 && contains payload "key_hash"
  && contains payload "request_fingerprint" && contains payload "expires_at"
  && contains payload "reserved_terminal_bytes"
  && eq_str (jget payload "key_hash") (key_hash e)
  && eq_str (jget payload "request_fingerprint") (request_fingerprint e)
  && eq_unsigned (jget payload "expires_at") (expires_at e)
  && eq_unsigned (jget payload "reserved_terminal_bytes") (reserved_terminal_bytes e).

Definition outcome_mutation (v : AccountAuditCompletedGroupView) : string :=
  match v_outcome v with Some o => get_string (jget o "mutation_state") | None => EmptyString end.

Definition completed_terminal_retains_pending (v : AccountAuditCompletedGroupView) : bool :=
  match v_outcome v with
  | None => true
  | Some outcome =>
      if eq_str (jget outcome "mutation_state") "possible" then true
      else eqb (v_operation v) MsgForward
           && existsb (fun item => is_object item && eq_str (jget item "status") "pending")
                (elements (v_forward_progress v))
  end.

Definition completed_spool_is_immediately_eligible (v : AccountAuditCompletedGroupView)
    (sampled_now : Z) (sampled_now_valid : bool) : bool :=
  match v_spool v, v_outcome v with
  | Some _, Some _ =>
      if negb (completed_terminal_retains_pending v) then true
      else if negb sampled_now_valid then false
      else
        let by_intent :=
          if (v_intent_unix_seconds v <? 0)
             || (kIdempotencyMaximumUnixSeconds - kIdempotencyRetentionSeconds
                 <? v_intent_unix_seconds v)
          then false
          else v_intent_unix_seconds v + kIdempotencyRetentionSeconds <=? sampled_now in
        match v_idempotency_key_hash v, v_idempotency_pending v with
        | Some _, Some pending =>
            if is_number_unsigned (jget pending "expires_at")
            then get_u64 (jget pending "expires_at") <=? sampled_now
            else by_intent
        | _, _ => by_intent
        end
  | _, _ => false
  end.

Definition apply_audit_progress (e : IdempotencyEntry) (temporary_ids progress : json)
    (s : CompletedRelationState) : bool * IdempotencyEntry * CompletedRelationState :=
  if eqb (state e) Completed then
    (jempty (temporary_message_ids e) && jempty (forward_progress e), e, s)
  else
    let changed := negb (json_eqb (temporary_message_ids e) temporary_ids) in
    if changed && negb (array_prefix (temporary_message_ids e) temporary_ids) then
      (false, e, select_contradiction "store temporary ids are ahead of or conflict with audit" s)
    else
      let e := if changed then with_progress e temporary_ids (forward_progress e) else e in
      if negb (json_eqb (forward_progress e) progress) then
        let advances :=
          jempty (forward_progress e) || forward_can_advance (forward_progress e) progress in
        if negb advances || jempty progress then
          (false, e,
           select_contradiction "store forward progress is ahead of or conflicts with audit" s)
        else (true, with_progress e (temporary_message_ids e) progress, s)
      else (true, e, s).

(** The view and the entry are of one invocation. *)
Definition same_invocation (v : AccountAuditCompletedGroupView) (e : IdempotencyEntry) : bool :=
  String.eqb (entry_invocation_id e) (v_invocation_id v)
  && (entry_audit_generation e =? v_audit_generation v)
  && String.eqb (request_fingerprint e) (v_request_fingerprint v)
  && eqb (operation e) (v_operation v).

Definition mutates (v : AccountAuditCompletedGroupView) : bool :=
  negb (String.eqb (outcome_mutation v) "none").

Definition completed_mark_read_noop (v : AccountAuditCompletedGroupView) (outcome : json) : bool :=
  eqb (v_operation v) ChatMarkRead && negb (mutates v)
  && is_null (jget (v_plan v) "tdlib_request") && is_null (jget (v_plan v) "last_message_id")
  && eq_str (jget (jget outcome "terminal") "kind") "result".

(** An unexpired mutation whose entry is not in the store. *)
Definition lost_entry (v : AccountAuditCompletedGroupView) (s : CompletedRelationState) : bool :=
  match v_idempotency_key_hash v, v_idempotency_pending v with
  | Some key, Some pending =>
      mutates v && sampled_now_valid s && (sampled_now s <? get_u64 (jget pending "expires_at"))
      && match found_entry s key with
         | Some e => negb (same_invocation v e)
         | None => true
         end
  | _, _ => false
  end.

(** The entry of a completed group takes the state its outcome says; [false]
    where the source returns. *)
Definition settle_entry (v : AccountAuditCompletedGroupView) (outcome : json) (key : string)
    (e : IdempotencyEntry) (s : CompletedRelationState) : bool * CompletedRelationState :=
  if negb (mutates v) && negb (completed_mark_read_noop v outcome) then (true, erase_entry key s)
  else if negb (completed_terminal_retains_pending v) then
    let t := jget outcome "terminal" in
    match state e with
    | Completed =>
        match terminal e with
        | Some t' =>
            if json_eqb t' t then (true, s)
            else (false, select_contradiction "completed store terminal disagrees with audit" s)
        | None => (false, select_contradiction "completed store terminal disagrees with audit" s)
        end
    | Pending => (true, store_entry key (with_terminal e t) s)
    end
  else if negb (eqb (state e) Pending) then
    (false, select_contradiction "dispatch-unknown audit group has a terminal store entry" s)
  else (true, s).

Definition reconcile_entry (v : AccountAuditCompletedGroupView) (outcome : json) (key : string)
    (s : CompletedRelationState) : bool * CompletedRelationState :=
  let contradicts detail := (false, select_contradiction detail s) in
  if negb match v_idempotency_key_hash v with Some k => String.eqb k key | None => false end then
    contradicts "store pin resolves to another audit key"
  else
    match found_entry s key with
    | None => contradicts "store entry immutable fields disagree with audit"
    | Some e =>
        if negb (same_invocation v e && json_eqb (plan e) (v_plan v)) then
          contradicts "store entry immutable fields disagree with audit"
        else if match v_idempotency_pending v with
                | Some pending => eqb (state e) Pending && negb (pending_payload_matches e pending)
                | None => false
                end then contradicts "store entry disagrees with idempotency checkpoint"
        else if match spool e, v_spool v with
                | Some s, Some s' => negb (eqb s s')
                | Some _, None => true
                | None, _ => false
                end then contradicts "store spool reference disagrees with audit"
        else
          let e :=
            if eqb (state e) Pending && negb (has_value (spool e)) && has_value (v_spool v)
            then with_spool e (v_spool v) else e in
          let '(ok, e, s) :=
            apply_audit_progress e (v_temporary_message_ids v) (v_forward_progress v) s in
          let s := store_entry key e s in
          if negb ok then (false, s) else settle_entry v outcome key e s
    end.

(** The spool file of a completed group, and whether it must stay. *)
Definition note_spool (v : AccountAuditCompletedGroupView) (s : CompletedRelationState) :
    CompletedRelationState :=
  match v_spool v with
  | None => s
  | Some spool =>
      let pending_entry :=
        match v_idempotency_key_hash v with
        | Some key =>
            match found_entry s key with
            | Some e =>
                String.eqb (entry_invocation_id e) (v_invocation_id v) && eqb (state e) Pending
            | None => false
            end
        | None => false
        end in
      let retain :=
        pending_entry
        || (completed_terminal_retains_pending v
            && negb (completed_spool_is_immediately_eligible v (sampled_now s)
                       (sampled_now_valid s))) in
      { s with spools := spools s ++ [{| fact_generation := v_audit_generation v;
                                         fact_invocation_id := v_invocation_id v;
                                         fact_spool := spool;
                                         fact_key_hash := v_idempotency_key_hash v;
                                         fact_retain := retain |}] }
  end.

Definition consume_completed_view (v : AccountAuditCompletedGroupView) (s : CompletedRelationState) :
    CompletedRelationState :=
  if negb (str_empty (relation_contradiction s)) then s
  else
    match v_outcome v with
    | None => select_contradiction "completed audit view has no outcome" s
    | Some outcome =>
        if has_value (v_idempotency_key_hash v) && negb (has_value (v_idempotency_pending v))
           && mutates v then
          select_contradiction "completed keyed mutation has no idempotency checkpoint" s
        else if lost_entry v s then
          select_contradiction "unexpired completed audit group lost its store entry" s
        else
          match find_pin (view_identity v) (pin_keys s) with
          | None => note_spool v s
          | Some key =>
              let '(continue, s) := reconcile_entry v outcome key (see (view_identity v) s) in
              if continue then note_spool v s else s
          end
    end.

Definition consume_absent_by_policy_completed_view (v : AccountAuditCompletedGroupView)
    (s : CompletedRelationState) : CompletedRelationState :=
  match v_idempotency_key_hash v with
  | None => consume_completed_view v s
  | Some key =>
      match v_spool v with
      | Some spool =>
          if negb (str_empty (relation_contradiction s)) then s
          else { s with spools := spools s ++ [{| fact_generation := v_audit_generation v;
                                                  fact_invocation_id := v_invocation_id v;
                                                  fact_spool := spool;
                                                  fact_key_hash := Some key;
                                                  fact_retain := true |}] }
      | None => s
      end
  end.

(** * The relation between the open group and the store *)

Definition open_group_spool (g : AccountAuditOpenGroup) : option SpoolRef :=
  match last_data "spool_ready" g with
  | None => None
  | Some data =>
      if negb (is_object data) || negb (contains data "relative_path")
         || negb (contains data "file") then None
      else
        let spool := spool_of data in
        if valid_spool_reference spool (get_string (jget (intent g) "invocation_id"))
        then Some spool else None
  end.

Definition latest_checkpoint_data (g : AccountAuditOpenGroup) (stage : string) : option json :=
  last_data stage g.

Definition member_or_empty (data : option json) (name : string) : json :=
  match data with Some data => jget data name | None => JArray [] end.

Definition reconcile_open_relation (g : AccountAuditOpenGroup) (s : CompletedRelationState) :
    bool * CompletedRelationState :=
  let contradicts detail s := (false, select_contradiction detail s) in
  match command_of (intent g) with
  | None => contradicts "open audit group lost its operation" s
  | Some op =>
      let hash := jget (intent g) "idempotency_key_hash" in
      if is_null hash then (true, s)
      else
        let key := get_string hash in
        if negb (has_value (parse_idempotency_key_hash key)) then
          contradicts "open audit group has invalid key hash" s
        else
          let pending := latest_checkpoint_data g "idempotency_pending" in
          match found_entry s key with
          | None =>
              if has_value pending then
                contradicts "idempotency checkpoint has no matching store entry" s
              else (true, s)
          | Some e =>
              if negb (String.eqb (entry_invocation_id e)
                         (get_string (jget (intent g) "invocation_id"))) then
                if has_value pending then
                  contradicts "open audit group checkpoint points at an incumbent" s
                else (true, s)
              else
                let s := see (audit_generation g, entry_invocation_id e, request_fingerprint e,
                              operation e) s in
                if negb (eqb (state e) Pending && (entry_audit_generation e =? audit_generation g)
                         && eqb (operation e) op
                         && String.eqb (request_fingerprint e)
                              (get_string (jget (intent g) "request_fingerprint"))
                         && json_eqb (plan e) (jget (intent g) "plan")
                         && match pending with
                            | Some payload => pending_payload_matches e payload
                            | None => true
                            end) then
                  contradicts "open audit group disagrees with its store entry" s
                else
                  let progress e :=
                    let '(ok, e, s) :=
                      apply_audit_progress e
                        (member_or_empty (latest_checkpoint_data g "temporary_ids_observed")
                           "temporary_message_ids")
                        (member_or_empty (latest_checkpoint_data g "forward_progress") "items") s in
                    (ok, store_entry key e s) in
                  match open_group_spool g, spool e with
                  | Some spool, Some spool' =>
                      if negb (eqb spool' spool) then
                        contradicts "open audit spool disagrees with store" s
                      else progress e
                  | Some spool, None => progress (with_spool e (Some spool))
                  | None, Some _ => contradicts "store spool is ahead of open audit group" s
                  | None, None => progress e
                  end
          end
  end.

(** * The spool *)

Definition emplace_expected (id name : string) (l : list ExpectedSpoolObject) :
    list ExpectedSpoolObject :=
  match find_expected id l with
  | Some _ => l
  | None => insert_expected {| ex_invocation_id := id; ex_file_name := name |} l
  end.

Definition expected_spools (s : CompletedRelationState) (open : option AccountAuditOpenGroup) :
    list ExpectedSpoolObject :=
  let by_invocation :=
    fold_left (fun l fact => emplace_expected (fact_invocation_id fact)
                               (name (file (fact_spool fact))) l) (spools s) [] in
  match open with
  | Some g =>
      match open_group_spool g with
      | Some spool =>
          emplace_expected (get_string (jget (intent g) "invocation_id")) (name (file spool))
            by_invocation
      | None => by_invocation
      end
  | None => by_invocation
  end.

Definition relation_failure (account store_path detail : string) : IdempotencyCoreGateResult :=
  store_failure_result (make_failure account store_path Contradiction detail).

Definition spool_contradiction_failure : AccountAuditFailure :=
  audit_failure Contradiction "spool inventory contradicts durable audit/store facts".

(** The document [incomplete_terminal] of the log, built here once more. *)
Definition audit_incomplete_terminal (account audit_path : string)
    (mutation : AccountAuditMutationState) (stages : list AccountAuditStage) : json :=
  incomplete_terminal account audit_path mutation stages.

Definition spool_contradiction (account audit_path : string) : IdempotencyCoreGateResult :=
  { audit_result GateAuditIncomplete spool_contradiction_failure with
    gate_terminal := Some (audit_incomplete_terminal account audit_path MutationNone []) }.

Definition spool_contradiction_at (account : string) (path : FilesystemDiagnosticPath) :
    IdempotencyCoreGateResult :=
  { audit_result GateAuditIncomplete spool_contradiction_failure with
    gate_terminal :=
      Some (jobject
        [("kind", JString "error"); ("code", JString "AUDIT_INCOMPLETE");
         ("message", JString "attachment spool recovery is incomplete");
         ("details",
          jobject [("account", JString account);
                   ("path", jobject [("kind", JString "bytes_hex"); ("value", JString path)]);
                   ("mutation_state", JString "none"); ("completed_stages", JArray [])]);
         ("exit_code", JInteger 1)]) }.

Definition validate_spool_relation (inventory : SpoolInventory) (s : CompletedRelationState)
    (open : option AccountAuditOpenGroup) (account audit_path : string) :
    option IdempotencyCoreGateResult :=
  match reconcile_spool_inventory inventory (expected_spools s open) with
  | Err error => Some (spool_failure_result error)
  | Ok reconciliation =>
      match spool_contradiction_path reconciliation with
      | Some path => Some (spool_contradiction_at account path)
      | None =>
          let ready id := existsb (String.eqb id) (ready_invocations reconciliation) in
          let is_missing id :=
            existsb (fun x => String.eqb (ex_invocation_id x) id) (missing reconciliation) in
          if existsb (fun fact => fact_retain fact
                                  && (negb (ready (fact_invocation_id fact))
                                      || is_missing (fact_invocation_id fact))) (spools s)
          then Some (spool_contradiction account audit_path)
          else
            match open with
            | Some g =>
                if has_spool g && dispatch_started g
                   && negb (ready (get_string (jget (intent g) "invocation_id")))
                then Some (spool_contradiction account audit_path) else None
            | None => None
            end
      end
  end.

#[export] Instance AccountAuditRecoveryBoundary_eq_dec : EqDec AccountAuditRecoveryBoundary.
Proof. intros x y; decide equality. Defined.

(** * Effects *)

Record SpoolHold := {
  h_valid : bool;
  h_generation : Z;
  h_invocation_id : string;
  h_spool : SpoolRef
}.

Inductive gate_effect : Type -> Type :=
| EnumerateSpool : gate_effect (result FileSpoolError SpoolInventory)
| StoreInspect : gate_effect IdempotencyStoreInspection
| PrepareRecovery (pins : AccountAuditPinSource) :
    gate_effect (AccountAuditInspection * list AccountAuditCompletedGroupView)
| CleanupStaleTemp : gate_effect IdempotencyWriteResult
| ApplyReconciled (expected : IdempotencySnapshot) (desired : list IdempotencyEntry) :
    gate_effect IdempotencyWriteResult
| IssueHolds : gate_effect (list SpoolHold)
| RecoveryTimestamp : gate_effect string
| RecoverCheckpoint (checkpoint : json) : gate_effect (option AccountAuditFailure)
| RecoverOutcome (outcome : json) : gate_effect (option AccountAuditFailure)
| RecoverComplete (key invocation : string) (terminal : json) : gate_effect IdempotencyWriteResult
| RecoverRemove (key invocation : string) : gate_effect IdempotencyWriteResult
| RecoverClearSpool (key invocation : string) : gate_effect IdempotencyWriteResult
| CleanupHeld (hold : SpoolHold) : gate_effect (option FileSpoolError)
| ReleaseHold (hold : SpoolHold) : gate_effect (option AccountAuditFailure)
| SweepExpired (now : Z) : gate_effect IdempotencySweepResult
| InspectAudit : gate_effect AccountAuditInspection.

Abbreviation gate := (Effects.stmt gate_effect IdempotencyCoreGateResult).
Abbreviation act := (@Effects.act gate_effect IdempotencyCoreGateResult _).
Local Open Scope kernel_scope.

(** The failure of a store operation. *)
Definition store_error (failure : option IdempotencyFailure) : IdempotencyFailure :=
  match failure with Some e => e | None => no_store_failure end.

(** [if (auto failure = ...) return failure]. *)
Definition unless {A} (failure : option A) (result : A -> IdempotencyCoreGateResult) : gate unit :=
  match failure with Some e => return_ (result e) | None => pure tt end.

Definition store_write (r : IdempotencyWriteResult) : gate unit :=
  match w_status r with
  | WriteFailure => return_ (store_failure_result (store_error (w_failure r)))
  | _ => pure tt
  end.

Definition store_inspect : gate IdempotencySnapshot :=
  i <- act StoreInspect ;;
  match i_status i with
  | Clean => pure (i_snapshot i)
  | _ => return_ (store_failure_result (store_error (i_failure i)))
  end.

Definition holds_fact (fact : SpoolFact) (h : SpoolHold) : bool :=
  h_valid h && (h_generation h =? fact_generation fact)
  && String.eqb (h_invocation_id h) (fact_invocation_id fact) && eqb (h_spool h) (fact_spool fact).

(** [find_hold], and the holds after the found one was moved from. *)
Fixpoint find_hold (fact : SpoolFact) (holds : list SpoolHold) : option (SpoolHold * list SpoolHold) :=
  match holds with
  | [] => None
  | h :: rest =>
      if holds_fact fact h then Some (h, { h with h_valid := false } :: rest)
      else option_map (fun r => (fst r, h :: snd r)) (find_hold fact rest)
  end.

Section gate.
Variable json_dump : json -> option string.
Variables account audit_path store_path : string.

Definition relation_fails {A} (detail : string) : gate A :=
  return_ (relation_failure account store_path detail).

(** The reference of a completed entry to a spool file that is gone. *)
Definition clear_completed_spool (key_hash invocation detail : string) : gate unit :=
  match parse_idempotency_key_hash key_hash with
  | None => relation_fails detail
  | Some key =>
      current <- store_inspect ;;
      match find_entry (entries current) key_hash with
      | Some (_, e) =>
          if String.eqb (entry_invocation_id e) invocation && eqb (state e) Completed
             && has_value (spool e)
          then cleared <- act (RecoverClearSpool key invocation) ;; store_write cleared
          else pure tt
      | None => pure tt
      end
  end.

Definition release_hold (hold : SpoolHold) : gate unit :=
  released <- act (ReleaseHold hold) ;;
  unless released (audit_result GateAuditUnavailable).

Definition cleanup_fact (fact : SpoolFact) (holds : list SpoolHold) : gate (list SpoolHold) :=
  match find_hold fact holds with
  | None => relation_fails "audit spool hold is missing"
  | Some (hold, holds) =>
      cleanup <- act (CleanupHeld hold) ;;
      unless cleanup spool_failure_result ;;;
      match fact_key_hash fact with
      | Some key =>
          clear_completed_spool key (fact_invocation_id fact) "spool cleanup lost its key hash"
      | None => pure tt
      end ;;;
      release_hold hold ;;;
      pure holds
  end.

(** The tail of both appends: a record that cannot be made, or that the log
    refuses. *)
Definition append_failed {A} (failure : AccountAuditFailure) (error : string) : gate A :=
  return_ (audit_result GateAuditIncomplete
             (if str_empty (af_detail failure) then audit_failure SchemaError error else failure)).

Definition append_recovery_checkpoint (g : AccountAuditOpenGroup) (op : AccountAuditOperation)
    (sequence : Z) (terminal : json) : gate unit :=
  now <- act RecoveryTimestamp ;;
  match make_account_audit_checkpoint json_dump
          (recovery_checkpoint_input g op now sequence terminal) with
  | Err error => append_failed no_audit_failure error
  | Ok checkpoint =>
      appended <- act (RecoverCheckpoint checkpoint) ;;
      match appended with Some failure => append_failed failure EmptyString | None => pure tt end
  end.

Definition append_recovery_outcome (g : AccountAuditOpenGroup) (op : AccountAuditOperation)
    (mutation : AccountAuditMutationState) (stages : list AccountAuditStage) (terminal : json) :
    gate unit :=
  now <- act RecoveryTimestamp ;;
  match make_account_audit_outcome json_dump
          (recovery_outcome_input g op now mutation stages terminal) with
  | Err error => append_failed no_audit_failure error
  | Ok outcome =>
      appended <- act (RecoverOutcome outcome) ;;
      match appended with Some failure => append_failed failure EmptyString | None => pure tt end
  end.

Definition has_boundary (p : AccountAuditRecoveryPlan) (b : AccountAuditRecoveryBoundary) : bool :=
  existsb (eqb b) (r_boundaries p).

(** [spool_fact] of the open group. *)
Definition open_spool_fact (g : AccountAuditOpenGroup) : option SpoolFact :=
  option_map
    (fun spool =>
       {| fact_generation := audit_generation g;
          fact_invocation_id := get_string (jget (intent g) "invocation_id");
          fact_spool := spool;
          fact_key_hash :=
            if is_null (jget (intent g) "idempotency_key_hash") then None
            else Some (get_string (jget (intent g) "idempotency_key_hash"));
          fact_retain := false |})
    (open_group_spool g).

(** [cleanup_open_spool]: the holds and the receipt after it. *)
Definition cleanup_open_spool (with_store : bool) (g : AccountAuditOpenGroup)
    (holds : list SpoolHold) (receipt : option SpoolHold) :
    gate (list SpoolHold * option SpoolHold) :=
  match open_spool_fact g with
  | None => pure (holds, receipt)
  | Some fact =>
      match find_hold fact holds with
      | None =>
          if with_store then relation_fails "open audit spool hold is missing"
          else return_ (audit_result GateAuditIncomplete
                          (audit_failure Contradiction "open audit spool hold is missing"))
      | Some (hold, holds) =>
          cleanup <- act (CleanupHeld hold) ;;
          unless cleanup spool_failure_result ;;;
          pure (holds, Some hold)
      end
  end.

(** The transition of the store entry of a recovered group. *)
Definition recover_store (g : AccountAuditOpenGroup) (p : AccountAuditRecoveryPlan) : gate unit :=
  match parse_idempotency_key_hash (get_string (jget (intent g) "idempotency_key_hash")) with
  | None => relation_fails "open recovery lost its key hash"
  | Some key =>
      let invocation := get_string (jget (intent g) "invocation_id") in
      let none := eqb (r_mutation_state p) MutationNone in
      if r_complete_store p || (negb none && negb (r_retain_store p)) then
        transition <- act (RecoverComplete key invocation (r_terminal p)) ;; store_write transition
      else if none then
        transition <- act (RecoverRemove key invocation) ;; store_write transition
      else store_inspect ;;; pure tt
  end.

Definition recover_open_group (with_store : bool) (g : AccountAuditOpenGroup)
    (pins : AccountAuditPinSource) (holds : list SpoolHold) : gate (list SpoolHold) :=
  let group_account := get_string (jget (intent g) "account") in
  match classify_account_audit_recovery g group_account audit_path pins with
  | Err error =>
      return_ { audit_result GateAuditIncomplete (audit_failure Contradiction error) with
                gate_terminal := Some (audit_incomplete_terminal group_account audit_path
                                         MutationNone (completed_stages g)) }
  | Ok p =>
      match command_of (intent g) with
      | None =>
          return_ (audit_result GateAuditIncomplete
                     (audit_failure Contradiction "open group lost its operation"))
      | Some op =>
          let keyed := negb (is_null (jget (intent g) "idempotency_key_hash")) in
          first <-
            (match r_boundaries p with
             | DeleteSpoolAndSyncRoot :: _ => cleanup_open_spool with_store g holds None
             | _ => pure (holds, None)
             end) ;;
          let '(holds, receipt) := first in
          stages <-
            (if has_boundary p AppendMutationProofAndSync then
               let sequence := recovery_sequence g in
               if sequence =? 0 then
                 return_ (audit_result GateAuditIncomplete
                            (audit_failure SchemaError "recovery checkpoint sequence overflowed"))
               else
                 append_recovery_checkpoint g op sequence (r_terminal p) ;;;
                 pure (completed_stages g ++ [MutationConfirmed])
             else pure (completed_stages g)) ;;
          (if has_boundary p AppendOutcomeAndSync then
             append_recovery_outcome g op (r_mutation_state p) stages (r_terminal p)
           else pure tt) ;;;
          (if with_store && keyed && has_boundary p TransitionStoreAndSync then recover_store g p
           else pure tt) ;;;
          last <-
            (if has_boundary p CleanupSpoolAndSyncRoot then
               cleaned <- cleanup_open_spool with_store g holds receipt ;;
               match open_spool_fact g with
               | Some fact =>
                   match with_store, fact_key_hash fact with
                   | true, Some key =>
                       clear_completed_spool key (fact_invocation_id fact)
                         "open cleanup lost its key hash"
                   | _, _ => pure tt
                   end
               | None => pure tt
               end ;;;
               pure cleaned
             else pure (holds, receipt)) ;;
          let '(holds, receipt) := last in
          match receipt with Some hold => release_hold hold | None => pure tt end ;;;
          if r_continue_current_request p then pure holds
          else return_ { gate_result GateAuditIncomplete with gate_terminal := Some (r_terminal p) }
      end
  end.

(** * The gates *)

Definition new_relations (snapshot : list IdempotencyEntry) (now : Z) : CompletedRelationState :=
  {| desired := snapshot; pin_keys := fold_left emplace_pin snapshot []; seen := []; spools := [];
     relation_contradiction := EmptyString; sampled_now := now;
     sampled_now_valid := now <=? kIdempotencyMaximumUnixSeconds; relation_account := account |}.

Definition enumerate : gate SpoolInventory :=
  inventory <- act EnumerateSpool ;;
  match inventory with
  | Err failure => return_ (spool_failure_result failure)
  | Ok inventory =>
      match inventory_contradiction inventory with
      | Some path => return_ (spool_contradiction_at account path)
      | None => pure inventory
      end
  end.

Definition scan_log (pins : AccountAuditPinSource) :
    gate (option AccountAuditOpenGroup * list AccountAuditCompletedGroupView) :=
  scanned <- act (PrepareRecovery pins) ;;
  match inspection_status (fst scanned) with
  | AuditClean | AuditOpen => pure (oldest_open (fst scanned), snd scanned)
  | _ => return_ (audit_failure_result (fst scanned))
  end.

(** [for (const auto& fact : relations.spools)]: the files that need not stay. *)
Fixpoint cleanup_facts (facts : list SpoolFact) (holds : list SpoolHold) : gate (list SpoolHold) :=
  match facts with
  | [] => pure holds
  | fact :: rest =>
      if fact_retain fact then cleanup_facts rest holds
      else holds <- cleanup_fact fact holds ;; cleanup_facts rest holds
  end.

(** The files of the entries a sweep removed. *)
Fixpoint cleanup_removed (facts : list SpoolFact) (removed : list IdempotencyEntry)
    (holds : list SpoolHold) : gate unit :=
  match removed with
  | [] => pure tt
  | e :: rest =>
      match spool e with
      | None => cleanup_removed facts rest holds
      | Some spool =>
          match find (fun fact => String.eqb (fact_invocation_id fact) (entry_invocation_id e)
                                  && (fact_generation fact =? entry_audit_generation e)
                                  && eqb (fact_spool fact) spool) facts with
          | None => relation_fails "expired spool lost its audit-derived hold"
          | Some fact =>
              holds <- cleanup_fact fact holds ;; cleanup_removed facts rest holds
          end
      end
  end.

Definition sweep (now : Z) : gate (list IdempotencyEntry) :=
  swept <- act (SweepExpired now) ;;
  store_write (sw_result swept) ;;;
  pure (sw_removed swept).

(** The part of [run_core_gate] that only reads: the inventory, the snapshot,
    the relations and the open group, all in agreement. *)
Definition examine (now : Z) :
    gate (IdempotencySnapshot * CompletedRelationState * option AccountAuditOpenGroup) :=
  inventory <- enumerate ;;
  snapshot <- store_inspect ;;
  scanned <- scan_log (pins snapshot) ;;
  let '(open, views) := scanned in
  let relations :=
    fold_left (fun s v => consume_completed_view v s) views
      (new_relations (entries snapshot) now) in
  if negb (str_empty (relation_contradiction relations)) then
    relation_fails (relation_contradiction relations)
  else
    let '(related, relations) :=
      match open with
      | Some g => reconcile_open_relation g relations
      | None => (true, relations)
      end in
    if negb related then relation_fails (relation_contradiction relations)
    else
      match validate_spool_relation inventory relations open account audit_path with
      | Some failure => return_ failure
      | None => pure (snapshot, relations, open)
      end.

Definition run_core_gate_body (now : Z) : gate IdempotencyCoreGateResult :=
  examined <- examine now ;;
  let '(snapshot, relations, open) := examined in
  temp_cleanup <- act CleanupStaleTemp ;;
  store_write temp_cleanup ;;;
  repaired <- act (ApplyReconciled snapshot (desired relations)) ;;
  store_write repaired ;;;
  holds <- act IssueHolds ;;
  holds <-
    (match open with
     | Some g =>
         current <- store_inspect ;;
         recover_open_group true g (pins current) holds
     | None => pure holds
     end) ;;
  holds <- cleanup_facts (spools relations) holds ;;
  if negb (sampled_now_valid relations) then
    return_ (store_failure_result
               (make_failure account store_path SchemaError
                  "wall-clock sample is unrepresentable"))
  else
    removed <- sweep now ;;
    cleanup_removed (spools relations) removed holds ;;;
    final <- store_inspect ;;
    pure { gate_result GateClean with gate_snapshot := final }.

(** A gate returns its result or lets an exception pass ([None]). *)
Definition finish (body : gate IdempotencyCoreGateResult) :
    prog gate_effect (option IdempotencyCoreGateResult) :=
  pbind body (fun c => match c with
                       | Value r | Return r => Ret (Some r)
                       | Raise => Ret None
                       end).

Definition run_core_gate (now : Z) : prog gate_effect (option IdempotencyCoreGateResult) :=
  finish (run_core_gate_body now).

(** The facts of the gate without a store: their holds are released directly. *)
Fixpoint cleanup_audit_facts (facts : list SpoolFact) (holds : list SpoolHold) : gate unit :=
  match facts with
  | [] => pure tt
  | fact :: rest =>
      if fact_retain fact then cleanup_audit_facts rest holds
      else
        match find_hold fact holds with
        | None =>
            return_ (audit_result GateAuditIncomplete
                       (audit_failure Contradiction "audit-only spool hold is missing"))
        | Some (hold, holds) =>
            cleanup <- act (CleanupHeld hold) ;;
            unless cleanup spool_failure_result ;;;
            release_hold hold ;;;
            cleanup_audit_facts rest holds
        end
  end.

Definition run_absent_by_policy_gate_body (now : Z) : gate IdempotencyCoreGateResult :=
  inventory <- enumerate ;;
  scanned <- scan_log AbsentAccountAuditPinsByPolicy ;;
  let '(open, views) := scanned in
  let relations :=
    fold_left (fun s v => consume_absent_by_policy_completed_view v s) views
      (new_relations [] now) in
  match validate_spool_relation inventory relations open account audit_path with
  | Some failure => return_ failure
  | None =>
      holds <- act IssueHolds ;;
      holds <-
        (match open with
         | Some g => recover_open_group false g AbsentAccountAuditPinsByPolicy holds
         | None => pure holds
         end) ;;
      cleanup_audit_facts (spools relations) holds ;;;
      if negb (sampled_now_valid relations) then
        return_ (audit_result GateAuditUnavailable
                   (audit_failure SchemaError "wall-clock sample is unrepresentable"))
      else pure (gate_result GateClean)
  end.

Definition run_absent_by_policy_gate (now : Z) : prog gate_effect (option IdempotencyCoreGateResult) :=
  finish (run_absent_by_policy_gate_body now).

(** * Closing the intent of a request that met an incumbent *)

Record AccountAuditAppendReceipt := {
  receipt_generation : Z;
  receipt_invocation_id : string;
  receipt_fingerprint : string;
  receipt_operation : AccountAuditOperation
}.

Inductive IdempotencyUnexpectedIncumbentClosureStatus : Set := DurableFatal | AuditFatal.

Record IdempotencyUnexpectedIncumbentClosure := {
  closure_status : IdempotencyUnexpectedIncumbentClosureStatus;
  closure_terminal : option json;
  closure_failure : AccountAuditFailure
}.

Definition unexpected_idempotency_incumbent_terminal (op : AccountAuditOperation) : json :=
  jobject [("kind", JString "error"); ("code", JString "INTERNAL");
           ("message", JString "internal error");
           ("details", jobject [("operation", JString (account_audit_operation_name op));
                                ("reason", JString "internal_error")]);
           ("exit_code", JInteger 1)].

Abbreviation closing := (Effects.stmt gate_effect IdempotencyUnexpectedIncumbentClosure).
Abbreviation perform := (@Effects.act gate_effect IdempotencyUnexpectedIncumbentClosure _).

Definition closure_fails {A} (failure : AccountAuditFailure) : closing A :=
  return_ {| closure_status := AuditFatal; closure_terminal := None; closure_failure := failure |}.

Definition receipt_matches (receipt : AccountAuditAppendReceipt) (g : AccountAuditOpenGroup) : bool :=
  negb (receipt_generation receipt =? 0)
  && (audit_generation g =? receipt_generation receipt)
  && eq_str (jget (intent g) "invocation_id") (receipt_invocation_id receipt)
  && eq_str (jget (intent g) "request_fingerprint") (receipt_fingerprint receipt)
  && match command_of (intent g) with
     | Some op => eqb op (receipt_operation receipt)
     | None => false
     end
  && WriteOp.idempotent (WriteOp.of_audit (receipt_operation receipt))
  && match checkpoints g with [] => true | _ => false end.

Definition close_unexpected_incumbent (receipt : AccountAuditAppendReceipt) :
    closing IdempotencyUnexpectedIncumbentClosure :=
  inspection <- perform InspectAudit ;;
  match inspection_status inspection, oldest_open inspection with
  | AuditOpen, Some g =>
      if negb (receipt_matches receipt g) then
        closure_fails (audit_failure Contradiction
          "unexpected-incumbent closure receipt does not match the open intent")
      else
        let terminal := unexpected_idempotency_incumbent_terminal (receipt_operation receipt) in
        now <- perform RecoveryTimestamp ;;
        match make_account_audit_outcome json_dump
                {| o_identity := {| invocation_id := receipt_invocation_id receipt;
                                    timestamp := now |};
                   o_account := account; o_operation := receipt_operation receipt;
                   o_success := false; o_mutation_state := MutationNone; o_completed_stages := [];
                   o_terminal := terminal |} with
        | Err error => closure_fails (audit_failure SchemaError error)
        | Ok outcome =>
            appended <- perform (RecoverOutcome outcome) ;;
            match appended with
            | Some failure => closure_fails failure
            | None =>
                pure {| closure_status := DurableFatal; closure_terminal := Some terminal;
                        closure_failure := no_audit_failure |}
            end
        end
  | _, _ =>
      closure_fails
        (if str_empty (af_detail (inspection_failure inspection)) then
           audit_failure Contradiction "unexpected-incumbent closure has no exact open intent"
         else inspection_failure inspection)
  end.
End gate.
