(* ===== verification/WriteKernel.v ===== *)
(** The write kernel (src/src/daemon/write_kernel.cpp, write_kernel.hpp) and the
    typed contract of its values (src/src/daemon/write_contract.cpp).

    [WriteKernel::run] calls hooks, the audit log, the idempotency store, the
    clock and the cancellation flag.  It is modelled as a program over those
    calls: every call is an [effect], every answer is possible, and every call
    may throw.  A finite run yields a trace of calls with their answers. *)
From S2P Require Import Prelude FrameIo Json Paths Operation DestructivePlan M6Domain AuditSchema AuditLog.
From S2P Require Import IdempotencyStore IdempotencyFile Effects SpoolInventory.
From S2P Require Import Reconciliation.
Import Audit.

(** * The contract *)

Module Contract.

Record Arguments := { a_operation : WriteOp.WriteOperation; a_value : json }.
Record Plan := { p_operation : WriteOp.WriteOperation; p_account : string; p_value : json }.
Record Result := { r_operation : WriteOp.WriteOperation; r_value : json }.
Record StoredTerminal := { t_operation : WriteOp.WriteOperation; t_value : json }.

(** [operator==] of write operations. *)
Definition same_operation (a b : WriteOp.WriteOperation) : bool :=
  eqb (WriteOp.audit a) (WriteOp.audit b).

Definition success (t : StoredTerminal) : bool :=
  is_object (t_value t) && eq_str (jget (t_value t) "kind") "result".

Definition make_arguments (operation : WriteOp.WriteOperation) (value : json) : option Arguments :=
  match WriteOp.audit operation with
  | Some audit =>
      if valid_arguments audit value then Some {| a_operation := operation; a_value := value |}
      else None
  | None => None
  end.

Definition make_plan (operation : WriteOp.WriteOperation) (account : string) (value : json) :
    option Plan :=
  match WriteOp.audit operation with
  | Some audit =>
      if valid_account_name account && valid_plan audit value account
      then Some {| p_operation := operation; p_account := account; p_value := value |}
      else None
  | None => None
  end.

Definition make_result (operation : WriteOp.WriteOperation) (value : json) : option Result :=
  match WriteOp.audit operation with
  | Some audit =>
      if valid_result_data audit value then Some {| r_operation := operation; r_value := value |}
      else None
  | None => None
  end.

Definition make_stored_terminal (operation : WriteOp.WriteOperation) (value : json) :
    option StoredTerminal :=
  match WriteOp.audit operation with
  | Some audit =>
      if valid_terminal audit value then Some {| t_operation := operation; t_value := value |}
      else None
  | None => None
  end.

Definition make_result_terminal (r : Result) : option StoredTerminal :=
  make_stored_terminal (r_operation r)
    (jobject [("kind", JString "result"); ("data", r_value r)]).

Definition make_error_terminal (operation : WriteOp.WriteOperation) (code message : string)
    (details : json) (exit_code : Z) : option StoredTerminal :=
  make_stored_terminal operation
    (jobject [("kind", JString "error"); ("code", JString code); ("message", JString message);
              ("details", details); ("exit_code", JInteger exit_code)]).

Definition terminal_matches_plan (terminal : StoredTerminal) (plan : Plan) : bool :=
  same_operation (t_operation terminal) (p_operation plan)
  && match WriteOp.audit (p_operation plan) with
     | Some audit =>
         validate_account_audit_persisted_terminal audit (t_value terminal) (p_value plan)
           (p_account plan)
     | None => false
     end.
End Contract.
Import Contract.

(** * Requests, hooks and results *)

Inductive WriteKernelStatus : Set :=
| DryRunPlanned | KernelCompleted | Replayed | KernelPending | KernelConflict | KernelRejected
| DurabilityFatal | AuditFatal.

Record WriteKernelResult := {
  k_status : WriteKernelStatus;
  k_terminal : option json;
  k_plan : option Plan
}.

Inductive AuthoritySource : Set := RequestAuthority | ConfigAuthority.
Inductive ConfirmationSource : Set := ConfirmYes | ConfirmTty.

Definition authority_source_name (s : AuthoritySource) : string :=
  match s with RequestAuthority => "request" | ConfigAuthority => "config" end.
Definition confirmation_source_name (s : ConfirmationSource) : string :=
  match s with ConfirmYes => "yes" | ConfirmTty => "tty" end.

Record WriteKernelRequest := {
  q_operation : WriteOp.WriteOperation;
  q_account : string;
  q_key : option string;
  q_invocation_id : string;
  q_intent_timestamp : string;
  q_config_path : string;
  q_config_snapshot : string;
  q_authority_source : AuthoritySource;
  q_request_source_bytes : Z;
  q_has_sample_now : bool;
  q_dry_run : bool;
  q_recovery_preflight_complete : bool
}.

(** Which hooks are set. *)
Record WriteKernelHooks := {
  has_admit : bool; has_plan : bool; has_lookup_admit : bool; has_materialize : bool;
  has_confirm : bool; has_verify_config_grant : bool; has_revalidate_principal : bool;
  has_post_intent : bool; has_before_insert : bool; has_revalidate_auth_and_schedule : bool;
  has_dispatch : bool; has_cleanup : bool; has_timestamp : bool; has_audit_fatal_shutdown : bool
}.

Record WriteAdmission := { arguments : Arguments; fingerprint : string; pass1_source : option Z }.
Record WriteLookupAdmission := { l_fingerprint : string; l_pass1_source : option Z }.
Record WriteMaterialization := { m_admission : WriteAdmission; m_plan : Plan }.

Inductive WriteConfirmationStatus : Set :=
| ConfirmedYes | ConfirmedTty | ConfirmationRejected | ConfirmationTimedOut | ConfirmationCancelled.

Record WriteConfirmationOutcome := {
  confirmation : WriteConfirmationStatus; confirmation_terminal : option json
}.

Inductive GrantVerificationStatus : Set :=
| GrantMatched | GrantDenied | GrantConflict | GrantInvalid | GrantIoError | GrantTimedOut
| GrantCancelled.

(** The identity of the current snapshot and the name of the error's reason. *)
Record GrantVerificationResult := {
  grant : GrantVerificationStatus; grant_identity : option string; grant_error : option string
}.

Record WritePostIntentPreparation := {
  post_spool : option SpoolRef;
  terminal_without_dispatch : option StoredTerminal;
  complete_without_mutation : bool;
  stop_without_dispatch : bool
}.

Inductive WriteDispatchAdmissionOutcome : Type :=
| DispatchPreparation (proof : json)
| DispatchTerminal (terminal : StoredTerminal)
| DispatchStopped.

Record WriteDispatchOutcome := {
  d_terminal : StoredTerminal;
  d_mutation_state : AccountAuditMutationState;
  d_mutation_confirmed : bool;
  d_retain_pending : bool
}.

Inductive AppendInspectionStatus : Set := AppendClean | AppendInterrupted | AppendUnavailable.

Record AppendInspection := {
  ai_status : AppendInspectionStatus;
  ai_permit_valid : bool;
  ai_terminal : option json;
  ai_reason : AccountAuditDurabilityReason;
  ai_interruption : option Interruption
}.

(** * Effects *)

Inductive effect : Type -> Type :=
| DeadlineExpired : effect bool
| Cancelled : effect bool
| SampleNow : effect Z
| HookTimestamp : effect string
| HookAdmit : effect (WriteAdmission + json)
| HookPlan (admission : WriteAdmission) : effect (Plan + json)
| HookLookupAdmit : effect (WriteLookupAdmission + json)
| HookMaterialize (lookup : WriteLookupAdmission) : effect (WriteMaterialization + json)
| HookConfirm (plan : Plan) (replay : bool) : effect WriteConfirmationOutcome
| HookVerifyGrant : effect GrantVerificationResult
| HookRevalidatePrincipal : effect (option json)
| HookPostIntent (plan : Plan) (admission : WriteAdmission) : effect WritePostIntentPreparation
| HookBeforeInsert : effect unit
| HookRevalidateAuth (plan : Plan) : effect WriteDispatchAdmissionOutcome
| DispatchBegin (plan : Plan) (proof : json) : effect nat
| DispatchObserve : effect (AccountAuditStage * json)
| DispatchEnd : effect WriteDispatchOutcome
| HookCleanup (plan : Plan) (outcome : WriteDispatchOutcome) : effect bool
| AuditFatalShutdown : effect unit
| AcquireEpoch : effect (unit + option Interruption)
| RunGate (absent : bool) (sampled_now : Z) : effect IdempotencyCoreGateResult
| PrepareAppend (intent : json) (pins : AccountAuditPinSource) : effect AppendInspection
| AppendIntent (intent : json) : effect (option Z)
| AppendCheckpoint (checkpoint : json) : effect bool
| AppendOutcome (outcome : json) : effect bool
| StoreInsert (entry : IdempotencyEntry) : effect IdempotencyInsertStatus
| CloseIncumbent : effect (bool * option json)
| StoreSpool (spool : SpoolRef) : effect IdempotencyWriteStatus
| StoreTemporaryIds (ids : json) : effect IdempotencyWriteStatus
| StoreProgress (items : json) : effect IdempotencyWriteStatus
| StoreComplete (terminal : json) : effect IdempotencyWriteStatus
| StoreRemove : effect IdempotencyWriteStatus
| StoreClearSpool : effect IdempotencyWriteStatus
| HoldSpool (spool : SpoolRef) : effect bool
| CleanupSpool : effect bool
| ReleaseSpool : effect bool.

Abbreviation prog := (Effects.prog effect).
Abbreviation stmt := (Effects.stmt effect WriteKernelResult).
Abbreviation completion := (Effects.completion WriteKernelResult).
Abbreviation act := (@Effects.act effect WriteKernelResult _).

(** * Terminals *)

Definition error_terminal (code message : string) (details : json) (exit_code : Z) : json :=
  jobject [("kind", JString "error"); ("code", JString code); ("message", JString message);
           ("details", details); ("exit_code", JInteger exit_code)].

Definition kDenied : Z := 6.
Definition kUsage : Z := 2.

Definition rejected (terminal : json) : WriteKernelResult :=
  {| k_status := KernelRejected; k_terminal := Some terminal; k_plan := None |}.
Definition rejected_silently : WriteKernelResult :=
  {| k_status := KernelRejected; k_terminal := None; k_plan := None |}.
Definition plain_audit_fatal : WriteKernelResult :=
  {| k_status := AuditFatal; k_terminal := None; k_plan := None |}.

Definition operation_json (operation : WriteOp.WriteOperation) : json :=
  JString (WriteOp.name operation).

Definition timeout_details (operation : WriteOp.WriteOperation) (phase idempotency outcome : string) :
    json :=
  jobject [("operation", operation_json operation); ("phase", JString phase);
           ("state", JString "ready"); ("outcome", JString outcome);
           ("idempotency", JString idempotency)].

Definition timeout_terminal (operation : WriteOp.WriteOperation) (phase idempotency : string) : json :=
  error_terminal "TIMEOUT" "request timed out"
    (timeout_details operation phase idempotency "not_started") kTimeout.

Definition audit_unavailable_terminal (account path : string) (reason : AccountAuditDurabilityReason) :
    json :=
  error_terminal "AUDIT_UNAVAILABLE" "account audit log is unavailable"
    (jobject [("account", JString account); ("path", JString path);
              ("reason", JString (account_audit_durability_reason_name reason))]) kDenied.

Definition spool_unavailable_terminal (operation : WriteOp.WriteOperation)
    (durability_reason : option AccountAuditDurabilityReason) : json :=
  error_terminal "SPOOL_UNAVAILABLE" "attachment spool is unavailable"
    (jobject [("operation", operation_json operation); ("path", JString "spool/");
              ("reason",
               JString (match durability_reason with
                        | Some reason => account_audit_durability_reason_name reason
                        | None => "contradiction"
                        end))]) kGeneric.

Definition cancellation_terminal (operation : WriteOp.WriteOperation) : option StoredTerminal :=
  make_error_terminal operation "DAEMON_SHUTDOWN" "daemon is shutting down"
    (jobject [("reason", JString "daemon_shutdown")]) kGeneric.

Definition timed_out_terminal (operation : WriteOp.WriteOperation) (idempotency : string) :
    option StoredTerminal :=
  make_error_terminal operation "TIMEOUT" "request timed out"
    (timeout_details operation "preflight" idempotency "not_started") kTimeout.

Section kernel.
Local Open Scope kernel_scope.
Variable json_dump : json -> option string.
Variable request : WriteKernelRequest.
Variable hooks : WriteKernelHooks.
(** Whether the foundation is set, and the paths of its files. *)
Variable has_foundation : bool.
Variables (audit_path store_path : string).

Definition pre_intent_idempotency : string :=
  if has_value (q_key request) then "not_created" else "not_requested".
Definition post_intent_idempotency : string :=
  if has_value (q_key request) then "removed" else "not_requested".

Definition preflight_timeout : json :=
  timeout_terminal (q_operation request) "preflight" pre_intent_idempotency.

(** [post_hook_interruption] and the [return] after it. *)
Definition post_hook_interruption : stmt unit :=
  expired <- act DeadlineExpired ;;
  if expired then return_ (rejected preflight_timeout)
  else
    stop <- act Cancelled ;;
    if stop then return_ rejected_silently else pure tt.

(** A hook call inside [try]; an exception rejects the request. *)
Definition hooked {X} (e : effect X) : stmt X := try_ (act e) (return_ rejected_silently).

(** A hook that yields a value or a terminal. *)
Definition admitted_hook {X} (e : effect (X + json)) : stmt X :=
  outcome <- hooked e ;;
  post_hook_interruption ;;;
  match outcome with
  | inl x => pure x
  | inr terminal => return_ (rejected terminal)
  end.

(** [audit_fatal]: the shutdown hook runs once the intent may be durable. *)
Definition audit_fatal {A} (intent_may_be_durable : bool) : stmt A :=
  if intent_may_be_durable && has_audit_fatal_shutdown hooks then
    try_ (act AuditFatalShutdown) (pure tt) ;;; return_ plain_audit_fatal
  else return_ plain_audit_fatal.

Definition require {A} (b : bool) (intent_may_be_durable : bool) (k : stmt A) : stmt A :=
  if b then k else audit_fatal intent_may_be_durable.

Definition gate_failure (gate : IdempotencyCoreGateResult) : WriteKernelResult :=
  match gate_status gate with
  | GateInterrupted =>
      let interruption :=
        match f_interruption (gate_store_failure gate) with
        | Some i => Some i
        | None => af_interruption (gate_audit_failure gate)
        end in
      match interruption with
      | Some DeadlineInterruption => rejected preflight_timeout
      | _ => rejected_silently
      end
  | status =>
      match gate_terminal gate with
      | Some terminal => rejected terminal
      | None =>
          match status, gate_spool_failure gate with
          | GateStoreUnavailable, _ =>
              rejected (idempotency_unavailable_terminal (gate_store_failure gate))
          | GateSpoolUnavailable, Some failure =>
              rejected (spool_unavailable_terminal (q_operation request)
                          (fs_durability_reason failure))
          | _, _ =>
              rejected (audit_unavailable_terminal (q_account request) audit_path
                          (af_reason (gate_audit_failure gate)))
          end
      end
  end.

Definition pending_terminal (incumbent : IdempotencyEntry) (key fp : string) : json :=
  error_terminal "IDEMPOTENCY_PENDING" "an invocation with this idempotency key is still pending"
    (jobject [("operation", operation_json (q_operation request)); ("key_hash", JString key);
              ("fingerprint", JString fp);
              ("invocation_id", JString (entry_invocation_id incumbent));
              ("temporary_message_ids", temporary_message_ids incumbent)]) kGeneric.

Definition conflict_terminal (incumbent : IdempotencyEntry) (key fp : string) : json :=
  error_terminal "IDEMPOTENCY_CONFLICT" "idempotency key was already used for a different request"
    (jobject [("operation", operation_json (q_operation request)); ("key_hash", JString key);
              ("expected_fingerprint", JString (request_fingerprint incumbent));
              ("actual_fingerprint", JString fp)]) kUsage.

Definition incumbent_plan (incumbent : IdempotencyEntry) : option Plan :=
  make_plan (q_operation request) (q_account request) (plan incumbent).

Definition incumbent_terminal (incumbent : IdempotencyEntry) : option StoredTerminal :=
  match terminal incumbent with
  | Some t => make_stored_terminal (q_operation request) t
  | None => None
  end.

Definition confirmed (outcome : WriteConfirmationOutcome) : option ConfirmationSource :=
  match confirmation outcome with
  | ConfirmedYes => Some ConfirmYes
  | ConfirmedTty => Some ConfirmTty
  | _ => None
  end.

Definition confirm_replay {A} (incumbent : IdempotencyEntry) : stmt A :=
  match incumbent_plan incumbent, incumbent_terminal incumbent with
  | Some p, Some t =>
      if negb (terminal_matches_plan t p) then return_ plain_audit_fatal
      else
        let replayed :=
          return_ {| k_status := Replayed; k_terminal := Some (t_value t); k_plan := Some p |} in
        if WriteOp.destructive (q_operation request) then
          if negb (has_confirm hooks) then return_ plain_audit_fatal
          else
            outcome <- hooked (HookConfirm p true) ;;
            expired <- act DeadlineExpired ;;
            if expired then
              return_ (rejected (timeout_terminal (q_operation request) "replay_confirmation"
                                   "completed_unchanged"))
            else
              stop <- act Cancelled ;;
              if stop then return_ rejected_silently
              else
                match confirmed outcome with
                | Some _ => replayed
                | None =>
                    return_ {| k_status := KernelRejected;
                               k_terminal := confirmation_terminal outcome; k_plan := None |}
                end
        else replayed
  | _, _ => return_ plain_audit_fatal
  end.

(** [incumbent_result] and the [return] after it. *)
Definition incumbent_result (lookup : IdempotencyLookup) (key fp : string) : stmt unit :=
  match l_status lookup, l_incumbent lookup with
  | Miss, _ => pure tt
  | _, None => return_ plain_audit_fatal
  | PendingHit, Some incumbent =>
      return_ {| k_status := KernelPending; k_terminal := Some (pending_terminal incumbent key fp);
                 k_plan := None |}
  | Conflict, Some incumbent =>
      return_ {| k_status := KernelConflict; k_terminal := Some (conflict_terminal incumbent key fp);
                 k_plan := None |}
  | CompletedHit, Some incumbent => confirm_replay incumbent
  end.

(** The idempotency lookup of a gate's snapshot. *)
Definition check_incumbent (gate : IdempotencyCoreGateResult) (fp : string) : stmt unit :=
  match q_key request with
  | Some key => incumbent_result (lookup (gate_snapshot gate) key fp) key fp
  | None => pure tt
  end.

Definition timestamp_now : stmt string :=
  if has_timestamp hooks then act HookTimestamp else pure (q_intent_timestamp request).

Definition record_identity (now : string) : AccountAuditRecordIdentity :=
  {| invocation_id := q_invocation_id request; timestamp := now |}.

Definition checkpoint_input (operation : AccountAuditOperation) (sequence : Z)
    (stage : AccountAuditStage) (data : json) (now : string) : AccountAuditCheckpointInput :=
  {| c_identity := record_identity now; c_account := q_account request;
     c_operation := operation; c_sequence := sequence; c_stage := stage; c_data := data |}.

Definition outcome_input (operation : AccountAuditOperation) (terminal : StoredTerminal)
    (mutation : AccountAuditMutationState) (completed : list AccountAuditStage) (now : string) :
    AccountAuditOutcomeInput :=
  {| o_identity := record_identity now; o_account := q_account request; o_operation := operation;
     o_success := success terminal; o_mutation_state := mutation;
     o_completed_stages := completed; o_terminal := t_value terminal |}.

Definition intent_input (operation : AccountAuditOperation) (admission : WriteAdmission) (p : Plan)
    (source : option ConfirmationSource) : AccountAuditIntentInput :=
  {| i_identity := record_identity (q_intent_timestamp request);
     i_account := q_account request; i_operation := operation;
     i_arguments := a_value (arguments admission); i_plan := p_value p;
     i_request_fingerprint := fingerprint admission;
     i_config_snapshot := q_config_snapshot request;
     i_authority_source := authority_source_name (q_authority_source request);
     i_confirmation_source := option_map confirmation_source_name source;
     i_idempotency_key_hash := q_key request;
     i_request_source_bytes := q_request_source_bytes request |}.

(** The stages after one more: repeated forward progress is one stage. *)
Definition add_stage (completed : list AccountAuditStage) (stage : AccountAuditStage) :
    list AccountAuditStage :=
  match rev completed with
  | last :: _ =>
      if eqb last stage && eqb stage ForwardProgress then completed else completed ++ [stage]
  | [] => [stage]
  end.

(** [append_checkpoint]: the new [completed], [None] for [false]. *)
Definition append_checkpoint (operation : AccountAuditOperation) (sequence : Z)
    (stage : AccountAuditStage) (data : json) (completed : list AccountAuditStage) :
    stmt (option (list AccountAuditStage)) :=
  now <- timestamp_now ;;
  match make_account_audit_checkpoint json_dump (checkpoint_input operation sequence stage data now)
  with
  | Err _ => pure None
  | Ok checkpoint =>
      appended <- act (AppendCheckpoint checkpoint) ;;
      pure (if negb appended then None else Some (add_stage completed stage))
  end.

Definition append_outcome (operation : AccountAuditOperation) (terminal : StoredTerminal)
    (mutation : AccountAuditMutationState) (completed : list AccountAuditStage) : stmt bool :=
  now <- timestamp_now ;;
  match make_account_audit_outcome json_dump
          (outcome_input operation terminal mutation completed now) with
  | Err _ => pure false
  | Ok outcome => act (AppendOutcome outcome)
  end.

(** [None] is the matched grant; the inner [None] is the null document. *)
Definition config_cas_terminal (result : GrantVerificationResult) : option (option json) :=
  match grant result with
  | GrantMatched => None
  | GrantDenied =>
      Some (Some (error_terminal "WRITE_DENIED" "write authority is no longer valid"
        (jobject [("account", JString (q_account request)); ("reason", JString "invalid_config_grant")])
        kDenied))
  | GrantConflict =>
      Some (Some (error_terminal "CONFIG_CONFLICT" "config changed after request admission"
        (jobject [("path", JString (q_config_path request));
                  ("expected", JString (q_config_snapshot request));
                  ("current", JString (match grant_identity result with
                                       | Some identity => identity
                                       | None => "missing"
                                       end))]) kGeneric))
  | GrantInvalid | GrantIoError =>
      Some (Some (error_terminal "CONFIG_INVALID" "cannot use current config.toml"
        (jobject [("path", JString (q_config_path request));
                  ("reason", JString (match grant_error result with
                                      | Some reason => reason
                                      | None => "io_error"
                                      end))]) kGeneric))
  | GrantTimedOut => Some (Some preflight_timeout)
  | GrantCancelled => Some None
  end.

(** * [WriteKernel::run] *)

Definition absent_idempotency_by_policy : bool :=
  eqb (WriteOp.audit (q_operation request)) (Some SessionTerminate).

Definition deferred_planning : bool := has_lookup_admit hooks || has_materialize hooks.

(** The first test of [run], negated. *)
Definition well_formed_call : bool :=
  negb (has_value (q_key request)
        && (negb (WriteOp.idempotent (q_operation request)) || absent_idempotency_by_policy))
  && Bool.eqb (q_recovery_preflight_complete request) absent_idempotency_by_policy
  && negb (q_request_source_bytes request =? 0)
  && (q_request_source_bytes request <=? FrameIo.kMaximumSerializedFrameBytes)
  && negb (str_empty (q_config_path request))
  && (if deferred_planning then has_lookup_admit hooks && has_materialize hooks
      else has_admit hooks && has_plan hooks)
  && (q_dry_run request || (q_has_sample_now request && has_audit_fatal_shutdown hooks)).

Definition matches_operation (operation : WriteOp.WriteOperation) : bool :=
  same_operation operation (q_operation request).

Definition plan_matches (p : Plan) : bool :=
  matches_operation (p_operation p) && String.eqb (p_account p) (q_account request).

(** The hook [revalidate_principal]; its exceptions are not caught here. *)
Definition dry_run_planned {A} (p : Plan) : stmt A :=
  (if has_revalidate_principal hooks then
     failure <- act HookRevalidatePrincipal ;;
     match failure with Some terminal => return_ (rejected terminal) | None => pure tt end
   else pure tt) ;;;
  return_ {| k_status := DryRunPlanned; k_terminal := None; k_plan := Some p |}.

Definition dry_run {A} : stmt A :=
  if deferred_planning then
    lookup <- admitted_hook HookLookupAdmit ;;
    m <- admitted_hook (HookMaterialize lookup) ;;
    require (matches_operation (a_operation (arguments (m_admission m)))
             && String.eqb (fingerprint (m_admission m)) (l_fingerprint lookup)
             && plan_matches (m_plan m)) false
      (dry_run_planned (m_plan m))
  else
    admission <- admitted_hook HookAdmit ;;
    require (matches_operation (a_operation (arguments admission))) false
      (p <- admitted_hook (HookPlan admission) ;;
       require (plan_matches p) false (dry_run_planned p)).

Definition acquire_epoch : stmt unit :=
  epoch <- act AcquireEpoch ;;
  match epoch with
  | inl _ => pure tt
  | inr (Some DeadlineInterruption) => return_ (rejected preflight_timeout)
  | inr _ => return_ rejected_silently
  end.

Definition run_gate (sampled_now : Z) : stmt IdempotencyCoreGateResult :=
  gate <- act (RunGate absent_idempotency_by_policy sampled_now) ;;
  match gate_status gate with
  | GateClean => pure gate
  | _ => return_ (gate_failure gate)
  end.

(** [lookup_admit] or [admit]. *)
Definition first_admission : stmt (WriteLookupAdmission + WriteAdmission) :=
  if deferred_planning then
    lookup <- admitted_hook HookLookupAdmit ;; pure (inl lookup)
  else
    admission <- admitted_hook HookAdmit ;;
    require (matches_operation (a_operation (arguments admission))) false (pure (inr admission)).

Definition admission_fingerprint (a : WriteLookupAdmission + WriteAdmission) : string :=
  match a with inl lookup => l_fingerprint lookup | inr admission => fingerprint admission end.

(** Up to the plan: the first gate, admission, the lookup, planning. *)
Definition admit_and_plan : stmt (WriteAdmission * Plan) :=
  first <-
    (if q_recovery_preflight_complete request then first_admission
     else
       acquire_epoch ;;;
       sampled <- act SampleNow ;;
       gate <- run_gate sampled ;;
       first <- first_admission ;;
       check_incumbent gate (admission_fingerprint first) ;;;
       pure first) ;;
  planned <-
    match first with
    | inl lookup =>
        m <- admitted_hook (HookMaterialize lookup) ;;
        require (String.eqb (fingerprint (m_admission m)) (l_fingerprint lookup)
                 && eqb (pass1_source (m_admission m)) (l_pass1_source lookup)) false
          (pure (m_admission m, m_plan m))
    | inr admission => p <- admitted_hook (HookPlan admission) ;; pure (admission, p)
    end ;;
  require (matches_operation (a_operation (arguments (fst planned))) && plan_matches (snd planned))
    false (pure planned).

Definition confirm_plan (p : Plan) : stmt (option ConfirmationSource) :=
  if negb (WriteOp.destructive (q_operation request)) then pure None
  else
    require (has_confirm hooks) false
      (outcome <- hooked (HookConfirm p false) ;;
       post_hook_interruption ;;;
       match confirmed outcome with
       | Some source => pure (Some source)
       | None =>
           return_ {| k_status := KernelRejected; k_terminal := confirmation_terminal outcome;
                      k_plan := None |}
       end).

Definition verify_grant : stmt unit :=
  match q_authority_source request with
  | RequestAuthority => pure tt
  | ConfigAuthority =>
      require (has_verify_config_grant hooks) false
        (verification <- hooked HookVerifyGrant ;;
         post_hook_interruption ;;;
         match config_cas_terminal verification with
         | None => pure tt
         | Some (Some terminal) => return_ (rejected terminal)
         | Some None => return_ rejected_silently
         end)
  end.

Definition revalidate_principal : stmt unit :=
  if has_revalidate_principal hooks then
    failure <- hooked HookRevalidatePrincipal ;;
    post_hook_interruption ;;;
    match failure with Some terminal => return_ (rejected terminal) | None => pure tt end
  else pure tt.

Definition append_failure (inspection : AppendInspection) : WriteKernelResult :=
  gate_failure
    {| gate_status := match ai_status inspection with
                      | AppendInterrupted => GateInterrupted
                      | _ => GateAuditUnavailable
                      end;
       gate_snapshot := no_snapshot; gate_terminal := ai_terminal inspection;
       gate_store_failure := no_store_failure;
       gate_audit_failure :=
         {| af_reason := ai_reason inspection; af_detail := EmptyString;
            af_interruption := ai_interruption inspection |};
       gate_spool_failure := None |}.

(** What the commit needs of the preflight. *)
Record Prepared := {
  b_admission : WriteAdmission;
  b_plan : Plan;
  b_sampled_now : Z;
  b_intent : json
}.

(** Up to the permit to append the intent. *)
Definition prepare (operation : AccountAuditOperation) : stmt Prepared :=
  planned <- admit_and_plan ;;
  let admission := fst planned in
  let p := snd planned in
  acquire_epoch ;;;
  sampled <- act SampleNow ;;
  gate <- run_gate sampled ;;
  check_incumbent gate (fingerprint admission) ;;;
  source <- confirm_plan p ;;
  verify_grant ;;;
  revalidate_principal ;;;
  match make_account_audit_intent json_dump (intent_input operation admission p source) with
  | Err _ => audit_fatal false
  | Ok document =>
      let pins :=
        if absent_idempotency_by_policy then AbsentAccountAuditPinsByPolicy
        else pins (gate_snapshot gate) in
      inspection <- act (PrepareAppend document pins) ;;
      match ai_status inspection, ai_permit_valid inspection with
      | AppendClean, true =>
          pure {| b_admission := admission; b_plan := p; b_sampled_now := sampled;
                  b_intent := document |}
      | _, _ => return_ (append_failure inspection)
      end
  end.

Definition status_failed (s : IdempotencyWriteStatus) : bool :=
  match s with WriteFailure => true | _ => false end.

(** [require] once the intent may be durable. *)
Definition durably {A} (b : bool) (k : stmt A) : stmt A := require b true k.

(** The local variables [checkpoint_sequence] and [completed]. *)
Record Progress := { sequence : Z; completed : list AccountAuditStage }.

Definition checkpointed (operation : AccountAuditOperation) (g : Progress)
    (stage : AccountAuditStage) (data : json) : stmt (option Progress) :=
  let next := u32 (sequence g + 1) in
  r <- append_checkpoint operation next stage data (completed g) ;;
  pure (option_map (fun l => {| sequence := next; completed := l |}) r).

Definition or_fatal {A} (r : option A) : stmt A :=
  match r with Some a => pure a | None => audit_fatal true end.

Definition pending_input (operation : AccountAuditOperation) (b : Prepared) (generation : Z)
    (key : string) : IdempotencyPendingInput :=
  {| p_key_hash := key; p_request_fingerprint := fingerprint (b_admission b);
     IdempotencyStore.p_operation := operation; p_invocation_id := q_invocation_id request;
     p_audit_generation := generation; p_created_at := b_sampled_now b;
     p_plan := p_value (b_plan b) |}.

Definition pending_data (b : Prepared) (key : string) (entry : IdempotencyEntry) : json :=
  jobject [("key_hash", JString key);
           ("request_fingerprint", JString (fingerprint (b_admission b)));
           ("expires_at", JUnsigned (expires_at entry));
           ("reserved_terminal_bytes", JUnsigned (reserved_terminal_bytes entry))].

(** The keyed part: the pending entry and its checkpoint. *)
Definition insert_pending (operation : AccountAuditOperation) (b : Prepared) (generation : Z)
    (g : Progress) : stmt Progress :=
  match q_key request with
  | None => pure g
  | Some key =>
      (if has_before_insert hooks then try_ (act HookBeforeInsert) (audit_fatal true) else pure tt) ;;;
      match make_idempotency_pending_entry (pending_input operation b generation key)
              (q_account request) store_path with
      | Err _ => audit_fatal true
      | Ok entry =>
          inserted <- act (StoreInsert entry) ;;
          match inserted with
          | UnexpectedIncumbent =>
              closure <- act CloseIncumbent ;;
              match closure with
              | (true, Some terminal) =>
                  return_ {| k_status := DurabilityFatal; k_terminal := Some terminal;
                             k_plan := None |}
              | _ => audit_fatal true
              end
          | InsertFailed => audit_fatal true
          | Inserted =>
              r <- checkpointed operation g IdempotencyPending (pending_data b key entry) ;;
              or_fatal r
          end
      end
  end.

Definition nothing_prepared : WritePostIntentPreparation :=
  {| post_spool := None; terminal_without_dispatch := None; complete_without_mutation := false;
     stop_without_dispatch := false |}.

Definition is_attach : bool := WriteOp.eq_m3 (q_operation request) M3.SavedAttach.
Definition photo : bool := WriteOp.uses_photo_spool (q_operation request).

(** The spool of the post-intent hook; the progress and whether a hold is
    kept. *)
Definition publish_spool (operation : AccountAuditOperation) (b : Prepared)
    (post : WritePostIntentPreparation) (g : Progress) : stmt (Progress * bool) :=
  match post_spool post with
  | Some s =>
      durably ((is_attach || photo)
               && validate_account_audit_persisted_spool s (q_invocation_id request))
        (r <- checkpointed operation g SpoolReady
                (jobject [("file", file_snapshot_json (file s));
                          ("relative_path", JString (relative_path s))]) ;;
         g <- or_fatal r ;;
         (if has_value (q_key request) then
            updated <- act (StoreSpool s) ;; durably (negb (status_failed updated)) (pure tt)
          else pure tt) ;;;
         held <- act (HoldSpool s) ;;
         durably held (pure (g, true)))
  | None =>
      let file := jget (p_value (b_plan b)) "file" in
      durably (negb ((is_attach || (photo && contains (p_value (b_plan b)) "file" && is_object file))
                     && negb (has_value (terminal_without_dispatch post))))
        (pure (g, false))
  end.

(** [cleanup_current_spool]; its result is ignored by every caller. *)
Definition cleanup_current_spool (held clear_completed_store : bool) : stmt unit :=
  if negb held then pure tt
  else
    try_
      (cleaned <- act CleanupSpool ;;
       if negb cleaned then pure tt
       else
         released <- act ReleaseSpool ;;
         if negb released then pure tt
         else if clear_completed_store && has_value (q_key request)
         then (_ <- act StoreClearSpool ;; pure tt)
         else pure tt)
      (pure tt).

Definition finish_without_dispatch {A} (operation : AccountAuditOperation) (b : Prepared) (held : bool)
    (g : Progress) (terminal : StoredTerminal) (deliver_terminal complete_without_mutation : bool) :
    stmt A :=
  durably (terminal_matches_plan terminal (b_plan b))
    (appended <- append_outcome operation terminal MutationNone (completed g) ;;
     durably appended
       ((if has_value (q_key request) then
           transition <- (if complete_without_mutation then act (StoreComplete (t_value terminal))
                          else act StoreRemove) ;;
           durably (negb (status_failed transition)) (pure tt)
         else pure tt) ;;;
        cleanup_current_spool held false ;;;
        return_ {| k_status := if deliver_terminal then KernelCompleted else KernelRejected;
                   k_terminal := if deliver_terminal then Some (t_value terminal) else None;
                   k_plan := Some (b_plan b) |})).

(** The branch with [terminal_without_dispatch]. *)
Definition stop_before_dispatch {A} (operation : AccountAuditOperation) (b : Prepared) (held : bool)
    (g : Progress) (post : WritePostIntentPreparation) (terminal : StoredTerminal) : stmt A :=
  let p := p_value (b_plan b) in
  let valid_noop :=
    complete_without_mutation post && WriteOp.eq_m3 (q_operation request) M3.ChatMarkRead
    && is_null (jget p "tdlib_request") && is_null (jget p "last_message_id") && success terminal in
  let valid_stop :=
    stop_without_dispatch post && (is_attach || photo) && negb (complete_without_mutation post) in
  durably (Bool.eqb (complete_without_mutation post) valid_noop
           && Bool.eqb (stop_without_dispatch post) valid_stop)
    (finish_without_dispatch operation b held g terminal (negb valid_stop) valid_noop).

(** The deadline and cancellation tests before the dispatch. *)
Definition interrupted_before_dispatch (operation : AccountAuditOperation) (b : Prepared)
    (held : bool) (g : Progress) : stmt unit :=
  expired <- act DeadlineExpired ;;
  if expired then
    match timed_out_terminal (q_operation request) post_intent_idempotency with
    | Some t => finish_without_dispatch operation b held g t true false
    | None => audit_fatal true
    end
  else
    stop <- act Cancelled ;;
    if stop then
      match cancellation_terminal (q_operation request) with
      | Some t => finish_without_dispatch operation b held g t false false
      | None => audit_fatal true
      end
    else pure tt.

(** The observer of the sink: the new progress, [None] for [false]. *)
Definition observer (operation : AccountAuditOperation) (g : Progress) (stage : AccountAuditStage)
    (value : json) : stmt (option Progress) :=
  let store (e : effect IdempotencyWriteStatus) (g' : Progress) : stmt (option Progress) :=
    if has_value (q_key request) then
      updated <- act e ;; pure (if status_failed updated then None else Some g')
    else pure (Some g') in
  match stage with
  | TemporaryIdsObserved =>
      r <- checkpointed operation g stage (jobject [("temporary_message_ids", value)]) ;;
      match r with Some g' => store (StoreTemporaryIds value) g' | None => pure None end
  | ForwardProgress =>
      r <- checkpointed operation g stage (jobject [("items", value)]) ;;
      match r with Some g' => store (StoreProgress value) g' | None => pure None end
  | _ => pure None
  end.

(** The calls the dispatch hook makes to the sink: [None] once an observation
    was not durable, after which [observe] does nothing. *)
Fixpoint observations (operation : AccountAuditOperation) (count : nat) (durable : option Progress) :
    stmt (option Progress) :=
  match count with
  | O => pure durable
  | S count =>
      observation <- act DispatchObserve ;;
      next <- match durable with
              | None => pure None
              | Some g =>
                  try_ (observer operation g (fst observation) (snd observation)) (pure None)
              end ;;
      observations operation count next
  end.

Definition retains_wrongly (d : WriteDispatchOutcome) : bool :=
  d_retain_pending d
  && (negb (WriteOp.eq_m3 (q_operation request) M3.MsgForward)
      || eqb (d_mutation_state d) MutationNone).

(** The store transition after the outcome. *)
Definition settle_store (d : WriteDispatchOutcome) : stmt unit :=
  if has_value (q_key request) then
    match d_mutation_state d, d_retain_pending d with
    | MutationNone, _ => s <- act StoreRemove ;; durably (negb (status_failed s)) (pure tt)
    | MutationConfirmedState, false =>
        s <- act (StoreComplete (t_value (d_terminal d))) ;;
        durably (negb (status_failed s)) (pure tt)
    | _, _ => pure tt
    end
  else pure tt.

(** From the outcome of the dispatch to the result. *)
Definition finish_dispatch {A} (operation : AccountAuditOperation) (b : Prepared) (held : bool)
    (g : Progress) (d : WriteDispatchOutcome) : stmt A :=
  suppress <- act Cancelled ;;
  if suppress && negb (eqb (d_mutation_state d) MutationNone) then
    return_ {| k_status := KernelRejected; k_terminal := None; k_plan := Some (b_plan b) |}
  else
    g <- (if d_mutation_confirmed d then
            r <- checkpointed operation g MutationConfirmed
                   (jobject [("terminal", t_value (d_terminal d))]) ;;
            or_fatal r
          else pure g) ;;
    appended <- append_outcome operation (d_terminal d) (d_mutation_state d) (completed g) ;;
    durably appended
      (settle_store d ;;;
       (if negb (eqb (d_mutation_state d) MutationPossible) && negb (d_retain_pending d)
        then cleanup_current_spool held (eqb (d_mutation_state d) MutationConfirmedState)
        else pure tt) ;;;
       (if has_cleanup hooks then
          try_ (_ <- act (HookCleanup (b_plan b) d) ;; pure tt) (pure tt)
        else pure tt) ;;;
       return_ {| k_status := if suppress then KernelRejected else KernelCompleted;
                  k_terminal := if suppress then None else Some (t_value (d_terminal d));
                  k_plan := Some (b_plan b) |}).

Definition dispatch {A} (operation : AccountAuditOperation) (b : Prepared) (held : bool)
    (g : Progress) : stmt A :=
  durably (has_revalidate_auth_and_schedule hooks && has_dispatch hooks)
    (interrupted_before_dispatch operation b held g ;;;
     admission <- try_ (act (HookRevalidateAuth (b_plan b))) (audit_fatal true) ;;
     match admission with
     | DispatchTerminal t => finish_without_dispatch operation b held g t true false
     | DispatchStopped =>
         match cancellation_terminal (q_operation request) with
         | Some t => finish_without_dispatch operation b held g t false false
         | None => audit_fatal true
         end
     | DispatchPreparation proof =>
         interrupted_before_dispatch operation b held g ;;;
         r <- checkpointed operation g DispatchStarted proof ;;
         g <- or_fatal r ;;
         outcome <-
           try_ (count <- act (DispatchBegin (b_plan b) proof) ;;
                 durable <- observations operation count (Some g) ;;
                 d <- act DispatchEnd ;;
                 pure (durable, d)) (audit_fatal true) ;;
         g <- or_fatal (fst outcome) ;;
         let d := snd outcome in
         durably (matches_operation (t_operation (d_terminal d))
                  && terminal_matches_plan (d_terminal d) (b_plan b) && negb (retains_wrongly d))
           (finish_dispatch operation b held g d)
     end).

(** From the intent on. *)
Definition commit {A} (operation : AccountAuditOperation) (b : Prepared) : stmt A :=
  generation <- act (AppendIntent (b_intent b)) ;;
  match generation with
  | None => audit_fatal true
  | Some generation =>
      g <- insert_pending operation b generation {| sequence := 0; completed := [] |} ;;
      post <- (if has_post_intent hooks
               then try_ (act (HookPostIntent (b_plan b) (b_admission b))) (audit_fatal true)
               else pure nothing_prepared) ;;
      spooled <- publish_spool operation b post g ;;
      match terminal_without_dispatch post with
      | Some t => stop_before_dispatch operation b (snd spooled) (fst spooled) post t
      | None => dispatch operation b (snd spooled) (fst spooled)
      end
  end.

Definition body {A} : stmt A :=
  match WriteOp.audit (q_operation request) with
  | None => audit_fatal false
  | Some operation =>
      require well_formed_call false
        (if q_dry_run request then dry_run
         else
           require has_foundation false
             (b <- try_ (prepare operation) (return_ rejected_silently) ;;
              try_ (commit operation b) (audit_fatal true)))
  end.

(** The outer [try]: an exception before the intent rejects the request. *)
Definition run : prog WriteKernelResult :=
  pbind (@body Empty_set) (fun c =>
    match c with
    | Value impossible => match impossible with end
    | Return r => Ret r
    | Raise => Ret rejected_silently
    end).

End kernel.
