(* ===== verification/IdempotencyFacts.v ===== *)
(** Properties of the snapshots of [IdempotencyStore]: what a canonical
    snapshot is, the space it reserves, lookup, and the transitions. *)
From Stdlib Require Import Permutation Sorted.
From S2P Require Import Prelude Json DecimalText Utf8 CanonicalJson Operation DestructivePlan.
From S2P Require Import M6Domain M6Audit AuditSchema AuditLog AuditSamples IdempotencyStore.
Import Audit.

(** * Sizes of canonical texts *)

Definition esize (v : json) : Z := str_len (emit v).

Definition total (l : list Z) : Z := fold_right Z.add 0 l.

Definition commas (n : nat) : Z := Z.of_nat (Nat.pred n).

Lemma canonical_ok v : canonicalizable v = true -> canonical_json v = Ok (emit v).
Proof. intros H. unfold canonical_json. pose proof (append_value_spec v "") as A. now rewrite H in A. Qed.

Lemma joined_size first l :
  str_len (joined first l) = total (map str_len l)
    + (if first then commas (List.length l) else Z.of_nat (List.length l)).
Proof.
  revert first. induction l as [|x l IH]; intros first; [destruct first; reflexivity|].
  cbn [joined map total fold_right List.length].
  rewrite !str_len_app, IH. fold (total (map str_len l)).
  destruct first; unfold commas; cbn [Nat.pred]; change (str_len "") with 0;
    change (str_len ",") with 1; destruct l; cbn [List.length Nat.pred]; lia.
Qed.

Lemma total_perm l l' : Permutation l l' -> total l = total l'.
Proof. unfold total. induction 1; cbn [fold_right] in *; lia. Qed.

Lemma esize_array l : esize (JArray l) = 2 + total (map esize l) + commas (List.length l).
Proof.
  unfold esize. cbn [emit]. rewrite !str_len_app, joined_size, map_map, length_map.
  change (str_len "[") with 1. change (str_len "]") with 1. unfold commas. lia.
Qed.

Definition member_size (kv : string * json) : Z := str_len (quoted (fst kv)) + 1 + esize (snd kv).

Lemma esize_object m : esize (JObject m) = 2 + total (map member_size m) + commas (List.length m).
Proof.
  unfold esize. rewrite emit_object, !str_len_app, joined_size, map_map, length_map.
  rewrite <- (Permutation_length (sort_members_perm m)).
  rewrite (total_perm (map (fun x => str_len (member_text x)) (sort_members m)) (map member_size m)).
  - change (str_len "{") with 1. change (str_len "}") with 1. unfold commas. lia.
  - rewrite (map_ext _ member_size).
    + apply Permutation_map. symmetry. apply sort_members_perm.
    + intros [k v]. unfold member_text, member_size, esize. cbn [fst snd]. rewrite !str_len_app.
      change (str_len ":") with 1. lia.
Qed.

Lemma esize_pos v : canonicalizable v = true -> 1 <= esize v.
Proof.
  intros H. unfold esize. pose proof (emit_starts v H) as S. unfold starts_value in S.
  destruct (emit v); [tauto|]. unfold str_len. cbn. lia.
Qed.

(** * Sizes of entries *)

Lemma mutable_size a b c :
  esize (mutable_json a b c) = esize a + esize b + esize c + esize (mutable_json JNull JNull JNull) - 12.
Proof.
  unfold mutable_json. unfold jobject. cbn -[esize Z.add Z.sub].
  rewrite !esize_object. cbn [map member_size total fold_right fst snd].
  change (esize JNull) with 4. unfold member_size; cbn [fst snd]. change (esize JNull) with 4. cbn [List.length]. ring.
Qed.

(** The charge is the growth of the three mutable members. *)
Lemma charge_spec e charge :
  mutable_charge e = Some charge <->
  canonicalizable (temporary_message_ids e) = true
  /\ canonicalizable (forward_progress e) = true
  /\ canonicalizable (json_or_null (terminal e)) = true
  /\ charge = esize (temporary_message_ids e) + esize (forward_progress e)
              + esize (json_or_null (terminal e)) - 8
  /\ 0 <= charge.
Proof.
  unfold mutable_charge. rewrite (canonical_ok (mutable_json (JArray []) (JArray []) JNull) eq_refl).
  set (c := mutable_json (temporary_message_ids e) (forward_progress e) (json_or_null (terminal e))).
  assert (canonicalizable c = canonicalizable (forward_progress e)
            && (canonicalizable (temporary_message_ids e)
                && (canonicalizable (json_or_null (terminal e)) && true))) as C by reflexivity.
  pose proof (mutable_size (JArray []) (JArray []) JNull) as S1.
  pose proof (mutable_size (temporary_message_ids e) (forward_progress e) (json_or_null (terminal e))) as S2.
  fold c in S2. unfold esize at 1 in S1. unfold esize at 1 in S2.
  change (esize (JArray [])) with 2 in S1. change (esize JNull) with 4 in S1.
  generalize dependent (esize (mutable_json JNull JNull JNull)).
  generalize dependent (str_len (emit (mutable_json (JArray []) (JArray []) JNull))).
  intros base k S1 S2.
  destruct (canonical_json c) as [t|x] eqn:E.
  - apply canonical_json_emit in E as [K Et]. subst t. rewrite C in K. bool_split.
    destruct (Z.ltb_spec (str_len (emit c)) base);
      [split; [discriminate | intros (_ & _ & _ & ? & ?); lia]|].
    split.
    + intros Q. apply (f_equal (fun o => match o with Some z => z | None => 0 end)) in Q.
      do 3 (split; [assumption|]). clear C. lia.
    + intros (_ & _ & _ & Q & _). apply (f_equal Some). clear C. lia.
  - split; [discriminate|]. intros (A & B & D & _). rewrite A, B, D in C.
    rewrite (canonical_ok c C) in E. discriminate.
Qed.

Definition spool_value (e : IdempotencyEntry) : json :=
  match spool e with Some s => spool_json s | None => JNull end.

(** The members no transition changes. *)
Definition fixed_size (e : IdempotencyEntry) : Z :=
  str_len (quoted (key_hash e)) + str_len (quoted (request_fingerprint e))
  + str_len (quoted (account_audit_operation_name (operation e)))
  + str_len (quoted (entry_invocation_id e)) + str_len (to_string (entry_audit_generation e))
  + str_len (to_string (created_at e)) + str_len (to_string (expires_at e)) + esize (plan e).

Definition entry_names_size : Z := 2 + commas 14 + 14 + total (map (fun n => str_len (quoted n)) entry_fields).

Lemma entry_size e :
  esize (entry_json e) =
  entry_names_size + fixed_size e + str_len (quoted (state_name (state e)))
  + str_len (to_string (reserved_terminal_bytes e)) + esize (temporary_message_ids e)
  + esize (forward_progress e) + esize (spool_value e) + esize (json_or_null (terminal e)).
Proof.
  unfold entry_json. fold (spool_value e).
  unfold jobject. cbn -[esize Z.add Z.sub spool_value state_name quoted account_audit_operation_name].
  rewrite esize_object. unfold member_size, entry_names_size, fixed_size, entry_fields.
  cbn [map total fold_right fst snd List.length].
  change (esize (JString (key_hash e))) with (str_len (quoted (key_hash e))).
  change (esize (JString (request_fingerprint e))) with (str_len (quoted (request_fingerprint e))).
  change (esize (JString (account_audit_operation_name (operation e))))
    with (str_len (quoted (account_audit_operation_name (operation e)))).
  change (esize (JString (entry_invocation_id e))) with (str_len (quoted (entry_invocation_id e))).
  change (esize (JString (state_name (state e)))) with (str_len (quoted (state_name (state e)))).
  change (esize (JUnsigned (entry_audit_generation e)))
    with (str_len (to_string (entry_audit_generation e))).
  change (esize (JUnsigned (created_at e))) with (str_len (to_string (created_at e))).
  change (esize (JUnsigned (expires_at e))) with (str_len (to_string (expires_at e))).
  change (esize (JUnsigned (reserved_terminal_bytes e)))
    with (str_len (to_string (reserved_terminal_bytes e))).
  lia.
Qed.

Lemma entry_canonicalizable e :
  canonicalizable (entry_json e) = true <->
  valid_utf8 (key_hash e) = true /\ valid_utf8 (request_fingerprint e) = true
  /\ valid_utf8 (entry_invocation_id e) = true /\ canonicalizable (plan e) = true
  /\ canonicalizable (temporary_message_ids e) = true
  /\ canonicalizable (forward_progress e) = true /\ canonicalizable (spool_value e) = true
  /\ canonicalizable (json_or_null (terminal e)) = true.
Proof.
  assert (valid_utf8 (account_audit_operation_name (operation e)) = true) as O.
  { generalize (operation e). apply enum_forall. vm_compute. reflexivity. }
  assert (valid_utf8 (state_name (state e)) = true) as S by (destruct (state e); reflexivity).
  assert (canonicalizable (entry_json e) =
    (canonicalizable (forward_progress e) && (valid_utf8 (entry_invocation_id e)
     && (valid_utf8 (key_hash e) && (valid_utf8 (account_audit_operation_name (operation e))
     && (canonicalizable (plan e) && (valid_utf8 (request_fingerprint e)
     && (canonicalizable (spool_value e) && (valid_utf8 (state_name (state e))
     && (canonicalizable (temporary_message_ids e)
     && (canonicalizable (json_or_null (terminal e)) && true))))))))))) as -> by reflexivity.
  rewrite O, S, andb_true_r. cbn [andb]. rewrite !andb_true_iff. tauto.
Qed.

(** * Canonical snapshots *)

Definition charge (e : IdempotencyEntry) : Z :=
  esize (temporary_message_ids e) + esize (forward_progress e) + esize (json_or_null (terminal e)) - 8.

(** The bytes still reserved for an entry. *)
Definition reserved (e : IdempotencyEntry) : Z :=
  match state e with Pending => reserved_terminal_bytes e - charge e | Completed => 0 end.

(** What an entry takes of the store, reservation included. *)
Definition footprint (e : IdempotencyEntry) : Z := esize (entry_json e) + reserved e.

Lemma reservation_bounds op : 32768 <= account_audit_terminal_reservation op <= 4194304.
Proof.
  assert ((32768 <=? account_audit_terminal_reservation op)
          && (account_audit_terminal_reservation op <=? 4194304) = true) as H.
  { revert op. apply enum_forall. vm_compute. reflexivity. }
  bool_split. z_bool. lia.
Qed.

Lemma valid_entry_charge e account :
  valid_entry e account = true ->
  mutable_charge e = Some (charge e) /\ 0 <= charge e
  /\ 0 <= reserved e <= 4194304
  /\ match state e with
     | Pending => reserved_terminal_bytes e = account_audit_terminal_reservation (operation e)
                  /\ terminal e = None
     | Completed => reserved_terminal_bytes e = 0 /\ has_value (terminal e) = true
     end.
Proof.
  unfold valid_entry. destruct (_ || _); [discriminate|].
  destruct (mutable_charge e) as [c|] eqn:C; [|discriminate].
  apply charge_spec in C as (_ & _ & _ & E & N). fold (charge e) in E. subst c.
  pose proof (reservation_bounds (operation e)). unfold reserved.
  destruct (state e); intros H'; bool_split; z_bool.
  - repeat (split; [reflexivity || lia|]). now destruct (terminal e).
  - repeat (split; [reflexivity || lia|]). now destruct (terminal e).
Qed.

Fixpoint ascending_from (p : option string) (l : list IdempotencyEntry) : Prop :=
  match l with
  | [] => True
  | e :: r =>
      match p with Some k => str_lt k (key_hash e) | None => True end
      /\ ascending_from (Some (key_hash e)) r
  end.

(** What [canonicalize_snapshot] accepts. *)
Record canonical_entries (account : string) (l : list IdempotencyEntry) : Prop := {
  ce_count : (List.length l <= kIdempotencyStoreMaximumEntries)%nat;
  ce_valid : Forall (fun e => valid_entry e account = true) l;
  ce_sorted : ascending_from None l;
  ce_invocations : NoDup (map entry_invocation_id l);
  ce_text : Forall (fun e => canonicalizable (entry_json e) = true) l;
  ce_space : esize (snapshot_document l) + total (map reserved l) <= kIdempotencyStoreMaximumBytes
}.

Lemma total_nonneg l : Forall (fun z => 0 <= z) l -> 0 <= total l.
Proof. unfold total. induction 1; cbn [fold_right]; lia. Qed.

Lemma reserved_nonneg account l :
  Forall (fun e => valid_entry e account = true) l -> 0 <= total (map reserved l).
Proof.
  intros F. apply total_nonneg, Forall_map. eapply Forall_impl; [|exact F].
  intros e V. apply valid_entry_charge in V. lia.
Qed.

(** The accumulator knows the invocations of its pins. *)
Definition acc_ok (acc : Accumulated) : Prop :=
  0 <= remaining acc <= kIdempotencyStoreMaximumBytes
  /\ Forall (fun p => In (pin_invocation_id p) (invocations acc)) (seen_pins acc).

Definition fits (acc : Accumulated) (l : list IdempotencyEntry) : Prop :=
  ascending_from (prior acc) l /\ NoDup (map entry_invocation_id l)
  /\ Forall (fun e => ~ In (entry_invocation_id e) (invocations acc)) l
  /\ remaining acc + total (map reserved l) <= kIdempotencyStoreMaximumBytes.

Definition pushed (acc : Accumulated) (e : IdempotencyEntry) : Accumulated :=
  {| prior := Some (key_hash e); remaining := remaining acc + reserved e;
     invocations := entry_invocation_id e :: invocations acc;
     seen_pins := entry_pin e :: seen_pins acc |}.

Lemma accumulate_spec account acc e :
  acc_ok acc ->
  accumulate account acc e =
  if valid_entry e account
     && match prior acc with Some p => str_ltb p (key_hash e) | None => true end
     && negb (str_in (entry_invocation_id e) (invocations acc))
     && (remaining acc + reserved e <=? kIdempotencyStoreMaximumBytes)
  then Some (pushed acc e) else None.
Proof.
  intros [R P]. unfold accumulate.
  destruct (valid_entry e account) eqn:V; [|reflexivity].
  destruct (valid_entry_charge _ _ V) as (C & N & B & S). rewrite C. cbn [negb orb andb].
  replace (match prior acc with Some p => negb (str_ltb p (key_hash e)) | None => false end)
    with (negb (match prior acc with Some p => str_ltb p (key_hash e) | None => true end))
    by (destruct (prior acc); reflexivity).
  destruct (match prior acc with Some _ => _ | None => _ end); [|reflexivity]. cbn [negb orb andb].
  destruct (str_in (entry_invocation_id e) (invocations acc)) eqn:I; [reflexivity|]. cbn [negb orb andb].
  assert (existsb (eqb (entry_pin e)) (seen_pins acc) = false) as ->.
  { destruct (existsb _ _) eqn:X; [|reflexivity]. apply existsb_exists in X as (p & Hp & X).
    apply eqb_eq in X. subst p. rewrite Forall_forall in P. specialize (P _ Hp). cbn in P.
    apply str_in_In in P. congruence. }
  assert (match state e with Pending => u64 (reserved_terminal_bytes e - charge e) | Completed => 0 end
          = reserved e) as ->.
  { unfold reserved in *. destruct (state e); [|reflexivity]. apply u64_small. unfold u64_max. lia. }
  cbn zeta. unfold kIdempotencyStoreMaximumBytes in *.
  rewrite (u64_small (16 * 1024 * 1024 - reserved e)) by (unfold u64_max; lia).
  destruct (Z.ltb_spec (16 * 1024 * 1024 - reserved e) (remaining acc)),
    (Z.leb_spec (remaining acc + reserved e) (16 * 1024 * 1024)); try lia; [reflexivity|].
  rewrite u64_small by (unfold u64_max; lia). reflexivity.
Qed.

Lemma accumulate_all_spec account l : forall acc,
  acc_ok acc ->
  (Forall (fun e => valid_entry e account = true) l /\ fits acc l
   -> exists acc', accumulate_all account acc l = Some acc'
                   /\ remaining acc' = remaining acc + total (map reserved l))
  /\ (forall acc', accumulate_all account acc l = Some acc' ->
      Forall (fun e => valid_entry e account = true) l /\ fits acc l
      /\ remaining acc' = remaining acc + total (map reserved l)).
Proof.
  induction l as [|e l IH]; intros acc A.
  - split; [intros _; exists acc; cbn; split; [reflexivity | lia]|].
    intros acc' [= <-]. destruct A as [A _]. split; [constructor|]. split; [|cbn; lia].
    split; [exact I|]. split; [constructor|]. split; [constructor|]. cbn [map total fold_right]. lia.
  - cbn [accumulate_all]. rewrite (accumulate_spec account acc e A).
    set (po := match prior acc with Some p => str_ltb p (key_hash e) | None => true end).
    assert (po = true <-> match prior acc with Some k => str_lt k (key_hash e) | None => True end) as PO
      by (unfold po, str_lt; destruct (prior acc); [reflexivity | tauto]).
    assert (acc_ok acc -> valid_entry e account = true ->
            remaining acc + reserved e <= kIdempotencyStoreMaximumBytes -> acc_ok (pushed acc e)) as AP.
    { intros [R P] V L. apply valid_entry_charge in V as (_ & _ & B & _).
      split; cbn [remaining invocations seen_pins pushed]; [lia|].
      constructor; [now left|]. eapply Forall_impl; [|exact P]. intros p Hp. now right. }
    assert (forall V, Forall (fun e => valid_entry e account = true) V -> 0 <= total (map reserved V))
      as NN by (intros V F; eapply reserved_nonneg, F).
    split.
    + intros [F (Q1 & Q2 & Q3 & Q4)]. inversion_clear F as [|? ? V F'].
      inversion_clear Q3 as [|? ? Q3e Q3l]. cbn [map] in *. inversion_clear Q2 as [|? ? N2 Q2'].
      destruct Q1 as [Q1 Q1']. apply PO in Q1. rewrite V, Q1. cbn [andb].
      destruct (str_in _ _) eqn:I; [apply str_in_In in I; tauto|]. cbn [negb andb].
      change (total (reserved e :: map reserved l)) with (reserved e + total (map reserved l)) in *.
      specialize (NN l F'). destruct (Z.leb_spec (remaining acc + reserved e) kIdempotencyStoreMaximumBytes);
        [|lia].
      destruct (IH (pushed acc e) (AP A V ltac:(assumption))) as [IH1 _]. destruct IH1 as (acc' & E & R).
      { split; [exact F'|]. unfold fits. cbn [prior invocations remaining pushed].
        split; [exact Q1'|]. split; [exact Q2'|]. split; [|lia].
        apply Forall_forall. intros x Hx [K|K].
        - apply N2. apply in_map_iff. exists x. split; congruence.
        - rewrite Forall_forall in Q3l. exact (Q3l x Hx K). }
      exists acc'. split; [exact E|]. cbn [remaining pushed] in R. lia.
    + intros acc' H. destruct (valid_entry e account) eqn:V; [|discriminate]. cbn [andb] in H.
      destruct po eqn:P; [|discriminate]. cbn [andb] in H.
      destruct (str_in _ _) eqn:I; [discriminate|]. cbn [negb andb] in H.
      destruct (Z.leb_spec (remaining acc + reserved e) kIdempotencyStoreMaximumBytes) as [L|];
        [|discriminate].
      destruct (IH (pushed acc e) (AP A eq_refl L)) as [_ IH2]. destruct (IH2 acc' H) as (F & (Q1 & Q2 & Q3 & Q4) & R).
      cbn [prior invocations remaining pushed] in *. cbn [map].
      change (total (reserved e :: map reserved l)) with (reserved e + total (map reserved l)).
      split; [now constructor|]. split; [|lia]. unfold fits. cbn [map].
      change (total (reserved e :: map reserved l)) with (reserved e + total (map reserved l)).
      rewrite Forall_forall in Q3.
      split; [split; [apply PO; reflexivity | exact Q1]|].
      split; [constructor; [|exact Q2]|split; [|lia]].
      * intros K. apply in_map_iff in K as (x & K & Hx). apply (Q3 x Hx). left. congruence.
      * constructor; [intros K; apply str_in_In in K; congruence|].
        apply Forall_forall. intros x Hx K. apply (Q3 x Hx). now right.
Qed.

Definition document_names_size : Z := 2 + commas 2 + 2 + str_len (quoted "entries")
  + str_len (quoted "schema_version") + 1.

Lemma document_size l :
  esize (snapshot_document l) =
  document_names_size + 2 + commas (List.length l) + total (map (fun e => esize (entry_json e)) l).
Proof.
  unfold snapshot_document, jobject. cbn -[esize Z.add entry_json]. rewrite esize_object.
  unfold member_size, document_names_size. cbn [map total fold_right fst snd List.length].
  rewrite esize_array, map_map, length_map. change (esize (JInteger 1)) with 1. ring.
Qed.

Lemma document_text l :
  canonicalizable (snapshot_document l) = true <->
  Forall (fun e => canonicalizable (entry_json e) = true) l.
Proof.
  assert (canonicalizable (snapshot_document l) = forallb canonicalizable (map entry_json l) && true)
    as -> by reflexivity.
  rewrite andb_true_r, forallb_forall, Forall_forall. split.
  - intros H e He. apply H. now apply in_map.
  - intros H v Hv. apply in_map_iff in Hv as (e & <- & He). auto.
Qed.

Lemma nothing_ok : acc_ok nothing_accumulated.
Proof. split; cbn; [unfold kIdempotencyStoreMaximumBytes; lia | constructor]. Qed.

Lemma esize_nonneg v : 0 <= esize v.
Proof. apply str_len_nonneg. Qed.

(** [canonicalize_snapshot] decides [canonical_entries] and prints the
    document. *)
Lemma canonicalize_iff account l s :
  canonicalize_snapshot l account = Ok s <->
  canonical_entries account l
  /\ s = {| entries := l; canonical_bytes := emit (snapshot_document l) |}.
Proof.
  unfold canonicalize_snapshot. destruct (accumulate_all_spec account l _ nothing_ok) as [A1 A2]. split.
  - intros H. apply check_seq in H as [C H]. apply Nat.leb_le in C. inv_bind H.
    destruct (accumulate_all _ _ _) as [acc|] eqn:A; [|discriminate]. injection E as <-.
    destruct (A2 acc eq_refl) as (F & (Q1 & Q2 & _) & R). change (remaining nothing_accumulated) with 0 in R.
    destruct (canonical_json _) as [t|] eqn:T; [|discriminate].
    apply check_seq in H as [S H]. apply ok_inj in H. apply canonical_json_emit in T as [T ->].
    pose proof (reserved_nonneg _ _ F) as NR. pose proof (str_len_nonneg (emit (snapshot_document l))).
    bool_split. z_bool. rewrite u64_small in *
      by (unfold kIdempotencyStoreMaximumBytes, u64_max in *; lia).
    split; [|now symmetry]. constructor; try assumption; [now apply document_text|].
    unfold esize. lia.
  - intros [[C V S N T P] ->]. pose proof (reserved_nonneg _ _ V) as NR.
    pose proof (esize_nonneg (snapshot_document l)) as NE.
    destruct A1 as (acc & A & R).
    { split; [exact V|]. split; [exact S|]. split; [exact N|]. split; [now apply Forall_forall|].
      change (remaining nothing_accumulated) with 0. lia. }
    change (remaining nothing_accumulated) with 0 in R.
    apply Nat.leb_le in C. rewrite C, A. cbn [check bind of_option].
    rewrite (canonical_ok _ (proj2 (document_text l) T)).
    fold (esize (snapshot_document l)).
    rewrite u64_small by (unfold kIdempotencyStoreMaximumBytes, u64_max in *; lia).
    destruct (Z.ltb_spec kIdempotencyStoreMaximumBytes (esize (snapshot_document l))); [lia|].
    destruct (Z.ltb_spec (kIdempotencyStoreMaximumBytes - esize (snapshot_document l)) (remaining acc));
      [lia | reflexivity].
Qed.

(** The space a list of entries takes, reservations included. *)
Lemma space_footprints l :
  esize (snapshot_document l) + total (map reserved l) =
  document_names_size + 2 + commas (List.length l) + total (map footprint l).
Proof.
  rewrite document_size.
  assert (total (map (fun e => esize (entry_json e)) l) + total (map reserved l)
          = total (map footprint l)) as E.
  { unfold total. induction l as [|e l IH]; [reflexivity|]. cbn [map fold_right]. unfold footprint at 1. lia. }
  lia.
Qed.

(** * Replacing, inserting and removing entries *)

Lemma total_app a b : total (a ++ b) = total a + total b.
Proof. unfold total. induction a as [|x a IH]; cbn [app fold_right]; lia. Qed.

Lemma nth_split_replace n e x (l : list IdempotencyEntry) :
  nth_error l n = Some e -> exists a b, l = a ++ e :: b /\ List.length a = n
    /\ replace_at n x l = a ++ x :: b /\ erase_at n l = a ++ b.
Proof.
  intros H. apply nth_error_split in H as (a & b & -> & L). exists a, b.
  unfold replace_at, erase_at. rewrite <- L.
  rewrite firstn_app, firstn_all, Nat.sub_diag, app_nil_r.
  rewrite skipn_app, skipn_all2 by lia. replace (S (List.length a) - List.length a)%nat with 1%nat by lia.
  cbn. auto.
Qed.

Lemma ascending_app p a b :
  ascending_from p (a ++ b) <->
  ascending_from p a
  /\ ascending_from (match rev a with e :: _ => Some (key_hash e) | [] => p end) b.
Proof.
  revert p. induction a as [|e a IH]; intros p; [cbn; tauto|].
  cbn [app ascending_from rev]. rewrite IH. destruct (rev a) eqn:R; cbn [app]; tauto.
Qed.

Lemma ascending_replace p a e e' b :
  key_hash e' = key_hash e -> ascending_from p (a ++ e :: b) -> ascending_from p (a ++ e' :: b).
Proof. intros K. rewrite !ascending_app. cbn [ascending_from]. rewrite K. tauto. Qed.

(** Swapping one entry for another with the same identity that takes no more
    space keeps a snapshot canonical. *)
Lemma canonical_replace account l n e e' :
  canonical_entries account l -> nth_error l n = Some e ->
  key_hash e' = key_hash e -> entry_invocation_id e' = entry_invocation_id e ->
  valid_entry e' account = true -> canonicalizable (entry_json e') = true ->
  footprint e' <= footprint e ->
  canonical_entries account (replace_at n e' l).
Proof.
  intros [C V S N T P] H K I V' T' F.
  destruct (nth_split_replace n e e' l H) as (a & b & -> & _ & -> & _).
  rewrite space_footprints in P. rewrite map_app in *. cbn [map] in *.
  rewrite !length_app in *. cbn [List.length] in *.
  constructor.
  - rewrite length_app. exact C.
  - apply Forall_app in V as [V1 V2]. inversion_clear V2. apply Forall_app. split; [|constructor]; assumption.
  - exact (ascending_replace _ _ _ _ _ K S).
  - rewrite map_app. cbn [map]. now rewrite I.
  - apply Forall_app in T as [T1 T2]. inversion_clear T2. apply Forall_app. split; [|constructor]; assumption.
  - rewrite space_footprints, map_app, length_app. cbn [map List.length].
    rewrite total_app in *. unfold total in *. cbn [fold_right] in *. lia.
Qed.

(** * The reservation *)

(** The digits of a reservation outweigh the longer state name. *)
Lemma reservation_digits op :
  5 <= str_len (to_string (account_audit_terminal_reservation op)).
Proof.
  assert ((5 <=? str_len (to_string (account_audit_terminal_reservation op))) = true) as H.
  { revert op. apply enum_forall. vm_compute. reflexivity. }
  z_bool. exact H.
Qed.

Lemma footprint_pending e account :
  valid_entry e account = true -> state e = Pending ->
  footprint e = entry_names_size + fixed_size e + esize (spool_value e) + 17
    + str_len (to_string (account_audit_terminal_reservation (operation e)))
    + account_audit_terminal_reservation (operation e).
Proof.
  intros V S. apply valid_entry_charge in V as (_ & _ & _ & R). rewrite S in R.
  destruct R as [R _]. unfold footprint, reserved, charge. rewrite entry_size, S, R.
  change (str_len (quoted (state_name Pending))) with 9. lia.
Qed.

(** A pending entry's footprint does not depend on its progress. *)
Lemma with_progress_fits e ids items account :
  valid_entry e account = true -> state e = Pending ->
  valid_entry (with_progress e ids items) account = true ->
  footprint (with_progress e ids items) = footprint e.
Proof.
  intros V S V'. rewrite (footprint_pending _ _ V S), (footprint_pending _ _ V' S). reflexivity.
Qed.

Lemma with_terminal_valid e t account :
  valid_entry e account = true ->
  validate_account_audit_persisted_terminal (operation e) t (plan e) account = true ->
  match mutable_charge (with_terminal e t) with
  | Some c => c <=? account_audit_terminal_reservation (operation e)
  | None => false
  end = true ->
  valid_entry (with_terminal e t) account = true.
Proof.
  unfold valid_entry. intros V T C.
  cbn [key_hash request_fingerprint operation entry_invocation_id entry_audit_generation created_at
    expires_at plan temporary_message_ids forward_progress spool terminal state
    reserved_terminal_bytes with_terminal] in *.
  destruct (mutable_charge (with_terminal e t)); [|discriminate].
  rewrite T, C.
  change (validate_account_audit_persisted_temporary_ids (operation e) (JArray []) (plan e)) with true.
  change (validate_account_audit_persisted_forward_progress (operation e) (JArray []) (plan e)) with true.
  destruct (valid_digest (key_hash e)), (valid_digest (request_fingerprint e)),
    (WriteOp.idempotent (WriteOp.of_audit (operation e))), (valid_invocation_id (entry_invocation_id e)),
    (entry_audit_generation e =? 0), (kIdempotencyMaximumUnixSeconds <? created_at e),
    (kIdempotencyMaximumUnixSeconds <? expires_at e),
    (kIdempotencyMaximumUnixSeconds - kIdempotencyRetentionSeconds <? created_at e),
    (expires_at e =? u64 (created_at e + kIdempotencyRetentionSeconds)),
    (valid_plan (operation e) (plan e) account); try discriminate V.
  destruct (match spool e with Some _ => _ | None => _ end); [|reflexivity].
  cbn [negb orb] in V.
  destruct (validate_account_audit_persisted_temporary_ids _ _ _),
    (validate_account_audit_persisted_forward_progress _ _ _); discriminate V.
Qed.

Lemma with_terminal_fits e t account :
  valid_entry e account = true -> state e = Pending ->
  valid_entry (with_terminal e t) account = true ->
  charge (with_terminal e t) <= account_audit_terminal_reservation (operation e) ->
  footprint (with_terminal e t) <= footprint e.
Proof.
  intros V S V' C. rewrite (footprint_pending _ _ V S). unfold footprint, charge, reserved in *.
  rewrite entry_size.
  cbn [state with_terminal reserved_terminal_bytes temporary_message_ids forward_progress terminal
    json_or_null] in *.
  change (fixed_size (with_terminal e t)) with (fixed_size e).
  change (spool_value (with_terminal e t)) with (spool_value e).
  change (str_len (quoted (state_name Completed))) with 11. change (str_len (to_string 0)) with 1.
  change (esize (JArray [])) with 2 in *. pose proof (reservation_digits (operation e)). lia.
Qed.

(** The completed entry of a pending one of a canonical snapshot. *)
Lemma complete_canonical account l n e t e' :
  canonical_entries account l -> nth_error l n = Some e ->
  complete_transition t account e = Ok e' ->
  canonical_entries account (replace_at n e' l).
Proof.
  intros L H C. pose proof (ce_valid _ _ L) as V. rewrite Forall_forall in V.
  specialize (V e (nth_error_In _ _ H)). pose proof (ce_text _ _ L) as T. rewrite Forall_forall in T.
  specialize (T e (nth_error_In _ _ H)). unfold complete_transition in C.
  apply check_seq in C as [C1 C]. destruct (state e) eqn:S.
  - apply check_seq in C as [C2 C]. apply ok_inj in C as <-.
    pose proof (with_terminal_valid _ _ _ V C1 C2) as V'.
    destruct (valid_entry_charge _ _ V') as (K & _). rewrite K in C2. apply Z.leb_le in C2.
    apply charge_spec in K as (_ & _ & K & _).
    apply (canonical_replace _ _ _ e); auto.
    + apply entry_canonicalizable. apply entry_canonicalizable in T. cbn in *. tauto.
    + now apply (with_terminal_fits _ _ account).
  - apply check_seq in C as [_ C]. apply ok_inj in C as <-.
    apply (canonical_replace _ _ _ e); auto. lia.
Qed.

(** * Removal *)

Lemma ascending_weaken p e b :
  match p with Some k => str_lt k (key_hash e) | None => True end ->
  ascending_from (Some (key_hash e)) b -> ascending_from p b.
Proof.
  destruct b as [|x b]; [auto|]. cbn [ascending_from]. intros H [K B]. split; [|exact B].
  destruct p as [k|]; [exact (str_ltb_trans _ _ _ H K) | exact I].
Qed.

Lemma footprint_nonneg e account : valid_entry e account = true -> 0 <= footprint e.
Proof.
  intros V. apply valid_entry_charge in V. pose proof (esize_nonneg (entry_json e)). unfold footprint. lia.
Qed.

Lemma canonical_remove account a e b :
  canonical_entries account (a ++ e :: b) -> canonical_entries account (a ++ b).
Proof.
  intros [C V S N T P]. rewrite space_footprints in P. rewrite !length_app in *.
  rewrite map_app in *. cbn [map List.length] in *.
  pose proof (proj1 (Forall_app _ _ _) V) as [V1 V2]. inversion_clear V2 as [|? ? Ve V3].
  pose proof (proj1 (Forall_app _ _ _) T) as [T1 T2]. inversion_clear T2.
  constructor.
  - rewrite length_app. lia.
  - apply Forall_app. auto.
  - apply ascending_app. apply ascending_app in S as [S1 S2]. destruct S2 as [S2 S3].
    split; [exact S1 | exact (ascending_weaken _ _ _ S2 S3)].
  - rewrite map_app. exact (NoDup_remove_1 _ _ _ N).
  - apply Forall_app. auto.
  - rewrite space_footprints, map_app, length_app. rewrite total_app in *.
    apply footprint_nonneg in Ve. unfold total, commas in *. cbn [fold_right] in *. lia.
Qed.

Lemma canonical_filter account f l :
  canonical_entries account l -> canonical_entries account (filter f l).
Proof.
  enough (forall l a, canonical_entries account (a ++ l) -> canonical_entries account (a ++ filter f l))
    as H by apply (H l []).
  clear l. induction l as [|e l IH]; intros a H; [exact H|]. cbn [filter].
  destruct (f e).
  - replace (a ++ e :: filter f l) with ((a ++ [e]) ++ filter f l) by now rewrite <- app_assoc.
    apply IH. now rewrite <- app_assoc.
  - apply IH. exact (canonical_remove _ _ _ _ H).
Qed.

Lemma canonical_erase account n e l :
  nth_error l n = Some e -> canonical_entries account l -> canonical_entries account (erase_at n l).
Proof.
  intros H. destruct (nth_split_replace n e e l H) as (a & b & -> & _ & _ & ->). apply canonical_remove.
Qed.

(** * Lookup *)

Definition below (key : string) (l : list IdempotencyEntry) : list IdempotencyEntry :=
  filter (fun e => str_ltb (key_hash e) key) l.

(** Sorted keys: an entry is below the key exactly when its position is. *)
Lemma ascending_all p l :
  ascending_from p l -> Forall (fun e => match p with Some k => str_lt k (key_hash e) | None => True end) l.
Proof.
  revert p. induction l as [|e l IH]; intros p; [constructor|]. intros [H L].
  constructor; [exact H|]. apply IH in L. eapply Forall_impl; [|exact L]. cbn. intros x K.
  destruct p; [exact (str_ltb_trans _ _ _ H K) | exact I].
Qed.

Lemma not_below key e p l :
  str_ltb (key_hash e) key = false -> ascending_from p (e :: l) -> below key (e :: l) = [].
Proof.
  intros B [_ A]. apply ascending_all in A. unfold below. cbn [filter]. rewrite B.
  induction A as [|x l K A IH]; [reflexivity|]. cbn [filter].
  destruct (str_ltb (key_hash x) key) eqn:X; [|exact IH].
  rewrite (str_ltb_trans _ _ _ K X) in B. discriminate.
Qed.

Lemma below_nth key p l : ascending_from p l -> forall n e,
  nth_error l n = Some e -> (str_ltb (key_hash e) key = true <-> (n < List.length (below key l))%nat).
Proof.
  revert p. induction l as [|x l IH]; intros p A n e H; [destruct n; discriminate|].
  destruct (str_ltb (key_hash x) key) eqn:B.
  - destruct A as [_ A]. unfold below. cbn [filter]. rewrite B. cbn [List.length].
    destruct n as [|n]; cbn in H; [injection H as <-; rewrite B; split; [lia|reflexivity]|].
    specialize (IH _ A n e H). unfold below in IH. rewrite IH. lia.
  - rewrite (not_below key x p l B A). cbn [List.length]. split; [|lia].
    intros K. exfalso. destruct n as [|n]; cbn in H; [injection H as <-; congruence|].
    destruct A as [_ A]. apply ascending_all in A. rewrite Forall_forall in A.
    specialize (A e (nth_error_In _ _ H)). rewrite (str_ltb_trans _ _ _ A K) in B. discriminate.
Qed.

Lemma lower_bound_loop_spec fuel l key p first len :
  ascending_from p l -> (len < fuel)%nat ->
  (first <= List.length (below key l) <= first + len)%nat -> (first + len <= List.length l)%nat ->
  lower_bound_loop fuel l key first len = List.length (below key l).
Proof.
  intros A. revert first len. induction fuel as [|fuel IH]; intros first len F B L; [lia|].
  cbn [lower_bound_loop]. destruct len as [|len]; [lia|].
  set (half := Nat.div2 (S len)). assert (half < S len)%nat by (apply Nat.lt_div2; lia).
  destruct (nth_error l (first + half)) as [e|] eqn:E; [|apply nth_error_None in E; lia].
  pose proof (below_nth key p l A _ e E) as K.
  destruct (str_ltb (key_hash e) key).
  - apply IH; [lia| |lia]. assert (first + half < List.length (below key l))%nat by now apply K. lia.
  - apply IH; [lia| |lia].
    assert (~ (first + half < List.length (below key l)))%nat by (rewrite <- K; discriminate). lia.
Qed.

Lemma below_length key l : (List.length (below key l) <= List.length l)%nat.
Proof. unfold below. induction l as [|e l IH]; cbn; [lia|]. destruct (str_ltb _ _); cbn; lia. Qed.

(** The binary search finds the number of smaller keys. *)
Lemma lower_bound_spec key p l :
  ascending_from p l -> lower_bound l key = List.length (below key l).
Proof.
  intros A. pose proof (below_length key l). unfold lower_bound.
  apply (lower_bound_loop_spec _ _ _ p); [exact A | lia | lia | lia].
Qed.

Lemma key_position p l key : ascending_from p l -> forall i e,
  nth_error l i = Some e -> key_hash e = key -> i = List.length (below key l).
Proof.
  revert p. induction l as [|y l IH]; intros p A i e Hi K; [destruct i; discriminate|].
  destruct (str_ltb (key_hash y) key) eqn:Y.
  - unfold below. cbn [filter]. rewrite Y. destruct A as [_ A]. destruct i as [|i]; cbn in Hi.
    + injection Hi as <-. rewrite K, str_ltb_irrefl in Y. discriminate.
    + cbn [List.length]. f_equal. exact (IH _ A i e Hi K).
  - rewrite (not_below key y p l Y A). destruct i as [|i]; [reflexivity|]. cbn in Hi.
    destruct A as [_ A]. apply ascending_all in A. rewrite Forall_forall in A.
    specialize (A e (nth_error_In _ _ Hi)). unfold str_lt in A. rewrite K in A. congruence.
Qed.

Lemma find_entry_some p l key n e :
  ascending_from p l ->
  (find_entry l key = Some (n, e) <-> nth_error l n = Some e /\ key_hash e = key).
Proof.
  intros A. unfold find_entry. rewrite (lower_bound_spec key p l A). split.
  - destruct (nth_error l _) as [x|] eqn:E; [|discriminate].
    destruct (String.eqb _ _) eqn:K; [|discriminate]. intros [= <- <-]. str_bool. auto.
  - intros [H K]. rewrite <- (key_position p l key A n e H K), H, K, String.eqb_refl. reflexivity.
Qed.

Lemma find_entry_none p l key :
  ascending_from p l -> (find_entry l key = None <-> ~ In key (map key_hash l)).
Proof.
  intros A. destruct (find_entry l key) as [[n e]|] eqn:E.
  - apply (find_entry_some p l key n e A) in E as [E K]. split; [discriminate|].
    intros N. exfalso. apply N. apply in_map_iff. exists e. split; [exact K | exact (nth_error_In _ _ E)].
  - split; [|reflexivity]. intros _ I. apply in_map_iff in I as (e & K & I).
    apply In_nth_error in I as (n & I).
    assert (find_entry l key = Some (n, e)) by (apply (find_entry_some p); auto). congruence.
Qed.

(** * Insertion *)

Lemma below_split p l key :
  ascending_from p l ->
  firstn (List.length (below key l)) l = below key l
  /\ Forall (fun e => str_ltb (key_hash e) key = false) (skipn (List.length (below key l)) l).
Proof.
  revert p. induction l as [|y l IH]; intros p A; [split; [reflexivity | constructor]|].
  destruct (str_ltb (key_hash y) key) eqn:Y.
  - destruct A as [_ A]. destruct (IH _ A) as [F S]. unfold below. cbn [filter]. rewrite Y.
    cbn [List.length firstn skipn]. fold (below key l). rewrite F. auto.
  - rewrite (not_below key y p l Y A). cbn [List.length firstn skipn]. split; [reflexivity|].
    constructor; [exact Y|]. destruct A as [_ A]. apply ascending_all in A.
    eapply Forall_impl; [|exact A]. cbn. intros x K. destruct (str_ltb (key_hash x) key) eqn:X; [|reflexivity].
    rewrite (str_ltb_trans _ _ _ K X) in Y. discriminate.
Qed.

Lemma ascending_insert p l e :
  ascending_from p l -> ~ In (key_hash e) (map key_hash l) ->
  match p with Some k => str_lt k (key_hash e) | None => True end ->
  ascending_from p (insert_at (lower_bound l (key_hash e)) e l).
Proof.
  intros A N P. rewrite (lower_bound_spec _ p l A). unfold insert_at.
  destruct (below_split p l (key_hash e) A) as [F S]. rewrite F.
  rewrite <- (firstn_skipn (List.length (below (key_hash e) l)) l) in A at 1. rewrite F in A.
  apply ascending_app in A as [A1 A2]. apply ascending_app. split; [exact A1|].
  cbn [ascending_from]. split.
  - destruct (rev (below (key_hash e) l)) as [|x r] eqn:R; [exact P|].
    assert (In x (below (key_hash e) l)) as I by (apply in_rev; rewrite R; now left).
    apply filter_In in I as [_ I]. exact I.
  - destruct (skipn (List.length (below (key_hash e) l)) l) as [|x r] eqn:R; [exact I|].
    inversion_clear S as [|? ? X _]. destruct A2 as [_ A2]. split; [|exact A2].
    unfold str_lt. destruct (str_ltb (key_hash e) (key_hash x)) eqn:Y; [reflexivity|].
    exfalso. apply N. apply in_map_iff. exists x. split; [exact (str_ltb_total _ _ X Y)|].
    rewrite <- (firstn_skipn (List.length (below (key_hash e) l)) l), R. apply in_or_app. right. now left.
Qed.

Lemma insert_at_nth n e l : (n <= List.length l)%nat -> nth_error (insert_at n e l) n = Some e.
Proof.
  intros L. unfold insert_at. rewrite nth_error_app2; rewrite length_firstn, Nat.min_l by lia; [|lia].
  now rewrite Nat.sub_diag.
Qed.

Lemma insert_at_In n e l x : In x (insert_at n e l) <-> x = e \/ In x l.
Proof.
  unfold insert_at. rewrite in_app_iff. cbn [In].
  rewrite <- (firstn_skipn n l) at 3. rewrite in_app_iff. intuition congruence.
Qed.

(** * Theorems *)

(** An entry for archiving a chat, and the snapshot that holds it. *)
Definition archive_input : IdempotencyPendingInput :=
  {| p_key_hash := sample_key; p_request_fingerprint := sample_key; p_operation := ChatArchive;
     p_invocation_id := "00112233445566778899aabbccddeeff"; p_audit_generation := 1;
     p_created_at := 1000; p_plan := archive_plan |}.

Definition sample_store : string := "/state/main/idempotency.db".

Definition archive_entry : IdempotencyEntry :=
  match make_idempotency_pending_entry archive_input "main" sample_store with
  | Ok e => e
  | Err _ =>
      {| key_hash := ""; request_fingerprint := ""; operation := Send; state := Pending;
         entry_invocation_id := ""; entry_audit_generation := 0; created_at := 0; expires_at := 0;
         reserved_terminal_bytes := 0; plan := JNull; temporary_message_ids := JNull;
         forward_progress := JNull; spool := None; terminal := None |}
  end.

Lemma archive_snapshot : is_ok (canonicalize_snapshot [archive_entry] "main") = true.
Proof. vm_compute. reflexivity. Qed.

Lemma is_ok_inv {E A} (r : result E A) : is_ok r = true -> exists a, r = Ok a.
Proof. destruct r; [eauto | discriminate]. Qed.

(** A canonical snapshot has at most 10000 entries, their keys strictly
    ascend, no two share an invocation, every entry is valid, and its text with
    everything still reserved for pending entries fits in 16 MiB. *)
Theorem canonical_snapshot_contract l account s :
  canonicalize_snapshot l account = Ok s ->
  entries s = l /\ (List.length l <= kIdempotencyStoreMaximumEntries)%nat
  /\ Sorted.StronglySorted (fun a b => str_lt (key_hash a) (key_hash b)) l
  /\ NoDup (map entry_invocation_id l)
  /\ Forall (fun e => valid_entry e account = true) l
  /\ str_len (canonical_bytes s) + total (map reserved l) <= kIdempotencyStoreMaximumBytes.
Proof.
  intros H. apply canonicalize_iff in H as [[C V S N T P] ->]. cbn [entries canonical_bytes].
  repeat (split; [assumption || reflexivity|]). split; [|auto].
  clear - S. assert (forall p l, ascending_from p l ->
    Sorted.StronglySorted (fun a b => str_lt (key_hash a) (key_hash b)) l) as G; [|exact (G _ _ S)].
  intros p l'. revert p. induction l' as [|e l' IH]; intros p A; constructor.
  - exact (IH _ (proj2 A)).
  - exact (ascending_all (Some (key_hash e)) l' (proj2 A)).
Qed.

Lemma canonical_snapshot_contract_witness :
  exists s, canonicalize_snapshot [archive_entry] "main" = Ok s
    /\ str_len (canonical_bytes s) + total (map reserved [archive_entry])
       <= kIdempotencyStoreMaximumBytes.
Proof.
  destruct (is_ok_inv _ archive_snapshot) as (s & E). exists s. split; [exact E|].
  exact (proj2 (proj2 (proj2 (proj2 (proj2 (canonical_snapshot_contract _ _ s E)))))).
Defined.

(** C33.  Completion never runs out of space: in any canonical snapshot, every
    completion an entry accepts leaves a canonical snapshot. *)
Theorem reserved_space_suffices l account s n e t e' :
  canonicalize_snapshot l account = Ok s -> nth_error l n = Some e ->
  complete_transition t account e = Ok e' ->
  exists s', canonicalize_snapshot (replace_at n e' l) account = Ok s'
    /\ entries s' = replace_at n e' l.
Proof.
  intros H E C. apply canonicalize_iff in H as [L _].
  pose proof (complete_canonical _ _ _ _ _ _ L E C) as L'.
  eexists. split; [apply canonicalize_iff; split; [exact L' | reflexivity] | reflexivity].
Qed.

Lemma reserved_space_suffices_witness :
  exists e' s', complete_transition archive_terminal "main" archive_entry = Ok e'
    /\ canonicalize_snapshot (replace_at 0 e' [archive_entry]) "main" = Ok s'.
Proof.
  destruct (is_ok_inv _ archive_snapshot) as (s & E).
  assert (is_ok (complete_transition archive_terminal "main" archive_entry) = true) as C
    by (vm_compute; reflexivity).
  destruct (is_ok_inv _ C) as (e' & C'). exists e'.
  destruct (reserved_space_suffices [archive_entry] "main" s 0 archive_entry archive_terminal e' E
    eq_refl C') as (s' & K & _).
  exists s'. split; [exact C' | exact K].
Defined.

(** The binary search of [lookup] finds exactly the entry a linear search
    of the snapshot would find, and reports a conflict exactly when that entry
    was recorded for another request. *)
Theorem lookup_correct l account s key fingerprint :
  canonicalize_snapshot l account = Ok s ->
  let found := List.find (fun e => String.eqb (key_hash e) key) l in
  l_incumbent (lookup s key fingerprint) = found
  /\ (l_status (lookup s key fingerprint) = Miss <-> found = None)
  /\ (l_status (lookup s key fingerprint) = Conflict <->
      exists e, found = Some e /\ request_fingerprint e <> fingerprint).
Proof.
  intros H. apply canonicalize_iff in H as [L ->]. cbn zeta. unfold lookup. cbn [entries].
  pose proof (ce_sorted _ _ L) as S.
  destruct (find_entry l key) as [[n e]|] eqn:F.
  - apply (find_entry_some None l key n e S) in F as [F K].
    destruct (List.find _ l) as [x|] eqn:X.
    + apply find_some in X as [X Y]. str_bool. apply In_nth_error in X as (m & X).
      rewrite (key_position _ _ _ S n e F K) in F. rewrite (key_position _ _ _ S m x X Y) in X.
      assert (x = e) as -> by congruence. cbn [l_incumbent l_status].
      destruct (String.eqb_spec (request_fingerprint e) fingerprint) as [R|R]; cbn [negb];
        (split; [reflexivity|]).
      * split; [destruct (state e); split; discriminate|].
        split; [destruct (state e); discriminate|]. intros (x & [= <-] & ?). contradiction.
      * split; [split; discriminate|]. split; [eauto | reflexivity].
    + pose proof (find_none _ _ X e (nth_error_In _ _ F)) as Y. cbn in Y.
      rewrite K, String.eqb_refl in Y. discriminate.
  - apply (find_entry_none None l key S) in F.
    destruct (List.find _ l) as [x|] eqn:X.
    + exfalso. apply F. apply find_some in X as [X Y]. str_bool. apply in_map_iff. eauto.
    + cbn. split; [reflexivity|]. split; [tauto|]. split; [discriminate|]. intros (e & ? & _). discriminate.
Qed.

Lemma lookup_correct_witness :
  exists s, canonicalize_snapshot [archive_entry] "main" = Ok s
    /\ l_incumbent (lookup s sample_key sample_key) = Some archive_entry.
Proof.
  destruct (is_ok_inv _ archive_snapshot) as (s & E). exists s. split; [exact E|].
  exact (proj1 (lookup_correct _ _ s sample_key sample_key E)).
Defined.

(** * Spools *)

(** No pending entry of a photo operation ever accepts a spool reference,
    although the operation is idempotent and publishes one. *)
Lemma photo_spool_rejected s account e :
  operation e = ChatSetPhoto -> apply_spool_transition s account e = Err "invalid spool transition".
Proof.
  intros O. unfold apply_spool_transition. rewrite O.
  replace (eqb ChatSetPhoto SavedAttach) with false by reflexivity.
  destruct (negb (eqb (state e) Pending)); reflexivity.
Qed.

Lemma photo_uses_spool_and_keys :
  WriteOp.idempotent (WriteOp.of_audit ChatSetPhoto) = true
  /\ WriteOp.uses_photo_spool (WriteOp.of_audit ChatSetPhoto) = true.
Proof. split; vm_compute; reflexivity. Qed.

(** * The life of an entry *)

(** What the operations of the store may do to an entry. *)
Inductive entry_step (account : string) (e e' : IdempotencyEntry) : Prop :=
| step_spool s : apply_spool_transition s account e = Ok e' -> entry_step account e e'
| step_temporary_ids ids : temporary_ids_transition ids e = Ok e' -> entry_step account e e'
| step_forward_progress items : forward_progress_transition items e = Ok e' -> entry_step account e e'
| step_complete t : complete_transition t account e = Ok e' -> entry_step account e e'
| step_clear_spool : clear_spool_transition e = Ok e' -> entry_step account e e'.

(** The members that identify an entry. *)
Definition identity (e : IdempotencyEntry) :=
  (key_hash e, request_fingerprint e, operation e, entry_invocation_id e, entry_audit_generation e,
   created_at e, expires_at e, plan e).

Lemma entry_step_inv account e e' :
  entry_step account e e' ->
  identity e' = identity e
  /\ (state e = Completed ->
      state e' = Completed /\ terminal e' = terminal e /\ (spool e' = spool e \/ spool e' = None)).
Proof.
  unfold identity. intros [s H|ids H|items H|t H|H].
  - unfold apply_spool_transition in H. apply check_seq in H as [C H]. apply check_seq in H as [_ H].
    apply ok_inj in H as <-. split; [reflexivity|]. intros S. rewrite S in C. discriminate.
  - unfold temporary_ids_transition in H. apply check_seq in H as [C H]. apply ok_inj in H as <-.
    split; [reflexivity|]. intros S. rewrite S in C. discriminate.
  - unfold forward_progress_transition in H. apply check_seq in H as [C H]. apply ok_inj in H as <-.
    split; [reflexivity|]. intros S. rewrite S in C. discriminate.
  - unfold complete_transition in H. apply check_seq in H as [_ H].
    destruct (state e) eqn:S; apply check_seq in H as [_ H]; apply ok_inj in H as <-;
      (split; [reflexivity|]); intros K; [discriminate | auto].
  - unfold clear_spool_transition in H. apply check_seq in H as [C H]. apply ok_inj in H as <-.
    split; [reflexivity|]. intros S. auto.
Qed.

(** Whatever operations follow, an entry keeps its key, request,
    invocation, dates and plan; and once completed it stays completed with the
    same terminal, and its spool reference can only be dropped. *)
Theorem completed_entry_final account e e' :
  Relation_Operators.clos_refl_trans _ (entry_step account) e e' ->
  identity e' = identity e
  /\ (state e = Completed ->
      state e' = Completed /\ terminal e' = terminal e /\ (spool e' = spool e \/ spool e' = None)).
Proof.
  induction 1 as [x y H|x|x y z H1 IH1 H2 IH2].
  - exact (entry_step_inv _ _ _ H).
  - auto.
  - destruct IH1 as [I1 C1], IH2 as [I2 C2].
    split; [congruence|]. intros S. destruct (C1 S) as (S' & T & P). destruct (C2 S') as (S2 & T2 & P2).
    split; [exact S2|]. split; [congruence|]. destruct P2 as [ -> | -> ]; auto.
Qed.

(** Completing an entry and completing it again. *)
Lemma completed_entry_final_witness :
  exists e', complete_transition archive_terminal "main" archive_entry = Ok e'
    /\ identity e' = identity archive_entry.
Proof.
  assert (is_ok (complete_transition archive_terminal "main" archive_entry) = true) as C
    by (vm_compute; reflexivity).
  destruct (is_ok_inv _ C) as (e' & C'). exists e'. split; [exact C'|].
  exact (proj1 (completed_entry_final "main" archive_entry e'
    (Relation_Operators.rt_step _ _ _ _ (step_complete _ _ _ archive_terminal C')))).
Defined.

(** * Printing and parsing *)

(** Machine ranges, and documents in the form the parser yields. *)
Definition parsed_form (e : IdempotencyEntry) : Prop :=
  reparsed (plan e) = plan e /\ reparsed (temporary_message_ids e) = temporary_message_ids e
  /\ reparsed (forward_progress e) = forward_progress e
  /\ match terminal e with Some t => reparsed t = t | None => True end
  /\ match spool e with
     | Some s => i64_min <= mtime_ns (file s) <= i64_max /\ i64_min <= ctime_ns (file s) <= i64_max
     | None => True
     end.

Lemma get_i64_reparsed n : i64_min <= n <= i64_max -> get_i64 (reparsed (JInteger n)) = n.
Proof. intros H. cbn. destruct (0 <=? n); cbn; [now apply i64_of_small | reflexivity]. Qed.

Lemma integer_reparsed n : is_number_integer (reparsed (JInteger n)) = true.
Proof. cbn. destruct (0 <=? n); reflexivity. Qed.

Lemma parse_spool_json s invocation :
  i64_min <= mtime_ns (file s) <= i64_max -> i64_min <= ctime_ns (file s) <= i64_max ->
  validate_account_audit_persisted_spool s invocation = true ->
  parse_spool (reparsed (spool_json s)) invocation = Some s.
Proof.
  intros M C V. unfold parse_spool. set (v := reparsed (spool_json s)). cbn zeta.
  change (exact_fields v ["relative_path"; "file"]) with true.
  change (jget v "relative_path") with (JString (relative_path s)).
  set (f := jget v "file").
  change (exact_fields f file_snapshot_fields) with true.
  change (jget f "path") with (JString (path (file s))).
  change (jget f "name") with (JString (name (file s))).
  change (jget f "size") with (JUnsigned (size (file s))).
  change (jget f "sha256") with (JString (sha256 (file s))).
  change (jget f "device") with (JUnsigned (device (file s))).
  change (jget f "inode") with (JUnsigned (inode (file s))).
  change (jget f "mtime_ns") with (reparsed (JInteger (mtime_ns (file s)))).
  change (jget f "ctime_ns") with (reparsed (JInteger (ctime_ns (file s)))).
  rewrite !integer_reparsed. cbn [is_string is_number_unsigned negb orb get_string].
  assert (file_snapshot_of f = file s) as ->.
  { unfold file_snapshot_of.
    change (jget f "mtime_ns") with (reparsed (JInteger (mtime_ns (file s)))).
    change (jget f "ctime_ns") with (reparsed (JInteger (ctime_ns (file s)))).
    rewrite !get_i64_reparsed by assumption. destruct s as [r []]. reflexivity. }
  destruct s as [r fl]. cbn [relative_path file]. now rewrite V.
Qed.

Lemma operation_name_parses op : parse_account_audit_operation (account_audit_operation_name op) = Some op.
Proof. destruct op; reflexivity. Qed.

Lemma null_terminal op p account : validate_account_audit_persisted_terminal op JNull p account = false.
Proof.
  unfold validate_account_audit_persisted_terminal. change (valid_terminal op JNull) with false.
  destruct (negb (valid_plan op p account)); reflexivity.
Qed.

(** The facts of a valid entry that parsing tests again. *)
Lemma valid_entry_scalars e account :
  valid_entry e account = true ->
  valid_digest (key_hash e) = true /\ valid_digest (request_fingerprint e) = true
  /\ WriteOp.idempotent (WriteOp.of_audit (operation e)) = true
  /\ match spool e with
     | Some s => validate_account_audit_persisted_spool s (entry_invocation_id e) = true
     | None => True
     end
  /\ match terminal e with Some t => is_null t = false | None => True end
  /\ 0 <= reserved_terminal_bytes e <= 4294967295.
Proof.
  intros V. pose proof (valid_entry_charge _ _ V) as (_ & _ & _ & R).
  pose proof (reservation_bounds (operation e)) as B. unfold valid_entry in V.
  destruct (_ || _) eqn:O; [discriminate|].
  destruct (spool e) as [s|] eqn:Sp; bool_split;
    (split; [assumption|]; split; [assumption|]; split; [assumption|]; split; [assumption || exact I|]);
    (destruct (mutable_charge e); [|discriminate]);
    (destruct (state e); bool_split; z_bool; destruct R as [R T]; (split; [|lia]));
    destruct (terminal e) as [t|]; try discriminate T; try exact I;
    destruct t; try reflexivity; rewrite null_terminal in *; discriminate.
Qed.

Lemma parse_entry_json e account :
  valid_entry e account = true -> parsed_form e -> parse_entry (reparsed (entry_json e)) account = Some e.
Proof.
  intros V (P1 & P2 & P3 & P4 & P5).
  destruct (valid_entry_scalars _ _ V) as (D1 & D2 & O & S & T & R).
  unfold parse_entry. set (v := reparsed (entry_json e)).
  change (exact_fields v entry_fields) with true.
  change (jget v "key_hash") with (JString (key_hash e)).
  change (jget v "request_fingerprint") with (JString (request_fingerprint e)).
  change (jget v "operation") with (JString (account_audit_operation_name (operation e))).
  change (jget v "state") with (JString (state_name (state e))).
  change (jget v "invocation_id") with (JString (entry_invocation_id e)).
  change (jget v "audit_generation") with (JUnsigned (entry_audit_generation e)).
  change (jget v "created_at") with (JUnsigned (created_at e)).
  change (jget v "expires_at") with (JUnsigned (expires_at e)).
  change (jget v "reserved_terminal_bytes") with (JUnsigned (reserved_terminal_bytes e)).
  change (jget v "plan") with (reparsed (plan e)).
  change (jget v "temporary_message_ids") with (reparsed (temporary_message_ids e)).
  change (jget v "forward_progress") with (reparsed (forward_progress e)).
  change (jget v "spool") with (reparsed (spool_value e)).
  change (jget v "terminal") with (reparsed (json_or_null (terminal e))).
  rewrite P1, P2, P3.
  assert (parse_entry_spool (reparsed (spool_value e)) (entry_invocation_id e) = Some (spool e)) as SP.
  { unfold spool_value, parse_entry_spool. destruct (spool e) as [s|]; [|reflexivity].
    change (is_null (reparsed (spool_json s))) with false. cbn iota.
    now rewrite (parse_spool_json s _ (proj1 P5) (proj2 P5) S). }
  assert ((if is_null (reparsed (json_or_null (terminal e))) then None
           else Some (reparsed (json_or_null (terminal e)))) = terminal e) as TE.
  { destruct (terminal e) as [t|]; [|reflexivity]. cbn [json_or_null]. now rewrite P4, T. }
  assert (parse_state (JString (state_name (state e))) = Some (state e)) as ST
    by (destruct (state e); reflexivity).
  cbn [is_string is_number_unsigned get_string get_u64 negb orb].
  destruct (Z.ltb_spec 4294967295 (reserved_terminal_bytes e)); [lia|]. cbn iota.
  unfold parse_idempotency_key_hash, parse_idempotency_request_fingerprint.
  rewrite D1, D2, operation_name_parses, ST, SP, O, TE. cbn [negb].
  replace (u32 (reserved_terminal_bytes e)) with (reserved_terminal_bytes e)
    by (unfold u32; rewrite Z.mod_small; lia).
  assert ({| key_hash := key_hash e; request_fingerprint := request_fingerprint e;
             operation := operation e; state := state e; entry_invocation_id := entry_invocation_id e;
             entry_audit_generation := entry_audit_generation e; created_at := created_at e;
             expires_at := expires_at e; reserved_terminal_bytes := reserved_terminal_bytes e;
             plan := plan e; temporary_message_ids := temporary_message_ids e;
             forward_progress := forward_progress e; spool := spool e; terminal := terminal e |} = e)
    as -> by (destruct e; reflexivity).
  now rewrite V.
Qed.

Lemma parse_entries_json account l :
  Forall (fun e => valid_entry e account = true) l -> Forall parsed_form l ->
  parse_entries account (map reparsed (map entry_json l)) = Some l.
Proof.
  induction 1 as [|e l V F IH]; intros P; [reflexivity|]. inversion_clear P as [|? ? Pe Pl].
  cbn [map parse_entries]. now rewrite (parse_entry_json _ _ V Pe), (IH Pl).
Qed.

(** What the store writes it reads back: decoding the canonical text of a
    snapshot yields the same snapshot, entry for entry, given only that the
    JSON parser inverts the printing of this document. *)
Theorem snapshot_roundtrip json_parse l account s :
  canonicalize_snapshot l account = Ok s -> Forall parsed_form l ->
  json_parse (canonical_bytes s) = Some (reparsed (snapshot_document l), false) ->
  decode_snapshot json_parse (canonical_bytes s) account = Ok s.
Proof.
  intros C P J. pose proof C as C'. apply canonicalize_iff in C' as [L E].
  unfold decode_snapshot. rewrite J.
  assert (str_empty (canonical_bytes s) = false) as ->.
  { rewrite E. cbn [canonical_bytes]. unfold snapshot_document, jobject. cbn. reflexivity. }
  cbn [negb check bind of_option]. set (d := reparsed (snapshot_document l)).
  change (exact_fields d ["schema_version"; "entries"]) with true.
  change (jget d "schema_version") with (JUnsigned 1).
  change (jget d "entries") with (JArray (map reparsed (map entry_json l))).
  cbn [is_number_unsigned eq_int is_array jsize andb elements]. cbn zeta.
  rewrite !length_map. pose proof (ce_count _ _ L) as N. apply Nat.leb_le in N. rewrite N.
  change (i64_of 1 =? 1) with true. cbn [andb check bind].
  rewrite (parse_entries_json _ _ (ce_valid _ _ L) P). cbn [of_option bind].
  rewrite C. cbn [bind]. now rewrite String.eqb_refl.
Qed.

Lemma snapshot_roundtrip_witness :
  exists s, canonicalize_snapshot [archive_entry] "main" = Ok s
    /\ decode_snapshot (fun _ => Some (reparsed (snapshot_document [archive_entry]), false))
         (canonical_bytes s) "main" = Ok s.
Proof.
  destruct (is_ok_inv _ archive_snapshot) as (s & C). exists s. split; [exact C|].
  apply (snapshot_roundtrip (fun _ => Some (reparsed (snapshot_document [archive_entry]), false))
    [archive_entry] "main" s C); [|reflexivity].
  constructor; [|constructor]. vm_compute. repeat split; reflexivity.
Defined.
