(* ===== verification/IdempotencyFileFacts.v ===== *)
(** Properties of the files of the idempotency store: a rewrite is atomic at
    every crash point, and the operations of the store refine updates of the
    snapshot on disk. *)
From S2P Require Import Prelude Json CanonicalJson Operation DestructivePlan M6Domain AuditSchema.
From S2P Require Import AuditLog AuditSamples IdempotencyStore IdempotencyFacts IdempotencyFile.
Import Audit.

(** * Programs that only read

    The directory is the same afterwards, and a result satisfies [R]. *)

Definition reads {A} (m : io A) (R : Fs -> A -> Prop) : Prop :=
  forall w, fs (snd (m w)) = fs w /\ log (snd (m w)) = log w
  /\ (forall a, fst (m w) = Ok a -> R (fs w) a).

Lemma reads_ret {A} (a : A) : reads (ret a) (fun _ b => b = a).
Proof. intros w. cbn. repeat split. intros b. congruence. Qed.

Lemma reads_raise {A} e (R : Fs -> A -> Prop) : reads (raise e) R.
Proof. intros w. cbn. repeat split. discriminate. Qed.

Lemma reads_bind {A B} (m : io A) R (k : A -> io B) (Q : Fs -> B -> Prop) :
  reads m R -> (forall a, reads (k a) (fun fs b => R fs a -> Q fs b)) -> reads (ibind m k) Q.
Proof.
  intros M K w. unfold ibind. destruct (M w) as (F & L & H).
  destruct (m w) as [[a|e] w']; cbn [fst snd] in *; [|repeat split; auto; discriminate].
  destruct (K a w') as (F' & L' & H'). rewrite F', L', F, L. repeat split.
  intros b Hb. specialize (H' b Hb (eq_ind_r (fun x => R x a) (H a eq_refl) F)).
  now rewrite F in H'.
Qed.

Lemma reads_weaken {A} (m : io A) (R Q : Fs -> A -> Prop) :
  reads m R -> (forall fs a, R fs a -> Q fs a) -> reads m Q.
Proof. intros M H w. destruct (M w) as (F & L & K). repeat split; auto. Qed.

Lemma reads_guarded b e : reads (guarded b e) (fun _ _ => b = true).
Proof. intros w. destruct b; cbn; repeat split; discriminate. Qed.

Lemma reads_query {A} env (f : Fs -> option A) e : reads (query env f e) (fun fs a => f fs = Some a).
Proof.
  intros w. unfold query. destruct (os_fails env (ticks w)); cbn; [repeat split; discriminate|].
  destruct (f (fs w)) eqn:F; cbn; repeat split; congruence.
Qed.

Lemma reads_interruption env account store_path honor :
  reads (check_interruption env account store_path honor) (fun _ _ => True).
Proof.
  intros w. unfold check_interruption. destruct honor; [|cbn; auto].
  destruct (interruption env (ticks w)) as [[[r d] k]|]; cbn; auto.
Qed.

Lemma reads_classified account store_path r :
  reads (classified account store_path r) (fun _ _ => r = None).
Proof. intros w. destruct r; cbn; repeat split; discriminate. Qed.

Lemma reads_reason {A} account store_path (r : result AccountAuditDurabilityReason A) d :
  reads (of_reason account store_path r d) (fun _ a => r = Ok a).
Proof. intros w. destruct r; cbn; repeat split; congruence. Qed.

Lemma reads_transfer env n : reads (transfer env n) (fun _ c => (c <= n)%nat).
Proof. intros w. cbn. repeat split. intros c [= <-]. lia. Qed.

Create HintDb reads.
#[export] Hint Resolve reads_transfer reads_ret reads_raise reads_guarded reads_query reads_interruption
  reads_classified reads_reason : reads.

(** Nobody disturbs the directory. *)
Definition undisturbed (env : Env) : Prop := forall stage fs, disturb env stage fs = fs.

Lemma reads_notify env stage : undisturbed env -> reads (notify env stage) (fun _ _ => True).
Proof. intros Q w. cbn. rewrite Q. auto. Qed.
#[export] Hint Resolve reads_notify : reads.

(** One statement of a reading program. *)
Ltac read_step := eapply reads_bind; [solve [eauto with reads] | cbv beta; intros ?].

Section reading.
Variable env : Env.
Variable json_parse : string -> option (json * bool).
Variables (account store_path : string) (expected_uid : Z).
Hypothesis quiet : undisturbed env.

Definition final_content (fs : Fs) : option string :=
  match final_ino fs with Some ino => option_map content (inodes fs ino) | None => None end.

(** The snapshot a text of the final name, or its absence, denotes. *)
Definition denotes (text : option string) (s : IdempotencySnapshot) : Prop :=
  match text with
  | Some bytes => decode_snapshot json_parse bytes account = Ok s
  | None => canonicalize_snapshot [] account = Ok s
  end.

Lemma open_root_reads honor :
  reads (open_root env account store_path expected_uid honor)
    (fun fs a => a = root_meta fs /\ classify_root (root_meta fs) expected_uid = None).
Proof.
  unfold open_root. destruct (lease_error env); [apply reads_raise|].
  do 7 read_step. eapply reads_bind; [apply reads_classified | cbv beta; intros ?].
  read_step. eapply reads_weaken; [apply reads_ret|]. cbv beta.
  intros fs b -> _ C _ [= <-] _ _ _ _ _. auto.
Qed.

(** The read loop returns the bytes of the file. *)
Lemma read_loop_reads fuel honor ino size : forall offset bytes,
  reads (read_loop env account store_path fuel honor ino size offset bytes)
    (fun fs r => (offset <= size)%nat -> forall n, inodes fs ino = Some n ->
                 bytes = str_take offset (content n) -> r = str_take size (content n)).
Proof.
  induction fuel as [|fuel IH]; intros offset bytes; cbn [read_loop];
    destruct (Nat.leb_spec size offset) as [S|S].
  1,3: eapply reads_weaken; [apply reads_ret|]; cbv beta; intros fs r -> L n _ ->;
    f_equal; lia.
  - apply reads_raise.
  - do 4 read_step. rename a1 into count, a2 into chunk.
    destruct (str_empty chunk); [apply reads_raise|].
    eapply reads_weaken; [apply IH|]. cbv beta. intros fs r H Q C _ _ L n N ->.
    rewrite N in Q. cbn in Q. injection Q as <-.
    assert (String.length (str_take count (str_drop offset (content n))) <= count)%nat
      by (rewrite str_take_length; lia).
    apply (H ltac:(lia) n N). rewrite str_take_take_drop. rewrite str_take_length, str_drop_length.
    destruct (Nat.le_gt_cases count (String.length (content n) - offset)) as [K|K].
    + now rewrite Nat.min_l.
    + rewrite Nat.min_r by lia. rewrite !str_take_all; [reflexivity | lia | lia].
Qed.

Lemma same_identity_eq a b : same_identity a b = true -> a = b.
Proof.
  unfold same_identity. destruct a, b. cbn. intros H. bool_split. z_bool. congruence.
Qed.

(** A stable read returns what the final name denotes. *)
Lemma read_stable_reads named honor :
  reads (read_stable_file env account store_path expected_uid named honor)
    (fun fs r => final_content fs = Some (fst r) /\ stat_name fs Final = Some (snd r)).
Proof.
  unfold read_stable_file. do 5 read_step.
  eapply reads_bind; [apply read_loop_reads | cbv beta; intros bytes].
  do 4 read_step. destruct a7 as [final_named|]; [|apply reads_raise].
  do 2 read_step. eapply reads_weaken; [apply reads_ret|]. cbv beta.
  intros fs b -> S1 S2 N D X Y R _ _ S3 D0 F. cbn [fst snd].
  apply same_identity_eq in S1, S2, S3. subst.
  injection N as N. unfold final_content, stat_ino in *. rewrite F.
  destruct (inodes fs a) as [n|]; [|discriminate]. injection D as <-. cbn [option_map].
  split; [|exact N]. f_equal. rewrite (R ltac:(lia) n eq_refl eq_refl). cbn [st_size stat_node].
  unfold str_len. rewrite Nat2Z.id. symmetry. apply str_take_all. lia.
Qed.

Lemma stat_name_content fs : (stat_name fs Final = None -> final_content fs = None).
Proof.
  unfold stat_name, final_content, stat_ino. cbn [named_ino]. destruct (final_ino fs) as [i|]; [|reflexivity].
  destruct (inodes fs i); [discriminate | reflexivity].
Qed.

Lemma inspect_image_reads honor :
  reads (inspect_image env json_parse account store_path expected_uid honor)
    (fun fs image => denotes (final_content fs) (snapshot image)
       /\ (temp_present image = false <-> stat_name fs Temp = None)
       /\ final_metadata image = stat_name fs Final
       /\ final_present image = has_value (final_metadata image)).
Proof.
  assert (reads (inspect_final env json_parse account store_path expected_uid honor)
    (fun fs r => denotes (final_content fs) (fst r) /\ snd r = stat_name fs Final)) as IF.
  { unfold inspect_final. read_step. destruct a as [named|].
    - eapply reads_bind; [apply reads_classified | cbv beta; intros ?].
      eapply reads_bind; [apply read_stable_reads | cbv beta; intros r].
      read_step. eapply reads_weaken; [apply reads_ret|]. cbv beta.
      intros fs b -> D [C S] _ _. cbn [fst snd]. unfold denotes. rewrite C. auto.
    - read_step. eapply reads_weaken; [apply reads_ret|]. cbv beta.
      intros fs b -> D [= S]. cbn [fst snd]. unfold denotes. rewrite (stat_name_content _ S). auto. }
  unfold inspect_image. eapply reads_bind; [apply open_root_reads | cbv beta; intros ?].
  read_step. eapply reads_bind; [exact IF | cbv beta; intros found]. do 2 read_step.
  destruct a2 as [named|].
  - eapply reads_bind; [apply reads_classified | cbv beta; intros ?].
    eapply reads_weaken; [apply reads_ret|]. cbv beta.
    intros fs b -> _ [= T] _ [H F] _ _. cbn. rewrite T. repeat split; auto; discriminate.
  - eapply reads_weaken; [apply reads_ret|]. cbv beta.
    intros fs b -> [= T] _ [H F] _ _. cbn. rewrite T. repeat split; auto.
Qed.
End reading.

(** * Triples for programs that write

    [I] holds of every directory a crash can leave, and of the one a failure
    leaves. *)

Definition triple {A} (I : Fs -> Prop) (P : Fs -> Prop) (m : io A) (Q : A -> Fs -> Prop) : Prop :=
  forall w, P (fs w) -> Forall I (log w) ->
  Forall I (log (snd (m w)))
  /\ match fst (m w) with Ok a => Q a (fs (snd (m w))) | Err _ => I (fs (snd (m w))) end.

Section rules.
Context {I : Fs -> Prop}.

Lemma triple_reads {A} (m : io A) R (P : Fs -> Prop) :
  (forall fs, P fs -> I fs) -> reads m R -> triple I P m (fun a fs => R fs a /\ P fs).
Proof.
  intros H M w Hp L. destruct (M w) as (F & E & K). rewrite F, E. split; [exact L|].
  destruct (fst (m w)); auto.
Qed.

Lemma triple_ret {A} (a : A) (Q : A -> Fs -> Prop) : triple I (Q a) (ret a) Q.
Proof. intros w P L. cbn. auto. Qed.

Lemma triple_raise {A} e (P : Fs -> Prop) (Q : A -> Fs -> Prop) :
  (forall fs, P fs -> I fs) -> triple I P (raise e) Q.
Proof. intros H w Hp L. cbn. auto. Qed.

Lemma triple_bind {A B} P (m : io A) (Q : A -> Fs -> Prop) (k : A -> io B) R :
  triple I P m Q -> (forall a, triple I (Q a) (k a) R) -> triple I P (ibind m k) R.
Proof.
  intros M K w Hp L. unfold ibind. specialize (M w Hp L).
  destruct (m w) as [[a|e] w']; cbn [fst snd] in *; [|exact M]. destruct M as [L' Q']. exact (K a w' Q' L').
Qed.

Lemma triple_pre {A} (P P' : Fs -> Prop) (m : io A) Q :
  (forall fs, P fs -> P' fs) -> triple I P' m Q -> triple I P m Q.
Proof. intros H T w Hp L. apply T; auto. Qed.

Lemma triple_post {A} P (m : io A) (Q Q' : A -> Fs -> Prop) :
  (forall a fs, Q' a fs -> Q a fs) -> triple I P m Q' -> triple I P m Q.
Proof.
  intros H T w Hp L. destruct (T w Hp L) as [L' R]. split; [exact L'|]. destruct (fst (m w)); auto.
Qed.

Lemma triple_change {A} env (f : Fs -> option (A * Fs)) e (P : Fs -> Prop) (Q : A -> Fs -> Prop) :
  (forall fs, P fs -> I fs) ->
  (forall fs a fs', P fs -> f fs = Some (a, fs') -> I fs' /\ Q a fs') ->
  triple I P (change env f e) Q.
Proof.
  intros H K w Hp L. unfold change. destruct (os_fails env (ticks w)); cbn; [auto|].
  destruct (f (fs w)) as [[a fs']|] eqn:F; cbn; [|auto].
  destruct (K _ _ _ Hp F) as [HI HQ]. auto.
Qed.

Lemma triple_pure {A} (H : Prop) (P : Fs -> Prop) (m : io A) Q :
  (H -> triple I P m Q) -> triple I (fun fs => H /\ P fs) m Q.
Proof. intros T w [Hh Hp]. exact (T Hh w Hp). Qed.

(** A reading statement whose result does not matter. *)
Lemma triple_skip {A B} (m : io A) R (k : A -> io B) (P : Fs -> Prop) Q :
  (forall fs, P fs -> I fs) -> reads m R -> (forall a, triple I P (k a) Q) ->
  triple I P (ibind m k) Q.
Proof.
  intros H M K. eapply triple_bind; [exact (triple_reads m R P H M)|]. intros a.
  eapply triple_pre; [|apply K]. cbv beta. intros fs [_ Hp]. exact Hp.
Qed.
End rules.

Ltac skip_read := eapply triple_skip; [solve [eauto] | solve [eauto with reads] | intros ?].

(** * What a crash leaves *)

(** A text, or the absence of the store, that a crash can leave. *)
Definition crash_text (fs : Fs) (t : option string) : Prop :=
  exists fs', after_crash fs fs' /\ final_content fs' = t.

(** A crash leaves exactly the text the final name holds. *)
Definition durable (fs : Fs) : Prop := forall t, crash_text fs t -> t = final_content fs.

(** The final name is not dangling, nor was it since the directory was synced. *)
Definition linked (fs : Fs) : Prop := forall i, In (Some i) (finals fs) -> inodes fs i <> None.

(** The same inodes under the final name, as far as a crash can tell. *)
Definition kept (base fs : Fs) : Prop :=
  final_ino fs = final_ino base /\ incl (finals fs) (finals base)
  /\ forall i, In (Some i) (finals base) -> inodes fs i = inodes base i.

Lemma kept_refl fs : kept fs fs.
Proof. repeat split. apply incl_refl. Qed.

Lemma kept_content base fs : kept base fs -> final_content fs = final_content base.
Proof.
  intros (F & _ & N). unfold final_content. rewrite F. destruct (final_ino base) as [i|] eqn:E; [|reflexivity].
  rewrite N; [reflexivity|]. left. exact E.
Qed.

(** A crash reads one of the final inodes, and a synced one as it is. *)
Lemma crash_text_inv fs t :
  crash_text fs t ->
  exists f, In f (finals fs)
    /\ match f with
       | None => t = None
       | Some i => forall n, inodes fs i = Some n -> synced n = true -> t = Some (content n)
       end.
Proof.
  intros (fs' & (F & _ & N) & T). exists (final_ino fs'). split; [exact F|].
  unfold final_content in T. destruct (final_ino fs') as [i|]; [|congruence].
  intros n I S. rewrite (N i n I S) in T. now cbn in T.
Qed.

Lemma crash_text_intro fs f t :
  In f (finals fs) ->
  match f with
  | None => t = None
  | Some i => forall n, inodes fs i = Some n -> synced n = true -> t = Some (content n)
  end -> crash_text fs t.
Proof.
  intros F T.
  pose (lost := option_map (fun c => {| n_dev := 0; n_mode := 0; n_uid := 0; n_nlink := 0;
                                        content := c; synced := false |}) t).
  exists {| root_meta := root_meta fs; final_ino := f; temp_ino := temp_ino fs; unsynced_names := [];
            inodes := fun i => match inodes fs i with
                               | Some n => if synced n then Some n else lost
                               | None => lost
                               end |}.
  split.
  - split; [exact F|]. split; [now left|]. cbn. intros i n -> ->. reflexivity.
  - unfold final_content. cbn. destruct f as [i|]; [|congruence].
    assert (option_map content lost = t) as L by (subst lost; now destruct t).
    destruct (inodes fs i) as [n|] eqn:I; [|exact L].
    destruct (synced n) eqn:S; [|exact L]. cbn. now rewrite (T n eq_refl S).
Qed.

Lemma kept_crash base fs t : kept base fs -> crash_text fs t -> crash_text base t.
Proof.
  intros (_ & F & N) C. apply crash_text_inv in C as (f & I & C).
  apply (crash_text_intro base f t (F f I)). destruct f as [i|]; [|exact C].
  now rewrite <- (N i (F _ I)).
Qed.

(** * The atomic rewrite *)

Section rewriting.
Variable env : Env.
Variable json_parse : string -> option (json * bool).
Variables (account store_path : string) (expected_uid : Z).
Hypothesis quiet : undisturbed env.

(** The directory before the rewrite. *)
Variable base : Fs.

(** The final name holds the old text or [new], and a crash leaves what it could
    leave before, or [new]. *)
Definition atomic (new : option string) (fs : Fs) : Prop :=
  (final_content fs = final_content base \/ final_content fs = new)
  /\ forall t, crash_text fs t -> crash_text base t \/ t = new.

Definition untouched (fs : Fs) : Prop := linked base /\ kept base fs.

(** The temporary file is open as [ino] and holds [text]; [flushed] when it is
    synced. *)
Definition writing (flushed : bool) (ino : Z) (text : string) (fs : Fs) : Prop :=
  kept base fs /\ ~ In (Some ino) (finals base) /\ temp_ino fs = Some ino
  /\ exists n, inodes fs ino = Some n /\ content n = text /\ (flushed = true -> synced n = true).

(** The final name is the new file. *)
Definition renamed (ino : Z) (text : string) (fs : Fs) : Prop :=
  final_ino fs = Some ino /\ temp_ino fs = None /\ incl (finals fs) (Some ino :: finals base)
  /\ (forall i, In (Some i) (finals base) -> inodes fs i = inodes base i)
  /\ exists n, inodes fs ino = Some n /\ content n = text /\ synced n = true.

Lemma kept_atomic new fs : kept base fs -> atomic new fs.
Proof. intros K. split; [left; now apply kept_content|]. intros t C. left. now apply (kept_crash base fs). Qed.

Lemma renamed_atomic ino text fs : renamed ino text fs -> atomic (Some text) fs.
Proof.
  intros (F & _ & X & N & n & I & <- & S). split.
  - right. unfold final_content. now rewrite F, I.
  - intros t C. apply crash_text_inv in C as (f & Hf & C). destruct (X f Hf) as [<-|B].
    + right. exact (C n I S).
    + left. apply (crash_text_intro base f t B). destruct f as [i|]; [|exact C]. now rewrite <- (N i B).
Qed.

Lemma create_temp_writing fs ino fs' :
  untouched fs -> create_temp env fs = Some (ino, fs') -> writing false ino EmptyString fs'.
Proof.
  intros [L (F & X & N)] H. unfold create_temp in H. destruct (temp_ino fs); [discriminate|].
  destruct (inodes fs (fresh env fs)) eqn:U; [discriminate|]. injection H as <- <-.
  assert (~ In (Some (fresh env fs)) (finals base)) as D.
  { intros K. apply (L _ K). now rewrite <- (N _ K). }
  split; [|split; [exact D | split; [reflexivity|]]].
  - split; [exact F|]. split.
    + intros f [<-|[<-|B]]; apply X; [now left | now left | now right].
    + intros i Hi. cbn [inodes set_names set_inode]. destruct (Z.eqb_spec i (fresh env fs)) as [->|]; [contradiction|].
      now apply N.
  - cbn [inodes set_names set_inode]. rewrite Z.eqb_refl. eexists. split; [reflexivity|]. now split.
Qed.

Lemma set_inode_writing b b' fs ino text n :
  (b' = true -> synced n = true) ->
  writing b ino text fs -> writing b' ino (content n) (set_inode fs ino (Some n)).
Proof.
  intros S ((F & X & N) & D & T & _). split; [|split; [exact D | split; [exact T|]]].
  - split; [exact F|]. split; [exact X|]. intros i Hi. cbn [inodes set_inode].
    destruct (Z.eqb_spec i ino) as [->|]; [contradiction | now apply N].
  - exists n. cbn [inodes set_inode]. rewrite Z.eqb_refl. now split.
Qed.

Lemma chmod_writing b fs ino text u fs' :
  writing b ino text fs -> chmod_node ino fs = Some (u, fs') -> writing false ino text fs'.
Proof.
  intros W H. pose proof W as (_ & _ & _ & n & N & C & _). unfold chmod_node in H. rewrite N in H.
  injection H as <- <-. rewrite <- C. eapply (set_inode_writing b false fs ino text
    {| n_mode := Z.lor (Z.land (n_mode n) 0xF000) 0x180; content := content n |}); [discriminate | exact W].
Qed.

Lemma append_writing b fs ino text bytes u fs' :
  writing b ino text fs -> append_node ino bytes fs = Some (u, fs') ->
  writing false ino (text +++ bytes) fs'.
Proof.
  intros W H. pose proof W as (_ & _ & _ & n & N & C & _). unfold append_node in H. rewrite N in H.
  injection H as <- <-. rewrite <- C. eapply (set_inode_writing b false fs ino text
    {| n_mode := n_mode n; content := content n +++ bytes |}); [discriminate | exact W].
Qed.

Lemma sync_writing b fs ino text u fs' :
  writing b ino text fs -> sync_node ino fs = Some (u, fs') -> writing true ino text fs'.
Proof.
  intros W H. pose proof W as (_ & _ & _ & n & N & C & _). unfold sync_node in H. rewrite N in H.
  injection H as <- <-. rewrite <- C. eapply (set_inode_writing b true fs ino text
    {| n_mode := n_mode n; content := content n; synced := true |}); [reflexivity | exact W].
Qed.

Lemma rename_done fs ino text u fs' :
  writing true ino text fs -> rename_temp fs = Some (u, fs') -> renamed ino text fs'.
Proof.
  intros ((F & X & N) & _ & T & n & I & C & S) H. unfold rename_temp in H. rewrite T in H. injection H as _ <-.
  split; [reflexivity|]. split; [reflexivity|]. split; [|split; [exact N | now exists n; auto]].
  intros f [<-|Hf]; [now left|]. right. now apply X.
Qed.

(** After the directory is synced a crash leaves the new text only. *)
Lemma sync_names_durable fs ino text u fs' :
  renamed ino text fs -> sync_names fs = Some (u, fs') ->
  renamed ino text fs' /\ final_content fs' = Some text /\ durable fs'.
Proof.
  intros (F & T & _ & N & n & I & C & S) [= _ <-].
  assert (renamed ino text {| root_meta := root_meta fs; final_ino := final_ino fs; temp_ino := temp_ino fs;
            unsynced_names := []; inodes := inodes fs |}) as R.
  { split; [exact F|]. split; [exact T|]. split; [|split; [exact N | now exists n]].
    intros f [<-|[]]. cbn [final_ino]. rewrite F. now left. }
  assert (final_content {| root_meta := root_meta fs; final_ino := final_ino fs; temp_ino := temp_ino fs;
            unsynced_names := []; inodes := inodes fs |} = Some text) as K
    by (unfold final_content; cbn; rewrite F, I; cbn; congruence).
  split; [exact R|]. split; [exact K|]. intros t Ct. rewrite K.
  apply crash_text_inv in Ct as (f & [<-|[]] & Ct). cbn [final_ino] in Ct. rewrite F in Ct.
  rewrite <- C. exact (Ct n I S).
Qed.

Section one.
Variable new : option string.
Let I := atomic new.

Lemma writing_atomic b ino text fs : writing b ino text fs -> I fs.
Proof. intros (K & _). now apply kept_atomic. Qed.

Lemma write_all_writing fuel ino : forall rest text,
  triple I (writing false ino text) (write_all env account store_path fuel ino rest)
    (fun _ => writing false ino (text +++ rest)).
Proof.
  induction fuel as [|fuel IH]; intros rest text; cbn [write_all];
    destruct (str_empty rest) eqn:X.
  1,3: apply str_empty_true in X as ->; rewrite str_app_nil_r;
    exact (triple_ret tt (fun _ => writing false ino text)).
  - apply triple_raise. apply writing_atomic.
  - eapply triple_bind; [eapply triple_reads; [apply writing_atomic | eauto with reads] | cbv beta; intros ?].
    eapply triple_bind; [eapply triple_reads; [intros fs (_ & W); exact (writing_atomic _ _ _ _ W)
      | eauto with reads] | cbv beta; intros count].
    destruct (Nat.eqb count 0).
    + apply triple_raise. intros fs (_ & _ & W). exact (writing_atomic _ _ _ _ W).
    + eapply triple_bind; [apply (triple_change env _ _ _
        (fun _ => writing false ino (text +++ str_take count rest)))|].
      * intros fs (_ & _ & W). exact (writing_atomic _ _ _ _ W).
      * intros fs u fs' (_ & _ & W) H. pose proof (append_writing _ _ _ _ _ _ _ W H) as W'.
        split; [exact (writing_atomic _ _ _ _ W') | exact W'].
      * cbv beta. intros ?. eapply triple_post; [|apply IH]. cbv beta. intros _ fs W.
        now rewrite str_app_assoc, str_take_drop in W.
Qed.
End one.

(** A statement that changes the directory from one phase to the next. *)
Lemma triple_phase {A B} I (f : Fs -> option (A * Fs)) e (P : Fs -> Prop) (Q : A -> Fs -> Prop) (k : A -> io B) R :
  (forall fs, P fs -> I fs) -> (forall a fs, Q a fs -> I fs) ->
  (forall fs a fs', P fs -> f fs = Some (a, fs') -> Q a fs') ->
  (forall a, triple I (Q a) (k a) R) -> triple I P (ibind (change env f e) k) R.
Proof.
  intros HP HQ F K. eapply triple_bind; [|exact K]. apply triple_change; [exact HP|].
  intros fs a fs' Hp H. pose proof (F _ _ _ Hp H) as W. split; [exact (HQ _ _ W) | exact W].
Qed.

(** [rewrite_snapshot] replaces the expected text by the canonical text of the
    desired entries, in one step as far as a crash can tell. *)
Lemma rewrite_triple expected desired s :
  canonicalize_snapshot desired account = Ok s ->
  triple (atomic (Some (canonical_bytes s))) untouched
    (rewrite_snapshot env json_parse account store_path expected_uid expected desired)
    (fun r fs => r = s /\ final_content fs = Some (canonical_bytes s) /\ temp_ino fs = None
                 /\ durable fs /\ atomic (Some (canonical_bytes s)) fs
                 /\ exists current, denotes json_parse account (final_content base) current
                      /\ canonical_bytes current = canonical_bytes expected).
Proof.
  intros C. set (I := atomic (Some (canonical_bytes s))).
  assert (forall fs, untouched fs -> I fs) as UI by (intros fs [_ H]; now apply kept_atomic).
  unfold rewrite_snapshot.
  eapply triple_bind; [eapply triple_reads; [exact UI | apply reads_reason] | cbv beta; intros d].
  eapply triple_bind; [eapply triple_reads; [intros fs (_ & H); exact (UI _ H)
    | apply inspect_image_reads, quiet] | cbv beta; intros image].
  eapply triple_bind; [eapply triple_reads; [intros fs (_ & _ & H); exact (UI _ H)
    | apply reads_guarded] | cbv beta; intros ?].
  set (cas := exists current, denotes json_parse account (final_content base) current
    /\ canonical_bytes current = canonical_bytes expected).
  apply (triple_pre _ (fun fs => (d = s /\ cas) /\ untouched fs)).
  { intros fs (G & (H & _) & D & U). split; [|exact U]. split; [congruence|].
    destruct U as [_ O]. rewrite (kept_content _ _ O) in H. exists (snapshot image).
    split; [exact H|]. bool_split. now str_bool. }
  apply triple_pure. intros [-> CAS].
  eapply triple_skip; [exact UI | apply open_root_reads, quiet | intros ?]. skip_read.
  pose proof (writing_atomic (Some (canonical_bytes s))) as WI.
  eapply (triple_phase I _ _ _ (fun ino => writing false ino EmptyString));
    [exact UI | intros; eapply WI; eassumption | exact create_temp_writing | intros ino].
  eapply (triple_phase I _ _ _ (fun _ => writing false ino EmptyString));
    [apply WI | intros _; apply WI | intros ? ? ?; apply chmod_writing | intros ?].
  specialize (WI false ino EmptyString) as WE. do 2 skip_read.
  eapply triple_skip; [exact WE | apply reads_classified | intros ?].
  eapply triple_bind; [apply write_all_writing|]. intros ?. cbv beta.
  change ("" +++ canonical_bytes s) with (canonical_bytes s).
  specialize (WI false ino (canonical_bytes s)) as WF. skip_read.
  eapply (triple_phase I _ _ _ (fun _ => writing true ino (canonical_bytes s)));
    [exact WF | intros _; apply WI | intros ? ? ?; apply sync_writing | intros ?].
  specialize (WI true ino (canonical_bytes s)) as WT. do 8 skip_read.
  pose proof (renamed_atomic ino (canonical_bytes s)) as RI.
  eapply (triple_phase I _ _ _ (fun _ => renamed ino (canonical_bytes s)));
    [exact WT | intros _; exact RI | intros ? ? ?; apply rename_done | intros ?].
  do 5 skip_read.
  eapply (triple_phase I _ _ _ (fun _ fs => renamed ino (canonical_bytes s) fs
    /\ final_content fs = Some (canonical_bytes s) /\ durable fs));
    [exact RI | intros _ fs (R & _); exact (RI _ R) | intros ? ? ?; apply sync_names_durable | intros ?].
  intros w (R & F & D) L. cbn. split; [exact L|]. pose proof (RI _ R) as A. destruct R as (_ & T & _).
  repeat (split; [assumption || reflexivity|]). exact CAS.
Qed.
End rewriting.

(** * Theorems *)

(** C3.  Rewriting the store is atomic and durable, in a directory only this
    process changes during the call: whatever system calls fail and wherever the
    machine stops, the final name holds the text it had or the complete new text,
    and a crash, which keeps only what was synced, leaves a text it could already
    leave before the call, or the complete new text (so the old or the new text,
    when the store was durable before).  When the rewrite reports success, the
    store held the expected snapshot before, no temporary file is left, and the
    new text is durable: it is the only one a crash can leave. *)
Theorem rewrite_crash_safe env json_parse account store_path uid expected desired s w :
  undisturbed env -> linked (fs w) -> log w = [] ->
  canonicalize_snapshot desired account = Ok s ->
  let '(r, w') := rewrite_snapshot env json_parse account store_path uid expected desired w in
  Forall (fun d =>
      (final_content d = final_content (fs w) \/ final_content d = Some (canonical_bytes s))
      /\ (forall t, crash_text d t -> crash_text (fs w) t \/ t = Some (canonical_bytes s))
      /\ (durable (fs w) -> forall t, crash_text d t ->
            t = final_content (fs w) \/ t = Some (canonical_bytes s))) (fs w' :: log w')
  /\ (forall s', r = Ok s' ->
      s' = s /\ final_content (fs w') = Some (canonical_bytes s) /\ temp_ino (fs w') = None
      /\ (forall t, crash_text (fs w') t -> t = Some (canonical_bytes s))
      /\ exists current, denotes json_parse account (final_content (fs w)) current
           /\ canonical_bytes current = canonical_bytes expected).
Proof.
  intros Q L G C.
  assert (Forall (atomic (fs w) (Some (canonical_bytes s))) (log w)) as K by (rewrite G; constructor).
  pose proof (rewrite_triple env json_parse account store_path uid Q (fs w)
    expected desired s C w (conj L (kept_refl _)) K) as T.
  destruct (rewrite_snapshot _ _ _ _ _ _ _ w) as [r w']; cbn [fst snd] in T.
  assert (Forall (atomic (fs w) (Some (canonical_bytes s))) (fs w' :: log w')) as A.
  { destruct T as [T1 T2]. constructor; [|exact T1]. now destruct r; [apply T2|]. }
  split.
  - eapply Forall_impl; [|exact A]. intros d [V X]. split; [exact V|]. split; [exact X|].
    intros D t Ct. destruct (X t Ct) as [B|B]; [left; exact (D t B) | now right].
  - intros s' ->. destruct T as (_ & -> & T1 & T2 & D & _ & T3).
    repeat (split; [assumption || reflexivity|]). split; [|exact T3].
    intros t Ct. rewrite <- T1. exact (D t Ct).
Qed.

(** A directory with no store, a parser that knows one text, and an environment
    in which nothing fails. *)
Definition calm : Env :=
  {| os_fails := fun _ => false; os_count := fun _ => 4096%nat; disturb := fun _ fs => fs;
     lease_error := None; interruption := fun _ => None;
     fresh := fun fs => match final_ino fs with Some i => i + 1 | None => 1 end;
     device_uid := (5, 1000) |}.

Definition empty_directory : Fs :=
  {| root_meta := {| st_dev := 5; st_ino := 2; st_size := 0; st_mode := 0x41C0; st_uid := 1000;
                     st_nlink := 2 |};
     final_ino := None; temp_ino := None; unsynced_names := []; inodes := fun _ => None |}.

Definition start : World := {| fs := empty_directory; ticks := 0; log := [] |}.

Lemma start_linked : linked (fs start).
Proof. intros i [[=]|[]]. Qed.

Definition empty_store : IdempotencySnapshot :=
  {| entries := []; canonical_bytes := CanonicalJson.emit (snapshot_document []) |}.

(** The first entry of a store that has no file yet. *)
Lemma rewrite_crash_safe_witness :
  exists s w',
    rewrite_snapshot calm (fun _ => None) "main" sample_store 1000 empty_store [archive_entry] start
      = (Ok s, w')
    /\ final_content (fs w') = Some (canonical_bytes s) /\ temp_ino (fs w') = None
    /\ forall t, crash_text (fs w') t -> t = Some (canonical_bytes s).
Proof.
  destruct (is_ok_inv _ archive_snapshot) as (s & C). exists s.
  pose proof (rewrite_crash_safe calm (fun _ => None) "main" sample_store 1000 empty_store
    [archive_entry] s start (fun _ _ => eq_refl) start_linked eq_refl C) as T.
  destruct (rewrite_snapshot _ _ _ _ _ _ _ start) as [r w'] eqn:R. exists w'.
  assert (is_ok r = true) as K.
  { change r with (fst (r, w')). rewrite <- R. vm_compute. reflexivity. }
  destruct T as [_ T]. destruct r as [s'|e]; [|discriminate].
  destruct (T s' eq_refl) as (-> & T1 & T2 & T3 & _).
  split; [reflexivity|]. split; [exact T1|]. split; assumption.
Defined.

(** * The operations *)

(** During and after an operation, the final name holds the old text or [new],
    and a crash leaves what it could leave before, or [new]. *)
Definition survives (w w' : World) (new : option string) : Prop :=
  Forall (atomic (fs w) new) (fs w' :: log w').

(** The operation did not touch the directory. *)
Definition left_alone (w w' : World) : Prop := fs w' = fs w /\ log w' = log w.

Section operations.
Variable env : Env.
Variable json_parse : string -> option (json * bool).
Variables (account store_path : string) (uid : Z).
Hypothesis quiet : undisturbed env.

Lemma survives_same w w' new : left_alone w w' -> log w = [] -> survives w w' new.
Proof.
  intros [F G] L. unfold survives. rewrite F, G, L. constructor; [|constructor].
  apply kept_atomic, kept_refl.
Qed.

(** A rewrite changes nothing or replaces the text by the one of [desired]. *)
Lemma rewrite_result current desired w :
  linked (fs w) -> log w = [] ->
  let '(r, w') := rewrite_snapshot env json_parse account store_path uid current desired w in
  match canonicalize_snapshot desired account with
  | Ok s => survives w w' (Some (canonical_bytes s))
            /\ (forall s', r = Ok s' -> s' = s /\ final_content (fs w') = Some (canonical_bytes s)
                                       /\ durable (fs w'))
  | Err _ => left_alone w w' /\ is_ok r = false
  end.
Proof.
  intros L G. destruct (canonicalize_snapshot desired account) as [s|x] eqn:C.
  - assert (Forall (atomic (fs w) (Some (canonical_bytes s))) (log w)) as K by (rewrite G; constructor).
    pose proof (rewrite_triple env json_parse account store_path uid quiet (fs w)
      current desired s C w (conj L (kept_refl _)) K) as T.
    destruct (rewrite_snapshot _ _ _ _ _ _ _ w) as [r w']; cbn [fst snd] in T; destruct T as [T1 T2].
    split; [constructor; [now destruct r; [apply T2|] | exact T1]|].
    intros s' ->. destruct T2 as (-> & T2 & _ & D & _). auto.
  - unfold rewrite_snapshot, ibind. rewrite C. cbn. repeat split.
Qed.

(** What every operation that goes through [mutate_owned_entry] does: it leaves
    the directory alone, or its caller owns the entry and the store becomes the
    one with that entry, and no other, replaced by its mutation. *)
Definition mutates key invocation (mutation : IdempotencyEntry -> result string IdempotencyEntry) w w'
    (s : IdempotencySnapshot) : Prop :=
  exists current n e e', denotes json_parse account (final_content (fs w)) current
    /\ find_entry (entries current) key = Some (n, e) /\ entry_invocation_id e = invocation
    /\ mutation e = Ok e' /\ entry_eqb e' e = false
    /\ canonicalize_snapshot (replace_at n e' (entries current)) account = Ok s
    /\ survives w w' (Some (canonical_bytes s)).

Lemma mutate_spec key invocation mutation preserve w :
  linked (fs w) -> log w = [] ->
  let '(r, w') := mutate_owned_entry env json_parse account store_path uid key invocation mutation
                    preserve w in
  match w_status r with
  | Applied => mutates key invocation mutation w w' (w_snapshot r)
               /\ final_content (fs w') = Some (canonical_bytes (w_snapshot r)) /\ durable (fs w')
  | WriteFailure => w_failure r <> None
                    /\ (left_alone w w' \/ exists s, mutates key invocation mutation w w' s)
  | Unchanged =>
      left_alone w w' /\ denotes json_parse account (final_content (fs w)) (w_snapshot r)
      /\ exists n e, find_entry (entries (w_snapshot r)) key = Some (n, e)
                     /\ entry_invocation_id e = invocation
  | IncumbentPreserved =>
      preserve = true /\ left_alone w w' /\ denotes json_parse account (final_content (fs w)) (w_snapshot r)
  end.
Proof.
  intros L K. unfold mutate_owned_entry, attempt.
  destruct (inspect_image_reads env json_parse account store_path uid quiet true w) as (F & G & H).
  destruct (inspect_image _ _ _ _ _ true w) as [[image|e] w1]; cbn [fst snd] in *.
  2:{ split; [discriminate | left; now split]. }
  destruct (H image eq_refl) as (D & _). assert (left_alone w w1) as S by now split.
  destruct (temp_present image); [split; [discriminate | now left]|].
  destruct (find_entry _ key) as [[n e]|] eqn:E; [|split; [discriminate | now left]].
  destruct (String.eqb_spec (entry_invocation_id e) invocation) as [I|I]; cbn [negb].
  2:{ destruct preserve; [cbn; auto | split; [discriminate | now left]]. }
  destruct (mutation e) as [e'|d] eqn:M; [|split; [discriminate | now left]].
  destruct (entry_eqb e' e) eqn:EE; [cbn; eauto 10|].
  pose proof (rewrite_result (snapshot image) (replace_at n e' (entries (snapshot image))) w1) as R.
  rewrite F, G in R. specialize (R L K).
  destruct (rewrite_snapshot _ _ _ _ _ _ _ w1) as [[s|x] w2].
  all: destruct (canonicalize_snapshot _ account) as [p|y] eqn:C;
    [|destruct R as [[R1 R2] R3]; first [discriminate R3 | split; [discriminate | left; split; congruence]]].
  all: destruct R as [R1 R2]; unfold survives in R1; rewrite F in R1.
  - destruct (R2 s eq_refl) as (-> & R3 & R4). cbn. split; [|now split].
    exists (snapshot image), n, e, e'. auto 10.
  - split; [discriminate|]. right. exists p, (snapshot image), n, e, e'. auto 10.
Qed.
End operations.

(** Entries of a store on disk equal themselves: they hold no
    floating-point number. *)
Lemma canonicalizable_float_free v : canonicalizable v = true -> float_free v = true.
Proof.
  induction v as [| | | | | |l IH|m IH] using json_nested_ind; cbn; try reflexivity; try discriminate;
    rewrite !forallb_forall; intros C x Hx; rewrite Forall_forall in IH.
  - exact (IH x Hx (C x Hx)).
  - specialize (C x Hx). bool_split. exact (IH x Hx H0).
Qed.

Lemma entry_eqb_refl e : canonicalizable (entry_json e) = true -> entry_eqb e e = true.
Proof.
  intros C. apply entry_canonicalizable in C as (_ & _ & _ & P & T & F & _ & R).
  unfold entry_eqb, opt_json_eqb. rewrite !String.eqb_refl, !eqb_refl, !Z.eqb_refl.
  rewrite !json_eqb_refl by (apply canonicalizable_float_free; assumption).
  destruct (spool e) as [s|]; [rewrite eqb_refl|]; (destruct (terminal e) as [t|]; [|reflexivity]);
    cbn in R; rewrite json_eqb_refl by (apply canonicalizable_float_free; exact R); reflexivity.
Qed.

(** A denoted snapshot is canonical. *)
Lemma denotes_canonical json_parse account text s :
  denotes json_parse account text s -> canonical_entries account (entries s).
Proof.
  unfold denotes. destruct text as [bytes|].
  - unfold decode_snapshot. intros H. apply check_seq in H as [_ H]. inv_bind H. destruct a as [d b].
    apply check_seq in H as [_ H]. apply check_seq in H as [_ H]. inv_bind H. inv_bind H.
    apply check_seq in H as [_ H]. apply ok_inj in H as <-.
    now apply canonicalize_iff in E1 as [E1 ->].
  - intros H. now apply canonicalize_iff in H as [H ->].
Qed.

Lemma denotes_functional json_parse account text s s' :
  denotes json_parse account text s -> denotes json_parse account text s' -> s = s'.
Proof. unfold denotes. destruct text; congruence. Qed.

(** A completion that changes the entry records the terminal of a pending one. *)
Lemma complete_transition_pending account t e e' :
  canonicalizable (entry_json e) = true ->
  complete_transition t account e = Ok e' -> entry_eqb e' e = false ->
  state e = Pending /\ e' = with_terminal e t.
Proof.
  intros X T N. unfold complete_transition in T. apply check_seq in T as [_ T].
  destruct (state e) eqn:St; apply check_seq in T as [_ T]; apply ok_inj in T as <-; [auto|].
  rewrite (entry_eqb_refl _ X) in N. discriminate.
Qed.

(** The completion of [key] by [invocation] with [t]: the owner's entry is
    pending, and the store becomes the one in which it is completed. *)
Definition completes json_parse account key invocation t w w' (s : IdempotencySnapshot) : Prop :=
  exists current n e, denotes json_parse account (final_content (fs w)) current
    /\ find_entry (entries current) key = Some (n, e) /\ entry_invocation_id e = invocation
    /\ state e = Pending
    /\ entries s = replace_at n (with_terminal e t) (entries current)
    /\ survives w w' (Some (canonical_bytes s)).

Lemma mutates_completes json_parse account key invocation t w w' s :
  mutates json_parse account key invocation (complete_transition t account) w w' s ->
  completes json_parse account key invocation t w w' s.
Proof.
  intros (current & n & e & e' & D & F & I & T & N & C & S). exists current, n, e.
  pose proof (denotes_canonical _ _ _ _ D) as CE.
  pose proof F as F'. apply (find_entry_some None _ _ _ _ (ce_sorted _ _ CE)) in F' as [F' _].
  pose proof (ce_text _ _ CE) as X. rewrite Forall_forall in X.
  destruct (complete_transition_pending _ _ _ _ (X e (nth_error_In _ _ F')) T N) as [P ->].
  apply canonicalize_iff in C as [_ ->]. cbn [entries canonical_bytes] in *. auto 10.
Qed.

(** C23.  Completing an entry on disk, in a directory only this process changes
    during the call: when the call reports that the completion was applied, the
    caller owned the entry, it was pending, exactly that entry was replaced by
    itself with the terminal, and the new text is in place and durable.  A call
    that fails left the directory alone, or it was such an owner's call and at
    every moment and after every crash the store is what it was or that same
    completed store.  A call for a key that is absent, or whose entry belongs to
    another invocation, fails and writes nothing. *)
Theorem complete_refines env json_parse account store_path uid key invocation t w :
  undisturbed env -> linked (fs w) -> log w = [] ->
  let '(r, w') := complete env json_parse account store_path uid key invocation t w in
  match w_status r with
  | Applied => completes json_parse account key invocation t w w' (w_snapshot r)
               /\ final_content (fs w') = Some (canonical_bytes (w_snapshot r)) /\ durable (fs w')
  | WriteFailure => left_alone w w' \/ exists s, completes json_parse account key invocation t w w' s
  | Unchanged => left_alone w w'
  | IncumbentPreserved => False
  end
  /\ (forall current, denotes json_parse account (final_content (fs w)) current ->
      (forall n e, find_entry (entries current) key = Some (n, e) -> entry_invocation_id e <> invocation) ->
      w_status r = WriteFailure /\ left_alone w w').
Proof.
  intros Q L G. unfold complete.
  pose proof (mutate_spec env json_parse account store_path uid Q key invocation
    (complete_transition t account) false w L G) as M.
  destruct (mutate_owned_entry _ _ _ _ _ _ _ _ _ w) as [r w'].
  assert (forall current s, denotes json_parse account (final_content (fs w)) current ->
    (forall n e, find_entry (entries current) key = Some (n, e) -> entry_invocation_id e <> invocation) ->
    ~ completes json_parse account key invocation t w w' s) as X.
  { intros current s D H (c & n & e & D' & F & I & _). rewrite (denotes_functional _ _ _ _ _ D' D) in F.
    exact (H n e F I). }
  destruct (w_status r).
  - destruct M as (M & F & D). apply mutates_completes in M. split; [now split|].
    intros c D' H. destruct (X c _ D' H M).
  - destruct M as (A & D & n & e & F & I). split; [exact A|]. intros c D' H.
    rewrite (denotes_functional _ _ _ _ _ D D') in F. destruct (H n e F I).
  - now destruct M.
  - destruct M as (_ & M). assert (left_alone w w' \/
      exists s, completes json_parse account key invocation t w w' s) as M'.
    { destruct M as [M|[s M]]; [now left | right; exists s; now apply mutates_completes]. }
    split; [exact M'|]. intros c D' H. split; [reflexivity|].
    destruct M' as [A|[s A]]; [exact A | destruct (X c s D' H A)].
Qed.

(** A directory whose store holds one pending entry, and a parser of its text. *)
Definition stored_text : string := CanonicalJson.emit (snapshot_document [archive_entry]).

Definition stored_directory : Fs :=
  {| root_meta := root_meta empty_directory; final_ino := Some 1; temp_ino := None; unsynced_names := [];
     inodes := fun i => if i =? 1
                        then Some {| n_dev := 5; n_mode := 0x8180; n_uid := 1000; n_nlink := 1;
                                     content := stored_text; synced := true |}
                        else None |}.

Definition stored_parse (text : string) : option (json * bool) :=
  if String.eqb text stored_text then Some (reparsed (snapshot_document [archive_entry]), false)
  else None.

Definition stored : World := {| fs := stored_directory; ticks := 0; log := [] |}.

Lemma stored_linked : linked (fs stored).
Proof. intros i [[= <-]|[]]. discriminate. Qed.

(** The pending archive is completed by its owner. *)
Lemma complete_refines_witness :
  let '(r, w') := complete calm stored_parse "main" sample_store 1000 sample_key
                    "00112233445566778899aabbccddeeff" archive_terminal stored in
  w_status r = Applied /\ final_content (fs w') = Some (canonical_bytes (w_snapshot r)) /\ durable (fs w').
Proof.
  pose proof (complete_refines calm stored_parse "main" sample_store 1000 sample_key
    "00112233445566778899aabbccddeeff" archive_terminal stored (fun _ _ => eq_refl) stored_linked
    eq_refl) as T.
  destruct (complete _ _ _ _ _ _ _ _ stored) as [r w'] eqn:R.
  assert (w_status r = Applied) as A.
  { change r with (fst (r, w')). rewrite <- R. vm_compute. reflexivity. }
  rewrite A in T. destruct T as ((_ & F) & _). split; assumption.
Defined.

(** The insertion of [e]: no entry has its key, and the store becomes the one
    with exactly the old entries and [e]. *)
Definition inserts json_parse account (e : IdempotencyEntry) w w' (s : IdempotencySnapshot) : Prop :=
  exists current, denotes json_parse account (final_content (fs w)) current
    /\ ~ In (key_hash e) (map key_hash (entries current))
    /\ (forall x, In x (entries s) <-> x = e \/ In x (entries current))
    /\ survives w w' (Some (canonical_bytes s)).

(** C22.  Inserting an entry, in a directory only this process changes during the
    call: it is written only when no entry has its key, the new store has exactly
    the old entries and the new one, a lookup then finds it, and the new text is
    in place and durable; an incumbent is reported with nothing changed; and a
    call that fails left the directory alone, or the store is, at every moment
    and after every crash, what it was or that same new store. *)
Theorem insert_refines env json_parse account store_path uid e w :
  undisturbed env -> linked (fs w) -> log w = [] ->
  let '(r, w') := insert_if_absent env json_parse account store_path uid e w in
  (left_alone w w' \/ exists s, inserts json_parse account e w w' s)
  /\ (n_status r = Inserted ->
      inserts json_parse account e w w' (n_snapshot r)
      /\ lookup (n_snapshot r) (key_hash e) (request_fingerprint e)
         = {| l_status := PendingHit; l_incumbent := Some e |}
      /\ final_content (fs w') = Some (canonical_bytes (n_snapshot r)) /\ durable (fs w'))
  /\ (n_status r = UnexpectedIncumbent ->
      left_alone w w' /\ exists found, n_incumbent r = Some found /\ key_hash found = key_hash e).
Proof.
  intros Q L G. unfold insert_if_absent.
  destruct (negb (eqb (state e) Pending) || negb (valid_entry e account)) eqn:B.
  { split; [left; now split | split; discriminate]. }
  unfold attempt. destruct (inspect_image_reads env json_parse account store_path uid Q true w) as (F & G' & H).
  destruct (inspect_image _ _ _ _ _ true w) as [[image|x] w1]; cbn [fst snd] in *.
  2:{ split; [left; now split | split; discriminate]. }
  destruct (H image eq_refl) as (D & _). pose proof (denotes_canonical _ _ _ _ D) as CE.
  pose proof (ce_sorted _ _ CE) as SO. assert (left_alone w w1) as S by now split.
  destruct (temp_present image); [split; [now left | split; discriminate]|].
  destruct (find_entry _ (key_hash e)) as [[n found]|] eqn:E.
  { split; [now left|]. split; [discriminate|]. intros _. split; [exact S|].
    exists found. split; [reflexivity|]. now apply (find_entry_some None _ _ _ _ SO) in E. }
  apply (find_entry_none None _ _ SO) in E. unfold notify. rewrite Q.
  destruct (Nat.leb _ _); [split; [now left | split; discriminate]|].
  destruct (canonicalize_snapshot (insert_at _ e _) account) as [p|x] eqn:C;
    [|split; [now left | split; discriminate]].
  set (w2 := {| fs := fs w1; ticks := ticks w1; log := log w1 |}).
  pose proof (rewrite_result env json_parse account store_path uid Q (snapshot image) (entries p) w2) as R.
  apply canonicalize_iff in C as [CI ->]. cbn [fs log w2 entries] in R. rewrite F, G' in R.
  specialize (R L G). rewrite (proj2 (canonicalize_iff account _ _) (conj CI eq_refl)) in R.
  set (p := {| entries := _; canonical_bytes := _ |}) in R.
  cbn [entries]. destruct (rewrite_snapshot _ _ _ _ _ _ _ w2) as [r w3]. destruct R as [R1 R2].
  unfold survives in R1. cbn [fs w2] in R1. rewrite F in R1.
  assert (inserts json_parse account e w w3 p) as IN.
  { exists (snapshot image). repeat (split; [assumption|]). split; [intros y; apply insert_at_In | exact R1]. }
  destruct r as [s|x]; [|split; [right; now exists p | split; discriminate]].
  destruct (R2 s eq_refl) as (-> & R3 & R4). split; [right; now exists p|]. split; [|discriminate].
  intros _. split; [exact IN|]. split; [|now split]. unfold lookup. cbn [n_snapshot entries p].
  assert (find_entry (insert_at (lower_bound (entries (snapshot image)) (key_hash e)) e
            (entries (snapshot image))) (key_hash e)
          = Some (lower_bound (entries (snapshot image)) (key_hash e), e)) as ->.
  { apply (find_entry_some None _ _ _ _ (ce_sorted _ _ CI)). split; [|reflexivity].
    apply insert_at_nth. rewrite (lower_bound_spec _ None _ SO). apply below_length. }
  rewrite String.eqb_refl. cbn [negb]. apply orb_false_iff in B as [B _]. apply negb_false_iff, eqb_eq in B. now rewrite B.
Qed.

Lemma insert_refines_witness :
  let '(r, w') := insert_if_absent calm (fun _ => None) "main" sample_store 1000 archive_entry start in
  n_status r = Inserted /\ final_content (fs w') = Some (canonical_bytes (n_snapshot r)).
Proof.
  pose proof (insert_refines calm (fun _ => None) "main" sample_store 1000 archive_entry start
    (fun _ _ => eq_refl) start_linked eq_refl) as T.
  destruct (insert_if_absent _ _ _ _ _ _ start) as [r w'] eqn:R.
  assert (n_status r = Inserted) as A.
  { change r with (fst (r, w')). rewrite <- R. vm_compute. reflexivity. }
  destruct T as (_ & T & _). destruct (T A) as (_ & _ & F & _). split; assumption.
Defined.

(** The removal of the entries expired at [now]. *)
Definition sweeps json_parse account (now : Z) w w' (s : IdempotencySnapshot) : Prop :=
  exists current, denotes json_parse account (final_content (fs w)) current
    /\ entries s = filter (fun e => negb (expires_at e <=? now)) (entries current)
    /\ survives w w' (Some (canonical_bytes s)).

(** A sweep removes exactly the entries whose expiry has been reached: the
    others stay, in order, the removed ones are reported, and without an expired
    entry nothing is written. *)
Theorem sweep_exact env json_parse account store_path uid now w :
  undisturbed env -> linked (fs w) -> log w = [] ->
  let '(r, w') := sweep_expired env json_parse account store_path uid now w in
  (left_alone w w' \/ exists s, sweeps json_parse account now w w' s)
  /\ (w_status (sw_result r) = Applied ->
      sweeps json_parse account now w w' (w_snapshot (sw_result r))
      /\ (exists current, denotes json_parse account (final_content (fs w)) current
           /\ sw_removed r = filter (fun e => expires_at e <=? now) (entries current))
      /\ sw_removed r <> []
      /\ final_content (fs w') = Some (canonical_bytes (w_snapshot (sw_result r))))
  /\ (w_status (sw_result r) = Unchanged ->
      left_alone w w'
      /\ filter (fun e => expires_at e <=? now) (entries (w_snapshot (sw_result r))) = []).
Proof.
  intros Q L G. unfold sweep_expired. cbn zeta.
  destruct (_ <? now); [split; [left; now split | split; discriminate]|].
  unfold attempt. destruct (inspect_image_reads env json_parse account store_path uid Q true w) as (F & G' & H).
  destruct (inspect_image _ _ _ _ _ true w) as [[image|x] w1]; cbn [fst snd] in *.
  2:{ split; [left; now split | split; discriminate]. }
  destruct (H image eq_refl) as (D & _). assert (left_alone w w1) as S by now split.
  destruct (temp_present image); [split; [now left | split; discriminate]|].
  destruct (filter (fun e => expires_at e <=? now) (entries (snapshot image))) as [|x removed] eqn:X.
  { split; [now left|]. split; [discriminate|]. intros _. cbn. auto. }
  pose proof (rewrite_result env json_parse account store_path uid Q (snapshot image)
    (filter (fun e => negb (expires_at e <=? now)) (entries (snapshot image))) w1) as R.
  rewrite F, G' in R. specialize (R L G).
  destruct (rewrite_snapshot _ _ _ _ _ _ _ w1) as [r w2].
  destruct (canonicalize_snapshot _ account) as [p|y] eqn:C.
  - destruct R as [R1 R2]. unfold survives in R1. rewrite F in R1.
    apply canonicalize_iff in C as [_ ->]. set (p := {| entries := _; canonical_bytes := _ |}) in *.
    assert (sweeps json_parse account now w w2 p) as SW by (exists (snapshot image); auto).
    destruct r as [s|y]; [|split; [right; now exists p | split; discriminate]].
    destruct (R2 s eq_refl) as (-> & R3 & R4). split; [right; now exists p|]. split; [|discriminate].
    intros _. split; [exact SW|]. split; [exists (snapshot image); now rewrite X|]. split; [discriminate | exact R3].
  - destruct R as [[R1 R2] R3], r; [discriminate|].
    split; [left; split; congruence | split; discriminate].
Qed.

Lemma sweep_exact_witness :
  let '(r, w') := sweep_expired calm stored_parse "main" sample_store 1000 605800 stored in
  w_status (sw_result r) = Applied /\ sw_removed r <> [].
Proof.
  pose proof (sweep_exact calm stored_parse "main" sample_store 1000 605800 stored
    (fun _ _ => eq_refl) stored_linked eq_refl) as T.
  destruct (sweep_expired _ _ _ _ _ _ stored) as [r w'] eqn:R.
  assert (w_status (sw_result r) = Applied) as A.
  { change r with (fst (r, w')). rewrite <- R. vm_compute. reflexivity. }
  destruct T as (_ & T & _). destruct (T A) as (_ & _ & N & _). split; assumption.
Defined.
