(* ===== verification/ReconciliationFacts.v ===== *)
(** What reconciliation does to the store: the updates through pointers into the
    sorted vector amount to a map over its entries. *)
From S2P Require Import Prelude Json Operation DestructivePlan M6Domain AuditSchema AuditLog.
From S2P Require Import AuditSamples IdempotencyStore IdempotencyFacts IdempotencyFile AuditRecovery.
From S2P Require Import Effects SpoolInventory Reconciliation.
Import Audit.

(** * Specification *)

Definition optional_map {A B} (f : A -> option B) (l : list A) : list B :=
  flat_map (fun a => match f a with Some b => [b] | None => [] end) l.

(** Nothing is written where the documents are equal. *)
Definition update (old new : json) : json := if json_eqb old new then old else new.

(** A pending entry with everything the log knows of its progress. *)
Definition advanced (v : AccountAuditCompletedGroupView) (e : IdempotencyEntry) : IdempotencyEntry :=
  match state e with
  | Completed => e
  | Pending =>
      let e := if negb (has_value (spool e)) && has_value (v_spool v)
               then with_spool e (v_spool v) else e in
      with_progress e (update (temporary_message_ids e) (v_temporary_message_ids v))
        (update (forward_progress e) (v_forward_progress v))
  end.

Definition view_terminal (v : AccountAuditCompletedGroupView) : json :=
  match v_outcome v with Some o => jget o "terminal" | None => JNull end.

(** What a completed group makes of its entry: nothing, when nothing was mutated;
    completed with the terminal of the group, when that is known; still pending,
    when the effect on Telegram is unknown. *)
Definition settled (v : AccountAuditCompletedGroupView) (e : IdempotencyEntry) :
    option IdempotencyEntry :=
  if negb (mutates v)
     && negb (completed_mark_read_noop v match v_outcome v with Some o => o | None => JNull end)
  then None
  else if completed_terminal_retains_pending v then Some (advanced v e)
  else match state e with
       | Completed => Some e
       | Pending => Some (with_terminal (advanced v e) (view_terminal v))
       end.

Definition pinned (v : AccountAuditCompletedGroupView) (e : IdempotencyEntry) : bool :=
  pin_identity_eqb (entry_identity e) (view_identity v).

Definition settle_next (o : option IdempotencyEntry) (v : AccountAuditCompletedGroupView) :
    option IdempotencyEntry :=
  match o with
  | Some e => if pinned v e then settled v e else Some e
  | None => None
  end.

Definition settle_all (views : list AccountAuditCompletedGroupView) (e : IdempotencyEntry) :
    option IdempotencyEntry := fold_left settle_next views (Some e).

(** * Maps over sorted entries *)

Lemma optional_map_app {A B} (f : A -> option B) l r :
  optional_map f (l ++ r) = optional_map f l ++ optional_map f r.
Proof. apply flat_map_app. Qed.

Lemma optional_map_ext {A B} (f g : A -> option B) l :
  (forall a, In a l -> f a = g a) -> optional_map f l = optional_map g l.
Proof.
  induction l as [|a l IH]; intros H; [reflexivity|]. cbn.
  rewrite (H a) by now left. f_equal. apply IH. intros b I. apply H. now right.
Qed.

Lemma optional_map_in {A B} (f : A -> option B) l b :
  In b (optional_map f l) <-> exists a, In a l /\ f a = Some b.
Proof.
  unfold optional_map. rewrite in_flat_map. split; intros (a & I & H); exists a.
  - destruct (f a); cbn in H; [|tauto]. destruct H as [->|[]]. auto.
  - rewrite H. cbn. auto.
Qed.

(** Keys that ascend are distinct. *)
Lemma key_elsewhere a e b :
  ascending_from None (a ++ e :: b) -> forall x, In x (a ++ b) -> key_hash x <> key_hash e.
Proof.
  intros A x X K.
  assert (nth_error (a ++ e :: b) (List.length a) = Some e) as EI
    by (rewrite nth_error_app2, Nat.sub_diag by lia; reflexivity).
  assert (exists j, nth_error (a ++ e :: b) j = Some x /\ j <> List.length a) as (j & XJ & J).
  { apply in_app_or in X as [X|X]; apply In_nth_error in X as (j & XJ).
    - assert (j < List.length a)%nat by (apply nth_error_Some; congruence).
      exists j. rewrite nth_error_app1 by lia. split; [exact XJ | lia].
    - exists (List.length a + S j)%nat. rewrite nth_error_app2 by lia.
      replace (List.length a + S j - List.length a)%nat with (S j) by lia. split; [exact XJ | lia]. }
  pose proof (key_position None _ _ A _ _ EI eq_refl).
  pose proof (key_position None _ _ A _ _ XJ K). congruence.
Qed.

Section keys.
Context (f : IdempotencyEntry -> option IdempotencyEntry).
Hypothesis keeps : forall e e', f e = Some e' -> key_hash e' = key_hash e.

Lemma ascending_optional_map p l : ascending_from p l -> ascending_from p (optional_map f l).
Proof.
  revert p. induction l as [|e l IH]; intros p; [auto|]. cbn [ascending_from]. intros [K A].
  cbn. destruct (f e) as [e'|] eqn:F; cbn [app ascending_from].
  - rewrite (keeps _ _ F). auto.
  - apply IH. destruct l as [|x l]; [exact I|]. cbn [ascending_from] in *.
    destruct A as [X A]. split; [|exact A]. destruct p as [k|]; [|exact I].
    exact (str_ltb_trans _ _ _ K X).
Qed.

(** Replacing or erasing the entry a search finds. *)
Lemma optional_map_update l key n e' o :
  ascending_from None l -> find_entry (optional_map f l) key = Some (n, e') ->
  exists e, In e l /\ key_hash e = key /\ f e = Some e'
    /\ (match o with
        | Some x => replace_at n x (optional_map f l)
        | None => erase_at n (optional_map f l)
        end) = optional_map (fun x => if String.eqb (key_hash x) key then o else f x) l.
Proof.
  intros A F. pose proof (ascending_optional_map _ _ A) as A'.
  apply (find_entry_some None _ _ _ _ A') in F as [N K].
  destruct (proj1 (optional_map_in f l e') (nth_error_In _ _ N)) as (e & I & E).
  exists e. pose proof (keeps _ _ E) as KE. repeat split; [exact I | congruence | exact E |].
  destruct (in_split _ _ I) as (a & b & ->).
  rewrite !optional_map_app in *. cbn [optional_map flat_map] in *. fold (optional_map f b) in *.
  rewrite E in *. cbn [app] in *.
  assert (n = List.length (optional_map f a)) as ->.
  { apply (key_position None _ key A') in N; [|exact K]. rewrite N. symmetry.
    apply (key_position None _ key A' _ e'); [|exact K].
    rewrite nth_error_app2, Nat.sub_diag by lia. reflexivity. }
  assert (forall x, In x a \/ In x b -> String.eqb (key_hash x) key = false) as O.
  { intros x X. apply String.eqb_neq. intros KX. apply (key_elsewhere a e b A x); [|congruence].
    apply in_or_app. tauto. }
  replace (String.eqb (key_hash e) key) with true by (symmetry; apply String.eqb_eq; congruence).
  rewrite (optional_map_ext (fun x => if String.eqb (key_hash x) key then o else f x) f a)
    by (intros x X; rewrite O; auto).
  fold (optional_map (fun x => if String.eqb (key_hash x) key then o else f x) b).
  rewrite (optional_map_ext (fun x => if String.eqb (key_hash x) key then o else f x) f b)
    by (intros x X; rewrite O; auto).
  unfold replace_at, erase_at.
  rewrite firstn_app, Nat.sub_diag, firstn_all, app_nil_r.
  rewrite skipn_app, skipn_all2 by lia.
  replace (S (List.length (optional_map f a)) - List.length (optional_map f a))%nat with 1%nat by lia.
  destruct o; reflexivity.
Qed.
End keys.

(** * One group *)

Lemma pin_identity_eqb_eq a b : pin_identity_eqb a b = true <-> a = b.
Proof.
  destruct a as [[[g i] f] o], b as [[[g' i'] f'] o']. unfold pin_identity_eqb.
  rewrite !andb_true_iff, Z.eqb_eq, !String.eqb_eq, eqb_eq. intuition congruence.
Qed.

(** Contradictions stay, and only they stop an update. *)
Definition consistent (s : CompletedRelationState) : Prop := relation_contradiction s = EmptyString.

Lemma select_inconsistent detail s :
  detail <> EmptyString -> ~ consistent (select_contradiction detail s).
Proof.
  unfold consistent, select_contradiction. intros D.
  destruct (relation_contradiction s) eqn:E; cbn; [exact D | rewrite E; discriminate].
Qed.

(** Completed entries carry no progress. *)
Definition quiescent (e : IdempotencyEntry) : Prop :=
  state e = Completed -> jempty (temporary_message_ids e) = true /\ jempty (forward_progress e) = true.

Lemma apply_audit_progress_spec e v s :
  quiescent e -> consistent s ->
  let e0 := if eqb (state e) Pending && negb (has_value (spool e)) && has_value (v_spool v)
            then with_spool e (v_spool v) else e in
  let '(ok, e', s') :=
    apply_audit_progress e0 (v_temporary_message_ids v) (v_forward_progress v) s in
  (if ok then e' = advanced v e /\ s' = s else ~ consistent s').
Proof.
  intros Q C. unfold apply_audit_progress, advanced. destruct (state e) eqn:S.
  - change (eqb Pending Pending) with true. cbn [andb].
    assert (state (if negb (has_value (spool e)) && has_value (v_spool v)
                   then with_spool e (v_spool v) else e) = Pending) as ->
      by (destruct (_ && _); exact S).
    change (eqb Pending Completed) with false. cbv iota zeta.
    generalize (if negb (has_value (spool e)) && has_value (v_spool v)
                then with_spool e (v_spool v) else e). intros e0. unfold update.
    destruct (json_eqb (temporary_message_ids e0) (v_temporary_message_ids v)) eqn:T.
    + cbn [negb andb].
      destruct (json_eqb (forward_progress e0) (v_forward_progress v)) eqn:P; cbn [negb].
      * split; [destruct e0; reflexivity | reflexivity].
      * destruct (_ || _); [apply select_inconsistent; discriminate | auto].
    + cbn [negb andb]. destruct (array_prefix _ _); cbn [negb];
        [|apply select_inconsistent; discriminate].
      change (forward_progress (with_progress e0 (v_temporary_message_ids v) (forward_progress e0)))
        with (forward_progress e0).
      destruct (json_eqb (forward_progress e0) (v_forward_progress v)) eqn:P; cbn [negb].
      * auto.
      * destruct (_ || _); [apply select_inconsistent; discriminate | auto].
  - change (eqb Completed Pending) with false. cbn [andb]. rewrite S.
    change (eqb Completed Completed) with true. cbv iota zeta.
    destruct (Q S) as [-> ->]. cbn. auto.
Qed.

Lemma advanced_state v e : state (advanced v e) = state e.
Proof. unfold advanced. destruct (state e) eqn:S; [|exact S]. now destruct (_ && _). Qed.

Lemma advanced_terminal v e : terminal (advanced v e) = terminal e.
Proof. unfold advanced. destruct (state e) eqn:S; [|reflexivity]. now destruct (_ && _). Qed.

Lemma advanced_identity v e :
  key_hash (advanced v e) = key_hash e /\ entry_identity (advanced v e) = entry_identity e.
Proof. unfold advanced. destruct (state e); [|auto]. now destruct (_ && _). Qed.

Lemma settled_identity v e e' :
  settled v e = Some e' -> key_hash e' = key_hash e /\ entry_identity e' = entry_identity e.
Proof.
  unfold settled. destruct (_ && _); [discriminate|].
  destruct (completed_terminal_retains_pending v); [|destruct (state e)]; intros [= <-]; auto;
    apply (advanced_identity v e).
Qed.

Lemma settled_quiescent v e e' : quiescent e -> settled v e = Some e' -> quiescent e'.
Proof.
  intros Q. unfold settled. destruct (_ && _); [discriminate|].
  destruct (completed_terminal_retains_pending v).
  - intros [= <-]. unfold quiescent. rewrite advanced_state. intros S. unfold advanced.
    rewrite S. exact (Q S).
  - destruct (state e); intros [= <-]; [|exact Q]. intros _. cbn. auto.
Qed.

(** * The entry a search finds *)

Lemma at_position a (e : IdempotencyEntry) b o :
  (match o with
   | Some x => replace_at (List.length a) x (a ++ e :: b)
   | None => erase_at (List.length a) (a ++ e :: b)
   end) = a ++ (match o with Some x => [x] | None => [] end) ++ b.
Proof.
  unfold replace_at, erase_at. rewrite firstn_app, Nat.sub_diag, firstn_all, app_nil_r.
  rewrite skipn_app, skipn_all2 by lia. replace (S (List.length a) - List.length a)%nat with 1%nat by lia.
  destruct o; reflexivity.
Qed.

Lemma find_entry_split l key n e :
  ascending_from None l -> find_entry l key = Some (n, e) ->
  exists a b, l = a ++ e :: b /\ List.length a = n /\ key_hash e = key.
Proof.
  intros A F. apply (find_entry_some None _ _ _ _ A) in F as [N K].
  apply nth_error_split in N as (a & b & -> & L). exists a, b. auto.
Qed.

Lemma find_entry_at a e b :
  ascending_from None (a ++ e :: b) ->
  find_entry (a ++ e :: b) (key_hash e) = Some (List.length a, e).
Proof.
  intros A. apply (find_entry_some None _ _ _ _ A). split; [|reflexivity].
  rewrite nth_error_app2, Nat.sub_diag by lia. reflexivity.
Qed.

(** Two writes through one pointer. *)
Lemma store_twice key e1 s n e o :
  ascending_from None (desired s) -> find_entry (desired s) key = Some (n, e) ->
  key_hash e1 = key_hash e ->
  desired (match o with
           | Some x => store_entry key x (store_entry key e1 s)
           | None => erase_entry key (store_entry key e1 s)
           end)
  = match o with
    | Some x => replace_at n x (desired s)
    | None => erase_at n (desired s)
    end.
Proof.
  intros A F K. destruct (find_entry_split _ _ _ _ A F) as (a & b & E & <- & <-).
  assert (desired (store_entry (key_hash e) e1 s) = a ++ e1 :: b) as D.
  { unfold store_entry. rewrite F. cbn. rewrite E. exact (at_position a e b (Some e1)). }
  assert (find_entry (desired (store_entry (key_hash e) e1 s)) (key_hash e)
          = Some (List.length a, e1)) as F'.
  { rewrite D, <- K. apply find_entry_at. rewrite E in A. exact (ascending_replace _ _ _ _ _ K A). }
  destruct o as [x|].
  - unfold store_entry at 1. rewrite F'. cbn. rewrite D, E.
    exact (eq_trans (at_position a e1 b (Some x)) (eq_sym (at_position a e b (Some x)))).
  - unfold erase_entry. rewrite F'. cbn. rewrite D, E.
    exact (eq_trans (at_position a e1 b None) (eq_sym (at_position a e b None))).
Qed.

Lemma store_once key e1 s n e :
  find_entry (desired s) key = Some (n, e) ->
  desired (store_entry key e1 s) = replace_at n e1 (desired s).
Proof. intros F. unfold store_entry. rewrite F. reflexivity. Qed.

Lemma store_frame key e s :
  relation_contradiction (store_entry key e s) = relation_contradiction s
  /\ pin_keys (store_entry key e s) = pin_keys s.
Proof. unfold store_entry. destruct (find_entry _ _) as [[n x]|]; auto. Qed.

Lemma erase_frame key s :
  relation_contradiction (erase_entry key s) = relation_contradiction s
  /\ pin_keys (erase_entry key s) = pin_keys s.
Proof. unfold erase_entry. destruct (find_entry _ _) as [[n x]|]; auto. Qed.

Lemma settle_entry_spec v outcome key e s n x :
  ascending_from None (desired s) -> find_entry (desired s) key = Some (n, x) ->
  key_hash e = key_hash x -> v_outcome v = Some outcome -> e = advanced v x ->
  let '(ok, s') := settle_entry v outcome key e (store_entry key e s) in
  consistent s' ->
  ok = true /\ pin_keys s' = pin_keys s
  /\ desired s' = match settled v x with
                  | Some x' => replace_at n x' (desired s)
                  | None => erase_at n (desired s)
                  end.
Proof.
  intros A F K O ->. unfold settle_entry, settled, view_terminal. rewrite O, advanced_state.
  rewrite advanced_terminal.
  pose proof (store_frame key (advanced v x) s) as [_ SF].
  destruct (negb (mutates v) && negb (completed_mark_read_noop v outcome)).
  { intros _. rewrite (proj2 (erase_frame _ _)), SF. repeat split.
    exact (store_twice key (advanced v x) s n x None A F K). }
  destruct (completed_terminal_retains_pending v); cbn [negb].
  - destruct (state x); cbn [eqb negb].
    + intros _. repeat split; [exact SF | exact (store_once _ _ _ _ _ F)].
    + intros C. now apply select_inconsistent in C.
  - destruct (state x) eqn:S.
    + intros _. rewrite (proj2 (store_frame _ _ _)), SF. repeat split.
      exact (store_twice key (advanced v x) s n x (Some _) A F K).
    + destruct (terminal x) as [t'|]; [destruct (json_eqb _ _)|]; intros C;
        try now apply select_inconsistent in C.
      repeat split; [exact SF|]. rewrite (store_once _ _ _ _ _ F). unfold advanced. now rewrite S.
Qed.

Lemma reconcile_entry_spec v outcome key s :
  ascending_from None (desired s) -> Forall quiescent (desired s) -> consistent s ->
  v_outcome v = Some outcome ->
  let '(ok, s') := reconcile_entry v outcome key s in
  consistent s' ->
  ok = true /\ pin_keys s' = pin_keys s
  /\ exists n e, find_entry (desired s) key = Some (n, e) /\ pinned v e = true
     /\ desired s' = match settled v e with
                     | Some x => replace_at n x (desired s)
                     | None => erase_at n (desired s)
                     end.
Proof.
  intros A Q C O. unfold reconcile_entry, found_entry.
  destruct (negb _); [intros H; now apply select_inconsistent in H|].
  destruct (find_entry (desired s) key) as [[n e]|] eqn:F; cbn [option_map snd];
    [|intros H; now apply select_inconsistent in H].
  destruct (same_invocation v e) eqn:SI; cbn [negb andb];
    [|intros H; now apply select_inconsistent in H].
  destruct (negb _); [intros H; now apply select_inconsistent in H|].
  destruct (match v_idempotency_pending v with Some _ => _ | None => _ end);
    [intros H; now apply select_inconsistent in H|].
  destruct (match spool e with Some _ => _ | None => _ end);
    [intros H; now apply select_inconsistent in H|].
  assert (quiescent e) as QE.
  { destruct (find_entry_split _ _ _ _ A F) as (a & b & E & _ & _). rewrite E in Q.
    apply Forall_app in Q as [_ Q]. inversion Q; assumption. }
  pose proof (apply_audit_progress_spec e v s QE C) as P. cbv zeta in P.
  destruct (apply_audit_progress _ _ _ s) as [[ok e'] s']. destruct ok; cbn [negb].
  - destruct P as [-> ->].
    pose proof (settle_entry_spec v outcome key (advanced v e) s n e A F
                  (proj1 (advanced_identity v e)) O eq_refl) as T.
    destruct (settle_entry _ _ _ _ _) as [ok s'']. intros H. destruct (T H) as (-> & PK & D).
    repeat split; [exact PK|]. exists n, e. repeat split; [|exact D].
    unfold pinned. apply pin_identity_eqb_eq. unfold same_invocation in SI. bool_split. str_bool.
    z_bool. apply eqb_eq in H1. unfold entry_identity, view_identity. congruence.
  - intros H. unfold consistent in H. rewrite (proj1 (store_frame _ _ _)) in H. contradiction.
Qed.

(** * All groups *)

Lemma find_pin_app id l r :
  find_pin id (l ++ r) = match find_pin id l with Some k => Some k | None => find_pin id r end.
Proof.
  unfold find_pin. induction l as [|p l IH]; [reflexivity|]. cbn [app find].
  destruct (pin_identity_eqb (fst p) id); [reflexivity | exact IH].
Qed.

Lemma find_pin_emplaced id l acc :
  find_pin id (fold_left emplace_pin l acc) =
  match find_pin id acc with
  | Some k => Some k
  | None => option_map key_hash (find (fun e => pin_identity_eqb (entry_identity e) id) l)
  end.
Proof.
  revert acc. induction l as [|e l IH]; intros acc; cbn [fold_left find]; [now destruct find_pin|].
  rewrite IH. unfold emplace_pin. destruct (find_pin (entry_identity e) acc) as [k|] eqn:E.
  - destruct (pin_identity_eqb (entry_identity e) id) eqn:I; [|reflexivity].
    apply pin_identity_eqb_eq in I as <-. rewrite E. reflexivity.
  - rewrite find_pin_app. destruct (find_pin id acc); [reflexivity|].
    unfold find_pin. cbn [find fst]. destruct (pin_identity_eqb (entry_identity e) id); reflexivity.
Qed.

Lemma settle_all_snoc views v e : settle_all (views ++ [v]) e = settle_next (settle_all views e) v.
Proof. unfold settle_all. rewrite fold_left_app. reflexivity. Qed.

Lemma settle_all_keeps views e e' :
  settle_all views e = Some e' ->
  key_hash e' = key_hash e /\ entry_identity e' = entry_identity e /\ (quiescent e -> quiescent e').
Proof.
  revert e'. induction views as [|v views IH] using rev_ind; intros e'.
  - intros [= <-]. auto.
  - rewrite settle_all_snoc. destruct (settle_all views e) as [x|]; [|discriminate]. cbn [settle_next].
    destruct (IH x eq_refl) as (K & I & Q). destruct (pinned v x).
    + intros S. destruct (settled_identity _ _ _ S) as [K' I'].
      split; [congruence|]. split; [congruence|]. intros H. exact (settled_quiescent _ _ _ (Q H) S).
    + intros [= <-]. auto.
Qed.

Lemma note_spool_frame v s :
  desired (note_spool v s) = desired s /\ pin_keys (note_spool v s) = pin_keys s
  /\ relation_contradiction (note_spool v s) = relation_contradiction s.
Proof. unfold note_spool. destruct (v_spool v); auto. Qed.

Lemma see_frame id s :
  desired (see id s) = desired s /\ pin_keys (see id s) = pin_keys s
  /\ relation_contradiction (see id s) = relation_contradiction s.
Proof. unfold see. destruct (existsb _ _); auto. Qed.

Section views.
Context (l : list IdempotencyEntry).
Hypothesis sorted : ascending_from None l.
Hypothesis quiet : Forall quiescent l.
Hypothesis invocations : NoDup (map entry_invocation_id l).

Definition reconciled (views : list AccountAuditCompletedGroupView) (s : CompletedRelationState) :
    Prop :=
  desired s = optional_map (settle_all views) l /\ pin_keys s = fold_left emplace_pin l [].

Lemma reconciled_sorted views : ascending_from None (optional_map (settle_all views) l).
Proof.
  apply ascending_optional_map; [|exact sorted]. intros e e' E. apply (settle_all_keeps _ _ _ E).
Qed.

Lemma reconciled_quiescent views : Forall quiescent (optional_map (settle_all views) l).
Proof.
  apply Forall_forall. intros e' I. apply optional_map_in in I as (e & I & E).
  rewrite Forall_forall in quiet. exact (proj2 (proj2 (settle_all_keeps _ _ _ E)) (quiet _ I)).
Qed.

(** The key of a pin is the key of the one entry with its identity. *)
Lemma pin_exact v key e :
  find_pin (view_identity v) (fold_left emplace_pin l []) = Some key -> In e l ->
  (String.eqb (key_hash e) key = pinned v e).
Proof.
  intros P I. rewrite find_pin_emplaced in P. change (find_pin (view_identity v) []) with (@None string) in P.
  destruct (find _ l) as [x|] eqn:F; [|discriminate]. injection P as <-.
  apply find_some in F as [X PX]. fold (pinned v x) in PX.
  destruct (pinned v e) eqn:PE.
  - apply String.eqb_eq. f_equal. unfold pinned in PX, PE. rewrite pin_identity_eqb_eq in PX, PE.
    assert (entry_invocation_id e = entry_invocation_id x) as EI
      by (unfold entry_identity in *; congruence).
    apply (in_map entry_invocation_id) in I as I'. apply In_nth_error in I as (i & I).
    apply In_nth_error in X as (j & X).
    assert (i = j) as ->; [|congruence].
    apply (NoDup_nth_error (map entry_invocation_id l)); [exact invocations | |].
    + rewrite length_map. apply nth_error_Some. congruence.
    + rewrite !nth_error_map, I, X. cbn. congruence.
  - apply String.eqb_neq. intros K. apply in_split in I as (a & b & E). rewrite E in *.
    apply in_app_or in X. cbn in X.
    assert (x = e \/ In x (a ++ b)) as [->|X'] by (rewrite in_app_iff; intuition); [congruence|].
    exact (key_elsewhere a e b sorted x X' (eq_sym K)).
Qed.

Lemma consume_reconciled views v s :
  reconciled views s -> consistent (consume_completed_view v s) ->
  reconciled (views ++ [v]) (consume_completed_view v s).
Proof.
  intros [D P]. unfold consume_completed_view. destruct (str_empty (relation_contradiction s)) eqn:C;
    cbn [negb]; [|intros H; unfold consistent in H; rewrite H in C; discriminate].
  apply str_empty_true in C. fold (consistent s) in C.
  destruct (v_outcome v) as [outcome|] eqn:O; [|intros H; now apply select_inconsistent in H].
  destruct (_ && mutates v); [intros H; now apply select_inconsistent in H|].
  destruct (lost_entry v s); [intros H; now apply select_inconsistent in H|].
  destruct (find_pin (view_identity v) (pin_keys s)) as [key|] eqn:F; rewrite P in F.
  - destruct (see_frame (view_identity v) s) as (SD & SP & SC).
    pose proof (reconcile_entry_spec v outcome key (see (view_identity v) s)) as R.
    rewrite SD, SP, D, P in R. unfold consistent in R at 1. rewrite SC in R.
    specialize (R (reconciled_sorted _) (reconciled_quiescent _) C O).
    destruct (reconcile_entry _ _ _ _) as [ok s']. intros H.
    assert (consistent s') as CS.
    { destruct ok; [|exact H]. unfold consistent in *. now rewrite (proj2 (proj2 (note_spool_frame _ _))) in H. }
    destruct (R CS) as (-> & PK & n & e' & FE & PE & DE). unfold reconciled.
    rewrite (proj1 (note_spool_frame _ _)), (proj1 (proj2 (note_spool_frame _ _))).
    split; [|exact PK]. rewrite DE.
    destruct (optional_map_update (settle_all views) (fun e e' E => proj1 (settle_all_keeps _ _ _ E))
                l key n e' (settled v e') sorted FE) as (e & I & K & SE & ->).
    apply optional_map_ext. intros x X. rewrite settle_all_snoc, (pin_exact v key x F X).
    destruct (pinned v x) eqn:PX.
    + assert (x = e) as ->; [|rewrite SE; cbn [settle_next]; now rewrite PE].
      rewrite <- (pin_exact v key x F X) in PX. str_bool.
      apply in_split in I as (a & b & E). rewrite E in X. apply in_app_or in X. cbn in X.
      assert (e = x \/ In x (a ++ b)) as [->|X'] by (rewrite in_app_iff; intuition); [reflexivity|].
      rewrite E in sorted. exfalso. apply (key_elsewhere a e b sorted x X'). congruence.
    + destruct (settle_all views x) as [y|] eqn:Y; [|reflexivity]. cbn [settle_next]. unfold pinned in *.
      now rewrite (proj1 (proj2 (settle_all_keeps _ _ _ Y))), PX.
  - intros _. unfold reconciled. rewrite (proj1 (note_spool_frame _ _)), (proj1 (proj2 (note_spool_frame _ _))).
    split; [|exact P]. rewrite D. apply optional_map_ext. intros x X. rewrite settle_all_snoc.
    destruct (settle_all views x) as [y|] eqn:Y; [|reflexivity]. cbn [settle_next]. unfold pinned.
    rewrite (proj1 (proj2 (settle_all_keeps _ _ _ Y))).
    rewrite find_pin_emplaced in F. change (find_pin (view_identity v) []) with (@None string) in F.
    destruct (find _ l) eqn:FI; [discriminate|]. now rewrite (find_none _ _ FI x X).
Qed.
End views.

(** * The clock and the spool files of the relations *)

Definition clock (s : CompletedRelationState) : list SpoolFact * Z * bool :=
  (spools s, sampled_now s, sampled_now_valid s).

Lemma clock_select detail s : clock (select_contradiction detail s) = clock s.
Proof. unfold select_contradiction. now destruct (str_empty _). Qed.

Lemma clock_store key e s : clock (store_entry key e s) = clock s.
Proof. unfold store_entry. now destruct (find_entry _ _) as [[n x]|]. Qed.

Lemma clock_erase key s : clock (erase_entry key s) = clock s.
Proof. unfold erase_entry. now destruct (find_entry _ _) as [[n x]|]. Qed.

Lemma clock_see id s : clock (see id s) = clock s.
Proof. unfold see. now destruct (existsb _ _). Qed.

Lemma clock_progress e ids items s : clock (snd (apply_audit_progress e ids items s)) = clock s.
Proof.
  unfold apply_audit_progress. repeat step_goal; cbn [snd]; now rewrite ?clock_select.
Qed.

Lemma clock_settle v outcome key e s : clock (snd (settle_entry v outcome key e s)) = clock s.
Proof.
  unfold settle_entry. repeat step_goal; cbn [snd];
    now rewrite ?clock_select, ?clock_erase, ?clock_store.
Qed.

Lemma clock_reconcile v outcome key s : clock (snd (reconcile_entry v outcome key s)) = clock s.
Proof.
  unfold reconcile_entry. cbv zeta.
  destruct (negb _); [apply clock_select|]. destruct (found_entry s key) as [e|]; [|apply clock_select].
  destruct (negb _); [apply clock_select|].
  destruct (match v_idempotency_pending v with Some _ => _ | None => _ end); [apply clock_select|].
  destruct (match spool e with Some _ => _ | None => _ end); [apply clock_select|].
  match goal with |- context [apply_audit_progress ?a ?b ?c ?d] =>
    pose proof (clock_progress a b c d) as P; destruct (apply_audit_progress a b c d) as [[ok e'] s'] end.
  cbn [snd] in P. destruct ok; cbn [negb snd]; now rewrite ?clock_settle, ?clock_store.
Qed.

(** The fact a completed group leaves, and why its file need not stay. *)
Definition fact_of (now : Z) (valid : bool) (v : AccountAuditCompletedGroupView) (fact : SpoolFact) :
    Prop :=
  v_spool v = Some (fact_spool fact) /\ v_invocation_id v = fact_invocation_id fact
  /\ (fact_retain fact = false ->
      completed_terminal_retains_pending v = false
      \/ completed_spool_is_immediately_eligible v now valid = true).

Lemma clock_note v s :
  clock (note_spool v s) = clock s
  \/ exists fact, clock (note_spool v s) = (spools s ++ [fact], sampled_now s, sampled_now_valid s)
       /\ fact_of (sampled_now s) (sampled_now_valid s) v fact.
Proof.
  unfold note_spool. destruct (v_spool v) as [spool|] eqn:V; [right | now left].
  eexists. split; [reflexivity|]. unfold fact_of. cbn. split; [exact V|]. split; [reflexivity|].
  intros R. apply orb_false_iff in R as [_ R]. apply andb_false_iff in R as [R|R]; [auto|].
  right. now apply negb_false_iff in R.
Qed.

Lemma clock_consume v s :
  clock (consume_completed_view v s) = clock s
  \/ exists fact,
       clock (consume_completed_view v s) = (spools s ++ [fact], sampled_now s, sampled_now_valid s)
       /\ fact_of (sampled_now s) (sampled_now_valid s) v fact.
Proof.
  unfold consume_completed_view. destruct (negb _); [now left|].
  destruct (v_outcome v) as [outcome|]; [|left; apply clock_select].
  destruct (_ && mutates v); [left; apply clock_select|].
  destruct (lost_entry v s); [left; apply clock_select|].
  destruct (find_pin _ _) as [key|]; [|apply clock_note].
  pose proof (clock_reconcile v outcome key (see (view_identity v) s)) as R.
  destruct (reconcile_entry _ _ _ _) as [ok s']. cbn [snd] in R. rewrite clock_see in R.
  destruct ok; [|now left]. pose proof (clock_note v s') as N. unfold clock in R at 1 2.
  injection R as R1 R2 R3. rewrite R1, R2, R3 in N. unfold clock in N at 2 |- * at 2.
  now rewrite R1, R2, R3 in N.
Qed.

Lemma clock_open g s : clock (snd (reconcile_open_relation g s)) = clock s.
Proof.
  unfold reconcile_open_relation. cbv zeta.
  repeat (step_goal; cbn [snd]; try now rewrite ?clock_select, ?clock_see).
  all: match goal with E : apply_audit_progress ?a ?b ?c ?d = _ |- _ =>
         pose proof (clock_progress a b c d) as P; rewrite E in P end.
  all: cbn [snd] in P; now rewrite clock_store, P, clock_see.
Qed.

(** * Settling twice *)

Lemma update_idem x y : update (update x y) y = update x y.
Proof. unfold update. destruct (json_eqb x y) eqn:E; [now rewrite E | now destruct (json_eqb y y)]. Qed.

Lemma advanced_idem v e : advanced v (advanced v e) = advanced v e.
Proof.
  unfold advanced at 1. rewrite advanced_state. destruct (state e) eqn:S; [|reflexivity].
  unfold advanced. rewrite S. cbv zeta.
  destruct (negb (has_value (spool e)) && has_value (v_spool v)) eqn:B.
  - apply andb_prop in B as [_ B]. unfold with_progress, with_spool.
    cbn [spool temporary_message_ids forward_progress]. rewrite B. cbn. now rewrite !update_idem.
  - unfold with_progress. cbn [spool temporary_message_ids forward_progress]. rewrite B. cbn.
    now rewrite !update_idem.
Qed.

Lemma settled_idem v e e' : settled v e = Some e' -> settled v e' = Some e'.
Proof.
  unfold settled. destruct (_ && _); [discriminate|].
  destruct (completed_terminal_retains_pending v).
  - intros [= <-]. now rewrite advanced_idem.
  - destruct (state e) eqn:S; intros [= <-]; [reflexivity | now rewrite S].
Qed.

Lemma settle_unpinned views e :
  (forall v, In v views -> pinned v e = false) -> settle_all views e = Some e.
Proof.
  induction views as [|v views IH] using rev_ind; intros H; [reflexivity|].
  rewrite settle_all_snoc, IH by (intros w I; apply H, in_or_app; now left).
  cbn [settle_next]. rewrite H; [reflexivity | apply in_or_app; right; now left].
Qed.

Lemma pinned_identity v e e' : entry_identity e' = entry_identity e -> pinned v e' = pinned v e.
Proof. unfold pinned. now intros ->. Qed.

(** The one group of an entry decides. *)
Lemma settle_pinned views v e :
  NoDup (map view_identity views) -> In v views -> pinned v e = true ->
  settle_all views e = settled v e.
Proof.
  intros N I P. apply in_split in I as (a & b & ->). rewrite map_app in N. cbn in N.
  assert (forall w, In w (a ++ b) -> pinned w e = false) as O.
  { intros w W. destruct (pinned w e) eqn:PW; [|reflexivity]. unfold pinned in *.
    rewrite pin_identity_eqb_eq in *. apply NoDup_remove_2 in N. exfalso. apply N.
    rewrite <- map_app, <- P, PW. now apply in_map. }
  unfold settle_all. rewrite fold_left_app. fold (settle_all a e).
  rewrite settle_unpinned by (intros w W; apply O, in_or_app; now left). cbn [fold_left settle_next].
  rewrite P. destruct (settled v e) as [x|] eqn:S.
  - apply settle_unpinned. intros w W.
    rewrite (pinned_identity w e x (proj2 (settled_identity _ _ _ S))).
    apply O, in_or_app. now right.
  - clear. induction b as [|w b IH]; [reflexivity | exact IH].
Qed.

Lemma settle_all_idem views e e' :
  NoDup (map view_identity views) -> settle_all views e = Some e' -> settle_all views e' = Some e'.
Proof.
  intros N S. destruct (find (fun v => pinned v e) views) as [v|] eqn:F.
  - apply find_some in F as [I P]. rewrite (settle_pinned _ _ _ N I P) in S.
    rewrite (settle_pinned _ v e' N I); [exact (settled_idem _ _ _ S)|].
    now rewrite (pinned_identity v e e' (proj2 (settled_identity _ _ _ S))).
  - rewrite settle_unpinned in S by exact (find_none _ _ F). injection S as <-.
    exact (settle_unpinned _ _ (find_none _ _ F)).
Qed.

Lemma consume_inconsistent v s : ~ consistent s -> consume_completed_view v s = s.
Proof.
  intros C. unfold consume_completed_view. destruct (str_empty (relation_contradiction s)) eqn:E;
    [apply str_empty_true in E; contradiction | reflexivity].
Qed.

Definition consume_all (views : list AccountAuditCompletedGroupView) (s : CompletedRelationState) :
    CompletedRelationState := fold_left (fun s v => consume_completed_view v s) views s.

Lemma clock_consume_all views s :
  sampled_now (consume_all views s) = sampled_now s
  /\ sampled_now_valid (consume_all views s) = sampled_now_valid s
  /\ forall fact, In fact (spools (consume_all views s)) ->
       In fact (spools s)
       \/ exists v, In v views /\ fact_of (sampled_now s) (sampled_now_valid s) v fact.
Proof.
  revert s. induction views as [|v views IH]; intros s; [auto|].
  cbn [consume_all fold_left]. destruct (IH (consume_completed_view v s)) as (I1 & I2 & I3).
  unfold consume_all in I1, I2, I3. rewrite I1, I2.
  destruct (clock_consume v s) as [K|(new & K & O)]; unfold clock in K; injection K as K1 K2 K3;
    rewrite K1, K2, K3 in *; (split; [reflexivity|]); (split; [reflexivity|]); intros fact F;
    destruct (I3 fact F) as [F'|(w & W & FW)]; [now left | right; exists w; cbn; auto | |
      right; exists w; cbn; auto].
  apply in_app_or in F' as [F'|[<-|[]]]; [now left | right; exists v; cbn; auto].
Qed.

Lemma consume_all_reconciled l account now views :
  ascending_from None l -> Forall quiescent l -> NoDup (map entry_invocation_id l) ->
  consistent (consume_all views (new_relations account l now)) ->
  reconciled l views (consume_all views (new_relations account l now)).
Proof.
  intros A Q N. induction views as [|v views IH] using rev_ind; intros C.
  - split; [|reflexivity]. cbn. clear. unfold settle_all. cbn.
    induction l as [|e l IH]; [reflexivity|]. cbn. now f_equal.
  - unfold consume_all in *. rewrite fold_left_app in *. cbn [fold_left] in *.
    apply consume_reconciled; auto. apply IH.
    set (s := fold_left _ views _) in *.
    destruct (str_empty (relation_contradiction s)) eqn:E; [now apply str_empty_true in E|].
    rewrite consume_inconsistent in C; [exact C|].
    intros H. unfold consistent in H. rewrite H in E. discriminate.
Qed.

Lemma valid_quiescent e account : valid_entry e account = true -> quiescent e.
Proof.
  unfold valid_entry, quiescent. intros V S. destruct (_ || _); [discriminate|].
  destruct (mutable_charge e); [|discriminate]. rewrite S in V. bool_split. auto.
Qed.

(** C16.  Reconciling the store with the log, when no contradiction is found, is
    exactly a map over its entries: a group without mutation drops its entry, a
    group with a known result completes it with the terminal of the log, and a
    group whose effect is unknown leaves it pending with the recorded progress.
    Other entries are untouched, a completed entry is kept as it is unless its
    group mutated nothing, and reconciling again changes nothing. *)
Theorem reconciliation_refines l account s0 views now :
  canonicalize_snapshot l account = Ok s0 -> NoDup (map view_identity views) ->
  let s := consume_all views (new_relations account l now) in
  relation_contradiction s = EmptyString ->
  desired s = optional_map (settle_all views) l
  /\ optional_map (settle_all views) (desired s) = desired s
  /\ (forall e, In e l -> (forall v, In v views -> pinned v e = false) -> In e (desired s))
  /\ (forall e v, In e l -> In v views -> pinned v e = true ->
        match settled v e with
        | Some e' => In e' (desired s)
        | None => mutates v = false /\ ~ In (key_hash e) (map key_hash (desired s))
        end)
  /\ (forall e, In e l -> state e = Completed ->
        In e (desired s) \/ exists v, In v views /\ pinned v e = true /\ mutates v = false).
Proof.
  intros H NV s C. apply canonicalize_iff in H as [[_ V S N _ _] _].
  assert (Forall quiescent l) as Q
    by (eapply Forall_impl; [|exact V]; intros e; apply valid_quiescent).
  destruct (consume_all_reconciled l account now views S Q N C) as [D _]. fold s in D.
  assert (forall e e', In e l -> settle_all views e = Some e' -> In e' (desired s)) as K
    by (intros e e' I E; rewrite D; apply optional_map_in; eauto).
  assert (forall v e, settled v e = None -> mutates v = false) as MN.
  { intros v e. unfold settled. destruct (mutates v); [|reflexivity]. cbn.
    destruct (completed_terminal_retains_pending v); [|destruct (state e)]; discriminate. }
  split; [exact D|]. split; [|split; [|split]].
  - rewrite D. assert (forall m, (forall e', In e' m -> settle_all views e' = Some e') ->
                                 optional_map (settle_all views) m = m) as F.
    { induction m as [|x m IH]; intros M; [reflexivity|]. cbn. rewrite (M x) by now left. cbn.
      f_equal. apply IH. intros e' I. apply M. now right. }
    apply F. intros e' I. apply optional_map_in in I as (e & _ & E). exact (settle_all_idem _ _ _ NV E).
  - intros e I P. exact (K e e I (settle_unpinned _ _ P)).
  - intros e v I J P. pose proof (settle_pinned views v e NV J P) as E.
    destruct (settled v e) as [e'|] eqn:SE; [exact (K e e' I E)|]. split; [exact (MN _ _ SE)|].
    rewrite D. intros X. apply in_map_iff in X as (y & KY & Y). apply optional_map_in in Y as (x & X & XE).
    destruct (settle_all_keeps _ _ _ XE) as [KX _].
    apply in_split in I as (a & b & E'). rewrite E' in *. apply in_app_or in X. cbn in X.
    assert (x = e \/ In x (a ++ b)) as [->|X'] by (rewrite in_app_iff; intuition); [congruence|].
    apply (key_elsewhere a e b S x X'). congruence.
  - intros e I SC. destruct (find (fun v => pinned v e) views) as [v|] eqn:F.
    + apply find_some in F as [J P]. pose proof (settle_pinned views v e NV J P) as E.
      destruct (settled v e) as [e'|] eqn:SE; [left | right; eauto].
      assert (e' = e) as ->; [|exact (K e e I E)].
      unfold settled in SE. destruct (_ && _); [discriminate|]. unfold advanced in SE.
      rewrite SC in SE. destruct (completed_terminal_retains_pending v); congruence.
    + left. exact (K e e I (settle_unpinned _ _ (find_none _ _ F))).
Qed.

(** A pending entry and the completed group of its invocation. *)
Definition archive_view : AccountAuditCompletedGroupView :=
  {| v_audit_generation := 1; v_invocation_id := "00112233445566778899aabbccddeeff";
     v_account := "main"; v_operation := ChatArchive; v_request_fingerprint := sample_key;
     v_idempotency_key_hash := Some sample_key; v_plan := archive_plan;
     v_intent_timestamp := "2024-01-01T00:00:00Z"; v_intent_unix_seconds := 1000;
     v_idempotency_pending :=
       Some (jobject [("key_hash", JString sample_key); ("request_fingerprint", JString sample_key);
                      ("expires_at", JUnsigned 605800);
                      ("reserved_terminal_bytes",
                       JUnsigned (reserved_terminal_bytes archive_entry))]);
     v_spool := None; v_temporary_message_ids := JArray []; v_forward_progress := JArray [];
     v_mutation_proof := None; v_completed_stages := [];
     v_outcome := Some (jobject [("mutation_state", JString "confirmed");
                                 ("terminal", archive_terminal)]) |}.

Lemma reconciliation_refines_witness :
  In (with_terminal archive_entry archive_terminal)
     (desired (consume_all [archive_view] (new_relations "main" [archive_entry] 2000))).
Proof.
  destruct (is_ok_inv _ archive_snapshot) as (s0 & H0).
  assert (NoDup (map view_identity [archive_view])) as N by (constructor; [intros [] | constructor]).
  assert (relation_contradiction
            (consume_all [archive_view] (new_relations "main" [archive_entry] 2000)) = EmptyString)
    as C by (vm_compute; reflexivity).
  pose proof (reconciliation_refines [archive_entry] "main" s0 [archive_view] 2000 H0 N C)
    as (_ & _ & _ & M & _).
  specialize (M archive_entry archive_view (or_introl eq_refl) (or_introl eq_refl)).
  assert (pinned archive_view archive_entry = true) as P by (vm_compute; reflexivity).
  specialize (M P).
  assert (settled archive_view archive_entry = Some (with_terminal archive_entry archive_terminal)) as S
    by (vm_compute; reflexivity).
  rewrite S in M. exact M.
Defined.
