(* ===== verification/StoreAgreement.v ===== *)
(** When the audit log, the idempotency store and the attachment spool agree: what
    the gate's checks say about the data, stated without them. *)
From S2P Require Import Prelude Json Operation DestructivePlan M6Domain AuditSchema AuditLog.
From S2P Require Import AuditSamples IdempotencyStore IdempotencyFacts IdempotencyFile AuditRecovery.
From S2P Require Import Effects SpoolInventory Reconciliation ReconciliationFacts.
Import Audit.

(** * Agreement *)

(** The progress an entry holds is one the log has been through. *)
Definition progress_behind (e : IdempotencyEntry) (ids items : json) : Prop :=
  (json_eqb (temporary_message_ids e) ids = true \/ array_prefix (temporary_message_ids e) ids = true)
  /\ (json_eqb (forward_progress e) items = true
      \/ jempty items = false
         /\ (jempty (forward_progress e) = true
             \/ forward_can_advance (forward_progress e) items = true)).

(** An entry and the completed group of its invocation. *)
Definition entry_agrees (v : AccountAuditCompletedGroupView) (outcome : json) (e : IdempotencyEntry) :
    Prop :=
  v_idempotency_key_hash v = Some (key_hash e) /\ json_eqb (plan e) (v_plan v) = true
  /\ (spool e = None \/ spool e = v_spool v)
  /\ match state e with
     | Pending =>
         (forall payload, v_idempotency_pending v = Some payload ->
                          pending_payload_matches e payload = true)
         /\ progress_behind e (v_temporary_message_ids v) (v_forward_progress v)
     | Completed =>
         mutates v || completed_mark_read_noop v outcome = true ->
         completed_terminal_retains_pending v = false
         /\ exists t, terminal e = Some t /\ json_eqb t (jget outcome "terminal") = true
     end.

(** A completed group and the entries of the store: the group has an outcome; a
    keyed mutation has its checkpoint and, while unexpired, its entry; and an
    entry of its invocation agrees with it. *)
Definition view_agrees (now : Z) (l : list IdempotencyEntry) (v : AccountAuditCompletedGroupView) :
    Prop :=
  exists outcome, v_outcome v = Some outcome
  /\ (mutates v = true -> v_idempotency_key_hash v <> None -> v_idempotency_pending v <> None)
  /\ (forall key payload,
        v_idempotency_key_hash v = Some key -> v_idempotency_pending v = Some payload ->
        mutates v = true -> now <= kIdempotencyMaximumUnixSeconds ->
        now < get_u64 (jget payload "expires_at") ->
        exists e, In e l /\ key_hash e = key /\ same_invocation v e = true)
  /\ (forall e, In e l -> pinned v e = true -> entry_agrees v outcome e).

(** The entry of the open group with everything its checkpoints say. *)
Definition open_advanced (g : AccountAuditOpenGroup) (e : IdempotencyEntry) : IdempotencyEntry :=
  with_progress (with_spool e (open_group_spool g))
    (update (temporary_message_ids e)
       (member_or_empty (latest_checkpoint_data g "temporary_ids_observed") "temporary_message_ids"))
    (update (forward_progress e)
       (member_or_empty (latest_checkpoint_data g "forward_progress") "items")).

(** The open group against the entries [l]; [l'] are the entries the store is to
    hold.  An unkeyed group has nothing in the store; a keyed one whose entry is
    absent, or another invocation's, has not recorded that it inserted one;
    and the entry of its own invocation is pending, the group's in every field,
    and takes the progress of the log. *)
Definition open_agrees (g : AccountAuditOpenGroup) (l l' : list IdempotencyEntry) : Prop :=
  let key := get_string (jget (intent g) "idempotency_key_hash") in
  let invocation := get_string (jget (intent g) "invocation_id") in
  let checkpoint := latest_checkpoint_data g "idempotency_pending" in
  exists op, command_of (intent g) = Some op
  /\ (is_null (jget (intent g) "idempotency_key_hash") = true /\ l' = l
      \/ checkpoint = None /\ l' = l
         /\ (forall e, In e l -> key_hash e = key -> entry_invocation_id e <> invocation)
      \/ exists a e b,
           l = a ++ e :: b /\ l' = a ++ open_advanced g e :: b
           /\ key_hash e = key /\ entry_invocation_id e = invocation
           /\ state e = Pending /\ entry_audit_generation e = audit_generation g
           /\ operation e = op
           /\ request_fingerprint e = get_string (jget (intent g) "request_fingerprint")
           /\ json_eqb (plan e) (jget (intent g) "plan") = true
           /\ (forall payload, checkpoint = Some payload -> pending_payload_matches e payload = true)
           /\ (spool e = None \/ spool e = open_group_spool g)
           /\ progress_behind e
                (member_or_empty (latest_checkpoint_data g "temporary_ids_observed")
                   "temporary_message_ids")
                (member_or_empty (latest_checkpoint_data g "forward_progress") "items")).

(** The log records [spool] for the invocation [id]. *)
Definition recorded (views : list AccountAuditCompletedGroupView) (open : option AccountAuditOpenGroup)
    (id : string) (spool : SpoolRef) : Prop :=
  (exists v, In v views /\ v_invocation_id v = id /\ v_spool v = Some spool)
  \/ exists g, open = Some g /\ get_string (jget (intent g) "invocation_id") = id
       /\ open_group_spool g = Some spool.

Definition stored (inventory : SpoolInventory) (id : string) : Prop :=
  exists o, In o (invocations inventory) /\ ob_invocation_id o = id /\ ob_files o <> [].

(** The file of a completed group may still be wanted: the effect of the group is
    unknown and the time it is kept has not passed. *)
Definition wanted (now : Z) (v : AccountAuditCompletedGroupView) : Prop :=
  completed_terminal_retains_pending v = true
  /\ completed_spool_is_immediately_eligible v now (now <=? kIdempotencyMaximumUnixSeconds) = false.

(** Every directory of the spool belongs to a recorded file and holds nothing
    else, and every file that may still be wanted, or that the open group has
    started to send, is there. *)
Definition spool_agrees (now : Z) (inventory : SpoolInventory)
    (views : list AccountAuditCompletedGroupView) (open : option AccountAuditOpenGroup) : Prop :=
  inventory_contradiction inventory = None
  /\ (forall o, In o (invocations inventory) ->
        exists spool, recorded views open (ob_invocation_id o) spool
          /\ Forall (fun f => of_name f = name (file spool)) (ob_files o))
  /\ (forall v, In v views -> v_spool v <> None -> wanted now v -> stored inventory (v_invocation_id v))
  /\ (forall g, open = Some g -> has_spool g = true -> dispatch_started g = true ->
        stored inventory (get_string (jget (intent g) "invocation_id"))).

(** * The log and the store *)

Lemma progress_applied e ids items s :
  state e = Pending -> consistent s ->
  let '(ok, e', s') := apply_audit_progress e ids items s in
  if ok then progress_behind e ids items /\ s' = s
             /\ e' = with_progress e (update (temporary_message_ids e) ids)
                       (update (forward_progress e) items)
  else ~ consistent s'.
Proof.
  intros S C. unfold apply_audit_progress, progress_behind, update. rewrite S.
  change (eqb Pending Completed) with false. cbv iota zeta.
  destruct (json_eqb (temporary_message_ids e) ids) eqn:T; cbn [negb andb].
  - destruct (json_eqb (forward_progress e) items) eqn:P; cbn [negb]; [destruct e; auto|].
    destruct (_ || _) eqn:B; [apply select_inconsistent; discriminate|].
    apply orb_false_iff in B as [B1 B2]. apply negb_false_iff, orb_true_iff in B1. auto 6.
  - destruct (array_prefix _ _) eqn:A; cbn [negb]; [|apply select_inconsistent; discriminate].
    change (forward_progress (with_progress e ids (forward_progress e))) with (forward_progress e).
    destruct (json_eqb (forward_progress e) items) eqn:P; cbn [negb]; [auto|].
    destruct (_ || _) eqn:B; [apply select_inconsistent; discriminate|].
    apply orb_false_iff in B as [B1 B2]. apply negb_false_iff, orb_true_iff in B1. auto 6.
Qed.

(** The entry found for a group agrees with it, when no contradiction is noted. *)
Lemma reconcile_entry_agrees v outcome key s n e :
  consistent s -> find_entry (desired s) key = Some (n, e) -> quiescent e -> key_hash e = key ->
  consistent (snd (reconcile_entry v outcome key s)) -> entry_agrees v outcome e.
Proof.
  intros C F Q K. unfold reconcile_entry, found_entry, entry_agrees. rewrite F. cbn [option_map snd].
  destruct (v_idempotency_key_hash v) as [k|]; [|intros H; now apply select_inconsistent in H].
  destruct (String.eqb k key) eqn:KH; cbn [negb]; [|intros H; now apply select_inconsistent in H].
  destruct (same_invocation v e && _) eqn:SI; cbn [negb];
    [|intros H; now apply select_inconsistent in H].
  destruct (match v_idempotency_pending v with Some _ => _ | None => _ end) eqn:PP;
    [intros H; now apply select_inconsistent in H|].
  destruct (match spool e with Some _ => _ | None => _ end) eqn:SP;
    [intros H; now apply select_inconsistent in H|].
  apply andb_true_iff in SI as [_ PL]. str_bool. intros H.
  split; [congruence|]. split; [exact PL|]. split.
  { destruct (spool e) as [s1|], (v_spool v) as [s2|]; auto; try discriminate.
    apply negb_false_iff, eqb_eq in SP. right. congruence. }
  destruct (state e) eqn:S.
  - split.
    { intros payload P. rewrite P in PP. cbn in PP. now apply negb_false_iff in PP. }
    change (eqb Pending Pending) with true in H. cbn [andb] in H.
    set (e0 := if negb (has_value (spool e)) && has_value (v_spool v)
               then with_spool e (v_spool v) else e) in H.
    assert (state e0 = Pending) as S0 by (unfold e0; destruct (_ && _); exact S).
    pose proof (progress_applied e0 (v_temporary_message_ids v) (v_forward_progress v) s S0 C) as A.
    destruct (apply_audit_progress e0 _ _ s) as [[ok e'] s']. destruct ok; cbn [negb snd] in H.
    + destruct A as [A _]. unfold e0, progress_behind in *. destruct (_ && _); exact A.
    + exfalso. apply A. unfold consistent in *. now rewrite (proj1 (store_frame _ _ _)) in H.
  - intros M. change (eqb Completed Pending) with false in H. cbn [andb] in H.
    unfold apply_audit_progress in H. rewrite S in H. change (eqb Completed Completed) with true in H.
    destruct (Q S) as [Q1 Q2]. rewrite Q1, Q2 in H. cbn [andb negb] in H.
    unfold settle_entry in H. rewrite <- negb_orb, M in H. cbn [negb] in H. rewrite S in H.
    destruct (completed_terminal_retains_pending v); cbn [negb] in H;
      [now apply select_inconsistent in H|]. split; [reflexivity|].
    destruct (terminal e) as [t|]; [|now apply select_inconsistent in H].
    destruct (json_eqb t _) eqn:J; [eauto | now apply select_inconsistent in H].
Qed.

Lemma same_key_same_entry l x y :
  ascending_from None l -> In x l -> In y l -> key_hash x = key_hash y -> x = y.
Proof.
  intros A X Y K. apply in_split in X as (a & b & ->). apply in_app_or in Y. cbn in Y.
  assert (x = y \/ In y (a ++ b)) as [E|Y'] by (rewrite in_app_iff; intuition); [exact E|].
  exfalso. exact (key_elsewhere a x b A y Y' (eq_sym K)).
Qed.

Lemma same_invocation_identity v e e' :
  entry_identity e' = entry_identity e -> same_invocation v e' = same_invocation v e.
Proof. unfold entry_identity, same_invocation. intros [= -> -> -> ->]. reflexivity. Qed.

Section views.
Context (l : list IdempotencyEntry) (account : string) (now : Z).
Hypothesis sorted : ascending_from None l.
Hypothesis quiet : Forall quiescent l.
Hypothesis distinct : NoDup (map entry_invocation_id l).

(** One group: its spool file is noted, and the checks before that passed. *)
Lemma consume_step views v s :
  reconciled l views s -> consistent s -> consistent (consume_completed_view v s) ->
  exists s1 outcome,
    consume_completed_view v s = note_spool v s1 /\ clock s1 = clock s
    /\ v_outcome v = Some outcome
    /\ has_value (v_idempotency_key_hash v) && negb (has_value (v_idempotency_pending v)) && mutates v
       = false
    /\ lost_entry v s = false
    /\ forall key, find_pin (view_identity v) (pin_keys s) = Some key ->
         exists e, In e (desired s) /\ key_hash e = key /\ entry_agrees v outcome e.
Proof.
  intros [D P] C. unfold consume_completed_view. rewrite C. cbn [str_empty negb].
  destruct (v_outcome v) as [outcome|] eqn:O; [|intros H; now apply select_inconsistent in H].
  destruct (_ && mutates v); [intros H; now apply select_inconsistent in H|].
  destruct (lost_entry v s); [intros H; now apply select_inconsistent in H|].
  destruct (find_pin (view_identity v) (pin_keys s)) as [key|] eqn:F.
  2: { intros _. exists s, outcome. repeat split. discriminate. }
  destruct (see_frame (view_identity v) s) as (SD & SP & SC).
  set (s0 := see (view_identity v) s) in *.
  assert (consistent s0) as C0 by (unfold consistent; now rewrite SC).
  assert (ascending_from None (desired s0)) as A0 by (rewrite SD, D; now apply reconciled_sorted).
  assert (Forall quiescent (desired s0)) as Q0 by (rewrite SD, D; now apply reconciled_quiescent).
  pose proof (reconcile_entry_spec v outcome key s0 A0 Q0 C0 O) as R.
  pose proof (clock_reconcile v outcome key s0) as K. unfold s0 in K at 2. rewrite clock_see in K.
  pose proof (fun n e => reconcile_entry_agrees v outcome key s0 n e C0) as G.
  destruct (reconcile_entry v outcome key s0) as [ok s']. cbn [snd] in *. intros H.
  assert (consistent s') as CS.
  { destruct ok; [|exact H]. unfold consistent in *. now rewrite (proj2 (proj2 (note_spool_frame _ _))) in H. }
  destruct (R CS) as (-> & _ & n & e & FE & _). exists s', outcome. repeat (split; [auto; fail|]).
  intros k [= <-]. destruct (find_entry_split _ _ _ _ A0 FE) as (a & b & E & _ & KE).
  assert (In e (desired s0)) as I by (rewrite E; apply in_elt).
  exists e. rewrite <- SD. split; [exact I|]. split; [exact KE|]. refine (G n e FE _ KE CS).
  rewrite Forall_forall in Q0. exact (Q0 e I).
Qed.

Let start := new_relations account l now.

Lemma consistent_prefix views rest :
  consistent (consume_all (views ++ rest) start) -> consistent (consume_all views start).
Proof.
  unfold consume_all. rewrite fold_left_app. generalize (fold_left (fun s v => consume_completed_view v s) views start).
  induction rest as [|v rest IH]; intros s H; [exact H|]. cbn [fold_left] in H. apply IH in H.
  destruct (str_empty (relation_contradiction s)) eqn:E; [now apply str_empty_true in E|].
  rewrite consume_inconsistent in H; [exact H|]. intros X. unfold consistent in X. rewrite X in E. discriminate.
Qed.

Lemma consume_all_agrees views v :
  NoDup (map view_identity views) -> consistent (consume_all views start) -> In v views ->
  view_agrees now l v.
Proof.
  intros ND C I. apply in_split in I as (a & b & ->).
  change (v :: b) with ([v] ++ b) in C. rewrite app_assoc in C.
  pose proof (consistent_prefix _ _ C) as C1. pose proof (consistent_prefix _ _ C1) as C0.
  pose proof (consume_all_reconciled l account now a sorted quiet distinct C0) as R.
  fold start in R. set (s := consume_all a start) in *.
  assert (consume_all (a ++ [v]) start = consume_completed_view v s) as E
    by (unfold consume_all; now rewrite fold_left_app).
  rewrite E in C1. destruct (consume_step _ _ _ R C0 C1) as (s1 & outcome & _ & _ & O & KP & L & G).
  destruct (clock_consume_all a start) as (N & V & _). fold s in N, V. destruct R as [D P].
  exists outcome. split; [exact O|]. split; [|split].
  - intros M HK. rewrite M, andb_true_r in KP. destruct (v_idempotency_key_hash v); [|congruence].
    destruct (v_idempotency_pending v); [discriminate | discriminate KP].
  - intros key payload K PL M NM NE. unfold lost_entry in L. rewrite K, PL, M, N, V in L.
    change (sampled_now start) with now in L.
    change (sampled_now_valid start) with (now <=? kIdempotencyMaximumUnixSeconds) in L.
    apply Z.leb_le in NM. apply Z.ltb_lt in NE. rewrite NM, NE in L. cbn [andb] in L.
    unfold found_entry in L. rewrite D in L.
    destruct (find_entry _ key) as [[n e']|] eqn:F; [|discriminate]. cbn in L. apply negb_false_iff in L.
    destruct (find_entry_split _ _ _ _ (reconciled_sorted l sorted a) F) as (x & y & EQ & _ & KE).
    assert (In e' (optional_map (settle_all a) l)) as I by (rewrite EQ; apply in_elt).
    apply optional_map_in in I as (e & I & SE). destruct (settle_all_keeps _ _ _ SE) as (K1 & K2 & _).
    exists e. repeat split; [exact I | congruence|].
    now rewrite <- (same_invocation_identity v e e' K2).
  - intros e I PE.
    assert (find_pin (view_identity v) (pin_keys s) = Some (key_hash e)) as F.
    { rewrite P. clear G. destruct (find_pin _ (fold_left _ _ _)) as [key|] eqn:F.
      - pose proof (pin_exact l sorted quiet distinct v key e F I) as X. rewrite PE in X. str_bool. congruence.
      - rewrite find_pin_emplaced in F. change (find_pin (view_identity v) []) with (@None string) in F.
        destruct (find _ l) eqn:FI; [discriminate|]. pose proof (find_none _ _ FI e I) as X.
        unfold pinned in PE. cbv beta in X. congruence. }
    destruct (G _ F) as (e' & I' & K' & A). rewrite D in I'.
    apply optional_map_in in I' as (x & X & SX). destruct (settle_all_keeps _ _ _ SX) as (K1 & _).
    assert (x = e) as -> by (apply (same_key_same_entry l); congruence).
    rewrite settle_unpinned in SX; [injection SX as <-; exact A|].
    intros w W. destruct (pinned w e) eqn:PW; [|reflexivity]. exfalso.
    unfold pinned in PE, PW. rewrite pin_identity_eqb_eq in PE, PW.
    rewrite map_app in ND. cbn in ND. apply NoDup_remove_2 in ND. apply ND, in_or_app. left.
    apply in_map_iff. exists w. split; [congruence | exact W].
Qed.

(** The spool file of every group is noted. *)
Lemma consume_all_notes views v spool :
  consistent (consume_all views start) -> In v views -> v_spool v = Some spool ->
  exists fact, In fact (spools (consume_all views start))
    /\ fact_invocation_id fact = v_invocation_id v /\ fact_spool fact = spool
    /\ (wanted now v -> fact_retain fact = true).
Proof.
  induction views as [|w views IH] using rev_ind; intros C I VS; [destruct I|].
  pose proof (consistent_prefix _ _ C) as C0.
  pose proof (consume_all_reconciled l account now views sorted quiet distinct C0) as R. fold start in R.
  assert (consume_all (views ++ [w]) start = consume_completed_view w (consume_all views start)) as E
    by (unfold consume_all; now rewrite fold_left_app).
  rewrite E in *. set (s := consume_all views start) in *.
  destruct (consume_step _ _ _ R C0 C) as (s1 & outcome & -> & K & _).
  destruct (clock_consume_all views start) as (N & V & _). fold s in N, V.
  unfold clock in K. injection K as K1 K2 K3. apply in_app_or in I as [I|[->|[]]].
  - destruct (IH C0 I VS) as (fact & F & X). exists fact. split; [|exact X].
    unfold note_spool. destruct (v_spool w); cbn [spools]; rewrite K1; [apply in_or_app; now left | exact F].
  - unfold note_spool. rewrite VS. cbn [spools]. eexists. split; [apply in_elt|]. cbn.
    repeat split. intros [W1 W2]. rewrite K2, K3, N, V, W1. unfold start. cbn. rewrite W2.
    now rewrite orb_true_r.
Qed.
End views.

(** * The open group *)

Lemma replace_split a (e x : IdempotencyEntry) b :
  replace_at (List.length a) x (a ++ e :: b) = a ++ x :: b.
Proof. exact (at_position a e b (Some x)). Qed.

Lemma reconcile_open_agrees g s s' :
  ascending_from None (desired s) -> consistent s ->
  reconcile_open_relation g s = (true, s') -> open_agrees g (desired s) (desired s').
Proof.
  intros A C. unfold reconcile_open_relation, open_agrees. cbv zeta.
  destruct (command_of (intent g)) as [op|]; [|discriminate]. intros H. exists op. split; [reflexivity|].
  destruct (is_null _); [injection H as <-; now left|]. right.
  destruct (negb _); [discriminate|]. unfold found_entry in H.
  set (key := get_string (jget (intent g) "idempotency_key_hash")) in *.
  destruct (find_entry (desired s) key) as [[n e]|] eqn:F; cbn [option_map snd] in H.
  2: { left. destruct (latest_checkpoint_data g "idempotency_pending"); [discriminate|].
       injection H as <-. repeat split. intros e I K. exfalso.
       apply (find_entry_none None _ _ A) in F. apply F, in_map_iff. eauto. }
  destruct (find_entry_split _ _ _ _ A F) as (a & b & E & L & K).
  destruct (String.eqb (entry_invocation_id e) _) eqn:SI; cbn [negb] in H.
  2: { left. destruct (latest_checkpoint_data g "idempotency_pending"); [discriminate|].
       injection H as <-. repeat split. intros x I KX.
       assert (x = e) as ->; [|now apply String.eqb_neq].
       apply (same_key_same_entry (desired s)); [exact A | exact I | rewrite E; apply in_elt | congruence]. }
  right. exists a, e, b. destruct (see_frame
    (audit_generation g, entry_invocation_id e, request_fingerprint e, operation e) s) as (SD & _ & SC).
  set (s0 := see _ s) in *. assert (consistent s0) as C0 by (unfold consistent; now rewrite SC).
  destruct (negb _) eqn:B in H; [discriminate|]. apply negb_false_iff in B. bool_split. str_bool. z_bool.
  apply eqb_eq in H0, H4.
  set (ids := member_or_empty _ "temporary_message_ids") in *.
  set (items := member_or_empty _ "items") in *.
  assert ((spool e = None \/ spool e = open_group_spool g)
          /\ (let '(ok, x, s) := apply_audit_progress (with_spool e (open_group_spool g)) ids items s0 in
              (ok, store_entry key x s)) = (true, s')) as [SP H'].
  { destruct (open_group_spool g) as [p|], (spool e) as [q|] eqn:SE; try discriminate.
    - destruct (eqb q p) eqn:Q; [|discriminate]. apply eqb_eq in Q as ->. split; [now right|].
      rewrite <- SE. destruct e; exact H.
    - split; [now left | exact H].
    - split; [now left|]. rewrite <- SE. destruct e; exact H. }
  clear H. pose proof (progress_applied (with_spool e (open_group_spool g)) ids items s0 H0 C0) as P.
  destruct (apply_audit_progress _ ids items s0) as [[ok x] s1]. injection H' as -> <-.
  destruct P as (PB & -> & ->).
  repeat (split; [assumption|]). split.
  { rewrite (store_once key _ s0 n e) by (rewrite SD; exact F). rewrite SD, E, <- L.
    apply replace_split. }
  repeat (split; [assumption|]). split; [|split; [exact SP | exact PB]].
  intros payload CP. now rewrite CP in H1.
Qed.

(** * The spool *)

Lemma expected_recorded s open x :
  In x (expected_spools s open) ->
  (exists fact, In fact (spools s) /\ fact_invocation_id fact = ex_invocation_id x
                /\ name (file (fact_spool fact)) = ex_file_name x)
  \/ exists g spool, open = Some g /\ open_group_spool g = Some spool
       /\ get_string (jget (intent g) "invocation_id") = ex_invocation_id x
       /\ name (file spool) = ex_file_name x.
Proof.
  assert (forall id n l y, In y (emplace_expected id n l) ->
            y = {| ex_invocation_id := id; ex_file_name := n |} \/ In y l) as EM.
  { intros id n l y. unfold emplace_expected. destruct (find_expected id l); [auto|].
    apply insert_expected_in. }
  assert (forall facts l, In x (fold_left (fun l fact => emplace_expected (fact_invocation_id fact)
                                  (name (file (fact_spool fact))) l) facts l) ->
            In x l \/ exists fact, In fact facts /\ fact_invocation_id fact = ex_invocation_id x
                        /\ name (file (fact_spool fact)) = ex_file_name x) as FO.
  { induction facts as [|f facts IH]; intros l H; [now left|]. cbn [fold_left] in H.
    apply IH in H as [H|(fact & I & X)]; [|right; exists fact; cbn; auto].
    apply EM in H as [->|H]; [|now left]. right. exists f. cbn. auto. }
  unfold expected_spools. intros H.
  assert (forall l, In x l -> l = fold_left (fun l fact => emplace_expected (fact_invocation_id fact)
                                  (name (file (fact_spool fact))) l) (spools s) [] ->
          exists fact, In fact (spools s) /\ fact_invocation_id fact = ex_invocation_id x
                /\ name (file (fact_spool fact)) = ex_file_name x) as FIN.
  { intros l I ->. apply FO in I as [[]|I]. exact I. }
  destruct open as [g|]; [|left; eauto]. destruct (open_group_spool g) as [spool|] eqn:OS; [|left; eauto].
  apply EM in H as [->|H]; [right; exists g, spool; auto | left; eauto].
Qed.

Lemma validated inventory s open account audit_path :
  validate_spool_relation inventory s open account audit_path = None ->
  inventory_contradiction inventory = None
  /\ (forall o, In o (invocations inventory) -> exists x, In x (expected_spools s open)
        /\ ex_invocation_id x = ob_invocation_id o
        /\ Forall (fun f => of_name f = ex_file_name x) (ob_files o))
  /\ (forall fact, In fact (spools s) -> fact_retain fact = true ->
        stored inventory (fact_invocation_id fact))
  /\ (forall g, open = Some g -> has_spool g = true -> dispatch_started g = true ->
        stored inventory (get_string (jget (intent g) "invocation_id"))).
Proof.
  unfold validate_spool_relation, reconcile_spool_inventory.
  cbv zeta. destruct (well_formed_expected _ _); [|discriminate].
  cbn [check bind].
  set (r := observe _ _ _). destruct (spool_contradiction_path r) eqn:C; [discriminate|].
  destruct (observe_spec _ _ _ C) as (R & O & _). pose proof (observe_contradiction _ _ _ C) as IC.
  fold r in R. cbn in IC.
  assert (forall id, existsb (String.eqb id) (ready_invocations r) = true -> stored inventory id) as ST.
  { intros id H. apply existsb_exists in H as (y & Y & E). apply String.eqb_eq in E as <-.
    apply R in Y as [[]|Y]. exact Y. }
  destruct (existsb (fun fact => _) (spools s)) eqn:B; [discriminate|]. intros H.
  split; [exact IC|]. split; [|split].
  - intros o I. destruct (O o I) as (x & X & Y). exists x. split; [now apply sort_expected_in | exact Y].
  - intros fact I F. apply ST. destruct (existsb (String.eqb (fact_invocation_id fact)) _) eqn:E; [reflexivity|].
    exfalso. assert (existsb (fun fact => fact_retain fact
               && (negb (existsb (String.eqb (fact_invocation_id fact)) (ready_invocations r))
                   || existsb (fun x => String.eqb (ex_invocation_id x) (fact_invocation_id fact))
                        (missing r))) (spools s) = true) as T; [|congruence].
    apply existsb_exists. exists fact. rewrite F, E. auto.
  - intros g -> HS DS. rewrite HS, DS in H. apply ST. cbn [andb] in H.
    destruct (existsb _ _); [reflexivity | discriminate].
Qed.

(** * The gate's reading *)

(** What the examination of a snapshot, a scan and an inventory establishes. *)
Definition agree (now : Z) (inventory : SpoolInventory) (l : list IdempotencyEntry)
    (views : list AccountAuditCompletedGroupView) (open : option AccountAuditOpenGroup)
    (l' : list IdempotencyEntry) : Prop :=
  spool_agrees now inventory views open
  /\ (forall v, In v views -> view_agrees now l v)
  /\ match open with
     | Some g => open_agrees g (optional_map (settle_all views) l) l'
     | None => l' = optional_map (settle_all views) l
     end.

Lemma checks_agree account audit_path now inventory l s0 views open relations :
  canonicalize_snapshot l account = Ok s0 -> NoDup (map view_identity views) ->
  (let completed := consume_all views (new_relations account l now) in
   consistent completed
   /\ match open with
      | Some g => reconcile_open_relation g completed = (true, relations)
      | None => relations = completed
      end) ->
  validate_spool_relation inventory relations open account audit_path = None ->
  agree now inventory l views open (desired relations).
Proof.
  intros H NV [C R] V. apply canonicalize_iff in H as [[_ VE S N _ _] _].
  assert (Forall quiescent l) as Q
    by (eapply Forall_impl; [|exact VE]; intros e; apply valid_quiescent).
  destruct (consume_all_reconciled l account now views S Q N C) as [D _].
  pose proof (fun v => consume_all_agrees l account now S Q N views v NV C) as VA.
  pose proof (fun v => consume_all_notes l account now S Q N views v) as NO.
  destruct (clock_consume_all views (new_relations account l now)) as (_ & _ & FO).
  set (completed := consume_all views _) in *.
  assert (spools relations = spools completed) as SP.
  { destruct open as [g|]; [|now rewrite R]. pose proof (clock_open g completed) as K. rewrite R in K.
    unfold clock in K. now injection K. }
  destruct (validated _ _ _ _ _ V) as (V1 & V2 & V3 & V4). rewrite SP in V3.
  split; [split; [exact V1|split; [|split; [|exact V4]]] | split; [exact VA|]].
  - intros o I. destruct (V2 o I) as (x & X & EX & F). apply expected_recorded in X.
    rewrite SP in X. destruct X as [(fact & FI & E1 & E2)|(g & spool & G & OS & E1 & E2)].
    + destruct (FO fact FI) as [[]|(v & VI & F1 & F2 & _)]. exists (fact_spool fact). rewrite E2.
      split; [left; exists v; repeat split; congruence | exact F].
    + exists spool. rewrite E2. split; [right; exists g; repeat split; congruence | exact F].
  - intros v I VS W. destruct (v_spool v) as [spool|] eqn:E; [|congruence].
    destruct (NO v spool C I E) as (fact & FI & <- & _ & RT). exact (V3 fact FI (RT W)).
  - rewrite <- D. destruct open as [g|]; [|now rewrite R].
    apply reconcile_open_agrees; [rewrite D; now apply reconciled_sorted | exact C | exact R].
Qed.
