(* ===== verification/GateFacts.v ===== *)
(** What the gate of the idempotency core guarantees when it lets a request pass,
    and what it deletes. *)
From S2P Require Import Prelude Json Operation DestructivePlan M6Domain AuditSchema AuditLog.
From S2P Require Import AuditSamples IdempotencyStore IdempotencyFacts IdempotencyFile AuditRecovery.
From S2P Require Import Effects SpoolInventory Reconciliation ReconciliationFacts StoreAgreement.
Import Audit.

(** * Failing closed *)

Definition not_clean (r : IdempotencyCoreGateResult) : Prop := gate_status r <> GateClean.

Lemma spool_failure_not_clean e : not_clean (spool_failure_result e).
Proof. unfold not_clean, spool_failure_result. destruct (fs_kind e); discriminate. Qed.

Lemma store_failure_not_clean e : not_clean (store_failure_result e).
Proof. unfold not_clean, store_failure_result. cbn. destruct (has_value _); discriminate. Qed.

Lemma audit_failure_not_clean i : not_clean (audit_failure_result i).
Proof. unfold not_clean, audit_failure_result. cbn. destruct (inspection_status i); discriminate. Qed.

Lemma validate_not_clean inventory s open account path r :
  validate_spool_relation inventory s open account path = Some r -> not_clean r.
Proof.
  unfold validate_spool_relation. destruct (reconcile_spool_inventory _ _) as [x|e].
  - destruct (spool_contradiction_path x); [intros [= <-]; discriminate|].
    destruct (existsb _ _); [intros [= <-]; discriminate|].
    destruct open as [g|]; [|discriminate]. destruct (_ && _); [intros [= <-]|]; discriminate.
  - intros [= <-]. apply spool_failure_not_clean.
Qed.

Ltac closed :=
  repeat first
    [ emit_step
    | discriminate
    | apply spool_failure_not_clean
    | apply store_failure_not_clean
    | apply audit_failure_not_clean
    | assumption
    | progress unfold unless, store_write, store_inspect, relation_fails, relation_failure,
        append_failed in * ].

Section gate.
Variable json_dump : json -> option string.
Variables account audit_path store_path : string.

Abbreviation closes := (returns_only not_clean).

Lemma clear_completed_spool_closes key invocation detail :
  closes (clear_completed_spool account store_path key invocation detail).
Proof. unfold clear_completed_spool. closed. Qed.

Lemma cleanup_fact_closes fact holds : closes (cleanup_fact account store_path fact holds).
Proof.
  unfold cleanup_fact, release_hold. closed; apply clear_completed_spool_closes.
Qed.

Lemma cleanup_open_closes with_store g holds receipt :
  closes (cleanup_open_spool account store_path with_store g holds receipt).
Proof. unfold cleanup_open_spool. closed. Qed.

Lemma recover_open_closes with_store g pins holds :
  closes (recover_open_group json_dump account audit_path store_path with_store g pins holds).
Proof.
  unfold recover_open_group, append_recovery_checkpoint, append_recovery_outcome, recover_store,
    release_hold. cbv zeta.
  closed; first [ apply cleanup_open_closes | apply clear_completed_spool_closes | idtac ].
Qed.

Lemma cleanup_facts_closes facts holds : closes (cleanup_facts account store_path facts holds).
Proof.
  revert holds. induction facts as [|f facts IH]; intros holds; cbn [cleanup_facts]; closed;
    [apply IH | apply cleanup_fact_closes | apply IH].
Qed.

Lemma cleanup_removed_closes facts removed holds :
  closes (cleanup_removed account store_path facts removed holds).
Proof.
  revert holds. induction removed as [|e removed IH]; intros holds; cbn [cleanup_removed]; closed;
    [apply cleanup_fact_closes | apply IH ..].
Qed.

Lemma examine_closes now : closes (examine account audit_path store_path now).
Proof.
  unfold examine, enumerate, scan_log. cbv zeta. closed. eapply validate_not_clean. eassumption.
Qed.

Lemma core_gate_closes now :
  forall t r, runs (run_core_gate_body json_dump account audit_path store_path now) t (Return r) ->
  not_clean r.
Proof.
  change (closes (run_core_gate_body json_dump account audit_path store_path now)).
  unfold run_core_gate_body, sweep. closed;
    first [ apply examine_closes | apply recover_open_closes | apply cleanup_facts_closes
          | apply cleanup_removed_closes ].
Qed.

(** * What a clean gate has done *)

Definition returned {X} (e : gate_effect X) (x : X) (t : list (event gate_effect)) : Prop :=
  In (Event e (Returned x)) t.

Lemma returned_app {X} (e : gate_effect X) x t t' :
  returned e x t \/ returned e x t' -> returned e x (t ++ t').
Proof. apply in_or_app. Qed.

Lemma classify_appends_outcome g path pins p :
  classify_account_audit_recovery g (get_string (jget (intent g) "account")) path pins = Ok p ->
  has_boundary p AppendOutcomeAndSync = true.
Proof.
  intros H. apply existsb_exists. exists AppendOutcomeAndSync. split; [|apply eqb_refl].
  unfold classify_account_audit_recovery in H. repeat (inv_bind H).
  destruct (negb (dispatch_started g)); [|destruct (negb _ && negb _); [|repeat (inv_bind H)]];
    injection H as <-; cbn [r_boundaries In]; rewrite ?in_app_iff; cbn; tauto.
Qed.

(** The outcome recovery appended for an open group. *)
Definition closed_by_recovery (g : AccountAuditOpenGroup) (t : list (event gate_effect)) : Prop :=
  exists pins p op now stages outcome,
    classify_account_audit_recovery g (get_string (jget (intent g) "account")) audit_path pins = Ok p
    /\ command_of (intent g) = Some op /\ r_continue_current_request p = true
    /\ make_account_audit_outcome json_dump
         (recovery_outcome_input g op now (r_mutation_state p) stages (r_terminal p)) = Ok outcome
    /\ returned (RecoverOutcome outcome) None t.

Lemma recover_value with_store g pins holds t holds' :
  runs (recover_open_group json_dump account audit_path store_path with_store g pins holds) t
    (Value holds') -> closed_by_recovery g t.
Proof.
  unfold recover_open_group. cbv zeta.
  destruct (classify_account_audit_recovery _ _ _ _) as [p|e] eqn:C; intros H; [|invert_value].
  destruct (command_of (intent g)) as [op|] eqn:O; [|invert_value].
  apply runs_sbind_value in H as (t1 & t2 & [holds1 receipt] & -> & _ & H).
  apply runs_sbind_value in H as (t3 & t4 & stages & -> & _ & H).
  apply runs_sbind_value in H as (t5 & t6 & [] & -> & HO & H).
  rewrite (classify_appends_outcome _ _ _ _ C) in HO.
  apply runs_sbind_value in H as (t7 & t8 & [] & -> & _ & H).
  apply runs_sbind_value in H as (t9 & t10 & [holds2 receipt'] & -> & _ & H).
  apply runs_sbind_value in H as (t11 & t12 & [] & -> & _ & H).
  destruct (r_continue_current_request p) eqn:R; [|invert_value].
  unfold append_recovery_outcome in HO. invert_value.
  destruct (make_account_audit_outcome _ _) as [outcome|e] eqn:M; [|unfold append_failed in HO; invert_value].
  invert_value. destruct a0; [unfold append_failed in HO; invert_value|].
  exists pins, p, op, a, stages, outcome. repeat (split; [assumption || reflexivity|]).
  unfold returned. rewrite !in_app_iff. cbn. tauto.
Qed.

(** The reads a gate relies on: a clean inspection of the store gives a canonical
    snapshot, and the completed groups of a scan are of distinct invocations. *)
Definition sound_read (ev : event gate_effect) : Prop :=
  let 'Event e a := ev in
  match e in gate_effect X, a return Prop with
  | StoreInspect, Returned i =>
      i_status i = Clean -> exists s, canonicalize_snapshot (entries (i_snapshot i)) account = Ok s
  | PrepareRecovery _, Returned scanned => NoDup (map view_identity (snd scanned))
  | _, _ => True
  end.

Definition sound_reads (t : list (event gate_effect)) : Prop := Forall sound_read t.

(** Everything a clean gate saw and did: the inventory of the spool, the snapshot
    of the store and the groups of the log agree, the store was given the entries
    the log asks for, the group left open was closed, expired entries were swept,
    and the snapshot it hands on was read last. *)
Definition agreement (now : Z) (t : list (event gate_effect)) (r : IdempotencyCoreGateResult) : Prop :=
  exists inventory before scanned wanted_entries repaired swept t' final,
    returned EnumerateSpool (Ok inventory) t /\ returned StoreInspect before t
    /\ i_status before = Clean
    /\ returned (PrepareRecovery (pins (i_snapshot before))) scanned t
    /\ (inspection_status (fst scanned) = AuditClean \/ inspection_status (fst scanned) = AuditOpen)
    /\ agree now inventory (entries (i_snapshot before)) (snd scanned) (oldest_open (fst scanned))
         wanted_entries
    /\ (forall g, oldest_open (fst scanned) = Some g -> closed_by_recovery g t)
    /\ returned (ApplyReconciled (i_snapshot before) wanted_entries) repaired t
    /\ w_status repaired <> WriteFailure
    /\ now <= kIdempotencyMaximumUnixSeconds
    /\ returned (SweepExpired now) swept t /\ w_status (sw_result swept) <> WriteFailure
    /\ t = t' ++ [Event StoreInspect (Returned final)] /\ i_status final = Clean
    /\ gate_snapshot r = i_snapshot final.

Lemma store_inspect_value t s :
  runs store_inspect t (Value s) ->
  exists i, t = [Event StoreInspect (Returned i)] /\ i_status i = Clean /\ s = i_snapshot i.
Proof.
  unfold store_inspect. intros H. invert_value. destruct (i_status a) eqn:S; invert_value.
  exists a. auto.
Qed.

Lemma store_write_value w t u :
  runs (store_write w) t (Value u) -> t = [] /\ w_status w <> WriteFailure.
Proof.
  unfold store_write. intros H. destruct (w_status w); invert_value; (split; [reflexivity|]);
    discriminate.
Qed.

(** What the reading part established. *)
Definition examined (now : Z) (t : list (event gate_effect)) (snapshot : IdempotencySnapshot)
    (relations : CompletedRelationState) (open : option AccountAuditOpenGroup) : Prop :=
  exists inventory before scanned,
    t = [Event EnumerateSpool (Returned (Ok inventory)); Event StoreInspect (Returned before);
         Event (PrepareRecovery (pins (i_snapshot before))) (Returned scanned)]
    /\ i_status before = Clean /\ snapshot = i_snapshot before
    /\ (inspection_status (fst scanned) = AuditClean \/ inspection_status (fst scanned) = AuditOpen)
    /\ open = oldest_open (fst scanned)
    /\ (let completed := consume_all (snd scanned) (new_relations account (entries snapshot) now) in
        relation_contradiction completed = EmptyString
        /\ match open with
           | Some g => reconcile_open_relation g completed = (true, relations)
           | None => relations = completed
           end)
    /\ validate_spool_relation inventory relations open account audit_path = None.

Lemma enumerate_value t inventory :
  runs (enumerate account) t (Value inventory) ->
  t = [Event EnumerateSpool (Returned (Ok inventory))].
Proof.
  unfold enumerate. intros H. apply runs_sbind_value in H as (t1 & t2 & r & -> & H1 & H).
  apply runs_act_value in H1 as ->. destruct r as [inv|e]; [|invert_value].
  destruct (inventory_contradiction inv); invert_value. reflexivity.
Qed.

Lemma scan_log_value p t open views :
  runs (scan_log p) t (Value (open, views)) ->
  exists scanned, t = [Event (PrepareRecovery p) (Returned scanned)]
    /\ (inspection_status (fst scanned) = AuditClean \/ inspection_status (fst scanned) = AuditOpen)
    /\ open = oldest_open (fst scanned) /\ views = snd scanned.
Proof.
  unfold scan_log. intros H. apply runs_sbind_value in H as (t1 & t2 & scanned & -> & H1 & H).
  apply runs_act_value in H1 as ->. exists scanned.
  destruct (inspection_status (fst scanned)); invert_value;
    match goal with E : _ = (_, _) |- _ => injection E as <- <- | E : (_, _) = _ |- _ => injection E as -> -> end; auto.
Qed.

Lemma examine_value now t snapshot relations open :
  runs (examine account audit_path store_path now) t (Value (snapshot, relations, open)) ->
  examined now t snapshot relations open.
Proof.
  unfold examine. intros H.
  apply runs_sbind_value in H as (t1 & t2 & inventory & -> & H1 & H).
  apply enumerate_value in H1 as ->.
  apply runs_sbind_value in H as (t3 & t4 & s & -> & H1 & H).
  apply store_inspect_value in H1 as (before & -> & S & ->).
  apply runs_sbind_value in H as (t5 & t6 & [opened views] & -> & H1 & H).
  apply scan_log_value in H1 as (scanned & -> & I & -> & ->). cbv zeta in H.
  fold (consume_all (snd scanned) (new_relations account (entries (i_snapshot before)) now)) in H.
  destruct (str_empty _) eqn:C; cbn [negb] in H; [|unfold relation_fails in H; invert_value].
  apply str_empty_true in C.
  destruct (match oldest_open (fst scanned) with Some _ => _ | None => _ end) as [related rel] eqn:R.
  destruct related; cbn [negb] in H; [|unfold relation_fails in H; invert_value].
  destruct (validate_spool_relation _ _ _ _ _) eqn:VS; [invert_value|].
  apply runs_pure_value in H as [-> H]. injection H as -> -> ->.
  exists inventory, before, scanned. repeat (split; [auto; reflexivity|]). split; [|exact VS].
  split; [exact C|]. destruct (oldest_open (fst scanned)); [exact R | now injection R].
Qed.

Lemma examined_clock now t snapshot relations open :
  examined now t snapshot relations open ->
  sampled_now_valid relations = (now <=? kIdempotencyMaximumUnixSeconds)
  /\ exists p scanned, returned (PrepareRecovery p) scanned t /\ open = oldest_open (fst scanned)
     /\ forall fact, In fact (spools relations) ->
          exists v, In v (snd scanned)
            /\ fact_of now (now <=? kIdempotencyMaximumUnixSeconds) v fact.
Proof.
  intros (inventory & before & scanned & -> & _ & _ & _ & O & [_ REL] & _).
  assert (clock relations
          = clock (consume_all (snd scanned) (new_relations account (entries snapshot) now))) as K.
  { destruct open as [g|]; [|now rewrite REL].
    rewrite <- (clock_open g (consume_all _ _)). now rewrite REL. }
  destruct (clock_consume_all (snd scanned) (new_relations account (entries snapshot) now))
    as (K1 & K2 & K3).
  unfold clock in K. injection K as F1 F2 F3. rewrite F3, K2. split; [reflexivity|].
  exists (pins (i_snapshot before)), scanned. split; [unfold returned; cbn; tauto|].
  split; [exact O|]. intros fact F. rewrite F1 in F. destruct (K3 fact F) as [[]|F']. exact F'.
Qed.

(** The steps after the examination, when all of them succeed. *)
Definition repaired_and_swept (now : Z) (t : list (event gate_effect)) (snapshot : IdempotencySnapshot)
    (relations : CompletedRelationState) (open : option AccountAuditOpenGroup)
    (r : IdempotencyCoreGateResult) : Prop :=
  exists repaired swept t' final,
    match open with Some g => closed_by_recovery g t | None => True end
    /\ returned (ApplyReconciled snapshot (desired relations)) repaired t
    /\ w_status repaired <> WriteFailure /\ sampled_now_valid relations = true
    /\ returned (SweepExpired now) swept t /\ w_status (sw_result swept) <> WriteFailure
    /\ t = t' ++ [Event StoreInspect (Returned final)] /\ i_status final = Clean
    /\ gate_snapshot r = i_snapshot final.

Lemma core_gate_value now t r :
  runs (run_core_gate_body json_dump account audit_path store_path now) t (Value r) ->
  exists t1 t2 snapshot relations open,
    t = t1 ++ t2 /\ examined now t1 snapshot relations open
    /\ repaired_and_swept now t2 snapshot relations open r.
Proof.
  unfold run_core_gate_body. intros H.
  apply runs_sbind_value in H as (te & t2 & [[snapshot relations] open] & -> & HE & H).
  apply examine_value in HE. exists te, t2, snapshot, relations, open. split; [reflexivity|].
  split; [exact HE|]. clear HE.
  apply runs_sbind_value in H as (t3 & t4 & temp & -> & H1 & H). apply runs_act_value in H1 as ->.
  apply runs_sbind_value in H as (t5 & t6 & [] & -> & H1 & H). apply store_write_value in H1 as [-> _].
  apply runs_sbind_value in H as (t7 & t8 & repaired & -> & H1 & H). apply runs_act_value in H1 as ->.
  apply runs_sbind_value in H as (t9 & t10 & [] & -> & H1 & H). apply store_write_value in H1 as [-> RS].
  apply runs_sbind_value in H as (t11 & t12 & holds & -> & H1 & H). apply runs_act_value in H1 as ->.
  apply runs_sbind_value in H as (tr & t14 & holds' & -> & HR & H).
  apply runs_sbind_value in H as (tc & t16 & holds'' & -> & HF & H).
  destruct (sampled_now_valid relations) eqn:NV; cbn [negb] in H; [|invert_value].
  apply runs_sbind_value in H as (ts & t18 & removed & -> & HS & H).
  unfold sweep in HS. apply runs_sbind_value in HS as (t19 & t20 & swept & -> & H1 & HS).
  apply runs_act_value in H1 as ->.
  apply runs_sbind_value in HS as (t21 & t22 & [] & -> & H1 & HS). apply store_write_value in H1 as [-> SS].
  apply runs_pure_value in HS as [-> _].
  apply runs_sbind_value in H as (td & t24 & [] & -> & HD & H).
  apply runs_sbind_value in H as (tf & t26 & fin & -> & HI & H).
  apply store_inspect_value in HI as (final & -> & FS & ->). apply runs_pure_value in H as [-> ->].
  eexists repaired, swept, _, final. unfold returned.
  repeat match goal with |- _ /\ _ => split end;
    try eassumption; try reflexivity; try (rewrite !in_app_iff; cbn; tauto).
  - destruct open as [g|]; [|exact I].
    apply runs_sbind_value in HR as (t27 & t28 & cur & -> & _ & HR).
    apply recover_value in HR as (ps & p & op & nw & stages & outcome & X1 & X2 & X3 & X4 & X5).
    exists ps, p, op, nw, stages, outcome. repeat (split; [assumption|]).
    unfold returned in *. rewrite !in_app_iff. tauto.
  - rewrite !app_nil_r. rewrite !app_assoc. reflexivity.
Qed.

(** C15.  The gate fails closed: it reports a clean core only when what it read
    agrees.  Every directory of the spool is of an invocation the log records a
    file for and holds no other file, and the files that may still be wanted are
    there; every completed group has its outcome, its checkpoint and, unexpired,
    its entry, and the entry of its invocation has its key, plan, spool file,
    progress and terminal; the group left open agrees with its entry, and has been
    closed by an outcome in the log.  The store has been given exactly the entries
    the log asks for and swept of expired ones, and the snapshot handed to the
    request is the one read after all of that.  It is assumed of the reads that a
    clean inspection gives a canonical snapshot and that a scan reports groups of
    distinct invocations. *)
Theorem clean_gate_agrees now t r :
  runs (run_core_gate json_dump account audit_path store_path now) t (Some r) ->
  sound_reads t -> gate_status r = GateClean -> agreement now t r.
Proof.
  intros H SR C. apply runs_pbind in H as (t1 & t2 & c & -> & H & HC).
  assert (c = Value r) as ->.
  { destruct c as [r'|r'|]; destruct HC as [_ HC]; try discriminate; injection HC as <-;
      [reflexivity|]. exact (False_ind _ (core_gate_closes _ _ _ H C)). }
  destruct HC as [-> _]. rewrite app_nil_r in *.
  destruct (core_gate_value _ _ _ H) as (te & ts & snapshot & relations & open & -> & X & Y).
  destruct (examined_clock _ _ _ _ _ X) as [K _].
  destruct X as (inventory & before & scanned & -> & SB & -> & IS & -> & RO & VS).
  destruct Y as (repaired & swept & t' & final & CR & AR & RS & NV & SW & SS & -> & FS & RF).
  rewrite NV in K. symmetry in K. apply Z.leb_le in K.
  apply Forall_inv_tail in SR as SR1. destruct (Forall_inv SR1 SB) as [s0 CS].
  pose proof (Forall_inv (Forall_inv_tail SR1)) as ND. cbn in ND.
  pose proof (checks_agree account audit_path now inventory _ s0 _ _ relations CS ND RO VS) as AG.
  unfold returned in *.
  eexists inventory, before, scanned, (desired relations), repaired, swept, _, final. unfold returned.
  repeat match goal with |- _ /\ _ => split end; try eassumption; try reflexivity;
    try (rewrite in_app_iff; cbn; tauto).
  - intros g OG. rewrite OG in CR.
    destruct CR as (ps & p & op & nw & stages & outcome & X1 & X2 & X3 & X4 & X5).
    exists ps, p, op, nw, stages, outcome. repeat (split; [assumption|]).
    unfold returned in *. rewrite in_app_iff. tauto.
  - now rewrite app_assoc.
Qed.

(** * What is deleted *)

Definition keeps_files (ev : event gate_effect) : bool :=
  let 'Event e _ := ev in match e with CleanupHeld _ => false | _ => true end.

(** No file is deleted by [m]. *)
Lemma kept {A} (m : Effects.stmt gate_effect IdempotencyCoreGateResult A) t c h a :
  emits keeps_files m -> runs m t c -> ~ In (Event (CleanupHeld h) a) t.
Proof. intros H R I. pose proof (in_emits _ _ _ _ _ H R I). discriminate. Qed.

Ltac keeps :=
  repeat first [ emit_step
               | progress unfold unless, store_write, store_inspect, relation_fails, append_failed,
                   release_hold, clear_completed_spool, append_recovery_checkpoint,
                   append_recovery_outcome, recover_store, sweep, examine, enumerate, scan_log in *
               | progress cbv zeta ].

(** Passes over a statement that deletes nothing. *)
Ltac pass H I :=
  let t1 := fresh "t" in let t2 := fresh "t" in let x := fresh "x" in let H1 := fresh "Hrun" in
  apply (in_sbind _ _ _ _ _ H) in I; clear H;
  destruct I as [(t1 & x & H1 & I) | (t1 & t2 & x & -> & H1 & H & I)];
  [exfalso; revert I; eapply kept; [|exact H1]; keeps|].

Lemma find_hold_fact fact holds h holds' :
  find_hold fact holds = Some (h, holds') -> holds_fact fact h = true.
Proof.
  revert holds'. induction holds as [|x holds IH]; intros holds'; [discriminate|]. cbn [find_hold].
  destruct (holds_fact fact x) eqn:E; [intros [= <- _]; exact E|].
  destruct (find_hold fact holds) as [[y rest]|]; [|discriminate]. intros [= <- _].
  exact (IH _ eq_refl).
Qed.

Lemma cleanup_fact_deletes fact holds t c h a :
  runs (cleanup_fact account store_path fact holds) t c -> In (Event (CleanupHeld h) a) t ->
  holds_fact fact h = true.
Proof.
  unfold cleanup_fact. destruct (find_hold fact holds) as [[hold rest]|] eqn:F; intros H I.
  - apply (in_sbind _ _ _ _ _ H) in I as [(t1 & x & H1 & I) | (t1 & t2 & x & -> & H1 & H' & I)].
    + apply runs_act in H1 as [(y & -> & _)|[-> _]]; destruct I as [I|[]];
        injection I; intros; subst; exact (find_hold_fact _ _ _ _ F).
    + exfalso. revert I. eapply kept; [|exact H']. keeps.
  - exfalso. revert I. eapply kept; [|exact H]. keeps.
Qed.

Lemma cleanup_facts_deletes facts holds t c h a :
  runs (cleanup_facts account store_path facts holds) t c -> In (Event (CleanupHeld h) a) t ->
  exists fact, In fact facts /\ fact_retain fact = false /\ holds_fact fact h = true.
Proof.
  revert holds t. induction facts as [|f facts IH]; intros holds t H I; cbn [cleanup_facts] in H.
  - destruct H as [-> _]. destruct I.
  - destruct (fact_retain f) eqn:R.
    + destruct (IH _ _ H I) as (fact & J & X). exists fact. cbn. auto.
    + apply (in_sbind _ _ _ _ _ H) in I as [(t1 & x & H1 & I) | (t1 & t2 & x & -> & H1 & H' & I)].
      * exists f. repeat split; [now left | exact R | exact (cleanup_fact_deletes _ _ _ _ _ _ H1 I)].
      * destruct (IH _ _ H' I) as (fact & J & X). exists fact. cbn. auto.
Qed.

Lemma cleanup_removed_deletes facts removed holds t c h a :
  runs (cleanup_removed account store_path facts removed holds) t c ->
  In (Event (CleanupHeld h) a) t ->
  exists fact e, In fact facts /\ holds_fact fact h = true /\ In e removed
    /\ spool e = Some (fact_spool fact) /\ entry_invocation_id e = fact_invocation_id fact.
Proof.
  revert holds t. induction removed as [|e removed IH]; intros holds t H I;
    cbn [cleanup_removed] in H.
  - destruct H as [-> _]. destruct I.
  - assert (forall holds t, runs (cleanup_removed account store_path facts removed holds) t c ->
              In (Event (CleanupHeld h) a) t ->
              exists fact e0, In fact facts /\ holds_fact fact h = true /\ In e0 (e :: removed)
                /\ spool e0 = Some (fact_spool fact)
                /\ entry_invocation_id e0 = fact_invocation_id fact) as L.
    { intros hs t' H' I'. destruct (IH _ _ H' I') as (fact & e0 & X1 & X2 & X3 & X4).
      exists fact, e0. cbn. auto. }
    destruct (spool e) as [s|] eqn:S; [|exact (L _ _ H I)].
    destruct (find _ facts) as [fact|] eqn:F.
    + apply find_some in F as [J F]. bool_split. str_bool. apply eqb_eq in H1.
      apply (in_sbind _ _ _ _ _ H) in I as [(t1 & x & R1 & I) | (t1 & t2 & x & -> & R1 & R2 & I)].
      * exists fact, e. rewrite S, H1. repeat split; [exact J | | now left | now symmetry].
        exact (cleanup_fact_deletes _ _ _ _ _ _ R1 I).
      * exact (L _ _ R2 I).
    + exfalso. revert I. eapply kept; [|exact H]. keeps.
Qed.

Lemma cleanup_open_deletes with_store g holds receipt t c h a :
  runs (cleanup_open_spool account store_path with_store g holds receipt) t c ->
  In (Event (CleanupHeld h) a) t ->
  exists fact, open_spool_fact g = Some fact /\ holds_fact fact h = true.
Proof.
  unfold cleanup_open_spool. destruct (open_spool_fact g) as [fact|]; intros H I.
  2: { destruct H as [-> _]. destruct I. }
  exists fact. split; [reflexivity|].
  destruct (find_hold fact holds) as [[hold rest]|] eqn:F.
  - apply (in_sbind _ _ _ _ _ H) in I as [(t1 & x & H1 & I) | (t1 & t2 & x & -> & H1 & H' & I)].
    + apply runs_act in H1 as [(y & -> & _)|[-> _]]; destruct I as [I|[]];
        injection I; intros; subst; exact (find_hold_fact _ _ _ _ F).
    + exfalso. revert I. eapply kept; [|exact H']. keeps.
  - exfalso. revert I. eapply kept; [|exact H]. keeps.
Qed.

(** A plan that deletes the spool file does not retain it. *)
Lemma classify_deletes g account' path pins p :
  classify_account_audit_recovery g account' path pins = Ok p ->
  has_boundary p DeleteSpoolAndSyncRoot = true \/ has_boundary p CleanupSpoolAndSyncRoot = true ->
  r_retain_spool p = false.
Proof.
  intros H B. unfold classify_account_audit_recovery in H. repeat (inv_bind H).
  destruct (negb (dispatch_started g)); [injection H as <-; reflexivity|].
  destruct (negb _ && negb _).
  { injection H as <-. unfold has_boundary in B. cbn in B. destruct B; discriminate. }
  repeat (inv_bind H). injection H as <-. cbn [r_retain_spool]. unfold has_boundary in B.
  cbn [r_boundaries] in B. rewrite !existsb_app in B. unfold when in B.
  destruct (has_spool g); [|reflexivity]. cbn [andb].
  destruct (eqb _ _ && _ && _ && _) eqn:R; [|reflexivity]. exfalso. revert B. cbn [negb andb].
  destruct (forward_complete g && _ && _), (keyed g); cbn; intros [B|B]; discriminate.
Qed.

Lemma recover_deletes with_store g pins holds t c h a :
  runs (recover_open_group json_dump account audit_path store_path with_store g pins holds) t c ->
  In (Event (CleanupHeld h) a) t ->
  exists p fact,
    classify_account_audit_recovery g (get_string (jget (intent g) "account")) audit_path pins = Ok p
    /\ r_retain_spool p = false /\ open_spool_fact g = Some fact /\ holds_fact fact h = true.
Proof.
  unfold recover_open_group. cbv zeta.
  destruct (classify_account_audit_recovery _ _ _ _) as [p|e] eqn:C; intros H I.
  2: { exfalso. revert I. eapply kept; [|exact H]. keeps. }
  pose proof (classify_deletes _ _ _ _ _ C) as D.
  destruct (command_of (intent g)) as [op|].
  2: { exfalso. revert I. eapply kept; [|exact H]. keeps. }
  apply (in_sbind _ _ _ _ _ H) in I as [(t1 & x & H1 & I) | (t1 & t2 & [hs rc] & -> & _ & H' & I)].
  { destruct (r_boundaries p) as [|[] bs] eqn:B; try (destruct H1 as [-> _]; destruct I).
    destruct (cleanup_open_deletes _ _ _ _ _ _ _ _ H1 I) as (fact & F & K).
    exists p, fact. repeat split; [|exact F | exact K]. apply D. left. unfold has_boundary.
    rewrite B. reflexivity. }
  clear H. pass H' I. pass H' I. pass H' I.
  apply (in_sbind _ _ _ _ _ H') in I as [(t5 & y & H1 & I) | (t5 & t6 & [hs' rc'] & -> & _ & H & I)].
  2: { exfalso. revert I. eapply kept; [|exact H]. keeps. }
  destruct (has_boundary p CleanupSpoolAndSyncRoot) eqn:B.
  2: { exfalso. revert I. eapply kept; [|exact H1]. keeps. }
  apply (in_sbind _ _ _ _ _ H1) in I as [(t7 & z & H2 & I) | (t7 & t8 & z & -> & _ & H & I)].
  2: { exfalso. revert I. eapply kept; [|exact H]. keeps. }
  destruct (cleanup_open_deletes _ _ _ _ _ _ _ _ H2 I) as (fact & F & K).
  exists p, fact. auto.
Qed.

(** Why a spool file may be deleted: its group is complete and either its effect
    is known or the time it is kept has passed, or its entry expired; or it
    belongs to the group left open and the recovery plan does not retain it. *)
Definition disposable (now : Z) (scanned : AccountAuditInspection * list AccountAuditCompletedGroupView)
    (t : list (event gate_effect)) (h : SpoolHold) : Prop :=
  (exists v, In v (snd scanned) /\ v_spool v = Some (h_spool h)
     /\ v_invocation_id v = h_invocation_id h
     /\ (completed_terminal_retains_pending v = false
         \/ completed_spool_is_immediately_eligible v now
              (now <=? kIdempotencyMaximumUnixSeconds) = true
         \/ exists swept e, returned (SweepExpired now) swept t /\ In e (sw_removed swept)
              /\ spool e = Some (h_spool h) /\ entry_invocation_id e = h_invocation_id h))
  \/ exists g pins p,
       oldest_open (fst scanned) = Some g /\ open_group_spool g = Some (h_spool h)
       /\ get_string (jget (intent g) "invocation_id") = h_invocation_id h
       /\ classify_account_audit_recovery g (get_string (jget (intent g) "account")) audit_path pins
          = Ok p
       /\ r_retain_spool p = false.

Lemma holds_fact_inv fact h :
  holds_fact fact h = true -> fact_spool fact = h_spool h /\ fact_invocation_id fact = h_invocation_id h.
Proof.
  unfold holds_fact. intros H. bool_split. str_bool. apply eqb_eq in H0. auto.
Qed.

(** The two reasons a fact gives. *)
Lemma fact_disposable now scanned t t' fact h v :
  In v (snd scanned) -> fact_of now (now <=? kIdempotencyMaximumUnixSeconds) v fact ->
  holds_fact fact h = true ->
  fact_retain fact = false
  \/ (exists swept e, returned (SweepExpired now) swept t' /\ In e (sw_removed swept)
       /\ spool e = Some (fact_spool fact) /\ entry_invocation_id e = fact_invocation_id fact) ->
  incl t' t -> disposable now scanned t h.
Proof.
  intros J (F1 & F2 & F3) K R IN. apply holds_fact_inv in K as [K1 K2]. rewrite K1, K2 in *.
  left. exists v. repeat (split; [assumption|]). destruct R as [R|(swept & e & R1 & R2)].
  - destruct (F3 R); auto.
  - right. right. exists swept, e. split; [exact (IN _ R1) | exact R2].
Qed.

(** C17.  The gate deletes a spool file only when it is no longer needed: the group
    of the file is complete and its effect on Telegram is known, or the retention
    time has passed, or its entry was swept as expired; or the file belongs to the
    open group and recovery does not retain it.  This holds for every run, also
    one that fails or throws in between. *)
Theorem spool_deletion_justified now t o h a :
  runs (run_core_gate json_dump account audit_path store_path now) t o ->
  In (Event (CleanupHeld h) a) t ->
  exists p scanned, returned (PrepareRecovery p) scanned t /\ disposable now scanned t h.
Proof.
  intros H I. apply runs_pbind in H as (t1 & t2 & c & -> & H & HC).
  assert (t2 = []) as -> by (destruct c; exact (proj1 HC)). rewrite app_nil_r in *. clear HC.
  unfold run_core_gate_body in H. pass H I. destruct x as [[snapshot relations] open].
  apply examine_value in Hrun.
  destruct (examined_clock _ _ _ _ _ Hrun) as [_ (p & scanned & P & O & F)].
  exists p, scanned. split; [apply returned_app; now left|].
  do 5 pass H I.
  apply (in_sbind _ _ _ _ _ H) in I as [(tr & cr & R & I) | (tr & u2 & holds & -> & _ & H' & I)].
  { destruct open as [g|]; [|destruct R as [-> _]; destruct I]. pass R I.
    destruct (recover_deletes _ _ _ _ _ _ _ _ R I) as (plan & fact & C & RS & OF & K).
    unfold open_spool_fact in OF. destruct (open_group_spool g) as [s|] eqn:OS; [|discriminate].
    injection OF as <-. apply holds_fact_inv in K as [K1 K2]. cbn in K1, K2. subst s.
    right. eexists g, _, plan. eauto. }
  clear H.
  apply (in_sbind _ _ _ _ _ H') in I as [(tc & cc & R & I) | (tc & u3 & holds' & -> & _ & H & I)].
  { destruct (cleanup_facts_deletes _ _ _ _ _ _ R I) as (fact & J & RT & K).
    destruct (F fact J) as (v & V & FO).
    exact (fact_disposable now scanned _ [] fact h v V FO K (or_introl RT) (incl_nil_l _)). }
  destruct (sampled_now_valid relations); cbn [negb] in H.
  2: { exfalso. revert I. eapply kept; [|exact H]. keeps. }
  clear H'. apply (in_sbind _ _ _ _ _ H) in I as [(ts & cs & R & I) | (ts & u4 & removed & -> & R & H' & I)].
  { exfalso. revert I. eapply kept; [|exact R]. keeps. }
  unfold sweep in R. apply runs_sbind_value in R as (u5 & u6 & swept & -> & R1 & R).
  apply runs_act_value in R1 as ->. apply runs_sbind_value in R as (u7 & u8 & [] & -> & R1 & R).
  apply runs_pure_value in R as [-> ->].
  apply (in_sbind _ _ _ _ _ H') in I as [(td & cd & R2 & I) | (td & u9 & [] & -> & _ & R2 & I)].
  2: { exfalso. revert I. eapply kept; [|exact R2]. keeps. }
  destruct (cleanup_removed_deletes _ _ _ _ _ _ _ R2 I) as (fact & e & J & K & E & SE & IE).
  destruct (F fact J) as (v & V & FO).
  apply (fact_disposable now scanned _ [Event (SweepExpired now) (Returned swept)] fact h v V FO K).
  - right. exists swept, e. split; [now left | auto].
  - intros ev [<-|[]]. rewrite !in_app_iff. cbn. tauto.
Qed.
End gate.

(** * A run *)

(** A completed attachment without a key: its file is deleted, nothing else
    changes. *)
Definition attach_spool : SpoolRef :=
  {| relative_path := "spool/00112233445566778899aabbccddeeff/a.txt";
     file := {| path := "/home/u/a.txt"; name := "a.txt"; size := 3; sha256 := sample_key;
                device := 1; inode := 2; mtime_ns := 4; ctime_ns := 5 |} |}.

Definition attach_view : AccountAuditCompletedGroupView :=
  {| v_audit_generation := 1; v_invocation_id := "00112233445566778899aabbccddeeff";
     v_account := "main"; v_operation := SavedAttach; v_request_fingerprint := sample_key;
     v_idempotency_key_hash := None; v_plan := JNull;
     v_intent_timestamp := "2024-01-01T00:00:00Z"; v_intent_unix_seconds := 1000;
     v_idempotency_pending := None; v_spool := Some attach_spool;
     v_temporary_message_ids := JArray []; v_forward_progress := JArray [];
     v_mutation_proof := None; v_completed_stages := [];
     v_outcome := Some (jobject [("mutation_state", JString "confirmed"); ("terminal", JNull)]) |}.

Definition attach_hold : SpoolHold :=
  {| h_valid := true; h_generation := 1; h_invocation_id := "00112233445566778899aabbccddeeff";
     h_spool := attach_spool |}.

Definition empty_inspection : IdempotencyStoreInspection :=
  {| i_status := Clean; i_snapshot := no_snapshot; i_stale_temp_present := false; i_failure := None |}.

Definition unchanged : IdempotencyWriteResult :=
  {| w_status := Unchanged; w_snapshot := no_snapshot; w_failure := None |}.

Definition clean_scan : AccountAuditInspection :=
  {| inspection_status := AuditClean; oldest_open := None; inspection_terminal := None;
     inspection_failure := no_audit_failure |}.

Definition attach_trace : list (event gate_effect) :=
  [Event EnumerateSpool
     (Returned (Ok {| root_absent := true; invocations := []; inventory_contradiction := None |}));
   Event StoreInspect (Returned empty_inspection);
   Event (PrepareRecovery (pins no_snapshot)) (Returned (clean_scan, [attach_view]));
   Event CleanupStaleTemp (Returned unchanged);
   Event (ApplyReconciled no_snapshot []) (Returned unchanged);
   Event IssueHolds (Returned [attach_hold]);
   Event (CleanupHeld attach_hold) (Returned None);
   Event (ReleaseHold attach_hold) (Returned None);
   Event (SweepExpired 2000) (Returned {| sw_result := unchanged; sw_removed := [] |});
   Event StoreInspect (Returned empty_inspection)].

Lemma attach_runs json_dump :
  runs (run_core_gate json_dump "main" "audit.jsonl" "idempotency.db" 2000) attach_trace
    (Some (gate_result GateClean)).
Proof.
  repeat (eexists _, _; split; [reflexivity|]).
  cbv. split; reflexivity.
Qed.

Lemma clean_gate_agrees_witness :
  agreement (fun _ => None) "audit.jsonl" 2000 attach_trace (gate_result GateClean).
Proof.
  refine (clean_gate_agrees _ "main" "audit.jsonl" "idempotency.db" 2000 attach_trace _
            (attach_runs _) _ eq_refl).
  destruct (is_ok_inv (canonicalize_snapshot [] "main")) as [s S]; [vm_compute; reflexivity|].
  pose proof (fun _ : Clean = Clean => ex_intro (fun s => canonicalize_snapshot [] "main" = Ok s) s S) as E.
  assert (NoDup (map view_identity [attach_view])) as N by (constructor; [intros [] | constructor]).
  unfold sound_reads, attach_trace.
  repeat (apply Forall_cons; [first [exact I | exact E | exact N]|]). apply Forall_nil.
Defined.

Lemma spool_deletion_justified_witness :
  exists p scanned, returned (PrepareRecovery p) scanned attach_trace
    /\ disposable "audit.jsonl" 2000 scanned attach_trace attach_hold.
Proof.
  refine (spool_deletion_justified (fun _ => None) "main" "audit.jsonl" "idempotency.db" 2000
            attach_trace _ attach_hold (Returned None) (attach_runs _) _).
  cbn. tauto.
Defined.
