(* ===== verification/WriteKernelLogic.v ===== *)
(** A logic of traces for the programs of the write kernel: the runs of a program
    as lists of calls with their answers, the inversion of runs that yield a value,
    and the calls a statement may make. *)
From S2P Require Import Prelude Json CanonicalJson Paths Operation DestructivePlan M6Domain.
From S2P Require Import AuditSchema AuditLog IdempotencyStore IdempotencyFile Effects SpoolInventory Reconciliation WriteKernel.
Import Audit Contract.

Abbreviation event := (Effects.event effect).

Lemma runs_audit_fatal_value hooks durable {A} t (a : A) :
  ~ runs (audit_fatal hooks durable) t (Value a).
Proof.
  unfold audit_fatal. intros H. destruct (durable && has_audit_fatal_shutdown hooks);
    [apply runs_sbind_value in H as (t1 & t2 & x & _ & _ & H) |]; revert H; apply runs_return_value.
Qed.

Lemma audit_fatal_raise hooks durable {A} t :
  ~ runs (audit_fatal hooks durable : stmt A) t Raise.
Proof.
  unfold audit_fatal. intros H. destruct (durable && has_audit_fatal_shutdown hooks).
  - apply runs_sbind in H as [(t1 & t2 & a & _ & _ & H) | [(r & Hc & _) | [_ H]]].
    + apply runs_return in H as [_ Hc]. discriminate.
    + discriminate.
    + apply runs_try in H as [[Hc _] | (t1 & t2 & _ & _ & H)]; [congruence |].
      apply runs_pure in H as [_ Hc]. discriminate.
  - apply runs_return in H as [_ Hc]. discriminate.
Qed.

Lemma runs_require_value hooks b durable {A} (k : stmt A) t a :
  runs (require hooks b durable k) t (Value a) -> b = true /\ runs k t (Value a).
Proof.
  unfold require. destruct b; [auto |]. intros H. apply runs_audit_fatal_value in H as [].
Qed.

Lemma runs_hooked_value {X} (e : effect X) t x :
  runs (hooked e) t (Value x) -> t = [Event e (Returned x)].
Proof.
  intros H. apply runs_try_value in H as [H | (t1 & t2 & -> & _ & H)];
    [apply runs_act_value in H; exact H | apply runs_return_value in H as []].
Qed.

(** Takes apart the runs that yield a value. *)
Ltac invert_runs :=
  repeat match goal with
  | H : runs (sbind _ _) _ (Value _) |- _ =>
      let t1 := fresh "t" in let t2 := fresh "t" in let a := fresh "a" in
      let H1 := fresh "Hrun" in
      apply runs_sbind_value in H; destruct H as (t1 & t2 & a & -> & H1 & H)
  | H : runs (act _) _ (Value _) |- _ => apply runs_act_value in H as ->
  | H : runs (hooked _) _ (Value _) |- _ => apply runs_hooked_value in H as ->
  | H : runs (pure _) _ (Value _) |- _ => apply runs_pure_value in H; destruct H as [-> ?]; subst
  | H : runs (return_ _) _ (Value _) |- _ => apply runs_return_value in H as []
  | H : runs (audit_fatal _ _) _ (Value _) |- _ => apply runs_audit_fatal_value in H as []
  | H : runs (durably _ _ _) _ (Value _) |- _ => unfold durably in H
  | H : runs (require _ _ _ _) _ (Value _) |- _ =>
      let Hb := fresh "Hreq" in apply runs_require_value in H; destruct H as [Hb H]
  | H : runs (or_fatal _ ?r) _ (Value _) |- _ => unfold or_fatal in H; destruct r
  | H : runs (if ?b then _ else _) _ (Value _) |- _ => destruct b eqn:?
  end.

Ltac split_runs :=
  repeat (invert_runs;
          match goal with
          | H : runs (match ?x with _ => _ end) _ (Value _) |- _ => destruct x eqn:?
          end); invert_runs.

(** Unfolds the functions of the kernel, but not the observations. *)
Ltac unfold_kernel :=
  unfold dispatch, finish_dispatch, settle_store, interrupted_before_dispatch,
    stop_before_dispatch, finish_without_dispatch, cleanup_current_spool, publish_spool,
    insert_pending, or_fatal, observer, checkpointed, durably, prepare, revalidate_principal,
    verify_grant, confirm_plan, admit_and_plan, first_admission, run_gate, acquire_epoch, dry_run,
    dry_run_planned, append_outcome, append_checkpoint, timestamp_now, check_incumbent,
    incumbent_result, confirm_replay, require, audit_fatal, admitted_hook, hooked,
    post_hook_interruption in *; cbv zeta.

Ltac emit :=
  repeat lazymatch goal with
  | |- emits _ (pure _) => apply emits_pure
  | |- emits _ (return_ _) => apply emits_return
  | |- emits _ (sbind _ _) => apply emits_sbind; [| intros ?]
  | |- emits _ (try_ _ _) => apply emits_try
  | |- emits _ (act _) => apply emits_act; reflexivity
  | |- emits _ (match (false && _)%bool with _ => _ end) => cbn [andb]
  | |- emits _ (match ?x with _ => _ end) => destruct x
  end.

(** Calls that write nothing to the log, the store or the spool: the clock and the
    cancellation flag, the hooks that admit, plan, confirm and authorise, the lock
    of the epoch, and the scan that permits an append. *)
Definition inspects (ev : event) : bool :=
  let 'Event e _ := ev in
  match e with
  | DeadlineExpired | Cancelled | SampleNow | HookAdmit | HookPlan _ | HookLookupAdmit
  | HookMaterialize _ | HookConfirm _ _ | HookVerifyGrant | HookRevalidatePrincipal
  | AcquireEpoch | PrepareAppend _ _ => true
  | _ => false
  end.

(** The recovery gate.  It writes: it closes the group an earlier invocation left
    open, reconciles and sweeps the store and deletes spool files of earlier
    invocations. *)
Definition recovers (ev : event) : bool :=
  let 'Event e _ := ev in match e with RunGate _ _ => true | _ => false end.

(** The calls allowed before the intent: those that write nothing, and the
    recovery gate. *)
Definition preflight (ev : event) : bool := inspects ev || recovers ev.

(** The intent an event appends; the plan and proof an event dispatches. *)
Definition intends (ev : event) : option json :=
  let 'Event e _ := ev in match e with AppendIntent intent => Some intent | _ => None end.
Definition dispatches (ev : event) : option (Plan * json) :=
  let 'Event e _ := ev in match e with DispatchBegin p proof => Some (p, proof) | _ => None end.

Ltac in_trace := repeat progress (rewrite ?in_app_iff; cbn [In app]); tauto.

