(* ===== verification/WriteKernelFacts.v ===== *)
(** The order of the durable steps of [WriteKernel::run]: the intent follows an
    authorised preflight, the dispatch follows its durable records, and a failed
    durable step ends the call. *)
From S2P Require Import Prelude Json CanonicalJson Paths Operation DestructivePlan M6Domain.
From S2P Require Import AuditSchema AuditLog IdempotencyStore IdempotencyFile Effects SpoolInventory Reconciliation WriteKernel WriteKernelLogic.
Import Audit Contract.

Section kernel_facts.
Context (json_dump : json -> option string) (request : WriteKernelRequest)
  (hooks : WriteKernelHooks) (has_foundation : bool) (audit_path store_path : string).

Abbreviation prepare := (prepare json_dump request hooks audit_path).
Abbreviation commit := (commit json_dump request hooks store_path).
Abbreviation run := (run json_dump request hooks has_foundation audit_path store_path).

Lemma prepare_emits operation : emits preflight (prepare operation).
Proof. unfold_kernel. emit. Qed.

Lemma dry_run_emits : emits preflight (@dry_run request hooks Empty_set).
Proof. unfold_kernel. emit. Qed.

Definition no_intent (ev : event) : bool := negb (has_value (intends ev)).
Definition no_dispatch (ev : event) : bool := negb (has_value (dispatches ev)).
Definition quiet (ev : event) : bool := no_intent ev && no_dispatch ev.

Abbreviation observations := (observations json_dump request hooks).
Abbreviation publish_spool := (publish_spool json_dump request hooks).
Abbreviation insert_pending := (insert_pending json_dump request hooks store_path).
Abbreviation dispatch := (WriteKernel.dispatch json_dump request hooks).
Abbreviation finish_without_dispatch := (WriteKernel.finish_without_dispatch json_dump request hooks).
Abbreviation finish_dispatch := (WriteKernel.finish_dispatch json_dump request hooks).
Abbreviation stop_before_dispatch := (WriteKernel.stop_before_dispatch json_dump request hooks).

Lemma observations_emits operation count g : emits quiet (observations operation count g).
Proof.
  revert g. induction count as [| count IH]; intros g; cbn [WriteKernel.observations];
    [apply emits_pure |].
  apply emits_sbind; [apply emits_act; reflexivity |]. intros [stage value].
  apply emits_sbind; [unfold_kernel; emit |]. intros next. apply IH.
Qed.

Lemma insert_pending_emits operation b generation g :
  emits quiet (insert_pending operation b generation g).
Proof. unfold_kernel. emit. Qed.

Lemma publish_spool_emits operation b post g : emits quiet (publish_spool operation b post g).
Proof. unfold_kernel. emit. Qed.

Lemma stop_before_dispatch_emits {A} operation b held g post t :
  emits quiet (stop_before_dispatch operation b held g post t : stmt A).
Proof. unfold_kernel. emit. Qed.

Lemma finish_without_dispatch_emits {A} operation b held g terminal deliver noop :
  emits quiet (finish_without_dispatch operation b held g terminal deliver noop : stmt A).
Proof. unfold_kernel. emit. Qed.

Lemma finish_dispatch_emits {A} operation b held g d :
  emits quiet (finish_dispatch operation b held g d : stmt A).
Proof. unfold_kernel. emit. Qed.

Lemma audit_fatal_emits {A} durable : emits quiet (audit_fatal hooks durable : stmt A).
Proof. unfold_kernel. emit. Qed.

Lemma interrupted_emits operation b held g :
  emits quiet (interrupted_before_dispatch json_dump request hooks operation b held g).
Proof. unfold_kernel. emit. Qed.

(** The trace [t] has at most one dispatch, and before it the facts [F]. *)
Definition guarded (F : Plan -> json -> list event -> Prop) (t : list event) : Prop :=
  forallb no_dispatch t = true
  \/ exists t1 p proof a t2,
       t = t1 ++ Event (DispatchBegin p proof) a :: t2
       /\ forallb no_dispatch t1 = true /\ forallb no_dispatch t2 = true /\ F p proof t1.

Lemma guarded_prefix (F : Plan -> json -> list event -> Prop) t u :
  forallb no_dispatch t = true ->
  guarded (fun p proof t1 => F p proof (t ++ t1)) u -> guarded F (t ++ u).
Proof.
  intros Ht [Hu | (t1 & p & proof & a & t2 & -> & H1 & H2 & HF)].
  - left. rewrite forallb_app, Ht, Hu. reflexivity.
  - right. exists (t ++ t1), p, proof, a, t2. rewrite <- app_assoc, forallb_app, Ht, H1. auto.
Qed.

Lemma guarded_suffix (F : Plan -> json -> list event -> Prop) t u :
  guarded F t -> forallb no_dispatch u = true -> guarded F (t ++ u).
Proof.
  intros [Ht | (t1 & p & proof & a & t2 & -> & H1 & H2 & HF)] Hu.
  - left. rewrite forallb_app, Ht, Hu. reflexivity.
  - right. exists t1, p, proof, a, (t2 ++ u). rewrite <- app_assoc, forallb_app, H2, Hu. auto.
Qed.

Lemma forallb_imp (P Q : event -> bool) t :
  (forall ev, P ev = true -> Q ev = true) -> forallb P t = true -> forallb Q t = true.
Proof.
  intros HPQ H. apply forallb_forall. intros ev Hev. apply HPQ.
  exact (proj1 (forallb_forall P t) H ev Hev).
Qed.

Lemma quiet_no_dispatch t : forallb quiet t = true -> forallb no_dispatch t = true.
Proof. apply forallb_imp. intros ev H. apply andb_prop in H. apply H. Qed.

Lemma preflight_quiet t : forallb preflight t = true -> forallb quiet t = true.
Proof. apply forallb_imp. intros [X e a]. destruct e; cbn; auto. Qed.

Lemma quiet_guarded F t : forallb quiet t = true -> guarded F t.
Proof. left. apply quiet_no_dispatch. assumption. Qed.

(** ** The dispatch *)

Lemma checkpointed_value operation g stage data t g' :
  runs (checkpointed json_dump request hooks operation g stage data) t (Value (Some g')) ->
  exists now checkpoint,
    In (Event (AppendCheckpoint checkpoint) (Returned true)) t
    /\ make_account_audit_checkpoint json_dump
         (checkpoint_input request operation (sequence g') stage data now) = Ok checkpoint
    /\ sequence g' = u32 (sequence g + 1) /\ completed g' = add_stage (completed g) stage.
Proof.
  unfold checkpointed, append_checkpoint. intros H. invert_runs.
  destruct (make_account_audit_checkpoint _ _) as [checkpoint | e] eqn:Hmake; invert_runs;
    try discriminate.
  destruct a1; [injection H as -> | discriminate]. exists a0, checkpoint.
  split; [in_trace | auto].
Qed.

Lemma quiet_emits {A} (m : stmt A) : emits quiet m -> emits no_dispatch m.
Proof. intros Hm t c H. exact (quiet_no_dispatch _ (Hm _ _ H)). Qed.

Lemma guarded_sbind {A B} (F : Plan -> json -> list event -> Prop) (m : stmt A) (k : A -> stmt B)
    t c :
  runs (sbind m k) t c -> emits no_dispatch m ->
  (forall t1 a t2, runs m t1 (Value a) -> runs (k a) t2 c ->
     guarded (fun p proof t' => F p proof (t1 ++ t')) t2) ->
  guarded F t.
Proof.
  intros H Hm Hk.
  apply runs_sbind in H as [(t1 & t2 & a & -> & H1 & H2) | [(r & -> & H) | [-> H]]].
  - apply guarded_prefix; [exact (Hm _ _ H1) | eauto].
  - left. exact (Hm _ _ H).
  - left. exact (Hm _ _ H).
Qed.

Lemma guarded_mono (F G : Plan -> json -> list event -> Prop) t :
  (forall p proof t1, F p proof t1 -> G p proof t1) -> guarded F t -> guarded G t.
Proof.
  intros HFG [Ht | (t1 & p & proof & a & t2 & -> & H1 & H2 & HF)]; [left; exact Ht | right].
  exists t1, p, proof, a, t2. auto.
Qed.

Lemma runs_begin {A X} (e : effect X) (k : X -> stmt A) t c :
  runs (sbind (act e) k) t c ->
  exists a t2, t = Event e a :: t2 /\ (t2 = [] \/ exists x, runs (k x) t2 c).
Proof.
  intros H. apply runs_sbind in H as [(t1 & t2 & x & -> & H1 & H2) | [(r & -> & H) | [-> H]]].
  - apply runs_act_value in H1 as ->. exists (Returned x), t2. eauto.
  - apply runs_act in H as [(x & _ & Hc) | [_ Hc]]; discriminate.
  - apply runs_act in H as [(x & _ & Hc) | [-> _]]; [discriminate |]. exists Threw, []. auto.
Qed.

(** The checkpoint that precedes the dispatch. *)
Definition checkpoint_appended (operation : AccountAuditOperation) (stage : AccountAuditStage)
    (data : json) (t : list event) : Prop :=
  exists sequence now checkpoint,
    make_account_audit_checkpoint json_dump
      (checkpoint_input request operation sequence stage data now) = Ok checkpoint
    /\ In (Event (AppendCheckpoint checkpoint) (Returned true)) t.

Lemma after_begin_emits operation g count :
  emits quiet
    (sbind (observations operation count (Some g)) (fun durable =>
     sbind (act DispatchEnd) (fun d => pure (durable, d)))).
Proof.
  apply emits_sbind; [apply observations_emits |]. intros durable.
  apply emits_sbind; [apply emits_act; reflexivity |]. intros d. apply emits_pure.
Qed.

Lemma dispatch_once operation p proof g t c :
  runs (try_ (sbind (act (DispatchBegin p proof)) (fun count =>
              sbind (observations operation count (Some g)) (fun durable =>
              sbind (act DispatchEnd) (fun d => pure (durable, d)))))
             (audit_fatal hooks true)) t c ->
  exists a t2, t = Event (DispatchBegin p proof) a :: t2 /\ forallb no_dispatch t2 = true.
Proof.
  intros H. apply runs_try in H as [[_ H] | (t1 & t2 & -> & H & Hh)];
    apply runs_begin in H as (a & t3 & -> & H3).
  - exists a, t3. split; [reflexivity |]. destruct H3 as [-> | (count & H3)]; [reflexivity |].
    apply quiet_no_dispatch. revert H3. apply after_begin_emits.
  - exists a, (t3 ++ t2). split; [reflexivity |]. rewrite forallb_app.
    rewrite (quiet_no_dispatch t2) by (eapply audit_fatal_emits; eassumption).
    destruct H3 as [-> | (count & H3)]; [reflexivity |].
    rewrite (quiet_no_dispatch t3); [reflexivity |]. revert H3. apply after_begin_emits.
Qed.

(** From the call of the dispatch hook on. *)
Lemma dispatch_tail {A} operation b held g proof t (c : completion A) :
  runs (sbind
    (try_ (sbind (act (DispatchBegin (b_plan b) proof)) (fun count =>
           sbind (observations operation count (Some g)) (fun durable =>
           sbind (act DispatchEnd) (fun d => pure (durable, d)))))
          (audit_fatal hooks true))
    (fun outcome => sbind (or_fatal hooks (fst outcome)) (fun g' =>
       durably hooks
         (matches_operation request (t_operation (d_terminal (snd outcome)))
          && terminal_matches_plan (d_terminal (snd outcome)) (b_plan b)
          && negb (retains_wrongly request (snd outcome)))
         (finish_dispatch operation b held g' (snd outcome))))) t c ->
  guarded (fun p proof' t1 => p = b_plan b /\ proof' = proof) t.
Proof.
  intros H.
  assert (Hbegun : exists u v, t = u ++ v /\ forallb no_dispatch v = true
            /\ exists a u', u = Event (DispatchBegin (b_plan b) proof) a :: u'
                             /\ forallb no_dispatch u' = true).
  { apply runs_sbind in H as [(t1 & t2 & o & -> & H1 & H2) | [(r & -> & H) | [-> H]]].
    - exists t1, t2. split; [reflexivity |]. split; [| eapply dispatch_once; eassumption].
      apply quiet_no_dispatch. revert H2. apply emits_sbind; [unfold_kernel; emit |]. intros g'.
      unfold durably, require. destruct (_ && _);
        [apply finish_dispatch_emits | apply audit_fatal_emits].
    - exists t, []. rewrite app_nil_r. split; [reflexivity |]. split; [reflexivity |].
      eapply dispatch_once; eassumption.
    - exists t, []. rewrite app_nil_r. split; [reflexivity |]. split; [reflexivity |].
      eapply dispatch_once; eassumption. }
  destruct Hbegun as (u & v & -> & Hv & a & u' & -> & Hu). right.
  exists [], (b_plan b), proof, a, (u' ++ v). rewrite forallb_app, Hu, Hv. auto.
Qed.

Lemma dispatch_guarded {A} operation b held g t (c : completion A) :
  runs (dispatch operation b held g) t c ->
  guarded (fun p proof t1 =>
    p = b_plan b /\ checkpoint_appended operation DispatchStarted proof t1) t.
Proof.
  unfold WriteKernel.dispatch, durably, require.
  destruct (_ && _); [| intros H; eapply quiet_guarded, audit_fatal_emits; eassumption].
  intros H. eapply guarded_sbind; [exact H | apply quiet_emits, interrupted_emits |].
  clear H. intros t1 [] t' _ H. eapply guarded_sbind;
    [exact H | unfold_kernel; emit |].
  clear H. intros t2 admission t3 _ H.
  destruct admission as [proof | terminal |];
    [| eapply quiet_guarded, finish_without_dispatch_emits; eassumption |
     destruct (cancellation_terminal _);
       eapply quiet_guarded; [eapply finish_without_dispatch_emits | eapply audit_fatal_emits];
       eassumption].
  eapply guarded_sbind; [exact H | apply quiet_emits, interrupted_emits |].
  clear H. intros t4 [] t5 _ H.
  eapply guarded_sbind; [exact H | unfold_kernel; emit |]. clear H. intros t6 r t7 Hcheck H.
  eapply guarded_sbind; [exact H | unfold_kernel; emit |]. clear H. intros t8 g' t9 Hg H.
  unfold or_fatal in Hg. destruct r as [g0 |]; invert_runs.
  apply checkpointed_value in Hcheck as (now & checkpoint & Hin & Hmake & _ & _).
  eapply guarded_mono; [| exact (dispatch_tail _ _ _ _ _ _ _ H)].
  intros p proof' u [-> ->]. split; [reflexivity |]. exists (sequence g0), now, checkpoint.
  split; [exact Hmake |]. in_trace.
Qed.

(** ** The preflight *)

Lemma confirm_replay_value {A} incumbent t (a : A) :
  ~ runs (confirm_replay request hooks incumbent) t (Value a).
Proof.
  unfold confirm_replay. intros H.
  destruct (incumbent_plan request incumbent), (incumbent_terminal request incumbent);
    invert_runs.
Qed.

Lemma check_incumbent_value gate fp t u :
  runs (check_incumbent request hooks gate fp) t (Value u) ->
  forall key, q_key request = Some key -> l_status (lookup (gate_snapshot gate) key fp) = Miss.
Proof.
  unfold check_incumbent, incumbent_result. intros H key Hkey. rewrite Hkey in H.
  destruct (l_status _); [reflexivity | destruct (l_incumbent _); invert_runs ..].
  apply confirm_replay_value in H as [].
Qed.

Lemma run_gate_value sampled t gate :
  runs (run_gate request audit_path sampled) t (Value gate) ->
  In (Event (RunGate (absent_idempotency_by_policy request) sampled) (Returned gate)) t
  /\ gate_status gate = GateClean.
Proof.
  unfold run_gate. intros H. invert_runs. destruct (gate_status a) eqn:Hs; invert_runs.
  split; [in_trace | exact Hs].
Qed.

Lemma confirm_plan_value p t source :
  runs (confirm_plan request hooks p) t (Value source) ->
  WriteOp.destructive (q_operation request) = true ->
  exists outcome,
    In (Event (HookConfirm p false) (Returned outcome)) t
    /\ confirmed outcome = source /\ has_value source = true.
Proof.
  unfold confirm_plan. intros H Hd. rewrite Hd in H. cbn [negb] in H. invert_runs.
  destruct (confirmed a) eqn:Hc; invert_runs. exists a. split; [in_trace | auto].
Qed.

Lemma verify_grant_value t u :
  runs (verify_grant request hooks) t (Value u) ->
  q_authority_source request = ConfigAuthority ->
  exists verification,
    In (Event HookVerifyGrant (Returned verification)) t /\ grant verification = GrantMatched.
Proof.
  unfold verify_grant. intros H Hsource. rewrite Hsource in H. invert_runs.
  destruct (config_cas_terminal request a) as [[terminal |] |] eqn:Hcas; invert_runs.
  exists a. split; [in_trace |]. revert Hcas. unfold config_cas_terminal.
  destruct (grant a); congruence.
Qed.

Lemma revalidate_principal_value t u :
  runs (revalidate_principal request hooks) t (Value u) ->
  has_revalidate_principal hooks = true ->
  In (Event HookRevalidatePrincipal (Returned None)) t.
Proof.
  unfold revalidate_principal. intros H Hh. rewrite Hh in H. invert_runs.
  destruct a; invert_runs. in_trace.
Qed.

(** What the preflight established when it lets the intent be appended. *)
Record authorised (operation : AccountAuditOperation) (b : Prepared) (t : list event) : Prop := {
  plan_is_the_request's : plan_matches request (b_plan b) = true;
  gate_was_clean : exists gate,
    In (Event (RunGate (absent_idempotency_by_policy request) (b_sampled_now b)) (Returned gate)) t
    /\ gate_status gate = GateClean
    /\ forall key, q_key request = Some key ->
         l_status (lookup (gate_snapshot gate) key (fingerprint (b_admission b))) = Miss;
  plan_was_confirmed : exists source,
    make_account_audit_intent json_dump
      (intent_input request operation (b_admission b) (b_plan b) source) = Ok (b_intent b)
    /\ (WriteOp.destructive (q_operation request) = true ->
        exists outcome,
          In (Event (HookConfirm (b_plan b) false) (Returned outcome)) t
          /\ confirmed outcome = source /\ has_value source = true);
  grant_was_verified : q_authority_source request = ConfigAuthority ->
    exists verification,
      In (Event HookVerifyGrant (Returned verification)) t /\ grant verification = GrantMatched;
  principal_was_valid : has_revalidate_principal hooks = true ->
    In (Event HookRevalidatePrincipal (Returned None)) t;
  append_was_permitted : exists pins inspection,
    In (Event (PrepareAppend (b_intent b) pins) (Returned inspection)) t
    /\ ai_status inspection = AppendClean /\ ai_permit_valid inspection = true
}.

Lemma admit_and_plan_value t a :
  runs (admit_and_plan request hooks audit_path) t (Value a) ->
  plan_matches request (snd a) = true.
Proof.
  unfold admit_and_plan. intros H. invert_runs; bool_split; assumption.
Qed.

Lemma prepare_authorised operation t b :
  runs (prepare operation) t (Value b) -> authorised operation b t.
Proof.
  unfold WriteKernel.prepare. intros H. invert_runs.
  destruct (make_account_audit_intent _ _) as [document | e] eqn:Hmake; invert_runs.
  destruct (ai_status a7) eqn:Hclean; invert_runs.
  match goal with Hp : runs (admit_and_plan _ _ _) _ _ |- _ => apply admit_and_plan_value in Hp end.
  match goal with Hg : runs (run_gate _ _ _) _ _ |- _ => apply run_gate_value in Hg as [Hgate Hs] end.
  constructor; cbn.
  - assumption.
  - exists a2. split; [in_trace |]. split; [assumption |]. eapply check_incumbent_value; eassumption.
  - exists a4. split; [assumption |]. intros Hd.
    edestruct confirm_plan_value as (outcome & Hin & Ho); [eassumption .. |].
    exists outcome. split; [in_trace | exact Ho].
  - intros Hc. edestruct verify_grant_value as (v & Hin & Hv); [eassumption .. |].
    exists v. split; [in_trace | exact Hv].
  - intros Hp. pose proof (revalidate_principal_value _ _ ltac:(eassumption) Hp). in_trace.
  - match goal with |- context [PrepareAppend document ?pins] => exists pins, a7 end.
    split; [in_trace | auto].
Qed.

(** ** The whole call *)

(** How a call ends before the intent. *)
Definition ends_early (t : list event) (r : WriteKernelResult) : Prop :=
  r = rejected_silently \/ r = plain_audit_fatal
  \/ runs (dry_run request hooks : stmt Empty_set) t (Return r)
  \/ exists operation, runs (prepare operation) t (Return r).

Lemma run_cases t r :
  runs run t r ->
  (forallb preflight t = true /\ ends_early t r)
  \/ exists operation b t1 t2,
       WriteOp.audit (q_operation request) = Some operation
       /\ (q_dry_run request = false /\ well_formed_call request hooks = true)
       /\ t = t1 ++ t2 /\ runs (prepare operation) t1 (Value b)
       /\ exists c, runs (try_ (commit operation b) (audit_fatal hooks true)) t2 c
                  /\ c = (Return r : completion Empty_set).
Proof.
  intros H. apply runs_pbind in H as (u & v & c & -> & H & Hc).
  assert (Hv : v = [] /\ (c = Return r \/ c = Raise /\ r = rejected_silently)).
  { destruct c as [[] | r' |]; destruct Hc as [-> ->]; auto. }
  clear Hc. destruct Hv as [-> Hc]. rewrite app_nil_r.
  assert (Hfatal : runs (audit_fatal hooks false : stmt Empty_set) u c ->
                   forallb preflight u = true /\ ends_early u r).
  { intros Hf. apply runs_return in Hf as [-> ->]. split; [reflexivity |]. right. left.
    destruct Hc as [Hc | [Hc _]]; [injection Hc as <-; reflexivity | discriminate]. }
  unfold body in H. destruct (WriteOp.audit _) as [operation |]; [| left; auto].
  unfold require in H. destruct (well_formed_call request hooks); [| left; auto].
  destruct (q_dry_run request).
  { left. split; [exact (dry_run_emits _ _ H) |].
    destruct Hc as [-> | [_ ->]]; [right; right; left; exact H | left; reflexivity]. }
  destruct has_foundation; [| left; auto].
  assert (Hp : emits preflight (try_ (prepare operation) (return_ rejected_silently))).
  { apply emits_try; [apply prepare_emits | apply emits_return]. }
  apply runs_sbind in H as [(t1 & t2 & b & -> & H1 & H2) | [(r' & -> & H) | [-> H]]].
  - right. exists operation, b, t1, t2. do 3 (split; [auto |]). split.
    + apply runs_try_value in H1 as [H1 | (? & ? & _ & _ & H1)]; [exact H1 | invert_runs].
    + exists c. split; [exact H2 |]. destruct Hc as [Hc | [-> _]]; [exact Hc |].
      exfalso. apply runs_try in H2 as [[Hne _] | (? & ? & -> & _ & H2)]; [congruence |].
      revert H2. apply audit_fatal_raise.
  - left. split; [exact (Hp _ _ H) |]. destruct Hc as [Hc | [Hc _]]; [injection Hc as <- | discriminate].
    apply runs_try in H as [[_ H] | (t1 & t2 & -> & _ & H)];
      [right; right; right; exists operation; exact H |].
    apply runs_return in H as [_ H]. injection H as ->. left. reflexivity.
  - left. split; [exact (Hp _ _ H) |]. destruct Hc as [Hc | [_ ->]]; [discriminate | left; reflexivity].
Qed.

(** ** From the intent on *)

Lemma emits_weaken (P Q : event -> bool) {A} (m : stmt A) :
  (forall ev, P ev = true -> Q ev = true) -> emits P m -> emits Q m.
Proof. intros HPQ Hm t c H. exact (forallb_imp _ _ _ HPQ (Hm _ _ H)). Qed.

Lemma quiet_no_intent ev : quiet ev = true -> no_intent ev = true.
Proof. intros H. apply andb_prop in H. apply H. Qed.

Lemma dispatch_no_intent {A} operation b held g :
  emits no_intent (dispatch operation b held g : stmt A).
Proof.
  assert (Hobs : forall count g0, emits no_intent (observations operation count (Some g0))).
  { intros. eapply emits_weaken; [exact quiet_no_intent | apply observations_emits]. }
  unfold_kernel. repeat (emit; try apply Hobs).
Qed.

(** The pending entry is in the store, and its checkpoint in the log. *)
Definition pending_inserted (operation : AccountAuditOperation) (b : Prepared) (generation : Z)
    (t : list event) : Prop :=
  forall key, q_key request = Some key ->
  exists entry,
    make_idempotency_pending_entry (pending_input request operation b generation key)
      (q_account request) store_path = Ok entry
    /\ In (Event (StoreInsert entry) (Returned Inserted)) t
    /\ checkpoint_appended operation IdempotencyPending (pending_data b key entry) t.

Lemma insert_pending_value operation b generation g t g' :
  runs (insert_pending operation b generation g) t (Value g') ->
  pending_inserted operation b generation t.
Proof.
  unfold WriteKernel.insert_pending. intros H key Hkey. rewrite Hkey in H. split_runs;
    match goal with Hc : runs (checkpointed _ _ _ _ _ _ _) _ _ |- _ =>
      apply checkpointed_value in Hc as (now & checkpoint & Hin & Hmake & _)
    end;
    match goal with He : make_idempotency_pending_entry _ _ _ = Ok ?entry |- _ => exists entry end;
    (split; [reflexivity |]); (split; [in_trace |]); eexists _, now, checkpoint;
    (split; [exact Hmake | in_trace]).
Qed.

(** What precedes a dispatch. *)
Record written_ahead (operation : AccountAuditOperation) (b : Prepared) (proof : json)
    (t : list event) : Prop := {
  intent_is_durable : exists generation,
    In (Event (AppendIntent (b_intent b)) (Returned (Some generation))) t
    /\ pending_inserted operation b generation t;
  dispatch_is_recorded : checkpoint_appended operation DispatchStarted proof t
}.

Lemma checkpoint_mono operation stage data (t u : list event) :
  incl t u -> checkpoint_appended operation stage data t -> checkpoint_appended operation stage data u.
Proof. intros Hi (n & now & c & Hm & Hin). exists n, now, c. auto. Qed.

Lemma pending_mono operation b generation (t u : list event) :
  incl t u -> pending_inserted operation b generation t -> pending_inserted operation b generation u.
Proof.
  intros Hi H key Hkey. destruct (H key Hkey) as (entry & Hm & Hin & Hc).
  exists entry. eauto using checkpoint_mono.
Qed.

Lemma commit_guarded {A} operation b t (c : completion A) :
  runs (commit operation b) t c ->
  guarded (fun p proof t1 => p = b_plan b /\ written_ahead operation b proof t1) t.
Proof.
  unfold WriteKernel.commit. intros H.
  eapply guarded_sbind; [exact H | apply emits_act; reflexivity |]. clear H. intros t1 generation t' H1 H.
  apply runs_act_value in H1 as ->.
  destruct generation as [generation |]; [| eapply quiet_guarded, audit_fatal_emits; eassumption].
  eapply guarded_sbind; [exact H | apply quiet_emits, insert_pending_emits |]. clear H.
  intros t1 g t2 Hpending H. apply insert_pending_value in Hpending.
  eapply guarded_sbind; [exact H | unfold_kernel; emit |]. clear H. intros t3 post t4 _ H.
  eapply guarded_sbind; [exact H | apply quiet_emits, publish_spool_emits |]. clear H.
  intros t5 spooled t6 _ H.
  destruct (terminal_without_dispatch post);
    [eapply quiet_guarded, stop_before_dispatch_emits; eassumption |].
  eapply guarded_mono; [| eapply dispatch_guarded; exact H].
  intros p proof u [-> Hc]. split; [reflexivity |]. constructor.
  - exists generation. split; [in_trace |]. eapply pending_mono; [| exact Hpending].
    intros ev. rewrite !in_app_iff. auto.
  - eapply checkpoint_mono; [| exact Hc]. intros ev. rewrite !in_app_iff. auto 6.
Qed.

Lemma commit_intent {A} operation b t (c : completion A) :
  runs (try_ (commit operation b) (audit_fatal hooks true)) t c ->
  exists a t', t = Event (AppendIntent (b_intent b)) a :: t' /\ forallb no_intent t' = true.
Proof.
  assert (Hafter : forall generation : option Z,
    emits no_intent
      (match generation with
       | None => audit_fatal hooks true
       | Some generation =>
           sbind (insert_pending operation b generation {| sequence := 0; completed := [] |}) (fun g =>
           sbind (if has_post_intent hooks
                  then try_ (act (HookPostIntent (b_plan b) (b_admission b))) (audit_fatal hooks true)
                  else pure nothing_prepared) (fun post =>
           sbind (publish_spool operation b post g) (fun spooled =>
           match terminal_without_dispatch post with
           | Some t => stop_before_dispatch operation b (snd spooled) (fst spooled) post t
           | None => dispatch operation b (snd spooled) (fst spooled)
           end)))
       end : stmt A)).
  { intros [generation |]; [| eapply emits_weaken, audit_fatal_emits; exact quiet_no_intent].
    apply emits_sbind; [eapply emits_weaken, insert_pending_emits; exact quiet_no_intent |].
    intros g. apply emits_sbind; [unfold_kernel; emit |]. intros post.
    apply emits_sbind; [eapply emits_weaken, publish_spool_emits; exact quiet_no_intent |].
    intros spooled. destruct (terminal_without_dispatch post);
      [eapply emits_weaken, stop_before_dispatch_emits; exact quiet_no_intent
      | apply dispatch_no_intent]. }
  intros H. apply runs_try in H as [[_ H] | (t1 & t2 & -> & H & Hf)];
    apply runs_begin in H as (a & u & -> & Hu).
  - exists a, u. split; [reflexivity |]. destruct Hu as [-> | (x & Hu)];
      [reflexivity | exact (Hafter _ _ _ Hu)].
  - exists a, (u ++ t2). split; [reflexivity |]. rewrite forallb_app.
    rewrite (forallb_imp _ _ _ quiet_no_intent (audit_fatal_emits true _ _ Hf)).
    destruct Hu as [-> | (x & Hu)]; [reflexivity |]. rewrite (Hafter _ _ _ Hu). reflexivity.
Qed.

Lemma split_unique (P : event -> bool) t1 x t2 u1 y u2 :
  t1 ++ x :: t2 = u1 ++ y :: u2 -> P x = false ->
  forallb P u1 = true -> forallb P u2 = true -> t1 = u1 /\ x = y /\ t2 = u2.
Proof.
  revert u1. induction t1 as [| z t1 IH]; intros [| w u1] Heq Hx Hu1 Hu2; cbn in *.
  - injection Heq as -> ->. auto.
  - injection Heq as -> _. rewrite Hx in Hu1. discriminate.
  - injection Heq as _ <-. rewrite forallb_app in Hu2. cbn in Hu2. rewrite Hx in Hu2.
    rewrite andb_false_r in Hu2. discriminate.
  - injection Heq as -> Heq. bool_split. destruct (IH u1) as (-> & -> & ->); auto.
Qed.

Lemma split_none (P : event -> bool) t1 x t2 :
  P x = false -> forallb P (t1 ++ x :: t2) = false.
Proof. intros Hx. rewrite forallb_app. cbn. rewrite Hx. apply andb_false_r. Qed.

Lemma authorised_mono operation b (t u : list event) :
  incl t u -> authorised operation b t -> authorised operation b u.
Proof.
  intros Hi [Hp (gate & Hg & Hgate) (source & Hm & Hc) Hv Hr (pins & i & Hin & Ha)].
  constructor; eauto 6.
  - exists source. split; [exact Hm |]. intros Hd. destruct (Hc Hd) as (o & Ho & Hs). eauto.
  - intros Hs. destruct (Hv Hs) as (v & Hin' & Hg'). eauto.
Qed.

(** C2.  The intent is written at most once, and only after a preflight in which
    no call but the recovery gate, which settles what earlier invocations left,
    writes to the log, the store or the spool (so nothing is appended, inserted,
    spooled or dispatched for this request), and which established everything the
    intent claims: a clean gate of the idempotency core in which the key was free,
    the confirmation of a destructive plan, a matching configuration grant, a
    valid principal and a permit for exactly this document. *)
Theorem intent_is_authorised t r t1 ev t2 intent :
  runs run t r -> t = t1 ++ ev :: t2 -> intends ev = Some intent ->
  forallb preflight t1 = true /\ forallb no_intent t2 = true
  /\ exists operation b,
       WriteOp.audit (q_operation request) = Some operation
       /\ b_intent b = intent /\ authorised operation b t1.
Proof.
  intros H -> Hev.
  assert (Hno : no_intent ev = false) by (unfold no_intent; rewrite Hev; reflexivity).
  apply run_cases in H as [[H _] | (operation & b & u1 & u2 & Hop & _ & Heq & Hprep & c & Hc & _)].
  - apply preflight_quiet, (forallb_imp _ _ _ quiet_no_intent) in H.
    rewrite split_none in H; [discriminate | exact Hno].
  - apply commit_intent in Hc as (a & u & -> & Hu). pose proof (prepare_emits _ _ _ Hprep) as Hpre.
    eapply split_unique in Heq as (-> & -> & ->);
      [| exact Hno | exact (forallb_imp _ _ _ quiet_no_intent (preflight_quiet _ Hpre)) | exact Hu].
    injection Hev as <-. split; [exact Hpre |]. split; [exact Hu |]. exists operation, b.
    split; [exact Hop |]. split; [reflexivity |]. exact (prepare_authorised _ _ _ Hprep).
Qed.

Lemma try_guarded {A} (F : Plan -> json -> list event -> Prop) (m : stmt A) t c :
  runs (try_ m (audit_fatal hooks true)) t c ->
  (forall t c, runs m t c -> guarded F t) -> guarded F t.
Proof.
  intros H Hm. apply runs_try in H as [[_ H] | (t1 & t2 & -> & H & Hf)]; [eauto |].
  apply guarded_suffix; [eauto | exact (quiet_no_dispatch _ (audit_fatal_emits true _ _ Hf))].
Qed.

(** C1.  Telegram is asked to mutate at most once per call, and only when the
    records that let a crash be recovered are durable: the authorised intent, for
    a keyed request the pending entry with its checkpoint, and the checkpoint of
    the dispatch with the proof the dispatch uses. *)
Theorem dispatch_is_written_ahead t r t1 ev t2 p proof :
  runs run t r -> t = t1 ++ ev :: t2 -> dispatches ev = Some (p, proof) ->
  forallb no_dispatch t1 = true /\ forallb no_dispatch t2 = true
  /\ exists operation b,
       WriteOp.audit (q_operation request) = Some operation /\ b_plan b = p
       /\ authorised operation b t1 /\ written_ahead operation b proof t1.
Proof.
  intros H -> Hev.
  assert (Hno : no_dispatch ev = false) by (unfold no_dispatch; rewrite Hev; reflexivity).
  apply run_cases in H as [[H _] | (operation & b & u1 & u2 & Hop & _ & Heq & Hprep & c & Hc & _)].
  - apply preflight_quiet, quiet_no_dispatch in H.
    rewrite split_none in H; [discriminate | exact Hno].
  - pose proof (quiet_no_dispatch _ (preflight_quiet _ (prepare_emits _ _ _ Hprep))) as Hpre.
    eapply try_guarded in Hc; [| intros; eapply commit_guarded; eassumption].
    destruct Hc as [Hc | (v1 & p' & proof' & a & v2 & -> & Hv1 & Hv2 & -> & Hw)].
    + assert (Hn : forallb no_dispatch (u1 ++ u2) = true) by (rewrite forallb_app, Hpre, Hc; auto).
      rewrite <- Heq, split_none in Hn; [discriminate | exact Hno].
    + rewrite app_assoc in Heq.
      eapply split_unique in Heq as (-> & -> & ->);
        [| exact Hno | rewrite forallb_app, Hpre, Hv1; reflexivity | exact Hv2].
      injection Hev as <- <-. rewrite forallb_app, Hpre, Hv1. split; [reflexivity |].
      split; [exact Hv2 |]. exists operation, b. split; [exact Hop |]. split; [reflexivity |].
      split; [eapply authorised_mono; [| eapply prepare_authorised; exact Hprep] |].
      * intros x. rewrite in_app_iff. auto.
      * destruct Hw as [(generation & Hi & Hp) Hd]. constructor.
        -- exists generation. split; [rewrite in_app_iff; auto |].
           eapply pending_mono; [| exact Hp]. intros x. rewrite in_app_iff. auto.
        -- eapply checkpoint_mono; [| exact Hd]. intros x. rewrite in_app_iff. auto.
Qed.

(** ** Failed durable steps *)

(** The clean-up after an outcome, and the shutdown itself: the code ignores
    whether they succeed. *)
Definition best_effort {X} (e : effect X) : bool :=
  match e with
  | CleanupSpool | ReleaseSpool | StoreClearSpool | HookCleanup _ _ | AuditFatalShutdown => true
  | _ => false
  end.

(** The answer of a call that failed: an exception, or the failure the call
    reports. *)
Definition fails {X} (e : effect X) : answer X -> bool :=
  match e in effect X return answer X -> bool with
  | AppendIntent _ => fun a => match a with Returned (Some _) => false | _ => true end
  | AppendCheckpoint _ | AppendOutcome _ | HoldSpool _ | CleanupSpool | ReleaseSpool =>
      fun a => match a with Returned true => false | _ => true end
  | StoreInsert _ => fun a => match a with Returned InsertFailed | Threw => true | _ => false end
  | CloseIncumbent => fun a => match a with Returned (true, Some _) => false | _ => true end
  | StoreSpool _ | StoreTemporaryIds _ | StoreProgress _ | StoreComplete _ | StoreRemove
  | StoreClearSpool => fun a => match a with Returned s => status_failed s | Threw => true end
  | HookCleanup _ _ => fun a => match a with Returned true => false | _ => true end
  | _ => fun a => match a with Returned _ => false | Threw => true end
  end.

(** A failure after which the call must not go on. *)
Definition breaks (ev : event) : bool :=
  let 'Event e a := ev in negb (best_effort e) && fails e a.

Definition harmless (ev : event) : bool := negb (breaks ev).

(** The call ended with the shutdown hook. *)
Definition fatal (t : list event) (r : WriteKernelResult) : Prop :=
  r = plain_audit_fatal /\ exists u a, t = u ++ [Event AuditFatalShutdown a].

(** The statement broke no step, unless it is fatal, throws or yields a value
    that is not [ok]. *)
Definition sound {A} (ok : A -> bool) (m : stmt A) : Prop :=
  forall t c, runs m t c ->
    match c with
    | Value a => ok a = true -> forallb harmless t = true
    | Return r => forallb harmless t = true \/ fatal t r
    | Raise => True
    end.

(** The statement is fatal, throws or yields a value that is not [ok]. *)
Definition doomed {A} (ok : A -> bool) (m : stmt A) : Prop :=
  forall t c, runs m t c ->
    match c with Value a => ok a = false | Return r => fatal t r | Raise => True end.

Definition any {A} (a : A) : bool := true.

Lemma fatal_app t1 t2 r : fatal t2 r -> fatal (t1 ++ t2) r.
Proof. intros [-> (u & a & ->)]. split; [reflexivity |]. exists (t1 ++ u), a. apply app_assoc. Qed.

Lemma sound_emits {A} ok (m : stmt A) : emits harmless m -> sound ok m.
Proof. intros Hm t c H. specialize (Hm _ _ H). destruct c; auto. Qed.

Lemma sound_act {X} (e : effect X) : sound (fun x => harmless (Event e (Returned x))) (act e).
Proof.
  intros t c H. apply runs_act in H as [(x & -> & ->) | [-> ->]]; [| exact I].
  intros Hx. cbn [forallb]. rewrite Hx. reflexivity.
Qed.

Lemma sound_sbind {A B} (ok : A -> bool) (ok' : B -> bool) (m : stmt A) (k : A -> stmt B) :
  sound ok m -> (forall a, ok a = true -> sound ok' (k a)) ->
  (forall a, ok a = false -> doomed ok' (k a)) -> sound ok' (sbind m k).
Proof.
  intros Hm Hk Hd t c H.
  apply runs_sbind in H as [(t1 & t2 & a & -> & H1 & H2) | [(r & -> & H) | [-> H]]];
    [| exact (Hm _ _ H) | exact I].
  specialize (Hm _ _ H1). cbn in Hm. rewrite forallb_app. destruct (ok a) eqn:Hok.
  - specialize (Hk a Hok _ _ H2). rewrite Hm by reflexivity.
    destruct c; [exact Hk | destruct Hk; auto using fatal_app | exact I].
  - specialize (Hd a Hok _ _ H2). destruct c; [congruence | auto using fatal_app | exact I].
Qed.

Lemma sound_try {A} (ok : A -> bool) (m h : stmt A) :
  sound ok m -> doomed ok h -> sound ok (try_ m h).
Proof.
  intros Hm Hh t c H. apply runs_try in H as [[_ H] | (t1 & t2 & -> & H1 & H2)];
    [exact (Hm _ _ H) |].
  specialize (Hh _ _ H2). destruct c; [congruence | auto using fatal_app | exact I].
Qed.

Lemma doomed_pure {A} (ok : A -> bool) a : ok a = false -> doomed ok (pure a).
Proof. intros Ha t c H. apply runs_pure in H as [_ ->]. exact Ha. Qed.

Lemma doomed_act {A X} (ok : A -> bool) (e : effect X) (k : X -> stmt A) :
  (forall x, doomed ok (k x)) -> doomed ok (sbind (act e) k).
Proof.
  intros Hk t c H.
  apply runs_sbind in H as [(t1 & t2 & x & -> & H1 & H2) | [(r & -> & H) | [-> H]]]; [| | exact I].
  - specialize (Hk x _ _ H2). destruct c; auto using fatal_app.
  - apply runs_act in H as [(x & _ & Hc) | [_ Hc]]; discriminate.
Qed.

Section shutdown.
Hypothesis Hshutdown : has_audit_fatal_shutdown hooks = true.

Lemma doomed_fatal {A} (ok : A -> bool) : doomed ok (audit_fatal hooks true).
Proof.
  unfold audit_fatal. rewrite Hshutdown. cbn [andb]. intros t c H.
  apply runs_sbind in H as [(t1 & t2 & [] & -> & H1 & H2) | [(r & -> & H) | [-> H]]]; [| | exact I].
  - apply runs_return in H2 as [-> ->]. rewrite app_nil_r. split; [reflexivity |].
    apply runs_try_value in H1 as [H1 | (u1 & u2 & -> & H1 & H2)].
    + apply runs_act_value in H1 as ->. exists [], (Returned tt). reflexivity.
    + apply runs_pure_value in H2 as [-> _]. apply runs_act in H1 as [(x & _ & Hc) | [-> _]];
        [discriminate |]. exists [], Threw. reflexivity.
  - apply runs_try in H as [[_ H] | (u1 & u2 & -> & _ & H)].
    + apply runs_act in H as [(x & _ & Hc) | [_ Hc]]; discriminate.
    + apply runs_pure in H as [_ Hc]. discriminate.
Qed.

Lemma doomed_sound {A} (ok : A -> bool) m : doomed ok m -> sound ok m.
Proof.
  intros Hm t c H. specialize (Hm _ _ H). destruct c; [congruence | auto | exact I].
Qed.

Lemma sound_durably {A} (ok : A -> bool) b (k : stmt A) :
  sound ok k -> sound ok (durably hooks b k).
Proof. destruct b; [auto | intros _; apply doomed_sound, doomed_fatal]. Qed.

Lemma sound_or_fatal {A} (r : option A) : sound any (or_fatal hooks r).
Proof. destruct r; [apply sound_emits, emits_pure | apply doomed_sound, doomed_fatal]. Qed.

Lemma doomed_durably {A} (ok : A -> bool) b (k : stmt A) : b = false -> doomed ok (durably hooks b k).
Proof. intros ->. apply doomed_fatal. Qed.

Lemma sound_seq {A B} (ok : B -> bool) (m : stmt A) (k : A -> stmt B) :
  sound any m -> (forall a, sound ok (k a)) -> sound ok (sbind m k).
Proof. intros Hm Hk. eapply sound_sbind; [exact Hm | auto | discriminate]. Qed.

Lemma sound_call {X} (e : effect X) :
  (forall x, harmless (Event e (Returned x)) = true) -> sound any (act e).
Proof. intros He t c H. specialize (sound_act e t c H). destruct c; auto. Qed.

Lemma sound_return {A} (ok : A -> bool) r : sound ok (return_ r).
Proof. apply sound_emits, emits_return. Qed.

Lemma sound_pure {A} (ok : A -> bool) a : sound ok (pure a).
Proof. apply sound_emits, emits_pure. Qed.

Lemma sound_guarded_hook {X} (e : effect X) :
  (forall x, harmless (Event e (Returned x)) = true) -> sound any (try_ (act e) (audit_fatal hooks true)).
Proof. intros He. apply sound_try; [apply sound_call, He | apply doomed_fatal]. Qed.

Lemma sound_timestamp : sound any (timestamp_now request hooks).
Proof.
  unfold timestamp_now. destruct (has_timestamp hooks);
    [apply sound_call; reflexivity | apply sound_pure].
Qed.

Lemma sound_checkpoint operation n stage data completed :
  sound has_value (append_checkpoint json_dump request hooks operation n stage data completed).
Proof.
  apply sound_seq; [apply sound_timestamp |]. intros now.
  destruct (make_account_audit_checkpoint _ _); [| apply sound_pure].
  eapply sound_sbind; [apply sound_act | intros; apply sound_pure |].
  intros [] Hx; [discriminate | apply doomed_pure; reflexivity].
Qed.

Lemma sound_checkpointed operation g stage data :
  sound has_value (checkpointed json_dump request hooks operation g stage data).
Proof.
  eapply sound_sbind; [apply sound_checkpoint | intros; apply sound_pure |].
  intros [] Hx; [discriminate | apply doomed_pure; reflexivity].
Qed.

Lemma doomed_bind_fatal {A B} (ok : B -> bool) (k : A -> stmt B) :
  doomed ok (sbind (audit_fatal hooks true) k).
Proof.
  intros t c H.
  apply runs_sbind in H as [(t1 & t2 & x & _ & H1 & _) | [(r & -> & H) | [-> H]]]; [| | exact I].
  - apply runs_audit_fatal_value in H1 as [].
  - exact (doomed_fatal any _ _ H).
Qed.

Lemma sound_checkpoint_or_fatal {A} (ok : A -> bool) operation g stage data k :
  (forall g', sound ok (k g')) ->
  sound ok (sbind (checkpointed json_dump request hooks operation g stage data) (fun r =>
            sbind (or_fatal hooks r) k)).
Proof.
  intros Hk. eapply sound_sbind; [apply sound_checkpointed | |].
  - intros r _. apply sound_seq; [apply sound_or_fatal | exact Hk].
  - intros [] Hr; [discriminate | apply doomed_bind_fatal].
Qed.

Lemma sound_recorded operation g stage data :
  sound any (sbind (checkpointed json_dump request hooks operation g stage data) (or_fatal hooks)).
Proof.
  eapply sound_sbind; [apply sound_checkpointed | intros r _; apply sound_or_fatal |].
  intros [] Hr; [discriminate | apply doomed_fatal].
Qed.

Lemma sound_outcome operation terminal mutation completed :
  sound (fun b => b) (append_outcome json_dump request hooks operation terminal mutation completed).
Proof.
  apply sound_seq; [apply sound_timestamp |]. intros now.
  destruct (make_account_audit_outcome _ _) as [outcome | e]; [| apply sound_pure].
  intros t c H. specialize (sound_act _ _ _ H). destruct c as [[] | |]; cbn; auto.
Qed.

(** A store transition whose failure is fatal. *)
Lemma sound_transition {A} (ok : A -> bool) (e : effect IdempotencyWriteStatus) k :
  (forall s, harmless (Event e (Returned s)) = negb (status_failed s)) ->
  sound ok k ->
  sound ok (sbind (sbind (act e) (fun s => durably hooks (negb (status_failed s)) (pure tt)))
                  (fun _ => k)).
Proof.
  intros He Hk. apply sound_seq; [| intros; exact Hk].
  eapply sound_sbind; [apply sound_act | intros; apply sound_durably, sound_pure |].
  intros s Hs. cbn beta in Hs. rewrite He in Hs. apply doomed_durably. exact Hs.
Qed.

Lemma sound_insert_pending operation b generation g :
  sound any (insert_pending operation b generation g).
Proof.
  unfold WriteKernel.insert_pending. destruct (q_key request) as [key |]; [| apply sound_pure].
  apply sound_seq.
  { destruct (has_before_insert hooks); [apply sound_guarded_hook; reflexivity | apply sound_pure]. }
  intros []. destruct (make_idempotency_pending_entry _ _ _) as [entry | f];
    [| apply doomed_sound, doomed_fatal].
  eapply sound_sbind; [apply sound_act | |]; intros [] Hs; try discriminate.
  - apply sound_recorded.
  - eapply sound_sbind; [apply sound_act | |]; intros [[] [terminal |]] Hx; try discriminate;
      solve [apply sound_return | apply doomed_fatal].
  - apply doomed_fatal.
Qed.

Lemma sound_publish_spool operation b post g : sound any (publish_spool operation b post g).
Proof.
  unfold WriteKernel.publish_spool. destruct (post_spool post) as [s |];
    [| apply sound_durably, sound_pure].
  apply sound_durably, sound_checkpoint_or_fatal. intros g'.
  assert (Hheld : sound any (sbind (act (HoldSpool s)) (fun held =>
                    durably hooks held (pure (g', true))))).
  { eapply sound_sbind; [apply sound_act | intros; apply sound_durably, sound_pure |].
    intros [] Hs; [discriminate | apply doomed_fatal]. }
  destruct (has_value (q_key request)); [apply sound_transition; [reflexivity | exact Hheld] |].
  apply sound_seq; [apply sound_pure | intros; exact Hheld].
Qed.

Lemma sound_cleanup held clear : sound any (cleanup_current_spool request held clear).
Proof. apply sound_emits. unfold_kernel. emit. Qed.

Lemma sound_outcome_durably {A} (ok : A -> bool) operation terminal mutation completed k :
  sound ok k ->
  sound ok (sbind (append_outcome json_dump request hooks operation terminal mutation completed)
                  (fun appended => durably hooks appended k)).
Proof.
  intros Hk. eapply sound_sbind; [apply sound_outcome | intros; apply sound_durably, Hk |].
  intros a Ha. apply doomed_durably, Ha.
Qed.

Lemma sound_finish_without_dispatch {A} (ok : A -> bool) operation b held g terminal deliver noop :
  sound ok (finish_without_dispatch operation b held g terminal deliver noop).
Proof.
  apply sound_durably, sound_outcome_durably.
  assert (Hend : forall r, sound ok (sbind (cleanup_current_spool request held false)
                                           (fun _ => return_ r))).
  { intros r. apply sound_seq; [apply sound_cleanup | intros; apply sound_return]. }
  destruct (has_value (q_key request)), noop;
    [apply sound_transition; [reflexivity | apply Hend] .. | |];
    (apply sound_seq; [apply sound_pure | intros; apply Hend]).
Qed.

Lemma sound_interrupted operation b held g :
  sound any (interrupted_before_dispatch json_dump request hooks operation b held g).
Proof.
  apply sound_seq; [apply sound_call; reflexivity |]. intros [].
  - destruct (timed_out_terminal _ _);
      [apply sound_finish_without_dispatch | apply doomed_sound, doomed_fatal].
  - apply sound_seq; [apply sound_call; reflexivity |]. intros []; [| apply sound_pure].
    destruct (cancellation_terminal _);
      [apply sound_finish_without_dispatch | apply doomed_sound, doomed_fatal].
Qed.

Lemma sound_stored (e : effect IdempotencyWriteStatus) (g : Progress) :
  (forall s, harmless (Event e (Returned s)) = negb (status_failed s)) ->
  sound has_value
    (if has_value (q_key request)
     then sbind (act e) (fun updated => pure (if status_failed updated then None else Some g))
     else pure (Some g)).
Proof.
  intros He. destruct (has_value (q_key request)); [| apply sound_pure].
  eapply sound_sbind; [apply sound_act | intros; apply sound_pure |].
  intros s Hs. cbn beta in Hs. rewrite He in Hs. apply doomed_pure.
  destruct (status_failed s); [reflexivity | discriminate].
Qed.

Lemma sound_observer operation g stage value :
  sound has_value (observer json_dump request hooks operation g stage value).
Proof.
  unfold observer. destruct stage; try apply sound_pure;
    (eapply sound_sbind; [apply sound_checkpointed | |]; intros [g' |] Hr; try discriminate;
     [apply sound_stored; reflexivity | apply doomed_pure; reflexivity]).
Qed.

Lemma doomed_observations operation count : doomed has_value (observations operation count None).
Proof.
  induction count as [| count IH]; cbn [WriteKernel.observations];
    [apply doomed_pure; reflexivity |].
  apply doomed_act. intros o. exact IH.
Qed.

Lemma sound_observations operation count g : sound has_value (observations operation count (Some g)).
Proof.
  revert g. induction count as [| count IH]; intros g; cbn [WriteKernel.observations];
    [apply sound_pure |].
  apply sound_seq; [apply sound_call; reflexivity |]. intros o.
  eapply sound_sbind; [apply sound_try; [apply sound_observer | apply doomed_pure; reflexivity] | |].
  - intros [g' |] Hr; [apply IH | discriminate].
  - intros [g' |] Hr; [discriminate | apply doomed_observations].
Qed.

Lemma sound_settle_store {A} (ok : A -> bool) d k :
  sound ok k -> sound ok (sbind (settle_store request hooks d) (fun _ => k)).
Proof.
  intros Hk. assert (Hskip : sound ok (sbind (pure tt) (fun _ => k))).
  { apply sound_seq; [apply sound_pure | intros; exact Hk]. }
  unfold settle_store. destruct (has_value _); [| exact Hskip].
  destruct (d_mutation_state d), (d_retain_pending d);
    first [exact Hskip | apply sound_transition; [reflexivity | exact Hk]].
Qed.

Lemma sound_finish_dispatch {A} (ok : A -> bool) operation b held g d :
  sound ok (finish_dispatch operation b held g d).
Proof.
  apply sound_seq; [apply sound_call; reflexivity |]. intros suppress.
  destruct (_ && _); [apply sound_return |].
  apply sound_seq; [destruct (d_mutation_confirmed d); [apply sound_recorded | apply sound_pure] |].
  intros g'. apply sound_outcome_durably, sound_settle_store.
  apply sound_seq; [destruct (_ && _); [apply sound_cleanup | apply sound_pure] |]. intros [].
  apply sound_seq; [apply sound_emits; unfold_kernel; emit | intros; apply sound_return].
Qed.

Lemma sound_dispatched operation p proof g :
  sound (fun o => has_value (fst o))
    (try_ (sbind (act (DispatchBegin p proof)) (fun count =>
           sbind (observations operation count (Some g)) (fun durable =>
           sbind (act DispatchEnd) (fun d => pure (durable, d)))))
          (audit_fatal hooks true)).
Proof.
  apply sound_try; [| apply doomed_fatal].
  apply sound_seq; [apply sound_call; reflexivity |]. intros count.
  eapply sound_sbind; [apply sound_observations | |]; intros durable Hd.
  - apply sound_seq; [apply sound_call; reflexivity |]. intros d. apply sound_pure.
  - apply doomed_act. intros d. apply doomed_pure, Hd.
Qed.

Lemma sound_dispatch {A} (ok : A -> bool) operation b held g :
  sound ok (dispatch operation b held g).
Proof.
  apply sound_durably, sound_seq; [apply sound_interrupted |]. intros [].
  apply sound_seq; [apply sound_guarded_hook; reflexivity |]. intros [proof | terminal |].
  - apply sound_seq; [apply sound_interrupted |]. intros [].
    apply sound_checkpoint_or_fatal. intros g'.
    eapply sound_sbind; [apply sound_dispatched | |]; intros [[g2 |] d] Ho; try discriminate.
    + apply sound_seq; [apply sound_pure |]. intros g3.
      apply sound_durably, sound_finish_dispatch.
    + apply doomed_bind_fatal.
  - apply sound_finish_without_dispatch.
  - destruct (cancellation_terminal _);
      [apply sound_finish_without_dispatch | apply doomed_sound, doomed_fatal].
Qed.

Lemma sound_commit {A} (ok : A -> bool) operation b : sound ok (commit operation b).
Proof.
  eapply sound_sbind; [apply sound_act | |]; intros [generation |] Hg; try discriminate;
    [| apply doomed_fatal].
  apply sound_seq; [apply sound_insert_pending |]. intros g.
  apply sound_seq; [destruct (has_post_intent hooks);
                    [apply sound_guarded_hook; reflexivity | apply sound_pure] |]. intros post.
  apply sound_seq; [apply sound_publish_spool |]. intros spooled.
  destruct (terminal_without_dispatch post); [| apply sound_dispatch].
  apply sound_durably, sound_finish_without_dispatch.
Qed.
End shutdown.

Lemma not_harmless t ev : In ev t -> breaks ev = true -> forallb harmless t = true -> False.
Proof.
  intros Hin Hb H. pose proof (proj1 (forallb_forall _ _) H ev Hin) as Hh.
  unfold harmless in Hh. rewrite Hb in Hh. discriminate.
Qed.

(** C5.  From the append of the intent on, no failure is survived but that of the
    clean-up: if any call the kernel makes there throws, or reports that it failed
    (the append of the intent, a checkpoint or the outcome, the insertion, an
    update, the completion or the removal of the pending entry, the closing of an
    incumbent, the hold of the spool), the call ends as fatal and its last action
    is the shutdown of the daemon.  The exceptions are the calls of [best_effort]:
    the clean-up of the spool and of its entry, the clean-up hook, and the
    shutdown hook, whose failures the kernel ignores. *)
Theorem failed_step_is_fatal t r t1 i t2 ev :
  runs run t r -> t = t1 ++ i :: t2 -> intends i <> None ->
  In ev (i :: t2) -> breaks ev = true ->
  r = plain_audit_fatal /\ exists t' a, t = t' ++ [Event AuditFatalShutdown a].
Proof.
  intros H -> Hi Hin Hb.
  assert (Hno : no_intent i = false) by (unfold no_intent; now destruct (intends i)).
  apply run_cases in H
    as [[H _] | (operation & b & u1 & u2 & _ & [Hdry Hwf] & Heq & Hprep & c & Hc & ->)].
  - exfalso. apply preflight_quiet, (forallb_imp _ _ _ quiet_no_intent) in H.
    rewrite split_none in H; [discriminate | exact Hno].
  - assert (Hs : has_audit_fatal_shutdown hooks = true).
    { revert Hwf. unfold well_formed_call. rewrite Hdry. cbn [orb]. intros Hwf. bool_split.
      assumption. }
    pose proof (commit_intent _ _ _ _ Hc) as (a & u & -> & Hu).
    pose proof (prepare_emits _ _ _ Hprep) as Hpre.
    eapply split_unique in Heq as (-> & -> & ->);
      [| exact Hno | exact (forallb_imp _ _ _ quiet_no_intent (preflight_quiet _ Hpre)) | exact Hu].
    eapply sound_try in Hc as [Hc | Hc];
      [| | exact (sound_commit Hs any operation b) | exact (doomed_fatal Hs any)].
    + exfalso. eapply not_harmless; [exact Hin | exact Hb | exact Hc].
    + apply (fatal_app u1) in Hc. exact Hc.
Qed.

End kernel_facts.
