(* ===== verification/WriteKernelResults.v ===== *)
(** The results of [WriteKernel::run]: what a completed result and a replay stand
    for, and the run against an environment that answers every call. *)
From S2P Require Import Prelude Json CanonicalJson Paths Operation DestructivePlan M6Domain.
From S2P Require Import AuditSchema AuditLog IdempotencyStore IdempotencyFile Effects SpoolInventory Reconciliation WriteKernel WriteKernelLogic WriteKernelFacts.
Import Audit Contract.

Section kernel_results.
Context (json_dump : json -> option string) (request : WriteKernelRequest)
  (hooks : WriteKernelHooks) (has_foundation : bool) (audit_path store_path : string).

Abbreviation prepare := (prepare json_dump request hooks audit_path).
Abbreviation commit := (commit json_dump request hooks store_path).
Abbreviation run := (run json_dump request hooks has_foundation audit_path store_path).

Abbreviation observations := (observations json_dump request hooks).
Abbreviation publish_spool := (publish_spool json_dump request hooks).
Abbreviation insert_pending := (insert_pending json_dump request hooks store_path).
Abbreviation dispatch := (WriteKernel.dispatch json_dump request hooks).
Abbreviation finish_without_dispatch := (WriteKernel.finish_without_dispatch json_dump request hooks).
Abbreviation finish_dispatch := (WriteKernel.finish_dispatch json_dump request hooks).
Abbreviation stop_before_dispatch := (WriteKernel.stop_before_dispatch json_dump request hooks).

Abbreviation ends_early := (WriteKernelFacts.ends_early json_dump request hooks audit_path).
Abbreviation authorised := (WriteKernelFacts.authorised json_dump request hooks).

(** ** Results *)

(** The results [m] returns satisfy [R]. *)
Definition returns (R : list event -> WriteKernelResult -> Prop) {A} (m : stmt A) : Prop :=
  forall t r, runs m t (Return r) -> R t r.

Lemma returns_sbind (R : list event -> WriteKernelResult -> Prop) {A B} (m : stmt A) (k : A -> stmt B) :
  returns R m ->
  (forall t1 a, runs m t1 (Value a) -> returns (fun t r => R (t1 ++ t) r) (k a)) ->
  returns R (sbind m k).
Proof.
  intros Hm Hk t r H.
  apply runs_sbind in H as [(t1 & t2 & a & -> & H1 & H2) | [(r' & Hc & H) | [Hc _]]].
  - exact (Hk _ _ H1 _ _ H2).
  - injection Hc as <-. exact (Hm _ _ H).
  - discriminate.
Qed.

Lemma returns_try (R : list event -> WriteKernelResult -> Prop) {A} (m h : stmt A) :
  returns R m -> (forall t1, returns (fun t r => R (t1 ++ t) r) h) -> returns R (try_ m h).
Proof.
  intros Hm Hh t r H. apply runs_try in H as [[_ H] | (t1 & t2 & -> & _ & H)]; [exact (Hm _ _ H) |].
  exact (Hh _ _ _ H).
Qed.

Lemma returns_act R {X} (e : effect X) : returns R (act e).
Proof. intros t r H. apply runs_act in H as [(x & _ & Hc) | [_ Hc]]; discriminate. Qed.

Lemma returns_pure R {A} (a : A) : returns R (pure a).
Proof. intros t r H. apply runs_pure in H as [_ Hc]. discriminate. Qed.

Lemma returns_return (R : list event -> WriteKernelResult -> Prop) {A} r :
  R [] r -> returns R (return_ r : stmt A).
Proof. intros Hr t r' H. apply runs_return in H as [-> Hc]. injection Hc as ->. exact Hr. Qed.

(** Only results whose status is not in [S]. *)
Definition never (S : WriteKernelStatus -> bool) {A} (m : stmt A) : Prop :=
  returns (fun _ r => S (k_status r) = false) m.

Lemma never_sbind S {A B} (m : stmt A) (k : A -> stmt B) :
  never S m -> (forall a, never S (k a)) -> never S (sbind m k).
Proof. intros Hm Hk. apply returns_sbind; [exact Hm | intros t1 a _; apply Hk]. Qed.

Lemma never_try S {A} (m h : stmt A) : never S m -> never S h -> never S (try_ m h).
Proof. intros Hm Hh. apply returns_try; [exact Hm | intros _; exact Hh]. Qed.

Lemma gate_failure_status gate : k_status (gate_failure request audit_path gate) = KernelRejected.
Proof.
  unfold gate_failure. destruct (gate_status gate), (gate_terminal gate), (gate_spool_failure gate);
    try reflexivity; destruct (f_interruption _) as [[] |]; try reflexivity;
    destruct (af_interruption (gate_audit_failure gate)) as [[] |]; reflexivity.
Qed.

Ltac never_ :=
  repeat lazymatch goal with
  | |- never _ (pure _) => apply returns_pure
  | |- never _ (act _) => apply returns_act
  | |- never _ (return_ _) =>
      apply returns_return;
      first [ reflexivity | unfold append_failure; rewrite gate_failure_status; reflexivity
            | cbn; match goal with |- _ (if ?b then _ else _) = _ => destruct b; reflexivity end ]
  | |- never _ (sbind _ _) => apply never_sbind; [| intros ?]
  | |- never _ (try_ _ _) => apply never_try
  | |- never _ (match (false && _)%bool with _ => _ end) => cbn [andb]
  | |- never _ (match ?x with _ => _ end) => destruct x
  end.

Definition is_completed (s : WriteKernelStatus) : bool :=
  match s with KernelCompleted => true | _ => false end.
Definition is_replayed (s : WriteKernelStatus) : bool :=
  match s with Replayed => true | _ => false end.

Lemma prepare_never_completed operation : never is_completed (prepare operation).
Proof. unfold_kernel. never_. Qed.
Lemma observations_never S operation count g : never S (observations operation count g).
Proof.
  revert g. induction count as [| count IH]; intros g; cbn [WriteKernel.observations];
    [apply returns_pure |].
  apply never_sbind; [apply returns_act |]. intros [stage value].
  apply never_sbind; [unfold_kernel; never_ |]. intros next. apply IH.
Qed.

Lemma commit_never_replayed {A} operation b : never is_replayed (commit operation b : stmt A).
Proof.
  unfold WriteKernel.commit. unfold_kernel. repeat (never_; try apply observations_never).
Qed.

(** A call that leaves the entries of the store in place: it neither completes nor
    removes one, nor clears the spool of one. *)
Definition keeps_entry (ev : event) : bool :=
  let 'Event e _ := ev in
  match e with StoreComplete _ | StoreRemove | StoreClearSpool => false | _ => true end.

(** What the store must hold for a keyed request with this outcome: no entry, or a
    completed no-op, when nothing was mutated; the pending entry, when a mutation
    is possible; the entry completed with the terminal, when it is confirmed, but
    for a forward that may keep the entry pending. *)
Definition store_agrees (mutation : AccountAuditMutationState) (terminal : StoredTerminal)
    (t : list event) : Prop :=
  has_value (q_key request) = true ->
  match mutation with
  | MutationNone =>
      exists s, status_failed s = false
        /\ (In (Event StoreRemove (Returned s)) t
            \/ success terminal = true
               /\ In (Event (StoreComplete (t_value terminal)) (Returned s)) t)
  | MutationPossible => forallb keeps_entry t = true
  | MutationConfirmedState =>
      (exists s, status_failed s = false
         /\ In (Event (StoreComplete (t_value terminal)) (Returned s)) t)
      \/ (WriteOp.eq_m3 (q_operation request) M3.MsgForward = true /\ forallb keeps_entry t = true)
  end.

(** The result is the terminal of an outcome in the log, and the store agrees
    with it. *)
Definition outcome_recorded (operation : AccountAuditOperation) (b : Prepared) (t : list event)
    (r : WriteKernelResult) : Prop :=
  exists terminal mutation stages now outcome,
    k_terminal r = Some (t_value terminal) /\ k_plan r = Some (b_plan b)
    /\ terminal_matches_plan terminal (b_plan b) = true
    /\ make_account_audit_outcome json_dump
         (outcome_input request operation terminal mutation stages now) = Ok outcome
    /\ In (Event (AppendOutcome outcome) (Returned true)) t
    /\ store_agrees mutation terminal t.

Definition audited (operation : AccountAuditOperation) (b : Prepared) (t : list event)
    (r : WriteKernelResult) : Prop :=
  is_completed (k_status r) = true -> outcome_recorded operation b t r.

Lemma store_agrees_app mutation terminal t1 t2 :
  forallb keeps_entry t1 = true -> store_agrees mutation terminal t2 ->
  store_agrees mutation terminal (t1 ++ t2).
Proof.
  intros Hk H Hkey. specialize (H Hkey). destruct mutation.
  - destruct H as (s & Hs & [Hin | [Hok Hin]]); exists s;
      (split; [exact Hs |]); [left | right; split; [exact Hok |]]; in_trace.
  - rewrite forallb_app, Hk. exact H.
  - destruct H as [(s & Hs & Hin) | [Hf H]]; [left; exists s; split; [exact Hs | in_trace] | right].
    rewrite forallb_app, Hk. auto.
Qed.

Lemma audited_app operation b t1 t2 r :
  forallb keeps_entry t1 = true -> audited operation b t2 r -> audited operation b (t1 ++ t2) r.
Proof.
  intros Hk H Hr. destruct (H Hr) as (tm & mu & st & now & o & H1 & H2 & H3 & H4 & H5 & H6).
  exists tm, mu, st, now, o. do 4 (split; [assumption |]). split; [in_trace |].
  now apply store_agrees_app.
Qed.

(** The values of [m] are reached with the entries of the store in place. *)
Definition keeps {A} (m : stmt A) : Prop :=
  forall t a, runs m t (Value a) -> forallb keeps_entry t = true.

Lemma keeps_emits {A} (m : stmt A) : emits keeps_entry m -> keeps m.
Proof. intros Hm t a H. exact (Hm _ _ H). Qed.

Lemma audited_both operation b {A B} (m : stmt A) (k : A -> stmt B) :
  returns (audited operation b) m -> keeps m -> (forall a, returns (audited operation b) (k a)) ->
  returns (audited operation b) (sbind m k).
Proof.
  intros Hm Hp Hk. apply returns_sbind; [exact Hm |]. intros t1 a H1 t r H. apply audited_app.
  - exact (Hp _ _ H1).
  - exact (Hk _ _ _ H).
Qed.

Lemma audited_seq operation b {A B} (m : stmt A) (k : A -> stmt B) :
  never is_completed m -> keeps m -> (forall a, returns (audited operation b) (k a)) ->
  returns (audited operation b) (sbind m k).
Proof.
  intros Hm. apply audited_both. intros t r H Hr. rewrite (Hm _ _ H) in Hr. discriminate.
Qed.

Lemma audited_never operation b {A} (m : stmt A) :
  never is_completed m -> returns (audited operation b) m.
Proof. intros Hm t r H Hr. rewrite (Hm _ _ H) in Hr. discriminate. Qed.

Lemma vacuous operation b t1 {A} (m : stmt A) :
  never is_completed m -> returns (fun t r => audited operation b (t1 ++ t) r) m.
Proof. intros Hm t r H Hr. rewrite (Hm _ _ H) in Hr. discriminate. Qed.

Lemma fatal_never_completed {A} : never is_completed (audit_fatal hooks true : stmt A).
Proof. unfold_kernel. never_. Qed.

Lemma append_outcome_value operation terminal mutation stages t :
  runs (append_outcome json_dump request hooks operation terminal mutation stages) t (Value true) ->
  exists now outcome,
    make_account_audit_outcome json_dump
      (outcome_input request operation terminal mutation stages now) = Ok outcome
    /\ In (Event (AppendOutcome outcome) (Returned true)) t.
Proof.
  unfold append_outcome. intros H. split_runs; [| discriminate].
  eexists _, _. split; [eassumption | in_trace].
Qed.

Lemma finish_without_dispatch_audited {A} operation b held g terminal deliver noop :
  (noop = true -> success terminal = true) ->
  returns (audited operation b) (finish_without_dispatch operation b held g terminal deliver noop : stmt A).
Proof.
  intros Hnoop. unfold WriteKernel.finish_without_dispatch, durably, require.
  destruct (terminal_matches_plan terminal (b_plan b)) eqn:Hmatch;
    [| apply audited_never, fatal_never_completed].
  apply returns_sbind; [apply audited_never; unfold_kernel; never_ |]. intros t1 [] H1;
    [| intros t r H Hr; rewrite (fatal_never_completed _ _ H) in Hr; discriminate].
  apply append_outcome_value in H1 as (now & outcome & Hmake & Hin).
  apply returns_sbind; [apply vacuous; unfold_kernel; never_ |].
  intros t2 [] H2. apply returns_sbind; [intros t r H; rewrite app_assoc; revert t r H; apply vacuous; unfold_kernel; never_ |].
  intros t3 [] _. apply returns_return. cbn. intros Hr. destruct deliver; [| discriminate].
  exists terminal, MutationNone, (completed g), now, outcome. do 4 (split; [auto |]).
  split; [in_trace |]. intros Hkey. rewrite Hkey in H2.
  destruct noop; split_runs; (exists a; split; [bool_split; assumption |]);
    [right; split; [auto |] | left]; in_trace.
Qed.

Lemma settle_store_value d t u :
  runs (settle_store request hooks d) t (Value u) -> has_value (q_key request) = true ->
  match d_mutation_state d with
  | MutationNone => exists s, status_failed s = false /\ In (Event StoreRemove (Returned s)) t
  | MutationPossible => t = []
  | MutationConfirmedState =>
      if d_retain_pending d then t = []
      else exists s, status_failed s = false
             /\ In (Event (StoreComplete (t_value (d_terminal d))) (Returned s)) t
  end.
Proof.
  unfold settle_store. intros H Hkey. rewrite Hkey in H.
  destruct (d_mutation_state d), (d_retain_pending d); split_runs;
    solve [reflexivity | exists a; split; [bool_split; assumption | in_trace]].
Qed.

Lemma append_outcome_keeps operation terminal mutation stages :
  emits keeps_entry (append_outcome json_dump request hooks operation terminal mutation stages).
Proof. unfold_kernel. emit. Qed.

(** The clean-up of the spool runs only when the entry is settled. *)
Lemma cleanup_keeps d held t u :
  runs (if negb (eqb (d_mutation_state d) MutationPossible) && negb (d_retain_pending d)
        then cleanup_current_spool request held (eqb (d_mutation_state d) MutationConfirmedState)
        else pure tt) t (Value u) ->
  d_mutation_state d = MutationPossible \/ d_retain_pending d = true -> t = [].
Proof.
  intros H K. assert (negb (eqb (d_mutation_state d) MutationPossible) && negb (d_retain_pending d) = false) as E.
  { destruct K as [-> | ->]; [reflexivity | apply andb_false_r]. }
  rewrite E in H. now apply runs_pure_value in H as [-> _].
Qed.

Lemma hook_cleanup_keeps p d :
  emits keeps_entry
    (if has_cleanup hooks then try_ (sbind (act (HookCleanup p d)) (fun _ => pure tt)) (pure tt)
     else pure tt : stmt unit).
Proof. emit. Qed.

Lemma finish_dispatch_audited {A} operation b held g d :
  terminal_matches_plan (d_terminal d) (b_plan b) = true -> retains_wrongly request d = false ->
  returns (audited operation b) (finish_dispatch operation b held g d : stmt A).
Proof.
  intros Hmatch Hretain.
  apply audited_seq; [apply returns_act | apply keeps_emits; emit |]. intros suppress.
  destruct (_ && _); [apply audited_never; never_ |].
  apply audited_seq; [unfold_kernel; never_ | apply keeps_emits; unfold_kernel; emit |]. intros g'.
  apply returns_sbind; [apply vacuous with (t1 := []); unfold_kernel; never_ |]. intros t1 [] H1;
    [| apply vacuous, fatal_never_completed].
  pose proof (append_outcome_keeps _ _ _ _ _ _ H1) as K1.
  apply append_outcome_value in H1 as (now & outcome & Hmake & Hin).
  apply returns_sbind; [apply vacuous; unfold_kernel; never_ |]. intros t2 [] H2.
  pose proof (settle_store_value _ _ _ H2) as Hsettled.
  intros t r H. rewrite app_assoc. revert t r H.
  apply returns_sbind; [apply vacuous; unfold_kernel; never_ |]. intros t3 [] H3 t r H.
  pose proof (cleanup_keeps _ _ _ _ H3) as K3.
  rewrite app_assoc. revert t r H.
  apply returns_sbind; [apply vacuous; unfold_kernel; never_ |]. intros t4 [] H4.
  pose proof (hook_cleanup_keeps _ _ _ _ H4) as K4.
  apply returns_return. intros Hr. destruct suppress; [discriminate |].
  exists (d_terminal d), (d_mutation_state d), (completed g'), now, outcome. do 4 (split; [auto |]).
  split; [in_trace |]. intros Hkey. specialize (Hsettled Hkey).
  assert (t2 = [] -> t3 = [] -> forallb keeps_entry (((t1 ++ t2) ++ t3) ++ t4 ++ []) = true) as Keep.
  { intros -> ->. now rewrite !app_nil_r, forallb_app, K1, K4. }
  destruct (d_mutation_state d) eqn:Hm.
  - destruct Hsettled as (s & Hs & Hi). exists s. split; [exact Hs |]. left. in_trace.
  - apply Keep; [exact Hsettled | auto].
  - destruct (d_retain_pending d) eqn:Hp.
    + right. split; [| apply Keep; [exact Hsettled | auto]].
      revert Hretain. unfold retains_wrongly. rewrite Hp. destruct (WriteOp.eq_m3 _ _); [auto | discriminate].
    + destruct Hsettled as (s & Hs & Hi). left. exists s. split; [exact Hs | in_trace].
Qed.

Lemma interrupted_audited operation b held g :
  returns (audited operation b) (interrupted_before_dispatch json_dump request hooks operation b held g).
Proof.
  apply audited_seq; [apply returns_act | apply keeps_emits; emit |]. intros [].
  - destruct (timed_out_terminal _ _);
      [apply finish_without_dispatch_audited; discriminate | apply audited_never, fatal_never_completed].
  - apply audited_seq; [apply returns_act | apply keeps_emits; emit |]. intros []; [| apply returns_pure].
    destruct (cancellation_terminal _);
      [apply finish_without_dispatch_audited; discriminate | apply audited_never, fatal_never_completed].
Qed.

Lemma finish_without_dispatch_value {A} operation b held g terminal deliver noop t (a : A) :
  ~ runs (finish_without_dispatch operation b held g terminal deliver noop) t (Value a).
Proof. unfold WriteKernel.finish_without_dispatch. intros H. invert_runs. Qed.

(** The tests before a dispatch go on only when they did nothing. *)
Lemma interrupted_keeps operation b held g :
  keeps (interrupted_before_dispatch json_dump request hooks operation b held g).
Proof.
  intros t u H. unfold interrupted_before_dispatch in H. invert_runs; [| | reflexivity].
  - destruct (timed_out_terminal _ _); [apply finish_without_dispatch_value in H as [] | invert_runs].
  - destruct (cancellation_terminal _); [apply finish_without_dispatch_value in H as [] | invert_runs].
Qed.

Lemma observations_keeps operation count g : emits keeps_entry (observations operation count g).
Proof.
  revert g. induction count as [| count IH]; intros g; cbn [WriteKernel.observations];
    [apply emits_pure |].
  apply emits_sbind; [apply emits_act; reflexivity |]. intros [stage value].
  apply emits_sbind; [unfold_kernel; emit |]. intros next. apply IH.
Qed.

Ltac audited_step :=
  apply audited_seq;
  [unfold_kernel; repeat (never_; try apply observations_never)
  | apply keeps_emits; unfold_kernel; repeat (emit; try apply observations_keeps) | intros ?].

Lemma dispatch_audited {A} operation b held g :
  returns (audited operation b) (dispatch operation b held g : stmt A).
Proof.
  unfold WriteKernel.dispatch, durably, require.
  destruct (_ && _); [| apply audited_never, fatal_never_completed].
  apply audited_both; [apply interrupted_audited | apply interrupted_keeps |]. intros [].
  apply audited_seq; [unfold_kernel; never_ | apply keeps_emits; unfold_kernel; emit |].
  intros [proof | terminal |].
  - apply audited_both; [apply interrupted_audited | apply interrupted_keeps |]. intros [].
    do 4 audited_step.
    destruct (_ && _) eqn:Hb; [bool_split | apply audited_never, fatal_never_completed].
    apply finish_dispatch_audited; assumption.
  - apply finish_without_dispatch_audited. discriminate.
  - destruct (cancellation_terminal _);
      [apply finish_without_dispatch_audited; discriminate | apply audited_never, fatal_never_completed].
Qed.

(** The completed result of a keyed request comes after its pending entry. *)
Definition inserted (operation : AccountAuditOperation) (b : Prepared) (t : list event) : Prop :=
  exists generation,
    In (Event (AppendIntent (b_intent b)) (Returned (Some generation))) t
    /\ pending_inserted json_dump request store_path operation b generation t.

Lemma commit_audited {A} operation b :
  returns (fun t r => is_completed (k_status r) = true ->
             inserted operation b t /\ outcome_recorded operation b t r) (commit operation b : stmt A).
Proof.
  assert (forall t1 t2 r, is_completed (k_status r) = true -> inserted operation b t1 ->
    forallb keeps_entry t1 = true -> audited operation b t2 r ->
    inserted operation b (t1 ++ t2) /\ outcome_recorded operation b (t1 ++ t2) r) as App.
  { intros t1 t2 r Hr (generation & Hi & Hp) Hk Ha. split; [| exact (audited_app _ _ _ _ _ Hk Ha Hr)].
    exists generation. split; [in_trace |]. eapply pending_mono; [| exact Hp]. intros x. in_trace. }
  apply returns_sbind; [apply returns_act |]. intros t1 [generation |] H1;
    [| intros t r H Hr; rewrite (fatal_never_completed _ _ H) in Hr; discriminate].
  apply runs_act_value in H1 as ->.
  apply returns_sbind.
  { intros t r H Hr. assert (never is_completed (insert_pending operation b generation
      {| sequence := 0; completed := [] |})) as N by (unfold_kernel; never_).
    rewrite (N _ _ H) in Hr. discriminate. }
  intros t2 g H2 t r H Hr.
  assert (forallb keeps_entry t2 = true) as K2.
  { assert (emits keeps_entry (insert_pending operation b generation
      {| sequence := 0; completed := [] |})) as N by (unfold_kernel; emit). exact (N _ _ H2). }
  apply insert_pending_value in H2. rewrite app_assoc. apply App; [exact Hr | | cbn; exact K2 |].
  - exists generation. split; [in_trace |]. eapply pending_mono; [| exact H2]. intros x. in_trace.
  - revert t r H Hr. enough (forall t r, runs (sbind (if has_post_intent hooks
        then try_ (act (HookPostIntent (b_plan b) (b_admission b))) (audit_fatal hooks true)
        else pure nothing_prepared) (fun post =>
        sbind (publish_spool operation b post g) (fun spooled =>
        match terminal_without_dispatch post with
        | Some terminal => stop_before_dispatch operation b (snd spooled) (fst spooled) post terminal
        | None => dispatch operation b (snd spooled) (fst spooled)
        end)) : stmt A) t (Return r) -> audited operation b t r) as E by (intros; now apply E).
    audited_step. audited_step. destruct (terminal_without_dispatch _) as [terminal |]; [| apply dispatch_audited].
    unfold WriteKernel.stop_before_dispatch, durably, require.
    destruct (_ && _); [| apply audited_never, fatal_never_completed].
    apply finish_without_dispatch_audited. intros Hn. bool_split. assumption.
Qed.

Lemma ends_early_never_completed t r : ends_early t r -> is_completed (k_status r) = false.
Proof.
  intros [-> | [-> | [H | (operation & H)]]]; [reflexivity .. | |]; revert t r H.
  - change (never is_completed (dry_run request hooks : stmt Empty_set)). unfold_kernel. never_.
  - apply prepare_never_completed.
Qed.

Lemma preflight_keeps t : forallb preflight t = true -> forallb keeps_entry t = true.
Proof. apply forallb_imp. intros [X e a]. destruct e; cbn; auto. Qed.


(** ** Replays *)

(** The fingerprint a hook gave the request. *)
Definition fingerprinted (fp : string) (t : list event) : Prop :=
  (exists a, In (Event HookAdmit (Returned (inl a))) t /\ fingerprint a = fp)
  \/ (exists l, In (Event HookLookupAdmit (Returned (inl l))) t /\ l_fingerprint l = fp).

(** The result is the stored result of [incumbent]; a destructive one was
    confirmed again. *)
Definition replays (incumbent : IdempotencyEntry) (t : list event) (r : WriteKernelResult) : Prop :=
  exists p,
    k_terminal r = terminal incumbent /\ k_plan r = Some p /\ p_value p = plan incumbent
    /\ (WriteOp.destructive (q_operation request) = true ->
        exists outcome,
          In (Event (HookConfirm p true) (Returned outcome)) t
          /\ has_value (confirmed outcome) = true).

(** [replays] for the entry found in the snapshot of a clean gate under the key and
    the fingerprint of the request. *)
Definition replays_stored (t : list event) (r : WriteKernelResult) : Prop :=
  exists gate sampled fp key incumbent,
    In (Event (RunGate (absent_idempotency_by_policy request) sampled) (Returned gate)) t
    /\ gate_status gate = GateClean /\ fingerprinted fp t /\ q_key request = Some key
    /\ lookup (gate_snapshot gate) key fp
       = {| l_status := CompletedHit; l_incumbent := Some incumbent |}
    /\ replays incumbent t r.

Lemma returns_mono (R R' : list event -> WriteKernelResult -> Prop) {A} (m : stmt A) :
  (forall t r, R t r -> R' t r) -> returns R m -> returns R' m.
Proof. unfold returns. eauto. Qed.

Lemma returns_other R {A} r : k_status r <> Replayed ->
  returns (fun t r => k_status r = Replayed -> R t r) (return_ r : stmt A).
Proof. intros Hr. apply returns_return. intros H. contradiction. Qed.

Lemma confirm_replay_returns {A} incumbent :
  returns (fun t r => k_status r = Replayed -> replays incumbent t r)
    (confirm_replay request hooks incumbent : stmt A).
Proof.
  unfold confirm_replay.
  destruct (incumbent_plan request incumbent) as [p |] eqn:Hp,
           (incumbent_terminal request incumbent) as [tm |] eqn:Ht;
    try (apply returns_other; discriminate).
  assert (Hpv : p_value p = plan incumbent).
  { revert Hp. unfold incumbent_plan, make_plan. destruct (WriteOp.audit _); [| discriminate].
    destruct (_ && _); [| discriminate]. intros Hp. injection Hp as <-. reflexivity. }
  assert (Htv : Some (t_value tm) = terminal incumbent).
  { revert Ht. unfold incumbent_terminal, make_stored_terminal.
    destruct (terminal incumbent); [| discriminate]. destruct (WriteOp.audit _); [| discriminate].
    destruct (valid_terminal _ _); [| discriminate]. intros Ht. injection Ht as <-. reflexivity. }
  destruct (terminal_matches_plan tm p); cbn [negb]; [| apply returns_other; discriminate].
  destruct (WriteOp.destructive _) eqn:Hd;
    [| apply returns_return; intros _; exists p; repeat split; try assumption; congruence].
  destruct (has_confirm hooks); cbn [negb]; [| apply returns_other; discriminate].
  apply returns_sbind; [apply returns_try; [apply returns_act | intros; apply returns_other; discriminate] |].
  intros t1 outcome H1. apply runs_hooked_value in H1 as ->.
  apply returns_sbind; [apply returns_act |]. intros t2 [] _; [apply returns_other; discriminate |].
  apply returns_sbind; [apply returns_act |]. intros t3 [] _; [apply returns_other; discriminate |].
  destruct (confirmed outcome) eqn:Hc; [| apply returns_other; discriminate].
  apply returns_return. intros _. exists p. do 3 (split; [auto |]). intros _. exists outcome.
  split; [in_trace | rewrite Hc; reflexivity].
Qed.

Definition stored (t : list event) (r : WriteKernelResult) : Prop :=
  k_status r = Replayed -> replays_stored t r.

Lemma stored_never P {A} (m : stmt A) : never is_replayed m -> returns (fun t r => stored (P t) r) m.
Proof. intros Hm t r H Hr. specialize (Hm _ _ H). cbn in Hm. rewrite Hr in Hm. discriminate. Qed.

Lemma fingerprinted_mono fp (t u : list event) : incl t u -> fingerprinted fp t -> fingerprinted fp u.
Proof. intros Hi [(a & Ha & <-) | (a & Ha & <-)]; [left | right]; eauto. Qed.

Lemma check_incumbent_stored (P : list event -> list event) gate sampled fp :
  (forall t, In (Event (RunGate (absent_idempotency_by_policy request) sampled) (Returned gate)) (P t)) ->
  gate_status gate = GateClean -> (forall t, fingerprinted fp (P t)) -> (forall t, incl t (P t)) ->
  returns (fun t r => stored (P t) r) (check_incumbent request hooks gate fp).
Proof.
  intros Hg Hs Hfp Hi. unfold check_incumbent. destruct (q_key request) as [key |] eqn:Hk;
    [| apply returns_pure].
  unfold incumbent_result.
  destruct (lookup (gate_snapshot gate) key fp) as [[] [incumbent |]] eqn:Hl;
    cbn [l_status l_incumbent]; try solve [apply stored_never; never_].
  eapply returns_mono; [| apply confirm_replay_returns]. intros t r H Hr.
  destruct (H Hr) as (p & H1 & H2 & H3 & H4).
  exists gate, sampled, fp, key, incumbent. do 5 (split; [auto |]). exists p.
  do 3 (split; [auto |]). intros Hd. destruct (H4 Hd) as (o & Ho & Hc). exists o. split; [| exact Hc].
  apply Hi, Ho.
Qed.

Lemma admitted_hook_value {X} (e : effect (X + json)) t x :
  runs (admitted_hook request e) t (Value x) -> In (Event e (Returned (inl x))) t.
Proof. unfold admitted_hook. intros H. split_runs. in_trace. Qed.

Lemma first_admission_value t first :
  runs (first_admission request hooks) t (Value first) ->
  fingerprinted (admission_fingerprint first) t.
Proof.
  unfold first_admission. intros H. invert_runs;
    match goal with H : runs (admitted_hook _ _) _ _ |- _ => apply admitted_hook_value in H end;
    cbn; [right | left];
    match goal with H : In (Event _ (Returned (inl ?x))) _ |- _ => exists x end;
    (split; [in_trace | reflexivity]).
Qed.

Lemma admit_and_plan_fingerprint t a :
  runs (admit_and_plan request hooks audit_path) t (Value a) ->
  fingerprinted (fingerprint (fst a)) t.
Proof.
  unfold admit_and_plan. intros H. apply runs_sbind_value in H as (t1 & t2 & first & -> & H1 & H).
  assert (Hfirst : fingerprinted (admission_fingerprint first) t1).
  { invert_runs;
      match goal with H : runs (first_admission _ _) _ _ |- _ => apply first_admission_value in H end;
      [assumption |]. eapply fingerprinted_mono; [| eassumption]. intros x. in_trace. }
  eapply fingerprinted_mono with (t := t1); [intros x; in_trace |].
  destruct first as [lookup | admission]; invert_runs; cbn in *; bool_split; str_bool;
    try congruence; try assumption.
Qed.

Lemma prepare_stored operation : returns stored (prepare operation).
Proof.
  unfold WriteKernel.prepare. apply returns_sbind.
  - unfold admit_and_plan. apply returns_sbind.
    + destruct (q_recovery_preflight_complete request);
        [apply (stored_never (fun t => t)); unfold_kernel; never_ |].
      apply returns_sbind; [apply (stored_never (fun t => t)); unfold_kernel; never_ |]. intros t1 [] _.
      apply returns_sbind; [apply returns_act |]. intros t2 sampled _.
      apply returns_sbind; [apply stored_never; unfold_kernel; never_ |]. intros t3 gate Hgate.
      apply run_gate_value in Hgate as [Hgate Hclean].
      apply returns_sbind; [apply (stored_never (fun t => t1 ++ t2 ++ t3 ++ t)); unfold_kernel; never_ |].
      intros t4 first Hfirst. apply first_admission_value in Hfirst.
      apply returns_sbind; [| intros; apply returns_pure].
      apply (check_incumbent_stored (fun t => t1 ++ t2 ++ t3 ++ t4 ++ t) _ sampled);
        [intros; in_trace | exact Hclean | | intros t x; in_trace].
      intros t. eapply fingerprinted_mono; [| exact Hfirst]. intros x. in_trace.
    + intros t1 first _. apply stored_never. unfold_kernel. never_.
  - intros t1 planned Hplanned. apply admit_and_plan_fingerprint in Hplanned.
    apply returns_sbind; [apply stored_never; unfold_kernel; never_ |]. intros t2 [] _.
    apply returns_sbind; [apply returns_act |]. intros t3 sampled _.
    apply returns_sbind; [apply (stored_never (fun t => t1 ++ t2 ++ t3 ++ t)); unfold_kernel; never_ |].
    intros t4 gate Hgate. apply run_gate_value in Hgate as [Hgate Hclean].
    apply returns_sbind.
    + apply (check_incumbent_stored (fun t => t1 ++ t2 ++ t3 ++ t4 ++ t) _ sampled);
        [intros; in_trace | exact Hclean | | intros t x; in_trace].
      intros t. eapply fingerprinted_mono; [| exact Hplanned]. intros x. in_trace.
    + intros t5 [] _. apply (stored_never (fun t => t1 ++ t2 ++ t3 ++ t4 ++ t5 ++ t)).
      unfold_kernel. never_.
Qed.

(** C7.  A replay is the stored result: it returns the terminal of the completed
    entry that a clean gate's snapshot holds under the key and the fingerprint of
    the request, after a fresh confirmation when the operation is destructive.
    Apart from the recovery gate, which settles what earlier invocations left, no
    call of it writes to the log, the store or the spool, and nothing is
    dispatched. *)
Theorem replay_returns_stored_result t r :
  runs run t r -> k_status r = Replayed -> forallb preflight t = true /\ replays_stored t r.
Proof.
  intros H Hs. apply run_cases in H as [[Hpre He] | (operation & b & u1 & u2 & _ & _ & -> & _ & c & Hc & ->)].
  - split; [exact Hpre |]. destruct He as [-> | [-> | [He | (operation & He)]]]; try discriminate.
    + exfalso. assert (Hn : never is_replayed (dry_run request hooks : stmt Empty_set))
        by (unfold_kernel; never_).
      specialize (Hn _ _ He). cbn in Hn. rewrite Hs in Hn. discriminate.
    + exact (prepare_stored _ _ _ He Hs).
  - exfalso. assert (Hn : never is_replayed (try_ (commit operation b : stmt Empty_set) (audit_fatal hooks true))).
    { apply never_try; [apply commit_never_replayed | unfold_kernel; never_]. }
    specialize (Hn _ _ Hc). cbn in Hn. rewrite Hs in Hn. discriminate.
Qed.

(** The run against an environment that answers each call from the calls so far. *)
Fixpoint drive (env : list event -> forall X, effect X -> answer X) (past : list event) {A}
    (p : prog A) : list event * A :=
  match p with
  | Ret a => ([], a)
  | Do e k =>
      let a := env past _ e in
      let '(t, r) := drive env (past ++ [Event e a]) (k a) in
      (Event e a :: t, r)
  end.

Lemma drive_runs env past {A} (p : prog A) : runs p (fst (drive env past p)) (snd (drive env past p)).
Proof.
  revert past. induction p as [a | X e k IH]; intros past; cbn [drive]; [split; reflexivity |].
  specialize (IH (env past X e) (past ++ [Event e (env past X e)])).
  destruct (drive env (past ++ [Event e (env past X e)]) (k (env past X e))) as [t r].
  cbn in IH |- *. eauto.
Qed.

End kernel_results.
