(* ===== verification/WriteKernelSamples.v ===== *)
(** A sample call of the write kernel, archiving a chat under an idempotency key,
    on which the theorems about the kernel are applied. *)
From S2P Require Import Prelude Json CanonicalJson Paths Operation DestructivePlan M6Domain.
From S2P Require Import AuditSchema AuditLog IdempotencyStore IdempotencyFile Effects SpoolInventory Reconciliation WriteKernel.
From S2P Require Import AuditSamples IdempotencyFacts.
From S2P Require Import WriteKernelLogic WriteKernelFacts WriteKernelResults.
Import Audit Contract.

Definition archive_request : WriteKernelRequest :=
  {| q_operation := WriteOp.of_m3 M3.ChatArchive; q_account := "main"; q_key := Some sample_key;
     q_invocation_id := "00112233445566778899aabbccddeeff";
     q_intent_timestamp := "2026-01-02T03:04:05Z"; q_config_path := "/c";
     q_config_snapshot := sample_config; q_authority_source := RequestAuthority;
     q_request_source_bytes := 10; q_has_sample_now := true; q_dry_run := false;
     q_recovery_preflight_complete := false |}.

Definition archive_hooks : WriteKernelHooks :=
  {| has_admit := true; has_plan := true; has_lookup_admit := false; has_materialize := false;
     has_confirm := true; has_verify_config_grant := true; has_revalidate_principal := true;
     has_post_intent := false; has_before_insert := false;
     has_revalidate_auth_and_schedule := true; has_dispatch := true; has_cleanup := false;
     has_timestamp := false; has_audit_fatal_shutdown := true |}.

Definition archive_admission : WriteAdmission :=
  {| arguments := {| a_operation := WriteOp.of_m3 M3.ChatArchive;
                     a_value := jobject [("chat", JString "@t")] |};
     fingerprint := sample_key; pass1_source := None |}.

Definition archive_write_plan : Plan :=
  {| p_operation := WriteOp.of_m3 M3.ChatArchive; p_account := "main"; p_value := archive_plan |}.

Definition archive_dispatched : WriteDispatchOutcome :=
  {| d_terminal := {| t_operation := WriteOp.of_m3 M3.ChatArchive; t_value := archive_terminal |};
     d_mutation_state := MutationConfirmedState; d_mutation_confirmed := true;
     d_retain_pending := false |}.

Definition archive_proof_data : json :=
  jobject [("tdlib_function", JString "addChatToList");
           ("dispatch_token", JString "ffeeddccbbaa99887766554433221100");
           ("client_generation", JUnsigned 3)].

(** An environment in which everything succeeds; the gate sees [entries], and the
    outcome is appended when [durable]. *)
Definition archive_env (entries : list IdempotencyEntry) (durable : bool) (past : list event)
    (X : Type) (e : effect X) : answer X :=
  match e in effect X return answer X with
  | DeadlineExpired | Cancelled => Returned false
  | SampleNow => Returned 1767323045
  | HookTimestamp => Returned "2026-01-02T03:04:05Z"
  | HookAdmit => Returned (inl archive_admission)
  | HookPlan _ => Returned (inl archive_write_plan)
  | HookRevalidatePrincipal => Returned None
  | HookRevalidateAuth _ => Returned (DispatchPreparation archive_proof_data)
  | DispatchBegin _ _ => Returned 0%nat
  | DispatchEnd => Returned archive_dispatched
  | AuditFatalShutdown => Returned tt
  | AcquireEpoch => Returned (inl tt)
  | RunGate _ _ =>
      Returned {| gate_status := GateClean;
                  gate_snapshot := {| entries := entries; canonical_bytes := EmptyString |};
                  gate_terminal := None;
                  gate_store_failure := no_store_failure;
                  gate_audit_failure := no_audit_failure;
                  gate_spool_failure := None |}
  | PrepareAppend _ _ =>
      Returned {| ai_status := AppendClean; ai_permit_valid := true; ai_terminal := None;
                  ai_reason := PathInvalid; ai_interruption := None |}
  | AppendIntent _ => Returned (Some 1)
  | AppendCheckpoint _ => Returned true
  | AppendOutcome _ => Returned durable
  | StoreInsert _ => Returned Inserted
  | StoreComplete _ | StoreRemove | StoreSpool _ => Returned Applied
  | _ => Threw
  end.

Definition archive_run (entries : list IdempotencyEntry) (durable : bool) :
    list event * WriteKernelResult :=
  drive (archive_env entries durable) []
    (run sample_dump archive_request archive_hooks true "/a" sample_store).
Definition archive_completed : IdempotencyEntry :=
  match complete_transition archive_terminal "main" archive_entry with
  | Ok e => e
  | Err _ => archive_entry
  end.

Lemma archive_runs entries durable :
  runs (run sample_dump archive_request archive_hooks true "/a" sample_store)
    (fst (archive_run entries durable)) (snd (archive_run entries durable)).
Proof. exact (drive_runs _ _ _). Qed.

(** An event with a property splits its trace. *)
Lemma find_event {X} (f : event -> option X) t :
  existsb (fun ev => has_value (f ev)) t = true ->
  exists t1 ev t2 x, t = t1 ++ ev :: t2 /\ f ev = Some x.
Proof.
  intros H. apply existsb_exists in H as (ev & Hin & Hx). apply in_split in Hin as (t1 & t2 & ->).
  destruct (f ev) as [x |] eqn:Hf; [| discriminate]. eauto 6.
Qed.

Lemma intent_is_authorised_witness :
  exists t1 ev t2 b,
    fst (archive_run [] true) = t1 ++ ev :: t2 /\ intends ev = Some (b_intent b)
    /\ authorised sample_dump archive_request archive_hooks ChatArchive b t1.
Proof.
  destruct (find_event intends (fst (archive_run [] true))) as (t1 & ev & t2 & intent & Ht & Hev);
    [vm_compute; reflexivity |].
  destruct (intent_is_authorised _ _ _ _ _ _ _ _ _ _ _ _ (archive_runs [] true) Ht Hev)
    as (_ & _ & operation & b & Hop & Hb & Ha).
  exists t1, ev, t2, b. split; [exact Ht |]. split; [rewrite Hb; exact Hev |].
  assert (operation = ChatArchive) as -> by (injection Hop as <-; reflexivity). exact Ha.
Defined.

Lemma dispatch_is_written_ahead_witness :
  exists t1 ev t2 p proof b,
    fst (archive_run [] true) = t1 ++ ev :: t2 /\ dispatches ev = Some (p, proof) /\ b_plan b = p
    /\ written_ahead sample_dump archive_request sample_store ChatArchive b proof t1.
Proof.
  destruct (find_event dispatches (fst (archive_run [] true)))
    as (t1 & ev & t2 & [p proof] & Ht & Hev); [vm_compute; reflexivity |].
  destruct (dispatch_is_written_ahead _ _ _ _ _ _ _ _ _ _ _ _ _ (archive_runs [] true) Ht Hev)
    as (_ & _ & operation & b & Hop & Hb & _ & Hw).
  exists t1, ev, t2, p, proof, b. do 3 (split; [assumption |]).
  assert (operation = ChatArchive) as -> by (injection Hop as <-; reflexivity). exact Hw.
Defined.

(** The trace from the append of the intent on. *)
Fixpoint from_intent (t : list event) : list event :=
  match t with
  | [] => []
  | ev :: t' => if has_value (intends ev) then t else from_intent t'
  end.

Lemma find_breaking t :
  existsb breaks (from_intent t) = true ->
  exists t1 i t2 ev, t = t1 ++ i :: t2 /\ intends i <> None /\ In ev (i :: t2) /\ breaks ev = true.
Proof.
  induction t as [| x t IH]; cbn [from_intent]; [discriminate |].
  destruct (intends x) eqn:Hx; cbn [has_value].
  - intros H. apply existsb_exists in H as (ev & Hin & Hb). exists [], x, t, ev.
    split; [reflexivity |]. split; [congruence | auto].
  - intros H. destruct (IH H) as (t1 & i & t2 & ev & -> & K). exists (x :: t1), i, t2, ev. auto.
Qed.

(** The outcome cannot be appended. *)
Lemma failed_step_is_fatal_witness :
  snd (archive_run [] false) = plain_audit_fatal
  /\ exists t' a, fst (archive_run [] false) = t' ++ [Event AuditFatalShutdown a].
Proof.
  destruct (find_breaking (fst (archive_run [] false))) as (t1 & i & t2 & ev & Ht & Hi & Hin & Hb);
    [vm_compute; reflexivity |].
  exact (failed_step_is_fatal _ _ _ _ _ _ _ _ t1 i t2 ev (archive_runs [] false) Ht Hi Hin Hb).
Defined.


(** The entry is completed already. *)
Lemma replay_returns_stored_result_witness :
  forallb preflight (fst (archive_run [archive_completed] true)) = true
  /\ replays_stored archive_request (fst (archive_run [archive_completed] true))
       (snd (archive_run [archive_completed] true)).
Proof.
  apply (replay_returns_stored_result _ _ _ _ _ _ _ _ (archive_runs [archive_completed] true)).
  vm_compute. reflexivity.
Defined.
