(* ===== verification/Frame.v ===== *)
(** The frame protocol between client and daemon (src/src/proto/frame.cpp,
    frame.hpp) and the idempotency admission of src/src/daemon/dispatch.cpp.

    The JSON library is a parameter: [json_parse] ([None] is a discarded
    document) and [json_dump] ([None] is the exception on text that is not
    UTF-8).  An exception that escapes a function is the failure [Thrown].
    The clock reading of [request_deadline] is the argument [now].  Wiping of
    secrets is not modelled. *)
From S2P Require Import Prelude DecimalText Json Paths Deadline InviteLink Operation.
From S2P Require Import DestructivePlan FrameIo.

Definition kProtocolVersion : Z := 3.
Definition kMaximumRequestSourceBytes : Z := kMaximumSerializedFrameBytes.

(** * Data *)

Inductive WriteAuthority := AuthorityUnset | AuthorityGrant | AuthorityDeny.

Inductive ChallengeKind :=
| ApiId | ApiHash | DatabaseKey | PhoneNumber | AuthenticationCode | EmailAddress | EmailCode
| Password | BotToken | RegistrationTerms | RegistrationFirstName | RegistrationLastName
| DestructiveConfirmation.

#[export] Instance ChallengeKind_eq_dec : EqDec ChallengeKind.
Proof. intros [] []; (left; reflexivity) || (right; discriminate). Defined.

Record Hello := { binary_version : string; protocol_version : Z }.

Record RequestContext := {
  tty : bool; cjson : bool; yes : bool; dry_run : bool;
  timeout_seconds : option spec_float;
  cwd : string;
  media_dir : option string;
  write_authority : WriteAuthority;
  idempotency_key : option string
}.

(** The immutable sample taken at admission. *)
Record RequestFacts := {
  f_id : Z; f_account : string; f_command : list string; f_args : json;
  f_context : RequestContext; f_source_bytes : Z
}.

Record Request := {
  id : Z;
  req_account : string;
  command : list string;
  args : json;
  context : RequestContext;
  source_bytes_ : Z;
  admitted_facts_ : option RequestFacts
}.

Record Answer := { answer_id : Z; answer : json }.

Inductive Frame :=
| FHello (h : Hello)
| FRequest (r : Request)
| FResult (id : Z) (data : json)
| FRawResult (id : Z) (canonical : string)
| FItem (id : Z) (data : json)
| FProgress (id : Z) (data : json)
| FError (id : Z) (code message : string) (details : json) (exit_code : Z)
| FChallenge (id : Z) (challenge : json)
| FAnswer (a : Answer).

(** [RequestSourceAccess::set]. *)
Definition set_source (r : Request) (bytes : Z) : Request :=
  {| id := id r; req_account := req_account r; command := command r; args := args r;
     context := context r; source_bytes_ := bytes;
     admitted_facts_ :=
       Some {| f_id := id r; f_account := req_account r; f_command := command r;
               f_args := args r; f_context := context r; f_source_bytes := bytes |} |}.

(** [RequestSourceAccess::frozen]. *)
Definition frozen (r : Request) : Request :=
  match admitted_facts_ r with
  | None => r
  | Some f =>
      {| id := f_id f; req_account := f_account f; command := f_command f; args := f_args f;
         context := f_context f; source_bytes_ := f_source_bytes f;
         admitted_facts_ := admitted_facts_ r |}
  end.

(** [invite_request]: a join by exact invite link, whose target is wiped. *)
Definition invite_request (cmd : list string) (a : json) : bool :=
  (if list_eq_dec string_dec cmd ["chat"; "join"] then true else false)
  && is_object a && contains a "target" && is_string (jget a "target")
  && is_exact_telegram_invite_link (get_string (jget a "target")).

(** * Challenges and answers *)

Definition kChallengeKinds : list (ChallengeKind * string) :=
  [(ApiId, "api_id"); (ApiHash, "api_hash"); (DatabaseKey, "database_key");
   (PhoneNumber, "phone_number"); (AuthenticationCode, "authentication_code");
   (EmailAddress, "email_address"); (EmailCode, "email_code"); (Password, "password");
   (BotToken, "bot_token"); (RegistrationTerms, "registration_terms");
   (RegistrationFirstName, "registration_first_name");
   (RegistrationLastName, "registration_last_name");
   (DestructiveConfirmation, "destructive_confirmation")].

Definition challenge_kind_name (kind : ChallengeKind) : string :=
  match lookup_by fst kChallengeKinds kind with Some e => snd e | None => EmptyString end.

Definition parse_challenge_kind (name : string) : option ChallengeKind :=
  option_map fst (lookup_by snd kChallengeKinds name).

Definition challenge_kind_is_secret (kind : ChallengeKind) : bool :=
  match kind with
  | ApiHash | DatabaseKey | AuthenticationCode | EmailCode | Password | BotToken => true
  | ApiId | PhoneNumber | EmailAddress | RegistrationTerms | RegistrationFirstName
  | RegistrationLastName | DestructiveConfirmation => false
  end.

Definition challenge_kind_expects_boolean (kind : ChallengeKind) : bool :=
  eqb kind RegistrationTerms || eqb kind DestructiveConfirmation.

Definition nonnegative_integer (value : json) (positive : bool) : bool :=
  if is_number_unsigned value then negb positive || negb (get_u64 value =? 0)
  else if negb (is_number_integer value) then false
  else
    let number := get_i64 value in
    if positive then 0 <? number else 0 <=? number.

Definition nullable_nonnegative_integer (value : json) : bool :=
  is_null value || nonnegative_integer value false.

Definition valid_nonce (value : json) : bool :=
  is_string value
  && (let nonce := get_string value in (str_len nonce =? 32) && str_all is_lower_hex nonce).

(** Which plan an action confirms. *)
Definition action_matches (act : string) (plan : DestructivePlan) : bool :=
  match plan with
  | PLogout _ => String.eqb act "logout"
  | PAccountRemove _ => String.eqb act "account_remove"
  | PMsgDelete _ => String.eqb act "msg_delete"
  | PChatLeave _ => String.eqb act "chat_leave"
  | PM6 p => String.eqb act (action p)
  | PRaw _ => String.eqb act "raw"
  end.

Definition validate_destructive_details (details : json) : result failure unit :=
  check (negb (negb (exact_fields details ["action"; "target"])
               || negb (is_string (jget details "action"))
               || negb (is_object (jget details "target"))))
        (Rejected "challenge: invalid destructive_confirmation details") ;;;
  match parse_destructive_plan (jget details "target") with
  | Err Thrown => Err Thrown
  | Err (Rejected _) => Err (Rejected "challenge: invalid destructive_confirmation target")
  | Ok plan =>
      check (action_matches (get_string (jget details "action")) plan)
            (Rejected "challenge: invalid destructive_confirmation target")
  end.

Definition delivery_types : list string :=
  ["telegram_message"; "sms"; "sms_word"; "sms_phrase"; "call"; "flash_call"; "missed_call";
   "fragment"; "firebase_android"; "firebase_ios"].

Definition validate_challenge_details (kind : ChallengeKind) (details : json) :
    result failure unit :=
  match kind with
  | AuthenticationCode =>
      check (negb (negb (exact_fields details ["delivery_type"; "expected_length";
                                               "resend_timeout"])
                   || negb (is_string (jget details "delivery_type"))
                   || (negb (is_null (jget details "expected_length"))
                       && negb (nonnegative_integer (jget details "expected_length") false))
                   || negb (nonnegative_integer (jget details "resend_timeout") false)))
            (Rejected "challenge: invalid authentication_code details") ;;;
      check (str_in (get_string (jget details "delivery_type")) delivery_types)
            (Rejected "challenge: unknown authentication_code delivery_type")
  | EmailCode =>
      check (negb (negb (exact_fields details ["address_pattern"; "expected_length"])
                   || negb (is_string (jget details "address_pattern"))
                   || negb (nonnegative_integer (jget details "expected_length") false)))
            (Rejected "challenge: invalid email_code details")
  | Password =>
      check (negb (negb (exact_fields details ["hint"; "has_recovery_email"; "has_passport_data";
                                               "recovery_email_pattern"])
                   || negb (is_string (jget details "hint"))
                   || negb (is_boolean (jget details "has_recovery_email"))
                   || negb (is_boolean (jget details "has_passport_data"))
                   || negb (is_string (jget details "recovery_email_pattern"))))
            (Rejected "challenge: invalid password details")
  | RegistrationTerms =>
      check (negb (negb (exact_fields details ["text"; "min_user_age"; "show_popup"])
                   || negb (is_string (jget details "text"))
                   || negb (nonnegative_integer (jget details "min_user_age") false)
                   || negb (is_boolean (jget details "show_popup"))))
            (Rejected "challenge: invalid registration_terms details")
  | DestructiveConfirmation => validate_destructive_details details
  | ApiId | ApiHash | DatabaseKey | PhoneNumber | EmailAddress | BotToken
  | RegistrationFirstName | RegistrationLastName =>
      check (negb (negb (is_object details) || negb (jempty details)))
            (Rejected "challenge: details must be empty for this kind")
  end.

Definition validate_challenge_payload (payload : json) : result failure unit :=
  check (exact_fields payload ["kind"; "nonce"; "sequence"; "client_generation";
                               "auth_sequence"; "secret"; "prompt"; "details"])
        (Rejected "challenge: payload must contain exactly the protocol fields") ;;;
  check (is_string (jget payload "kind")) (Rejected "challenge: kind must be a string") ;;;
  kind <- of_option (Rejected "challenge: unknown kind")
            (parse_challenge_kind (get_string (jget payload "kind"))) ;;
  check (valid_nonce (jget payload "nonce"))
        (Rejected "challenge: nonce must be 32 lowercase hexadecimal characters") ;;;
  check (nonnegative_integer (jget payload "sequence") true)
        (Rejected "challenge: sequence must be a positive integer") ;;;
  check (negb (negb (nullable_nonnegative_integer (jget payload "client_generation"))
               || negb (nullable_nonnegative_integer (jget payload "auth_sequence"))
               || negb (Bool.eqb (is_null (jget payload "client_generation"))
                                 (is_null (jget payload "auth_sequence")))))
        (Rejected "challenge: generation fields must be matching integers or null") ;;;
  check (negb (negb (eqb kind DestructiveConfirmation)
               && is_null (jget payload "client_generation")))
        (Rejected "challenge: authentication kinds require generation fields") ;;;
  check (negb (negb (is_boolean (jget payload "secret"))
               || negb (Bool.eqb (get_bool (jget payload "secret"))
                                 (challenge_kind_is_secret kind))))
        (Rejected "challenge: secret flag does not match kind") ;;;
  check (is_string (jget payload "prompt")) (Rejected "challenge: prompt must be a string") ;;;
  validate_challenge_details kind (jget payload "details").

Definition validate_answer_payload (payload : json) : result string unit :=
  check (negb (negb (is_object payload) || negb (Nat.eqb (jsize payload) 5)
               || negb (contains payload "nonce") || negb (contains payload "sequence")
               || negb (contains payload "client_generation")
               || negb (contains payload "auth_sequence")))
        "answer: payload must contain exactly identity fields and value or cancellation" ;;;
  let has_value := contains payload "value" in
  let has_cancelled := contains payload "cancelled" in
  check (negb (Bool.eqb has_value has_cancelled))
        "answer: exactly one of value or cancelled is required" ;;;
  check (negb (negb (valid_nonce (jget payload "nonce"))
               || negb (nonnegative_integer (jget payload "sequence") true)
               || negb (nullable_nonnegative_integer (jget payload "client_generation"))
               || negb (nullable_nonnegative_integer (jget payload "auth_sequence"))
               || negb (Bool.eqb (is_null (jget payload "client_generation"))
                                 (is_null (jget payload "auth_sequence")))))
        "answer: invalid challenge identity" ;;;
  if has_cancelled then
    check (negb (negb (is_boolean (jget payload "cancelled"))
                 || negb (get_bool (jget payload "cancelled"))))
          "answer: cancelled must be true"
  else
    check (negb (negb (is_string (jget payload "value")) && negb (is_boolean (jget payload "value"))))
          "answer: value must be a string or boolean".

(** * Write authority and idempotency *)

Definition authority_to_json (a : WriteAuthority) : json :=
  match a with
  | AuthorityGrant => JString "grant"
  | AuthorityDeny => JString "deny"
  | AuthorityUnset => JString "unset"
  end.

Definition authority_from_json (value : json) : option WriteAuthority :=
  match value with
  | JString s =>
      if String.eqb s "grant" then Some AuthorityGrant
      else if String.eqb s "deny" then Some AuthorityDeny
      else if String.eqb s "unset" then Some AuthorityUnset
      else None
  | _ => None
  end.

Inductive IdempotencyValidation := Valid | InvalidGrammar | DryRun | UnsupportedOperation.

Definition validate_idempotency (r : Request) : IdempotencyValidation :=
  match idempotency_key (context r) with
  | None => Valid
  | Some key =>
      if negb (valid_idempotency_key key) then InvalidGrammar
      else if dry_run (context r) then DryRun
      else match M3.m3_operation_for_command (command r) with
           | None => UnsupportedOperation
           | Some _ => Valid
           end
  end.

Definition idempotency_validation_error (v : IdempotencyValidation) : string :=
  match v with
  | Valid => EmptyString
  | InvalidGrammar => "request context: invalid 'idempotency_key'"
  | DryRun => "request context: 'idempotency_key' and 'dry_run' are mutually exclusive"
  | UnsupportedOperation =>
      "request context: 'idempotency_key' is unsupported for this command"
  end.

(** [reject_invalid_idempotency] of dispatch.cpp: the [reason] of the usage
    error it answers with, [None] when the request goes on. *)
Definition reject_invalid_idempotency (r : Request) : option string :=
  match idempotency_key (context r) with
  | None => None
  | Some key =>
      if negb (valid_idempotency_key key) then Some "invalid_argument"
      else if dry_run (context r) then Some "mutually_exclusive"
      else
        let m6_idempotent :=
          match M6.m6_operation_for_command (command r) with
          | Some o =>
              match M6.m6_operation_identity o with
              | Some ident => M6.idempotent ident
              | None => false
              end
          | None => false
          end in
        match M3.m3_operation_for_command (command r) with
        | Some _ => None
        | None => if m6_idempotent then None else Some "unsupported_mode"
        end
  end.

(** * Writing frames *)

Definition context_to_json (c : RequestContext) : json :=
  jobject [("tty", JBool (tty c)); ("json", JBool (cjson c)); ("yes", JBool (yes c));
           ("dry_run", JBool (dry_run c)); ("timeout", jopt JFloat (timeout_seconds c));
           ("cwd", JString (cwd c)); ("media_dir", jopt JString (media_dir c));
           ("write_authority", authority_to_json (write_authority c));
           ("idempotency_key", jopt JString (idempotency_key c))].

Definition request_to_json (r : Request) : json :=
  jobject [("type", JString "request"); ("id", JUnsigned (id r));
           ("account", JString (req_account r)); ("command", JArray (map JString (command r)));
           ("args", args r); ("context", context_to_json (context r))].

(** [FrameWriter::operator()(const Request&)]; [None] is the thrown
    [std::invalid_argument]. *)
Definition write_request (validate_request : bool) (f : Request) : option json :=
  let r := frozen f in
  if validate_request && negb (valid_account_name (req_account r)) then None
  else if validate_request
          && match validate_idempotency r with Valid => false | _ => true end then None
  else Some (request_to_json r).

Definition data_frame (type : string) (i : Z) (data : json) : json :=
  jobject [("type", JString type); ("id", JUnsigned i); ("data", data)].

(** [FrameWriter]. *)
Definition frame_to_json (validate_request : bool) (f : Frame) : option json :=
  match f with
  | FHello h =>
      Some (jobject [("type", JString "hello"); ("binary_version", JString (binary_version h));
                     ("protocol_version", JInteger (protocol_version h))])
  | FRequest r => write_request validate_request r
  | FResult i d => Some (data_frame "result" i d)
  | FRawResult _ _ => None
  | FItem i d => Some (data_frame "item" i d)
  | FProgress i d => Some (data_frame "progress" i d)
  | FError i code message details exit_code =>
      Some (jobject [("type", JString "error"); ("id", JUnsigned i);
                     ("error", jobject [("code", JString code); ("message", JString message);
                                        ("details", details)]);
                     ("exit_code", JInteger exit_code)])
  | FChallenge i c =>
      Some (jobject [("type", JString "challenge"); ("id", JUnsigned i); ("challenge", c)])
  | FAnswer a =>
      Some (jobject [("type", JString "answer"); ("id", JUnsigned (answer_id a));
                     ("answer", answer a)])
  end.

(** A quoted JSON string of plain characters. *)
Definition quote (s : string) : string := str1 dquote +++ s +++ str1 dquote.

Definition raw_prefix : string :=
  "{" +++ quote "type" +++ ":" +++ quote "raw_result" +++ "," +++ quote "id" +++ ":".
Definition raw_separator : string := "," +++ quote "data" +++ ":".

(** * Reading frames *)

(** [exit_code] and [protocol_version]: an integer in the range of [int]. *)
Definition int_field (v : option json) : option Z :=
  match v with
  | None => None
  | Some j =>
      if negb (is_number_integer j)
         || (is_number_unsigned j && (i32_max <? get_u64 j))
         || (is_number_integer j && negb (is_number_unsigned j)
             && ((get_i64 j <? i32_min) || (i32_max <? get_i64 j)))
      then None else Some (get_i64 j)
  end.

Definition parse_id (doc : json) : result failure Z :=
  match jfind doc "id" with
  | Some j =>
      if is_number_unsigned j then Ok (get_u64 j)
      else Err (Rejected "missing or non-unsigned-integer 'id'")
  | None => Err (Rejected "missing or non-unsigned-integer 'id'")
  end.

Definition string_field (doc : json) (name error : string) : result failure string :=
  match jfind doc name with
  | Some (JString s) => Ok s
  | _ => Err (Rejected error)
  end.

Definition parse_hello (doc : json) : result failure Frame :=
  check (exact_fields doc ["type"; "binary_version"; "protocol_version"])
        (Rejected "hello: frame must contain exactly the protocol fields") ;;;
  binary <- string_field doc "binary_version"
              "hello: missing or non-string 'binary_version'" ;;
  protocol <- of_option (Rejected "hello: missing or non-integer 'protocol_version'")
                (int_field (jfind doc "protocol_version")) ;;
  Ok (FHello {| binary_version := binary; protocol_version := protocol |}).

(** The elements of [command]. *)
Fixpoint string_list (items : list json) : option (list string) :=
  match items with
  | [] => Some []
  | JString s :: r => option_map (cons s) (string_list r)
  | _ :: _ => None
  end.

Definition bool_field (ctx : json) (name : string) : result failure bool :=
  match jfind ctx name with
  | Some (JBool b) => Ok b
  | _ => Err (Rejected ("request context: missing or non-boolean '" +++ name +++ "'"))
  end.

(** A member that is a string or null. *)
Definition nullable_string_field (ctx : json) (name error : string) :
    result failure (option string) :=
  match jfind ctx name with
  | Some (JString s) => Ok (Some s)
  | Some JNull => Ok None
  | _ => Err (Rejected error)
  end.

Definition parse_timeout (now : Z) (ctx : json) : result failure (option spec_float) :=
  match jfind ctx "timeout" with
  | Some j =>
      if is_null j then Ok None
      else if is_number j then
        match request_deadline (Some (get_double j)) Default60 now with
        | Some _ => Ok (Some (get_double j))
        | None => Err (Rejected
                    "request context: 'timeout' must be finite, positive, and representable")
        end
      else Err (Rejected "request context: 'timeout' must be a number or null")
  | None => Err (Rejected "request context: 'timeout' must be a number or null")
  end.

Definition parse_idempotency_key (ctx : json) : result failure (option string) :=
  key <- nullable_string_field ctx "idempotency_key"
           "request context: 'idempotency_key' must be a string or null" ;;
  match key with
  | None => Ok None
  | Some k =>
      check (valid_idempotency_key k) (Rejected "request context: invalid 'idempotency_key'") ;;;
      Ok (Some k)
  end.

Definition authority_error : string :=
  "request context: 'write_authority' must be one of " +++ quote "grant" +++ ", " +++ quote "deny"
  +++ ", " +++ quote "unset".

Definition context_fields : list string :=
  ["tty"; "json"; "yes"; "dry_run"; "timeout"; "cwd"; "media_dir"; "write_authority";
   "idempotency_key"].

Definition parse_context (now : Z) (ctx : json) : result failure RequestContext :=
  check (exact_fields ctx context_fields)
        (Rejected "request context: must contain exactly the protocol fields") ;;;
  t <- bool_field ctx "tty" ;;
  j <- bool_field ctx "json" ;;
  y <- bool_field ctx "yes" ;;
  d <- bool_field ctx "dry_run" ;;
  timeout <- parse_timeout now ctx ;;
  dir <- string_field ctx "cwd" "request context: missing or non-string 'cwd'" ;;
  media <- nullable_string_field ctx "media_dir"
             "request context: 'media_dir' must be a string or null" ;;
  authority <- (match jfind ctx "write_authority" with
                | None => Err (Rejected "request context: missing 'write_authority'")
                | Some a => of_option (Rejected authority_error) (authority_from_json a)
                end) ;;
  key <- parse_idempotency_key ctx ;;
  Ok {| tty := t; cjson := j; yes := y; dry_run := d; timeout_seconds := timeout; cwd := dir;
        media_dir := media; write_authority := authority; idempotency_key := key |}.

Definition parse_request (now : Z) (doc : json) : result failure Frame :=
  check (exact_fields doc ["type"; "id"; "account"; "command"; "args"; "context"])
        (Rejected "request: frame must contain exactly the protocol fields") ;;;
  i <- parse_id doc ;;
  acct <- string_field doc "account" "request: missing or non-string 'account'" ;;
  check (valid_account_name acct) (Rejected "request: invalid 'account'") ;;;
  items <- (match jfind doc "command" with
            | Some (JArray (x :: r)) => Ok (x :: r)
            | _ => Err (Rejected "request: 'command' must be a non-empty array")
            end) ;;
  cmd <- of_option (Rejected "request: 'command' elements must be strings")
           (string_list items) ;;
  a <- (match jfind doc "args" with
        | Some (JObject m) => Ok (JObject m)
        | _ => Err (Rejected "request: missing or non-object 'args'")
        end) ;;
  c <- (match jfind doc "context" with
        | Some (JObject m) => Ok (JObject m)
        | _ => Err (Rejected "request: missing or non-object 'context'")
        end) ;;
  ctx <- parse_context now c ;;
  let req := {| id := i; req_account := acct; command := cmd; args := a; context := ctx;
                source_bytes_ := 0; admitted_facts_ := None |} in
  match validate_idempotency req with
  | Valid => Ok (FRequest req)
  | v => Err (Rejected (idempotency_validation_error v))
  end.

(** [parse_data_frame<FrameT>]. *)
Definition parse_data_frame (make : Z -> json -> Frame) (payload_key : string) (doc : json) :
    result failure Frame :=
  i <- parse_id doc ;;
  payload <- of_option (Rejected ("missing '" +++ payload_key +++ "'")) (jfind doc payload_key) ;;
  Ok (make i payload).

Definition parse_challenge (doc : json) : result failure Frame :=
  i <- parse_id doc ;;
  payload <- of_option (Rejected "missing 'challenge'") (jfind doc "challenge") ;;
  validate_challenge_payload payload ;;;
  Ok (FChallenge i payload).

(** Also the answer stored through [invalid_answer]. *)
Definition parse_answer (doc : json) : result failure Frame * option Answer :=
  match parse_id doc with
  | Err e => (Err e, None)
  | Ok i =>
      match jfind doc "answer" with
      | None => (Err (Rejected "missing 'answer'"), None)
      | Some payload =>
          match validate_answer_payload payload with
          | Err e => (Err (Rejected e), Some {| answer_id := i; answer := payload |})
          | Ok _ => (Ok (FAnswer {| answer_id := i; answer := payload |}), None)
          end
      end
  end.

Definition parse_error (doc : json) : result failure Frame :=
  i <- parse_id doc ;;
  error_obj <- (match jfind doc "error" with
                | Some (JObject m) => Ok (JObject m)
                | _ => Err (Rejected "error: missing or non-object 'error'")
                end) ;;
  code <- string_field error_obj "code" "error: missing or non-string 'error.code'" ;;
  message <- string_field error_obj "message" "error: missing or non-string 'error.message'" ;;
  details <- (match jfind error_obj "details" with
              | Some (JObject m) => Ok (JObject m)
              | _ => Err (Rejected "error: missing or non-object 'error.details'")
              end) ;;
  exit_code <- of_option (Rejected "error: missing or non-integer 'exit_code'")
                 (int_field (jfind doc "exit_code")) ;;
  Ok (FError i code message details exit_code).

(** [Parser::run]. *)
Definition run_parser (now : Z) (doc : json) : result failure Frame * option Answer :=
  if negb (is_object doc) then (Err (Rejected "frame is not a JSON object"), None)
  else
    match jfind doc "type" with
    | Some (JString t) =>
        if String.eqb t "hello" then (parse_hello doc, None)
        else if String.eqb t "request" then (parse_request now doc, None)
        else if String.eqb t "result" then (parse_data_frame FResult "data" doc, None)
        else if String.eqb t "item" then (parse_data_frame FItem "data" doc, None)
        else if String.eqb t "progress" then (parse_data_frame FProgress "data" doc, None)
        else if String.eqb t "error" then (parse_error doc, None)
        else if String.eqb t "challenge" then (parse_challenge doc, None)
        else if String.eqb t "answer" then parse_answer doc
        else (Err (Rejected ("unknown frame type '" +++ t +++ "'")), None)
    | _ => (Err (Rejected "missing or non-string 'type'"), None)
    end.

(** [find(needle, 0)] on the rest of a line. *)
Fixpoint find_text (needle s : string) : option nat :=
  if starts_with s needle then Some O
  else match s with
       | EmptyString => None
       | String _ r => option_map S (find_text needle r)
       end.

(** [std::from_chars] into [std::uint64_t], required to consume the text. *)
Definition from_chars_u64 (text : string) : option Z :=
  if str_empty text then None
  else match decimal_value text with
       | Some n => if n <=? u64_max then Some n else None
       | None => None
       end.

Definition str_back (s : string) : option ascii := String.get (String.length s - 1) s.

Definition last_is (c : ascii) (s : string) : bool :=
  match str_back s with Some d => Ascii.eqb c d | None => false end.

Definition frame_too_long : string :=
  "frame exceeds " +++ to_string kMaximumRequestSourceBytes +++ " bytes".

Section Wire.
Variable json_parse : string -> option json.
Variable json_dump : json -> option string.

Definition serialize (f : Frame) : result failure string :=
  match f with
  | FRawResult i canonical =>
      Ok (raw_prefix +++ to_string i +++ raw_separator +++ canonical +++ "}")
  | _ =>
      match frame_to_json true f with
      | None => Err Thrown
      | Some document => of_option Thrown (json_dump document)
      end
  end.

Definition serialize_bounded (f : Frame) : result failure string :=
  serialized <- serialize f ;;
  check (negb (str_empty serialized || (kMaximumSerializedFrameBytes <? str_len serialized)))
        (Rejected frame_too_long) ;;;
  Ok serialized.

Definition admit_request_source (r : Request) : result failure Request :=
  let admitted := frozen r in
  if negb (source_bytes_ admitted =? 0) then
    if kMaximumRequestSourceBytes <? source_bytes_ admitted then Err (Rejected frame_too_long)
    else Ok admitted
  else
    match write_request false admitted with
    | None => Err Thrown
    | Some document =>
        source <- of_option Thrown (json_dump document) ;;
        check (negb (str_empty source || (kMaximumRequestSourceBytes <? str_len source)))
              (Rejected frame_too_long) ;;;
        Ok (set_source admitted (str_len source))
    end.

(** The canonical TD object inside a raw result. *)
Definition valid_td_object (canonical : string) : bool :=
  match json_parse canonical with
  | Some value =>
      is_object value && contains value "@type" && is_string (jget value "@type")
      && negb (contains value "@extra") && negb (contains value "@client_id")
  | None => false
  end.

Definition parse_raw_result (line : string) : result string Frame :=
  let rest := str_drop (String.length raw_prefix) line in
  match find_text raw_separator rest with
  | None => Err "raw_result: malformed canonical frame"
  | Some offset =>
      let separator := (String.length raw_prefix + offset)%nat in
      let canonical_begin := (separator + String.length raw_separator)%nat in
      check (negb (Nat.leb (String.length line) (canonical_begin + 1) || negb (last_is "}" line)))
            "raw_result: malformed canonical frame" ;;;
      let id_text := str_take offset rest in
      i <- of_option "raw_result: invalid id" (from_chars_u64 id_text) ;;
      check (negb ((i =? 0) || (Nat.ltb 1 (String.length id_text) && starts_with id_text "0")))
            "raw_result: invalid id" ;;;
      let canonical := str_take (String.length line - canonical_begin - 1)
                                (str_drop canonical_begin line) in
      check (valid_td_object canonical) "raw_result: invalid canonical TD object" ;;;
      Ok (FRawResult i canonical)
  end.

(** [parse]: the frame or the error, and the answer recovered through
    [invalid_answer]. *)
Definition parse (now : Z) (line : string) : result string Frame * option Answer :=
  if starts_with line raw_prefix then (parse_raw_result line, None)
  else
    match json_parse line with
    | None => (Err "invalid JSON", None)
    | Some doc =>
        let '(parsed, invalid) := run_parser now doc in
        (match parsed with
         | Ok (FRequest r) =>
             if str_empty line || (kMaximumRequestSourceBytes <? str_len line)
             then Err frame_too_long
             else Ok (FRequest (set_source r (str_len line)))
         | Ok f => Ok f
         | Err (Rejected e) => Err e
         | Err Thrown => Err "invalid frame value"
         end, invalid)
    end.

Definition parse_answer_candidate (line : string) : option Answer :=
  match json_parse line with
  | Some doc =>
      if is_object doc then
        match jfind doc "type", jfind doc "id", jfind doc "answer" with
        | Some t, Some i, Some a =>
            if eq_str t "answer" && is_number_unsigned i
            then Some {| answer_id := get_u64 i; answer := a |} else None
        | _, _, _ => None
        end
      else None
  | None => None
  end.
End Wire.

(** [write_frame] and [write_frame_until] of frame_io.cpp. *)
Definition write_frame (json_dump : json -> option string) (strerror : Z -> string)
    (deadline : option Z) (f : Frame) (script : list send_observation) :
    option (result failure unit * string) :=
  match serialize_bounded json_dump f with
  | Err e => Some (Err e, EmptyString)
  | Ok line =>
      match write_line strerror deadline line script with
      | None => None
      | Some (r, out) => Some (reported r, out)
      end
  end.
