(* ===== verification/FrameFacts.v ===== *)
(** Properties of the frame protocol (model in Frame.v). *)
From S2P Require Import Prelude DecimalText Json Paths Deadline Operation.
From S2P Require Import DestructivePlan FrameIo Frame.

(** * Documents *)

Lemma int_field_reparsed n :
  i32_min <= n <= i32_max -> int_field (Some (reparsed (JInteger n))) = Some n.
Proof.
  unfold i32_min, i32_max. intros H. cbn [reparsed]. destruct (0 <=? n) eqn:P; z_bool;
    unfold int_field; cbn [is_number_integer is_number_unsigned get_u64 get_i64 negb andb orb].
  - rewrite orb_false_r. unfold i32_max. destruct (_ <? n) eqn:E; [z_bool; lia|].
    rewrite i64_of_small by (unfold i64_min, i64_max; lia). reflexivity.
  - unfold i32_min, i32_max. destruct (n <? _) eqn:E; [z_bool; lia|].
    destruct (_ <? n) eqn:F; [z_bool; lia|]. reflexivity.
Qed.

Lemma string_list_map l : string_list (map reparsed (map JString l)) = Some l.
Proof. induction l as [|x l IH]; [reflexivity|]. cbn. now rewrite IH. Qed.

(** A timeout the peer accepts at its clock reading [now]. *)
Definition timeout_ok (now : Z) (t : option spec_float) : Prop :=
  match t with
  | None => True
  | Some x => exists d, request_deadline (Some x) Default60 now = Some d
  end.

(** The timeout as JSON carries it: infinities and NaN are printed as [null]. *)
Definition wire_timeout (t : option spec_float) : option spec_float :=
  match t with Some (S754_infinity _) | Some S754_nan => None | _ => t end.

Lemma timeout_reparsed t : reparsed (jopt JFloat t) = jopt JFloat (wire_timeout t).
Proof. destruct t as [[]|]; reflexivity. Qed.

Lemma parse_timeout_spec now ctx t :
  jfind ctx "timeout" = Some (reparsed (jopt JFloat t)) ->
  (timeout_ok now (wire_timeout t) -> parse_timeout now ctx = Ok (wire_timeout t)) /\
  (~ timeout_ok now (wire_timeout t) -> exists e, parse_timeout now ctx = Err e).
Proof.
  intros F. unfold parse_timeout. rewrite F, timeout_reparsed.
  destruct (wire_timeout t) as [x|]; cbn [timeout_ok jopt]; [|split; [reflexivity | contradiction]].
  cbn [is_null is_number get_double].
  destruct (request_deadline (Some x) Default60 now) as [d|]; split; eauto.
  - intros N. destruct N. eauto.
  - intros [d H]. discriminate H.
Qed.

Definition wire_context (c : RequestContext) : RequestContext :=
  {| tty := tty c; cjson := cjson c; yes := yes c; dry_run := dry_run c;
     timeout_seconds := wire_timeout (timeout_seconds c); cwd := cwd c; media_dir := media_dir c;
     write_authority := write_authority c; idempotency_key := idempotency_key c |}.

Definition key_ok (k : option string) : bool :=
  match k with Some s => valid_idempotency_key s | None => true end.

Lemma context_reparsed now c :
  key_ok (idempotency_key c) = true ->
  (timeout_ok now (wire_timeout (timeout_seconds c)) ->
   parse_context now (reparsed (context_to_json c)) = Ok (wire_context c)) /\
  (~ timeout_ok now (wire_timeout (timeout_seconds c)) ->
   exists e, parse_context now (reparsed (context_to_json c)) = Err e).
Proof.
  destruct c as [t j y d tm dir media auth key]. cbn [timeout_seconds idempotency_key].
  intros K. set (c := Build_RequestContext _ _ _ _ _ _ _ _ _).
  set (v := reparsed (context_to_json c)).
  assert (exact_fields v context_fields = true) as X by reflexivity.
  unfold parse_context. rewrite X. cbn [check bind].
  change (bool_field v "tty") with (@Ok failure bool t).
  change (bool_field v "json") with (@Ok failure bool j).
  change (bool_field v "yes") with (@Ok failure bool y).
  change (bool_field v "dry_run") with (@Ok failure bool d). cbn [bind].
  destruct (parse_timeout_spec now v tm eq_refl) as [Good Bad].
  split; intros T; [rewrite (Good T) | destruct (Bad T) as [e ->]; cbn; eauto]. cbn [bind].
  change (string_field v "cwd" _) with (@Ok failure string dir). cbn [bind].
  assert (forall e, nullable_string_field v "media_dir" e = Ok media) as M
    by (destruct media; reflexivity). rewrite M. cbn [bind].
  change (jfind v "write_authority") with (Some (reparsed (authority_to_json auth))).
  cbv beta iota.
  assert (authority_from_json (reparsed (authority_to_json auth)) = Some auth) as ->
    by (destruct auth; reflexivity). cbn [of_option bind].
  assert (parse_idempotency_key v = Ok key) as ->; [|reflexivity].
  unfold parse_idempotency_key. destruct key as [k|]; [|reflexivity].
  change (nullable_string_field v "idempotency_key" _) with (@Ok failure (option string) (Some k)).
  cbn [bind key_ok] in *. rewrite K. reflexivity.
Qed.

(** The request that arrives when [r] is written: the frozen sample, with its
    arguments printed and parsed. *)
Definition arriving (r : Request) : Request :=
  let f := frozen r in
  {| id := id f; req_account := req_account f; command := command f;
     args := reparsed (args f); context := wire_context (context f); source_bytes_ := 0;
     admitted_facts_ := None |}.

(** What the peer must be able to accept in a request. *)
Definition request_ok (now : Z) (r : Request) : Prop :=
  let f := frozen r in
  command f <> [] /\ is_object (args f) = true
  /\ timeout_ok now (wire_timeout (timeout_seconds (context f))).

Lemma validated_key r : validate_idempotency r = Valid -> key_ok (idempotency_key (context r)) = true.
Proof.
  unfold validate_idempotency, key_ok. destruct (idempotency_key (context r)) as [k|]; [|reflexivity].
  destruct (valid_idempotency_key k); [reflexivity | discriminate].
Qed.

Lemma validate_idempotency_ext r r' :
  context r' = wire_context (context r) -> command r = command r' ->
  validate_idempotency r = validate_idempotency r'.
Proof. unfold validate_idempotency. now intros -> ->. Qed.

Lemma write_request_some r doc :
  write_request true r = Some doc ->
  doc = request_to_json (frozen r) /\ valid_account_name (req_account (frozen r)) = true /\
  validate_idempotency (frozen r) = Valid.
Proof.
  unfold write_request. cbn [andb].
  destruct (valid_account_name _) eqn:V; cbn [negb]; [|discriminate].
  destruct (validate_idempotency (frozen r)); intros H; try discriminate H.
  injection H as <-. auto.
Qed.

Lemma request_reparsed now r doc :
  write_request true r = Some doc ->
  (request_ok now r -> parse_request now (reparsed doc) = Ok (FRequest (arriving r))) /\
  (~ request_ok now r -> exists e, parse_request now (reparsed doc) = Err e).
Proof.
  intros W. apply write_request_some in W as (-> & V & I).
  unfold arriving, request_ok. destruct (frozen r) as [i acct cmd a ctx sb af].
  cbn [id req_account command args context] in *.
  destruct (context_reparsed now ctx (validated_key _ I)) as [Good Bad].
  set (v := reparsed _).
  assert (exact_fields v ["type"; "id"; "account"; "command"; "args"; "context"] = true) as X
    by reflexivity.
  unfold parse_request. rewrite X. cbn [check bind].
  change (parse_id v) with (@Ok failure Z i).
  change (string_field v "account" _) with (@Ok failure string acct). cbn [bind].
  rewrite V. cbn [check bind].
  change (jfind v "command") with (Some (JArray (map reparsed (map JString cmd)))).
  destruct cmd as [|c0 cmd]; [split; [intros (C & _); congruence | cbn; eauto]|].
  cbn [map]. cbv iota beta. cbn [bind].
  change (JString c0 :: map reparsed (map JString cmd)) with (map reparsed (map JString (c0 :: cmd))).
  change (reparsed (JString c0) :: map reparsed (map JString cmd))
    with (map reparsed (map JString (c0 :: cmd))).
  rewrite string_list_map. cbn [of_option bind].
  change (jfind v "args") with (Some (reparsed a)).
  assert ((exists m, a = JObject m) \/ (is_object a = false
    /\ match reparsed a with JObject _ => False | _ => True end)) as [(m & ->)|[O NO]].
  { destruct a as [| | |n|f| | |m]; eauto; right; (split; [reflexivity|]); cbn; auto;
      [destruct (0 <=? n) | destruct f]; exact Logic.I. }
  2:{ split; [intros (_ & A & _); congruence|]. intros _. destruct (reparsed a); (contradiction || (cbn; eauto)). }
  cbn [reparsed]. cbv iota beta. cbn [bind].
  change (jfind v "context") with (Some (reparsed (context_to_json ctx))).
  assert (exists k, reparsed (context_to_json ctx) = JObject k) as [k E] by (eexists; reflexivity).
  rewrite E. cbv iota beta. cbn [bind]. rewrite <- E. split.
  - intros (_ & _ & T). rewrite (Good T). cbn [bind].
    assert (validate_idempotency (Build_Request i acct (c0 :: cmd)
      (JObject (map (fun kv => (fst kv, reparsed (snd kv))) m)) (wire_context ctx) 0 None) = Valid) as ->
      by (rewrite <- I; symmetry; now apply validate_idempotency_ext).
    reflexivity.
  - intros N. destruct Bad as [e ->]; [|cbn; eauto].
    intros T. apply N. split; [discriminate|]. split; [reflexivity | exact T].
Qed.

(** * Raw results *)

Lemma find_text_app c needle d r :
  str_find c d = None ->
  find_text (String c needle) (d +++ String c needle +++ r) = Some (String.length d).
Proof.
  induction d as [|x d IH]; intros H.
  - cbn [String.append]. change (String c (needle +++ r)) with (String c needle +++ r).
    destruct (String c needle +++ r) eqn:E; [discriminate|].
    cbn [find_text]. rewrite <- E, starts_with_app. reflexivity.
  - cbn [str_find] in H. destruct (Ascii.eqb c x) eqn:X; [discriminate|].
    destruct (str_find c d) eqn:F; [discriminate|].
    set (t := String c needle +++ r) in *. cbn [String.append find_text].
    unfold starts_with. cbn [String.prefix].
    destruct (ascii_dec c x) as [->|_]; [rewrite Ascii.eqb_refl in X; discriminate|].
    rewrite IH by reflexivity. reflexivity.
Qed.

Lemma last_is_app c a : last_is c (a +++ str1 c) = true.
Proof.
  unfold last_is, str_back. rewrite str_length_app. cbn [String.length str1].
  replace (String.length a + 1 - 1)%nat with (String.length a) by lia.
  assert (String.get (String.length a) (a +++ str1 c) = Some c) as ->; [|apply Ascii.eqb_refl].
  induction a; [reflexivity | exact IHa].
Qed.

Lemma digits_no_comma n : 0 <= n -> str_find "," (to_string n) = None.
Proof.
  intros H. apply str_find_none. apply (str_all_impl is_digit); [|now apply to_string_digits].
  intros [[] [] [] [] [] [] [] []]; vm_compute; congruence.
Qed.

(** The text of an id is accepted as it was written. *)
Lemma id_text_accepted i :
  0 <= i <= u64_max ->
  from_chars_u64 (to_string i) = Some i /\
  (Nat.ltb 1 (String.length (to_string i)) && starts_with (to_string i) "0")%bool = false.
Proof.
  intros R. pose proof (canonical_digits_to_string i ltac:(lia)) as C. split.
  - unfold from_chars_u64. rewrite decimal_value_to_string by lia.
    destruct (to_string i); [discriminate C|]. cbn [str_empty].
    destruct (i <=? u64_max) eqn:E; [reflexivity | z_bool; lia].
  - destruct (to_string i) as [|c r]; [discriminate C|]. cbn [canonical_digits] in C.
    apply orb_true_iff in C as [C|C].
    + unfold starts_with. cbn [String.prefix]. destruct (ascii_dec "0" c) as [<-|_];
        [discriminate C | apply andb_false_r].
    + apply str_empty_true in C as ->. reflexivity.
Qed.

Lemma raw_result_parses json_parse i canonical :
  0 <= i <= u64_max ->
  parse_raw_result json_parse
    (raw_prefix +++ to_string i +++ raw_separator +++ canonical +++ "}") =
  (check (negb (str_empty canonical)) "raw_result: malformed canonical frame" ;;;
   check (negb (i =? 0)) "raw_result: invalid id" ;;;
   check (valid_td_object json_parse canonical) "raw_result: invalid canonical TD object" ;;;
   Ok (FRawResult i canonical)).
Proof.
  intros R. set (line := raw_prefix +++ _). unfold parse_raw_result.
  assert (str_drop (String.length raw_prefix) line =
          to_string i +++ raw_separator +++ canonical +++ "}") as -> by apply str_drop_app.
  assert (find_text raw_separator (to_string i +++ raw_separator +++ canonical +++ "}") =
          Some (String.length (to_string i))) as ->
    by (apply (find_text_app ","); apply digits_no_comma; lia).
  rewrite str_take_app.
  destruct (id_text_accepted i R) as [F Z]. rewrite F, Z. cbn [of_option bind].
  set (b := (String.length raw_prefix + String.length (to_string i) + String.length raw_separator)%nat).
  assert (L : String.length line = (b + String.length canonical + 1)%nat).
  { unfold line, b. rewrite !str_length_app. cbn [String.length]. lia. }
  assert (D : str_drop b line = canonical +++ "}").
  { unfold b, line. rewrite <- !str_drop_drop, !str_drop_app. reflexivity. }
  assert (E : last_is "}" line = true).
  { unfold line. rewrite <- !str_app_assoc. apply last_is_app. }
  rewrite L, E, D. destruct canonical as [|c0 c].
  { cbn [String.length str_empty]. destruct (Nat.leb _ _) eqn:Le; [reflexivity | apply Nat.leb_gt in Le; lia]. }
  cbn [String.length]. destruct (Nat.leb _ _) eqn:Le; [apply Nat.leb_le in Le; lia|].
  cbn [negb orb check bind str_empty]. destruct (i =? 0) eqn:I0; [reflexivity|].
  cbn [negb orb check bind].
  replace (b + S (String.length c) + 1 - b - 1)%nat with (String.length (String c0 c))
    by (cbn [String.length]; lia).
  rewrite str_take_app. reflexivity.
Qed.

(** * Round trip of the wire *)

(** The ranges of the C++ types of the fields. *)
Definition typed (f : Frame) : Prop :=
  match f with
  | FHello h => i32_min <= protocol_version h <= i32_max
  | FRawResult i _ => 0 <= i <= u64_max
  | FError _ _ _ _ e => i32_min <= e <= i32_max
  | _ => True
  end.

(** What the receiver demands of a frame and the serializer does not check. *)
Definition receivable (json_parse : string -> option json) (now : Z) (f : Frame) : Prop :=
  match f with
  | FRequest r => request_ok now r
  | FRawResult i c => i <> 0 /\ str_empty c = false /\ valid_td_object json_parse c = true
  | FError _ _ _ d _ => is_object d = true
  | FChallenge _ c => validate_challenge_payload (reparsed c) = Ok tt
  | FAnswer a => validate_answer_payload (reparsed (answer a)) = Ok tt
  | FHello _ | FResult _ _ | FItem _ _ | FProgress _ _ => True
  end.

(** The frame that arrives: payloads printed and parsed, a request with the
    size of its source line and its sample. *)
Definition arriving_frame (line : string) (f : Frame) : Frame :=
  match f with
  | FRequest r => FRequest (set_source (arriving r) (str_len line))
  | FResult i d => FResult i (reparsed d)
  | FItem i d => FItem i (reparsed d)
  | FProgress i d => FProgress i (reparsed d)
  | FError i c m d e => FError i c m (reparsed d) e
  | FChallenge i c => FChallenge i (reparsed c)
  | FAnswer a => FAnswer {| answer_id := answer_id a; answer := reparsed (answer a) |}
  | FHello _ | FRawResult _ _ => f
  end.

Definition parsed_frame (f : Frame) : Frame :=
  match f with
  | FRequest r => FRequest (arriving r)
  | _ => arriving_frame EmptyString f
  end.

(** The document of an error frame with details that are no object. *)
Lemma error_reparsed now i c m d e :
  i32_min <= e <= i32_max ->
  let doc := jobject
    [("type", JString "error"); ("id", JUnsigned i);
     ("error", jobject [("code", JString c); ("message", JString m); ("details", d)]);
     ("exit_code", JInteger e)] in
  (is_object d = true ->
   run_parser now (reparsed doc) = (Ok (FError i c m (reparsed d) e), None)) /\
  (is_object d <> true -> exists x, fst (run_parser now (reparsed doc)) = Err x).
Proof.
  intros K doc. change (run_parser now (reparsed doc)) with (parse_error (reparsed doc), @None Answer).
  unfold parse_error.
  change (int_field (jfind (reparsed doc) "exit_code")) with (int_field (Some (reparsed (JInteger e)))).
  rewrite (int_field_reparsed e K). destruct d as [| | |n|f| | |l]; (split; [intros O | intros O]);
    try discriminate O; try reflexivity; try (now destruct O); try (eexists; reflexivity).
  - cbn. destruct (0 <=? n); eexists; reflexivity.
  - cbn. destruct f; eexists; reflexivity.
Qed.

(** Every frame but a raw result is parsed as it was, or rejected. *)
Lemma run_parser_reparsed json_parse now f doc :
  frame_to_json true f = Some doc -> typed f ->
  (receivable json_parse now f -> run_parser now (reparsed doc) = (Ok (parsed_frame f), None)) /\
  (~ receivable json_parse now f -> exists e, fst (run_parser now (reparsed doc)) = Err e).
Proof.
  destruct f as [[b v]|r|i d|i c|i d|i d|i c m d e|i c|[i a]]; cbn [frame_to_json receivable typed];
    intros H Ty; try discriminate H.
  - injection H as <-. cbn [protocol_version] in Ty. split; [intros _ | contradiction].
    change (run_parser now _) with (parse_hello (reparsed (jobject
      [("type", JString "hello"); ("binary_version", JString b); ("protocol_version", JInteger v)])),
      @None Answer). f_equal. unfold parse_hello.
    change (int_field (jfind _ "protocol_version")) with (int_field (Some (reparsed (JInteger v)))).
    rewrite (int_field_reparsed v Ty). reflexivity.
  - destruct (request_reparsed now r doc H) as [Good Bad].
    assert (run_parser now (reparsed doc) = (parse_request now (reparsed doc), None)) as ->
      by (apply write_request_some in H as (-> & _); reflexivity).
    split; intros K; [cbn [parsed_frame]; now rewrite (Good K) | exact (Bad K)].
  - injection H as <-. split; [reflexivity | contradiction].
  - injection H as <-. split; [reflexivity | contradiction].
  - injection H as <-. split; [reflexivity | contradiction].
  - injection H as <-. exact (error_reparsed now i c m d e Ty).
  - injection H as <-.
    change (run_parser now _) with
      ((validate_challenge_payload (reparsed c) ;;; Ok (FChallenge i (reparsed c))), @None Answer).
    destruct (validate_challenge_payload (reparsed c)) as [[]|x];
      (split; [intros K | intros K]); try discriminate K; try reflexivity; [now destruct K | eexists; reflexivity].
  - injection H as <-. cbn [answer].
    change (run_parser now _) with
      (match validate_answer_payload (reparsed a) with
       | Err e => (Err (Rejected e), Some {| answer_id := i; answer := reparsed a |})
       | Ok _ => (@Ok failure Frame (FAnswer {| answer_id := i; answer := reparsed a |}), None)
       end).
    destruct (validate_answer_payload (reparsed a)) as [[]|x];
      (split; [intros K | intros K]); try discriminate K; try reflexivity; [now destruct K | eexists; reflexivity].
Qed.

(** The document of every frame but a raw result has a first member other
    than [type], so its text cannot be taken for a raw result. *)
Definition first_key (f : Frame) : string :=
  match f with
  | FHello _ => "binary_version"
  | FRequest _ => "account"
  | FError _ _ _ _ _ => "error"
  | FChallenge _ _ => "challenge"
  | FAnswer _ => "answer"
  | _ => "data"
  end.

Lemma frame_first_key f doc :
  frame_to_json true f = Some doc ->
  exists v m, doc = JObject ((first_key f, v) :: m).
Proof.
  destruct f; cbn [frame_to_json]; intros H; try discriminate H;
    try (injection H as <-; do 2 eexists; reflexivity).
  apply write_request_some in H as (-> & _). do 2 eexists. reflexivity.
Qed.

Lemma not_raw f line :
  starts_with line ("{" +++ quote (first_key f) +++ ":") = true ->
  starts_with line raw_prefix = false.
Proof. intros H. apply starts_with_spec in H as [r ->]. destruct f; reflexivity. Qed.

Section Wire.
Variable json_parse : string -> option json.
Variable json_dump : json -> option string.

(** The JSON library prints what it reads back... *)
Hypothesis dump_parse : forall d s, json_dump d = Some s -> json_parse s = Some (reparsed d).
(** ... compactly, with the members of an object in order. *)
Hypothesis dump_object : forall k v m s,
  str_all is_lower k = true \/ k = "binary_version" ->
  json_dump (JObject ((k, v) :: m)) = Some s ->
  starts_with s ("{" +++ quote k +++ ":") = true.

Lemma serialized_form f line :
  serialize json_dump f = Ok line ->
  (exists i c, f = FRawResult i c) \/
  exists doc, frame_to_json true f = Some doc /\ json_dump doc = Some line.
Proof.
  intros E. unfold serialize in E. destruct f; eauto; right;
    (destruct (frame_to_json true _) as [doc|] eqn:W; [|discriminate E]);
    exists doc; (split; [reflexivity|]); destruct (json_dump doc); cbn in E; congruence.
Qed.

Lemma frame_roundtrip_wire now f line :
  serialize_bounded json_dump f = Ok line -> typed f ->
  (receivable json_parse now f -> parse json_parse now line = (Ok (arriving_frame line f), None)) /\
  (~ receivable json_parse now f -> exists e, fst (parse json_parse now line) = Err e).
Proof.
  unfold serialize_bounded. intros H Ty. inv_bind H. rewrite check_seq in H.
  destruct H as [B H]. injection H as ->. apply negb_true_iff in B.
  unfold parse. destruct (serialized_form f line E) as [(i & c & ->)|(doc & W & D)].
  - unfold serialize in E. apply ok_inj in E. rewrite <- E, starts_with_app.
    rewrite (raw_result_parses json_parse i c Ty). cbn [receivable fst].
    destruct (str_empty c); cbn [negb check bind]; [split; [intros (_ & X & _); discriminate | eauto]|].
    destruct (Z.eqb_spec i 0) as [->|N]; cbn [negb check bind]; [split; [intros (X & _); congruence | eauto]|].
    destruct (valid_td_object json_parse c); cbn [check bind];
      [split; [reflexivity | intros X; destruct X; auto] | split; [intros (_ & _ & X); discriminate | eauto]].
  - destruct (frame_first_key f doc W) as (v & m & ->).
    rewrite (not_raw f line) by (eapply dump_object; [destruct f; auto | exact D]).
    rewrite (dump_parse _ _ D). destruct (run_parser_reparsed json_parse now f _ W Ty) as [Good Bad].
    split; intros K.
    + rewrite (Good K). destruct f; try reflexivity. cbn [parsed_frame arriving_frame].
      unfold kMaximumRequestSourceBytes. rewrite B. reflexivity.
    + destruct (Bad K) as [e X]. destruct (run_parser _ _) as [p a]. cbn [fst] in X. subst p.
      destruct e; cbn; eauto.
Qed.
End Wire.

(** C25.  The wire is lossless or loud.  Of a frame that is serialized within the
    size limit (its integers in the ranges of their C++ types), the receiver makes
    the same frame when it is receivable, and an error otherwise: never another
    frame.  Receivable is what the receiver checks and the serializer does not: a
    request has a command, an object of arguments and an acceptable timeout; a raw
    result has a positive id and a TD object; the details of an error are an
    object; challenge and answer payloads are valid; every other frame is
    receivable.  The same frame means: JSON payloads as a JSON round trip leaves
    them (in particular a non-finite timeout arrives as none), and a request with
    the exact size of its source line and an immutable sample of itself.  The
    hypotheses are that the JSON library parses what it prints, and prints an
    object with its first member first. *)
Theorem frame_roundtrip json_parse json_dump now f line :
  (forall d s, json_dump d = Some s -> json_parse s = Some (reparsed d)) ->
  (forall k v m s, str_all is_lower k = true \/ k = "binary_version" ->
     json_dump (JObject ((k, v) :: m)) = Some s ->
     starts_with s ("{" +++ quote k +++ ":") = true) ->
  serialize_bounded json_dump f = Ok line -> typed f ->
  (receivable json_parse now f -> parse json_parse now line = (Ok (arriving_frame line f), None)) /\
  (~ receivable json_parse now f -> exists e, fst (parse json_parse now line) = Err e).
Proof. intros D O. now apply frame_roundtrip_wire. Qed.

(** A printer of one document, for evaluation. *)
Definition sample_request : Request :=
  {| id := 7; req_account := "main"; command := ["chat"; "mark-read"]; args := JObject [];
     context := {| tty := true; cjson := false; yes := false; dry_run := false;
                   timeout_seconds := Some (S754_finite false 5 0); cwd := "/";
                   media_dir := None; write_authority := AuthorityGrant;
                   idempotency_key := Some "job:1" |};
     source_bytes_ := 0; admitted_facts_ := None |}.

Definition sample_line : string :=
  "{" +++ quote "account" +++ ":" +++ quote "main" +++ "," +++ quote "args" +++ ":{},"
  +++ quote "command" +++ ":[" +++ quote "chat" +++ "," +++ quote "mark-read" +++ "],"
  +++ quote "context" +++ ":{" +++ quote "cwd" +++ ":" +++ quote "/" +++ ","
  +++ quote "dry_run" +++ ":false," +++ quote "idempotency_key" +++ ":" +++ quote "job:1" +++ ","
  +++ quote "json" +++ ":false," +++ quote "media_dir" +++ ":null," +++ quote "timeout" +++ ":5.0,"
  +++ quote "tty" +++ ":true," +++ quote "write_authority" +++ ":" +++ quote "grant" +++ ","
  +++ quote "yes" +++ ":false}," +++ quote "id" +++ ":7," +++ quote "type" +++ ":"
  +++ quote "request" +++ "}".

Definition sample_document : json := request_to_json sample_request.
Definition sample_parse (s : string) : option json :=
  if String.eqb s sample_line then Some (reparsed sample_document) else None.
Definition sample_dump (d : json) : option string :=
  if eqb d sample_document then Some sample_line else None.

Lemma frame_roundtrip_witness :
  serialize_bounded sample_dump (FRequest sample_request) = Ok sample_line /\
  parse sample_parse 0 sample_line =
    (Ok (FRequest (set_source sample_request (str_len sample_line))), None).
Proof.
  assert (S : serialize_bounded sample_dump (FRequest sample_request) = Ok sample_line)
    by (vm_compute; reflexivity).
  split; [exact S|].
  refine (proj1 (frame_roundtrip sample_parse sample_dump 0 (FRequest sample_request) sample_line
            _ _ S Logic.I) _).
  - intros d s H. unfold sample_dump in H. destruct (eqb d sample_document) eqn:E; [|discriminate].
    apply eqb_eq in E as ->. injection H as <-. unfold sample_parse.
    now rewrite String.eqb_refl.
  - intros k v m s _ H. unfold sample_dump in H.
    destruct (eqb _ sample_document) eqn:E; [|discriminate]. apply eqb_eq in E. injection H as <-.
    injection E as -> _ _. reflexivity.
  - split; [discriminate | split; [reflexivity|]]. eexists. vm_compute. reflexivity.
Defined.

(** * Admission of requests *)

Lemma parse_request_inv now doc f :
  parse_request now doc = Ok f ->
  exists r, f = FRequest r /\ valid_account_name (req_account r) = true /\ command r <> [] /\
    is_object (args r) = true /\ validate_idempotency r = Valid /\ admitted_facts_ r = None /\
    (forall x, timeout_seconds (context r) = Some x ->
       exists d, request_deadline (Some x) Default60 now = Some d).
Proof.
  unfold parse_request. rewrite check_seq. intros [_ H].
  inv_bind H. inv_bind H. rewrite check_seq in H. destruct H as [V H].
  inv_bind H. inv_bind H. inv_bind H. inv_bind H. inv_bind H.
  match type of H with context [validate_idempotency ?q] => set (r := q) in * end.
  destruct (validate_idempotency r) eqn:I; try discriminate H. injection H as <-.
  exists r. cbn [r req_account command args context admitted_facts_] in *.
  split; [reflexivity|]. split; [exact V|]. split; [|split; [|split; [exact I | split; [reflexivity|]]]].
  - destruct (jfind doc "command") as [[| | | | | |[|x items]|]|]; try discriminate E1.
    injection E1 as <-. cbn [string_list] in E2. destruct x; try discriminate E2.
    destruct (string_list items); [|discriminate E2]. injection E2 as <-. discriminate.
  - destruct (jfind doc "args") as [[| | | | | | |m]|]; try discriminate E3. now injection E3 as <-.
  - intros x Ex. unfold parse_context in E5. rewrite check_seq in E5. destruct E5 as [_ E5].
    do 9 inv_bind E5. injection E5 as <-. cbn [timeout_seconds] in Ex. subst.
    match goal with T : parse_timeout _ _ = _ |- _ => unfold parse_timeout in T;
      destruct (jfind _ "timeout") as [j|] in T; [|discriminate T];
      destruct (is_null j) in T; [discriminate T|]; destruct (is_number j) in T; [|discriminate T];
      destruct (request_deadline (Some (get_double j)) Default60 now) as [d|] eqn:R; [|discriminate T];
      injection T as <- end.
    eauto.
Qed.

(** Only well-formed requests are admitted: a line that parses as a
    request has a valid account, a non-empty command, an object of
    arguments, a timeout that is absent or representable at the receiver's
    clock, an idempotency key only where the protocol allows one, a size
    within the frame limit, and a frozen sample equal to the request
    itself. *)
Theorem parsed_request_wellformed json_parse now line r inv :
  parse json_parse now line = (Ok (FRequest r), inv) ->
  valid_account_name (req_account r) = true /\ command r <> [] /\ is_object (args r) = true /\
  validate_idempotency r = Valid /\
  (forall x, timeout_seconds (context r) = Some x ->
     exists d, request_deadline (Some x) Default60 now = Some d) /\
  source_bytes_ r = str_len line /\ 1 <= str_len line <= kMaximumRequestSourceBytes /\
  frozen r = r.
Proof.
  unfold parse. destruct (starts_with line raw_prefix).
  { intros H. apply (f_equal fst) in H. cbn [fst] in H. unfold parse_raw_result in H.
    destruct (find_text _ _); [|discriminate H]. rewrite check_seq in H. destruct H as [_ H].
    inv_bind H. rewrite !check_seq in H. destruct H as (_ & _ & H). discriminate H. }
  destruct (json_parse line) as [doc|]; [|discriminate].
  destruct (run_parser now doc) as [p i] eqn:P. intros H. apply (f_equal fst) in H. cbn [fst] in H.
  destruct p as [f|[]]; try discriminate H.
  destruct f as [| r0 | | | | | | |]; try discriminate H.
  destruct (_ || _) eqn:B; [discriminate H|]. injection H as <-.
  assert (parse_request now doc = Ok (FRequest r0)) as Q.
  { unfold run_parser in P. destruct (negb (is_object doc)); [discriminate P|].
    destruct (jfind doc "type") as [[| | | | |t| |]|]; try discriminate P.
    destruct (String.eqb t "hello");
      [injection P as P _; unfold parse_hello in P; rewrite check_seq in P;
       destruct P as [_ P]; do 2 inv_bind P; discriminate P|].
    destruct (String.eqb t "request"); [congruence|].
    do 3 (destruct (String.eqb t _);
      [injection P as P _; unfold parse_data_frame in P; do 2 inv_bind P; discriminate P|]).
    destruct (String.eqb t "error");
      [injection P as P _; unfold parse_error in P; do 6 inv_bind P; discriminate P|].
    destruct (String.eqb t "challenge");
      [injection P as P _; unfold parse_challenge in P; do 3 inv_bind P; discriminate P|].
    destruct (String.eqb t "answer"); [|discriminate P]. unfold parse_answer in P.
    destruct (parse_id doc); [|discriminate P]. destruct (jfind doc "answer"); [|discriminate P].
    destruct (validate_answer_payload j); discriminate P. }
  apply parse_request_inv in Q as (r1 & E & V & C & A & I & _ & T). injection E as <-.
  apply orb_false_iff in B as [B0 B1]. z_bool.
  cbn [set_source req_account command args context source_bytes_].
  assert (1 <= str_len line) by (destruct line; [discriminate | unfold str_len; cbn [String.length]; lia]).
  repeat split; auto.
Qed.

Lemma parsed_request_wellformed_witness :
  exists r, parse sample_parse 0 sample_line = (Ok (FRequest r), None) /\ frozen r = r.
Proof.
  exists (set_source sample_request (str_len sample_line)).
  assert (E : parse sample_parse 0 sample_line =
    (Ok (FRequest (set_source sample_request (str_len sample_line))), None))
    by (vm_compute; reflexivity).
  split; [exact E|].
  pose proof (parsed_request_wellformed sample_parse 0 sample_line _ None E) as W. tauto.
Defined.

Lemma frozen_set_source r n : frozen (set_source r n) = set_source r n.
Proof. reflexivity. Qed.

(** Both requests carry the same admitted sample. *)
Definition same_sample (r r' : Request) : Prop :=
  admitted_facts_ r <> None /\ admitted_facts_ r' = admitted_facts_ r.

Lemma same_sample_frozen r r' : same_sample r r' -> frozen r' = frozen r.
Proof. intros [N E]. unfold frozen. rewrite E. destruct (admitted_facts_ r); congruence. Qed.

Lemma admitted_sample json_dump r a :
  admit_request_source json_dump r = Ok a ->
  source_bytes_ (frozen r) <> 0 /\ a = frozen r \/
  (exists n, a = set_source (frozen r) n /\ 1 <= n <= kMaximumRequestSourceBytes).
Proof.
  unfold admit_request_source. destruct (source_bytes_ (frozen r) =? 0) eqn:Z; cbn [negb].
  - destruct (write_request false (frozen r)); [|discriminate]. intros H. inv_bind H.
    rewrite check_seq in H. destruct H as [B H]. apply negb_true_iff, orb_false_iff in B as [B0 B1].
    injection H as <-. right. z_bool. eexists. split; [reflexivity|].
    destruct a0; [discriminate|]. unfold str_len in *. cbn [String.length] in *. lia.
  - z_bool. destruct (_ <? _); [discriminate|]. intros H. injection H as <-. auto.
Qed.

(** Admission freezes a request: admitting an admitted request again
    changes nothing, and whatever is later written into the public fields of
    a copy, the bytes that are serialized and the result of admitting it are
    those of the admitted sample. *)
Theorem admitted_request_immutable json_dump r a :
  admitted_facts_ r = None -> source_bytes_ r = 0 ->
  admit_request_source json_dump r = Ok a ->
  admit_request_source json_dump a = Ok a /\
  forall tampered, same_sample a tampered ->
    admit_request_source json_dump tampered = Ok a /\
    serialize json_dump (FRequest tampered) = serialize json_dump (FRequest a).
Proof.
  intros F0 S0 H. apply admitted_sample in H. assert (frozen r = r) as Fr
    by (unfold frozen; now rewrite F0). rewrite Fr in H.
  destruct H as [[N _]|(n & -> & R)]; [contradiction|].
  assert (A : admit_request_source json_dump (set_source r n) = Ok (set_source r n)).
  { unfold admit_request_source. rewrite frozen_set_source. cbn [source_bytes_ set_source].
    destruct (n =? 0) eqn:Z; z_bool; [lia|]. cbn [negb].
    destruct (_ <? n) eqn:L; z_bool; [lia | reflexivity]. }
  split; [exact A|]. intros t S. apply same_sample_frozen in S. split.
  - rewrite <- A. unfold admit_request_source. now rewrite S.
  - unfold serialize. cbn [frame_to_json]. unfold write_request. now rewrite S.
Qed.

Lemma admitted_request_immutable_witness :
  let a := set_source sample_request (str_len sample_line) in
  admit_request_source sample_dump sample_request = Ok a /\
  admit_request_source sample_dump a = Ok a.
Proof.
  intros a. assert (E : admit_request_source sample_dump sample_request = Ok a)
    by (vm_compute; reflexivity).
  split; [exact E|].
  exact (proj1 (admitted_request_immutable sample_dump sample_request a eq_refl eq_refl E)).
Defined.

(** * Idempotency admission in two places *)

(** An M6 operation that its identity marks idempotent. *)
Definition m6_idempotent_command (cmd : list string) : bool :=
  match M6.m6_operation_for_command cmd with
  | Some o =>
      match M6.m6_operation_identity o with Some i => M6.idempotent i | None => false end
  | None => false
  end.

(** The two idempotency checks of the daemon compared: every request
    the frame layer lets through passes the dispatcher, and the dispatcher
    accepts a request the frame layer rejects exactly when it carries a
    well-formed key, is not a dry run, and names an idempotent M6 mutation.
    Such a request can therefore only be issued in process: over the socket
    its serialization throws. *)
Theorem idempotency_checks_compared r :
  (validate_idempotency r = Valid -> reject_invalid_idempotency r = None) /\
  (validate_idempotency r <> Valid /\ reject_invalid_idempotency r = None <->
   (exists k, idempotency_key (context r) = Some k /\ valid_idempotency_key k = true) /\
   dry_run (context r) = false /\ M3.m3_operation_for_command (command r) = None /\
   m6_idempotent_command (command r) = true).
Proof.
  unfold validate_idempotency, reject_invalid_idempotency, m6_idempotent_command.
  destruct (idempotency_key (context r)) as [k|];
    [|split; [reflexivity|]; split; [intros [H _]; congruence | intros ((k & H & _) & _); discriminate]].
  destruct (valid_idempotency_key k) eqn:V; cbn [negb];
    [|split; [discriminate|]; split; [intros [_ H]; discriminate |
        intros ((k' & H & V') & _); injection H as <-; congruence]].
  destruct (dry_run (context r));
    [split; [discriminate|]; split; [intros [_ H]; discriminate | intros (_ & H & _); discriminate]|].
  destruct (M3.m3_operation_for_command (command r));
    [split; [reflexivity|]; split; [intros [H _]; congruence | intros (_ & _ & H & _); discriminate]|].
  set (m := match M6.m6_operation_for_command (command r) with Some _ => _ | None => false end).
  split; [discriminate|]. split.
  - intros [_ H]. destruct m; [|discriminate]. repeat split; eauto.
  - intros (_ & _ & _ & ->). split; [discriminate | reflexivity].
Qed.

Definition m6_request : Request :=
  {| id := 1; req_account := "main"; command := ["contact"; "add"]; args := JObject [];
     context := {| tty := false; cjson := true; yes := false; dry_run := false;
                   timeout_seconds := None; cwd := "/"; media_dir := None;
                   write_authority := AuthorityGrant; idempotency_key := Some "k1" |};
     source_bytes_ := 0; admitted_facts_ := None |}.

(** The divergence on a concrete request. *)
Theorem m6_idempotency_key_not_serializable json_dump :
  M6.m6_operation_for_command (command m6_request) = Some M6.ContactAdd /\
  reject_invalid_idempotency m6_request = None /\
  serialize json_dump (FRequest m6_request) = Err Thrown.
Proof. repeat split; vm_compute; reflexivity. Qed.

(** * Malformed answers *)

(** A malformed answer is never lost: when parsing a line fails but
    recovers an answer for the protocol error, the independent recovery from
    the same line finds the same request id and payload. *)
Theorem invalid_answer_recovered json_parse now line r a :
  parse json_parse now line = (r, Some a) ->
  (exists e, r = Err e) /\ parse_answer_candidate json_parse line = Some a.
Proof.
  unfold parse, parse_answer_candidate. destruct (starts_with line raw_prefix); [discriminate|].
  destruct (json_parse line) as [doc|]; [|discriminate].
  destruct (run_parser now doc) as [p i] eqn:P. intros H. injection H as <- ->.
  unfold run_parser in P. destruct (is_object doc) eqn:O; [|discriminate P]. cbn [negb] in P.
  destruct (jfind doc "type") as [[| | | | |t| |]|]; try discriminate P.
  do 7 (destruct (String.eqb t _); [discriminate P|]).
  destruct (String.eqb t "answer") eqn:T; [|discriminate P]. unfold parse_answer, parse_id in P.
  destruct (jfind doc "id") as [i|]; [|discriminate P].
  destruct (is_number_unsigned i) eqn:U; [|discriminate P].
  destruct (jfind doc "answer") as [payload|]; [|discriminate P].
  destruct (validate_answer_payload payload) as [u|e]; [discriminate P|].
  injection P as <- <-. split; [eauto|]. cbn [eq_str]. rewrite T. reflexivity.
Qed.

Lemma invalid_answer_recovered_witness :
  let doc := JObject [("answer", JNull); ("id", JUnsigned 4); ("type", JString "answer")] in
  parse (fun _ => Some doc) 0 "x" =
    (Err "answer: payload must contain exactly identity fields and value or cancellation",
     Some {| answer_id := 4; answer := JNull |}) /\
  parse_answer_candidate (fun _ => Some doc) "x" = Some {| answer_id := 4; answer := JNull |}.
Proof.
  intros doc. assert (E : parse (fun _ => Some doc) 0 "x" =
    (Err "answer: payload must contain exactly identity fields and value or cancellation",
     Some {| answer_id := 4; answer := JNull |})) by (vm_compute; reflexivity).
  split; [exact E|]. exact (proj2 (invalid_answer_recovered _ _ _ _ _ E)).
Defined.

(** * The result budget *)

(** The compact text of a result frame: the members in key order. *)
Definition result_text (i : Z) (payload : string) : string :=
  "{" +++ quote "data" +++ ":" +++ payload +++ "," +++ quote "id" +++ ":" +++ to_string i +++ ","
  +++ quote "type" +++ ":" +++ quote "result" +++ "}".

Lemma result_text_len i payload :
  0 <= i <= u64_max -> str_len (result_text i payload) = 31 + decimal_digits i + str_len payload.
Proof.
  intros R. unfold result_text. rewrite !str_len_app, <- (decimal_digits_len i R).
  change (str_len (quote "data")) with 6. change (str_len (quote "id")) with 4.
  change (str_len (quote "type")) with 6. change (str_len (quote "result")) with 8.
  change (str_len "{") with 1. change (str_len ":") with 1. change (str_len ",") with 1.
  change (str_len "}") with 1. lia.
Qed.

(** The payload budget is exact: for a compact JSON printer, a result
    frame is accepted for transport if and only if the text of its payload
    is no longer than [maximum_result_payload_bytes] of its request id, and
    [kMinimumResultPayloadBytes] is within the budget of every request. *)
Theorem result_budget_exact json_dump i data payload :
  (json_dump data = Some payload ->
   json_dump (data_frame "result" i data) = Some (result_text i payload)) ->
  0 <= i <= u64_max -> json_dump data = Some payload ->
  (serialize_bounded json_dump (FResult i data) = Ok (result_text i payload) <->
   str_len payload <= maximum_result_payload_bytes i) /\
  kMinimumResultPayloadBytes <= maximum_result_payload_bytes i.
Proof.
  intros C R D. pose proof (decimal_digits_range i R) as DR.
  assert (M : maximum_result_payload_bytes i = 16842751 - 31 - decimal_digits i)
    by (unfold maximum_result_payload_bytes, kMaximumSerializedFrameBytes;
        apply u64_small; unfold u64_max; lia).
  assert (N : kMinimumResultPayloadBytes = 16842700) by reflexivity.
  split; [|lia]. unfold serialize_bounded, serialize. cbn [frame_to_json].
  rewrite (C D). cbn [of_option bind]. rewrite check_seq.
  pose proof (result_text_len i payload R) as L. unfold kMaximumSerializedFrameBytes.
  assert (E : str_empty (result_text i payload) = false) by reflexivity. rewrite E.
  cbn [orb]. destruct (_ <? _) eqn:B; z_bool; cbn [negb]; split; intros H.
  - destruct H. discriminate.
  - lia.
  - lia.
  - auto.
Qed.

Definition budget_dump (d : json) : option string :=
  if eqb d JNull then Some "null"
  else if eqb d (data_frame "result" 5 JNull) then Some (result_text 5 "null")
  else None.

Lemma result_budget_exact_witness :
  str_len "null" <= maximum_result_payload_bytes 5 /\
  ((serialize_bounded budget_dump (FResult 5 JNull) = Ok (result_text 5 "null") <->
    str_len "null" <= maximum_result_payload_bytes 5) /\
   kMinimumResultPayloadBytes <= maximum_result_payload_bytes 5).
Proof.
  split; [vm_compute; discriminate|].
  refine (result_budget_exact budget_dump 5 JNull "null" _ _ eq_refl); [|unfold u64_max; lia].
  intros _. vm_compute. reflexivity.
Defined.
