(* ===== verification/ActivityTracker.v ===== *)
(** The idle-exit tracker of the daemon (src/src/daemon/activity_tracker.cpp,
    .hpp).

    Every operation runs under the tracker's mutex, so an execution is a
    sequence of operations.  The clock reading of an operation is its argument
    [now] (signed 64-bit nanoseconds).  The counters are natural numbers: they
    count token objects that exist, and cannot reach the width of
    [std::size_t].  [revision] wraps at 64 bits. *)
From S2P Require Import Prelude.

Inductive Kind := KRequest | KSubscription.

#[export] Instance Kind_eq_dec : EqDec Kind.
Proof. intros [] []; (left; reflexivity) || (right; discriminate). Defined.

(** Seconds. *)
Definition IdleExit := option Z.

Record State := {
  revision : Z;
  ready : bool;
  expired : bool;
  callback_claimed : bool;
  requests : nat;
  subscriptions : nat;
  idle_exit : IdleExit;
  zero_since : option Z;
  deadline : option Z
}.

Definition initial : State :=
  {| revision := 0; ready := false; expired := false; callback_claimed := false;
     requests := 0; subscriptions := 0; idle_exit := None; zero_since := None;
     deadline := None |}.

(** [duration_cast<seconds>(Clock::duration::max())]. *)
Definition maximum_seconds : Z := Z.quot i64_max 1000000000.

Definition idle_deadline (zero : option Z) (policy : IdleExit) : option Z :=
  match zero, policy with
  | Some z, Some p =>
      if maximum_seconds <? p then Some i64_max
      else
        let duration := p * 1000000000 in
        if i64_max - duration <? z then Some i64_max else Some (z + duration)
  | _, _ => None
  end.

(** State updates of the handlers. *)
Definition set_idle (s : State) (policy : IdleExit) (zero : option Z) : State :=
  {| revision := revision s; ready := ready s; expired := expired s;
     callback_claimed := callback_claimed s; requests := requests s;
     subscriptions := subscriptions s; idle_exit := policy; zero_since := zero;
     deadline := idle_deadline zero policy |}.

Definition set_counts (s : State) (r k : nat) : State :=
  {| revision := revision s; ready := ready s; expired := expired s;
     callback_claimed := callback_claimed s; requests := r; subscriptions := k;
     idle_exit := idle_exit s; zero_since := zero_since s; deadline := deadline s |}.

Definition bump (s : State) : State :=
  {| revision := u64 (revision s + 1); ready := ready s; expired := expired s;
     callback_claimed := callback_claimed s; requests := requests s;
     subscriptions := subscriptions s; idle_exit := idle_exit s; zero_since := zero_since s;
     deadline := deadline s |}.

Definition idle_now (s : State) : bool := Nat.eqb (requests s) 0 && Nat.eqb (subscriptions s) 0.

(** [claim_expiry_locked]: whether expiry was claimed, and whether the
    callback was taken. *)
Definition claim_expiry_locked (current_time : Z) (s : State) : bool * bool * State :=
  match deadline s with
  | Some d =>
      if negb (ready s) || expired s || negb (idle_now s) || (current_time <? d)
      then (false, false, s)
      else
        (true, negb (callback_claimed s),
         {| revision := revision s; ready := ready s; expired := true; callback_claimed := true;
            requests := requests s; subscriptions := subscriptions s;
            idle_exit := idle_exit s; zero_since := zero_since s; deadline := deadline s |})
  | None => (false, false, s)
  end.

(** The counter of the released kind, never below zero. *)
Definition decrement (kind : Kind) (s : State) : State :=
  match kind with
  | KRequest => set_counts s (Nat.pred (requests s)) (subscriptions s)
  | KSubscription => set_counts s (requests s) (Nat.pred (subscriptions s))
  end.

(** [State::release]. *)
Definition release (kind : Kind) (now : Z) (s : State) : State :=
  let s1 := decrement kind s in
  let s2 :=
    if ready s1 && idle_now s1 && negb (expired s1) then set_idle s1 (idle_exit s1) (Some now)
    else s1 in
  bump s2.

(** [State::promote_request]; [commit] is the answer of the commit callback,
    [None] when it is null. *)
Definition promote_request (commit : option bool) (s : State) : bool * State :=
  if Nat.eqb (requests s) 0 then (false, s)
  else
    match commit with
    | Some false => (false, s)
    | _ => (true, bump (set_counts s (Nat.pred (requests s)) (S (subscriptions s))))
    end.

Definition positive_policy (policy : IdleExit) : bool :=
  match policy with Some p => 0 <? p | None => true end.

(** [daemon_ready]; [Err] is the thrown [std::invalid_argument]. *)
Definition daemon_ready (policy : IdleExit) (now : Z) (s : State) : result string bool * State :=
  if negb (positive_policy policy) then (Err "idle exit must be positive", s)
  else if ready s then (Ok false, s)
  else
    let s1 :=
      {| revision := revision s; ready := true; expired := expired s;
         callback_claimed := callback_claimed s; requests := requests s;
         subscriptions := subscriptions s; idle_exit := policy; zero_since := zero_since s;
         deadline := deadline s |} in
    let s2 := if idle_now s1 then set_idle s1 policy (Some now) else s1 in
    (Ok true, bump s2).

(** [update_idle_exit]: whether it expired, and whether it runs the callback. *)
Definition update_idle_exit (policy : IdleExit) (now : Z) (s : State) :
    result string (bool * bool) * State :=
  if negb (positive_policy policy) then (Err "idle exit must be positive", s)
  else
    let '(e, cb, s1) := claim_expiry_locked now (set_idle s policy (zero_since s)) in
    (Ok (e, cb), bump s1).

Definition expire_if_due (now : Z) (s : State) : bool * bool * State :=
  let '(e, cb, s1) := claim_expiry_locked now s in
  (e, cb, if e then bump s1 else s1).

(** One iteration of [watch]. *)
Inductive watch_outcome :=
| WatchReturns
| WatchExpires (callback : bool)
| WatchWaits (until : option Z).

Definition watch_iteration (stop : bool) (now : Z) (s : State) : watch_outcome * State :=
  if stop || expired s then (WatchReturns, s)
  else
    let '(e, cb, s1) := claim_expiry_locked now s in
    if e then (WatchExpires cb, bump s1) else (WatchWaits (deadline s1), s1).

Definition try_admit (kind : Kind) (s : State) : bool * State :=
  if negb (ready s) || expired s then (false, s)
  else
    let s1 :=
      match kind with
      | KRequest => set_counts s (S (requests s)) (subscriptions s)
      | KSubscription => set_counts s (requests s) (S (subscriptions s))
      end in
    (true, bump (set_idle s1 (idle_exit s1) None)).

(** * The tracker with its tokens *)

(** The tracker's state, the live tokens by kind, and how often the expiry
    callback ran. *)
Record System := { st : State; tokens : list Kind; fired : nat }.

Definition start : System := {| st := initial; tokens := []; fired := 0 |}.

Inductive op :=
| OReady (policy : IdleExit) (now : Z)
| OAdmit (kind : Kind)
| OReset (i : nat) (now : Z)
| OPromote (i : nat) (commit : option bool)
| OUpdate (policy : IdleExit) (now : Z)
| OExpire (now : Z)
| OWatch (stop : bool) (now : Z).

Fixpoint remove_at {A} (i : nat) (l : list A) : list A :=
  match l, i with
  | [], _ => []
  | _ :: r, O => r
  | x :: r, S j => x :: remove_at j r
  end.

Fixpoint replace_at {A} (i : nat) (a : A) (l : list A) : list A :=
  match l, i with
  | [], _ => []
  | _ :: r, O => a :: r
  | x :: r, S j => x :: replace_at j a r
  end.

Definition count_fired (cb : bool) (n : nat) : nat := if cb then S n else n.

(** [Token::reset] releases; [Token::promote_to_subscription] changes the
    kind of a request token whose promotion succeeds. *)
Definition apply (o : op) (y : System) : System :=
  match o with
  | OReady policy now =>
      {| st := snd (daemon_ready policy now (st y)); tokens := tokens y; fired := fired y |}
  | OAdmit kind =>
      let '(ok, s) := try_admit kind (st y) in
      {| st := s; tokens := if ok then kind :: tokens y else tokens y; fired := fired y |}
  | OReset i now =>
      match nth_error (tokens y) i with
      | None => y
      | Some kind =>
          {| st := release kind now (st y); tokens := remove_at i (tokens y); fired := fired y |}
      end
  | OPromote i commit =>
      match nth_error (tokens y) i with
      | Some KRequest =>
          let '(ok, s) := promote_request commit (st y) in
          {| st := s; tokens := if ok then replace_at i KSubscription (tokens y) else tokens y;
             fired := fired y |}
      | _ => y
      end
  | OUpdate policy now =>
      let '(r, s) := update_idle_exit policy now (st y) in
      {| st := s; tokens := tokens y;
         fired := match r with Ok (_, cb) => count_fired cb (fired y) | Err _ => fired y end |}
  | OExpire now =>
      let '(_, cb, s) := expire_if_due now (st y) in
      {| st := s; tokens := tokens y; fired := count_fired cb (fired y) |}
  | OWatch stop now =>
      let '(w, s) := watch_iteration stop now (st y) in
      {| st := s; tokens := tokens y;
         fired := match w with WatchExpires cb => count_fired cb (fired y) | _ => fired y end |}
  end.

Definition run (ops : list op) (y : System) : System := fold_left (fun y o => apply o y) ops y.

(** * Properties *)

Definition count (k : Kind) (l : list Kind) : nat := List.length (filter (eqb k) l).

#[local] Arguments idle_deadline : simpl never.
#[local] Arguments u64 : simpl never.
#[local] Arguments count : simpl never.

(** What holds between operations. *)
Record invariant (y : System) : Prop := {
  inv_requests : requests (st y) = count KRequest (tokens y);
  inv_subscriptions : subscriptions (st y) = count KSubscription (tokens y);
  inv_deadline : deadline (st y) = idle_deadline (zero_since (st y)) (idle_exit (st y));
  inv_not_ready : ready (st y) = false ->
    tokens y = [] /\ expired (st y) = false /\ zero_since (st y) = None;
  inv_idle : ready (st y) = true -> (zero_since (st y) <> None <-> tokens y = []);
  inv_expired : expired (st y) = true -> tokens y = [];
  inv_claimed : callback_claimed (st y) = expired (st y);
  inv_fired : fired y = if expired (st y) then 1%nat else 0%nat
}.

Lemma count_remove k i l kind :
  nth_error l i = Some kind ->
  count k (remove_at i l) = if eqb k kind then Nat.pred (count k l) else count k l.
Proof.
  unfold count. revert i. induction l as [|x l IH]; intros [|i] H; cbn in H; try discriminate.
  - injection H as ->. cbn. destruct (eqb k kind); reflexivity.
  - cbn [remove_at filter]. specialize (IH i H). destruct (eqb k x); cbn [List.length]; rewrite IH;
      destruct (eqb k kind) eqn:E; try reflexivity.
    assert (In kind (filter (eqb k) l)) as I
      by (apply filter_In; split; [eapply nth_error_In; eauto | exact E]).
    destruct (filter (eqb k) l); [contradiction | reflexivity].
Qed.

Lemma count_replace i l :
  nth_error l i = Some KRequest ->
  count KRequest (replace_at i KSubscription l) = Nat.pred (count KRequest l) /\
  count KSubscription (replace_at i KSubscription l) = S (count KSubscription l) /\
  (0 < count KRequest l)%nat.
Proof.
  unfold count. revert i. induction l as [|x l IH]; intros [|i] H; cbn in H; try discriminate.
  - injection H as ->. cbn. repeat split; lia.
  - cbn [replace_at filter]. destruct (IH i H) as (R & S & P).
    destruct x; cbn [List.length filter eqb] in *;
      change (eqb KRequest KRequest) with true; change (eqb KRequest KSubscription) with false;
      change (eqb KSubscription KRequest) with false;
      change (eqb KSubscription KSubscription) with true; cbn iota; cbn [List.length]; lia.
Qed.

Lemma count_zero l : (count KRequest l = 0 /\ count KSubscription l = 0)%nat <-> l = [].
Proof.
  split; [|intros ->; auto]. destruct l as [|[] l]; [reflexivity | intros [H _] | intros [_ H]];
    discriminate H.
Qed.

Lemma idle_tokens y : invariant y -> (idle_now (st y) = true <-> tokens y = []).
Proof.
  intros I. unfold idle_now. rewrite andb_true_iff, !Nat.eqb_eq, (inv_requests y I),
    (inv_subscriptions y I). apply count_zero.
Qed.

(** The only way to expire. *)
Lemma claim_spec now s e cb s' :
  claim_expiry_locked now s = (e, cb, s') ->
  (e = false /\ cb = false /\ s' = s) \/
  (e = true /\ cb = negb (callback_claimed s) /\ ready s = true /\ expired s = false /\
   idle_now s = true /\ (exists d, deadline s = Some d /\ d <= now) /\
   expired s' = true /\ callback_claimed s' = true /\ requests s' = requests s /\
   subscriptions s' = subscriptions s /\ ready s' = ready s /\ idle_exit s' = idle_exit s /\
   zero_since s' = zero_since s /\ deadline s' = deadline s).
Proof.
  unfold claim_expiry_locked. destruct (deadline s) as [d|] eqn:D.
  - destruct (_ || _) eqn:G; intros H; injection H as <- <- <-; [auto|]. right.
    bool_split. z_bool. repeat split; eauto.
  - intros H. injection H as <- <- <-. auto.
Qed.

(** Expiry claims keep the invariant when the callback they take is counted. *)
Lemma claim_invariant y now policy :
  invariant y ->
  let s0 := set_idle (st y) policy (zero_since (st y)) in
  forall e cb s', claim_expiry_locked now s0 = (e, cb, s') ->
  invariant {| st := bump s'; tokens := tokens y; fired := count_fired cb (fired y) |}.
Proof.
  intros I s0 e cb s' H. pose proof (idle_tokens y I) as T. destruct I.
  apply claim_spec in H as [(-> & -> & ->)|
    (-> & -> & R & X & Id & _ & X' & C' & Rq & Sb & R' & Ie & Zs & Dl)].
  - constructor; cbn; auto.
  - cbn in R, X. change (idle_now s0) with (idle_now (st y)) in Id. apply T in Id.
    constructor; cbn [st bump tokens fired requests subscriptions deadline ready expired
      callback_claimed zero_since idle_exit];
      rewrite ?X', ?C', ?Rq, ?Sb, ?R', ?Ie, ?Zs, ?Dl; cbn; auto.
    + congruence.
    + rewrite inv_claimed0, X, inv_fired0, X. reflexivity.
Qed.

Lemma set_idle_same y :
  invariant y -> set_idle (st y) (idle_exit (st y)) (zero_since (st y)) = st y.
Proof.
  intros I. pose proof (inv_deadline y I) as D. unfold set_idle. rewrite <- D.
  destruct (st y); reflexivity.
Qed.

Lemma claim_invariant_same y now e cb s' :
  invariant y -> claim_expiry_locked now (st y) = (e, cb, s') ->
  invariant {| st := if e then bump s' else s'; tokens := tokens y;
               fired := count_fired cb (fired y) |}.
Proof.
  intros I H. rewrite <- (set_idle_same y I) in H.
  pose proof (claim_invariant y now (idle_exit (st y)) I _ _ _ H) as J.
  destruct e; [exact J|]. apply claim_spec in H as [(_ & -> & ->)|(C & _)]; [|discriminate].
  rewrite (set_idle_same y I). cbn [count_fired]. destruct y; exact I.
Qed.

Lemma ready_invariant y policy now :
  invariant y -> invariant (apply (OReady policy now) y).
Proof.
  intros I. cbn [apply]. unfold daemon_ready. pose proof (idle_tokens y I) as T.
  destruct (negb (positive_policy policy)); [destruct y; exact I|].
  destruct (ready (st y)) eqn:R; [destruct y; exact I|]. destruct I.
  destruct (inv_not_ready0 R) as (Tk & X & Z). rewrite Tk in *. pose proof (proj2 T eq_refl) as Id.
  change (idle_now {| ready := true; requests := requests (st y);
                      subscriptions := subscriptions (st y) |}) with (idle_now (st y)).
  unfold idle_now in *. cbn [requests subscriptions snd]. rewrite Id.
  constructor; cbn; auto; try congruence. intros _. split; [reflexivity | discriminate].
Qed.

Lemma admit_invariant y kind : invariant y -> invariant (apply (OAdmit kind) y).
Proof.
  intros I. cbn [apply]. unfold try_admit. destruct (negb (ready (st y)) || expired (st y)) eqn:G;
    [destruct y; exact I|]. bool_split. destruct I.
  destruct kind; constructor; cbn; try congruence;
    try (unfold count in *; cbn; congruence); try (intros; split; congruence).
Qed.

Lemma decrement_counts y i kind :
  invariant y -> nth_error (tokens y) i = Some kind ->
  requests (decrement kind (st y)) = count KRequest (remove_at i (tokens y)) /\
  subscriptions (decrement kind (st y)) = count KSubscription (remove_at i (tokens y)).
Proof.
  intros I N. rewrite !(count_remove _ i _ _ N), <- (inv_requests y I), <- (inv_subscriptions y I).
  destruct kind; split; reflexivity.
Qed.

Lemma live_token y i kind :
  invariant y -> nth_error (tokens y) i = Some kind ->
  ready (st y) = true /\ expired (st y) = false /\ zero_since (st y) = None.
Proof.
  intros I N. assert (tokens y <> []) as NE by (intros E; rewrite E in N; destruct i; discriminate).
  destruct I. assert (R : ready (st y) = true).
  { destruct (ready (st y)); [reflexivity | destruct NE; now apply inv_not_ready0]. }
  split; [exact R|]. split.
  - destruct (expired (st y)); [destruct NE; auto | reflexivity].
  - destruct (zero_since (st y)) eqn:Z; [|reflexivity]. destruct NE. apply inv_idle0; congruence.
Qed.

Lemma release_invariant y i now : invariant y -> invariant (apply (OReset i now) y).
Proof.
  intros I. cbn [apply]. destruct (nth_error (tokens y) i) as [kind|] eqn:N; [|exact I].
  destruct (decrement_counts y i kind I N) as [Rq Sb].
  destruct (live_token y i kind I N) as (R & X & Zs).
  assert (Id : idle_now (decrement kind (st y)) = true <-> remove_at i (tokens y) = [])
    by (unfold idle_now; rewrite andb_true_iff, !Nat.eqb_eq, Rq, Sb; apply count_zero).
  assert (ready (decrement kind (st y)) = true /\ expired (decrement kind (st y)) = false /\
    callback_claimed (decrement kind (st y)) = false /\ zero_since (decrement kind (st y)) = None /\
    deadline (decrement kind (st y)) = None /\ fired y = 0%nat) as (R1 & X1 & C1 & Z1 & D1 & F1).
  { destruct I. rewrite X, Zs in *. destruct kind; repeat split; cbn; congruence || auto. }
  unfold release. set (s1 := decrement kind (st y)) in *. rewrite R1, X1. cbn [andb negb].
  rewrite andb_true_r.
  destruct (idle_now s1); (constructor; cbn;
    [exact Rq | exact Sb | | congruence | intros _ | congruence | congruence | rewrite X1; exact F1]).
  - reflexivity.
  - split; [intros _; now apply Id | discriminate].
  - now rewrite D1, Z1.
  - split; [congruence|]. intros C. apply Id in C. discriminate.
Qed.

Lemma promote_invariant y i commit : invariant y -> invariant (apply (OPromote i commit) y).
Proof.
  intros I. cbn [apply]. destruct (nth_error (tokens y) i) as [[]|] eqn:N; try exact I.
  destruct (live_token y i _ I N) as (R & X & Zs). destruct (count_replace i _ N) as (Cr & Cs & P).
  assert (NE : replace_at i KSubscription (tokens y) <> [])
    by (destruct (tokens y), i; discriminate).
  unfold promote_request. destruct I. destruct (Nat.eqb (requests (st y)) 0) eqn:Z;
    [apply Nat.eqb_eq in Z; lia|].
  destruct commit as [[]|]; [|destruct y; constructor; assumption|];
    (constructor; cbn; rewrite ?R, ?X, ?Zs, ?Cr, ?Cs;
     solve [congruence | intros _; split; congruence | rewrite inv_deadline0, Zs; reflexivity |
            rewrite inv_fired0, X; reflexivity]).
Qed.

(** The invariant is inductive. *)
Lemma apply_invariant o y : invariant y -> invariant (apply o y).
Proof.
  intros I. destruct o; auto using ready_invariant, admit_invariant, release_invariant,
    promote_invariant; cbn [apply].
  - unfold update_idle_exit. destruct (negb (positive_policy policy)); [destruct y; exact I|].
    destruct (claim_expiry_locked now _) as [[e cb] s'] eqn:H.
    exact (claim_invariant y now policy I _ _ _ H).
  - unfold expire_if_due. destruct (claim_expiry_locked now (st y)) as [[e cb] s'] eqn:H.
    exact (claim_invariant_same y now e cb s' I H).
  - unfold watch_iteration. destruct (stop || expired (st y)); [destruct y; exact I|].
    destruct (claim_expiry_locked now (st y)) as [[e cb] s'] eqn:H.
    pose proof (claim_invariant_same y now e cb s' I H) as J. destruct e; [exact J|].
    apply claim_spec in H as [(_ & -> & _)|(C & _)]; [exact J | discriminate].
Qed.

Lemma start_invariant : invariant start.
Proof. constructor; cbn; try reflexivity; try discriminate. auto. Qed.

Lemma run_invariant ops y : invariant y -> invariant (run ops y).
Proof.
  revert y. induction ops as [|o ops IH]; intros y I; [exact I|].
  cbn [run fold_left]. apply IH, apply_invariant, I.
Qed.

(** C38.  After any sequence of operations the tracker's counters are the
    numbers of live request and subscription tokens; it has expired only
    with no live token; the expiry callback has run exactly once if it has
    expired and never otherwise; while it is ready, the idle clock runs
    exactly when no token is live, and the deadline is the one the policy
    gives from that instant. *)
Theorem tracker_invariant ops :
  let y := run ops start in
  requests (st y) = count KRequest (tokens y) /\
  subscriptions (st y) = count KSubscription (tokens y) /\
  (expired (st y) = true -> tokens y = []) /\
  fired y = (if expired (st y) then 1%nat else 0%nat) /\
  (ready (st y) = true -> (zero_since (st y) <> None <-> tokens y = [])) /\
  deadline (st y) = idle_deadline (zero_since (st y)) (idle_exit (st y)).
Proof.
  intros y. pose proof (run_invariant ops start start_invariant) as []. auto 6.
Qed.

(** Expiry is final: once expired, no later sequence of operations
    admits a request or a subscription, revokes the expiry or runs the
    callback again. *)
Theorem expiry_final ops later :
  expired (st (run ops start)) = true ->
  let y := run later (run ops start) in
  expired (st y) = true /\ tokens y = [] /\ fired y = 1%nat /\
  forall kind, fst (try_admit kind (st y)) = false.
Proof.
  intros X y. assert (expired (st y) = true) as E.
  { subst y. revert X. generalize (run ops start) as z. induction later as [|o l IH]; intros z X;
      [exact X|]. cbn [run fold_left]. apply IH. clear IH.
    assert (C : forall now s, expired s = true -> claim_expiry_locked now s = (false, false, s)).
    { intros now s Hs. unfold claim_expiry_locked. destruct (deadline s); [|reflexivity].
      rewrite Hs, orb_true_r. reflexivity. }
    destruct o; cbn [apply].
    - unfold daemon_ready. destruct (negb _), (ready (st z)); try exact X. 
      cbn [snd st]. unfold bump. destruct (idle_now _); exact X.
    - unfold try_admit. rewrite X, orb_true_r. exact X.
    - destruct (nth_error (tokens z) i) as [kind|]; [|exact X]. cbn [st]. unfold release.
      destruct kind; cbn [decrement expired set_counts]; rewrite X, andb_false_r; exact X.
    - destruct (nth_error (tokens z) i) as [[]|]; try exact X. unfold promote_request.
      destruct (Nat.eqb _ 0), commit as [[]|]; exact X.
    - unfold update_idle_exit. destruct (negb _); [exact X|]. rewrite C by exact X. exact X.
    - unfold expire_if_due. rewrite C by exact X. exact X.
    - unfold watch_iteration. rewrite X, orb_true_r. exact X. }
  assert (I : invariant y) by (apply run_invariant, run_invariant, start_invariant).
  split; [exact E|]. split; [exact (inv_expired y I E)|]. split.
  - now rewrite (inv_fired y I), E.
  - intros kind. unfold try_admit. rewrite E, orb_true_r. reflexivity.
Qed.

Definition expiring_ops : list op :=
  [OReady (Some 5) 0; OAdmit KRequest; OReset 0 1000000000; OExpire 5999999999;
   OExpire 6000000000].

Lemma expiry_final_witness :
  expired (st (run expiring_ops start)) = true /\
  (let y := run [OAdmit KRequest; OUpdate (Some 1) 9000000000] (run expiring_ops start) in
   expired (st y) = true /\ tokens y = [] /\ fired y = 1%nat /\
   forall kind, fst (try_admit kind (st y)) = false).
Proof.
  split; [vm_compute; reflexivity|]. apply (expiry_final expiring_ops). vm_compute. reflexivity.
Defined.

Lemma idle_deadline_due z p d now :
  idle_deadline (Some z) (Some p) = Some d -> d <= now ->
  z + p * 1000000000 <= now \/ i64_max <= now.
Proof.
  unfold idle_deadline. destruct (_ <? p); [intros H; injection H as <-; auto|].
  destruct (_ <? z); intros H; injection H as <-; auto.
Qed.

(** The daemon never exits while it is used or before its time: the
    operation that expires the tracker finds no live token, and its clock
    reading is at least the configured number of seconds after the instant
    at which the tracker became idle (or the clock is at its end). *)
Theorem expiry_not_early ops o :
  let y := run ops start in
  expired (st y) = false -> expired (st (apply o y)) = true ->
  tokens y = [] /\
  exists now z p,
    (o = OExpire now \/ o = OWatch false now \/ o = OUpdate (Some p) now) /\
    zero_since (st y) = Some z /\ idle_exit (st (apply o y)) = Some p /\
    (z + p * 1000000000 <= now \/ i64_max <= now).
Proof.
  intros y X X'. assert (I : invariant y) by (apply run_invariant, start_invariant).
  pose proof (idle_tokens y I) as T.
  assert (K : forall now policy e cb s', claim_expiry_locked now
      (set_idle (st y) policy (zero_since (st y))) = (e, cb, s') -> expired s' = true ->
    tokens y = [] /\ exists z p, zero_since (st y) = Some z /\ policy = Some p /\
      idle_exit s' = Some p /\ (z + p * 1000000000 <= now \/ i64_max <= now)).
  { intros now policy e cb s' H E. apply claim_spec in H as [(_ & _ & ->)|
      (_ & _ & _ & _ & Id & (d & D & L) & _ & _ & _ & _ & _ & Ie & _ & _)];
      [cbn in E; congruence|].
    split; [now apply T|]. cbn [deadline set_idle idle_exit] in D, Ie.
    destruct (zero_since (st y)) as [z|]; [|discriminate D].
    destruct policy as [p|]; [|discriminate D].
    exists z, p. repeat split; auto. eapply idle_deadline_due; eauto. }
  pose proof (set_idle_same y I) as S. destruct o; cbn [apply] in *.
  - exfalso. unfold daemon_ready in X'. destruct (negb _), (ready (st y)); cbn [snd st] in X'; try congruence.
    unfold bump in X'. destruct (idle_now _) in X'; cbn in X'; congruence.
  - exfalso. unfold try_admit in X'. destruct (negb (ready (st y)) || expired (st y));
      [|destruct kind]; cbn in X'; congruence.
  - exfalso. destruct (nth_error (tokens y) i) as [kind|]; [|congruence]. unfold release in X'.
    destruct (ready (decrement kind (st y)) && _ && _); destruct kind; cbn in X'; congruence.
  - exfalso. destruct (nth_error (tokens y) i) as [[]|]; try congruence. unfold promote_request in X'.
    destruct (Nat.eqb (requests (st y)) 0); [|destruct commit as [[]|]]; cbn in X'; congruence.
  - unfold update_idle_exit in *. destruct (negb (positive_policy policy)); [cbn in X'; congruence|].
    destruct (claim_expiry_locked _ _) as [[e cb] s'] eqn:H. cbn [st] in X'.
    destruct (K _ _ _ _ _ H X') as (Tk & z & p & Z & -> & Ie & D).
    split; [exact Tk|]. exists now, z, p. auto 6.
  - unfold expire_if_due in *. rewrite <- S in *.
    destruct (claim_expiry_locked _ _) as [[e cb] s'] eqn:H. cbn [st] in *.
    assert (expired s' = true) as E by (destruct e; exact X').
    destruct (K _ _ _ _ _ H E) as (Tk & z & p & Z & P & Ie & D).
    split; [exact Tk|]. exists now, z, p. repeat split; auto. destruct e; exact Ie.
  - unfold watch_iteration in *. destruct stop; [cbn in X'; congruence|]. rewrite X in *. cbn [orb] in *.
    rewrite <- S in *. destruct (claim_expiry_locked _ _) as [[e cb] s'] eqn:H.
    assert (expired s' = true) as E by (destruct e; exact X').
    destruct (K _ _ _ _ _ H E) as (Tk & z & p & Z & P & Ie & D).
    split; [exact Tk|]. exists now, z, p. repeat split; auto. destruct e; exact Ie.
Qed.

Lemma expiry_not_early_witness :
  let ops := [OReady (Some 5) 0; OAdmit KRequest; OReset 0 1000000000] in
  let y := run ops start in
  tokens y = [] /\
  exists now z p,
    (OExpire 6000000000 = OExpire now \/ OExpire 6000000000 = OWatch false now \/
     OExpire 6000000000 = OUpdate (Some p) now) /\
    zero_since (st y) = Some z /\ idle_exit (st (apply (OExpire 6000000000) y)) = Some p /\
    (z + p * 1000000000 <= now \/ i64_max <= now).
Proof.
  apply (expiry_not_early [OReady (Some 5) 0; OAdmit KRequest; OReset 0 1000000000]
           (OExpire 6000000000)); vm_compute; reflexivity.
Defined.

(** An idle daemon does exit: when it is ready, unexpired and without
    live tokens under a policy of [p] seconds, checking at or after
    [zero_since + p] seconds expires it and runs the callback, and until then
    the watcher waits exactly for that deadline. *)
Theorem expiry_happens ops z p now :
  let y := run ops start in
  ready (st y) = true -> expired (st y) = false -> tokens y = [] ->
  zero_since (st y) = Some z -> idle_exit (st y) = Some p ->
  0 < p <= maximum_seconds -> i64_min <= z -> z + p * 1000000000 <= i64_max ->
  (z + p * 1000000000 <= now ->
     expired (st (apply (OExpire now) y)) = true /\ fired (apply (OExpire now) y) = 1%nat) /\
  (now < z + p * 1000000000 ->
     fst (watch_iteration false now (st y)) = WatchWaits (Some (z + p * 1000000000))).
Proof.
  intros y R X T Z P Rp Rz B. assert (I : invariant y) by (apply run_invariant, start_invariant).
  assert (D : deadline (st y) = Some (z + p * 1000000000)).
  { rewrite (inv_deadline y I), Z, P. unfold idle_deadline.
    destruct (maximum_seconds <? p) eqn:E; z_bool; [lia|].
    destruct (_ <? z) eqn:F; z_bool; [lia | reflexivity]. }
  pose proof (proj2 (idle_tokens y I) T) as Id.
  assert (C : forall t, claim_expiry_locked t (st y) = if t <? z + p * 1000000000
    then (false, false, st y) else (true, true,
      {| revision := revision (st y); ready := ready (st y); expired := true;
         callback_claimed := true; requests := requests (st y);
         subscriptions := subscriptions (st y); idle_exit := idle_exit (st y);
         zero_since := zero_since (st y); deadline := deadline (st y) |})).
  { intros t. unfold claim_expiry_locked. rewrite D, R, X, Id, (inv_claimed y I), X. cbn [negb orb].
    reflexivity. }
  split; intros L.
  - cbn [apply]. unfold expire_if_due. rewrite C. destruct (now <? _) eqn:E; z_bool; [lia|].
    cbn [st expired bump fired count_fired]. rewrite (inv_fired y I), X. auto.
  - unfold watch_iteration. rewrite X. cbn [orb]. rewrite C.
    destruct (now <? _) eqn:E; z_bool; [|lia]. cbn [fst]. now rewrite D.
Qed.

Lemma expiry_happens_witness :
  expired (st (apply (OExpire 5000000000) (run [OReady (Some 5) 0] start))) = true.
Proof.
  refine (proj1 (proj1 (expiry_happens [OReady (Some 5) 0] 0 5 5000000000
    eq_refl eq_refl eq_refl eq_refl eq_refl _ _ _) _));
    unfold i64_min, i64_max; (lia || (split; [lia | vm_compute; discriminate])).
Defined.
