(* ===== verification/ResponseSink.v ===== *)
(** Response sinks (ResponseSink in src/src/daemon/dispatch.cpp, .hpp): where
    a request's frames go, and which of them ends the request.

    The virtual methods of the class are a type class over the state of the
    derived object.  Every operation runs under the sink's mutex, so it is one
    step; [finish_terminal_batch] takes the mutex twice and is two steps.  A
    method that throws leaves the state it reached ([Err tt]).  The two test
    probes of the class ([before_direct_terminal_bit],
    [between_terminal_batch_frames]) observe nothing and are left out. *)
From S2P Require Import Prelude Json.
From coqutil Require Export Datatypes.RecordSetters.
Export OCamlLikeNotations.

#[global] Arguments constant {E} newValue _ /.

(** * Data *)

Inductive DeliveryOutcome := Complete | Suppressed | Undelivered.

Record ChallengeFailure := {
  failure_code : string;
  failure_message : string;
  failure_details : json;
  failure_exit_code : Z
}.

Record ChallengeReply := {
  reply_answer : option json;
  reply_failure : option ChallengeFailure
}.

(** The calls of the [emit_] methods. *)
Inductive Emission :=
| EItem (data : json)
| EProgress (data : json)
| EResult (data : json)
| ERawResult (canonical : string)
| EError (code message : string) (details : json) (exit_code : Z)
| EChallenge (data : json).

Definition ends_request (e : Emission) : bool :=
  match e with EResult _ | ERawResult _ | EError _ _ _ _ => true | _ => false end.

(** What a call returns: an outcome, or [Err tt] for an exception. *)
Definition delivery := result unit DeliveryOutcome.

(** The virtual methods, over the state [D] of the derived object. *)
Class Derived (D : Type) := {
  emit : Emission -> D -> delivery * D;
  emit_challenge : json -> D -> result unit ChallengeReply * D;
  claim_public_terminal : D -> bool * D;
  claim_stream_forward_terminal : D -> bool * D
}.

Record Sink (D : Type) := mkSink {
  terminal_ : bool;
  terminal_batch_reserved_ : bool;
  derived : D
}.
Arguments mkSink {D}.
Arguments terminal_ {D}.
Arguments terminal_batch_reserved_ {D}.
Arguments derived {D}.

Definition new_sink {D} (d : D) : Sink D :=
  {| terminal_ := false; terminal_batch_reserved_ := false; derived := d |}.

(** * Operations *)

Section Operations.
Context {D : Type} `{Derived D}.

Definition emits (e : Emission) (s : Sink D) : delivery * Sink D :=
  let '(outcome, d) := emit e (derived s) in (outcome, { s with derived := d }).

Definition item (data : json) (s : Sink D) : delivery * Sink D :=
  if terminal_ s then (Ok Suppressed, s) else emits (EItem data) s.

(** Nothing is returned to the caller, who sees only whether it threw. *)
Definition progress (data : json) (s : Sink D) : delivery * Sink D :=
  if terminal_ s then (Ok Suppressed, s) else emits (EProgress data) s.

(** [result], [raw_result] and [error] differ in the frame only. *)
Definition public_terminal (e : Emission) (s : Sink D) : delivery * Sink D :=
  if terminal_ s then (Ok Suppressed, s)
  else
    let '(claimed, d) := claim_public_terminal (derived s) in
    if negb claimed then (Ok Suppressed, { s with derived := d })
    else emits e { s with derived := d; terminal_ := true }.

Definition result_ (data : json) : Sink D -> delivery * Sink D := public_terminal (EResult data).
Definition raw_result (canonical : string) : Sink D -> delivery * Sink D :=
  public_terminal (ERawResult canonical).
Definition error (code message : string) (details : json) (exit_code : Z) :
    Sink D -> delivery * Sink D :=
  public_terminal (EError code message details exit_code).

Definition claim_protocol_fallback_terminal (s : Sink D) : bool * Sink D :=
  if terminal_ s then (false, s) else (true, { s with terminal_ := true }).

Definition reserve_terminal_batch (s : Sink D) : bool * Sink D :=
  if terminal_ s then (false, s)
  else
    let '(claimed, d) := claim_public_terminal (derived s) in
    if negb claimed then (false, { s with derived := d })
    else (true, { s with derived := d; terminal_ := true; terminal_batch_reserved_ := true }).

(** The first critical section of [finish_terminal_batch]: the outcome where
    the call ends there, [None] where it goes on to the second one. *)
Definition finish_terminal_batch_progress (data : json) (s : Sink D) : option delivery * Sink D :=
  if negb (terminal_batch_reserved_ s) then (Some (Ok Suppressed), s)
  else
    let '(outcome, s) := emits (EProgress data) { s with terminal_batch_reserved_ := false } in
    (match outcome with Ok _ => None | Err _ => Some (Err tt) end, s).

Definition finish_terminal_batch (data result_data : json) (s : Sink D) : delivery * Sink D :=
  match finish_terminal_batch_progress data s with
  | (Some outcome, s) => (outcome, s)
  | (None, s) => emits (EResult result_data) s
  end.

Definition fail_terminal_batch (code message : string) (details : json) (exit_code : Z)
    (s : Sink D) : delivery * Sink D :=
  if negb (terminal_batch_reserved_ s) then (Ok Suppressed, s)
  else emits (EError code message details exit_code) { s with terminal_batch_reserved_ := false }.

(** [forward_stream_result] and [forward_stream_error]. *)
Definition forward_stream (e : Emission) (s : Sink D) : delivery * Sink D :=
  if terminal_ s then (Ok Suppressed, s)
  else
    let '(claimed, d) := claim_stream_forward_terminal (derived s) in
    if negb claimed then (Ok Suppressed, { s with derived := d })
    else emits e { s with derived := d; terminal_ := true }.

Definition forward_stream_result (data : json) : Sink D -> delivery * Sink D :=
  forward_stream (EResult data).
Definition forward_stream_error (code message : string) (details : json) (exit_code : Z) :
    Sink D -> delivery * Sink D :=
  forward_stream (EError code message details exit_code).

Definition has_terminal (s : Sink D) : bool := terminal_ s.

Definition challenge_ (data : json) (s : Sink D) : result unit (option json) * Sink D :=
  if terminal_ s then (Ok None, s)
  else
    let '(reply, d) := emit_challenge data (derived s) in
    let s := { s with derived := d } in
    match reply with
    | Err _ => (Err tt, s)
    | Ok reply =>
        match reply_failure reply with
        | Some f =>
            let '(outcome, s) :=
              emits (EError (failure_code f) (failure_message f) (failure_details f)
                            (failure_exit_code f)) { s with terminal_ := true } in
            (match outcome with Ok _ => Ok None | Err _ => Err tt end, s)
        | None => (Ok (reply_answer reply), s)
        end
    end.
End Operations.

(** * A sink over an arbitrary peer

    The derived object of a transport: it records the calls, and its answers
    ([deliver], [reply]) are any function of the calls made before.  The
    callback sink of dispatch.hpp is the case where every call completes. *)

Section External.
Variable deliver : list Emission -> Emission -> delivery.
Variable reply : list Emission -> json -> result unit ChallengeReply.

Definition external : Derived (list Emission) := {|
  emit e log := (deliver log e, log ++ [e]);
  emit_challenge data log := (reply log data, log ++ [EChallenge data]);
  claim_public_terminal log := (true, log);
  claim_stream_forward_terminal log := (true, log)
|}.
End External.

(** [CallbackSink], with or without a challenge callback. *)
Definition callback_sink (on_challenge : option (json -> option json)) : Derived (list Emission) :=
  external
    (fun _ _ => Ok Complete)
    (fun _ data =>
       Ok {| reply_answer := match on_challenge with Some f => f data | None => None end;
             reply_failure := None |}).

(** ** Executions

    Any number of threads call the sink; a call is one critical section.  The
    second section of a [finish_terminal_batch] that got past its first one is
    a call of its own, [CResume], made any time later; [waiting] holds the
    results of these calls. *)

Inductive Call :=
| CItem (data : json)
| CProgress (data : json)
| CResult (data : json)
| CRawResult (canonical : string)
| CError (code message : string) (details : json) (exit_code : Z)
| CClaimFallback
| CReserveBatch
| CFinishBatch (progress result : json)
| CResume (thread : nat)
| CFailBatch (code message : string) (details : json) (exit_code : Z)
| CForwardResult (data : json)
| CForwardError (code message : string) (details : json) (exit_code : Z)
| CChallenge (data : json).

Record Config := { the_sink : Sink (list Emission); waiting : list json }.

Definition log (c : Config) : list Emission := derived (the_sink c).

Section Executions.
Context `{Derived (list Emission)}.

Definition step (c : Config) (call : Call) : Config :=
  let s := the_sink c in
  let returns {A} (r : A * Sink (list Emission)) := { c with the_sink := snd r } in
  match call with
  | CItem data => returns (item data s)
  | CProgress data => returns (progress data s)
  | CResult data => returns (result_ data s)
  | CRawResult canonical => returns (raw_result canonical s)
  | CError code message details exit_code => returns (error code message details exit_code s)
  | CClaimFallback => returns (claim_protocol_fallback_terminal s)
  | CReserveBatch => returns (reserve_terminal_batch s)
  | CFinishBatch data final =>
      match finish_terminal_batch_progress data s with
      | (Some _, s) => { c with the_sink := s }
      | (None, s) => {| the_sink := s; waiting := waiting c ++ [final] |}
      end
  | CResume thread =>
      match nth_error (waiting c) thread with
      | Some final =>
          {| the_sink := snd (emits (EResult final) s);
             waiting := firstn thread (waiting c) ++ skipn (S thread) (waiting c) |}
      | None => c
      end
  | CFailBatch code message details exit_code =>
      returns (fail_terminal_batch code message details exit_code s)
  | CForwardResult data => returns (forward_stream_result data s)
  | CForwardError code message details exit_code =>
      returns (forward_stream_error code message details exit_code s)
  | CChallenge data => returns (challenge_ data s)
  end.

Definition run (c : Config) (calls : list Call) : Config := fold_left step calls c.
End Executions.

Definition start : Config := {| the_sink := new_sink []; waiting := [] |}.

(** * Properties *)

Lemma emits_terminal {D} `{Derived D} e (s : Sink D) : terminal_ (snd (emits e s)) = terminal_ s.
Proof. unfold emits. now destruct (emit e (derived s)). Qed.

Definition no_terminal (l : list Emission) : bool := forallb (fun e => negb (ends_request e)) l.

(** Only the last emission may end the request. *)
Definition closed (l : list Emission) : bool := no_terminal (removelast l).

Lemma no_terminal_snoc l e : no_terminal (l ++ [e]) = no_terminal l && negb (ends_request e).
Proof. unfold no_terminal. rewrite forallb_app. cbn. now rewrite andb_true_r. Qed.

Lemma closed_snoc l e : closed (l ++ [e]) = no_terminal l.
Proof. unfold closed. now rewrite removelast_last. Qed.

Lemma no_terminal_closed l : no_terminal l = true -> closed l = true.
Proof.
  destruct l as [|e l _] using rev_ind; [reflexivity|].
  rewrite no_terminal_snoc, closed_snoc. intros E. now bool_split.
Qed.

(** The last phase is the one in which the terminal frame was sent. *)
Definition consistent (c : Config) : Prop :=
  let s := the_sink c in
  if no_terminal (log c) then
    if terminal_ s then
      match waiting c with [] => True | [_] => terminal_batch_reserved_ s = false | _ => False end
    else terminal_batch_reserved_ s = false /\ waiting c = []
  else closed (log c) = true /\ terminal_ s = true /\ terminal_batch_reserved_ s = false /\
       waiting c = [].

(** Evaluates a consistency goal once the flags and the call are known. *)
Ltac consistency l :=
  cbn -[closed no_terminal];
  repeat match goal with
         | |- context [match ?o with Ok _ => _ | Err _ => _ end] =>
             destruct o as [[? [[]|]]|] || destruct o; cbn -[closed no_terminal]
         end;
  rewrite ?no_terminal_snoc, ?closed_snoc; cbn [ends_request negb andb];
  repeat match goal with N : no_terminal l = _ |- _ => rewrite N end; cbn;
  rewrite ?no_terminal_snoc, ?closed_snoc; cbn;
  repeat match goal with N : no_terminal l = _ |- _ => rewrite N end; cbn; auto.

Lemma step_consistent deliver reply c call :
  consistent c -> consistent (@step (external deliver reply) c call).
Proof.
  destruct c as [[t r l] w]. unfold consistent at 1, log at 1. cbn -[no_terminal closed].
  intros I. destruct (no_terminal l) eqn:N.
  - destruct t; [destruct w as [|x [|y w]]; [destruct r| |destruct I]|destruct I as [-> ->]].
    all: try subst r; destruct call as [| | | | | | | |[|[|n]]| | | |];
      unfold consistent, log; consistency l.
  - destruct I as (K & -> & -> & ->).
    destruct call as [| | | | | | | |[|[|n]]| | | |]; unfold consistent, log; consistency l.
Qed.

Lemma run_consistent deliver reply calls c :
  consistent c -> consistent (@run (external deliver reply) c calls).
Proof.
  revert c. induction calls as [|call calls IH]; intros c I; [exact I|].
  apply IH, step_consistent, I.
Qed.

Lemma closed_last l before e after :
  closed l = true -> l = before ++ e :: after -> ends_request e = true -> after = [].
Proof.
  intros C -> E. destruct after as [|a after _] using rev_ind; [reflexivity|].
  change (before ++ e :: after ++ [a]) with (before ++ (e :: after) ++ [a]) in C.
  rewrite app_assoc, closed_snoc in C. unfold no_terminal in C. rewrite forallb_app in C.
  cbn in C. rewrite E, andb_false_r in C. discriminate.
Qed.

Lemma consistent_closed c : consistent c -> closed (log c) = true.
Proof.
  unfold consistent. destruct (no_terminal (log c)) eqn:N; [|intros I; apply I].
  intros _. now apply no_terminal_closed.
Qed.

Lemma consistent_terminal c before e after :
  consistent c -> log c = before ++ e :: after -> ends_request e = true ->
  terminal_ (the_sink c) = true.
Proof.
  unfold consistent. destruct (no_terminal (log c)) eqn:N; [|intros I _ _; apply I].
  intros _ L E. rewrite L in N. unfold no_terminal in N. rewrite forallb_app in N.
  cbn in N. rewrite E, andb_false_r in N. discriminate.
Qed.

(** a request ends once: whatever calls any threads make of a sink, in
    whatever order, and whatever its peer answers, at most one frame that ends
    the request goes out, no frame follows it, and the sink knows that it has
    ended; and a result, raw result or error offered while the sink has no
    terminal frame does go out. *)
Theorem single_terminal_frame deliver reply calls e :
  let c := @run (external deliver reply) start calls in
  (forall before sent after,
     log c = before ++ sent :: after -> ends_request sent = true ->
     after = [] /\ has_terminal (the_sink c) = true) /\
  (has_terminal (the_sink c) = false -> ends_request e = true ->
   log {| the_sink := snd (@public_terminal _ (external deliver reply) e (the_sink c));
          waiting := waiting c |} = log c ++ [e]).
Proof.
  intros c. assert (I : consistent c) by (apply run_consistent; cbn; auto). split.
  - intros before sent after L E. split.
    + exact (closed_last _ _ _ _ (consistent_closed c I) L E).
    + exact (consistent_terminal c before sent after I L E).
  - unfold has_terminal, log, public_terminal. intros -> _. reflexivity.
Qed.

(** A batch whose second frame is delayed: an item in between is dropped. *)
Example batch_keeps_out_items :
  log (@run (callback_sink None) start
         [CItem JNull; CReserveBatch; CFinishBatch (JBool true) (JBool false); CItem JNull;
          CResult JNull; CResume 0; CResult JNull])
  = [EItem JNull; EProgress (JBool true); EResult (JBool false)].
Proof. reflexivity. Qed.
