(* ===== verification/RequestSession.v ===== *)
(** The session of one request (src/src/daemon/request_session.cpp, .hpp):
    challenges and their answers, cancellation, terminal arbitration and the
    in-flight state.

    An operation is the section it runs under [session_mutex_]; the waiting
    part of [challenge] is a separate operation, performed when the thread
    wakes up.  The clock reading of an operation is its argument [now].  The
    session is a response sink whose virtual methods forward to the transport,
    itself a sink; what the operations do after releasing [session_mutex_] is
    part of the same step.  A stream subscription (stream_subscription.cpp) is
    represented by the terminal claims made on it ([None] also for a lease
    whose state was moved out), the activity token by whether it is held; wiping, probes and the hooks' code are not modelled (a
    hook's notification is returned). *)
From S2P Require Import Prelude Json Deadline Frame ResponseSink.

Definition kUsage : Z := 2.
Definition kGeneric : Z := 1.
Definition kDenied : Z := 6.

(** * Data *)

Module ChallengeStatus.
Inductive t :=
| Answered | Cancelled | Superseded | Disconnected | Shutdown | TimedOut | NoTty | ProtocolError.
End ChallengeStatus.

Module State.
Inductive t := Running | Disconnected | Shutdown | TimedOut | ProtocolError | AuditFatal.
End State.

Module InFlightState.
Inductive t := None | InFlight | Orphaned.
End InFlightState.

Module ActivityState.
Inductive t :=
| OpenRequest | ProtocolTerminating | OpenLegacySubscription | OpenStreamSubscription
| TerminalForwarding | Released.
End ActivityState.

Module TerminalStatus.
(** [AuditedTerminalStatus] and [TerminalBatchStatus]. *)
Inductive t := Designated | Disconnected | Shutdown | TimedOut | ProtocolError.
End TerminalStatus.

Module DispatchStatus.
(** [AuditedDispatchStatus]. *)
Inductive t := Dispatched | Disconnected | Shutdown | TimedOut | ProtocolError.
End DispatchStatus.

Module AnswerDisposition.
Inductive t := Accepted | Cancelled | DuplicateIgnored | StaleIgnored | Rejected | RequestTerminated.
End AnswerDisposition.

Module InvalidReason.
(** [StreamProtocolAnswerInvalidReason]. *)
Inductive t := Malformed | UnknownRequest | FutureSequence | GenerationMismatch | NonceMismatch.
End InvalidReason.

Definition stream_protocol_answer_invalid_reason_name (reason : InvalidReason.t) : string :=
  match reason with
  | InvalidReason.Malformed => "malformed"
  | InvalidReason.UnknownRequest => "unknown_request"
  | InvalidReason.FutureSequence => "future_sequence"
  | InvalidReason.GenerationMismatch => "generation_mismatch"
  | InvalidReason.NonceMismatch => "nonce_mismatch"
  end.

#[export] Instance State_eq_dec : EqDec State.t.
Proof. intros [] []; (left; reflexivity) || (right; discriminate). Defined.
#[export] Instance InFlightState_eq_dec : EqDec InFlightState.t.
Proof. intros [] []; (left; reflexivity) || (right; discriminate). Defined.
#[export] Instance ActivityState_eq_dec : EqDec ActivityState.t.
Proof. intros [] []; (left; reflexivity) || (right; discriminate). Defined.

Record ChallengeSpec := {
  spec_kind : ChallengeKind;
  spec_client_generation : option Z;
  spec_auth_sequence : option Z;
  spec_prompt : string;
  spec_details : json;
  spec_reserves_query : bool
}.

(** [std::variant<std::monostate, std::string, bool>]. *)
Inductive ChallengeValue := NoValue | StringValue (s : string) | BoolValue (b : bool).

Record ChallengeOutcome := { status : ChallengeStatus.t; value_ : ChallengeValue }.

Definition no_value (st : ChallengeStatus.t) : ChallengeOutcome :=
  {| status := st; value_ := NoValue |}.

(** The string and the outcome left behind. *)
Definition take_string (o : ChallengeOutcome) : option string * ChallengeOutcome :=
  match value_ o with
  | StringValue s => (Some s, no_value (status o))
  | _ => (None, o)
  end.

Definition take_boolean (o : ChallengeOutcome) : option bool * ChallengeOutcome :=
  match value_ o with
  | BoolValue b => (Some b, no_value (status o))
  | _ => (None, o)
  end.

Record Identity := {
  request_id : Z;
  nonce : string;
  sequence : Z;
  client_generation : option Z;
  auth_sequence : option Z
}.

Record CurrentChallenge := {
  kind : ChallengeKind;
  identity : Identity;
  payload : json;
  reserves_query : bool
}.

Record Resolution := { resolved_sequence : Z; outcome : ChallengeOutcome }.

(** * The transport side

    What [activity_mutex_] guards, and the transport. *)

(** The payload of a claim made on a stream subscription. *)
Inductive StreamClaim :=
| ClaimDisconnected
| ClaimShutdown
| ClaimProtocolAnswerInvalid (id : Z) (reason : InvalidReason.t).

Record Channel := {
  activity_state_ : ActivityState.t;
  activity_ : bool;
  stream_subscription_ : option (list StreamClaim);
  transport : Sink (list Emission)
}.

Definition finish_terminal_forwarding (c : Channel) : Channel :=
  match activity_state_ c with
  | ActivityState.TerminalForwarding =>
      { c with activity_ := false; stream_subscription_ := None;
               activity_state_ := ActivityState.Released }
  | _ => c
  end.

Definition release_activity (c : Channel) : Channel :=
  match activity_state_ c with
  | ActivityState.OpenRequest | ActivityState.OpenLegacySubscription =>
      { c with activity_ := false; activity_state_ := ActivityState.Released }
  | _ => c
  end.

Definition session_claim_public_terminal (c : Channel) : bool * Channel :=
  match activity_state_ c with
  | ActivityState.OpenRequest | ActivityState.OpenLegacySubscription =>
      (true, { c with activity_state_ := ActivityState.TerminalForwarding })
  | _ => (false, c)
  end.

Definition session_claim_stream_forward_terminal (c : Channel) : bool * Channel :=
  match activity_state_ c with
  | ActivityState.OpenStreamSubscription =>
      (true, { c with activity_state_ := ActivityState.TerminalForwarding })
  | _ => (false, c)
  end.

Definition begin_protocol_terminal_forwarding (c : Channel) : bool * Channel :=
  match activity_state_ c with
  | ActivityState.ProtocolTerminating =>
      (true, { c with activity_state_ := ActivityState.TerminalForwarding })
  | _ => (false, c)
  end.

(** The subscription, where a claim can reach it. *)
Definition claimable (c : Channel) : option (list StreamClaim) :=
  match activity_state_ c with
  | ActivityState.OpenStreamSubscription | ActivityState.TerminalForwarding =>
      stream_subscription_ c
  | _ => None
  end.

Definition claim_stream_terminal (claim : StreamClaim) (c : Channel) : bool * Channel :=
  match claimable c with
  | Some claims => (true, { c with stream_subscription_ := Some (claims ++ [claim]) })
  | None => (false, c)
  end.

Definition route_protocol_terminal (claim : StreamClaim) (c : Channel) : bool * Channel :=
  match activity_state_ c with
  | ActivityState.OpenRequest =>
      (false, { c with activity_state_ := ActivityState.ProtocolTerminating })
  | _ => claim_stream_terminal claim c
  end.

(** The tracker's answer to the promotion of the token is [promoted]. *)
Definition promote_to_subscription (promoted : bool) (c : Channel) : bool * Channel :=
  match activity_state_ c with
  | ActivityState.OpenRequest =>
      if promoted
      then (true, { c with activity_state_ := ActivityState.OpenLegacySubscription })
      else (false, c)
  | _ => (false, c)
  end.

Section Transport.
Context {transport_class : Derived (list Emission)}.

(** A call of the transport, and what the session does after it. *)
Definition forward {A} (call : Sink (list Emission) -> A * Sink (list Emission))
    (after : Channel -> Channel) (c : Channel) : A * Channel :=
  let '(a, t) := call (transport c) in (a, after { c with transport := t }).

(** The virtual methods of the session. *)
#[export] Instance session_sink : Derived Channel := {|
  emit e :=
    match e with
    | EItem data => forward (item data) (fun c => c)
    | EProgress data => forward (progress data) (fun c => c)
    | EResult data => forward (result_ data) finish_terminal_forwarding
    | ERawResult canonical => forward (raw_result canonical) (fun c => c)
    | EError code message details exit_code =>
        forward (error code message details exit_code) finish_terminal_forwarding
    | EChallenge _ => fun c => (Ok Suppressed, c)
    end;
  emit_challenge data c :=
    let '(reply, c) := forward (challenge_ data) (fun c => c) c in
    (match reply with
     | Ok a => Ok {| reply_answer := a; reply_failure := None |}
     | Err e => Err e
     end, c);
  claim_public_terminal := session_claim_public_terminal;
  claim_stream_forward_terminal := session_claim_stream_forward_terminal
|}.
End Transport.

(** * The session *)

Definition kConsumedChallengeLimit : nat := 16.

Record Session := {
  request_ : Request;
  deadline_ : RequestDeadline;
  state_ : State.t;
  next_sequence_ : Z;
  current_ : option CurrentChallenge;
  resolution_ : option Resolution;
  consumed_ : list Identity;
  answer_reserved_ : bool;
  reserved_identity_ : option Identity;
  latest_auth_identity_ : option (Z * Z);
  in_flight_state_ : InFlightState.t;
  stop_requested : bool;
  audited_terminal_ : bool;
  terminal_batch_claimed_ : bool;
  terminal_batch_finished_ : bool;
  audited_terminal_event_ : option TerminalStatus.t;
  disconnected_at_ : option Z;
  shutdown_at_ : option Z;
  shutdown_requested_ : bool;
  sink_ : Sink Channel
}.

(** [std::invalid_argument] of the constructor. *)
Definition compute_deadline (now : Z) (request : Request) : result failure RequestDeadline :=
  of_option (Rejected "request timeout must be finite, positive, and representable")
    (request_deadline (timeout_seconds (context request)) Default60 now).

Definition new_session (json_dump : json -> option string) (now : Z) (request : Request)
    (admission_deadline : option RequestDeadline) (request_activity : bool)
    (peer : Sink (list Emission)) : result failure Session :=
  frozen <- admit_request_source json_dump request ;;
  d <- (match admission_deadline with
        | Some d => Ok d
        | None => compute_deadline now frozen
        end) ;;
  Ok {| request_ := frozen; deadline_ := d; state_ := State.Running; next_sequence_ := 1;
        current_ := None; resolution_ := None; consumed_ := []; answer_reserved_ := false;
        reserved_identity_ := None; latest_auth_identity_ := None;
        in_flight_state_ := InFlightState.None; stop_requested := false;
        audited_terminal_ := false; terminal_batch_claimed_ := false;
        terminal_batch_finished_ := false; audited_terminal_event_ := None;
        disconnected_at_ := None; shutdown_at_ := None; shutdown_requested_ := false;
        sink_ := new_sink {| activity_state_ := ActivityState.OpenRequest;
                             activity_ := request_activity; stream_subscription_ := None;
                             transport := peer |} |}.

(** Performs an operation of the channel inside the session. *)
Definition on_channel {A} (operation : Channel -> A * Channel) (s : Session) : A * Session :=
  let '(a, c) := operation (derived (sink_ s)) in (a, { s with sink_ -> derived := c }).

Definition on_sink {A} (operation : Sink Channel -> A * Sink Channel) (s : Session) : A * Session :=
  let '(a, k) := operation (sink_ s) in (a, { s with sink_ := k }).

Definition expired (now : Z) (s : Session) : bool := deadline_expired (deadline_ s) now.

Definition running (s : Session) : bool := eqb (state_ s) State.Running.

(** ** Challenges and answers *)

Definition optional_uint (v : json) : option Z :=
  if is_null v then None
  else if is_number_unsigned v then Some (get_u64 v)
  else Some (u64 (get_i64 v)).

Inductive IdentityOrder := Stale | Equal | Future.

Definition opt_eqb (a b : option Z) : bool :=
  match a, b with Some x, Some y => x =? y | None, None => true | _, _ => false end.

Definition opt_below (a b : option Z) : bool :=
  match a, b with Some x, Some y => x <? y | _, _ => false end.

Definition compare_identity (current_generation current_auth_sequence : option Z) (a : Answer) :
    IdentityOrder :=
  let generation := optional_uint (jget (answer a) "client_generation") in
  let auth := optional_uint (jget (answer a) "auth_sequence") in
  if negb (opt_eqb generation current_generation) then
    if opt_below generation current_generation then Stale else Future
  else if opt_eqb auth current_auth_sequence then Equal
  else if opt_below auth current_auth_sequence then Stale
  else Future.

Definition resolve_current (o : ChallengeOutcome) (s : Session) : Session :=
  match current_ s with
  | None => s
  | Some c =>
      { s with resolution_ := Some {| resolved_sequence := sequence (identity c); outcome := o |};
               current_ := None }
  end.

Definition remember_consumed (i : Identity) (s : Session) : Session :=
  let all := consumed_ s ++ [i] in
  { s with consumed_ := skipn (List.length all - kConsumedChallengeLimit) all }.

(** A JSON number compared with an unsigned one: a signed number is compared
    at 64 signed bits.  Payloads that reach this comparison hold integers. *)
Definition number_is (v : json) (n : Z) : bool :=
  match v with
  | JUnsigned m => m =? n
  | JInteger m => m =? i64_of n
  | _ => false
  end.

Definition exact_consumed (a : Answer) (s : Session) : bool :=
  if negb (is_object (answer a)) || negb (contains (answer a) "nonce")
     || negb (contains (answer a) "sequence") || negb (contains (answer a) "client_generation")
     || negb (contains (answer a) "auth_sequence")
  then false
  else existsb (fun i =>
         (answer_id a =? request_id i) && eq_str (jget (answer a) "nonce") (nonce i)
         && number_is (jget (answer a) "sequence") (sequence i)
         && opt_eqb (optional_uint (jget (answer a) "client_generation")) (client_generation i)
         && opt_eqb (optional_uint (jget (answer a) "auth_sequence")) (auth_sequence i))
       (consumed_ s).

Definition status_of_state (st : State.t) : ChallengeStatus.t :=
  match st with
  | State.Disconnected => ChallengeStatus.Disconnected
  | State.Shutdown => ChallengeStatus.Shutdown
  | State.TimedOut => ChallengeStatus.TimedOut
  | _ => ChallengeStatus.ProtocolError
  end.

(** [a > b] on pairs. *)
Definition pair_after (a b : Z * Z) : bool :=
  (fst b <? fst a) || ((fst a =? fst b) && (snd b <? snd a)).

Definition nullable_u64 (v : option Z) : json :=
  match v with Some n => JUnsigned n | None => JNull end.

Definition challenge_payload (spec : ChallengeSpec) (i : Identity) : json :=
  jobject [("kind", JString (challenge_kind_name (spec_kind spec)));
           ("nonce", JString (nonce i));
           ("sequence", JUnsigned (sequence i));
           ("client_generation", nullable_u64 (client_generation i));
           ("auth_sequence", nullable_u64 (auth_sequence i));
           ("secret", JBool (challenge_kind_is_secret (spec_kind spec)));
           ("prompt", JString (spec_prompt spec));
           ("details", spec_details spec)].

(** What the first section of [challenge] does: it returns, throws, or leaves
    the payload to send. *)
Inductive Begun :=
| Returns (o : ChallengeOutcome)
| Throws (message : string)
| Sends (payload : json) (sequence : Z).

Definition clear_reservation (s : Session) : Session :=
  { s with answer_reserved_ := false; reserved_identity_ := None }.

Definition reservation_matches (spec : ChallengeSpec) (s : Session) : bool :=
  match reserved_identity_ s with
  | Some i => opt_eqb (client_generation i) (spec_client_generation spec)
              && opt_eqb (auth_sequence i) (spec_auth_sequence spec)
  | None => false
  end.

Definition superseded_spec (spec : ChallengeSpec) (s : Session) : bool :=
  match spec_client_generation spec, spec_auth_sequence spec, latest_auth_identity_ s with
  | Some g, Some q, Some latest => pair_after latest (g, q)
  | _, _, _ => false
  end.

(** The generator of nonces returns [generated], or throws. *)
Definition begin_challenge (now : Z) (generated : option string) (spec : ChallengeSpec)
    (s : Session) : Begun * Session :=
  if negb (tty (context (request_ s))) then (Returns (no_value ChallengeStatus.NoTty), s)
  else if negb (running s) then (Returns (no_value (status_of_state (state_ s))), s)
  else if expired now s then
    (Returns (no_value ChallengeStatus.TimedOut), { s with state_ := State.TimedOut })
  else
    match current_ s with
    | Some _ => (Throws "request already has an active challenge", s)
    | None =>
        if negb (Bool.eqb (match spec_client_generation spec with Some _ => true | None => false end)
                          (match spec_auth_sequence spec with Some _ => true | None => false end))
        then (Throws "challenge generation fields must have matching nullness", s)
        else if superseded_spec spec s then (Returns (no_value ChallengeStatus.Superseded), s)
        else if answer_reserved_ s && negb (reservation_matches spec s) then
          (Throws "reserved answer identity does not match continuation", s)
        else
          let s := if answer_reserved_ s then clear_reservation s else s in
          let seq := next_sequence_ s in
          let s := { s with next_sequence_ := u64 (seq + 1) } in
          match generated with
          | None => (Throws "cannot read system random source", s)
          | Some n =>
              let i := {| request_id := id (request_ s); nonce := n; sequence := seq;
                          client_generation := spec_client_generation spec;
                          auth_sequence := spec_auth_sequence spec |} in
              let p := challenge_payload spec i in
              match validate_challenge_payload p with
              | Err (Rejected e) => (Throws e, s)
              | Err Thrown => (Throws EmptyString, s)
              | Ok _ =>
                  (Sends p seq,
                   { s with current_ := Some {| kind := spec_kind spec; identity := i; payload := p;
                                                reserves_query := spec_reserves_query spec |};
                            resolution_ := None })
              end
          end
    end.

Section Operations.
Context {transport_class : Derived (list Emission)}.

Definition forward_protocol_fallback_error (code message : string) (details : json)
    (exit_code : Z) (s : Session) : delivery * Session :=
  let '(began, s) := on_channel begin_protocol_terminal_forwarding s in
  if negb began then (Ok Suppressed, s)
  else
    let '(claimed, s) := on_sink claim_protocol_fallback_terminal s in
    if negb claimed then
      (Ok Suppressed, snd (on_channel (fun c => (tt, finish_terminal_forwarding c)) s))
    else on_channel (forward (error code message details exit_code) finish_terminal_forwarding) s.

(** The end of [receive_answer] for a rejected answer. *)
Definition reject_answer (answer_request : Z) (reason : InvalidReason.t) (s : Session) :
    result unit AnswerDisposition.t * Session :=
  let s := { s with state_ := State.ProtocolError } in
  let '(routed, s) :=
    on_channel (route_protocol_terminal (ClaimProtocolAnswerInvalid answer_request reason)) s in
  let '(sent, s) :=
    if routed then (Ok Suppressed, s)
    else forward_protocol_fallback_error "PROTOCOL_ANSWER_INVALID" "invalid challenge answer"
           (jobject [("request_id", JUnsigned answer_request);
                     ("reason", JString (stream_protocol_answer_invalid_reason_name reason))])
           kUsage s in
  match sent with
  | Err _ => (Err tt, s)
  | Ok _ => (Ok AnswerDisposition.Rejected,
             resolve_current (no_value ChallengeStatus.ProtocolError) s)
  end.

(** The end of [receive_answer] for the answer to the current challenge. *)
Definition consume_answer (c : CurrentChallenge) (a : Answer) (s : Session) :
    AnswerDisposition.t * Session :=
  let s := remember_consumed (identity c) s in
  if contains (answer a) "cancelled" then
    (AnswerDisposition.Cancelled, resolve_current (no_value ChallengeStatus.Cancelled) s)
  else
    let s := if reserves_query c
             then { s with answer_reserved_ := true; reserved_identity_ := Some (identity c) }
             else s in
    let v := jget (answer a) "value" in
    let o := {| status := ChallengeStatus.Answered;
                value_ := if is_boolean v then BoolValue (get_bool v)
                          else StringValue (get_string v) |} in
    (AnswerDisposition.Accepted, resolve_current o s).

Definition receive_answer (now : Z) (a : Answer) (s : Session) :
    result unit AnswerDisposition.t * Session :=
  if negb (running s) then (Ok AnswerDisposition.RequestTerminated, s)
  else if expired now s then
    (Ok AnswerDisposition.RequestTerminated,
     resolve_current (no_value ChallengeStatus.TimedOut) { s with state_ := State.TimedOut })
  else
    let reject reason := reject_answer (answer_id a) reason s in
    match validate_answer_payload (answer a) with
    | Err _ => reject InvalidReason.Malformed
    | Ok _ =>
        if negb (answer_id a =? id (request_ s)) then reject InvalidReason.UnknownRequest
        else if exact_consumed a s then (Ok AnswerDisposition.DuplicateIgnored, s)
        else
          let seq := get_u64 (jget (answer a) "sequence") in
          match current_ s with
          | None =>
              if seq <? next_sequence_ s then (Ok AnswerDisposition.StaleIgnored, s)
              else reject InvalidReason.FutureSequence
          | Some c =>
              let i := identity c in
              if seq <? sequence i then (Ok AnswerDisposition.StaleIgnored, s)
              else if sequence i <? seq then reject InvalidReason.FutureSequence
              else
                match compare_identity (client_generation i) (auth_sequence i) a with
                | Stale => (Ok AnswerDisposition.StaleIgnored, s)
                | Future => reject InvalidReason.GenerationMismatch
                | Equal =>
                    if negb (eq_str (jget (answer a) "nonce") (nonce i)) then
                      reject InvalidReason.NonceMismatch
                    else if contains (answer a) "value"
                            && negb (Bool.eqb (challenge_kind_expects_boolean (kind c))
                                              (is_boolean (jget (answer a) "value")))
                    then reject InvalidReason.Malformed
                    else let '(d, s) := consume_answer c a s in (Ok d, s)
                end
          end
    end.

(** [challenge] after its first section: the payload goes to the transport. *)
Definition send_challenge (now : Z) (p : json) (s : Session) : result unit unit * Session :=
  let '(reply, s) := on_channel (forward (challenge_ p) (fun c => c)) s in
  match reply with
  | Err _ => (Err tt, s)
  | Ok (Some immediate) =>
      let '(d, s) := receive_answer now {| answer_id := id (request_ s); answer := immediate |} s in
      (match d with Ok _ => Ok tt | Err _ => Err tt end, s)
  | Ok None =>
      if has_terminal (transport (derived (sink_ s))) then
        let s := { s with state_ := State.ProtocolError } in
        let '(_, s) := on_channel (fun c => (tt, release_activity c)) s in
        (Ok tt, resolve_current (no_value ChallengeStatus.ProtocolError) s)
      else (Ok tt, s)
  end.

(** The loop of [challenge]: the condition, with the outcome it returns... *)
Definition challenge_outcome (seq : Z) (s : Session) : option ChallengeOutcome * Session :=
  match resolution_ s with
  | Some r => if resolved_sequence r =? seq
              then (Some (outcome r), { s with resolution_ := None }) else (None, s)
  | None => (None, s)
  end.

(** ... and the body, after the wait. *)
Definition challenge_wakes (now seq : Z) (s : Session) : Session :=
  match current_ s with
  | Some c =>
      if expired now s && (sequence (identity c) =? seq)
      then resolve_current (no_value ChallengeStatus.TimedOut) { s with state_ := State.TimedOut }
      else s
  | None => s
  end.

Definition supersede (generation auth : Z) (s : Session) : bool * Session :=
  if negb (running s) then (false, s)
  else
    let observed := (generation, auth) in
    let s := if match latest_auth_identity_ s with
                | None => true
                | Some latest => pair_after observed latest
                end
             then { s with latest_auth_identity_ := Some observed } else s in
    let i := match current_ s with
             | Some c => Some (identity c)
             | None => if answer_reserved_ s then reserved_identity_ s else None
             end in
    let newer := match i with
                 | Some i =>
                     match client_generation i, auth_sequence i with
                     | Some g, Some q =>
                         negb ((generation <? g) || ((generation =? g) && (auth <=? q)))
                     | _, _ => false
                     end
                 | None => false
                 end in
    if negb newer then (false, s)
    else
      (true, match current_ s with
             | Some _ => resolve_current (no_value ChallengeStatus.Superseded) s
             | None => clear_reservation s
             end).

(** ** Cancellation *)

(** The state announced through the in-flight hook, where it is called. *)
Definition disconnect (now : Z) (s : Session) : option InFlightState.t * Session :=
  if negb (running s) && negb (eqb (state_ s) State.TimedOut) then (None, s)
  else
    let s := { s with disconnected_at_ := Some now; stop_requested := true } in
    if terminal_batch_claimed_ s then (None, s)
    else
      let s := clear_reservation { s with state_ := State.Disconnected } in
      let s := resolve_current (no_value ChallengeStatus.Disconnected) s in
      let orphaned := eqb (in_flight_state_ s) InFlightState.InFlight in
      let s := if orphaned then { s with in_flight_state_ := InFlightState.Orphaned } else s in
      let '(claimed, s) := on_channel (claim_stream_terminal ClaimDisconnected) s in
      let s := if claimed then s else snd (on_channel (fun c => (tt, release_activity c)) s) in
      (if orphaned then Some InFlightState.Orphaned else None, s).

Definition shutdown (now : Z) (s : Session) : result unit unit * Session :=
  if negb (running s) then (Ok tt, s)
  else
    let s := { s with shutdown_at_ := match shutdown_at_ s with Some t => Some t | None => Some now end;
                      shutdown_requested_ := true; stop_requested := true } in
    let audited := audited_terminal_ s || terminal_batch_claimed_ s in
    let s := clear_reservation s in
    let s := if audited then s else { s with state_ := State.Shutdown } in
    let s := resolve_current (no_value ChallengeStatus.Shutdown) s in
    if audited then (Ok tt, s)
    else
      let '(claimed, s) := on_channel (claim_stream_terminal ClaimShutdown) s in
      if claimed then (Ok tt, s)
      else
        let '(d, s) := on_sink (error "DAEMON_SHUTDOWN" "daemon is shutting down"
                                  (jobject [("reason", JString "daemon_shutdown")]) kGeneric) s in
        (match d with Ok _ => Ok tt | Err _ => Err tt end, s).

Definition audit_fatal (s : Session) : Session :=
  if eqb (state_ s) State.Disconnected || eqb (state_ s) State.AuditFatal then s
  else
    let s := clear_reservation { s with state_ := State.AuditFatal; stop_requested := true } in
    let '(_, s) := on_channel (fun c => (tt, release_activity c)) s in
    resolve_current (no_value ChallengeStatus.ProtocolError) s.

Definition cancel_stream_transport (s : Session) : Session := { s with stop_requested := true }.

Definition destroy (now : Z) (s : Session) : Session :=
  let '(_, s) := disconnect now s in
  { s with sink_ -> derived ::= fun c =>
      let c := { c with stream_subscription_ := None } in
      match activity_state_ c with
      | ActivityState.Released => c
      | _ => { c with activity_ := false; activity_state_ := ActivityState.Released }
      end }.

(** ** Terminal arbitration *)

Definition terminal_of_state (st : State.t) : TerminalStatus.t :=
  match st with
  | State.Disconnected => TerminalStatus.Disconnected
  | State.Shutdown => TerminalStatus.Shutdown
  | State.TimedOut => TerminalStatus.TimedOut
  | _ => TerminalStatus.ProtocolError
  end.

Definition begin_terminal_batch (now : Z) (s : Session) : TerminalStatus.t * Session :=
  if shutdown_requested_ s then (TerminalStatus.Shutdown, s)
  else
    match state_ s with
    | State.Running =>
        if expired now s then (TerminalStatus.TimedOut, { s with state_ := State.TimedOut })
        else
          let '(reserved, s) := on_sink reserve_terminal_batch s in
          if negb reserved then (TerminalStatus.ProtocolError, s)
          else (TerminalStatus.Designated, { s with terminal_batch_claimed_ := true })
    | st => (terminal_of_state st, s)
    end.

(** The batch is finished once, by one of the two operations. *)
Definition take_batch (s : Session) : bool * Session :=
  if negb (terminal_batch_claimed_ s) || terminal_batch_finished_ s then (false, s)
  else (true, { s with terminal_batch_finished_ := true }).

Definition complete_terminal_batch (progress_data result_data : json) (s : Session) :
    delivery * Session :=
  let '(taken, s) := take_batch s in
  if negb taken then (Ok Suppressed, s)
  else on_sink (finish_terminal_batch progress_data result_data) s.

Definition session_fail_terminal_batch (code message : string) (details : json) (exit_code : Z)
    (s : Session) : delivery * Session :=
  let '(taken, s) := take_batch s in
  if negb taken then (Ok Suppressed, s)
  else on_sink (fail_terminal_batch code message details exit_code) s.

Definition begin_audited_terminal (now : Z) (s : Session) : TerminalStatus.t * Session :=
  if shutdown_requested_ s then (TerminalStatus.Shutdown, s)
  else
    match state_ s with
    | State.Running =>
        if expired now s then (TerminalStatus.TimedOut, { s with state_ := State.TimedOut })
        else (TerminalStatus.Designated, { s with audited_terminal_ := true })
    | st => (terminal_of_state st, s)
    end.

(** [!terminal_at || at < *terminal_at]. *)
Definition earlier (at_ : Z) (terminal_at : option Z) : bool :=
  match terminal_at with None => true | Some t => at_ <? t end.

(** The earliest known end of the request and its cause. *)
Definition terminal_cause (s : Session) : option Z * TerminalStatus.t :=
  let first := (expires_at (deadline_ s),
                match expires_at (deadline_ s) with
                | Some _ => TerminalStatus.TimedOut
                | None => TerminalStatus.Designated
                end) in
  let second := match disconnected_at_ s with
                | Some t => if earlier t (fst first) then (Some t, TerminalStatus.Disconnected)
                            else first
                | None => first
                end in
  match shutdown_at_ s with
  | Some t => if earlier t (fst second) then (Some t, TerminalStatus.Shutdown) else second
  | None => second
  end.

Definition claim_audited_terminal_event (committed_at : Z) (s : Session) :
    TerminalStatus.t * Session :=
  match audited_terminal_event_ s with
  | Some event => (event, s)
  | None =>
      let '(r, s) :=
        if negb (audited_terminal_ s) then (TerminalStatus.ProtocolError, s)
        else
          let '(terminal_at, cause) := terminal_cause s in
          if earlier committed_at terminal_at then (TerminalStatus.Designated, s)
          else (cause, match cause with
                       | TerminalStatus.TimedOut => { s with state_ := State.TimedOut }
                       | _ => s
                       end) in
      (r, match r with
          | TerminalStatus.Designated => s
          | _ => { s with audited_terminal_event_ := Some r }
          end)
  end.

(** Whether [dispatch()] runs is [Dispatched]; it runs under the mutex and is
    the caller's code. *)
Definition dispatch_audited (now : Z) (s : Session) : DispatchStatus.t :=
  if negb (audited_terminal_ s) then DispatchStatus.ProtocolError
  else if shutdown_requested_ s then DispatchStatus.Shutdown
  else
    match state_ s with
    | State.Running => if expired now s then DispatchStatus.TimedOut else DispatchStatus.Dispatched
    | State.Disconnected => DispatchStatus.Disconnected
    | State.Shutdown => DispatchStatus.Shutdown
    | State.TimedOut => DispatchStatus.TimedOut
    | State.ProtocolError | State.AuditFatal => DispatchStatus.ProtocolError
    end.

(** ** In-flight queries *)

Definition reserve_in_flight (s : Session) : bool * Session :=
  if negb (running s) || negb (answer_reserved_ s)
     || negb (eqb (in_flight_state_ s) InFlightState.None)
  then (false, s)
  else (true, { clear_reservation s with in_flight_state_ := InFlightState.InFlight }).

Definition reserve_direct_in_flight (s : Session) : bool * Session :=
  if negb (running s) || (match current_ s with Some _ => true | None => false end)
     || answer_reserved_ s || negb (eqb (in_flight_state_ s) InFlightState.None)
  then (false, s)
  else (true, { s with in_flight_state_ := InFlightState.InFlight }).

Definition settle_in_flight (s : Session) : bool * Session :=
  if eqb (in_flight_state_ s) InFlightState.None then (false, s)
  else (true, { s with in_flight_state_ := InFlightState.None }).

(** ** Stream activation

    The section of [activate_stream_subscription] under [activity_mutex_]; the
    reservation made before it belongs to the ingress hub.  [tracked] is the
    activity mode, [committed] the answer of [commit_promotion] (through the
    tracker in tracked mode).  [TerminalClaimed] stands for the two results
    that depend on the hub's snapshot of the subscription. *)
Inductive ActivationResult := Activated | RequestClosed | ActivityUnavailable | TerminalClaimed.

Definition activate_stream (now : Z) (tracked committed : bool) (s : Session) :
    ActivationResult * Session :=
  match activity_state_ (derived (sink_ s)) with
  | ActivityState.OpenRequest =>
      if expired now s then (TerminalClaimed, s)
      else if stop_requested s then (RequestClosed, s)
      else if (tracked && negb (activity_ (derived (sink_ s))))
              || (negb tracked && activity_ (derived (sink_ s)))
      then (ActivityUnavailable, s)
      else if negb committed then (TerminalClaimed, s)
      else
        (Activated,
         { s with sink_ -> derived ::= fun c =>
             { c with activity_ := false;
                      activity_state_ := ActivityState.OpenStreamSubscription;
                      stream_subscription_ := Some [] } })
  | _ => (RequestClosed, s)
  end.
End Operations.
