(* ===== verification/RequestSessionFacts.v ===== *)
(** Properties of request sessions: answers are accepted at most once and
    replays are harmless, a session that stopped running never runs again, the
    audited terminal event is the earliest cause and final, and the transport
    of a session sees one terminal frame. *)
From S2P Require Import Prelude Json Deadline Frame ResponseSink RequestSession.

Create HintDb session.

(** * Executions

    Threads perform operations of a session in any order; [OSend], [OWake] and
    [OCollect] are the later parts of a [challenge] call. *)

Inductive Operation :=
| OBegin (now : Z) (generated : option string) (spec : ChallengeSpec)
| OSend (now : Z) (p : json)
| OWake (now seq : Z)
| OCollect (seq : Z)
| OAnswer (now : Z) (a : Answer)
| OSupersede (generation auth : Z)
| ODisconnect (now : Z)
| OShutdown (now : Z)
| OAuditFatal
| OCancelTransport
| ODestroy (now : Z)
| OBeginBatch (now : Z)
| OCompleteBatch (progress_data result_data : json)
| OFailBatch (code message : string) (details : json) (exit_code : Z)
| OBeginAudited (now : Z)
| OClaimEvent (committed_at : Z)
| OReserve
| OReserveDirect
| OSettle
| OPromote (promoted : bool)
| OActivate (now : Z) (tracked committed : bool)
| OItem (data : json)
| OProgress (data : json)
| OResult (data : json)
| ORawResult (canonical : string)
| OError (code message : string) (details : json) (exit_code : Z)
| OForwardResult (data : json)
| OForwardError (code message : string) (details : json) (exit_code : Z).

Section Executions.
Context {transport_class : Derived (list Emission)}.

Definition perform (s : Session) (o : Operation) : Session :=
  match o with
  | OBegin now generated spec => snd (begin_challenge now generated spec s)
  | OSend now p => snd (send_challenge now p s)
  | OWake now seq => challenge_wakes now seq s
  | OCollect seq => snd (challenge_outcome seq s)
  | OAnswer now a => snd (receive_answer now a s)
  | OSupersede g q => snd (supersede g q s)
  | ODisconnect now => snd (disconnect now s)
  | OShutdown now => snd (shutdown now s)
  | OAuditFatal => audit_fatal s
  | OCancelTransport => cancel_stream_transport s
  | ODestroy now => destroy now s
  | OBeginBatch now => snd (begin_terminal_batch now s)
  | OCompleteBatch p r => snd (complete_terminal_batch p r s)
  | OFailBatch code message details exit_code =>
      snd (session_fail_terminal_batch code message details exit_code s)
  | OBeginAudited now => snd (begin_audited_terminal now s)
  | OClaimEvent committed_at => snd (claim_audited_terminal_event committed_at s)
  | OReserve => snd (reserve_in_flight s)
  | OReserveDirect => snd (reserve_direct_in_flight s)
  | OSettle => snd (settle_in_flight s)
  | OPromote promoted => snd (on_channel (promote_to_subscription promoted) s)
  | OActivate now tracked committed => snd (activate_stream now tracked committed s)
  | OItem data => snd (on_sink (item data) s)
  | OProgress data => snd (on_sink (progress data) s)
  | OResult data => snd (on_sink (result_ data) s)
  | ORawResult canonical => snd (on_sink (raw_result canonical) s)
  | OError code message details exit_code =>
      snd (on_sink (error code message details exit_code) s)
  | OForwardResult data => snd (on_sink (forward_stream_result data) s)
  | OForwardError code message details exit_code =>
      snd (on_sink (forward_stream_error code message details exit_code) s)
  end.

Definition run (s : Session) (operations : list Operation) : Session :=
  fold_left perform operations s.
End Executions.

(** * Invariant and progress *)

(** Sequence numbers below the next one, a bounded memory of consumed
    challenges, and an answer reserved only between challenges. *)
Record wf (s : Session) : Prop := {
  wf_next : 1 <= next_sequence_ s;
  wf_current : forall c, current_ s = Some c ->
    1 <= sequence (identity c) < next_sequence_ s /\
    request_id (identity c) = id (request_ s) /\ answer_reserved_ s = false;
  wf_consumed : (List.length (consumed_ s) <= kConsumedChallengeLimit)%nat /\
    Forall (fun i => sequence i < next_sequence_ s) (consumed_ s);
  wf_reserved : answer_reserved_ s = false -> reserved_identity_ s = None
}.

Section Steps.
Context {transport_class : Derived (list Emission)}.

(** The peer's sink was only called, and never left inside a batch. *)
Definition driven (t t' : Sink (list Emission)) : Prop :=
  exists calls, ResponseSink.run {| the_sink := t; waiting := [] |} calls
                = {| the_sink := t'; waiting := [] |}.

Definition peer (s : Session) : Sink (list Emission) := transport (derived (sink_ s)).

Lemma driven_refl t : driven t t.
Proof. now exists []. Qed.

Lemma driven_trans t1 t2 t3 : driven t1 t2 -> driven t2 t3 -> driven t1 t3.
Proof.
  intros [c1 H1] [c2 H2]. exists (c1 ++ c2). unfold ResponseSink.run in *.
  now rewrite fold_left_app, H1.
Qed.

Lemma driven_call t call t' :
  step {| the_sink := t; waiting := [] |} call = {| the_sink := t'; waiting := [] |} -> driven t t'.
Proof. intros H. now exists [call]. Qed.

#[local] Hint Resolve driven_refl : core.

(** What never goes back. *)
Record later (s s' : Session) : Prop := {
  l_request : request_ s' = request_ s;
  l_deadline : deadline_ s' = deadline_ s;
  l_next : next_sequence_ s <= next_sequence_ s';
  l_state : state_ s <> State.Running -> state_ s' <> State.Running;
  l_current : forall c, current_ s' = Some c ->
    current_ s = Some c \/ next_sequence_ s <= sequence (identity c);
  l_event : forall e, audited_terminal_event_ s = Some e -> audited_terminal_event_ s' = Some e;
  l_stop : stop_requested s = true -> stop_requested s' = true;
  l_shutdown : shutdown_requested_ s = true -> shutdown_requested_ s' = true;
  l_batch : terminal_batch_finished_ s = true -> terminal_batch_finished_ s' = true;
  l_transport : driven (peer s) (peer s')
}.

(** An operation that begins no challenge. *)
Definition quiet (s s' : Session) : Prop :=
  (wf s -> wf s') /\ later s s' /\ next_sequence_ s' = next_sequence_ s.

Lemma later_refl s : later s s.
Proof. split; auto; lia. Qed.

Lemma later_trans s1 s2 s3 : later s1 s2 -> later s2 s3 -> later s1 s3.
Proof.
  intros H K. split.
  - now rewrite (l_request _ _ K), (l_request _ _ H).
  - now rewrite (l_deadline _ _ K), (l_deadline _ _ H).
  - pose proof (l_next _ _ H). pose proof (l_next _ _ K). lia.
  - intros N. apply (l_state _ _ K), (l_state _ _ H), N.
  - intros c E. pose proof (l_next _ _ H).
    destruct (l_current _ _ K c E) as [E2|E2]; [exact (l_current _ _ H c E2)|right; lia].
  - intros e E. apply (l_event _ _ K), (l_event _ _ H), E.
  - intros E. apply (l_stop _ _ K), (l_stop _ _ H), E.
  - intros E. apply (l_shutdown _ _ K), (l_shutdown _ _ H), E.
  - intros E. apply (l_batch _ _ K), (l_batch _ _ H), E.
  - exact (driven_trans _ _ _ (l_transport _ _ H) (l_transport _ _ K)).
Qed.

Lemma quiet_refl s : quiet s s.
Proof. split; [auto|split; [apply later_refl|reflexivity]]. Qed.

Lemma quiet_trans s1 s2 s3 : quiet s1 s2 -> quiet s2 s3 -> quiet s1 s3.
Proof.
  intros (W1 & L1 & N1) (W2 & L2 & N2). split; [auto|split; [|congruence]].
  exact (later_trans _ _ _ L1 L2).
Qed.

(** A step that leaves the challenge data alone, or clears it. *)
Ltac quiet_record :=
  split; [intros [? WC ? ?]; split; cbn in *; auto
         |split; [split; cbn; auto; try lia; try congruence|reflexivity]].

(** Operations of the channel, and of the session's sink, that only call the
    peer. *)
Definition channel_op {A} (f : Channel -> A * Channel) : Prop :=
  forall c, driven (transport c) (transport (snd (f c))).
Definition sink_op {A} (f : Sink Channel -> A * Sink Channel) : Prop :=
  forall k, driven (transport (derived k)) (transport (derived (snd (f k)))).

Lemma quiet_on_channel {A} (f : Channel -> A * Channel) s :
  channel_op f -> quiet s (snd (on_channel f s)).
Proof.
  intros F. unfold on_channel. specialize (F (derived (sink_ s))).
  destruct (f _). destruct s. quiet_record.
Qed.

Lemma quiet_on_sink {A} (f : Sink Channel -> A * Sink Channel) s :
  sink_op f -> quiet s (snd (on_sink f s)).
Proof.
  intros F. unfold on_sink. specialize (F (sink_ s)). destruct (f _). destruct s. quiet_record.
Qed.

Lemma quiet_resolve o s : quiet s (resolve_current o s).
Proof.
  unfold resolve_current. destruct (current_ s) eqn:E; [|apply quiet_refl].
  destruct s. cbn in *. quiet_record; discriminate.
Qed.

Lemma quiet_clear s : quiet s (clear_reservation s).
Proof.
  destruct s. quiet_record. intros c E. destruct (WC c E) as (? & ? & ?). auto.
Qed.

Lemma quiet_state st s : st <> State.Running -> quiet s { s with state_ := st }.
Proof. intros N. destruct s. quiet_record. Qed.

Lemma quiet_channel_step {A} (f : Channel -> A * Channel) s a s1 :
  on_channel f s = (a, s1) -> channel_op f -> quiet s s1.
Proof. intros E F. pose proof (quiet_on_channel f s F) as Q. now rewrite E in Q. Qed.

Lemma quiet_sink_step {A} (f : Sink Channel -> A * Sink Channel) s a s1 :
  on_sink f s = (a, s1) -> sink_op f -> quiet s s1.
Proof. intros E F. pose proof (quiet_on_sink f s F) as Q. now rewrite E in Q. Qed.

(** ** Operations that only call the peer *)

Lemma finish_transport c : transport (finish_terminal_forwarding c) = transport c.
Proof. unfold finish_terminal_forwarding. now destruct (activity_state_ c). Qed.

Lemma release_transport c : transport (release_activity c) = transport c.
Proof. unfold release_activity. now destruct (activity_state_ c). Qed.

Lemma channel_forward {A} (call : Sink (list Emission) -> A * Sink (list Emission)) after :
  (forall t, driven t (snd (call t))) -> (forall c, transport (after c) = transport c) ->
  channel_op (forward call after).
Proof.
  intros D F c. unfold forward. specialize (D (transport c)). destruct (call _). cbn [snd].
  now rewrite F.
Qed.

Lemma channel_emit e : channel_op (emit e).
Proof.
  destruct e; [..|intros c; apply driven_refl]; apply channel_forward;
    auto using finish_transport; intros peer.
  - now apply (driven_call peer (CItem data)).
  - now apply (driven_call peer (CProgress data)).
  - now apply (driven_call peer (CResult data)).
  - now apply (driven_call peer (CRawResult canonical)).
  - now apply (driven_call peer (CError code message details exit_code)).
Qed.

Lemma channel_challenge p : channel_op (forward (challenge_ p) (fun c => c)).
Proof. apply channel_forward; auto. intros peer. now apply (driven_call peer (CChallenge p)). Qed.

Lemma channel_finish : channel_op (fun c => (tt, finish_terminal_forwarding c)).
Proof. intros c. cbn. rewrite finish_transport. auto. Qed.

Lemma channel_release : channel_op (fun c => (tt, release_activity c)).
Proof. intros c. cbn. rewrite release_transport. auto. Qed.

Lemma channel_claim claim : channel_op (claim_stream_terminal claim).
Proof. intros c. unfold claim_stream_terminal. destruct (claimable c); apply driven_refl. Qed.

Lemma channel_route claim : channel_op (route_protocol_terminal claim).
Proof.
  intros c. unfold route_protocol_terminal. pose proof (channel_claim claim c).
  destruct (activity_state_ c); auto.
Qed.

Lemma channel_begin_protocol : channel_op begin_protocol_terminal_forwarding.
Proof.
  intros c. unfold begin_protocol_terminal_forwarding.
  destruct (activity_state_ c); apply driven_refl.
Qed.

Lemma channel_promote promoted : channel_op (promote_to_subscription promoted).
Proof.
  intros c. unfold promote_to_subscription.
  destruct (activity_state_ c); try destruct promoted; apply driven_refl.
Qed.

Lemma sink_emits e : sink_op (emits e).
Proof.
  intros k. unfold emits. pose proof (channel_emit e (derived k)) as D. now destruct (emit e _).
Qed.

Lemma emits_from e k k' :
  transport (derived k') = transport (derived k) ->
  driven (transport (derived k)) (transport (derived (snd (emits e k')))).
Proof. intros <-. apply sink_emits. Qed.

Lemma sink_item data : sink_op (item data).
Proof. intros k. unfold item. destruct (terminal_ k); [apply driven_refl|apply sink_emits]. Qed.

Lemma sink_progress data : sink_op (progress data).
Proof. intros k. unfold progress. destruct (terminal_ k); [apply driven_refl|apply sink_emits]. Qed.

Lemma sink_public e : sink_op (public_terminal e).
Proof.
  intros k. unfold public_terminal. destruct (terminal_ k); [apply driven_refl|]. cbn.
  unfold session_claim_public_terminal.
  destruct (activity_state_ _); try apply driven_refl; now apply emits_from.
Qed.

Lemma sink_forward e : sink_op (forward_stream e).
Proof.
  intros k. unfold forward_stream. destruct (terminal_ k); [apply driven_refl|]. cbn.
  unfold session_claim_stream_forward_terminal.
  destruct (activity_state_ _); try apply driven_refl; now apply emits_from.
Qed.

Lemma sink_claim_fallback : sink_op claim_protocol_fallback_terminal.
Proof. intros k. unfold claim_protocol_fallback_terminal. destruct (terminal_ k); apply driven_refl. Qed.

Lemma sink_reserve : sink_op reserve_terminal_batch.
Proof.
  intros k. unfold reserve_terminal_batch. destruct (terminal_ k); [apply driven_refl|]. cbn.
  unfold session_claim_public_terminal. destruct (activity_state_ _); apply driven_refl.
Qed.

Lemma sink_finish p r : sink_op (finish_terminal_batch p r).
Proof.
  intros k. unfold finish_terminal_batch, finish_terminal_batch_progress.
  destruct (negb _); [apply driven_refl|].
  match goal with |- context [emits (EProgress p) ?k'] =>
    pose proof (emits_from (EProgress p) k k' eq_refl) as D;
    destruct (emits (EProgress p) k') as [[] k1]; [|exact D]
  end.
  cbn [snd] in D.
  exact (driven_trans _ _ _ D (sink_emits (EResult r) k1)).
Qed.

Lemma sink_fail code message details exit_code :
  sink_op (fail_terminal_batch code message details exit_code).
Proof.
  intros k. unfold fail_terminal_batch. destruct (negb _); [apply driven_refl|]. now apply emits_from.
Qed.

#[local] Hint Resolve channel_emit channel_challenge channel_finish channel_release channel_claim
  channel_route channel_begin_protocol channel_promote sink_item sink_progress sink_public
  sink_forward sink_claim_fallback sink_reserve sink_finish sink_fail : session.
#[local] Hint Unfold result_ raw_result error forward_stream_result forward_stream_error : session.
#[local] Hint Resolve quiet_refl quiet_on_channel quiet_on_sink quiet_resolve quiet_clear
  quiet_state quiet_channel_step quiet_sink_step : session.
#[local] Hint Extern 1 (_ <> State.Running) => discriminate : session.
#[local] Hint Extern 1 (channel_op (forward (error ?c ?m ?d ?e) _)) =>
  exact (channel_emit (EError c m d e)) : session.
#[local] Hint Extern 1 (sink_op (error ?c ?m ?d ?e)) =>
  exact (sink_public (EError c m d e)) : session.

(** The state of a returned pair, without unfolding it. *)
Ltac returned H :=
  apply (f_equal snd) in H; cbn [snd] in H; match type of H with _ = ?s => subst s end.

(** Goes on from the state reached by a step of the channel or of the sink. *)
Ltac via E :=
  eapply quiet_trans; [first [apply (quiet_channel_step _ _ _ _ E); solve [auto with session]
                             |apply (quiet_sink_step _ _ _ _ E); solve [auto with session]]|].

Lemma quiet_fallback code message details exit_code s a s1 :
  forward_protocol_fallback_error code message details exit_code s = (a, s1) -> quiet s s1.
Proof.
  unfold forward_protocol_fallback_error.
  destruct (on_channel begin_protocol_terminal_forwarding s) as [began s2] eqn:E1.
  destruct began; cbn [negb]; [|intros H; returned H; eauto with session].
  destruct (on_sink claim_protocol_fallback_terminal s2) as [claimed s3] eqn:E2.
  destruct claimed; cbn [negb]; intros H; [|returned H]; via E1; via E2;
    eauto with session.
Qed.

Lemma quiet_reject request reason s d s1 : reject_answer request reason s = (d, s1) -> quiet s s1.
Proof.
  unfold reject_answer. destruct (on_channel _ _) as [routed s2] eqn:E1. intros H.
  eapply quiet_trans; [apply (quiet_state State.ProtocolError); discriminate|].
  via E1.
  destruct routed; [returned H; auto with session|].
  destruct (forward_protocol_fallback_error _ _ _ _ s2) as [[]] eqn:E2; returned H;
    apply quiet_fallback in E2; auto. eapply quiet_trans; eauto with session.
Qed.

Lemma skipn_Forall {A} (P : A -> Prop) n l : Forall P l -> Forall P (skipn n l).
Proof.
  revert l. induction n as [|n IH]; intros [|x l] F; cbn; auto. apply IH. now inversion F.
Qed.

Lemma quiet_remember c s :
  current_ s = Some c -> quiet s (remember_consumed (identity c) s).
Proof.
  unfold remember_consumed. cbv zeta. set (kept := skipn _ _). intros C.
  assert (K : forall n, Forall (fun i => sequence i < n) (consumed_ s) ->
    sequence (identity c) < n -> Forall (fun i => sequence i < n) kept)
    by (intros n F B; apply skipn_Forall, Forall_app; auto).
  assert (B : (List.length kept <= kConsumedChallengeLimit)%nat)
    by (subst kept; rewrite length_skipn; lia).
  clearbody kept. destruct s. cbn in C, K. subst.
  split; [intros [? WC [? ?] ?]; split; cbn in *; auto; split; auto; apply K; auto; apply WC; auto
         |split; [split; cbn; auto; lia|reflexivity]].
Qed.

(** The current challenge is resolved with its answer reserved. *)
Lemma quiet_accept c o s :
  current_ s = Some c ->
  quiet s (resolve_current o { s with answer_reserved_ := true;
                                      reserved_identity_ := Some (identity c) }).
Proof.
  intros C. unfold resolve_current. cbn. destruct s. cbn in C. subst.
  split; [intros [? WC ? ?]; split; cbn in *; auto; discriminate
         |split; [split; cbn; auto; try lia; discriminate|reflexivity]].
Qed.

Lemma quiet_consume c a s d s1 :
  current_ s = Some c -> consume_answer c a s = (d, s1) -> quiet s s1.
Proof.
  intros C H. unfold consume_answer in H. eapply quiet_trans; [exact (quiet_remember c s C)|].
  destruct (contains _ _); [|destruct (reserves_query c)]; returned H; auto with session.
  now apply quiet_accept.
Qed.

Lemma quiet_answer now a s d s1 : receive_answer now a s = (d, s1) -> quiet s s1.
Proof.
  unfold receive_answer. destruct (negb (running s)); [intros H; returned H; auto with session|].
  destruct (expired now s).
  { intros H. returned H. eapply quiet_trans; [|apply quiet_resolve]. auto with session. }
  destruct (validate_answer_payload (answer a)); [|apply quiet_reject].
  destruct (negb _); [apply quiet_reject|].
  destruct (exact_consumed a s); [intros H; returned H; auto with session|].
  destruct (current_ s) as [c|] eqn:C.
  - repeat match goal with
           | |- (if ?b then _ else _) = _ -> _ => destruct b
           | |- match ?o with _ => _ end = _ -> _ => destruct o eqn:?
           end; try apply quiet_reject; intros H; returned H; auto with session.
    eapply quiet_consume; eassumption.
  - destruct (_ <? _); [|apply quiet_reject]. intros H; returned H; auto with session.
Qed.

(** Setting a field that no challenge depends on. *)
Ltac quiet_field := match goal with |- quiet ?s _ => destruct s; quiet_record end.

Lemma quiet_send now p s r s1 : send_challenge now p s = (r, s1) -> quiet s s1.
Proof.
  unfold send_challenge. destruct (on_channel _ s) as [reply s2] eqn:E1. intros H. via E1.
  destruct reply as [[immediate|]|]; [| |returned H; auto with session].
  - destruct (receive_answer _ _ s2) as [d s3] eqn:E2. returned H. exact (quiet_answer _ _ _ _ _ E2).
  - destruct (has_terminal _); [|returned H; auto with session].
    eapply quiet_trans; [apply (quiet_state State.ProtocolError); discriminate|].
    destruct (on_channel _ _) as [[] s3] eqn:E2 in H. returned H. via E2. auto with session.
Qed.

Lemma quiet_wakes now seq s : quiet s (challenge_wakes now seq s).
Proof.
  unfold challenge_wakes. destruct (current_ s); [|auto with session].
  destruct (_ && _); [|auto with session]. eapply quiet_trans; [|apply quiet_resolve].
  auto with session.
Qed.

Lemma quiet_collect seq s : quiet s (snd (challenge_outcome seq s)).
Proof.
  unfold challenge_outcome. destruct (resolution_ s); [|apply quiet_refl].
  destruct (_ =? _); [|apply quiet_refl]. cbn [snd]. quiet_field.
Qed.

Lemma quiet_supersede g q s : quiet s (snd (supersede g q s)).
Proof.
  unfold supersede. destruct (negb _); [apply quiet_refl|]. cbv zeta.
  match goal with |- context [if ?b then ?x else s] => set (s1 := if b then x else s) end.
  assert (Q : quiet s s1).
  { subst s1. destruct (latest_auth_identity_ s) as [l|]; [destruct (pair_after _ l)|];
      (apply quiet_refl || quiet_field). }
  clearbody s1. eapply quiet_trans; [exact Q|]. destruct (negb _); [apply quiet_refl|]. cbn [snd].
  destruct (current_ s1); auto with session.
Qed.

Lemma quiet_disconnect now s : quiet s (snd (disconnect now s)).
Proof.
  unfold disconnect. destruct (_ && _); [apply quiet_refl|]. cbv zeta.
  match goal with |- context [apply_update ?u ?x] => set (s0 := apply_update u x) end. assert (Q0 : quiet s s0) by quiet_field.
  destruct (terminal_batch_claimed_ s0); [exact Q0|].
  set (s1 := resolve_current _ _). assert (Q1 : quiet s0 s1).
  { eapply quiet_trans; [|apply quiet_resolve]. eapply quiet_trans; [|apply quiet_clear].
    auto with session. }
  eapply quiet_trans; [exact Q0|]. eapply quiet_trans; [exact Q1|]. clearbody s1.
  set (s2 := if eqb (in_flight_state_ s1) InFlightState.InFlight then _ else s1).
  assert (Q2 : quiet s1 s2) by (subst s2; destruct (eqb _ _); [quiet_field|apply quiet_refl]).
  clearbody s2. destruct (on_channel _ s2) as [claimed s3] eqn:E3. cbn [snd].
  eapply quiet_trans; [exact Q2|]. via E3. destruct claimed; auto with session.
Qed.

Lemma quiet_shutdown now s : quiet s (snd (shutdown now s)).
Proof.
  unfold shutdown. destruct (negb _); [apply quiet_refl|]. cbv zeta.
  match goal with |- context [apply_update ?u ?x] => set (s0 := apply_update u x) end. assert (Q0 : quiet s s0) by quiet_field. clearbody s0.
  set (s1 := resolve_current _ _). assert (Q1 : quiet s0 s1).
  { eapply quiet_trans; [|apply quiet_resolve]. eapply quiet_trans; [apply quiet_clear|].
    destruct (_ || _); auto with session. }
  clearbody s1. destruct (_ || _); [exact (quiet_trans _ _ _ Q0 Q1)|].
  destruct (on_channel _ s1) as [claimed s2] eqn:E2.
  do 2 (eapply quiet_trans; [eassumption|]). via E2. destruct claimed; [apply quiet_refl|].
  destruct (on_sink _ s2) as [d s3] eqn:E3. apply (quiet_sink_step _ _ _ _ E3); auto with session.
Qed.

Lemma quiet_audit_fatal s : quiet s (audit_fatal s).
Proof.
  unfold audit_fatal. destruct (_ || _); [apply quiet_refl|]. cbv zeta.
  destruct (on_channel _ _) as [[] s2] eqn:E2. eapply quiet_trans; [|apply quiet_resolve].
  eapply quiet_trans; [|apply (quiet_channel_step _ _ _ _ E2); auto with session].
  eapply quiet_trans; [|apply quiet_clear]. destruct s. quiet_record.
Qed.

Lemma quiet_destroy now s : quiet s (destroy now s).
Proof.
  unfold destroy. pose proof (quiet_disconnect now s) as Q. destruct (disconnect now s) as [n s1].
  eapply quiet_trans; [exact Q|]. clear Q. cbn. quiet_field.
  unfold peer. destruct sink_ as [? ? [[] ? ? ?]]; apply driven_refl.
Qed.

Lemma quiet_begin_batch now s : quiet s (snd (begin_terminal_batch now s)).
Proof.
  unfold begin_terminal_batch. destruct (shutdown_requested_ s); [apply quiet_refl|].
  destruct (state_ s); try apply quiet_refl. destruct (expired now s); [apply quiet_state; discriminate|].
  destruct (on_sink reserve_terminal_batch s) as [[] s1] eqn:E1; cbn [negb snd]; via E1; [quiet_field|apply quiet_refl].
Qed.

Lemma quiet_take s b s1 : take_batch s = (b, s1) -> quiet s s1.
Proof.
  unfold take_batch. destruct (_ || _); intros H; returned H; [apply quiet_refl|quiet_field].
Qed.

Lemma quiet_complete p r s : quiet s (snd (complete_terminal_batch p r s)).
Proof.
  unfold complete_terminal_batch. destruct (take_batch s) as [b s1] eqn:E.
  eapply quiet_trans; [exact (quiet_take _ _ _ E)|]. destruct b; cbn [negb]; auto with session.
Qed.

Lemma quiet_fail code message details exit_code s :
  quiet s (snd (session_fail_terminal_batch code message details exit_code s)).
Proof.
  unfold session_fail_terminal_batch. destruct (take_batch s) as [b s1] eqn:E.
  eapply quiet_trans; [exact (quiet_take _ _ _ E)|]. destruct b; cbn [negb]; auto with session.
Qed.

Lemma quiet_begin_audited now s : quiet s (snd (begin_audited_terminal now s)).
Proof.
  unfold begin_audited_terminal. destruct (shutdown_requested_ s); [apply quiet_refl|].
  destruct (state_ s); try apply quiet_refl. destruct (expired now s); [apply quiet_state; discriminate|].
  cbn [snd]. quiet_field.
Qed.

(** The event is set only where there was none. *)
Lemma quiet_set_event e s :
  audited_terminal_event_ s = None -> quiet s { s with audited_terminal_event_ := Some e }.
Proof. intros N. destruct s. cbn in N. subst. quiet_record. Qed.

Lemma quiet_claim_event committed_at s :
  quiet s (snd (claim_audited_terminal_event committed_at s)).
Proof.
  unfold claim_audited_terminal_event. destruct (audited_terminal_event_ s) eqn:N; [apply quiet_refl|].
  destruct (negb _); [now apply quiet_set_event|].
  destruct (terminal_cause s) as [terminal_at cause]. destruct (earlier _ _); [apply quiet_refl|].
  destruct cause; cbn [snd]; try apply quiet_refl; try now apply quiet_set_event.
  eapply quiet_trans; [apply (quiet_state State.TimedOut); discriminate|].
  apply quiet_set_event. now destruct s.
Qed.

Lemma quiet_reserve s : quiet s (snd (reserve_in_flight s)).
Proof.
  unfold reserve_in_flight. destruct (_ || _); [apply quiet_refl|]. cbn [snd].
  eapply quiet_trans; [apply quiet_clear|]. quiet_field.
Qed.

Lemma quiet_reserve_direct s : quiet s (snd (reserve_direct_in_flight s)).
Proof. unfold reserve_direct_in_flight. destruct (_ || _); [apply quiet_refl|cbn [snd]; quiet_field]. Qed.

Lemma quiet_settle s : quiet s (snd (settle_in_flight s)).
Proof. unfold settle_in_flight. destruct (eqb _ _); [apply quiet_refl|cbn [snd]; quiet_field]. Qed.

Lemma quiet_activate now tracked committed s :
  quiet s (snd (activate_stream now tracked committed s)).
Proof.
  unfold activate_stream. destruct (activity_state_ _); try apply quiet_refl.
  repeat match goal with |- context [if ?b then _ else _] => destruct b; [apply quiet_refl|] end.
  cbn [snd]. quiet_field.
Qed.

(** A sequence number is drawn, for a challenge [c] or for none. *)
Lemma draw_sequence s c r :
  wf s -> next_sequence_ s < u64_max -> current_ s = None -> answer_reserved_ s = false ->
  (forall x, c = Some x -> sequence (identity x) = next_sequence_ s /\
                           request_id (identity x) = id (request_ s)) ->
  let s' := { s with next_sequence_ := u64 (next_sequence_ s + 1); current_ := c; resolution_ := r } in
  wf s' /\ later s s' /\ next_sequence_ s' <= next_sequence_ s + 1.
Proof.
  intros [WN WC [WL WF] WR] B C A X. rewrite u64_small by lia.
  destruct s. cbn in *. subst. split; [|split; [|lia]].
  - split; cbn; auto; try lia.
    + intros x E. destruct (X x E) as [-> ->]. repeat split; auto; lia.
    + split; [exact WL|]. eapply Forall_impl; [|exact WF]. cbn. intros; lia.
  - split; cbn; auto; try lia. intros x E. destruct (X x E) as [-> _]. right. lia.
Qed.

(** A challenge begins with a fresh sequence number, or nothing begins. *)
Lemma begin_later now generated spec s :
  wf s -> next_sequence_ s < u64_max ->
  let s' := snd (begin_challenge now generated spec s) in
  wf s' /\ later s s' /\ next_sequence_ s' <= next_sequence_ s + 1.
Proof.
  intros W B. unfold begin_challenge.
  assert (Q : forall s', quiet s s' -> wf s' /\ later s s' /\ next_sequence_ s' <= next_sequence_ s + 1).
  { intros s' (K & L & N). split; [auto|split; [auto|lia]]. }
  destruct (negb _); [apply Q, quiet_refl|]. destruct (negb _); [apply Q, quiet_refl|].
  destruct (expired now s); [apply Q, quiet_state; discriminate|].
  destruct (current_ s) eqn:C; [apply Q, quiet_refl|].
  destruct (negb _); [apply Q, quiet_refl|]. destruct (superseded_spec _ _); [apply Q, quiet_refl|].
  destruct (_ && _); [apply Q, quiet_refl|]. cbv zeta.
  set (s1 := if answer_reserved_ s then clear_reservation s else s).
  assert (S1 : quiet s s1 /\ current_ s1 = None /\ answer_reserved_ s1 = false).
  { subst s1. destruct (answer_reserved_ s) eqn:A; [|auto with session].
    split; [apply quiet_clear|]. split; [exact C|reflexivity]. }
  clearbody s1. destruct S1 as ((K1 & L1 & N1) & C1 & A1). rewrite <- N1 in B |- *.
  assert (F : forall s', (wf s' /\ later s1 s' /\ next_sequence_ s' <= next_sequence_ s1 + 1) ->
    wf s' /\ later s s' /\ next_sequence_ s' <= next_sequence_ s1 + 1).
  { intros s' (? & L & ?). split; [auto|split; [exact (later_trans _ _ _ L1 L)|auto]]. }
  assert (Same : { s1 with next_sequence_ := u64 (next_sequence_ s1 + 1) } =
    { s1 with next_sequence_ := u64 (next_sequence_ s1 + 1); current_ := None;
              resolution_ := resolution_ s1 })
    by (destruct s1; cbn in *; now subst).
  destruct generated as [n|]; [destruct (validate_challenge_payload _) as [|[]]|];
    apply F; cbn [snd]; try (rewrite Same; apply draw_sequence; auto; discriminate).
  apply draw_sequence; auto. intros x E. injection E as <-. split; [reflexivity|now destruct s1].
Qed.

Lemma perform_later o s :
  wf s -> next_sequence_ s < u64_max ->
  wf (perform s o) /\ later s (perform s o) /\ next_sequence_ (perform s o) <= next_sequence_ s + 1.
Proof.
  intros W B. destruct o; try apply begin_later; auto.
  all: match goal with |- wf ?s' /\ _ => assert (Q : quiet s s') end.
  all: try (destruct Q as (K & L & N); split; [auto|split; [auto|lia]]).
  all: cbn [perform]; try (apply quiet_on_sink; auto with session; fail);
    try (apply quiet_on_channel; auto with session; fail).
  - destruct (send_challenge _ _ _) eqn:E. exact (quiet_send _ _ _ _ _ E).
  - apply quiet_wakes.
  - apply quiet_collect.
  - destruct (receive_answer _ _ _) eqn:E. exact (quiet_answer _ _ _ _ _ E).
  - apply quiet_supersede.
  - apply quiet_disconnect.
  - apply quiet_shutdown.
  - apply quiet_audit_fatal.
  - unfold cancel_stream_transport. quiet_field.
  - apply quiet_destroy.
  - apply quiet_begin_batch.
  - apply quiet_complete.
  - apply quiet_fail.
  - apply quiet_begin_audited.
  - apply quiet_claim_event.
  - apply quiet_reserve.
  - apply quiet_reserve_direct.
  - apply quiet_settle.
  - apply quiet_activate.
  - apply quiet_on_sink, (sink_public (EResult data)).
  - apply quiet_on_sink, (sink_public (ERawResult canonical)).
  - apply quiet_on_sink, (sink_forward (EResult data)).
  - apply quiet_on_sink, (sink_forward (EError code message details exit_code)).
Qed.

(** An execution shorter than the sequence numbers left. *)
Definition fits (s : Session) (operations : list Operation) : Prop :=
  next_sequence_ s + Z.of_nat (List.length operations) <= u64_max.

Lemma run_later operations s :
  wf s -> fits s operations ->
  wf (run s operations) /\ later s (run s operations) /\
  next_sequence_ (run s operations) <= next_sequence_ s + Z.of_nat (List.length operations).
Proof.
  revert s. induction operations as [|o operations IH]; intros s W F.
  { split; [auto|split; [apply later_refl|cbn; lia]]. }
  unfold fits in F. cbn [List.length] in F. rewrite Nat2Z.inj_succ in F.
  destruct (perform_later o s W ltac:(lia)) as (W1 & L1 & N1).
  destruct (IH (perform s o) W1 ltac:(unfold fits; lia)) as (W2 & L2 & N2).
  split; [exact W2|split; [exact (later_trans _ _ _ L1 L2)|]].
  cbn [List.length run fold_left] in *. unfold run in N2. lia.
Qed.

(** * Answers *)

Lemma opt_eqb_eq a b : opt_eqb a b = true <-> a = b.
Proof.
  destruct a as [x|], b as [y|]; cbn; split; intros H; try discriminate; auto.
  - apply Z.eqb_eq in H. now subst.
  - injection H as ->. apply Z.eqb_refl.
Qed.

Lemma compare_equal g q a :
  compare_identity g q a = Equal <->
  optional_uint (jget (answer a) "client_generation") = g /\
  optional_uint (jget (answer a) "auth_sequence") = q.
Proof.
  unfold compare_identity. rewrite <- !opt_eqb_eq.
  destruct (opt_eqb _ g); cbn; [|destruct (opt_below _ g); split; intros; intuition discriminate].
  destruct (opt_eqb _ q); [tauto|destruct (opt_below _ q); split; intros; intuition discriminate].
Qed.

(** [a] carries the identity of the challenge [c]. *)
Definition addresses (c : CurrentChallenge) (a : Answer) : Prop :=
  jget (answer a) "nonce" = JString (nonce (identity c)) /\
  get_u64 (jget (answer a) "sequence") = sequence (identity c) /\
  optional_uint (jget (answer a) "client_generation") = client_generation (identity c) /\
  optional_uint (jget (answer a) "auth_sequence") = auth_sequence (identity c).

(** The answer fits the kind of question: a boolean for a confirmation. *)
Definition fits_kind (c : CurrentChallenge) (a : Answer) : bool :=
  negb (contains (answer a) "value"
        && negb (Bool.eqb (challenge_kind_expects_boolean (kind c))
                          (is_boolean (jget (answer a) "value")))).

(** The conditions under which an answer reaches the current challenge. *)
Definition reaches (now : Z) (a : Answer) (c : CurrentChallenge) (s : Session) : Prop :=
  running s = true /\ expired now s = false /\ validate_answer_payload (answer a) = Ok tt /\
  answer_id a = id (request_ s) /\ exact_consumed a s = false /\ current_ s = Some c /\
  addresses c a /\ fits_kind c a = true.

Lemma receive_reaching now a c s :
  reaches now a c s ->
  receive_answer now a s = let '(d, s') := consume_answer c a s in (Ok d, s').
Proof.
  intros (R & X & V & I & U & C & (N & Q & G & H) & K). unfold receive_answer.
  rewrite R, X, V, I, Z.eqb_refl, U, C, Q, Z.ltb_irrefl, N. cbn [negb].
  rewrite (proj2 (compare_equal _ _ a)) by auto. rewrite eq_str_refl. cbn [negb].
  unfold fits_kind in K. apply negb_true_iff in K. now rewrite K.
Qed.

Lemma reject_not_taken request reason s :
  fst (reject_answer request reason s) <> Ok AnswerDisposition.Accepted /\
  fst (reject_answer request reason s) <> Ok AnswerDisposition.Cancelled.
Proof.
  unfold reject_answer. destruct (on_channel _ _) as [[] s2]; [split; discriminate|].
  destruct (forward_protocol_fallback_error _ _ _ _ s2) as [[]]; split; discriminate.
Qed.

(** An answer that ends the challenge reached it. *)
Lemma taken_reaches now a s d s1 :
  receive_answer now a s = (Ok d, s1) ->
  d = AnswerDisposition.Accepted \/ d = AnswerDisposition.Cancelled ->
  exists c, reaches now a c s /\ consume_answer c a s = (d, s1).
Proof.
  intros H T.
  assert (NR : forall reason, reject_answer (answer_id a) reason s <> (Ok d, s1)).
  { intros reason E. pose proof (reject_not_taken (answer_id a) reason s) as [N1 N2].
    rewrite E in N1, N2. destruct T as [-> | ->]; auto. }
  unfold receive_answer in H.
  destruct (running s) eqn:R; [|destruct T; subst; discriminate]. cbn [negb] in H.
  destruct (expired now s) eqn:X; [destruct T; subst; discriminate|].
  destruct (validate_answer_payload (answer a)) as [[]|] eqn:V; [|now apply NR in H].
  destruct (answer_id a =? _) eqn:I; cbn [negb] in H; [|now apply NR in H]. z_bool.
  destruct (exact_consumed a s) eqn:U; [destruct T; subst; discriminate|].
  destruct (current_ s) as [c|] eqn:C.
  2: { destruct (_ <? _); [destruct T; subst; discriminate|now apply NR in H]. }
  destruct (_ <? sequence (identity c)) eqn:Q1; [destruct T; subst; discriminate|].
  destruct (sequence (identity c) <? _) eqn:Q2; [now apply NR in H|].
  destruct (compare_identity _ _ a) eqn:G; [destruct T; subst; discriminate| |now apply NR in H].
  destruct (eq_str _ _) eqn:N; cbn [negb] in H; [|now apply NR in H].
  destruct (contains (answer a) "value" && _) eqn:K; [now apply NR in H|].
  exists c. destruct (consume_answer c a s) as [d' s'] eqn:E. injection H as -> ->.
  split; [|reflexivity]. apply compare_equal in G as [G1 G2]. apply eq_str_inv in N. z_bool.
  unfold reaches, addresses, fits_kind. rewrite K. repeat split; auto; lia.
Qed.

Lemma consume_current c a s d s1 :
  current_ s = Some c -> consume_answer c a s = (d, s1) -> current_ s1 = None.
Proof.
  intros C H. unfold consume_answer, remember_consumed, resolve_current in H. destruct s. cbn in C.
  subst. destruct (contains _ _); [|destruct (reserves_query c)]; returned H; reflexivity.
Qed.

(** An answer is accepted exactly when it is the valid, unconsumed answer
    to the challenge in progress: the session runs and its deadline has not
    passed, the payload is well formed, the request id, nonce, sequence and
    generation fields are those of the challenge, and a boolean is given to a
    confirmation and a string to any other question.  Accepting it ends the
    challenge with that value and, for a challenge that reserves a query,
    reserves it under the identity of the challenge. *)
Theorem answer_accepted_exactly now a s :
  (fst (receive_answer now a s) = Ok AnswerDisposition.Accepted <->
   exists c, reaches now a c s /\ contains (answer a) "cancelled" = false) /\
  (forall c, reaches now a c s -> contains (answer a) "cancelled" = false ->
   let s1 := snd (receive_answer now a s) in
   let v := jget (answer a) "value" in
   current_ s1 = None /\
   resolution_ s1 = Some {| resolved_sequence := sequence (identity c);
     outcome := {| status := ChallengeStatus.Answered;
                   value_ := if is_boolean v then BoolValue (get_bool v)
                             else StringValue (get_string v) |} |} /\
   (reserves_query c = true -> reserved_identity_ s1 = Some (identity c))).
Proof.
  split; [split|].
  - destruct (receive_answer now a s) as [[d|] s1] eqn:E; intros H; [|discriminate].
    injection H as ->. destruct (taken_reaches _ _ _ _ _ E (or_introl eq_refl)) as (c & R & K).
    exists c. split; [exact R|]. unfold consume_answer in K.
    now destruct (contains (answer a) "cancelled").
  - intros (c & R & K). rewrite (receive_reaching _ _ _ _ R). unfold consume_answer. now rewrite K.
  - intros c R K. cbv zeta. rewrite (receive_reaching _ _ _ _ R). unfold consume_answer. rewrite K.
    destruct R as (_ & _ & _ & _ & _ & C & _). destruct s. cbn in C. subst.
    destruct (reserves_query c); repeat split; cbn; auto; discriminate.
Qed.

Definition sequence_of (a : Answer) : Z := get_u64 (jget (answer a) "sequence").

(** Once a challenge is answered, its sequence number is in the past. *)
Lemma taken_past now a s d s1 after :
  wf s -> receive_answer now a s = (Ok d, s1) ->
  d = AnswerDisposition.Accepted \/ d = AnswerDisposition.Cancelled -> fits s1 after ->
  let s2 := run s1 after in
  validate_answer_payload (answer a) = Ok tt /\ answer_id a = id (request_ s2) /\
  sequence_of a < next_sequence_ s2 /\
  (forall c, current_ s2 = Some c -> sequence_of a < sequence (identity c)).
Proof.
  intros W H T F s2. destruct (taken_reaches _ _ _ _ _ H T) as (c & R & K).
  destruct (quiet_answer _ _ _ _ _ H) as (W1 & L1 & N1).
  destruct (run_later after s1 (W1 W) F) as (W2 & L2 & _).
  destruct R as (_ & _ & V & I & _ & C & (_ & Q & _) & _).
  destruct (wf_current _ W c C) as ((_ & B) & _). pose proof (l_next _ _ L2).
  pose proof (consume_current c a s d s1 C K) as N.
  fold s2 in W2, L2, H0. unfold sequence_of. split; [exact V|]. split; [|split; [lia|]].
  - now rewrite (l_request _ _ L2), (l_request _ _ L1).
  - intros c2 C2. destruct (l_current _ _ L2 c2 C2) as [E|E]; [congruence|lia].
Qed.

(** * Audited terminals *)

(** A known end of the request: its deadline, a disconnection, a shutdown. *)
Definition known_end (s : Session) (cause : TerminalStatus.t) (t : Z) : Prop :=
  match cause with
  | TerminalStatus.TimedOut => expires_at (deadline_ s) = Some t
  | TerminalStatus.Disconnected => disconnected_at_ s = Some t
  | TerminalStatus.Shutdown => shutdown_at_ s = Some t
  | _ => False
  end.

Lemma terminal_cause_spec s :
  match terminal_cause s with
  | (Some t, cause) => known_end s cause t /\ forall c t', known_end s c t' -> t <= t'
  | (None, _) => forall c t', ~ known_end s c t'
  end.
Proof.
  unfold terminal_cause, known_end.
  destruct (expires_at (deadline_ s)) as [d|], (disconnected_at_ s) as [u|], (shutdown_at_ s) as [v|];
    cbn; repeat match goal with |- context [?x <? ?y] => destruct (Z.ltb_spec x y); cbn end;
    (split; [reflexivity|]) || idtac; intros [] t'; try tauto; intros E; try discriminate E;
    try (injection E as <-); lia.
Qed.

Lemma claim_event_spec committed_at s :
  audited_terminal_ s = true -> audited_terminal_event_ s = None ->
  fst (claim_audited_terminal_event committed_at s) =
  (let '(terminal_at, cause) := terminal_cause s in
   if earlier committed_at terminal_at then TerminalStatus.Designated else cause) /\
  (fst (claim_audited_terminal_event committed_at s) <> TerminalStatus.Designated ->
   audited_terminal_event_ (snd (claim_audited_terminal_event committed_at s)) =
   Some (fst (claim_audited_terminal_event committed_at s))).
Proof.
  intros A N. unfold claim_audited_terminal_event. rewrite N, A. cbn [negb].
  destruct (terminal_cause s) as [terminal_at cause].
  destruct (earlier committed_at terminal_at); [split; [reflexivity|intros K; now destruct K]|].
  destruct cause; split; auto; intros K; now destruct K.
Qed.

(** ** From the start of a session *)

Section Start.
Variable json_dump : json -> option string.
Variables (now0 : Z) (request : Request) (admission_deadline : option RequestDeadline).
Variables (request_activity : bool) (the_peer : Sink (list Emission)) (s0 : Session).
Hypothesis New :
  new_session json_dump now0 request admission_deadline request_activity the_peer = Ok s0.

Lemma new_session_wf : wf s0 /\ next_sequence_ s0 = 1 /\ peer s0 = the_peer.
Proof.
  unfold new_session in New. destruct (admit_request_source _ _); [|discriminate]. cbn in New.
  destruct (match admission_deadline with Some d => Ok d | None => _ end); [|discriminate].
  cbn in New. apply ok_inj in New. subst s0. split; [|split; reflexivity].
  split; cbn; auto; try lia; [discriminate|]. split; [unfold kConsumedChallengeLimit; lia|constructor].
Qed.

(** Fewer operations than sequence numbers. *)
Definition in_range (operations : list Operation) : Prop :=
  Z.of_nat (List.length operations) < u64_max - 1.

Lemma started operations :
  in_range operations ->
  wf (run s0 operations) /\ later s0 (run s0 operations) /\
  next_sequence_ (run s0 operations) <= 1 + Z.of_nat (List.length operations).
Proof.
  unfold in_range. intros R. destruct new_session_wf as (W & N & _).
  destruct (run_later operations s0 W ltac:(unfold fits; lia)) as (W1 & L1 & N1).
  rewrite N in N1. auto.
Qed.

(** C27.  a challenge is answered at most once, and a repeated answer is
    harmless: after an answer has ended a challenge, whatever operations follow,
    no answer with its sequence number is ever accepted or taken as a
    cancellation again; and while the session runs, receiving the same answer
    again is ignored and leaves the session as it is (also when the identity
    has left the memory of the last sixteen). *)
Theorem challenge_answered_once before now a d s1 after now' a' :
  in_range (before ++ after) ->
  receive_answer now a (run s0 before) = (Ok d, s1) ->
  d = AnswerDisposition.Accepted \/ d = AnswerDisposition.Cancelled ->
  let s2 := run s1 after in
  (sequence_of a' = sequence_of a ->
   fst (receive_answer now' a' s2) <> Ok AnswerDisposition.Accepted /\
   fst (receive_answer now' a' s2) <> Ok AnswerDisposition.Cancelled) /\
  (running s2 = true -> expired now' s2 = false ->
   receive_answer now' a s2 = (Ok AnswerDisposition.DuplicateIgnored, s2) \/
   receive_answer now' a s2 = (Ok AnswerDisposition.StaleIgnored, s2)).
Proof.
  intros G H T s2. unfold in_range in G. rewrite length_app, Nat2Z.inj_add in G.
  destruct (started before ltac:(unfold in_range; lia)) as (W & _ & N).
  destruct (quiet_answer _ _ _ _ _ H) as (_ & _ & N1).
  destruct (taken_past _ _ _ _ _ after W H T ltac:(unfold fits; lia)) as (V & I & B & C).
  fold s2 in I, B, C. split.
  - intros E. assert (K : forall d', d' = AnswerDisposition.Accepted \/ d' = AnswerDisposition.Cancelled ->
      fst (receive_answer now' a' s2) <> Ok d'); [|auto].
    intros d' T' F. destruct (receive_answer now' a' s2) as [r s3] eqn:R. cbn in F. subst r.
    destruct (taken_reaches _ _ _ _ _ R T') as (c & (_ & _ & _ & _ & _ & C2 & (_ & Q & _) & _) & _).
    apply C in C2. unfold sequence_of in *. lia.
  - intros R X. unfold receive_answer. rewrite R, X, V, I, Z.eqb_refl. cbn [negb].
    destruct (exact_consumed a s2); [auto|]. right. fold (sequence_of a).
    destruct (current_ s2) as [c|] eqn:E;
      [rewrite (proj2 (Z.ltb_lt _ _) (C c eq_refl))|rewrite (proj2 (Z.ltb_lt _ _) B)]; reflexivity.
Qed.

(** A session that stopped running never runs again: whatever operations
    follow, it accepts no answer, poses no challenge, starts no query and
    designates no terminal batch or audited terminal. *)
Theorem terminated_for_good before after now a generated spec :
  in_range (before ++ after) -> running (run s0 before) = false ->
  let s := run s0 (before ++ after) in
  running s = false /\
  receive_answer now a s = (Ok AnswerDisposition.RequestTerminated, s) /\
  (exists st, begin_challenge now generated spec s = (Returns (no_value st), s)) /\
  reserve_in_flight s = (false, s) /\ reserve_direct_in_flight s = (false, s) /\
  fst (begin_terminal_batch now s) <> TerminalStatus.Designated /\
  fst (begin_audited_terminal now s) <> TerminalStatus.Designated /\
  dispatch_audited now s <> DispatchStatus.Dispatched.
Proof.
  intros G H s. unfold in_range in G. rewrite length_app, Nat2Z.inj_add in G.
  destruct (started before ltac:(unfold in_range; lia)) as (W & _ & N).
  destruct (run_later after (run s0 before) W ltac:(unfold fits; lia)) as (_ & L & _).
  assert (R : running s = false).
  { subst s. unfold run in *. rewrite fold_left_app. apply not_true_iff_false. intros E.
    apply eqb_eq in E. refine (l_state _ _ L _ E). intros K. unfold running in H.
    rewrite K in H. discriminate. }
  split; [exact R|]. unfold receive_answer, begin_challenge, reserve_in_flight,
    reserve_direct_in_flight, begin_terminal_batch, begin_audited_terminal, dispatch_audited.
  rewrite R. cbn [negb orb]. unfold running in R.
  split; [reflexivity|]. split; [destruct (tty _); cbn; eauto|]. split; [reflexivity|].
  split; [reflexivity|].
  destruct (state_ s); try discriminate R; destruct (shutdown_requested_ s), (audited_terminal_ s);
    repeat split; discriminate.
Qed.

(** the audited terminal event is decided by the earliest end of the
    request: a commit is designated exactly when it precedes the deadline, the
    disconnection and the shutdown that are known; otherwise the event is the
    earliest of these, and it stays the event of the session whatever happens
    later. *)
Theorem audited_event_earliest before committed_at after committed' :
  in_range (before ++ after) ->
  let s := run s0 before in
  audited_terminal_ s = true -> audited_terminal_event_ s = None ->
  let '(r, s1) := claim_audited_terminal_event committed_at s in
  (r = TerminalStatus.Designated <-> forall cause t, known_end s cause t -> committed_at < t) /\
  (r <> TerminalStatus.Designated ->
   (exists t, known_end s r t /\ t <= committed_at /\
              forall cause t', known_end s cause t' -> t <= t') /\
   fst (claim_audited_terminal_event committed' (run s1 after)) = r).
Proof.
  intros G s A N. unfold in_range in G. rewrite length_app, Nat2Z.inj_add in G.
  destruct (started before ltac:(unfold in_range; lia)) as (W & _ & B). fold s in W, B.
  pose proof (claim_event_spec committed_at s A N) as [V E].
  pose proof (quiet_claim_event committed_at s) as (W1 & _ & N1).
  destruct (claim_audited_terminal_event committed_at s) as [r s1]. cbn [fst snd] in *.
  destruct (run_later after s1 (W1 W) ltac:(unfold fits; lia)) as (_ & L & _).
  pose proof (terminal_cause_spec s) as C. destruct (terminal_cause s) as [[t|] cause].
  - destruct C as [C M]. cbn in V. destruct (Z.ltb_spec committed_at t) as [K|K].
    + subst r. split; [split; [intros _ c t' H; apply M in H; lia|auto]|intros H; now destruct H].
    + subst r. split.
      * split; [intros ->; destruct C|intros H; apply H in C; lia].
      * intros H. split; [now exists t|]. unfold claim_audited_terminal_event.
        now rewrite (l_event _ _ L _ (E H)).
  - cbn in V. subst r. split; [split; [intros _ c t' H; now apply C in H|auto]|intros H; now destruct H].
Qed.
End Start.
End Steps.

(** C28.  a session ends its request once: whatever operations its threads
    perform, in whatever order, and whatever the client's connection answers,
    at most one frame that ends the request (result, raw result or error)
    reaches the connection, and no frame after it. *)
Theorem session_single_terminal deliver reply json_dump now0 request admission_deadline
    request_activity s0 operations :
  new_session json_dump now0 request admission_deadline request_activity (new_sink []) = Ok s0 ->
  in_range operations ->
  let connection := peer (@run (external deliver reply) s0 operations) in
  forall before sent after,
    derived connection = before ++ sent :: after -> ends_request sent = true ->
    after = [] /\ has_terminal connection = true.
Proof.
  intros New R connection before sent after E S.
  destruct (@started (external deliver reply) _ _ _ _ _ _ _ New operations R) as (_ & L & _).
  destruct (new_session_wf _ _ _ _ _ _ _ New) as (_ & _ & P).
  destruct (l_transport _ _ L) as [calls D]. rewrite P in D. fold connection in D.
  assert (I : consistent {| the_sink := connection; waiting := [] |}).
  { rewrite <- D. apply run_consistent. cbn. auto. }
  split; [exact (closed_last _ _ _ _ (consistent_closed _ I) E S)|].
  exact (consistent_terminal _ before sent after I E S).
Qed.

(** * A login session *)

Definition login_request : Request :=
  {| id := 7; req_account := "work"; command := ["login"]; args := JObject [];
     context := {| tty := true; cjson := false; yes := false; dry_run := false;
                   timeout_seconds := None; cwd := "/home"; media_dir := None;
                   write_authority := AuthorityUnset; idempotency_key := None |};
     source_bytes_ := 200; admitted_facts_ := None |}.

Definition connected : Derived (list Emission) := callback_sink None.

Definition login : Session :=
  match new_session (fun _ => None) 0 login_request None true (new_sink []) with
  | Ok s => s
  | Err _ => {| request_ := login_request; deadline_ := {| expires_at := None |};
                state_ := State.Running; next_sequence_ := 1; current_ := None;
                resolution_ := None; consumed_ := []; answer_reserved_ := false;
                reserved_identity_ := None; latest_auth_identity_ := None;
                in_flight_state_ := InFlightState.None; stop_requested := false;
                audited_terminal_ := false; terminal_batch_claimed_ := false;
                terminal_batch_finished_ := false; audited_terminal_event_ := None;
                disconnected_at_ := None; shutdown_at_ := None; shutdown_requested_ := false;
                sink_ := new_sink {| activity_state_ := ActivityState.Released;
                                     activity_ := false; stream_subscription_ := None;
                                     transport := new_sink [] |} |}
  end.

Lemma login_new :
  new_session (fun _ => None) 0 login_request None true (new_sink []) = Ok login.
Proof. reflexivity. Qed.

Definition token_spec : ChallengeSpec :=
  {| spec_kind := BotToken; spec_client_generation := Some 3; spec_auth_sequence := Some 1;
     spec_prompt := "Bot token"; spec_details := JObject []; spec_reserves_query := true |}.

Definition sample_nonce : string := "00112233445566778899aabbccddeeff".

Definition posing : list Operation := [OBegin 5 (Some sample_nonce) token_spec].

Definition token_answer : Answer :=
  {| answer_id := 7;
     answer := jobject [("nonce", JString sample_nonce); ("sequence", JUnsigned 1);
                        ("client_generation", JUnsigned 3); ("auth_sequence", JUnsigned 1);
                        ("value", JString "1:secret")] |}.

(** The token is accepted, the same answer is then ignored, and another
    answer with its number is not accepted. *)
Lemma challenge_answered_once_witness :
  exists s1, @receive_answer connected 6 token_answer (@run connected login posing)
             = (Ok AnswerDisposition.Accepted, s1) /\
  (@receive_answer connected 7 token_answer s1 = (Ok AnswerDisposition.DuplicateIgnored, s1) \/
   @receive_answer connected 7 token_answer s1 = (Ok AnswerDisposition.StaleIgnored, s1)).
Proof.
  destruct (@receive_answer connected 6 token_answer (@run connected login posing)) as [r s1] eqn:E.
  assert (R : r = Ok AnswerDisposition.Accepted /\ running s1 = true /\ expired 7 s1 = false)
    by (vm_compute in E; injection E as <- <-; vm_compute; auto).
  destruct R as (-> & R & X). exists s1. split; [reflexivity|].
  refine (proj2 (@challenge_answered_once connected _ _ _ _ _ _ _ login_new posing 6 token_answer
    AnswerDisposition.Accepted s1 [] 7 token_answer _ E (or_introl eq_refl)) R X).
  unfold in_range. cbn. unfold u64_max. lia.
Defined.

Lemma terminated_for_good_witness :
  @receive_answer connected 9 token_answer (@run connected login (posing ++ [ODisconnect 8; OSettle]))
  = (Ok AnswerDisposition.RequestTerminated,
     @run connected login (posing ++ [ODisconnect 8; OSettle])).
Proof.
  refine (proj1 (proj2 (@terminated_for_good connected _ _ _ _ _ _ _ login_new
    (posing ++ [ODisconnect 8]) [OSettle] 9 token_answer None token_spec _ _))).
  - unfold in_range. cbn. unfold u64_max. lia.
  - vm_compute. reflexivity.
Defined.

(** A commit one tick after the disconnection loses, and keeps losing. *)
Lemma audited_event_earliest_witness :
  let before := [OBeginAudited 1; ODisconnect 8] in
  let '(r, s1) := claim_audited_terminal_event 9 (@run connected login before) in
  r = TerminalStatus.Disconnected /\
  fst (claim_audited_terminal_event 2 (@run connected s1 [OSettle])) = r.
Proof.
  intros before.
  pose proof (@audited_event_earliest connected _ _ _ _ _ _ _ login_new before 9 [OSettle] 2
    ltac:(unfold in_range; cbn; unfold u64_max; lia) eq_refl eq_refl) as P.
  destruct (claim_audited_terminal_event 9 (@run connected login before)) as [r s1] eqn:E.
  assert (R : r = TerminalStatus.Disconnected) by (vm_compute in E; now injection E as <- _).
  subst r. split; [reflexivity|]. destruct P as [_ P]. destruct P as [_ P]; [discriminate|exact P].
Defined.

Definition finishing : list Operation :=
  [OItem JNull; OResult (JBool true); OError "E" "late" JNull 1; OItem JNull].

Example session_forwards_one_result :
  derived (peer (@run connected login finishing)) = [EItem JNull; EResult (JBool true)].
Proof. reflexivity. Qed.

Lemma session_single_terminal_witness :
  [] = @nil Emission /\ has_terminal (peer (@run connected login finishing)) = true.
Proof.
  refine (session_single_terminal (fun _ _ => Ok Complete)
    (fun _ _ => Ok {| reply_answer := None; reply_failure := None |}) _ _ _ _ _ _ finishing
    login_new _ [EItem JNull] (EResult (JBool true)) [] session_forwards_one_result eq_refl).
  unfold in_range, finishing. cbn. unfold u64_max. lia.
Defined.
