(* ===== verification/Dispatch.v ===== *)
(** The dispatcher (src/src/daemon/dispatch.cpp, dispatch.hpp): the static
    policy of every command, the gate at registration, and the way a request
    goes from its session to a handler.

    A handler and the preflight are the caller's code: what they do to the
    session is a sequence of session operations, which may depend on the
    session they start from, and both may throw.  [Err] is an exception. *)
From S2P Require Import Prelude Json Deadline Operation Frame ResponseSink RequestSession.
From S2P Require Import RequestSessionFacts.

(** * Static policy *)

Module Tier.
Inductive t := Read | Write | Destructive.
End Tier.

#[export] Instance Tier_eq_dec : EqDec Tier.t.
Proof. intros [] []; (left; reflexivity) || (right; discriminate). Defined.

#[export] Instance SessionOperation_eq_dec : EqDec SessionOperation.
Proof. intros [] []; (left; reflexivity) || (right; discriminate). Defined.

Inductive M3BotPolicy := BotAllowed | ImmediateOnly | UserOnly.
Inductive M3ScheduleKind := ScheduleNone | ScheduleAt | ScheduleOnline.
Inductive M3BotAdmission := AdmissionAllowed | AdmissionUnsupported.

Record M3OperationPolicy := {
  operation : M3.M3Operation;
  canonical_name : string;
  command_path : string;
  tier : Tier.t;
  bot_policy : M3BotPolicy
}.

Definition policy (op : M3.M3Operation) (t : Tier.t) (bot : M3BotPolicy) : M3OperationPolicy :=
  let identity := M3.m3_operation_identity op in
  {| operation := op;
     canonical_name := match identity with Some i => M3.canonical_name i | None => EmptyString end;
     command_path := match identity with Some i => M3.command_path i | None => EmptyString end;
     tier := t; bot_policy := bot |}.

Definition kM3OperationPolicies : list M3OperationPolicy :=
  [policy M3.Send Tier.Write ImmediateOnly;
   policy M3.MsgEdit Tier.Write BotAllowed;
   policy M3.MsgDelete Tier.Destructive BotAllowed;
   policy M3.MsgForward Tier.Write BotAllowed;
   policy M3.MsgReact Tier.Write UserOnly;
   policy M3.MsgPin Tier.Write BotAllowed;
   policy M3.MsgUnpin Tier.Write BotAllowed;
   policy M3.ChatMarkRead Tier.Write UserOnly;
   policy M3.ChatMute Tier.Write UserOnly;
   policy M3.ChatUnmute Tier.Write UserOnly;
   policy M3.ChatPin Tier.Write UserOnly;
   policy M3.ChatUnpin Tier.Write UserOnly;
   policy M3.ChatArchive Tier.Write UserOnly;
   policy M3.ChatUnarchive Tier.Write UserOnly;
   policy M3.ChatJoin Tier.Write UserOnly;
   policy M3.ChatLeave Tier.Destructive BotAllowed;
   policy M3.SavedAttach Tier.Write UserOnly].

Definition m3_operation_policy (op : M3.M3Operation) : option M3OperationPolicy :=
  lookup_by operation kM3OperationPolicies op.

Definition is_valid_m3_schedule (schedule : M3ScheduleKind) : bool :=
  match schedule with ScheduleNone | ScheduleAt | ScheduleOnline => true end.

Definition evaluate_m3_bot_admission (op : M3.M3Operation) (is_bot : bool)
    (schedule : M3ScheduleKind) : M3BotAdmission :=
  if negb (is_valid_m3_schedule schedule) then AdmissionUnsupported
  else
    match m3_operation_policy op with
    | None => AdmissionUnsupported
    | Some p =>
        if negb is_bot then AdmissionAllowed
        else
          match bot_policy p with
          | BotAllowed => AdmissionAllowed
          | ImmediateOnly =>
              match schedule with ScheduleNone => AdmissionAllowed | _ => AdmissionUnsupported end
          | UserOnly => AdmissionUnsupported
          end
    end.

Definition kDispatcherOperationIdentities : list (string * string) :=
  [("version", "version"); ("doctor", "doctor"); ("daemon status", "status");
   ("daemon stop", "stop"); ("daemon restart", "restart"); ("account add", "account_add");
   ("account list", "account_list"); ("account show", "account_show");
   ("account use", "account_use"); ("account remove", "account_remove"); ("login", "login");
   ("me", "me"); ("logout", "logout"); ("saved tags", "saved_tags");
   ("saved search", "saved_search"); ("chats", "chats"); ("search", "search");
   ("chat info", "chat_info"); ("chat members", "chat_members"); ("download", "download");
   ("unread", "unread"); ("fetch", "fetch"); ("msg get", "msg_get"); ("msg link", "msg_link");
   ("read", "read"); ("raw", "raw"); ("resolve", "resolve"); ("session list", "session_list");
   ("session terminate", "session_terminate"); ("listen", "listen"); ("wait-for", "wait_for")].

Definition dispatcher_operation (path : string) : string :=
  match lookup_by fst kDispatcherOperationIdentities path with
  | Some found => snd found
  | None =>
      match M3.m3_operation_for_path path with
      | Some op => match M3.m3_operation_identity op with
                   | Some i => M3.canonical_name i | None => EmptyString end
      | None =>
          match M6.m6_operation_for_path path with
          | Some op => match M6.m6_operation_identity op with
                       | Some i => M6.canonical_name i | None => EmptyString end
          | None => "dispatcher"
          end
      end
  end.

Definition is_m1_destructive_command (path : string) : bool :=
  String.eqb path "logout" || String.eqb path "account remove".

Definition allows_unlimited_default (path : string) : bool :=
  String.eqb path "fetch" || String.eqb path "download" || String.eqb path "listen"
  || String.eqb path "wait-for".

Definition command_key (command : list string) : string :=
  fold_left (fun key part => (if str_empty key then key else key +++ " ") +++ part) command
    EmptyString.

Definition tier_for (t : M6.M6Tier) : Tier.t :=
  match t with
  | M6.Read => Tier.Read
  | M6.Write => Tier.Write
  | M6.Destructive => Tier.Destructive
  end.

Definition session_operation_for_command (path : string) : option SessionOperation :=
  if String.eqb path "session list" then Some SessionList
  else if String.eqb path "session terminate" then Some SessionTerminateOp
  else None.

Definition publicly_active_m3 (op : option M3.M3Operation) : bool :=
  match op with
  | Some (M3.Send | M3.MsgEdit | M3.MsgDelete | M3.MsgForward | M3.MsgReact | M3.MsgPin
         | M3.MsgUnpin | M3.ChatMarkRead | M3.ChatMute | M3.ChatUnmute | M3.ChatPin
         | M3.ChatUnpin | M3.ChatArchive | M3.ChatUnarchive | M3.ChatJoin | M3.ChatLeave
         | M3.SavedAttach) => true
  | None => false
  end.

(** * Registration *)

Record CommandDescriptor := {
  d_tier : Tier.t;
  handler : Session -> list Operation * result unit unit;
  m1_destructive_kernel : bool;
  m3_operation : option M3.M3Operation;
  d_deadline_default : DeadlineDefault;
  m6_operation : option M6.M6Operation;
  session_operation : option SessionOperation;
  config_admission : bool;
  dynamic_raw_policy : bool
}.

Record Dispatcher := {
  commands_ : list (string * CommandDescriptor);
  request_preflight_ : option (string -> Session -> list Operation * result unit bool)
}.

Definition new_dispatcher : Dispatcher := {| commands_ := []; request_preflight_ := None |}.

Definition has {A} (o : option A) : bool := match o with Some _ => true | None => false end.

Definition is_unlimited (d : DeadlineDefault) : bool :=
  match d with Unlimited => true | Default60 => false end.

(** [std::map::find]. *)
Definition find_command (d : Dispatcher) (key : string) : option CommandDescriptor :=
  option_map snd (lookup_by fst (commands_ d) key).

(** The checks of [register_command]. *)
Definition check_descriptor (path : string) (d : CommandDescriptor) : result string unit :=
  check (Bool.eqb (dynamic_raw_policy d) (String.eqb path "raw"))
        "raw command descriptor is missing its dynamic policy gate" ;;;
  check (Bool.eqb (is_unlimited (d_deadline_default d)) (allows_unlimited_default path))
        "unlimited deadline policy does not match its command" ;;;
  check (negb (m1_destructive_kernel d
               && (negb (eqb (d_tier d) Tier.Destructive) || negb (is_m1_destructive_command path))))
        "M1 destructive bypass does not match its static policy" ;;;
  check (negb (Nat.ltb 1 (Nat.b2n (has (m3_operation d)) + Nat.b2n (has (m6_operation d))
                          + Nat.b2n (has (session_operation d)))))
        "command descriptor has conflicting operation identities" ;;;
  (match m3_operation d with
   | None => check (negb (has (M3.m3_operation_for_path path)))
                   "M3 command descriptor is missing its operation identity"
   | Some op =>
       check (match m3_operation_policy op with
              | None => false
              | Some p => String.eqb (command_path p) path && eqb (tier p) (d_tier d)
                          && negb (m1_destructive_kernel d)
              end)
             "M3 command descriptor does not match its static policy"
   end) ;;;
  (match m6_operation d with
   | None => check (negb (has (M6.m6_operation_for_path path)))
                   "M6 command descriptor is missing its operation identity"
   | Some op =>
       check (match M6.m6_operation_identity op with
              | None => false
              | Some i => String.eqb (M6.command_path i) path && eqb (tier_for (M6.tier i)) (d_tier d)
                          && negb (m1_destructive_kernel d)
              end)
             "M6 command descriptor does not match its static policy"
   end) ;;;
  check (match session_operation d, session_operation_for_command path with
         | Some a, Some b => eqb a b
         | None, None => true
         | _, _ => false
         end)
        "session command descriptor does not match its static policy" ;;;
  match session_operation d with
  | None => Ok tt
  | Some op =>
      check (eqb (d_tier d) (match op with
                             | SessionList => Tier.Read
                             | SessionTerminateOp => Tier.Destructive
                             end) && negb (m1_destructive_kernel d))
            "session command descriptor tier is invalid"
  end.

(** [emplace] keeps an entry that is there. *)
Definition register_command (path : string) (d : CommandDescriptor) (r : Dispatcher) :
    result string Dispatcher :=
  check_descriptor path d ;;;
  Ok (if has (find_command r path) then r
      else {| commands_ := commands_ r ++ [(path, d)]; request_preflight_ := request_preflight_ r |}).

Definition set_request_preflight p (r : Dispatcher) : Dispatcher :=
  {| commands_ := commands_ r; request_preflight_ := p |}.

(** * Dispatch *)

Definition deadline_default (r : Dispatcher) (request : Request) : DeadlineDefault :=
  match find_command r (command_key (command request)) with
  | Some d => d_deadline_default d
  | None => Default60
  end.

Definition requires_frozen_config_admission (r : Dispatcher) (request : Request) : bool :=
  match find_command r (command_key (command request)) with
  | None => false
  | Some d =>
      let mutation := match m6_operation d with
                      | Some op => match M6.m6_operation_identity op with
                                   | Some i => M6.mutation i | None => false end
                      | None => false
                      end in
      config_admission d || has (m3_operation d) || mutation
      || match session_operation d with Some SessionTerminateOp => true | _ => false end
  end.

(** The gate before a handler: a command that is not a read runs only through
    one of the active write kernels. *)
Definition gate_open (key : string) (d : CommandDescriptor) : bool :=
  let m1_destructive := is_m1_destructive_command key && eqb (d_tier d) Tier.Destructive
                        && m1_destructive_kernel d in
  let active_write := publicly_active_m3 (m3_operation d) || has (m6_operation d)
                      || match session_operation d with Some SessionTerminateOp => true | _ => false end
                      || dynamic_raw_policy d in
  negb (negb (eqb (d_tier d) Tier.Read) && negb m1_destructive && negb active_write).

(** The message that goes with a reason of [reject_invalid_idempotency]. *)
Definition idempotency_message (reason : string) : string :=
  if String.eqb reason "invalid_argument" then "invalid idempotency key"
  else if String.eqb reason "mutually_exclusive"
  then "idempotency key cannot be combined with dry-run"
  else "idempotency key is unsupported for this command".

Section Dispatching.
Context {transport_class : Derived (list Emission)}.

(** [session.error(...)], as a statement. *)
Definition session_error (code message : string) (details : json) (exit_code : Z) (s : Session) :
    result unit unit * Session :=
  let '(d, s) := on_sink (error code message details exit_code) s in
  (match d with Ok _ => Ok tt | Err _ => Err tt end, s).

Definition emit_dispatch_failure (key message : string) (s : Session) : result unit unit * Session :=
  session_error "INTERNAL" message
    (jobject [("operation", JString (dispatcher_operation key)); ("reason", JString "internal_error")])
    kGeneric s.

(** What became of the request: [dispatch] reports nothing, the value tells
    the branch it returned from, and where an exception that leaves it was
    thrown. *)
Inductive Dispatched := Answered | StoppedByPreflight | Cancelled.
Inductive Escaped := PreflightThrew | AnswerThrew.

Definition answered (r : result unit unit * Session) : result Escaped Dispatched * Session :=
  (match fst r with Ok _ => Ok Answered | Err _ => Err AnswerThrew end, snd r).

(** The preflight, when one is set; it runs outside the [try] of [dispatch]. *)
Definition run_preflight (r : Dispatcher) (key : string) (s : Session) : result unit bool * Session :=
  match request_preflight_ r with
  | None => (Ok true, s)
  | Some preflight => let '(operations, passed) := preflight key s in (passed, run s operations)
  end.

(** The handler and what follows it. *)
Definition run_handler (key : string) (d : CommandDescriptor) (s : Session) :
    result Escaped Dispatched * Session :=
  let '(operations, returned) := handler d s in
  let s := run s operations in
  match returned with
  | Err _ => answered (emit_dispatch_failure key "command handler failed" s)
  | Ok _ =>
      if stop_requested s then (Ok Cancelled, s)
      else if has_terminal (sink_ s) then (Ok Answered, s)
      else answered (emit_dispatch_failure key
                       "command handler returned without a terminal response" s)
  end.

(** The error of the gate. *)
Definition deny (s : Session) : result Escaped Dispatched * Session :=
  answered (session_error "DENIED" "write-tier commands are not implemented yet (fail-closed gate)"
              (JObject []) kDenied s).

Definition dispatch (r : Dispatcher) (s : Session) : result Escaped Dispatched * Session :=
  match reject_invalid_idempotency (request_ s) with
  | Some reason =>
      answered (session_error "USAGE" (idempotency_message reason)
                  (jobject [("argument", JString "--idempotency-key"); ("reason", JString reason)])
                  kUsage s)
  | None =>
      let key := command_key (command (request_ s)) in
      match find_command r key with
      | None => answered (session_error "USAGE" ("unknown command '" +++ key +++ "'") (JObject []) kUsage s)
      | Some d =>
          match run_preflight r key s with
          | (Err _, s) => (Err PreflightThrew, s)
          | (Ok false, s) => (Ok StoppedByPreflight, s)
          | (Ok true, s) => if negb (gate_open key d) then deny s else run_handler key d s
          end
      end
  end.

(** The overload for the in-process mode, up to the destruction of the session
    it made. *)
Definition dispatch_direct (json_dump : json -> option string) (r : Dispatcher) (admitted_at : Z)
    (request : Request) (sink : Sink (list Emission)) : result failure (result Escaped Dispatched * Session) :=
  admitted <- admit_request_source json_dump request ;;
  check (negb (requires_frozen_config_admission r admitted))
        (Rejected "direct M3 dispatch requires frozen config admission") ;;;
  deadline <- of_option (Rejected "request timeout must be finite, positive, and representable")
                (request_deadline (timeout_seconds (context admitted))
                   (deadline_default r admitted) admitted_at) ;;
  s <- new_session json_dump admitted_at admitted (Some deadline) false sink ;;
  Ok (dispatch r s).
End Dispatching.

(** * Properties *)

(** Dispatchers as the daemon builds them. *)
Inductive registered : Dispatcher -> Prop :=
| registered_new : registered new_dispatcher
| registered_command r path d r' :
    registered r -> register_command path d r = Ok r' -> registered r'
| registered_preflight r p : registered r -> registered (set_request_preflight p r).

Lemma registered_checked r :
  registered r -> Forall (fun e => check_descriptor (fst e) (snd e) = Ok tt) (commands_ r).
Proof.
  induction 1 as [|r path d r' _ IH E|r p _ IH]; [constructor| |exact IH].
  unfold register_command in E. destruct (check_descriptor path d) as [[]|] eqn:C; [|discriminate].
  apply ok_inj in E. subst r'. destruct (has _); [exact IH|]. cbn. apply Forall_app. auto.
Qed.

Lemma found_checked r path d :
  registered r -> find_command r path = Some d -> check_descriptor path d = Ok tt.
Proof.
  intros R F. apply registered_checked in R. unfold find_command in F.
  destruct (lookup_by fst (commands_ r) path) as [[p d']|] eqn:E; [|discriminate].
  injection F as ->. apply lookup_by_some in E as [I K]. cbn in K. subst.
  rewrite Forall_forall in R. exact (R _ I).
Qed.

Lemma m3_policy_path op p :
  m3_operation_policy op = Some p -> M3.m3_operation_for_path (command_path p) = Some op.
Proof. destruct op; intros E; vm_compute in E; injection E as <-; reflexivity. Qed.

Lemma m6_identity_path op i :
  M6.m6_operation_identity op = Some i -> M6.m6_operation_for_path (M6.command_path i) = Some op.
Proof. destruct op; intros E; vm_compute in E; injection E as <-; reflexivity. Qed.

Definition session_tier (op : SessionOperation) : Tier.t :=
  match op with SessionList => Tier.Read | SessionTerminateOp => Tier.Destructive end.

(** What the registration of a descriptor established: it has the identity its
    path reserves, and no other, and the static tier of that identity; the bypass
    of the M1 kernel is set only for the two M1 commands. *)
Record checked (path : string) (d : CommandDescriptor) : Prop := {
  ck_raw : dynamic_raw_policy d = String.eqb path "raw";
  ck_m1 : m1_destructive_kernel d = true ->
          d_tier d = Tier.Destructive /\ is_m1_destructive_command path = true;
  ck_m3 : m3_operation d = M3.m3_operation_for_path path /\
          forall op, m3_operation d = Some op ->
            exists p, m3_operation_policy op = Some p /\ d_tier d = tier p;
  ck_m6 : m6_operation d = M6.m6_operation_for_path path /\
          forall op, m6_operation d = Some op ->
            exists i, M6.m6_operation_identity op = Some i /\ d_tier d = tier_for (M6.tier i);
  ck_session : session_operation d = session_operation_for_command path /\
          forall op, session_operation d = Some op -> d_tier d = session_tier op
}.

Lemma check_descriptor_checked path d : check_descriptor path d = Ok tt -> checked path d.
Proof.
  unfold check_descriptor. rewrite !check_seq. intros (Raw & _ & M1 & _ & H).
  destruct (match m3_operation d with Some _ => _ | None => _ end) as [[]|] eqn:H3 in H;
    [|discriminate]. cbn [bind] in H.
  destruct (match m6_operation d with Some _ => _ | None => _ end) as [[]|] eqn:H6 in H;
    [|discriminate]. cbn [bind] in H. rewrite check_seq in H. destruct H as [S H].
  split.
  - now apply Bool.eqb_prop in Raw.
  - intros K. rewrite K in M1. cbn [andb] in M1. apply negb_true_iff, orb_false_iff in M1 as [T P].
    apply negb_false_iff in T, P. now rewrite eqb_eq in T.
  - destruct (m3_operation d) as [op|]; apply check_ok in H3.
    + destruct (m3_operation_policy op) as [p|] eqn:P; [|discriminate]. bool_split.
      rewrite eqb_eq in *. str_bool. subst path. rewrite (m3_policy_path _ _ P).
      split; [reflexivity|]. intros o E. injection E as <-. exists p. auto.
    + destruct (M3.m3_operation_for_path path); [discriminate|]. split; [reflexivity|discriminate].
  - destruct (m6_operation d) as [op|]; apply check_ok in H6.
    + destruct (M6.m6_operation_identity op) as [i|] eqn:P; [|discriminate]. bool_split.
      rewrite eqb_eq in *. str_bool. subst path. rewrite (m6_identity_path _ _ P).
      split; [reflexivity|]. intros o E. injection E as <-. exists i. auto.
    + destruct (M6.m6_operation_for_path path); [discriminate|]. split; [reflexivity|discriminate].
  - destruct (session_operation d) as [op|], (session_operation_for_command path) as [op'|];
      try discriminate S; [|split; [reflexivity|discriminate]].
    apply eqb_eq in S. subst op'. split; [reflexivity|]. intros o E. injection E as <-.
    apply check_ok in H. bool_split. rewrite eqb_eq in *. now destruct op.
Qed.

(** The commands a handler may run for: reads, the two M1 commands registered with
    the audited kernel, the M3 and M6 operations, [session terminate] and [raw]. *)
Definition permitted (path : string) (d : CommandDescriptor) : Prop :=
  d_tier d = Tier.Read \/
  (is_m1_destructive_command path = true /\ d_tier d = Tier.Destructive
   /\ m1_destructive_kernel d = true) \/
  (exists op, M3.m3_operation_for_path path = Some op) \/
  (exists op, M6.m6_operation_for_path path = Some op) \/
  path = "session terminate" \/ path = "raw".

Lemma gate_open_iff path d : checked path d -> gate_open path d = true <-> permitted path d.
Proof.
  intros [Raw _ [E3 _] [E6 _] [ES _]]. unfold gate_open, permitted.
  rewrite <- E3, <- E6, ES, Raw. split.
  - rewrite negb_true_iff. intros G.
    destruct (eqb (d_tier d) Tier.Read) eqn:T; [left; now apply eqb_eq|right].
    destruct (is_m1_destructive_command path && eqb (d_tier d) Tier.Destructive
              && m1_destructive_kernel d) eqn:K.
    { left. bool_split. rewrite eqb_eq in *. auto. }
    right. cbn [negb andb] in G. apply negb_false_iff in G.
    destruct (m3_operation d) as [op|]; [eauto|]. destruct (m6_operation d) as [op|]; [eauto|].
    do 2 right. unfold session_operation_for_command in G.
    destruct (String.eqb path "session list"); [right; now apply String.eqb_eq in G|].
    destruct (String.eqb path "session terminate") eqn:P; [left; now apply String.eqb_eq|].
    right. now apply String.eqb_eq in G.
  - intros [->|[(-> & -> & ->)|[(op & ->)|[(op & ->)|[->| ->]]]]]; [reflexivity| | | | |].
    + reflexivity.
    + destruct op; cbn [publicly_active_m3 orb negb]; now rewrite andb_false_r.
    + cbn [has orb]. now rewrite orb_true_r, andb_false_r.
    + cbn. now rewrite !orb_true_r, andb_false_r.
    + cbn. now rewrite !orb_true_r, andb_false_r.
Qed.

(** C30.  No write slips past the gate.  In a dispatcher built by registration a
    command has exactly the M3, M6 or session identity that its path reserves and
    the static tier of that identity (so a write cannot be registered as a read),
    and only [logout] and [account remove] carry the bypass of the M1 kernel.
    [dispatch], when the request is well formed and the preflight lets it pass,
    runs the handler exactly for the permitted commands: reads, the two M1
    commands with the audited kernel, M3 and M6 commands, [session terminate] and
    [raw]; for any other command it answers DENIED and the handler is not run. *)
Theorem registered_commands_obey_policy {transport_class : Derived (list Emission)} r path d :
  registered r -> find_command r path = Some d ->
  m3_operation d = M3.m3_operation_for_path path /\
  m6_operation d = M6.m6_operation_for_path path /\
  session_operation d = session_operation_for_command path /\
  (forall op, m3_operation d = Some op ->
     exists p, m3_operation_policy op = Some p /\ d_tier d = tier p) /\
  (forall op, m6_operation d = Some op ->
     exists i, M6.m6_operation_identity op = Some i /\ d_tier d = tier_for (M6.tier i)) /\
  (forall op, session_operation d = Some op -> d_tier d = session_tier op) /\
  (m1_destructive_kernel d = true -> path = "logout" \/ path = "account remove") /\
  (forall s s1, reject_invalid_idempotency (request_ s) = None ->
     command_key (command (request_ s)) = path -> run_preflight r path s = (Ok true, s1) ->
     (permitted path d -> dispatch r s = run_handler path d s1) /\
     (~ permitted path d -> dispatch r s = deny s1)).
Proof.
  intros R F. pose proof (check_descriptor_checked _ _ (found_checked _ _ _ R F)) as C.
  pose proof (gate_open_iff _ _ C) as G. destruct C as [_ M1 [E3 T3] [E6 T6] [ES TS]].
  repeat (split; [assumption|]). split.
  - intros K. destruct (M1 K) as [_ P]. unfold is_m1_destructive_command in P.
    apply orb_true_iff in P as [P|P]; apply String.eqb_eq in P; auto.
  - intros s s1 I K P. unfold dispatch. rewrite I, K, F, P. split.
    + intros H. now rewrite (proj2 G H).
    + intros H. destruct (gate_open path d) eqn:O; [|reflexivity]. destruct (H (proj1 G eq_refl)).
Qed.

Definition sample_send (t : Tier.t) : CommandDescriptor :=
  {| d_tier := t; handler := fun _ => ([OResult JNull], Ok tt); m1_destructive_kernel := false;
     m3_operation := Some M3.Send; d_deadline_default := Default60; m6_operation := None;
     session_operation := None; config_admission := false; dynamic_raw_policy := false |}.

Example send_is_not_a_read :
  register_command "send" (sample_send Tier.Read) new_dispatcher
  = Err "M3 command descriptor does not match its static policy".
Proof. reflexivity. Qed.

(** A destructive command without a kernel of its own. *)
Definition sample_unaudited : CommandDescriptor :=
  {| d_tier := Tier.Destructive; handler := fun _ => ([OResult JNull], Ok tt);
     m1_destructive_kernel := false; m3_operation := None; d_deadline_default := Default60;
     m6_operation := None; session_operation := None; config_admission := false;
     dynamic_raw_policy := false |}.

Lemma registered_commands_obey_policy_witness :
  exists r, register_command "login" sample_unaudited new_dispatcher = Ok r /\
  ~ permitted "login" sample_unaudited /\
  @dispatch connected r login = @deny connected login.
Proof.
  eexists. split; [reflexivity|].
  assert (~ permitted "login" sample_unaudited) as N.
  { intros [H|[(H & _)|[(op & H)|[(op & H)|[H|H]]]]]; discriminate. }
  split; [exact N|].
  destruct (@registered_commands_obey_policy connected _ "login" sample_unaudited
    (registered_command new_dispatcher "login" sample_unaudited _ registered_new eq_refl) eq_refl)
    as (_ & _ & _ & _ & _ & _ & _ & D).
  exact (proj2 (D login login eq_refl eq_refl eq_refl) N).
Defined.

Section Answers.
Context {transport_class : Derived (list Emission)}.

(** The session may still claim its terminal frame. *)
Definition open_activity (s : Session) : bool :=
  match activity_state_ (derived (sink_ s)) with
  | ActivityState.OpenRequest | ActivityState.OpenLegacySubscription => true
  | _ => false
  end.

Definition settled (s : Session) : Prop :=
  has_terminal (sink_ s) = true \/ open_activity s = false.

Lemma session_error_settles code message details exit_code s :
  settled (snd (session_error code message details exit_code s)).
Proof.
  unfold session_error, on_sink, settled, has_terminal, open_activity, error.
  assert (K : forall e k, let k' := snd (public_terminal e k) in terminal_ k' = true \/
    match activity_state_ (derived k') with
    | ActivityState.OpenRequest | ActivityState.OpenLegacySubscription => true
    | _ => false
    end = false).
  { intros e k. unfold public_terminal. destruct (terminal_ k) eqn:T; [left; exact T|]. cbn.
    unfold session_claim_public_terminal. destruct (activity_state_ (derived k)) eqn:A;
      cbn -[emits]; rewrite ?emits_terminal, ?A; auto. }
  specialize (K (EError code message details exit_code) (sink_ s)).
  destruct (public_terminal _ _) as [o k]. exact K.
Qed.

Lemma answered_settles code message details exit_code s :
  let '(r, s') := answered (session_error code message details exit_code s) in
  settled s' /\ (r = Ok Answered \/ r = Err AnswerThrew).
Proof.
  unfold answered. pose proof (session_error_settles code message details exit_code s).
  destruct (fst _); auto.
Qed.

(** How a request ends. *)
Definition ended (r : Dispatcher) (s : Session) (outcome : result Escaped Dispatched) (s' : Session) : Prop :=
  let preflight := fst (run_preflight r (command_key (command (request_ s))) s) in
  match outcome with
  | Ok StoppedByPreflight => preflight = Ok false
  | Err PreflightThrew => preflight = Err tt
  | Ok Cancelled => stop_requested s' = true
  | Ok Answered | Err AnswerThrew => settled s'
  end.

Lemma answered_ended r s code message details exit_code s1 :
  let '(outcome, s') := answered (session_error code message details exit_code s1) in
  ended r s outcome s'.
Proof.
  pose proof (answered_settles code message details exit_code s1) as K.
  destruct (answered _) as [o s']. destruct K as [K [-> | ->]]; exact K.
Qed.

(** C31.  Every request the preflight lets pass is answered: when [dispatch]
    returns, or an exception of the answer leaves it, the session has its terminal
    frame or has given it up to another owner (a stream subscription, a protocol
    error, a released session).  The exceptions are exactly these: the preflight
    stopped the request or threw, which [dispatch] does not catch and for which it
    writes no frame of its own, or the session was cancelled while the handler
    ran. *)
Theorem dispatch_answers r s :
  let '(outcome, s') := dispatch r s in ended r s outcome s'.
Proof.
  unfold dispatch. pose proof (answered_ended r s) as A.
  destruct (reject_invalid_idempotency (request_ s)); [apply A|].
  destruct (find_command r _) as [d|]; [|apply A].
  destruct (run_preflight r _ s) as [[[]|[]] s1] eqn:P; [|unfold ended; rewrite P; reflexivity..].
  destruct (negb _); [apply A|]. unfold run_handler. destruct (handler d _) as [ops [[]|]]; [|apply A].
  destruct (stop_requested _) eqn:S; [exact S|].
  destruct (has_terminal _) eqn:T; [left; exact T|apply A].
Qed.
End Answers.

(** A handler that forgets to answer. *)
Example silent_handler_is_answered :
  forall r, register_command "login"
    {| d_tier := Tier.Read; handler := fun _ => ([OItem JNull], Ok tt);
       m1_destructive_kernel := false; m3_operation := None; d_deadline_default := Default60;
       m6_operation := None; session_operation := None; config_admission := false;
       dynamic_raw_policy := false |} new_dispatcher = Ok r ->
  derived (peer (snd (@dispatch connected r login))) =
  [EItem JNull;
   EError "INTERNAL" "command handler returned without a terminal response"
     (jobject [("operation", JString "login"); ("reason", JString "internal_error")]) 1].
Proof. intros r E. vm_compute in E. injection E as <-. reflexivity. Qed.
