(* ===== verification/Interleaving.v ===== *)
(** Programs that share a state and run in parallel: a machine that interleaves
    their effects with those of an environment, and a rely-guarantee logic for
    it.  A thread is proved alone, against what the others may do to the state
    between two of its effects ([rely]) and what it promises to do itself
    ([guar]); [parallel_safe] composes such proofs for every interleaving.

    An effect is atomic.  [may] restricts the states in which a thread performs
    an effect, which is how the absence of data races is stated: two accesses
    that are pending together are then known to be disjoint. *)
From Stdlib Require Import RelationClasses.
From S2P Require Import Prelude.

(** * Threads *)

(** Code that throws nothing: it ends with a value or performs an effect. *)
Inductive thread (E : Type -> Type) (A : Type) : Type :=
| Ret (a : A)
| Do {X : Type} (e : E X) (k : X -> thread E A).
Arguments Ret {E A} a.
Arguments Do {E A X} e k.

Fixpoint tbind {E A B} (m : thread E A) (k : A -> thread E B) : thread E B :=
  match m with
  | Ret a => k a
  | Do e c => Do e (fun x => tbind (c x) k)
  end.

Definition act {E X} (e : E X) : thread E X := Do e Ret.

Declare Scope thread_scope.
Delimit Scope thread_scope with thread.
Notation "x <- a ;; b" := (tbind a (fun x => b)) : thread_scope.
Notation "a ;;; b" := (tbind a (fun _ => b)) : thread_scope.

(** * The machine *)

Section machine.
Context {E : Type -> Type} {W A : Type}.

(** [perform e s] is the answer and the new state; [None] is undefined
    behaviour. *)
Context (perform : forall X, E X -> W -> option (X * W)).
Context (environment : W -> W -> Prop).

Inductive machine_step : W * list (thread E A) -> W * list (thread E A) -> Prop :=
| thread_steps s s' before after X (e : E X) k x :
    perform X e s = Some (x, s') ->
    machine_step (s, before ++ Do e k :: after) (s', before ++ k x :: after)
| environment_steps s s' threads :
    environment s s' -> machine_step (s, threads) (s', threads).

Inductive reaches : W * list (thread E A) -> W * list (thread E A) -> Prop :=
| reaches_here c : reaches c c
| reaches_step c c' c'' : reaches c c' -> machine_step c' c'' -> reaches c c''.

(** * Rely and guarantee *)

(** The state of a proof has auxiliary variables [G] beside the state of the
    program; a step may change them as it likes within its guarantee. *)
Context {G : Type}.

Record role := {
  rely : W * G -> W * G -> Prop;
  guar : W * G -> W * G -> Prop;
  may : forall X, E X -> W * G -> Prop
}.

Context (invariant : W * G -> Prop).

Fixpoint wp (r : role) (p : thread E A) (Q : A -> W * G -> Prop) (s : W * G) : Prop :=
  match p with
  | Ret a => forall s', rely r s s' -> invariant s' -> Q a s'
  | Do e k =>
      forall s', rely r s s' -> invariant s' ->
      may r _ e s' /\
      exists x s1 g1, perform _ e (fst s') = Some (x, s1) /\ guar r s' (s1, g1)
                      /\ invariant (s1, g1) /\ wp r (k x) Q (s1, g1)
  end.

Definition stable (r : role) (P : W * G -> Prop) : Prop :=
  forall s s', P s -> rely r s s' -> P s'.

Class role_ok (r : role) : Prop := { rely_preorder :: PreOrder (rely r); guar_refl :: Reflexive (guar r) }.

Lemma wp_stable r p Q : role_ok r -> stable r (wp r p Q).
Proof.
  intros O s s' H T. destruct p as [a|X e k]; intros s'' T' I;
    apply H; auto; etransitivity; eauto.
Qed.

(** The role of thread [i] lets every other thread keep its guarantee. *)
Definition compatible (roles : list role) : Prop :=
  forall i j ri rj, i <> j -> nth_error roles i = Some ri -> nth_error roles j = Some rj ->
  forall s s', invariant s -> invariant s' -> guar ri s s' -> rely rj s s'.

(** What every reachable configuration satisfies. *)
Definition configured (roles : list role) (post : nat -> A -> W * G -> Prop)
    (threads : list (thread E A)) (s : W * G) : Prop :=
  invariant s /\ List.length threads = List.length roles
  /\ forall i r p, nth_error roles i = Some r -> nth_error threads i = Some p -> wp r p (post i) s.

Lemma nth_error_replace {T} (before after : list T) x y i :
  nth_error (before ++ y :: after) i =
  if Nat.eqb i (List.length before) then Some y else nth_error (before ++ x :: after) i.
Proof.
  destruct (Nat.eqb_spec i (List.length before)) as [->|N].
  - now rewrite nth_error_app2, Nat.sub_diag by lia.
  - destruct (Nat.lt_ge_cases i (List.length before)) as [L|L].
    + now rewrite !nth_error_app1 by lia.
    + rewrite !nth_error_app2 by lia. replace (i - List.length before)%nat with (S (i - List.length before - 1)) by lia.
      reflexivity.
Qed.

Section safety.
Context (roles : list role) (post : nat -> A -> W * G -> Prop).
Context (ok : forall i r, nth_error roles i = Some r -> role_ok r).
Context (compat : compatible roles).
Context (environs : forall s g s', environment s s' -> invariant (s, g) ->
           invariant (s', g) /\ forall i r, nth_error roles i = Some r -> rely r (s, g) (s', g)).

Lemma step_configured s g threads s' threads' :
  configured roles post threads (s, g) -> machine_step (s, threads) (s', threads') ->
  exists g', configured roles post threads' (s', g').
Proof.
  intros (I & L & H) T. inversion T as [? ? before after X e k x P | ? ? ? V]; subst.
  - destruct (nth_error roles (List.length before)) as [r|] eqn:R.
    2: { apply nth_error_None in R. rewrite length_app in L. cbn in L. lia. }
    assert (nth_error (before ++ Do e k :: after) (List.length before) = Some (Do e k)) as N
      by now rewrite nth_error_app2, Nat.sub_diag by lia.
    destruct (H _ _ _ R N (s, g)) as (_ & y & s1 & g1 & P1 & GU & I1 & H1); [|exact I|].
    { destruct (ok _ _ R). reflexivity. }
    cbn in P1. rewrite P in P1. injection P1 as <- <-. exists g1.
    split; [exact I1|]. split; [rewrite length_app in *; cbn in *; lia|].
    intros i ri p Ri Ni. rewrite (nth_error_replace _ _ (Do e k)) in Ni.
    destruct (Nat.eqb_spec i (List.length before)) as [->|NE].
    { rewrite R in Ri. injection Ri as <-. injection Ni as <-. exact H1. }
    eapply wp_stable; eauto.
  - exists g. destruct (environs _ _ _ V I) as [I' ENV]. split; [exact I'|]. split; [exact L|].
    intros i r p R N. eapply wp_stable; eauto.
Qed.

(** Threads proved one by one are safe together: in every reachable
    configuration the invariant holds, every pending effect is defined and
    permitted, and every thread that ended satisfies its postcondition. *)
Theorem parallel_safe s g threads s' threads' :
  configured roles post threads (s, g) -> reaches (s, threads) (s', threads') ->
  exists g', invariant (s', g')
    /\ List.length threads' = List.length roles
    /\ (forall i r X (e : E X) k, nth_error roles i = Some r -> nth_error threads' i = Some (Do e k) ->
          may r X e (s', g') /\ perform X e s' <> None)
    /\ (forall i a, (i < List.length roles)%nat -> nth_error threads' i = Some (Ret a) -> post i a (s', g')).
Proof.
  intros C T. remember (s, threads) as c. remember (s', threads') as c'.
  assert (exists g', configured roles post threads' (s', g')) as (g' & I & L & H).
  { revert s' threads' Heqc'. induction T as [|? c2 ? T IH T1]; intros s' threads' ->.
    - injection Heqc as <- <-. eauto.
    - destruct c2 as [s2 l2]. destruct (IH Heqc _ _ eq_refl) as [g2 C2].
      eapply step_configured; eauto. }
  exists g'. split; [exact I|]. split; [exact L|]. split.
  - intros i r X e k R N. destruct (ok _ _ R).
    destruct (H _ _ _ R N (s', g')) as (M & x & s1 & g1 & P & _); [reflexivity | exact I |].
    split; [exact M|]. cbn in P. congruence.
  - intros i a LT N. destruct (nth_error roles i) as [r|] eqn:R.
    2: { apply nth_error_None in R. lia. }
    destruct (ok _ _ R). apply (H _ _ _ R N); [reflexivity | exact I].
Qed.
End safety.
End machine.
Arguments rely {E W G} r.
Arguments guar {E W G} r.
Arguments may {E W G} r X _ _.
Arguments role : clear implicits.
Arguments Build_role {E W G} rely guar may.

(** * Rules of the logic *)
Section rules.
Context {E : Type -> Type} {W G : Type}.
Context (perform : forall X, E X -> W -> option (X * W)) (invariant : W * G -> Prop).
Context (r : role E W G) {OK : role_ok r}.

Abbreviation wp := (wp perform invariant r).

Lemma wp_ret {A} (a : A) (Q : A -> W * G -> Prop) P s :
  P s -> stable r P -> (forall s', invariant s' -> P s' -> Q a s') -> wp (Ret a) Q s.
Proof. intros H T K s' R I. apply K; [exact I|]. exact (T _ _ H R). Qed.

Lemma wp_bind {A B} (p : thread E A) (k : A -> thread E B) Q s :
  invariant s -> wp p (fun a s => wp (k a) Q s) s -> wp (tbind p k) Q s.
Proof.
  revert s. induction p as [a|X e c IH]; intros s I H; cbn in *.
  - apply H; [reflexivity | exact I].
  - intros s' R I'. destruct (H s' R I') as (M & x & s1 & g1 & P & GU & I1 & H2).
    split; [exact M|]. exists x, s1, g1. repeat (split; [assumption|]). auto.
Qed.

Lemma wp_mono {A} (p : thread E A) (Q Q' : A -> W * G -> Prop) s :
  (forall a s', invariant s' -> Q a s' -> Q' a s') -> wp p Q s -> wp p Q' s.
Proof.
  intros K. revert s. induction p as [a|X e c IH]; intros s H; cbn in *.
  - intros s' R I. auto.
  - intros s' R I'. destruct (H s' R I') as (M & x & s1 & g1 & P & GU & I1 & H2).
    split; [exact M|]. exists x, s1, g1. repeat (split; [assumption|]). auto.
Qed.

(** An effect that only reads. *)
Lemma wp_read {A X} (e : E X) (k : X -> thread E A) f P Q s :
  (forall s, perform X e s = Some (f s, s)) -> P s -> stable r P ->
  (forall s', invariant s' -> P s' ->
     may r X e s' /\ wp (k (f (fst s'))) Q s') ->
  wp (tbind (act e) k) Q s.
Proof.
  intros F H T K s' R I. destruct (K s' I (T _ _ H R)) as [M H2]. split; [exact M|].
  exists (f (fst s')), (fst s'), (snd s'). rewrite <- surjective_pairing.
  repeat split; auto. reflexivity.
Qed.

(** An effect that changes the state, with what it does to the auxiliary
    variables. *)
Lemma wp_write {A X} (e : E X) (k : X -> thread E A) P Q s :
  P s -> stable r P ->
  (forall s g, invariant (s, g) -> P (s, g) ->
     may r X e (s, g) /\
     exists x s' g', perform X e s = Some (x, s') /\ guar r (s, g) (s', g')
       /\ invariant (s', g') /\ wp (k x) Q (s', g')) ->
  wp (tbind (act e) k) Q s.
Proof. intros H T K [s' g'] R I. exact (K _ _ I (T _ _ H R)). Qed.

(** An effect at the end. *)
Lemma wp_act {X} (e : E X) Q s : wp (tbind (act e) Ret) Q s -> wp (act e) Q s.
Proof. exact (fun H => H). Qed.

Lemma wp_assoc {A B C} (a : thread E A) (f : A -> thread E B) (h : B -> thread E C) Q s :
  wp (tbind a (fun x => tbind (f x) h)) Q s -> wp (tbind (tbind a f) h) Q s.
Proof.
  revert s. induction a as [x|X e c IH]; intros s H; cbn in *; [exact H|].
  intros s' R I'. destruct (H s' R I') as (M & x & s1 & g1 & P & GU & I1 & H2).
  split; [exact M|]. exists x, s1, g1. repeat (split; [assumption|]). auto.
Qed.
End rules.

(** * Schedules *)

(** Running threads in a given order: an executable part of [reaches]. *)
Section schedule.
Context {E : Type -> Type} {W A : Type}.
Context (perform : forall X, E X -> W -> option (X * W)).

Fixpoint step_thread (i : nat) (s : W) (threads : list (thread E A)) : option (W * list (thread E A)) :=
  match i, threads with
  | O, Do e k :: rest =>
      match perform _ e s with
      | Some (x, s') => Some (s', k x :: rest)
      | None => None
      end
  | S i, t :: rest =>
      match step_thread i s rest with
      | Some (s', rest') => Some (s', t :: rest')
      | None => None
      end
  | _, _ => None
  end.

Fixpoint run_schedule (schedule : list nat) (c : W * list (thread E A)) : option (W * list (thread E A)) :=
  match schedule with
  | [] => Some c
  | i :: schedule =>
      match step_thread i (fst c) (snd c) with
      | Some c' => run_schedule schedule c'
      | None => None
      end
  end.

Lemma step_thread_machine environment i s l s' l' before :
  step_thread i s l = Some (s', l') ->
  machine_step perform environment (s, before ++ l) (s', before ++ l').
Proof.
  revert i before l'. induction l as [|t l IH]; intros i before l' H; [destruct i; discriminate|].
  destruct i as [|i]; cbn in H.
  - destruct t as [a|X e k]; [discriminate|]. destruct (perform X e s) as [[x s1]|] eqn:P; [|discriminate].
    injection H as <- <-. now constructor.
  - destruct (step_thread i s l) as [[s1 rest]|] eqn:T; [|discriminate]. injection H as <- <-.
    specialize (IH i (before ++ [t]) rest T). now rewrite <- !app_assoc in IH.
Qed.

Lemma run_reaches environment schedule c c' :
  run_schedule schedule c = Some c' -> reaches perform environment c c'.
Proof.
  revert c. enough (forall c c0, reaches perform environment c0 c -> run_schedule schedule c = Some c' ->
                      reaches perform environment c0 c') by (intros; eapply H; eauto; constructor).
  induction schedule as [|i schedule IH]; intros c c0 R H; cbn in H.
  - now injection H as <-.
  - destruct (step_thread i (fst c) (snd c)) as [[s' l']|] eqn:T; [|discriminate].
    eapply IH; [|exact H]. destruct c as [s l]. eapply reaches_step; [exact R|].
    exact (step_thread_machine environment i s l s' l' [] T).
Qed.
End schedule.
