(* ===== verification/StreamIngress.v ===== *)
(** The ingress of a stream subscription (src/src/daemon/stream_ingress.cpp,
    .hpp): a ring of bytes and a ring of descriptors between the thread that
    receives updates and the worker of the subscription, the arbitration of the
    terminal cause, and the schedule of the worker's polls.

    Operations are threads over the atomic accesses and the block copies they
    make on one slot.  An access outside an array is undefined behaviour
    ([None] in [perform]).  The interleaving of these effects is sequentially
    consistent; the probes of the tests are left out. *)
From S2P Require Import Prelude RequestSession Interleaving.
From coqutil Require Import Datatypes.RecordSetters.
Import OCamlLikeNotations.

#[local] Arguments constant {E} newValue _ /.

(** * Limits (stream_limits.hpp) *)

Definition kStreamQueueItems : Z := 1024.
Definition kStreamQueueBytes : Z := 8388608.
Definition kStreamQueueItemBytes : Z := 262144.
Definition kStreamChatFilters : Z := 64.

(** * Items (stream_storage.hpp, stream_storage.cpp) *)

(** The classes of events; [Other] is any other value of the underlying type, as
    a poisoned descriptor has it. *)
Module StreamEventClass.
Inductive t : Set := Message | Edit | Delete | Reaction | Chat | Other (raw : Z).
Definition value (e : t) : Z :=
  match e with Message => 0 | Edit => 1 | Delete => 2 | Reaction => 3 | Chat => 4 | Other z => z end.
End StreamEventClass.

Module StreamSenderKind.
Inductive t : Set := None | User | Chat | Other (raw : Z).
End StreamSenderKind.

Definition stream_event_mask (event : StreamEventClass.t) : Z :=
  u8 (Z.shiftl 1 (StreamEventClass.value event)).

Record StreamRoutingSidecar := {
  r_event_class : StreamEventClass.t;
  r_chat_id : Z;
  r_sender_kind : StreamSenderKind.t;
  r_sender_id : Z;
  r_json_offset : Z;
  r_json_size : Z;
  r_message_offset : Z;
  r_message_size : Z;
  r_text_offset : Z;
  r_text_size : Z
}.

Record StreamItemView := {
  first_ : string;
  second_ : string;
  sequence_ : Z;
  routing_ : StreamRoutingSidecar
}.

Definition spans (item : StreamItemView) : list string := [first_ item; second_ item].
Definition item_size (item : StreamItemView) : Z := str_len (first_ item) + str_len (second_ item).

(** * Data *)

Module StreamOperation.
Inductive t : Set := Listen | WaitFor.
End StreamOperation.

Module StreamMode.
Inductive t : Set := Items | Match.
End StreamMode.

Module StreamIngressState.
Inductive t : Set :=
| Free | Reserved | Armed | Installing | Published | Removing | Removed | Reclaimable.
Definition value (s : t) : Z :=
  match s with
  | Free => 0 | Reserved => 1 | Armed => 2 | Installing => 3
  | Published => 4 | Removing => 5 | Removed => 6 | Reclaimable => 7
  end.
End StreamIngressState.

Definition decode_state (raw : Z) : option StreamIngressState.t :=
  nth_error
    [StreamIngressState.Free; StreamIngressState.Reserved; StreamIngressState.Armed;
     StreamIngressState.Installing; StreamIngressState.Published; StreamIngressState.Removing;
     StreamIngressState.Removed; StreamIngressState.Reclaimable] (Z.to_nat raw).

Record PublishedIngressFilter := {
  f_client_id : Z;
  f_generation : Z;
  f_activation_receive_sequence : Z;
  f_chat_ids : list Z;
  f_chat_count : Z;
  f_type_mask : Z;
  f_mode : StreamMode.t;
  f_operation : StreamOperation.t
}.

Module StreamTerminalCause.
Inductive t : Set :=
| Open
| ClaimingCounterExhausted | ClaimingItemBytes | ClaimingQueueItems | ClaimingQueueBytes
| ClaimingHistoryOverlap | ClaimingTdlibError | ClaimingRateLimited | ClaimingPaginationInvalid
| ClaimingInternal | ClaimingAuthorizationLost | ClaimingGenerationReplaced | ClaimingShutdown
| ClaimingMetadataFailure | ClaimingPlannedSuccess | ClaimingDeadline | ClaimingDisconnected
| ClaimingProtocolAnswerInvalid
| CounterExhausted | ItemBytes | QueueItems | QueueBytes | HistoryOverlap | TdlibError
| RateLimited | PaginationInvalid | Internal | AuthorizationLost | GenerationReplaced | Shutdown
| MetadataFailure | PlannedSuccess | Deadline | Disconnected | ProtocolAnswerInvalid.
Scheme Equality for t.
End StreamTerminalCause.

Definition cause_eqb := StreamTerminalCause.t_beq.

Definition claiming_cause (cause : StreamTerminalCause.t) : StreamTerminalCause.t :=
  match cause with
  | StreamTerminalCause.CounterExhausted => StreamTerminalCause.ClaimingCounterExhausted
  | StreamTerminalCause.ItemBytes => StreamTerminalCause.ClaimingItemBytes
  | StreamTerminalCause.QueueItems => StreamTerminalCause.ClaimingQueueItems
  | StreamTerminalCause.QueueBytes => StreamTerminalCause.ClaimingQueueBytes
  | StreamTerminalCause.HistoryOverlap => StreamTerminalCause.ClaimingHistoryOverlap
  | StreamTerminalCause.TdlibError => StreamTerminalCause.ClaimingTdlibError
  | StreamTerminalCause.RateLimited => StreamTerminalCause.ClaimingRateLimited
  | StreamTerminalCause.PaginationInvalid => StreamTerminalCause.ClaimingPaginationInvalid
  | StreamTerminalCause.Internal => StreamTerminalCause.ClaimingInternal
  | StreamTerminalCause.AuthorizationLost => StreamTerminalCause.ClaimingAuthorizationLost
  | StreamTerminalCause.GenerationReplaced => StreamTerminalCause.ClaimingGenerationReplaced
  | StreamTerminalCause.Shutdown => StreamTerminalCause.ClaimingShutdown
  | StreamTerminalCause.MetadataFailure => StreamTerminalCause.ClaimingMetadataFailure
  | StreamTerminalCause.PlannedSuccess => StreamTerminalCause.ClaimingPlannedSuccess
  | StreamTerminalCause.Deadline => StreamTerminalCause.ClaimingDeadline
  | StreamTerminalCause.Disconnected => StreamTerminalCause.ClaimingDisconnected
  | StreamTerminalCause.ProtocolAnswerInvalid => StreamTerminalCause.ClaimingProtocolAnswerInvalid
  | _ => StreamTerminalCause.Open
  end.

(** [cause >= CounterExhausted] in the order of the enumeration. *)
Definition ready_cause (cause : StreamTerminalCause.t) : bool :=
  match cause with
  | StreamTerminalCause.Open
  | StreamTerminalCause.ClaimingCounterExhausted | StreamTerminalCause.ClaimingItemBytes
  | StreamTerminalCause.ClaimingQueueItems | StreamTerminalCause.ClaimingQueueBytes
  | StreamTerminalCause.ClaimingHistoryOverlap | StreamTerminalCause.ClaimingTdlibError
  | StreamTerminalCause.ClaimingRateLimited | StreamTerminalCause.ClaimingPaginationInvalid
  | StreamTerminalCause.ClaimingInternal | StreamTerminalCause.ClaimingAuthorizationLost
  | StreamTerminalCause.ClaimingGenerationReplaced | StreamTerminalCause.ClaimingShutdown
  | StreamTerminalCause.ClaimingMetadataFailure | StreamTerminalCause.ClaimingPlannedSuccess
  | StreamTerminalCause.ClaimingDeadline | StreamTerminalCause.ClaimingDisconnected
  | StreamTerminalCause.ClaimingProtocolAnswerInvalid => false
  | _ => true
  end.

(** The failure of the metadata that a terminal reports (stream_storage.hpp);
    enumerations by their value. *)
Record StreamMetadataCapacityFailure := {
  cf_resource : Z; cf_phase : Z; cf_limit : Z; cf_used : Z; cf_incoming : Z; cf_would_use : Z
}.

Record StreamFailure := {
  sf_kind : Z; sf_update_kind : Z; sf_malformed_reason : Z; sf_tdlib_type_id : Z;
  sf_tdlib_error_code : Z; sf_retry_after : Z; sf_current_state_index : Z;
  sf_capacity : StreamMetadataCapacityFailure
}.

Definition no_stream_failure : StreamFailure :=
  {| sf_kind := 0; sf_update_kind := 0; sf_malformed_reason := 0; sf_tdlib_type_id := 0;
     sf_tdlib_error_code := 0; sf_retry_after := 0; sf_current_state_index := 0;
     sf_capacity := {| cf_resource := 0; cf_phase := 0; cf_limit := 0; cf_used := 0;
                       cf_incoming := 0; cf_would_use := 0 |} |}.

Record StreamTerminalPayload := {
  p_cause : StreamTerminalCause.t;
  p_operation : StreamOperation.t;
  p_limit_items : Z;
  p_limit_bytes : Z;
  p_queued_items : Z;
  p_queued_bytes : Z;
  p_incoming_bytes : Z;
  p_auth_state : Z;
  p_tdlib_code : Z;
  p_retry_after : Z;
  p_protocol_request_id : Z;
  p_protocol_reason : InvalidReason.t;
  p_metadata_failure : StreamFailure
}.

Definition terminal_payload_for (cause : StreamTerminalCause.t) (operation : StreamOperation.t) :
    StreamTerminalPayload :=
  {| p_cause := cause; p_operation := operation; p_limit_items := kStreamQueueItems;
     p_limit_bytes := kStreamQueueBytes; p_queued_items := 0; p_queued_bytes := 0;
     p_incoming_bytes := 0; p_auth_state := 0; p_tdlib_code := 0; p_retry_after := 0;
     p_protocol_request_id := 0; p_protocol_reason := InvalidReason.Malformed;
     p_metadata_failure := no_stream_failure |}.

Record StreamIngressDescriptor := {
  d_byte_ticket : Z;
  d_receive_sequence : Z;
  d_chat_id : Z;
  d_sender_id : Z;
  d_json_offset : Z;
  d_json_size : Z;
  d_message_offset : Z;
  d_message_size : Z;
  d_text_offset : Z;
  d_text_size : Z;
  d_event_class : StreamEventClass.t;
  d_sender_kind : StreamSenderKind.t
}.

(** Every byte [0xA7]. *)
Definition kReclaimedPoison : Z := 167.
Definition poison_byte : ascii := ascii_of_Z kReclaimedPoison.
Definition poison_u32 : Z := 2812782503.
Definition poison_u64 : Z := 12080808863958804391.

Definition poisoned_descriptor : StreamIngressDescriptor :=
  {| d_byte_ticket := poison_u64; d_receive_sequence := poison_u64; d_chat_id := i64_of poison_u64;
     d_sender_id := i64_of poison_u64; d_json_offset := poison_u32; d_json_size := poison_u32;
     d_message_offset := poison_u32; d_message_size := poison_u32; d_text_offset := poison_u32;
     d_text_size := poison_u32; d_event_class := StreamEventClass.Other kReclaimedPoison;
     d_sender_kind := StreamSenderKind.Other kReclaimedPoison |}.

Module ActivationCommit.
Inductive t : Set := Open | Prepared | TerminalClaiming | Cancelled | PromotionCommitted.
End ActivationCommit.

(** The members of a slot its threads share; the two arrays are functions of the
    index. *)
Record StreamIngressSlot := {
  sl_state : Z;
  epoch : Z;
  borrow_epoch : Z;
  active_borrows : Z;
  activation_commit : ActivationCommit.t;
  projection : PublishedIngressFilter;
  descriptors : Z -> StreamIngressDescriptor;
  bytes : Z -> ascii;
  descriptor_producer : Z;
  descriptor_consumer : Z;
  byte_producer : Z;
  byte_consumer : Z;
  terminal_cause : StreamTerminalCause.t;
  terminal_payload : StreamTerminalPayload
}.

(** * Effects on a slot *)

Inductive slot_effect : Type -> Type :=
| LoadTerminal : slot_effect StreamTerminalCause.t
| CasTerminal (expected desired : StreamTerminalCause.t) : slot_effect bool
| StoreTerminal (cause : StreamTerminalCause.t) : slot_effect unit
| StorePayload (payload : StreamTerminalPayload) : slot_effect unit
(** The loop of weak exchanges from [Open] or [Prepared] to [TerminalClaiming]:
    its last iteration. *)
| ClaimActivation : slot_effect bool
| StoreActivation (commit : ActivationCommit.t) : slot_effect unit
| LoadState : slot_effect Z
| LoadProjection : slot_effect PublishedIngressFilter
| LoadDescriptorProducer : slot_effect Z
| LoadDescriptorConsumer : slot_effect Z
| LoadByteProducer : slot_effect Z
| LoadByteConsumer : slot_effect Z
| StoreDescriptorProducer (ticket : Z) : slot_effect unit
| StoreDescriptorConsumer (ticket : Z) : slot_effect unit
| StoreByteProducer (ticket : Z) : slot_effect unit
| StoreByteConsumer (ticket : Z) : slot_effect unit
| ReadDescriptor (index : Z) : slot_effect StreamIngressDescriptor
| WriteDescriptor (index : Z) (d : StreamIngressDescriptor) : slot_effect unit
| CopyIn (offset : Z) (data : string) : slot_effect unit
| CopyOut (offset size : Z) : slot_effect string
| Fill (offset : Z) (byte : ascii) (size : Z) : slot_effect unit
| LoadEpoch : slot_effect Z
| LoadBorrowEpoch : slot_effect Z
| CasBorrowEpoch (expected desired : Z) : slot_effect bool
| CasActiveBorrows (expected desired : Z) : slot_effect bool
| StoreActiveBorrows (count : Z) : slot_effect unit.

Definition byte_at (s : string) (i : Z) : ascii :=
  match String.get (Z.to_nat i) s with Some c => c | None => Ascii.zero end.

Definition copy_in (memory : Z -> ascii) (offset : Z) (data : string) : Z -> ascii :=
  fun i => if (offset <=? i) && (i <? offset + str_len data) then byte_at data (i - offset) else memory i.

Definition fill (memory : Z -> ascii) (offset : Z) (byte : ascii) (size : Z) : Z -> ascii :=
  fun i => if (offset <=? i) && (i <? offset + size) then byte else memory i.

Fixpoint copy_out (memory : Z -> ascii) (offset : Z) (size : nat) : string :=
  match size with
  | O => EmptyString
  | S n => String (memory offset) (copy_out memory (offset + 1) n)
  end.

Definition in_bytes (offset size : Z) : bool :=
  (0 <=? offset) && (0 <=? size) && (offset + size <=? kStreamQueueBytes).

Definition in_descriptors (index : Z) : bool := (0 <=? index) && (index <? kStreamQueueItems).

Definition perform (X : Type) (e : slot_effect X) (s : StreamIngressSlot) :
    option (X * StreamIngressSlot) :=
  match e in slot_effect X return option (X * StreamIngressSlot) with
  | LoadTerminal => Some (terminal_cause s, s)
  | CasTerminal expected desired =>
      if cause_eqb (terminal_cause s) expected
      then Some (true, { s with terminal_cause := desired }) else Some (false, s)
  | StoreTerminal cause => Some (tt, { s with terminal_cause := cause })
  | StorePayload payload => Some (tt, { s with terminal_payload := payload })
  | ClaimActivation =>
      match activation_commit s with
      | ActivationCommit.Open | ActivationCommit.Prepared =>
          Some (true, { s with activation_commit := ActivationCommit.TerminalClaiming })
      | _ => Some (false, s)
      end
  | StoreActivation commit => Some (tt, { s with activation_commit := commit })
  | LoadState => Some (sl_state s, s)
  | LoadProjection => Some (projection s, s)
  | LoadDescriptorProducer => Some (descriptor_producer s, s)
  | LoadDescriptorConsumer => Some (descriptor_consumer s, s)
  | LoadByteProducer => Some (byte_producer s, s)
  | LoadByteConsumer => Some (byte_consumer s, s)
  | StoreDescriptorProducer ticket => Some (tt, { s with descriptor_producer := ticket })
  | StoreDescriptorConsumer ticket => Some (tt, { s with descriptor_consumer := ticket })
  | StoreByteProducer ticket => Some (tt, { s with byte_producer := ticket })
  | StoreByteConsumer ticket => Some (tt, { s with byte_consumer := ticket })
  | ReadDescriptor index =>
      if in_descriptors index then Some (descriptors s index, s) else None
  | WriteDescriptor index d =>
      if in_descriptors index
      then Some (tt, { s with descriptors := fun i => if i =? index then d else descriptors s i })
      else None
  | CopyIn offset data =>
      if in_bytes offset (str_len data)
      then Some (tt, { s with bytes := copy_in (bytes s) offset data }) else None
  | CopyOut offset size =>
      if in_bytes offset size then Some (copy_out (bytes s) offset (Z.to_nat size), s) else None
  | Fill offset byte size =>
      if in_bytes offset size
      then Some (tt, { s with bytes := fill (bytes s) offset byte size }) else None
  | LoadEpoch => Some (epoch s, s)
  | LoadBorrowEpoch => Some (borrow_epoch s, s)
  | CasBorrowEpoch expected desired =>
      if borrow_epoch s =? expected
      then Some (true, { s with borrow_epoch := desired }) else Some (false, s)
  | CasActiveBorrows expected desired =>
      if active_borrows s =? expected
      then Some (true, { s with active_borrows := desired }) else Some (false, s)
  | StoreActiveBorrows count => Some (tt, { s with active_borrows := count })
  end.

Abbreviation slot_thread := (thread slot_effect).
Open Scope thread_scope.

(** * The publisher *)

Definition load_state : slot_thread StreamIngressState.t :=
  raw <- act LoadState ;;
  Ret match decode_state raw with Some s => s | None => StreamIngressState.Removed end.

Definition published (state : StreamIngressState.t) : bool :=
  match state with StreamIngressState.Published => true | _ => false end.

(** [Impl::claim]. *)
Definition claim (payload : StreamTerminalPayload) : slot_thread bool :=
  let claiming := claiming_cause (p_cause payload) in
  if cause_eqb claiming StreamTerminalCause.Open then Ret false
  else
    activation_claimed <- act ClaimActivation ;;
    won <- act (CasTerminal StreamTerminalCause.Open claiming) ;;
    if negb won then
      (if activation_claimed : bool then act (StoreActivation ActivationCommit.Cancelled)
       else Ret tt) ;;;
      Ret false
    else
      act (StorePayload payload) ;;;
      act (StoreTerminal (p_cause payload)) ;;;
      (if activation_claimed : bool then act (StoreActivation ActivationCommit.Cancelled)
       else Ret tt) ;;;
      Ret true.

Definition overflow (cause : StreamTerminalCause.t) (queued_items queued_bytes incoming_bytes : Z) :
    slot_thread unit :=
  filter <- act LoadProjection ;;
  claim { terminal_payload_for cause (f_operation filter) with
          p_queued_items := queued_items; p_queued_bytes := queued_bytes;
          p_incoming_bytes := incoming_bytes } ;;;
  Ret tt.

(** [std::binary_search]: the loop of [std::lower_bound], then the comparison. *)
Fixpoint lower_bound (fuel : nat) (l : list Z) (first count : nat) (value : Z) : nat :=
  match fuel with
  | O => first
  | S fuel =>
      if Nat.eqb count 0 then first
      else
        let step := Nat.div2 count in
        if nth (first + step) l 0 <? value
        then lower_bound fuel l (first + step + 1) (count - (step + 1)) value
        else lower_bound fuel l first step value
  end.

Definition binary_search (l : list Z) (value : Z) : bool :=
  match nth_error l (lower_bound (List.length l) l 0 (List.length l) value) with
  | Some x => negb (value <? x)
  | None => false
  end.

(** The part of [Impl::matches] after the check of the state. *)
Definition filter_accepts (filter : PublishedIngressFilter) (item : StreamItemView) : bool :=
  if (f_client_id filter <=? 0) || (f_generation filter =? 0)
     || (sequence_ item <=? f_activation_receive_sequence filter)
     || (Z.land (f_type_mask filter) (stream_event_mask (r_event_class (routing_ item))) =? 0)
  then false
  else if f_chat_count filter =? 0 then true
  else binary_search (firstn (Z.to_nat (f_chat_count filter)) (f_chat_ids filter))
         (r_chat_id (routing_ item)).

Definition matches (item : StreamItemView) : slot_thread bool :=
  state <- load_state ;;
  if negb (published state) then Ret false
  else filter <- act LoadProjection ;; Ret (filter_accepts filter item).

(** The loop of [Impl::enqueue] over the spans of an item: what fits before the
    end of the array, and the rest at its start. *)
Fixpoint copy_spans (destination remaining_first source_offset : Z) (sources : list string) :
    slot_thread unit :=
  match sources with
  | [] => Ret tt
  | source :: rest =>
      let into_first := Z.min remaining_first (str_len source) in
      (if into_first =? 0 then Ret tt
       else act (CopyIn destination (str_take (Z.to_nat into_first) source))) ;;;
      (if into_first <? str_len source
       then act (CopyIn source_offset (str_drop (Z.to_nat into_first) source)) else Ret tt) ;;;
      copy_spans (destination + into_first) (remaining_first - into_first)
        (source_offset + (str_len source - into_first)) rest
  end.

Definition make_descriptor (byte_ticket : Z) (item : StreamItemView) : StreamIngressDescriptor :=
  let routing := routing_ item in
  {| d_byte_ticket := byte_ticket; d_receive_sequence := sequence_ item;
     d_chat_id := r_chat_id routing; d_sender_id := r_sender_id routing; d_json_offset := 0;
     d_json_size := u32 (item_size item); d_message_offset := r_message_offset routing;
     d_message_size := r_message_size routing; d_text_offset := r_text_offset routing;
     d_text_size := r_text_size routing; d_event_class := r_event_class routing;
     d_sender_kind := r_sender_kind routing |}.

Definition enqueue (item : StreamItemView) : slot_thread unit :=
  terminal <- act LoadTerminal ;;
  if negb (cause_eqb terminal StreamTerminalCause.Open) then Ret tt
  else
    matching <- matches item ;;
    if negb matching then Ret tt
    else
      producer <- act LoadDescriptorProducer ;;
      consumer <- act LoadDescriptorConsumer ;;
      byte_producer <- act LoadByteProducer ;;
      byte_consumer <- act LoadByteConsumer ;;
      let incoming := item_size item in
      let queued_items := u64 (producer - consumer) in
      let queued_bytes := u64 (byte_producer - byte_consumer) in
      if (producer =? u64_max) || (u64_max - byte_producer <? incoming) then
        overflow StreamTerminalCause.CounterExhausted queued_items queued_bytes incoming
      else if kStreamQueueItemBytes <? incoming then
        overflow StreamTerminalCause.ItemBytes queued_items queued_bytes incoming
      else if kStreamQueueItems <=? queued_items then
        overflow StreamTerminalCause.QueueItems queued_items queued_bytes incoming
      else if u64 (kStreamQueueBytes - queued_bytes) <? incoming then
        overflow StreamTerminalCause.QueueBytes queued_items queued_bytes incoming
      else
        let physical := byte_producer mod kStreamQueueBytes in
        let first_capacity := kStreamQueueBytes - physical in
        let first_size := Z.min incoming first_capacity in
        copy_spans physical first_size 0 (spans item) ;;;
        act (WriteDescriptor (producer mod kStreamQueueItems) (make_descriptor byte_producer item)) ;;;
        act (StoreByteProducer (u64 (byte_producer + incoming))) ;;;
        act (StoreDescriptorProducer (u64 (producer + 1))).

(** * The worker *)

Module StreamIngressFrontAction.
Inductive t : Set := Keep | Consume.
End StreamIngressFrontAction.

Module StreamIngressFrontResult.
Inductive t : Set := InvalidReservation | Empty | Visited | Consumed | Invalidated.
End StreamIngressFrontResult.

Record StreamIngressFrontCursor := {
  cur_reservation_epoch : Z;
  cur_borrow_epoch : Z;
  cur_descriptor : StreamIngressDescriptor;
  (** The two spans, as offsets and sizes in the array of bytes. *)
  cur_first : Z * Z;
  cur_second : Z * Z
}.

Definition odd (z : Z) : bool := negb (Z.land z 1 =? 0).

(** [StreamIngressFrontCursor::valid]. *)
Definition cursor_valid (c : StreamIngressFrontCursor) : slot_thread bool :=
  e <- act LoadEpoch ;;
  if negb (e =? cur_reservation_epoch c) then Ret false
  else
    b <- act LoadBorrowEpoch ;;
    if negb (b =? cur_borrow_epoch c) || negb (odd (cur_borrow_epoch c)) then Ret false
    else state <- load_state ;; Ret (published state).

Definition cursor_descriptor (c : StreamIngressFrontCursor) :
    slot_thread (option StreamIngressDescriptor) :=
  valid <- cursor_valid c ;; Ret (if valid : bool then Some (cur_descriptor c) else None).

(** [copy_span]: whether it succeeded, and the bytes it copied. *)
Definition copy_span (c : StreamIngressFrontCursor) (span : Z * Z) (capacity : Z) :
    slot_thread (bool * string) :=
  valid <- cursor_valid c ;;
  if negb valid || (capacity <? snd span) then Ret (false, EmptyString)
  else
    data <- (if snd span =? 0 then Ret EmptyString else act (CopyOut (fst span) (snd span))) ;;
    still <- cursor_valid c ;;
    Ret (still, data).

Definition span_size (c : StreamIngressFrontCursor) (span : Z * Z) : slot_thread (option Z) :=
  valid <- cursor_valid c ;; Ret (if valid : bool then Some (snd span) else None).

(** [StreamIngressHub::visit_front], for a visitor that does not throw: it reads
    the front through the cursor and may leave a result in its context. *)
Definition visit_front {X} (reservation_epoch : Z) (context : X)
    (visitor : X -> StreamIngressFrontCursor -> slot_thread (X * StreamIngressFrontAction.t)) :
    slot_thread (StreamIngressFrontResult.t * X) :=
  e <- act LoadEpoch ;;
  if negb (e =? reservation_epoch) then Ret (StreamIngressFrontResult.InvalidReservation, context)
  else
    state <- load_state ;;
    if negb (published state) then Ret (StreamIngressFrontResult.Empty, context)
    else
      terminal <- act LoadTerminal ;;
      if negb (cause_eqb terminal StreamTerminalCause.Open)
      then Ret (StreamIngressFrontResult.Empty, context)
      else
        consumer <- act LoadDescriptorConsumer ;;
        producer <- act LoadDescriptorProducer ;;
        if consumer =? producer then Ret (StreamIngressFrontResult.Empty, context)
        else
          borrow <- act LoadBorrowEpoch ;;
          sole <- act (CasActiveBorrows 0 1) ;;
          if negb sole then Ret (StreamIngressFrontResult.Invalidated, context)
          else
            borrowed <-
              (if odd borrow || (borrow =? u64_max) then Ret false
               else act (CasBorrowEpoch borrow (borrow + 1))) ;;
            if negb borrowed then
              act (StoreActiveBorrows 0) ;;;
              Ret (StreamIngressFrontResult.Invalidated, context)
            else
              let active_borrow := borrow + 1 in
              descriptor <- act (ReadDescriptor (consumer mod kStreamQueueItems)) ;;
              let physical := d_byte_ticket descriptor mod kStreamQueueBytes in
              let first_size := Z.min (d_json_size descriptor) (kStreamQueueBytes - physical) in
              let second_size := d_json_size descriptor - first_size in
              let cursor :=
                {| cur_reservation_epoch := reservation_epoch; cur_borrow_epoch := active_borrow;
                   cur_descriptor := descriptor; cur_first := (physical, first_size);
                   cur_second := (0, second_size) |} in
              visited <- visitor context cursor ;;
              retained <- cursor_valid cursor ;;
              act (CasBorrowEpoch active_borrow (u64 (active_borrow + 1))) ;;;
              act (StoreActiveBorrows 0) ;;;
              if negb retained then Ret (StreamIngressFrontResult.Invalidated, fst visited)
              else
                match snd visited with
                | StreamIngressFrontAction.Keep =>
                    Ret (StreamIngressFrontResult.Visited, fst visited)
                | StreamIngressFrontAction.Consume =>
                    current_consumer <- act LoadDescriptorConsumer ;;
                    current_producer <- act LoadDescriptorProducer ;;
                    unchanged <-
                      (if negb (current_consumer =? consumer)
                          || (current_consumer =? current_producer) then Ret false
                       else
                         current <- act (ReadDescriptor (current_consumer mod kStreamQueueItems)) ;;
                         Ret (d_byte_ticket current =? d_byte_ticket descriptor)) ;;
                    if negb unchanged then Ret (StreamIngressFrontResult.Invalidated, fst visited)
                    else
                      (if first_size =? 0 then Ret tt
                       else act (Fill physical poison_byte first_size)) ;;;
                      (if first_size <? d_json_size descriptor
                       then act (Fill 0 poison_byte second_size) else Ret tt) ;;;
                      act (WriteDescriptor (current_consumer mod kStreamQueueItems)
                             poisoned_descriptor) ;;;
                      act (StoreByteConsumer
                             (u64 (d_byte_ticket descriptor + d_json_size descriptor))) ;;;
                      act (StoreDescriptorConsumer (u64 (current_consumer + 1))) ;;;
                      Ret (StreamIngressFrontResult.Consumed, fst visited)
                end.

(** ** Copying the front (stream_subscription.cpp) *)

Record CopyContext := {
  scratch : string;
  copied_descriptor : option StreamIngressDescriptor;
  copied_size : Z;
  copy_valid : bool
}.

Definition new_context : CopyContext :=
  {| scratch := EmptyString; copied_descriptor := None; copied_size := 0; copy_valid := true |}.

(** The visitor [copy_spans], over the borrowed spans; the scratch buffer holds
    [kStreamQueueItemBytes]. *)
Fixpoint copy_borrowed (c : StreamIngressFrontCursor) (borrowed : list (Z * Z)) (context : CopyContext) :
    slot_thread CopyContext :=
  match borrowed with
  | [] => Ret context
  | span :: rest =>
      size <- span_size c span ;;
      match size with
      | None => Ret { context with copy_valid := false }
      | Some size =>
          if kStreamQueueItemBytes - copied_size context <? size
          then Ret { context with copy_valid := false }
          else
            copied <-
              (if copy_valid context then copy_span c span size else Ret (false, EmptyString)) ;;
            copy_borrowed c rest
              { context with copy_valid := fst copied; scratch := scratch context +++ snd copied;
                copied_size := copied_size context + size }
      end
  end.

Definition copy_item (context : CopyContext) (c : StreamIngressFrontCursor) :
    slot_thread (CopyContext * StreamIngressFrontAction.t) :=
  let failed context := Ret ({ context with copy_valid := false }, StreamIngressFrontAction.Keep) in
  descriptor <- cursor_descriptor c ;;
  match descriptor with
  | None => failed context
  | Some descriptor =>
      if kStreamQueueItemBytes <? d_json_size descriptor then failed context
      else
        (* visit_spans *)
        valid <- cursor_valid c ;;
        if negb valid then failed context
        else
          context <- copy_borrowed c [cur_first c; cur_second c] context ;;
          still <- cursor_valid c ;;
          if negb still then failed context
          else Ret ({ context with copied_descriptor := Some descriptor },
                    StreamIngressFrontAction.Keep)
  end.

Definition consume_item (context : unit) (c : StreamIngressFrontCursor) :
    slot_thread (unit * StreamIngressFrontAction.t) :=
  Ret (context, StreamIngressFrontAction.Consume).

(** A copied item: its descriptor, the text given to the JSON parser, and its
    size on the wire. *)
Record StreamCopiedItem := {
  ci_descriptor : StreamIngressDescriptor;
  ci_data : string;
  ci_wire_bytes : Z
}.

Definition newline : ascii := ascii_of_Z 10.

Definition valid_copy (context : CopyContext) : option StreamCopiedItem :=
  let size := copied_size context in
  if negb (copy_valid context) || (size =? 0)
     || negb (Ascii.eqb (byte_at (scratch context) (size - 1)) newline) then None
  else
    match copied_descriptor context with
    | None => None
    | Some d =>
        Some {| ci_descriptor := d; ci_data := str_take (Z.to_nat (size - 1)) (scratch context);
                ci_wire_bytes := size |}
    end.

(** [copy_front] of a subscription that is not retired; [Err] is its exception. *)
Definition copy_front (reservation_epoch : Z) : slot_thread (result unit (option StreamCopiedItem)) :=
  r <- visit_front reservation_epoch new_context copy_item ;;
  match fst r with
  | StreamIngressFrontResult.Empty => Ret (Ok None)
  | StreamIngressFrontResult.Visited =>
      match valid_copy (snd r) with
      | Some item => Ret (Ok (Some item))
      | None => Ret (Err tt)
      end
  | _ => Ret (Err tt)
  end.

Definition consume_front (reservation_epoch : Z) : slot_thread bool :=
  r <- visit_front reservation_epoch tt consume_item ;;
  Ret match fst r with StreamIngressFrontResult.Consumed => true | _ => false end.

(** [StreamSubscriptionWorker::pop_front]. *)
Definition pop_front (reservation_epoch : Z) : slot_thread (result unit (option StreamCopiedItem)) :=
  item <- copy_front reservation_epoch ;;
  match item with
  | Ok (Some item) =>
      consumed <- consume_front reservation_epoch ;;
      Ret (if consumed : bool then Ok (Some item) else Err tt)
  | other => Ret other
  end.

(** * Two threads on a slot *)

Inductive finished := Sent | Received (items : list StreamCopiedItem).

(** The receiving thread publishes updates one after the other. *)
Fixpoint publisher (items : list StreamItemView) : slot_thread finished :=
  match items with
  | [] => Ret Sent
  | item :: rest => enqueue item ;;; publisher rest
  end.

(** The worker takes the front [polls] times, until an exception. *)
Fixpoint worker (reservation_epoch : Z) (polls : nat) (received : list StreamCopiedItem) :
    slot_thread finished :=
  match polls with
  | O => Ret (Received received)
  | S polls =>
      r <- pop_front reservation_epoch ;;
      match r with
      | Ok (Some item) => worker reservation_epoch polls (received ++ [item])
      | Ok None => worker reservation_epoch polls received
      | Err _ => Ret (Received received)
      end
  end.
