(* ===== verification/StreamIngressFacts.v ===== *)
(** The ring of a subscription is a lossless FIFO queue between its two threads,
    whatever the interleaving and wherever its tickets stand in the arrays. *)
From Stdlib Require Import RelationClasses.
From S2P Require Import Prelude RequestSession Interleaving StreamIngress.

(** * Windows of a circular array *)

Lemma capacities :
  0 < kStreamQueueItemBytes < kStreamQueueBytes /\ kStreamQueueBytes < u64_max
  /\ 0 < kStreamQueueItems < u64_max /\ kStreamQueueItemBytes < 4294967296.
Proof. repeat split. Qed.

Lemma mod_window c t u : Z.abs (t - u) < c -> t mod c = u mod c -> t = u.
Proof.
  intros W H. assert ((t - u) mod c = 0) as E.
  { rewrite Zminus_mod, H, Z.sub_diag. apply Z.mod_0_l. lia. }
  apply Z.mod_divide in E as [q E]; [|lia]. assert (q = 0) as -> by nia. lia.
Qed.

(** Only the positions of the tickets from [lo] to [hi] differ. *)
Definition touches {T} (c lo hi : Z) (m m' : Z -> T) : Prop :=
  forall p, (forall t, lo <= t < hi -> t mod c <> p) -> m' p = m p.

Lemma touches_refl {T} c lo hi (m : Z -> T) : touches c lo hi m m.
Proof. now intros p _. Qed.

Lemma touches_trans {T} c lo hi lo' hi' (m m' m'' : Z -> T) :
  touches c lo hi m m' -> touches c lo' hi' m' m'' -> lo <= lo' -> hi' <= hi ->
  touches c lo hi m m''.
Proof. intros H H' L U p N. rewrite (H' p), (H p); auto. intros t B. apply N. lia. Qed.

(** A ticket outside the window, and not a whole turn away, is untouched. *)
Lemma touches_other {T} c lo hi (m m' : Z -> T) t :
  touches c lo hi m m' -> (t < lo \/ hi <= t) -> hi - c <= t < lo + c -> m' (t mod c) = m (t mod c).
Proof.
  intros H O W. apply H. intros u B E. apply mod_window in E; lia.
Qed.

(** * Text in the ring *)

Lemma get_byte s i : 0 <= i < str_len s -> String.get (Z.to_nat i) s = Some (byte_at s i).
Proof.
  unfold byte_at, str_len. intros B. destruct (String.get (Z.to_nat i) s) eqn:E; [reflexivity|].
  exfalso. assert (Z.to_nat i < String.length s)%nat as L by lia. clear B. revert E L.
  generalize (Z.to_nat i) as n. induction s as [|c s IH]; intros [|n]; cbn; intros; try lia; try discriminate.
  apply (IH n); [assumption | lia].
Qed.

Lemma byte_at_cons c s i : byte_at (String c s) i = if i <=? 0 then c else byte_at s (i - 1).
Proof.
  unfold byte_at. destruct (Z.leb_spec i 0).
  - now replace (Z.to_nat i) with O by lia.
  - now replace (Z.to_nat i) with (S (Z.to_nat (i - 1))) by lia.
Qed.

Lemma byte_at_app s t i :
  0 <= i -> byte_at (s +++ t) i = if i <? str_len s then byte_at s i else byte_at t (i - str_len s).
Proof.
  revert i. induction s as [|c s IH]; intros i B.
  - cbn. destruct (Z.ltb_spec i 0); [lia|]. now rewrite Z.sub_0_r.
  - change (String c s +++ t) with (String c (s +++ t)). rewrite !byte_at_cons.
    unfold str_len in *. cbn [String.length] in *. destruct (Z.leb_spec i 0).
    + now destruct (Z.ltb_spec i (Z.of_nat (S (String.length s)))); [|lia].
    + rewrite IH by lia. destruct (Z.ltb_spec (i - 1) (Z.of_nat (String.length s))),
        (Z.ltb_spec i (Z.of_nat (S (String.length s)))); try lia; auto.
      f_equal. lia.
Qed.

(** The first [n] bytes of [text] stand at the tickets from [t]. *)
Definition holds (memory : Z -> ascii) (t : Z) (text : string) (n : Z) : Prop :=
  forall i, 0 <= i < n -> memory ((t + i) mod kStreamQueueBytes) = byte_at text i.

Lemma copy_out_spec memory offset n text :
  (forall i, 0 <= i < str_len text -> memory (offset + i) = byte_at text i) ->
  n = String.length text -> copy_out memory offset n = text.
Proof.
  intros H ->. revert offset H. induction text as [|c text IH]; intros offset H; cbn; [reflexivity|].
  unfold str_len in *. cbn [String.length] in *. f_equal.
  - specialize (H 0 ltac:(lia)). now rewrite Z.add_0_r in H.
  - apply IH. intros i B. specialize (H (i + 1) ltac:(lia)). rewrite byte_at_cons in H.
    destruct (Z.leb_spec (i + 1) 0); [lia|]. rewrite Z.add_simpl_r in H. rewrite <- H. f_equal. lia.
Qed.

Lemma split_text text n :
  0 <= n <= str_len text ->
  exists a b, text = a +++ b /\ str_len a = n
              /\ str_take (Z.to_nat n) text = a /\ str_drop (Z.to_nat n) text = b.
Proof.
  intros B. exists (str_take (Z.to_nat n) text), (str_drop (Z.to_nat n) text).
  split; [symmetry; apply str_take_drop|]. split; [|auto].
  unfold str_len in *. rewrite str_take_length. lia.
Qed.

(** Both spans of the reader together are the text. *)
Lemma spans_read memory t text :
  str_len text <= kStreamQueueBytes -> holds memory t text (str_len text) ->
  let physical := t mod kStreamQueueBytes in
  let first := Z.min (str_len text) (kStreamQueueBytes - physical) in
  copy_out memory physical (Z.to_nat first)
  +++ copy_out memory 0 (Z.to_nat (str_len text - first)) = text.
Proof.
  intros L H physical first. assert (0 <= physical < kStreamQueueBytes) as P
    by (apply Z.mod_pos_bound; reflexivity).
  assert (0 <= first <= str_len text /\ first <= kStreamQueueBytes - physical
          /\ (first < str_len text -> first = kStreamQueueBytes - physical)) as (FL & FC & FS)
    by (pose proof (str_len_nonneg text); unfold first; lia).
  clearbody first. destruct (split_text text first FL) as (a & b & -> & LA & _ & _).
  rewrite str_len_app in *. pose proof (str_len_nonneg b) as NB.
  assert (forall u, 0 <= u < kStreamQueueBytes -> forall i, t + i = u + (t - physical) ->
            (t + i) mod kStreamQueueBytes = u) as M.
  { intros u U i ->. unfold physical. rewrite (Z.div_mod t kStreamQueueBytes) at 1 by discriminate.
    replace (u + _) with (u + t / kStreamQueueBytes * kStreamQueueBytes) by lia.
    rewrite Z.mod_add by discriminate. now apply Z.mod_small. }
  f_equal.
  - apply copy_out_spec; [|unfold str_len in *; lia]. intros i B.
    specialize (H i ltac:(lia)). rewrite byte_at_app in H by lia.
    destruct (Z.ltb_spec i (str_len a)); [|lia]. rewrite <- H. f_equal. symmetry. apply M; lia.
  - apply copy_out_spec; [|unfold str_len in *; lia]. intros i B.
    assert (first = kStreamQueueBytes - physical) as F by (apply FS; lia).
    specialize (H (str_len a + i) ltac:(lia)). rewrite byte_at_app in H by lia.
    destruct (Z.ltb_spec (str_len a + i) (str_len a)); [lia|]. rewrite Z.add_simpl_l in H.
    rewrite <- H. f_equal. symmetry.
    replace (t + (str_len a + i)) with (t + kStreamQueueBytes + (i - physical)) by lia.
    replace (t + kStreamQueueBytes + (i - physical)) with (t - physical + i + 1 * kStreamQueueBytes) by lia.
    rewrite Z.mod_add by discriminate. replace (t - physical + i) with (t + (i - physical)) by lia.
    rewrite M with (u := i); lia.
Qed.

(** * The roles of the two threads *)

(** Auxiliary variables: what the worker has taken out, what is queued from the
    consumer's ticket to the producer's, the byte ticket where the queue starts,
    and whether its head is already being erased. *)
Record auxiliary := {
  consumed : list StreamItemView;
  queue : list StreamItemView;
  base : Z;
  taken : bool
}.

Abbreviation world := (StreamIngressSlot * auxiliary)%type.

Definition accepted (g : auxiliary) : list StreamItemView := consumed g ++ queue g.

Fixpoint total (l : list StreamItemView) : Z :=
  match l with [] => 0 | i :: l => item_size i + total l end.

Definition frontier (g : auxiliary) : Z := base g + total (queue g).

Definition text (item : StreamItemView) : string := first_ item +++ second_ item.

Definition is_published (s : StreamIngressSlot) : bool :=
  match decode_state (sl_state s) with Some x => published x | None => false end.

(** A terminal cause stays and a state that was left is not entered again. *)
Definition never_reopened (s s' : StreamIngressSlot) : Prop :=
  (terminal_cause s <> StreamTerminalCause.Open -> terminal_cause s' <> StreamTerminalCause.Open)
  /\ (is_published s' = true -> is_published s = true).

(** What the other threads (control, detachment, claims) may do meanwhile:
    anything but touch the ring and the filter, until the slot is reclaimed. *)
Record environment (s s' : StreamIngressSlot) : Prop := {
  e_descriptors : descriptors s' = descriptors s;
  e_bytes : bytes s' = bytes s;
  e_descriptor_producer : descriptor_producer s' = descriptor_producer s;
  e_descriptor_consumer : descriptor_consumer s' = descriptor_consumer s;
  e_byte_producer : byte_producer s' = byte_producer s;
  e_byte_consumer : byte_consumer s' = byte_consumer s;
  e_projection : projection s' = projection s;
  e_epoch : epoch s' = epoch s;
  e_reopened : never_reopened s s'
}.

(** What the worker does, as seen by the publisher. *)
Record worker_step (w w' : world) : Prop := {
  ws_descriptor_producer : descriptor_producer (fst w') = descriptor_producer (fst w);
  ws_byte_producer : byte_producer (fst w') = byte_producer (fst w);
  ws_descriptor_consumer : descriptor_consumer (fst w) <= descriptor_consumer (fst w');
  ws_byte_consumer : byte_consumer (fst w) <= byte_consumer (fst w');
  ws_projection : projection (fst w') = projection (fst w);
  ws_reopened : never_reopened (fst w) (fst w');
  ws_bytes : touches kStreamQueueBytes (byte_consumer (fst w)) (frontier (snd w))
               (bytes (fst w)) (bytes (fst w'));
  ws_descriptors : touches kStreamQueueItems (descriptor_consumer (fst w)) (descriptor_producer (fst w))
                     (descriptors (fst w)) (descriptors (fst w'));
  ws_accepted : accepted (snd w') = accepted (snd w);
  ws_frontier : frontier (snd w') = frontier (snd w)
}.

(** What the publisher does, as seen by the worker. *)
Record publisher_step (w w' : world) : Prop := {
  ps_descriptor_consumer : descriptor_consumer (fst w') = descriptor_consumer (fst w);
  ps_byte_consumer : byte_consumer (fst w') = byte_consumer (fst w);
  ps_descriptor_producer : descriptor_producer (fst w) <= descriptor_producer (fst w');
  ps_byte_producer : byte_producer (fst w) <= byte_producer (fst w');
  ps_bytes : touches kStreamQueueBytes (byte_producer (fst w))
               (byte_consumer (fst w) + kStreamQueueBytes) (bytes (fst w)) (bytes (fst w'));
  ps_descriptors : touches kStreamQueueItems (descriptor_producer (fst w))
                     (descriptor_consumer (fst w) + kStreamQueueItems)
                     (descriptors (fst w)) (descriptors (fst w'));
  ps_epoch : epoch (fst w') = epoch (fst w);
  ps_queue : exists more, queue (snd w') = queue (snd w) ++ more;
  ps_base : base (snd w') = base (snd w);
  ps_taken : taken (snd w') = taken (snd w);
  ps_consumed : consumed (snd w') = consumed (snd w)
}.

(** Where a thread may access the arrays. *)
Definition publisher_may (X : Type) (e : slot_effect X) (w : world) : Prop :=
  let s := fst w in
  match e with
  | CopyIn offset data =>
      exists t, byte_producer s <= t /\ t + str_len data <= byte_consumer s + kStreamQueueBytes
                /\ offset = t mod kStreamQueueBytes /\ offset + str_len data <= kStreamQueueBytes
  | WriteDescriptor index _ =>
      index = descriptor_producer s mod kStreamQueueItems
      /\ descriptor_producer s < descriptor_consumer s + kStreamQueueItems
  | CopyOut _ _ | Fill _ _ _ | ReadDescriptor _ => False
  | _ => True
  end.

Definition worker_may (X : Type) (e : slot_effect X) (w : world) : Prop :=
  let s := fst w in
  match e with
  | CopyOut offset size | Fill offset _ size =>
      exists t, byte_consumer s <= t /\ t + size <= byte_producer s
                /\ offset = t mod kStreamQueueBytes /\ offset + size <= kStreamQueueBytes
  | ReadDescriptor index | WriteDescriptor index _ =>
      index = descriptor_consumer s mod kStreamQueueItems
      /\ descriptor_consumer s < descriptor_producer s
  | CopyIn _ _ => False
  | _ => True
  end.

Definition publisher_role : role slot_effect StreamIngressSlot auxiliary :=
  {| rely := worker_step; guar := publisher_step; may := publisher_may |}.

Definition worker_role : role slot_effect StreamIngressSlot auxiliary :=
  {| rely := publisher_step; guar := worker_step; may := worker_may |}.

Lemma never_reopened_refl s : never_reopened s s.
Proof. split; auto. Qed.

Lemma never_reopened_trans a b c : never_reopened a b -> never_reopened b c -> never_reopened a c.
Proof. intros [T P] [T' P']. split; auto. Qed.

#[export] Instance worker_step_preorder : PreOrder worker_step.
Proof.
  split.
  - intros w. constructor; auto using touches_refl, never_reopened_refl; lia.
  - intros a b c H K. destruct H, K. constructor; try congruence; try lia.
    + eauto using never_reopened_trans.
    + eapply touches_trans; eauto; lia.
    + eapply touches_trans; eauto; lia.
Qed.

#[export] Instance publisher_step_preorder : PreOrder publisher_step.
Proof.
  split.
  - intros w. constructor; auto using touches_refl; try lia. exists []. now rewrite app_nil_r.
  - intros a b c H K. destruct H, K. constructor; try congruence; try lia.
    + eapply touches_trans; eauto; lia.
    + eapply touches_trans; eauto; lia.
    + destruct ps_queue0 as [m Q], ps_queue1 as [m' Q']. exists (m ++ m').
      now rewrite Q', Q, app_assoc.
Qed.

#[export] Instance publisher_role_ok : role_ok publisher_role.
Proof. split; cbn; [exact worker_step_preorder | intros w; reflexivity]. Qed.

#[export] Instance worker_role_ok : role_ok worker_role.
Proof. split; cbn; [exact publisher_step_preorder | intros w; reflexivity]. Qed.

Lemma environment_worker s s' g : environment s s' -> worker_step (s, g) (s', g).
Proof.
  intros []. constructor; cbn; auto; try lia; rewrite ?e_bytes0, ?e_descriptors0; apply touches_refl.
Qed.

Lemma environment_publisher s s' g : environment s s' -> publisher_step (s, g) (s', g).
Proof.
  intros []. constructor; cbn; auto; try lia; rewrite ?e_bytes0, ?e_descriptors0;
    try apply touches_refl. exists []. now rewrite app_nil_r.
Qed.

(** An effect on the arrays keeps everything else. *)
Record same_rest (s s' : StreamIngressSlot) : Prop := {
  sr_projection : projection s' = projection s;
  sr_descriptor_producer : descriptor_producer s' = descriptor_producer s;
  sr_descriptor_consumer : descriptor_consumer s' = descriptor_consumer s;
  sr_byte_producer : byte_producer s' = byte_producer s;
  sr_byte_consumer : byte_consumer s' = byte_consumer s;
  sr_reopened : never_reopened s s'
}.

(** * The invariant of the ring *)
Section ring.

(** The items the filter lets through, of all that will be published. *)
Context (all : list StreamItemView).

Definition ticket (g : auxiliary) (k : nat) : Z := base g + total (firstn k (queue g)).

Record entry_ok (s : StreamIngressSlot) (t : Z) (position : Z) (item : StreamItemView) : Prop := {
  en_descriptor : descriptors s (position mod kStreamQueueItems) = make_descriptor t item;
  en_bytes : holds (bytes s) t (text item) (item_size item)
}.

Definition is_prefix (l m : list StreamItemView) : Prop := exists rest, m = l ++ rest.

Record ring_ok (w : world) : Prop := {
  ro_tickets : 0 <= descriptor_consumer (fst w) /\ descriptor_producer (fst w) <= u64_max;
  ro_items : descriptor_producer (fst w) =
             descriptor_consumer (fst w) + Z.of_nat (List.length (queue (snd w)));
  ro_capacity : Z.of_nat (List.length (queue (snd w))) <= kStreamQueueItems;
  ro_sizes : Forall (fun i => item_size i <= kStreamQueueItemBytes) (queue (snd w));
  ro_base : 0 <= base (snd w) <= byte_consumer (fst w);
  ro_head : byte_consumer (fst w) <=
            base (snd w) + (if taken (snd w) then total (firstn 1 (queue (snd w))) else 0);
  ro_taken : taken (snd w) = true -> queue (snd w) <> [];
  ro_bytes : frontier (snd w) <= byte_producer (fst w) <= u64_max;
  ro_space : byte_producer (fst w) <= byte_consumer (fst w) + kStreamQueueBytes;
  ro_entries : forall k item, nth_error (queue (snd w)) k = Some item ->
               (taken (snd w) = true -> k <> O) ->
               entry_ok (fst w) (ticket (snd w) k) (descriptor_consumer (fst w) + Z.of_nat k) item;
  ro_accepted : is_prefix (accepted (snd w)) all
}.

Lemma item_size_nonneg i : 0 <= item_size i.
Proof. unfold item_size. pose proof (str_len_nonneg (first_ i)). pose proof (str_len_nonneg (second_ i)). lia. Qed.

Lemma text_size i : str_len (text i) = item_size i.
Proof. apply str_len_app. Qed.

Lemma sizes_nonneg l : 0 <= total l.
Proof. induction l as [|i l IH]; cbn [total]; [lia|]. pose proof (item_size_nonneg i). lia. Qed.

Lemma sizes_app l m : total (l ++ m) = total l + total m.
Proof. induction l as [|i l IH]; cbn [total app]; lia. Qed.

Lemma head_size l : 0 <= total (firstn 1 l) <= total l.
Proof.
  destruct l as [|i l]; cbn [firstn total]; [lia|].
  pose proof (sizes_nonneg l). pose proof (item_size_nonneg i). lia.
Qed.

Lemma consumed_bytes w : ring_ok w -> byte_consumer (fst w) <= frontier (snd w).
Proof.
  intros []. pose proof (head_size (queue (snd w))). unfold frontier in *. destruct (taken (snd w)); lia.
Qed.

(** The bytes of an entry lie between the head and the frontier. *)
Lemma ticket_range w k item :
  ring_ok w -> nth_error (queue (snd w)) k = Some item -> (taken (snd w) = true -> k <> O) ->
  byte_consumer (fst w) <= ticket (snd w) k
  /\ ticket (snd w) k + item_size item <= byte_producer (fst w)
  /\ item_size item <= kStreamQueueItemBytes.
Proof.
  intros [] N T. pose proof (nth_error_split _ _ N) as (l1 & l2 & E & <-).
  assert (total (firstn (List.length l1) (queue (snd w))) = total l1) as F
    by now rewrite E, firstn_app, Nat.sub_diag, firstn_all, app_nil_r.
  assert (total (queue (snd w)) = total l1 + item_size item + total l2) as Q
    by (rewrite E, sizes_app; cbn [total]; lia).
  assert (l1 <> [] -> total (firstn 1 (queue (snd w))) <= total l1) as H.
  { destruct l1 as [|i l1]; [easy|]. intros _. rewrite E. change (item_size i + 0 <= item_size i + total l1).
    pose proof (sizes_nonneg l1). lia. }
  assert (item_size item <= kStreamQueueItemBytes).
  { rewrite Forall_forall in ro_sizes0. apply ro_sizes0. rewrite E. apply in_elt. }
  unfold ticket, frontier in *. pose proof (sizes_nonneg l1). pose proof (sizes_nonneg l2).
  repeat split; try lia. destruct (taken (snd w)); [|lia].
  assert (l1 <> []) as NE by (intros ->; now elim T). specialize (H NE). lia.
Qed.

(** An entry survives what leaves its bytes and its descriptor. *)
Lemma entry_frame s s' t p item :
  entry_ok s t p item ->
  (forall i, 0 <= i < item_size item ->
     bytes s' ((t + i) mod kStreamQueueBytes) = bytes s ((t + i) mod kStreamQueueBytes)) ->
  descriptors s' (p mod kStreamQueueItems) = descriptors s (p mod kStreamQueueItems) ->
  entry_ok s' t p item.
Proof. intros [D B] HB HD. split; [congruence|]. intros i I. rewrite HB by exact I. now apply B. Qed.

(** The invariant survives what leaves the tickets and the queued entries. *)
Lemma ring_frame s s' g :
  ring_ok (s, g) ->
  descriptor_producer s' = descriptor_producer s -> descriptor_consumer s' = descriptor_consumer s ->
  byte_producer s' = byte_producer s -> byte_consumer s' = byte_consumer s ->
  (forall t, byte_consumer s <= t < byte_producer s ->
     bytes s' (t mod kStreamQueueBytes) = bytes s (t mod kStreamQueueBytes)) ->
  (forall t, descriptor_consumer s <= t < descriptor_producer s ->
     descriptors s' (t mod kStreamQueueItems) = descriptors s (t mod kStreamQueueItems)) ->
  ring_ok (s', g).
Proof.
  intros R E1 E2 E3 E4 HB HD.
  assert (forall k item, nth_error (queue g) k = Some item -> (taken g = true -> k <> O) ->
            byte_consumer s <= ticket g k /\ ticket g k + item_size item <= byte_producer s) as RG
    by (intros k item N T; destruct (ticket_range (s, g) k item R N T) as (? & ? & _); auto).
  destruct R; cbn in *. constructor; cbn; try rewrite E1; try rewrite E2; try rewrite E3; try rewrite E4; auto.
  intros k item N T. apply (entry_frame s); auto.
  - intros i B. destruct (RG k item N T). apply HB. lia.
  - apply HD. assert (k < List.length (queue g))%nat by (apply nth_error_Some; congruence). lia.
Qed.

Lemma environment_ring s s' g : environment s s' -> ring_ok (s, g) -> ring_ok (s', g).
Proof. intros [] R. apply (ring_frame s); auto; congruence. Qed.

Lemma copy_in_touches m t data :
  t mod kStreamQueueBytes + str_len data <= kStreamQueueBytes ->
  touches kStreamQueueBytes t (t + str_len data) m (copy_in m (t mod kStreamQueueBytes) data).
Proof.
  intros L p N. unfold copy_in.
  destruct (Z.leb_spec (t mod kStreamQueueBytes) p), (Z.ltb_spec p (t mod kStreamQueueBytes + str_len data));
    cbn; try reflexivity.
  exfalso. apply (N (t + (p - t mod kStreamQueueBytes))); [lia|].
  pose proof (Z.mod_pos_bound t kStreamQueueBytes eq_refl).
  rewrite <- Z.add_mod_idemp_l by discriminate. rewrite Zplus_minus. apply Z.mod_small. lia.
Qed.

Lemma touches_weaken {T} c lo hi lo' hi' (m m' : Z -> T) :
  touches c lo hi m m' -> lo' <= lo -> hi <= hi' -> touches c lo' hi' m m'.
Proof. intros H L U p N. apply H. intros t B. apply N. lia. Qed.

Lemma update_touches {T} c t (m : Z -> T) (x : T) :
  touches c t (t + 1) m (fun i => if i =? t mod c then x else m i).
Proof.
  intros p N. destruct (Z.eqb_spec p (t mod c)) as [->|]; [|reflexivity].
  exfalso. apply (N t); [lia | reflexivity].
Qed.

(** ** Steps of the publisher *)

Lemma copy_in_step s s' g t data :
  ring_ok (s, g) -> byte_producer s <= t -> t + str_len data <= byte_consumer s + kStreamQueueBytes ->
  perform _ (CopyIn (t mod kStreamQueueBytes) data) s = Some (tt, s') ->
  ring_ok (s', g) /\ publisher_step (s, g) (s', g)
  /\ bytes s' = copy_in (bytes s) (t mod kStreamQueueBytes) data
  /\ descriptors s' = descriptors s.
Proof.
  intros R L U H. cbn in H. destruct (in_bytes _ _) eqn:I; [|discriminate].
  unfold in_bytes in I. bool_split. z_bool. injection H as <-.
  pose proof (copy_in_touches (bytes s) t data ltac:(lia)) as T. split; [|split; [|auto]].
  - apply (ring_frame s); auto. intros u B. cbn. destruct R; cbn in *.
    apply (touches_other _ _ _ _ _ _ T); lia.
  - destruct s. constructor; cbn in *; auto; try lia; [| apply touches_refl | exists []; now rewrite app_nil_r].
    apply (touches_weaken _ _ _ _ _ _ _ T); lia.
Qed.

Lemma write_descriptor_step s s' g d :
  ring_ok (s, g) -> descriptor_producer s < descriptor_consumer s + kStreamQueueItems ->
  perform _ (WriteDescriptor (descriptor_producer s mod kStreamQueueItems) d) s = Some (tt, s') ->
  ring_ok (s', g) /\ publisher_step (s, g) (s', g)
  /\ descriptors s' (descriptor_producer s mod kStreamQueueItems) = d /\ bytes s' = bytes s.
Proof.
  intros R L H. cbn in H. destruct (in_descriptors _) eqn:I; [|discriminate]. injection H as <-.
  pose proof (update_touches kStreamQueueItems (descriptor_producer s) (descriptors s) d) as T.
  split; [|split; [|split; [|auto]]].
  - apply (ring_frame s); auto. intros u B. cbn. apply (touches_other _ _ _ _ _ _ T); lia.
  - destruct s. constructor; cbn in *; auto; try lia; [apply touches_refl | | exists []; now rewrite app_nil_r].
    apply (touches_weaken _ _ _ _ _ _ _ T); lia.
  - cbn. now rewrite Z.eqb_refl.
Qed.

Lemma store_byte_producer_step s s' g b :
  ring_ok (s, g) -> byte_producer s <= b <= u64_max -> b <= byte_consumer s + kStreamQueueBytes ->
  perform _ (StoreByteProducer b) s = Some (tt, s') ->
  ring_ok (s', g) /\ publisher_step (s, g) (s', g)
  /\ descriptors s' = descriptors s /\ bytes s' = bytes s /\ byte_producer s' = b.
Proof.
  intros R B U H. cbn in H. injection H as <-. split; [|split; [|auto]].
  - destruct R, s; cbn in *. constructor; cbn; auto; try lia.
    intros k item N T. destruct (ro_entries0 k item N T). split; auto.
  - destruct s. constructor; cbn in *; auto; try lia; try apply touches_refl. exists []. now rewrite app_nil_r.
Qed.

Definition pushed (g : auxiliary) (item : StreamItemView) : auxiliary :=
  {| consumed := consumed g; queue := queue g ++ [item]; base := base g; taken := taken g |}.

Lemma store_descriptor_producer_step s s' g item :
  ring_ok (s, g) -> descriptor_producer s < descriptor_consumer s + kStreamQueueItems ->
  descriptor_producer s < u64_max -> item_size item <= kStreamQueueItemBytes ->
  frontier g + item_size item <= byte_producer s ->
  entry_ok s (frontier g) (descriptor_producer s) item -> is_prefix (accepted g ++ [item]) all ->
  perform _ (StoreDescriptorProducer (descriptor_producer s + 1)) s = Some (tt, s') ->
  ring_ok (s', pushed g item) /\ publisher_step (s, g) (s', pushed g item).
Proof.
  intros R L M Z F E P H. cbn in H. injection H as <-. split.
  2: { destruct s. constructor; cbn; auto; try lia; try apply touches_refl. eauto. }
  destruct R, s; cbn in *. unfold frontier, accepted in *. cbn in *.
  constructor; cbn; auto; try lia.
  - rewrite length_app. cbn. lia.
  - rewrite length_app. cbn. lia.
  - apply Forall_app. auto.
  - destruct (taken g); [|lia]. destruct (queue g); [now elim ro_taken0|]. exact ro_head0.
  - destruct (queue g); discriminate.
  - unfold frontier. cbn. rewrite sizes_app. cbn [total]. lia.
  - intros k x N T. destruct (Nat.lt_ge_cases k (List.length (queue g))) as [LT|GE].
    + rewrite nth_error_app1 in N by exact LT. specialize (ro_entries0 k x N T). unfold ticket in *. cbn.
      rewrite firstn_app. replace (k - List.length (queue g))%nat with O by lia.
      rewrite app_nil_r. destruct ro_entries0. split; auto.
    + assert (k = List.length (queue g)) as ->.
      { assert (k < List.length (queue g ++ [item]))%nat as B by (apply nth_error_Some; congruence).
        rewrite length_app in B. cbn in B. lia. }
      rewrite nth_error_app2, Nat.sub_diag in N by lia. injection N as <-.
      unfold ticket. cbn. rewrite firstn_app, Nat.sub_diag, firstn_all, app_nil_r.
      rewrite <- ro_items0. destruct E. split; auto.
  - unfold accepted. cbn. now rewrite app_assoc.
Qed.

(** ** Steps of the worker *)

Definition taking (g : auxiliary) : auxiliary :=
  {| consumed := consumed g; queue := queue g; base := base g; taken := true |}.

Lemma fill_touches m t byte n :
  t mod kStreamQueueBytes + n <= kStreamQueueBytes ->
  touches kStreamQueueBytes t (t + n) m (fill m (t mod kStreamQueueBytes) byte n).
Proof.
  intros L p N. unfold fill.
  destruct (Z.leb_spec (t mod kStreamQueueBytes) p), (Z.ltb_spec p (t mod kStreamQueueBytes + n));
    cbn; try reflexivity.
  exfalso. apply (N (t + (p - t mod kStreamQueueBytes))); [lia|].
  pose proof (Z.mod_pos_bound t kStreamQueueBytes eq_refl).
  rewrite <- Z.add_mod_idemp_l by discriminate. rewrite Zplus_minus. apply Z.mod_small. lia.
Qed.

Lemma head_total g item : hd_error (queue g) = Some item -> total (firstn 1 (queue g)) = item_size item.
Proof. destruct (queue g); [discriminate|]. intros [= ->]. cbn [firstn total]. lia. Qed.

(** Entries behind the head lie behind its bytes. *)
Lemma ticket_behind g item k :
  hd_error (queue g) = Some item -> k <> O -> base g + item_size item <= ticket g k.
Proof.
  unfold ticket. destruct (queue g) as [|i q]; [discriminate|]. intros [= ->] K.
  destruct k as [|k]; [congruence|]. cbn [firstn total]. pose proof (sizes_nonneg (firstn k q)). lia.
Qed.

(** The head is being erased: only its own bytes and descriptor change. *)
Lemma erase_step s s' g item t d :
  ring_ok (s, g) -> hd_error (queue g) = Some item -> byte_consumer s = base g ->
  same_rest s s' ->
  touches kStreamQueueBytes t (t + d) (bytes s) (bytes s') ->
  base g <= t -> 0 <= d -> t + d <= base g + item_size item ->
  touches kStreamQueueItems (descriptor_consumer s) (descriptor_consumer s + 1)
    (descriptors s) (descriptors s') ->
  ring_ok (s', taking g) /\ worker_step (s, g) (s', taking g).
Proof.
  intros R H BC [] TB LO D HI TD.
  assert (exists n, List.length (queue g) = S n) as [n LN]
    by (destruct (queue g) as [|i q]; [discriminate | cbn; eauto]).
  assert (forall k x, nth_error (queue g) k = Some x -> k <> O ->
            base g + item_size item <= ticket g k /\ ticket g k + item_size x <= byte_producer s) as RG.
  { intros k x N K. split; [eapply ticket_behind; eauto|].
    destruct (ticket_range (s, g) k x R N ltac:(auto)) as (_ & ? & _). assumption. }
  pose proof (head_total g item H) as HT. pose proof (head_size (queue g)) as HS.
  destruct R; cbn in *. split.
  - constructor; cbn; rewrite ?sr_descriptor_consumer0, ?sr_descriptor_producer0,
      ?sr_byte_consumer0, ?sr_byte_producer0; auto; try lia.
    + intros _ E. rewrite E in H. discriminate.
    + intros k x N K. specialize (K eq_refl). destruct (RG k x N K). pose proof capacities.
      change (ticket (taking g) k) with (ticket g k). apply (entry_frame s); [apply ro_entries0; auto | |].
      * intros i I. apply (touches_other _ _ _ _ _ _ TB); lia.
      * assert (k < List.length (queue g))%nat by (apply nth_error_Some; congruence).
        apply (touches_other _ _ _ _ _ _ TD); lia.
  - unfold frontier in *. constructor; cbn; auto; try lia.
    + apply (touches_weaken _ _ _ _ _ _ _ TB); unfold frontier; lia.
    + apply (touches_weaken _ _ _ _ _ _ _ TD); lia.
Qed.

Lemma store_byte_consumer_step s s' g item :
  ring_ok (s, g) -> hd_error (queue g) = Some item -> taken g = true -> byte_consumer s = base g ->
  perform _ (StoreByteConsumer (base g + item_size item)) s = Some (tt, s') ->
  ring_ok (s', g) /\ worker_step (s, g) (s', g).
Proof.
  intros R H T BC E. cbn in E. injection E as <-.
  pose proof (head_total g item H) as HT. pose proof (item_size_nonneg item).
  destruct R, s; cbn in *. rewrite T in *. split.
  - constructor; cbn; rewrite ?T; auto; try lia.
    intros k x N K. destruct (ro_entries0 k x N K). now split.
  - constructor; cbn; auto using never_reopened_refl; try lia; try apply touches_refl.
    split; auto.
Qed.

Definition popped (g : auxiliary) (item : StreamItemView) : auxiliary :=
  {| consumed := consumed g ++ [item]; queue := tl (queue g); base := base g + item_size item;
     taken := false |}.

Lemma store_descriptor_consumer_step s s' g item :
  ring_ok (s, g) -> hd_error (queue g) = Some item -> taken g = true ->
  byte_consumer s = base g + item_size item ->
  perform _ (StoreDescriptorConsumer (descriptor_consumer s + 1)) s = Some (tt, s') ->
  ring_ok (s', popped g item) /\ worker_step (s, g) (s', popped g item).
Proof.
  intros R H T BC E. cbn in E. injection E as <-. pose proof (item_size_nonneg item).
  assert (queue g = item :: tl (queue g)) as Q
    by (destruct (queue g); [discriminate | now injection H as ->]).
  set (q := tl (queue g)) in *. pose proof (sizes_nonneg q).
  destruct R, s; cbn in *. unfold frontier, accepted in *. rewrite Q in *. cbn [total List.length firstn] in *.
  split.
  - constructor; cbn; fold q; auto; try lia.
    + now inversion ro_sizes0.
    + unfold frontier. cbn. fold q. lia.
    + intros k x N _. specialize (ro_entries0 (S k) x N ltac:(discriminate)).
      unfold ticket in *. cbn. fold q. rewrite Q in ro_entries0. cbn [firstn total] in ro_entries0.
      destruct ro_entries0 as [ED EB]. split; cbn in *.
      * rewrite Z.add_assoc in ED. replace (descriptor_consumer + 1 + Z.of_nat k)
          with (descriptor_consumer + Z.of_nat (S k)) by lia. exact ED.
      * rewrite Z.add_assoc in EB. exact EB.
    + now rewrite <- app_assoc.
  - constructor; cbn; auto; try lia; try apply touches_refl.
    + split; auto.
    + unfold accepted. cbn. fold q. rewrite Q. now rewrite <- app_assoc.
    + unfold frontier. cbn. fold q. rewrite Q. cbn [total]. lia.
Qed.
End ring.
