(* ===== verification/StreamPublisher.v ===== *)
(** The publisher of a subscription, proved against what its worker may do to the
    slot meanwhile: it writes only to free parts of the ring, accepts a prefix of
    the items that match, and closes the subscription when it drops one. *)
From Stdlib Require Import RelationClasses.
From S2P Require Import Prelude RequestSession Interleaving StreamIngress StreamIngressFacts.

(** * Effects that leave the ring alone *)
Section quiet.
Context (all : list StreamItemView) (r : role slot_effect StreamIngressSlot auxiliary) {OK : role_ok r}.
Context (guarantees : forall s s' g, environment s s' -> guar r (s, g) (s', g)).

Lemma wp_quiet {A X} (e : slot_effect X) (k : X -> slot_thread A) P Q w :
  P w -> stable r P ->
  (forall s g, ring_ok all (s, g) -> P (s, g) ->
     may r X e (s, g) /\
     exists x s', perform X e s = Some (x, s') /\ environment s s'
       /\ wp perform (ring_ok all) r (k x) Q (s', g)) ->
  wp perform (ring_ok all) r (tbind (act e) k) Q w.
Proof.
  intros H T K. apply (wp_write _ _ _ _ _ P); [exact H | exact T |]. intros s g I HP.
  destruct (K s g I HP) as (M & x & s' & E & V & W). split; [exact M|].
  exists x, s', g. split; [exact E|]. split; [auto|]. split; [eauto using environment_ring | exact W].
Qed.
End quiet.

(** The effect changed a member outside the ring. *)
Ltac solve_environment :=
  match goal with |- environment ?s _ => destruct s; constructor; cbn end;
  try reflexivity; split; cbn; try exact (fun H => H); auto.

(** Runs a quiet effect whose outcome is known. *)
Ltac quietly :=
  split; [exact Logic.I|]; do 2 eexists; split; [reflexivity|];
  match goal with
  | |- environment ?s ?s' /\ _ =>
      let V := fresh "V" in
      assert (environment s s') as V by solve_environment; split; [exact V|]
  end.

Lemma cause_eqb_spec a b : reflect (a = b) (cause_eqb a b).
Proof.
  destruct (cause_eqb a b) eqn:E; constructor.
  - now apply StreamTerminalCause.internal_t_dec_bl.
  - intros ->. unfold cause_eqb in E. rewrite StreamTerminalCause.internal_t_dec_lb in E; easy.
Qed.

Lemma claiming_not_open c :
  claiming_cause c <> StreamTerminalCause.Open -> c <> StreamTerminalCause.Open.
Proof. now intros H ->. Qed.

Lemma load_state_published s :
  published match decode_state (sl_state s) with Some x => x | None => StreamIngressState.Removed end
  = is_published s.
Proof. unfold is_published. now destruct (decode_state _). Qed.

Lemma claim_activation_ok s :
  exists b s', perform _ ClaimActivation s = Some (b, s') /\ environment s s'.
Proof.
  unfold perform. destruct (activation_commit s); do 2 eexists; (split; [reflexivity|]);
    solve_environment.
Qed.

Lemma cas_terminal_ok s desired :
  desired <> StreamTerminalCause.Open ->
  exists b s', perform _ (CasTerminal StreamTerminalCause.Open desired) s = Some (b, s')
    /\ environment s s' /\ terminal_cause s' <> StreamTerminalCause.Open.
Proof.
  intros N. unfold perform.
  destruct (cause_eqb_spec (terminal_cause s) StreamTerminalCause.Open) as [O|O];
    do 2 eexists; (split; [reflexivity|]); (split; [solve_environment|]);
    [destruct s; exact N | exact O].
Qed.

Lemma copy_in_tickets o data s s' : perform _ (CopyIn o data) s = Some (tt, s') -> same_rest s s'.
Proof. cbn. destruct (in_bytes _ _); [|discriminate]. intros [= <-]. now destruct s. Qed.

Lemma write_descriptor_tickets i d s s' :
  perform _ (WriteDescriptor i d) s = Some (tt, s') -> same_rest s s'.
Proof. cbn. destruct (in_descriptors _); [|discriminate]. intros [= <-]. now destruct s. Qed.

Lemma fill_tickets o b n s s' : perform _ (Fill o b n) s = Some (tt, s') -> same_rest s s'.
Proof. cbn. destruct (in_bytes _ _); [|discriminate]. intros [= <-]. now destruct s. Qed.

(** Accesses within the arrays are defined. *)
Lemma in_bytes_ok t n : 0 <= n -> t mod kStreamQueueBytes + n <= kStreamQueueBytes ->
  in_bytes (t mod kStreamQueueBytes) n = true.
Proof.
  intros N L. pose proof (Z.mod_pos_bound t kStreamQueueBytes eq_refl). unfold in_bytes.
  destruct (Z.leb_spec 0 (t mod kStreamQueueBytes)), (Z.leb_spec 0 n),
    (Z.leb_spec (t mod kStreamQueueBytes + n) kStreamQueueBytes); auto; lia.
Qed.

Lemma in_descriptors_ok t : in_descriptors (t mod kStreamQueueItems) = true.
Proof.
  pose proof (Z.mod_pos_bound t kStreamQueueItems eq_refl). unfold in_descriptors.
  destruct (Z.leb_spec 0 (t mod kStreamQueueItems)), (Z.ltb_spec (t mod kStreamQueueItems) kStreamQueueItems);
    auto; lia.
Qed.

(** * The publisher *)
Section publisher.
Context (filter_ : PublishedIngressFilter) (items : list StreamItemView).

Definition matching (l : list StreamItemView) : list StreamItemView :=
  filter (filter_accepts filter_) l.

Abbreviation pwp := (wp perform (ring_ok (matching items)) publisher_role).
Abbreviation quiet := (wp_quiet (matching items) publisher_role environment_publisher).

(** Between two items: nothing is in flight, and while the subscription is open
    and published, every matching item so far was accepted. *)
Record ready (sent : list StreamItemView) (w : world) : Prop := {
  rd_projection : projection (fst w) = filter_;
  rd_frontier : frontier (snd w) = byte_producer (fst w);
  rd_accepted : terminal_cause (fst w) = StreamTerminalCause.Open -> is_published (fst w) = true ->
                accepted (snd w) = matching sent
}.

Lemma ready_stable sent : stable publisher_role (ready sent).
Proof.
  intros w w' [P F A] []. split; [congruence .. |]. intros T B. rewrite ws_accepted.
  apply A; [|now apply ws_reopened].
  destruct (cause_eqb_spec (terminal_cause (fst w)) StreamTerminalCause.Open) as [|N]; [assumption|].
  now apply ws_reopened in N.
Qed.

(** A terminal cause was claimed. *)
Definition closed (w : world) : Prop :=
  projection (fst w) = filter_ /\ frontier (snd w) = byte_producer (fst w)
  /\ terminal_cause (fst w) <> StreamTerminalCause.Open.

Lemma closed_stable : stable publisher_role closed.
Proof. intros w w' (P & F & T) []. repeat split; try congruence. now apply ws_reopened. Qed.

Lemma closed_ready sent w : closed w -> ready sent w.
Proof. intros (P & F & T). split; auto. now intros O. Qed.

Lemma environment_ready sent s s' g : environment s s' -> ready sent (s, g) -> ready sent (s', g).
Proof. intros E R. exact (ready_stable sent _ _ R (environment_worker _ _ _ E)). Qed.

Lemma environment_closed s s' g : environment s s' -> closed (s, g) -> closed (s', g).
Proof. intros E R. exact (closed_stable _ _ R (environment_worker _ _ _ E)). Qed.

Lemma wp_cancel (b : bool) (Q : unit -> world -> Prop) w :
  closed w -> (forall w', ring_ok (matching items) w' -> closed w' -> Q tt w') ->
  pwp (if b then act (StoreActivation ActivationCommit.Cancelled) else Ret tt) Q w.
Proof.
  intros H K. destruct b.
  - apply wp_act, (quiet _ _ closed); [exact H | apply closed_stable |].
    intros s g I C. quietly.
    apply (wp_ret _ _ _ _ _ closed); [exact (environment_closed _ _ _ V C) | apply closed_stable | auto].
  - apply (wp_ret _ _ _ _ _ closed); [exact H | apply closed_stable | auto].
Qed.

Lemma wp_claim payload sent w :
  claiming_cause (p_cause payload) <> StreamTerminalCause.Open -> ring_ok (matching items) w ->
  ready sent w -> pwp (claim payload) (fun _ => closed) w.
Proof.
  intros C R H. unfold claim. destruct (cause_eqb_spec (claiming_cause (p_cause payload)) StreamTerminalCause.Open);
    [contradiction|].
  apply (quiet _ _ (ready sent)); [exact H | apply ready_stable |].
  intros s g I HR. split; [exact Logic.I|].
  destruct (claim_activation_ok s) as (b & s' & E & V).
  exists b, s'. split; [exact E|]. split; [exact V|]. clear E.
  apply (environment_ready _ _ _ _ V) in HR. clear s V I w R H.
  apply (quiet _ _ (ready sent)); [exact HR | apply ready_stable |].
  clear s' g HR. intros s g I [P F _]. split; [exact Logic.I|].
  destruct (cas_terminal_ok s _ C) as (won & s' & E & V & N).
  exists won, s'. split; [exact E|]. split; [exact V|]. pose proof (environment_ring _ _ _ _ V I) as I'.
  assert (closed (s', g)) as CL by (destruct V; repeat split; cbn in *; congruence).
  clear E V I P F N. destruct won; cbn [negb].
  - apply (quiet _ _ closed); [exact CL | apply closed_stable |]. clear s s' g CL I'.
    intros s g I CL. quietly. apply (environment_closed _ _ _ V) in CL.
    apply (quiet _ _ closed); [exact CL | apply closed_stable |]. clear s V g CL I.
    intros s g I CL. split; [exact Logic.I|]. do 2 eexists. split; [reflexivity|].
    match goal with |- environment ?s ?s' /\ _ => assert (environment s s') as V end.
    { destruct s. constructor; cbn; auto. split; cbn; auto using claiming_not_open. }
    split; [exact V|]. pose proof (environment_ring _ _ _ _ V I) as I'.
    apply (environment_closed _ _ _ V) in CL.
    apply wp_bind; [exact _ | exact I' |]. apply wp_cancel; [exact CL|].
    intros w' I2 H'. apply (wp_ret _ _ _ _ _ closed); [exact H' | apply closed_stable | auto].
  - apply wp_bind; [exact _ | exact I' |]. apply wp_cancel; [exact CL|].
    intros w' I2 H'. apply (wp_ret _ _ _ _ _ closed); [exact H' | apply closed_stable | auto].
Qed.

Lemma wp_overflow cause a b c sent w :
  claiming_cause cause <> StreamTerminalCause.Open -> ready sent w ->
  pwp (overflow cause a b c) (fun _ => closed) w.
Proof.
  intros C H. apply (wp_read _ _ _ _ _ projection (ready sent)); [reflexivity | exact H | apply ready_stable |].
  clear w H. intros w I H. split; [exact Logic.I|]. apply wp_bind; [exact _ | exact I |].
  apply (wp_mono _ _ _ _ (fun _ => closed)); [|now apply (wp_claim _ sent)].
  clear w I H. intros _ w I H. apply (wp_ret _ _ _ _ _ closed); [exact H | apply closed_stable | auto].
Qed.

(** The terminal cause was seen open. *)
Record opened (sent : list StreamItemView) (w : world) : Prop := {
  op_projection : projection (fst w) = filter_;
  op_frontier : frontier (snd w) = byte_producer (fst w);
  op_accepted : is_published (fst w) = true -> accepted (snd w) = matching sent
}.

(** Everything before was accepted, so the next item may be. *)
Record admitted (sent : list StreamItemView) (w : world) : Prop := {
  ad_projection : projection (fst w) = filter_;
  ad_frontier : frontier (snd w) = byte_producer (fst w);
  ad_accepted : accepted (snd w) = matching sent
}.

Lemma opened_stable sent : stable publisher_role (opened sent).
Proof.
  intros w w' [P F A] []. split; [congruence .. |]. intros B. rewrite ws_accepted.
  apply A. now apply ws_reopened.
Qed.

Lemma admitted_stable sent : stable publisher_role (admitted sent).
Proof. intros w w' [P F A] []. split; congruence. Qed.

Lemma admitted_ready sent w : admitted sent w -> ready sent w.
Proof. intros []. now split. Qed.

Lemma matching_snoc sent item :
  matching (sent ++ [item]) = matching sent ++ (if filter_accepts filter_ item then [item] else []).
Proof. unfold matching. rewrite filter_app. cbn. now destruct (filter_accepts filter_ item). Qed.

Lemma wp_matches item sent w :
  opened sent w ->
  pwp (matches item)
    (fun b w => if b : bool then filter_accepts filter_ item = true /\ admitted sent w
                else ready (sent ++ [item]) w) w.
Proof.
  intros H. unfold matches, load_state. apply wp_assoc.
  apply (wp_read _ _ _ _ _ sl_state (opened sent)); [reflexivity | exact H | apply opened_stable |].
  clear w H. intros w I [P F A]. split; [exact Logic.I|]. cbn [tbind]. rewrite load_state_published.
  destruct (is_published (fst w)) eqn:B; cbn [negb].
  - specialize (A eq_refl). assert (admitted sent w) as H by now split. clear P F A B I.
    apply (wp_read _ _ _ _ _ projection (admitted sent)); [reflexivity | exact H | apply admitted_stable |].
    clear w H. intros w I H. split; [exact Logic.I|]. rewrite (ad_projection _ _ H).
    destruct (filter_accepts filter_ item) eqn:M.
    + apply (wp_ret _ _ _ _ _ (admitted sent)); [exact H | apply admitted_stable | auto].
    + apply (wp_ret _ _ _ _ _ (ready (sent ++ [item]))); [| apply ready_stable | auto].
      destruct H. split; auto. intros _ _. now rewrite matching_snoc, M, app_nil_r.
  - apply (wp_ret _ _ _ _ _ (ready (sent ++ [item]))); [| apply ready_stable | auto].
    split; auto. congruence.
Qed.

(** ** Writing an item *)

(** [P] and [B] are the tickets the item gets, [b] the byte ticket published so
    far; [n] of its bytes are in place. *)
Record copying (sent : list StreamItemView) (item : StreamItemView) (P B b n : Z) (w : world) : Prop := {
  cp_projection : projection (fst w) = filter_;
  cp_accepted : accepted (snd w) = matching sent;
  cp_frontier : frontier (snd w) = B;
  cp_descriptor : descriptor_producer (fst w) = P;
  cp_byte : byte_producer (fst w) = b;
  cp_items : P < descriptor_consumer (fst w) + kStreamQueueItems;
  cp_space : B + item_size item <= byte_consumer (fst w) + kStreamQueueBytes;
  cp_holds : holds (bytes (fst w)) B (text item) n
}.

Lemma copying_stable sent item P B b n :
  n <= item_size item -> stable publisher_role (copying sent item P B b n).
Proof.
  intros L w w' [] []. pose proof capacities. split; try congruence; try lia.
  intros i I. rewrite <- cp_holds0 by exact I. apply (touches_other _ _ _ _ _ _ ws_bytes); lia.
Qed.

Lemma copy_in_holds m B txt d data :
  holds m B txt d -> 0 <= d -> d + str_len data <= kStreamQueueBytes ->
  (forall i, 0 <= i < str_len data -> byte_at data i = byte_at txt (d + i)) ->
  (B + d) mod kStreamQueueBytes + str_len data <= kStreamQueueBytes ->
  holds (copy_in m ((B + d) mod kStreamQueueBytes) data) B txt (d + str_len data).
Proof.
  intros H D L E F i I. pose proof capacities. destruct (Z.lt_ge_cases i d) as [LT|GE].
  - rewrite <- H by lia.
    apply (touches_other _ _ _ _ _ _ (copy_in_touches m (B + d) data F)); lia.
  - pose proof (Z.mod_pos_bound (B + d) kStreamQueueBytes eq_refl).
    assert ((B + i) mod kStreamQueueBytes = (B + d) mod kStreamQueueBytes + (i - d)) as ->.
    { replace (B + i) with (B + d + (i - d)) by lia. rewrite <- Z.add_mod_idemp_l by discriminate.
      apply Z.mod_small. lia. }
    unfold copy_in. destruct (Z.leb_spec ((B + d) mod kStreamQueueBytes)
                                ((B + d) mod kStreamQueueBytes + (i - d))); [|lia].
    destruct (Z.ltb_spec ((B + d) mod kStreamQueueBytes + (i - d))
                ((B + d) mod kStreamQueueBytes + str_len data)); [|lia].
    cbn. rewrite E by lia. f_equal. lia.
Qed.

(** One block copy of the publisher. *)
Lemma wp_copy_in {A} (k : unit -> slot_thread A) sent item P B d data Q w :
  copying sent item P B B d w -> 0 <= d -> d + str_len data <= item_size item ->
  item_size item <= kStreamQueueItemBytes ->
  (forall i, 0 <= i < str_len data -> byte_at data i = byte_at (text item) (d + i)) ->
  (B + d) mod kStreamQueueBytes + str_len data <= kStreamQueueBytes ->
  (forall w, ring_ok (matching items) w -> copying sent item P B B (d + str_len data) w -> pwp (k tt) Q w) ->
  pwp (tbind (act (CopyIn ((B + d) mod kStreamQueueBytes) data)) k) Q w.
Proof.
  intros H D L Z E F K.
  apply (wp_write _ _ _ _ _ (copying sent item P B B d)); [exact H | apply copying_stable; pose proof (str_len_nonneg data); lia |].
  clear w H. intros s g I H. destruct H; cbn in *. split.
  { exists (B + d). cbn. repeat split; auto; lia. }
  pose proof (str_len_nonneg data) as N.
  assert (exists s', perform _ (CopyIn ((B + d) mod kStreamQueueBytes) data) s = Some (tt, s')) as [s' E']
    by (cbn [perform]; rewrite in_bytes_ok by assumption; eauto).
  destruct (copy_in_step _ s s' g (B + d) data I ltac:(lia) ltac:(lia) E') as (I' & G & EB & ED).
  exists tt, s', g. split; [exact E'|]. split; [exact G|]. split; [exact I'|]. apply K; [exact I'|].
  destruct (copy_in_tickets _ _ _ _ E'). split; cbn; auto; try congruence; try lia.
  rewrite EB. apply copy_in_holds; auto. pose proof capacities. lia.
Qed.

(** Bytes already copied before the end of the array. *)
Definition in_first (B size d : Z) : Z :=
  Z.min d (Z.min size (kStreamQueueBytes - B mod kStreamQueueBytes)).

Lemma first_part B size pre len :
  0 <= pre -> 0 <= len -> 0 <= size ->
  let first := Z.min size (kStreamQueueBytes - B mod kStreamQueueBytes) in
  let k := in_first B size pre in
  let n := Z.min (first - k) len in
  0 <= n <= len /\ in_first B size (pre + n) = k + n /\ in_first B size (pre + len) = k + n
  /\ (n <> 0 -> pre < first /\ k = pre /\ pre + n <= first) /\ (n < len -> first <= pre + n)
  /\ first <= kStreamQueueBytes - B mod kStreamQueueBytes /\ 0 <= k.
Proof.
  intros P L S. cbn zeta. unfold in_first. pose proof (Z.mod_pos_bound B kStreamQueueBytes eq_refl).
  assert (0 <= Z.min size (kStreamQueueBytes - B mod kStreamQueueBytes)) as F0 by lia. revert F0.
  generalize (Z.min size (kStreamQueueBytes - B mod kStreamQueueBytes)) (Z.le_min_r size (kStreamQueueBytes - B mod kStreamQueueBytes)).
  intros f F F0. lia.
Qed.

Lemma offset_first B size d :
  0 <= d -> d < Z.min size (kStreamQueueBytes - B mod kStreamQueueBytes) ->
  B mod kStreamQueueBytes + in_first B size d = (B + d) mod kStreamQueueBytes.
Proof.
  intros D L. pose proof (Z.mod_pos_bound B kStreamQueueBytes eq_refl). unfold in_first.
  rewrite Z.min_l by lia. rewrite <- Z.add_mod_idemp_l by discriminate. symmetry. apply Z.mod_small. lia.
Qed.

Lemma offset_second B size d :
  Z.min size (kStreamQueueBytes - B mod kStreamQueueBytes) <= d < size -> size <= kStreamQueueBytes ->
  d - in_first B size d = (B + d) mod kStreamQueueBytes.
Proof.
  intros [L U] S. pose proof (Z.mod_pos_bound B kStreamQueueBytes eq_refl). unfold in_first.
  rewrite (Z.min_r d) by lia. rewrite Z.min_r by lia. rewrite <- Z.add_mod_idemp_l by discriminate.
  replace (B mod kStreamQueueBytes + d) with (d - (kStreamQueueBytes - B mod kStreamQueueBytes) + 1 * kStreamQueueBytes) by lia.
  rewrite Z.mod_add by discriminate. symmetry. apply Z.mod_small. lia.
Qed.

Lemma byte_at_middle x y z i :
  0 <= i < str_len y -> byte_at y i = byte_at (x +++ y +++ z) (str_len x + i).
Proof.
  intros I. pose proof (str_len_nonneg x). rewrite byte_at_app by lia.
  destruct (Z.ltb_spec (str_len x + i) (str_len x)); [lia|]. rewrite Z.add_simpl_l, byte_at_app by lia.
  destruct (Z.ltb_spec i (str_len y)); [reflexivity | lia].
Qed.

Lemma str_len_zero s : str_len s = 0 -> s = EmptyString.
Proof. destruct s; [reflexivity|]. unfold str_len. cbn. lia. Qed.

(** A piece of the text, copied if there is any. *)
Lemma wp_copy_piece sent item P B x y z o (c : bool) w :
  text item = x +++ y +++ z -> item_size item <= kStreamQueueItemBytes ->
  (if c then o = (B + str_len x) mod kStreamQueueBytes /\ o + str_len y <= kStreamQueueBytes
   else y = EmptyString) ->
  copying sent item P B B (str_len x) w ->
  pwp (if c then act (CopyIn o y) else Ret tt)
    (fun _ => copying sent item P B B (str_len (x +++ y))) w.
Proof.
  intros E S O H. pose proof (str_len_nonneg x). pose proof (str_len_nonneg z).
  assert (str_len (x +++ y) <= item_size item) as L
    by (rewrite <- text_size, E, !str_len_app; lia).
  rewrite str_len_app in *. destruct c.
  - destruct O as [-> O]. apply wp_act, (wp_copy_in _ sent item P B (str_len x)); auto.
    { intros i I. rewrite E. now apply byte_at_middle. }
    intros w' I H'. eapply wp_ret; [exact H' | now apply copying_stable | auto].
  - subst y. rewrite Z.add_0_r in *. eapply wp_ret; [exact H | now apply copying_stable | auto].
Qed.

Lemma wp_copy_spans sent item P B sources pre w :
  item_size item <= kStreamQueueItemBytes -> ring_ok (matching items) w ->
  copying sent item P B B (str_len pre) w ->
  text item = pre +++ fold_right String.append EmptyString sources ->
  let first := Z.min (item_size item) (kStreamQueueBytes - B mod kStreamQueueBytes) in
  let k := in_first B (item_size item) (str_len pre) in
  pwp (copy_spans (B mod kStreamQueueBytes + k) (first - k) (str_len pre - k) sources)
    (fun _ => copying sent item P B B (item_size item)) w.
Proof.
  intros S. revert pre w. induction sources as [|source rest IH]; intros pre w I H E first k.
  - cbn in E. rewrite str_app_nil_r in E. rewrite <- E, text_size in H.
    eapply wp_ret; [exact H | now apply copying_stable | auto].
  - cbn [copy_spans fold_right] in *.
    assert (item_size item = str_len pre + str_len source
              + str_len (fold_right String.append EmptyString rest)) as TS
      by (rewrite <- text_size, E, !str_len_app; lia).
    pose proof (str_len_nonneg pre). pose proof (str_len_nonneg source).
    pose proof (str_len_nonneg (fold_right String.append EmptyString rest)).
    pose proof capacities.
    pose proof (first_part B (item_size item) (str_len pre) (str_len source) ltac:(lia) ltac:(lia) ltac:(lia)) as FP.
    fold first in FP. fold k in FP. cbn zeta in FP. set (n := Z.min (first - k) (str_len source)) in *.
    destruct FP as (NB & FN & FA & N1 & N2 & FC & K0).
    destruct (split_text source n NB) as (a & b & ES & LA & -> & ->).
    assert (str_len source = n + str_len b) as LS by (rewrite ES, str_len_app; lia).
    rewrite ES, !str_app_assoc in E.
    replace (if n =? 0 then Ret tt else act (CopyIn (B mod kStreamQueueBytes + k) a))
      with (if negb (n =? 0) then act (CopyIn (B mod kStreamQueueBytes + k) a) else Ret tt)
      by now destruct (n =? 0).
    apply wp_bind; [exact _ | exact I |]. eapply wp_mono; cycle 1.
    { apply (wp_copy_piece sent item P B pre a _ _ _ _ E S); [|exact H].
      destruct (Z.eqb_spec n 0) as [Z0|NZ]; cbn [negb]; [apply str_len_zero; lia|].
      destruct (N1 NZ) as (N3 & N4 & N5). rewrite <- (offset_first B (item_size item)) by assumption.
      split; [reflexivity|]. lia. }
    intros a' w' I' H'. cbn beta in H'. clear a' w I H. rename w' into w, I' into I, H' into H.
    rewrite <- str_app_assoc in E. apply wp_bind; [exact _ | exact I |]. eapply wp_mono; cycle 1.
    { apply (wp_copy_piece sent item P B (pre +++ a) b _ _ _ _ E S); [|exact H].
      destruct (Z.ltb_spec n (str_len source)) as [LT|GE]; [|apply str_len_zero; lia].
      specialize (N2 LT). rewrite str_len_app, LA.
      assert (str_len pre - k = (B + (str_len pre + n)) mod kStreamQueueBytes) as ->.
      { rewrite <- (offset_second B (item_size item)), FN by lia. lia. }
      split; [reflexivity|].
      rewrite <- (offset_second B (item_size item)), FN by lia. lia. }
    intros a' w' I' H'. cbn beta in H'. clear a' w I H. rename w' into w, I' into I, H' into H.
    rewrite <- str_app_assoc in E. specialize (IH ((pre +++ a) +++ b) w I H E). cbn zeta in IH.
    rewrite !str_len_app in IH. rewrite LA, <- Z.add_assoc, <- LS, FA in IH.
    fold first in IH. rewrite <- Z.add_assoc, <- Z.sub_add_distr.
    replace (str_len pre - k + (str_len source - n)) with (str_len pre + str_len source - (k + n)) by lia.
    exact IH.
Qed.

(** The item is in the ring, up to the tickets. *)
Record written (sent : list StreamItemView) (item : StreamItemView) (P B b : Z) (w : world) : Prop := {
  wr_copied : copying sent item P B b (item_size item) w;
  wr_descriptor : descriptors (fst w) (P mod kStreamQueueItems) = make_descriptor B item
}.

Lemma written_stable sent item P B b : stable publisher_role (written sent item P B b).
Proof.
  intros w w' [H D] R. split; [apply (copying_stable _ _ _ _ _ _ (Z.le_refl _) _ _ H R)|].
  rewrite <- D. destruct H, R. pose proof capacities. apply (touches_other _ _ _ _ _ _ ws_descriptors); lia.
Qed.

Lemma wp_publish_item sent item P B w :
  copying sent item P B B (item_size item) w -> P < u64_max -> B + item_size item <= u64_max -> 0 <= P -> 0 <= B ->
  item_size item <= kStreamQueueItemBytes -> filter_accepts filter_ item = true ->
  is_prefix (matching (sent ++ [item])) (matching items) ->
  pwp (act (WriteDescriptor (P mod kStreamQueueItems) (make_descriptor B item)) ;;;
       act (StoreByteProducer (u64 (B + item_size item))) ;;;
       act (StoreDescriptorProducer (u64 (P + 1))))%thread
    (fun _ => ready (sent ++ [item])) w.
Proof.
  intros H PM BM P0 B0 S M PX. pose proof (item_size_nonneg item) as SN.
  rewrite !u64_small by (unfold u64_max in *; lia).
  apply (wp_write _ _ _ _ _ (copying sent item P B B (item_size item))); [exact H | apply copying_stable; lia |].
  clear w H. intros s g I H. destruct H; cbn [fst snd] in *. split; [split; cbn [fst]; [congruence | lia]|].
  assert (exists s', perform _ (WriteDescriptor (P mod kStreamQueueItems) (make_descriptor B item)) s
                     = Some (tt, s')) as [s' E] by (cbn [perform]; rewrite in_descriptors_ok; eauto).
  pose proof (write_descriptor_tickets _ _ _ _ E) as [].
  rewrite <- cp_descriptor0 in E.
  destruct (write_descriptor_step _ s s' g _ I ltac:(lia) E) as (I' & G & ED & EB).
  rewrite cp_descriptor0 in E, ED.
  exists tt, s', g. split; [exact E|]. split; [exact G|]. split; [exact I'|].
  assert (written sent item P B B (s', g)) as H'.
  { split; [|exact ED]. split; cbn; try congruence; try lia. now rewrite EB. }
  clear - H' PM BM P0 B0 S M PX SN.
  apply (wp_write _ _ _ _ _ (written sent item P B B)); [exact H' | apply written_stable |].
  clear s' g H'. intros s g I [[] D]; cbn [fst snd] in *. split; [exact Logic.I|].
  assert (exists s', perform _ (StoreByteProducer (B + item_size item)) s = Some (tt, s')) as [s' E] by (cbn; eauto).
  destruct (store_byte_producer_step _ s s' g (B + item_size item) I ltac:(lia) ltac:(lia) E) as (I' & G & ED & EB & EP).
  exists tt, s', g. split; [exact E|]. split; [exact G|]. split; [exact I'|].
  assert (written sent item P B (B + item_size item) (s', g)) as H'.
  { destruct G; cbn in *. injection E as <-. destruct s; cbn in *. split; [|exact D].
    split; cbn; try congruence; try lia; assumption. }
  clear - H' PM BM P0 B0 S M PX SN.
  apply wp_act, (wp_write _ _ _ _ _ (written sent item P B (B + item_size item))); [exact H' | apply written_stable |].
  clear s' g H'. intros s g I [[] D]; cbn [fst snd] in *. split; [exact Logic.I|].
  assert (exists s', perform _ (StoreDescriptorProducer (descriptor_producer s + 1)) s = Some (tt, s')) as [s' E] by (cbn; eauto).
  destruct (store_descriptor_producer_step _ s s' g item I) as (I' & G); try lia; try exact E.
  { split; [congruence|]. rewrite cp_frontier0. exact cp_holds0. }
  { rewrite cp_accepted0. rewrite matching_snoc, M in PX. exact PX. }
  rewrite cp_descriptor0 in E. exists tt, s', (pushed g item). split; [exact E|].
  split; [exact G|]. split; [exact I'|].
  apply (wp_ret _ _ _ _ _ (ready (sent ++ [item]))); [| apply ready_stable | auto].
  injection E as <-. destruct s; cbn in *. split; cbn.
  - assumption.
  - unfold frontier in *. cbn. rewrite sizes_app. cbn [total]. lia.
  - intros _ _. rewrite matching_snoc, M. unfold accepted in *. cbn. rewrite app_assoc. congruence.
Qed.

(** The tickets the publisher has read; the consumer's only grow. *)
Record loaded (sent : list StreamItemView) (P C B D : Z) (w : world) : Prop := {
  ld_admitted : admitted sent w;
  ld_producer : descriptor_producer (fst w) = P;
  ld_consumer : C <= descriptor_consumer (fst w);
  ld_byte_producer : byte_producer (fst w) = B;
  ld_byte_consumer : D <= byte_consumer (fst w)
}.

Lemma loaded_stable sent P C B D : stable publisher_role (loaded sent P C B D).
Proof.
  intros w w' [A] R. split; [exact (admitted_stable _ _ _ A R) | ..]; destruct R; lia.
Qed.

(** The publisher's own tickets do not move while it reads the other two. *)
Lemma wp_load_tickets {A} (k : Z -> Z -> Z -> Z -> slot_thread A) sent Q w :
  admitted sent w ->
  (forall P C B D w, ring_ok (matching items) w -> loaded sent P C B D w ->
     0 <= C <= P -> P <= C + kStreamQueueItems -> 0 <= P <= u64_max ->
     0 <= D <= B -> B <= D + kStreamQueueBytes -> B <= u64_max ->
     pwp (k P C B D) Q w) ->
  pwp (tbind (act LoadDescriptorProducer) (fun P =>
       tbind (act LoadDescriptorConsumer) (fun C =>
       tbind (act LoadByteProducer) (fun B =>
       tbind (act LoadByteConsumer) (fun D => k P C B D))))) Q w.
Proof.
  intros H K.
  apply (wp_read _ _ _ _ _ descriptor_producer (admitted sent)); [reflexivity | exact H | apply admitted_stable |].
  clear w H. intros w I H. split; [exact Logic.I|]. set (P := descriptor_producer (fst w)).
  assert (loaded sent P 0 (byte_producer (fst w)) 0 w) as H1 by (destruct I; split; auto; lia).
  set (B := byte_producer (fst w)) in *. clearbody P B. clear H I.
  apply (wp_read _ _ _ _ _ descriptor_consumer (loaded sent P 0 B 0)); [reflexivity | exact H1 | apply loaded_stable |].
  clear w H1. intros w I H. split; [exact Logic.I|]. set (C := descriptor_consumer (fst w)).
  assert (0 <= C <= P /\ P <= C + kStreamQueueItems /\ P <= u64_max) as BP
    by (destruct I, H; unfold C; lia).
  assert (loaded sent P C B 0 w) as H1 by (destruct H; split; auto; unfold C; lia). clearbody C. clear H I.
  apply (wp_read _ _ _ _ _ byte_producer (loaded sent P C B 0)); [reflexivity | exact H1 | apply loaded_stable |].
  clear w H1. intros w I H. split; [exact Logic.I|]. rewrite (ld_byte_producer _ _ _ _ _ _ H).
  apply (wp_read _ _ _ _ _ byte_consumer (loaded sent P C B 0)); [reflexivity | exact H | apply loaded_stable |].
  clear w H I. intros w I H. split; [exact Logic.I|]. apply K; auto; try lia.
  - destruct H; split; auto; lia.
  - pose proof (consumed_bytes _ _ I). destruct I, H. lia.
  - destruct I, H. lia.
  - destruct I, H. lia.
Qed.

Lemma wp_enqueue sent item w :
  ready sent w -> ring_ok (matching items) w ->
  is_prefix (matching (sent ++ [item])) (matching items) ->
  pwp (enqueue item) (fun _ => ready (sent ++ [item])) w.
Proof.
  intros H I PX. unfold enqueue.
  apply (wp_read _ _ _ _ _ terminal_cause (ready sent)); [reflexivity | exact H | apply ready_stable |].
  clear w H I. intros w I H. split; [exact Logic.I|].
  assert (forall w, closed w -> pwp (Ret tt) (fun _ => ready (sent ++ [item])) w) as DONE.
  { intros w' C. apply (wp_ret _ _ _ _ _ (ready (sent ++ [item])));
      [now apply closed_ready | apply ready_stable | auto]. }
  destruct (cause_eqb_spec (terminal_cause (fst w)) StreamTerminalCause.Open) as [O|O]; cbn [negb].
  2: { apply DONE. destruct H. now repeat split. }
  apply wp_bind; [exact _ | exact I |].
  eapply wp_mono; cycle 1.
  { apply (wp_matches _ sent). destruct H. split; auto. }
  clear w O H I. intros [] w I H; cbn [negb].
  2: { apply (wp_ret _ _ _ _ _ (ready (sent ++ [item]))); [exact H | apply ready_stable | auto]. }
  destruct H as [M H]. apply (wp_load_tickets _ sent); [exact H|]. clear w H I.
  intros P C B D w I H HC HP PM HD HB BM.
  pose proof capacities. pose proof (item_size_nonneg item).
  assert (forall cause a b c, claiming_cause cause <> StreamTerminalCause.Open ->
            pwp (overflow cause a b c) (fun _ => ready (sent ++ [item])) w) as OVER.
  { intros cause a b c N. eapply wp_mono; [|apply (wp_overflow _ _ _ _ sent); [exact N|]].
    - cbn beta. intros _ w' _ CL. now apply closed_ready.
    - apply admitted_ready, H. }
  rewrite (u64_small (P - C)), (u64_small (B - D)) by lia. rewrite u64_small by lia.
  destruct (Z.eqb_spec P u64_max) as [|PN]; [apply OVER; discriminate|].
  destruct (Z.ltb_spec (u64_max - B) (item_size item)) as [|BN]; [apply OVER; discriminate|]. cbn [orb].
  destruct (Z.ltb_spec kStreamQueueItemBytes (item_size item)) as [|SN]; [apply OVER; discriminate|].
  destruct (Z.leb_spec kStreamQueueItems (P - C)) as [|QN]; [apply OVER; discriminate|].
  destruct (Z.ltb_spec (kStreamQueueBytes - (B - D)) (item_size item)) as [|FN]; [apply OVER; discriminate|].
  apply wp_bind; [exact _ | exact I |]. eapply wp_mono; cycle 1.
  { pose proof (wp_copy_spans sent item P B (spans item) EmptyString w SN I) as W.
    unfold in_first in W. rewrite Z.min_l in W.
    2: { pose proof (Z.mod_pos_bound B kStreamQueueBytes eq_refl). change (str_len EmptyString) with 0. lia. }
    change (str_len EmptyString) with 0 in W. rewrite Z.add_0_r, !Z.sub_0_r in W. apply W.
    - destruct H as [[]]. split; try congruence; try lia. intros i Hi. lia.
    - cbn. now rewrite str_app_nil_r. }
  intros a' w' I' H'. cbn beta in *. apply (wp_publish_item sent); auto; lia.
Qed.

Lemma matching_prefix sent rest : is_prefix (matching sent) (matching (sent ++ rest)).
Proof. exists (matching rest). unfold matching. now rewrite filter_app. Qed.

Lemma wp_publisher rest sent w :
  items = sent ++ rest -> ready sent w -> ring_ok (matching items) w ->
  pwp (publisher rest) (fun r w => r = Sent /\ ready items w) w.
Proof.
  revert sent w. induction rest as [|item rest IH]; intros sent w E H I.
  - rewrite app_nil_r in E. subst sent. apply (wp_ret _ _ _ _ _ (ready items)); [exact H | apply ready_stable | auto].
  - cbn [publisher]. apply wp_bind; [exact _ | exact I |]. eapply wp_mono; cycle 1.
    { apply (wp_enqueue sent); [exact H | exact I |]. rewrite E.
      change (item :: rest) with ([item] ++ rest). rewrite app_assoc. apply matching_prefix. }
    intros a' w' I' H'. cbn beta in *. apply (IH (sent ++ [item])); auto.
    now rewrite <- app_assoc.
Qed.
End publisher.
