(* ===== verification/StreamWorker.v ===== *)
(** The worker of a subscription, proved against what its publisher may do to the
    slot meanwhile: it reads and erases only the head of the queue, and what it
    takes out are the items that were put in, in order. *)
From Stdlib Require Import RelationClasses.
From S2P Require Import Prelude RequestSession Interleaving StreamIngress StreamIngressFacts.
From S2P Require Import StreamPublisher.

(** A copied item is what was published: the routing data, the text and its size. *)
Record delivers (c : StreamCopiedItem) (item : StreamItemView) : Prop := {
  dv_descriptor : ci_descriptor c = make_descriptor (d_byte_ticket (ci_descriptor c)) item;
  dv_text : ci_data c +++ String newline EmptyString = text item;
  dv_size : ci_wire_bytes c = item_size item
}.

Section worker.
Context (all : list StreamItemView).

Abbreviation wwp := (wp perform (ring_ok all) worker_role).
Abbreviation quiet := (wp_quiet all worker_role environment_worker).

(** Between two visits. *)
Record idle (received : list StreamCopiedItem) (w : world) : Prop := {
  id_taken : taken (snd w) = false;
  id_received : Forall2 delivers received (consumed (snd w))
}.

(** The front of the queue was seen: [item], at the tickets [C] and [b]. *)
Record front (received : list StreamCopiedItem) (C b : Z) (item : StreamItemView) (w : world) : Prop := {
  fr_idle : idle received w;
  fr_head : hd_error (queue (snd w)) = Some item;
  fr_consumer : descriptor_consumer (fst w) = C;
  fr_base : base (snd w) = b
}.

Lemma idle_stable received : stable worker_role (idle received).
Proof. intros w w' [] []. split; congruence. Qed.

Lemma head_app {T} (l m : list T) x : hd_error l = Some x -> hd_error (l ++ m) = Some x.
Proof. destruct l; [discriminate | auto]. Qed.

Lemma front_stable received C b item : stable worker_role (front received C b item).
Proof.
  intros w w' [I H] R. pose proof (idle_stable _ _ _ I R) as I'. destruct R, ps_queue as [m Q].
  split; try congruence. rewrite Q. now apply head_app.
Qed.

Lemma environment_stable P s s' g : stable worker_role P -> environment s s' -> P (s, g) -> P (s', g).
Proof. intros T E H. exact (T _ _ H (environment_publisher _ _ _ E)). Qed.

(** ** Reads that decide nothing *)

Lemma wp_load_state P Q w :
  P w -> stable worker_role P -> (forall x w, ring_ok all w -> P w -> Q x w) -> wwp load_state Q w.
Proof.
  intros H T K. apply (wp_read _ _ _ _ _ sl_state P); [reflexivity | exact H | exact T |].
  clear w H. intros w I H. split; [exact Logic.I|]. apply (wp_ret _ _ _ _ _ P); auto.
Qed.

Lemma wp_cursor_valid c P Q w :
  P w -> stable worker_role P -> (forall x w, ring_ok all w -> P w -> Q x w) -> wwp (cursor_valid c) Q w.
Proof.
  intros H T K. unfold cursor_valid.
  apply (wp_read _ _ _ _ _ epoch P); [reflexivity | exact H | exact T |].
  clear w H. intros w I H. split; [exact Logic.I|]. destruct (negb _); [apply (wp_ret _ _ _ _ _ P); auto|].
  apply (wp_read _ _ _ _ _ borrow_epoch P); [reflexivity | exact H | exact T |].
  clear w I H. intros w I H. split; [exact Logic.I|]. destruct (_ || _); [apply (wp_ret _ _ _ _ _ P); auto|].
  apply wp_bind; [exact _ | exact I |]. apply (wp_load_state P); [exact H | exact T |].
  clear w I H. intros x w I H. apply (wp_ret _ _ _ _ _ P); auto.
Qed.

(** ** The bytes of the front *)

Definition first_part_size (b : Z) (item : StreamItemView) : Z :=
  Z.min (item_size item) (kStreamQueueBytes - b mod kStreamQueueBytes).

Lemma copy_out_length m o n : String.length (copy_out m o n) = n.
Proof. revert o. induction n as [|n IH]; intros o; cbn; auto. Qed.

Lemma front_entry received C b item w :
  ring_ok all w -> front received C b item w ->
  entry_ok (fst w) b C item /\ byte_consumer (fst w) = b
  /\ b + item_size item <= byte_producer (fst w) /\ item_size item <= kStreamQueueItemBytes
  /\ 0 <= b /\ 0 <= C < descriptor_producer (fst w).
Proof.
  intros R [[T _] H <- <-].
  assert (nth_error (queue (snd w)) 0 = Some item) as N by (destruct (queue (snd w)); [discriminate | exact H]).
  destruct (ticket_range all w 0 item R N ltac:(congruence)) as (L & U & S).
  pose proof (ro_entries all w R 0 item N ltac:(congruence)) as E.
  assert (ticket (snd w) 0 = base (snd w)) as TB by (unfold ticket; cbn; lia).
  rewrite TB in *. rewrite Z.add_0_r in E. destruct R. rewrite T in *.
  assert (0 < List.length (queue (snd w)))%nat by (destruct (queue (snd w)); [discriminate | cbn; lia]).
  repeat split; try apply E; lia.
Qed.

Lemma front_spans received C b item w :
  ring_ok all w -> front received C b item w ->
  copy_out (bytes (fst w)) (b mod kStreamQueueBytes) (Z.to_nat (first_part_size b item))
  = str_take (Z.to_nat (first_part_size b item)) (text item)
  /\ copy_out (bytes (fst w)) 0 (Z.to_nat (item_size item - first_part_size b item))
     = str_drop (Z.to_nat (first_part_size b item)) (text item).
Proof.
  intros R H. destruct (front_entry _ _ _ _ _ R H) as ([_ E] & _ & _ & S & _). pose proof capacities.
  pose proof (spans_read (bytes (fst w)) b (text item)) as X. rewrite text_size in X.
  specialize (X ltac:(lia) E). cbn zeta in X. fold (first_part_size b item) in X.
  pose proof (copy_out_length (bytes (fst w)) (b mod kStreamQueueBytes) (Z.to_nat (first_part_size b item))) as L.
  revert X L. generalize (copy_out (bytes (fst w)) (b mod kStreamQueueBytes) (Z.to_nat (first_part_size b item))).
  intros a <- <-. now rewrite str_take_app, str_drop_app.
Qed.

(** The cursor of a visit of the front. *)
Definition front_cursor (r_epoch borrow b : Z) (item : StreamItemView) : StreamIngressFrontCursor :=
  {| cur_reservation_epoch := r_epoch; cur_borrow_epoch := borrow;
     cur_descriptor := make_descriptor b item;
     cur_first := (b mod kStreamQueueBytes, first_part_size b item);
     cur_second := (0, item_size item - first_part_size b item) |}.

(** ** Copying the front *)

Lemma second_offset b item :
  first_part_size b item < item_size item ->
  (b + first_part_size b item) mod kStreamQueueBytes = 0.
Proof.
  unfold first_part_size. intros L. pose proof (Z.mod_pos_bound b kStreamQueueBytes eq_refl).
  rewrite Z.min_r by lia. rewrite <- Z.add_mod_idemp_l, Zplus_minus by discriminate.
  apply Z.mod_same. discriminate.
Qed.

(** Where the two spans of the front are, and what they hold. *)
Lemma span_access received C b item (second : bool) w :
  ring_ok all w -> front received C b item w ->
  let n := first_part_size b item in
  let off := if second then 0 else b mod kStreamQueueBytes in
  let size := if second then item_size item - n else n in
  let t := if second then b + n else b in
  size <> 0 ->
  0 < size /\ byte_consumer (fst w) <= t /\ t + size <= byte_producer (fst w)
  /\ b <= t /\ t + size <= b + item_size item
  /\ off = t mod kStreamQueueBytes /\ off + size <= kStreamQueueBytes.
Proof.
  intros R H n off size t N. destruct (front_entry _ _ _ _ _ R H) as (_ & BC & BP & S & B0 & _).
  pose proof (Z.mod_pos_bound b kStreamQueueBytes eq_refl). pose proof capacities.
  pose proof (item_size_nonneg item).
  assert (0 <= n <= item_size item /\ n <= kStreamQueueBytes - b mod kStreamQueueBytes) as [N1 N2]
    by (unfold n, first_part_size; lia).
  destruct second; unfold off, size, t in *.
  - pose proof (second_offset b item ltac:(fold n; lia)) as O. fold n in O. lia.
  - lia.
Qed.

Definition span (c : StreamIngressFrontCursor) (second : bool) : Z * Z :=
  if second then cur_second c else cur_first c.

Definition piece (b : Z) (item : StreamItemView) (second : bool) : string :=
  if second then str_drop (Z.to_nat (first_part_size b item)) (text item)
  else str_take (Z.to_nat (first_part_size b item)) (text item).

Lemma wp_copy_span received C b item e borrow second size Q w :
  ring_ok all w -> front received C b item w ->
  (forall ok data w, ring_ok all w -> front received C b item w ->
     (ok = true -> data = piece b item second) -> Q (ok, data) w) ->
  wwp (copy_span (front_cursor e borrow b item) (span (front_cursor e borrow b item) second) size) Q w.
Proof.
  intros I0 H K. set (c := front_cursor e borrow b item). unfold copy_span.
  apply wp_bind; [exact _ | exact I0 |].
  apply (wp_cursor_valid _ (front received C b item)); [exact H | apply front_stable |].
  clear w I0 H. intros valid w I H. destruct (_ || _).
  { apply (wp_ret _ _ _ _ _ (front received C b item)); [exact H | apply front_stable |].
    intros. apply K; auto. discriminate. }
  assert (forall data w, ring_ok all w -> front received C b item w -> data = piece b item second ->
    wwp (tbind (cursor_valid c) (fun still => Ret (still, data))) Q w) as TAIL.
  { clear w I H. intros data w I H ->. apply wp_bind; [exact _ | exact I |].
    apply (wp_cursor_valid _ (front received C b item)); [exact H | apply front_stable |].
    clear w I H. intros still w I H.
    apply (wp_ret _ _ _ _ _ (front received C b item)); [exact H | apply front_stable |].
    intros. apply K; auto. }
  destruct (Z.eqb_spec (snd (span c second)) 0) as [Z0|NZ].
  - apply TAIL; auto. destruct (front_spans _ _ _ _ _ I H) as [E1 E2].
    destruct second; cbn [span snd c front_cursor cur_first cur_second piece] in *;
      rewrite Z0 in *; [rewrite <- E2 | rewrite <- E1]; reflexivity.
  - assert (forall w, ring_ok all w -> front received C b item w ->
              in_bytes (fst (span c second)) (snd (span c second)) = true
              /\ worker_may _ (CopyOut (fst (span c second)) (snd (span c second))) w
              /\ copy_out (bytes (fst w)) (fst (span c second)) (Z.to_nat (snd (span c second)))
                 = piece b item second) as ACC.
    { clear w I H. intros w I H.
      pose proof (span_access _ _ _ _ second _ I H) as A. destruct (front_spans _ _ _ _ _ I H) as [E1 E2].
      destruct second; cbn [span fst snd c front_cursor cur_first cur_second piece] in *;
        cbv beta iota zeta in A; destruct (A NZ) as (P & A1 & A2 & _ & _ & A3 & A4);
        (split; [|split; [|assumption]]);
        try (eexists; repeat (split; [eassumption|]); eassumption);
        first [apply in_bytes_ok; lia | rewrite A3; apply in_bytes_ok; lia]. }
    destruct (ACC w I H) as (IB & _ & _).
    apply (wp_read _ _ _ _ _ (fun s => copy_out (bytes s) (fst (span c second)) (Z.to_nat (snd (span c second))))
             (front received C b item)); [| exact H | apply front_stable |].
    { intros s. cbn [perform]. now rewrite IB. }
    clear w I H. intros w I H. destruct (ACC w I H) as (_ & M & E). split; [exact M|]. now apply TAIL.
Qed.

Lemma piece_size e borrow b item second :
  snd (span (front_cursor e borrow b item) second) = str_len (piece b item second).
Proof.
  pose proof (item_size_nonneg item). pose proof (Z.mod_pos_bound b kStreamQueueBytes eq_refl).
  destruct (split_text (text item) (first_part_size b item)) as (x & y & E & L & TX & TY).
  { rewrite text_size. unfold first_part_size. lia. }
  assert (item_size item = str_len x + str_len y) by (rewrite <- text_size, E; apply str_len_app).
  destruct second; cbn [span snd front_cursor cur_first cur_second piece]; [rewrite TY | rewrite TX]; lia.
Qed.

(** What a context holds after the spans of [pre]. *)
Record holding (pre : string) (context : CopyContext) : Prop := {
  ho_scratch : copy_valid context = true -> scratch context = pre;
  ho_size : copy_valid context = true -> copied_size context = str_len pre;
  ho_descriptor : copied_descriptor context = None
}.

Lemma wp_copy_borrowed received C b item e borrow l pre context Q w :
  ring_ok all w -> front received C b item w -> holding pre context ->
  (forall context w, ring_ok all w -> front received C b item w ->
     holding (fold_left (fun s second => s +++ piece b item second) l pre) context -> Q context w) ->
  wwp (copy_borrowed (front_cursor e borrow b item) (map (span (front_cursor e borrow b item)) l) context) Q w.
Proof.
  set (c := front_cursor e borrow b item). revert pre context w.
  induction l as [|second l IH]; intros pre context w I H HO K; cbn [map copy_borrowed fold_left] in *.
  - apply (wp_ret _ _ _ _ _ (front received C b item)); [exact H | apply front_stable |]. intros. now apply K.
  - unfold span_size. apply wp_bind; [exact _ | exact I |]. apply wp_bind; [exact _ | exact I |].
    apply (wp_cursor_valid _ (front received C b item)); [exact H | apply front_stable |].
    clear w I H. intros valid w I H.
    apply (wp_ret _ _ _ _ _ (front received C b item)); [exact H | apply front_stable |].
    clear w I H. intros w I H. destruct valid.
    2: { apply (wp_ret _ _ _ _ _ (front received C b item)); [exact H | apply front_stable |].
         intros. apply K; auto. destruct context, HO. now split. }
    destruct (_ <? _).
    { apply (wp_ret _ _ _ _ _ (front received C b item)); [exact H | apply front_stable |].
      intros. apply K; auto. destruct context, HO. now split. }
    apply wp_bind; [exact _ | exact I |]. destruct (copy_valid context) eqn:V.
    + apply (wp_copy_span received C); [exact I | exact H |]. clear w I H. intros ok data w I H D.
      apply (IH (pre +++ piece b item second)); [exact I | exact H | | exact K].
      destruct HO as [HS HZ HD]. specialize (HS V). specialize (HZ V).
      destruct context; cbn in *. split; cbn; auto; intros ->; rewrite (D eq_refl) || idtac; try congruence.
      rewrite str_len_app, HZ. f_equal. exact (piece_size e borrow b item second).
    + apply (wp_ret _ _ _ _ _ (front received C b item)); [exact H | apply front_stable |].
      clear w I H. intros w I H. apply (IH (pre +++ piece b item second)); [exact I | exact H | | exact K].
      destruct context, HO. now split.
Qed.

Lemma pieces_text b item : piece b item false +++ piece b item true = text item.
Proof. apply str_take_drop. Qed.

(** The result of copying the front, when it is not reported as invalid. *)
Definition copied (b : Z) (item : StreamItemView) (r : CopyContext * StreamIngressFrontAction.t) : Prop :=
  snd r = StreamIngressFrontAction.Keep
  /\ (copy_valid (fst r) = true ->
      copied_descriptor (fst r) = Some (make_descriptor b item)
      /\ scratch (fst r) = text item /\ copied_size (fst r) = item_size item).

Lemma wp_copy_item received C b item e borrow w :
  ring_ok all w -> front received C b item w ->
  wwp (copy_item new_context (front_cursor e borrow b item))
    (fun r w => front received C b item w /\ copied b item r) w.
Proof.
  intros I0 H. set (c := front_cursor e borrow b item).
  assert (forall context w, front received C b item w ->
    wwp (Ret (RecordSetters.apply_update (RecordSetters.mk_update copy_valid (RecordSetters.constant false)) context,
              StreamIngressFrontAction.Keep))
      (fun r w => front received C b item w /\ copied b item r) w) as FAIL.
  { clear w I0 H. intros context w H.
    apply (wp_ret _ _ _ _ _ (front received C b item)); [exact H | apply front_stable |].
    intros. split; [assumption|]. split; [reflexivity|]. destruct context. discriminate. }
  unfold copy_item, cursor_descriptor. apply wp_bind; [exact _ | exact I0 |].
  apply wp_bind; [exact _ | exact I0 |].
  apply (wp_cursor_valid _ (front received C b item)); [exact H | apply front_stable |].
  clear w I0 H. intros valid w I H.
  apply (wp_ret _ _ _ _ _ (front received C b item)); [exact H | apply front_stable |].
  clear w I H. intros w I H. destruct valid; [|now apply FAIL].
  destruct (_ <? _); [now apply FAIL|]. apply wp_bind; [exact _ | exact I |].
  apply (wp_cursor_valid _ (front received C b item)); [exact H | apply front_stable |].
  clear w I H. intros valid w I H. destruct valid; cbn [negb]; [|now apply FAIL].
  apply wp_bind; [exact _ | exact I |].
  apply (wp_copy_borrowed received C b item e borrow [false; true] EmptyString); [exact I | exact H | now split |].
  clear w I H. intros context w I H HO. cbn [fold_left] in HO. rewrite str_app_assoc, pieces_text in HO.
  apply wp_bind; [exact _ | exact I |].
  apply (wp_cursor_valid _ (front received C b item)); [exact H | apply front_stable |].
  clear w I H. intros still w I H. destruct still; cbn [negb]; [|now apply FAIL].
  apply (wp_ret _ _ _ _ _ (front received C b item)); [exact H | apply front_stable |].
  intros w' I' H'. split; [exact H'|]. split; [reflexivity|]. destruct context, HO; cbn in *. intros V.
  rewrite <- text_size. auto.
Qed.

(** ** Taking the front out *)

(** The head is being erased; [k] is the consumer's byte ticket, and with [must]
    the head is known to be gone. *)
Record erasing (received : list StreamCopiedItem) (C b : Z) (item : StreamItemView) (k : Z) (must : bool)
    (w : world) : Prop := {
  er_received : Forall2 delivers received (consumed (snd w));
  er_head : hd_error (queue (snd w)) = Some item;
  er_consumer : descriptor_consumer (fst w) = C;
  er_base : base (snd w) = b;
  er_byte : byte_consumer (fst w) = k;
  er_taken : must = true -> taken (snd w) = true
}.

Lemma erasing_stable received C b item k must : stable worker_role (erasing received C b item k must).
Proof.
  intros w w' [] []. destruct ps_queue as [m Q]. split; try congruence.
  - rewrite Q. now apply head_app.
  - intros M. rewrite ps_taken. auto.
Qed.

(** The item was taken out and nothing else. *)
Record after (received : list StreamCopiedItem) (item : StreamItemView) (w : world) : Prop := {
  af_taken : taken (snd w) = false;
  af_consumed : exists l, consumed (snd w) = l ++ [item] /\ Forall2 delivers received l
}.

Lemma after_stable received item : stable worker_role (after received item).
Proof. intros w w' [T [l [E F]]] []. split; [congruence|]. exists l. split; [congruence | exact F]. Qed.

Lemma erasing_bounds received C b item must w :
  ring_ok all w -> erasing received C b item b must w ->
  0 <= b /\ b + item_size item <= byte_producer (fst w) <= u64_max
  /\ item_size item <= kStreamQueueItemBytes /\ 0 <= C < descriptor_producer (fst w)
  /\ descriptor_producer (fst w) <= u64_max.
Proof.
  intros R [_ H <- B K _]. pose proof (head_size (queue (snd w))). rewrite (head_total _ _ H) in *.
  destruct R. unfold frontier in *.
  assert (0 < List.length (queue (snd w)))%nat by (destruct (queue (snd w)); [discriminate | cbn; lia]).
  assert (item_size item <= kStreamQueueItemBytes)
    by (destruct (queue (snd w)); [discriminate|]; injection H as ->; now inversion ro_sizes).
  repeat split; lia.
Qed.

(** One block of the head is overwritten. *)
Lemma wp_fill {A} received C b item must t n (k : unit -> slot_thread A) Q w :
  erasing received C b item b must w ->
  0 < n -> b <= t -> t + n <= b + item_size item -> t mod kStreamQueueBytes + n <= kStreamQueueBytes ->
  (forall w, ring_ok all w -> erasing received C b item b true w -> wwp (k tt) Q w) ->
  wwp (tbind (act (Fill (t mod kStreamQueueBytes) poison_byte n)) k) Q w.
Proof.
  intros H N L U M K.
  apply (wp_write _ _ _ _ _ (erasing received C b item b must)); [exact H | apply erasing_stable |].
  clear w H. intros s g I H. destruct (erasing_bounds _ _ _ _ _ _ I H) as (B0 & B1 & _). cbn [fst] in *.
  split. { exists t. destruct H; cbn [fst] in *. repeat split; lia. }
  assert (exists s', perform _ (Fill (t mod kStreamQueueBytes) poison_byte n) s = Some (tt, s')) as [s' E]
    by (cbn [perform]; rewrite in_bytes_ok by lia; eauto).
  pose proof (fill_tickets _ _ _ _ _ E) as SR. destruct H; cbn [fst snd] in *.
  destruct (erase_step all s s' g item t n) as [I' G]; auto; try lia; try congruence.
  { cbn [perform] in E. rewrite in_bytes_ok in E by lia. injection E as <-. destruct s. now apply fill_touches. }
  { cbn [perform] in E. rewrite in_bytes_ok in E by lia. injection E as <-. destruct s. apply touches_refl. }
  exists tt, s', (taking g). split; [exact E|]. split; [exact G|]. split; [exact I'|]. apply K; [exact I'|].
  destruct SR. split; cbn; auto; congruence.
Qed.

Lemma erasing_weaken received C b item k must w :
  erasing received C b item k must w -> erasing received C b item k false w.
Proof. intros []. split; auto. discriminate. Qed.

Lemma wp_fill_part received C b item (c : bool) o t n w :
  erasing received C b item b false w ->
  (c = true -> 0 < n /\ b <= t /\ t + n <= b + item_size item /\ o = t mod kStreamQueueBytes
              /\ o + n <= kStreamQueueBytes) ->
  wwp (if c then act (Fill o poison_byte n) else Ret tt) (fun _ => erasing received C b item b false) w.
Proof.
  intros H A. destruct c.
  - destruct (A eq_refl) as (P & L & U & -> & M).
    apply wp_act, (wp_fill received C b item false); [exact H | exact P | exact L | exact U | exact M |].
    clear w H. intros w I H. apply erasing_weaken in H.
    eapply wp_ret; [exact H | apply erasing_stable | auto].
  - eapply wp_ret; [exact H | apply erasing_stable | auto].
Qed.

(** The descriptor is overwritten and the tickets are released, bytes first. *)
Lemma wp_release {X} received C b item (x : X) w :
  ring_ok all w -> erasing received C b item b false w ->
  wwp (act (WriteDescriptor (C mod kStreamQueueItems) poisoned_descriptor) ;;;
       act (StoreByteConsumer (u64 (b + item_size item))) ;;;
       act (StoreDescriptorConsumer (u64 (C + 1))) ;;;
       Ret (StreamIngressFrontResult.Consumed, x))%thread
    (fun r w => r = (StreamIngressFrontResult.Consumed, x) /\ after received item w) w.
Proof.
  intros I0 H. destruct (erasing_bounds _ _ _ _ _ _ I0 H) as (B0 & B1 & _ & C0 & C1).
  pose proof (item_size_nonneg item). rewrite !u64_small by lia. clear I0 B0 B1 C0 C1.
  apply (wp_write _ _ _ _ _ (erasing received C b item b false)); [exact H | apply erasing_stable |].
  clear w H. intros s g I H. destruct (erasing_bounds _ _ _ _ _ _ I H) as (_ & _ & _ & C0 & _).
  destruct H; cbn [fst snd] in *. split; [split; cbn [fst]; [congruence | lia]|].
  assert (exists s', perform _ (WriteDescriptor (C mod kStreamQueueItems) poisoned_descriptor) s = Some (tt, s'))
    as [s' E] by (cbn [perform]; rewrite in_descriptors_ok; eauto).
  pose proof (write_descriptor_tickets _ _ _ _ E) as SR.
  destruct (erase_step all s s' g item b 0) as [I' G]; auto; try lia; try congruence.
  { cbn [perform] in E. rewrite in_descriptors_ok in E. injection E as <-. destruct s. apply touches_refl. }
  { cbn [perform] in E. rewrite in_descriptors_ok in E. injection E as <-. destruct s. cbn in *. subst C.
    apply update_touches. }
  exists tt, s', (taking g). split; [exact E|]. split; [exact G|]. split; [exact I'|].
  assert (erasing received C b item b true (s', taking g)) as H' by (destruct SR; split; cbn; auto; congruence).
  clear - H'.
  apply (wp_write _ _ _ _ _ (erasing received C b item b true)); [exact H' | apply erasing_stable |].
  clear s' g H'. intros s g I H. destruct H; cbn [fst snd] in *. split; [exact Logic.I|].
  assert (exists s', perform _ (StoreByteConsumer (b + item_size item)) s = Some (tt, s')) as [s' E] by (cbn; eauto).
  destruct (store_byte_consumer_step all s s' g item) as [I' G]; auto; try congruence.
  exists tt, s', g. split; [exact E|]. split; [exact G|]. split; [exact I'|].
  assert (erasing received C b item (b + item_size item) true (s', g)) as H'
    by (cbn in E; injection E as <-; destruct s; cbn in *; split; cbn; auto).
  clear - H'.
  apply (wp_write _ _ _ _ _ (erasing received C b item (b + item_size item) true)); [exact H' | apply erasing_stable |].
  clear s' g H'. intros s g I H. destruct H; cbn [fst snd] in *. split; [exact Logic.I|].
  assert (exists s', perform _ (StoreDescriptorConsumer (C + 1)) s = Some (tt, s')) as [s' E] by (cbn; eauto).
  destruct (store_descriptor_consumer_step all s s' g item) as [I' G]; auto; try congruence.
  exists tt, s', (popped g item). split; [exact E|]. split; [exact G|]. split; [exact I'|].
  apply (wp_ret _ _ _ _ _ (after received item)); [| apply after_stable | auto].
  split; cbn; [reflexivity | eauto].
Qed.

Lemma wp_erase {X} received C b item (x : X) w :
  ring_ok all w -> front received C b item w ->
  let n := first_part_size b item in
  wwp ((if n =? 0 then Ret tt else act (Fill (b mod kStreamQueueBytes) poison_byte n)) ;;;
       (if n <? item_size item then act (Fill 0 poison_byte (item_size item - n)) else Ret tt) ;;;
       act (WriteDescriptor (C mod kStreamQueueItems) poisoned_descriptor) ;;;
       act (StoreByteConsumer (u64 (b + item_size item))) ;;;
       act (StoreDescriptorConsumer (u64 (C + 1))) ;;;
       Ret (StreamIngressFrontResult.Consumed, x))%thread
    (fun r w => r = (StreamIngressFrontResult.Consumed, x) /\ after received item w) w.
Proof.
  intros I H n. pose proof (span_access _ _ _ _ false _ I H) as A1.
  pose proof (span_access _ _ _ _ true _ I H) as A2. cbv beta iota zeta in A1, A2. fold n in A1, A2.
  assert (erasing received C b item b false w) as H1.
  { destruct (front_entry _ _ _ _ _ I H) as (_ & BC & _). destruct H as [[]]. split; auto. discriminate. }
  clear H.
  replace (if n =? 0 then Ret tt else act (Fill (b mod kStreamQueueBytes) poison_byte n))
    with (if negb (n =? 0) then act (Fill (b mod kStreamQueueBytes) poison_byte n) else Ret tt)
    by now destruct (n =? 0).
  apply wp_bind; [exact _ | exact I |]. eapply wp_mono; cycle 1.
  { apply (wp_fill_part received C b item _ _ b); [exact H1|].
    destruct (Z.eqb_spec n 0); [discriminate|]. intros _. destruct A1 as (? & _ & _ & ? & ? & ? & ?); auto. }
  intros a w' I' H'. cbn beta in H'.
  apply wp_bind; [exact _ | exact I' |]. eapply wp_mono; cycle 1.
  { apply (wp_fill_part received C b item _ _ (b + n)); [exact H'|].
    destruct (Z.ltb_spec n (item_size item)); [|discriminate]. intros _.
    destruct A2 as (? & _ & _ & ? & ? & ? & ?); [lia | auto]. }
  intros a' w'' I'' H''. cbn beta in H''. now apply (wp_release received C b item).
Qed.

(** ** A visit *)

(** Nothing is being erased, and the head is [known] if it was copied before. *)
Record seen (received : list StreamCopiedItem) (known : option StreamItemView) (w : world) : Prop := {
  se_idle : idle received w;
  se_known : forall item, known = Some item -> hd_error (queue (snd w)) = Some item
}.

Record ticketed (received : list StreamCopiedItem) (known : option StreamItemView) (C : Z) (w : world) : Prop := {
  ti_seen : seen received known w;
  ti_consumer : descriptor_consumer (fst w) = C
}.

Lemma seen_stable received known : stable worker_role (seen received known).
Proof.
  intros w w' [I K] R. split; [exact (idle_stable _ _ _ I R)|]. intros item E.
  destruct R, ps_queue as [m Q]. rewrite Q. apply head_app. auto.
Qed.

Lemma ticketed_stable received known C : stable worker_role (ticketed received known C).
Proof. intros w w' [S T] R. split; [exact (seen_stable _ _ _ _ S R)|]. destruct R. congruence. Qed.

Lemma ticketed_front received known w :
  ring_ok all w -> ticketed received known (descriptor_consumer (fst w)) w ->
  descriptor_consumer (fst w) <> descriptor_producer (fst w) ->
  exists item, (forall i, known = Some i -> i = item)
    /\ front received (descriptor_consumer (fst w)) (base (snd w)) item w.
Proof.
  intros R [[I K] _] N. destruct (queue (snd w)) as [|item q] eqn:Q.
  - destruct R. rewrite Q in *. cbn in *. lia.
  - exists item. split; [intros i E; specialize (K i E); now injection K|].
    split; auto. now rewrite Q.
Qed.

Lemma cas_active_ok s x y :
  exists b s', perform _ (CasActiveBorrows x y) s = Some (b, s') /\ environment s s'.
Proof.
  unfold perform. destruct (active_borrows s =? x); do 2 eexists; (split; [reflexivity|]); solve_environment.
Qed.

Lemma cas_borrow_ok s x y :
  exists b s', perform _ (CasBorrowEpoch x y) s = Some (b, s') /\ environment s s'.
Proof.
  unfold perform. destruct (borrow_epoch s =? x); do 2 eexists; (split; [reflexivity|]); solve_environment.
Qed.

Lemma wp_cas_active {A} x y (k : bool -> slot_thread A) P Q w :
  P w -> stable worker_role P -> (forall b w, ring_ok all w -> P w -> wwp (k b) Q w) ->
  wwp (tbind (act (CasActiveBorrows x y)) k) Q w.
Proof.
  intros H T K. apply (quiet _ _ P); [exact H | exact T |]. intros s g I HP. split; [exact Logic.I|].
  destruct (cas_active_ok s x y) as (b & s' & E & V). exists b, s'. split; [exact E|]. split; [exact V|].
  apply K; [eapply environment_ring; eauto | eapply environment_stable; eauto].
Qed.

Lemma wp_cas_borrow {A} x y (k : bool -> slot_thread A) P Q w :
  P w -> stable worker_role P -> (forall b w, ring_ok all w -> P w -> wwp (k b) Q w) ->
  wwp (tbind (act (CasBorrowEpoch x y)) k) Q w.
Proof.
  intros H T K. apply (quiet _ _ P); [exact H | exact T |]. intros s g I HP. split; [exact Logic.I|].
  destruct (cas_borrow_ok s x y) as (b & s' & E & V). exists b, s'. split; [exact E|]. split; [exact V|].
  apply K; [eapply environment_ring; eauto | eapply environment_stable; eauto].
Qed.

Lemma wp_store_active {A} x (k : unit -> slot_thread A) P Q w :
  P w -> stable worker_role P -> (forall w, ring_ok all w -> P w -> wwp (k tt) Q w) ->
  wwp (tbind (act (StoreActiveBorrows x)) k) Q w.
Proof.
  intros H T K. apply (quiet _ _ P); [exact H | exact T |]. intros s g I HP. quietly.
  apply K; [eapply environment_ring; eauto | eapply environment_stable; eauto].
Qed.

(** The outcome of a visit of the front; [V] is what the visitor promises. *)
Definition visited {X} (received : list StreamCopiedItem) (known : option StreamItemView)
    (V : Z -> StreamItemView -> X * StreamIngressFrontAction.t -> Prop)
    (r : StreamIngressFrontResult.t * X) (w : world) : Prop :=
  match fst r with
  | StreamIngressFrontResult.Consumed =>
      exists b item, (forall i, known = Some i -> i = item) /\ after received item w
        /\ V b item (snd r, StreamIngressFrontAction.Consume)
  | StreamIngressFrontResult.Visited =>
      exists C b item, front received C b item w /\ V b item (snd r, StreamIngressFrontAction.Keep)
  | _ => idle received w
  end.

Lemma wp_unvisited {X} received known V (r : StreamIngressFrontResult.t) (x : X) P w :
  P w -> stable worker_role P -> (forall w, P w -> idle received w) ->
  match r with StreamIngressFrontResult.Consumed | StreamIngressFrontResult.Visited => False | _ => True end ->
  wwp (Ret (r, x)) (visited received known V) w.
Proof.
  intros H T D N. apply (wp_ret _ _ _ _ _ P); [exact H | exact T |]. intros w' _ HP.
  unfold visited. destruct r; try contradiction; cbn; auto.
Qed.

Lemma json_size_small b item : 
  item_size item <= kStreamQueueItemBytes -> d_json_size (make_descriptor b item) = item_size item.
Proof.
  intros S. pose proof (item_size_nonneg item). pose proof capacities. cbn. unfold u32.
  apply Z.mod_small. lia.
Qed.

(** Reading the descriptor of the front. *)
Lemma wp_read_front {A} received C b item (k : StreamIngressDescriptor -> slot_thread A) Q w :
  front received C b item w ->
  (forall w, ring_ok all w -> front received C b item w -> wwp (k (make_descriptor b item)) Q w) ->
  wwp (tbind (act (ReadDescriptor (C mod kStreamQueueItems))) k) Q w.
Proof.
  intros H K.
  apply (wp_read _ _ _ _ _ (fun s => descriptors s (C mod kStreamQueueItems)) (front received C b item));
    [intros s; cbn [perform]; now rewrite in_descriptors_ok | exact H | apply front_stable |].
  clear w H. intros w I H. destruct (front_entry _ _ _ _ _ I H) as ([E _] & _ & _ & _ & _ & C0).
  split; [split; [rewrite (fr_consumer _ _ _ _ _ H); reflexivity|]; destruct H; lia|].
  rewrite E. now apply K.
Qed.

Lemma front_idle received C b item w : front received C b item w -> idle received w.
Proof. now intros []. Qed.

(** The part of [visit_front] after the visitor asked to consume. *)
Lemma wp_consume {X} received known V C b item (x : X) w :
  (forall i, known = Some i -> i = item) -> V b item (x, StreamIngressFrontAction.Consume) ->
  front received C b item w -> item_size item <= kStreamQueueItemBytes ->
  let d := make_descriptor b item in
  let physical := d_byte_ticket d mod kStreamQueueBytes in
  let first_size := Z.min (d_json_size d) (kStreamQueueBytes - physical) in
  let second_size := d_json_size d - first_size in
  wwp (current_consumer <- act LoadDescriptorConsumer ;;
       current_producer <- act LoadDescriptorProducer ;;
       unchanged <-
         (if negb (current_consumer =? C) || (current_consumer =? current_producer) then Ret false
          else
            current <- act (ReadDescriptor (current_consumer mod kStreamQueueItems)) ;;
            Ret (d_byte_ticket current =? d_byte_ticket d)) ;;
       if negb unchanged then Ret (StreamIngressFrontResult.Invalidated, x)
       else
         (if first_size =? 0 then Ret tt else act (Fill physical poison_byte first_size)) ;;;
         (if first_size <? d_json_size d then act (Fill 0 poison_byte second_size) else Ret tt) ;;;
         act (WriteDescriptor (current_consumer mod kStreamQueueItems) poisoned_descriptor) ;;;
         act (StoreByteConsumer (u64 (d_byte_ticket d + d_json_size d))) ;;;
         act (StoreDescriptorConsumer (u64 (current_consumer + 1))) ;;;
         Ret (StreamIngressFrontResult.Consumed, x))%thread
    (visited received known V) w.
Proof.
  intros N HV H S d physical first_size second_size.
  apply (wp_read _ _ _ _ _ descriptor_consumer (front received C b item)); [reflexivity | exact H | apply front_stable |].
  clear w H. intros w I H. split; [exact Logic.I|]. rewrite (fr_consumer _ _ _ _ _ H), Z.eqb_refl. cbn [negb orb].
  apply (wp_read _ _ _ _ _ descriptor_producer (front received C b item)); [reflexivity | exact H | apply front_stable |].
  clear w H I. intros w I H. split; [exact Logic.I|]. apply wp_bind; [exact _ | exact I |].
  apply (wp_mono _ _ _ _ (fun _ => front received C b item)).
  2: { destruct (_ =? _).
       - eapply wp_ret; [exact H | apply front_stable | auto].
       - apply (wp_read_front received C b item); [exact H|]. clear w I H. intros w I H.
         eapply wp_ret; [exact H | apply front_stable | auto]. }
  clear w I H. intros unchanged w I H. destruct unchanged; cbn [negb].
  2: { apply (wp_unvisited _ _ _ _ _ (front received C b item)); [exact H | apply front_stable | apply front_idle | exact Logic.I]. }
  unfold second_size, first_size, physical, d. rewrite json_size_small by exact S.
  eapply wp_mono; [| apply (wp_erase received C b item x w I H)].
  intros r w' I' [-> A]. exists b, item. auto.
Qed.

Lemma wp_visit_front {X} received known V e (context : X) visitor w :
  seen received known w ->
  (forall C b item borrow w, ring_ok all w -> front received C b item w ->
     wwp (visitor context (front_cursor e borrow b item))
       (fun r w => front received C b item w /\ V b item r) w) ->
  wwp (visit_front e context visitor) (visited received known V) w.
Proof.
  intros H VI.
  assert (forall r w, seen received known w ->
    match r with StreamIngressFrontResult.Consumed | StreamIngressFrontResult.Visited => False | _ => True end ->
    wwp (Ret (r, context)) (visited received known V) w) as OUT.
  { intros r w' S N. apply (wp_unvisited _ _ _ _ _ (seen received known)); [exact S | apply seen_stable | | exact N].
    now intros ? []. }
  unfold visit_front.
  apply (wp_read _ _ _ _ _ epoch (seen received known)); [reflexivity | exact H | apply seen_stable |].
  clear w H. intros w I H. split; [exact Logic.I|]. destruct (negb _); [now apply OUT|].
  apply wp_bind; [exact _ | exact I |]. apply (wp_load_state (seen received known)); [exact H | apply seen_stable |].
  clear w I H. intros st w I H. destruct (negb _); [now apply OUT|].
  apply (wp_read _ _ _ _ _ terminal_cause (seen received known)); [reflexivity | exact H | apply seen_stable |].
  clear w I H. intros w I H. split; [exact Logic.I|]. destruct (negb _); [now apply OUT|].
  apply (wp_read _ _ _ _ _ descriptor_consumer (seen received known)); [reflexivity | exact H | apply seen_stable |].
  clear w I H. intros w I H. split; [exact Logic.I|].
  assert (ticketed received known (descriptor_consumer (fst w)) w) as T by now split.
  set (C := descriptor_consumer (fst w)) in *. clearbody C. clear I H.
  apply (wp_read _ _ _ _ _ descriptor_producer (ticketed received known C)); [reflexivity | exact T | apply ticketed_stable |].
  clear w T. intros w I T. split; [exact Logic.I|]. destruct (Z.eqb_spec C (descriptor_producer (fst w))) as [|N].
  { apply OUT; [apply T | exact Logic.I]. }
  assert (exists b item, (forall i, known = Some i -> i = item) /\ front received C b item w
            /\ item_size item <= kStreamQueueItemBytes) as (b & item & KN & F & S).
  { pose proof (ti_consumer _ _ _ _ T) as EC. rewrite <- EC in *.
    destruct (ticketed_front _ _ _ I T N) as (item & KN & F). exists (base (snd w)), item.
    destruct (front_entry _ _ _ _ _ I F) as (_ & _ & _ & S & _). auto. }
  clear T N I OUT.
  assert (forall r w, front received C b item w ->
    match r with StreamIngressFrontResult.Consumed | StreamIngressFrontResult.Visited => False | _ => True end ->
    forall x, wwp (Ret (r, x)) (visited received known V) w) as OUT.
  { intros r w' F' N x. apply (wp_unvisited _ _ _ _ _ (front received C b item));
      [exact F' | apply front_stable | apply front_idle | exact N]. }
  apply (wp_read _ _ _ _ _ borrow_epoch (front received C b item)); [reflexivity | exact F | apply front_stable |].
  clear w F. intros w I F. split; [exact Logic.I|]. set (borrow := borrow_epoch (fst w)). clearbody borrow.
  apply (wp_cas_active _ _ _ (front received C b item)); [exact F | apply front_stable |].
  clear w I F. intros sole w I F. destruct sole; cbn [negb]; [|now apply OUT].
  apply wp_bind; [exact _ | exact I |]. apply (wp_mono _ _ _ _ (fun _ => front received C b item)).
  2: { destruct (_ || _); [eapply wp_ret; [exact F | apply front_stable | auto]|].
       apply wp_act, (wp_cas_borrow _ _ _ (front received C b item)); [exact F | apply front_stable |].
       clear w I F. intros x w I F. eapply wp_ret; [exact F | apply front_stable | auto]. }
  clear w I F. intros borrowed w I F. destruct borrowed; cbn [negb].
  2: { apply (wp_store_active _ _ (front received C b item)); [exact F | apply front_stable |].
       clear w I F. intros w I F. now apply OUT. }
  apply (wp_read_front received C b item); [exact F|]. clear w I F. intros w I F.
  apply wp_bind; [exact _ | exact I |].
  eapply wp_mono; cycle 1.
  { pose proof (VI C b item (borrow + 1) w I F) as W. unfold front_cursor, first_part_size in W.
    cbv zeta. rewrite json_size_small by exact S. exact W. }
  clear w I F. intros r w I [F HV].
  apply wp_bind; [exact _ | exact I |]. apply (wp_cursor_valid _ (front received C b item)); [exact F | apply front_stable |].
  clear w I F. intros retained w I F.
  apply (wp_cas_borrow _ _ _ (front received C b item)); [exact F | apply front_stable |]. clear w I F. intros _ w I F.
  apply (wp_store_active _ _ (front received C b item)); [exact F | apply front_stable |]. clear w I F. intros w I F.
  destruct retained; cbn [negb]; [|now apply OUT]. destruct r as [x [|]]; cbn [fst snd].
  - eapply wp_ret; [exact F | apply front_stable |]. intros w' _ F'. exists C, b, item. auto.
  - now apply (wp_consume received known V C b item x).
Qed.

(** ** Taking items, one after the other *)

Lemma last_byte s :
  0 < str_len s -> str_take (Z.to_nat (str_len s - 1)) s +++ String (byte_at s (str_len s - 1)) EmptyString = s.
Proof.
  intros L. destruct (split_text s (str_len s - 1)) as (a & b & E & LA & -> & _); [lia|].
  assert (str_len b = 1) as LB by (rewrite E, str_len_app in LA; lia).
  destruct b as [|c b]; [discriminate|]. destruct b as [|c' b]; [|unfold str_len in LB; cbn in LB; lia].
  rewrite <- LA at 1. rewrite E, byte_at_app by apply str_len_nonneg.
  destruct (Z.ltb_spec (str_len a) (str_len a)); [lia|]. now rewrite Z.sub_diag.
Qed.

Lemma valid_copy_delivers b item context c :
  copied b item (context, StreamIngressFrontAction.Keep) -> valid_copy context = Some c -> delivers c item.
Proof.
  intros [_ K] E. unfold valid_copy in E. cbn [fst] in K.
  destruct (copy_valid context) eqn:CV; [|discriminate]. cbn [negb orb] in *.
  destruct (K eq_refl) as (D & SC & SZ). rewrite D, SC, SZ in E.
  destruct (Z.eqb_spec (item_size item) 0) as [|NZ]; [discriminate|]. cbn [orb] in E.
  destruct (Ascii.eqb _ newline) eqn:NL; [|discriminate]. apply Ascii.eqb_eq in NL. injection E as <-.
  split; cbn [ci_descriptor ci_data ci_wire_bytes]; [reflexivity | | reflexivity].
  rewrite <- NL, <- text_size. apply last_byte. rewrite text_size. pose proof (item_size_nonneg item). lia.
Qed.

Lemma wp_copy_front received e w :
  ring_ok all w -> idle received w ->
  wwp (copy_front e)
    (fun r w => match r with
                | Ok (Some c) => exists C b item, front received C b item w /\ delivers c item
                | _ => idle received w
                end) w.
Proof.
  intros I0 H. unfold copy_front. apply wp_bind; [exact _ | exact I0 |].
  eapply wp_mono; cycle 1.
  { apply (wp_visit_front received None copied); [split; [exact H | discriminate]|].
    clear w I0 H. intros C b item borrow w I H. now apply wp_copy_item. }
  clear w I0 H. intros [r context] w I H. unfold visited in H. cbn [fst snd] in *.
  assert (idle received w -> forall o : result unit (option StreamCopiedItem),
    match o with Ok (Some _) => False | _ => True end ->
    wwp (Ret o) (fun r w => match r with
                | Ok (Some c) => exists C b item, front received C b item w /\ delivers c item
                | _ => idle received w
                end) w) as OUT.
  { intros D o N. apply (wp_ret _ _ _ _ _ (idle received)); [exact D | apply idle_stable |].
    intros w' _ D'. destruct o as [[|]|]; [contradiction | auto ..]. }
  destruct r; try (now apply OUT).
  - destruct H as (C & b & item & F & V). destruct (valid_copy context) as [c|] eqn:E.
    + apply (wp_ret _ _ _ _ _ (front received C b item)); [exact F | apply front_stable |].
      intros w' _ F'. exists C, b, item. split; [exact F'|]. eapply valid_copy_delivers; eauto.
    + apply OUT; [|exact Logic.I]. exact (front_idle _ _ _ _ _ F).
  - destruct H as (b & item & _ & _ & [K _]). discriminate.
Qed.

Lemma wp_consume_front received C b item e w :
  ring_ok all w -> front received C b item w ->
  wwp (consume_front e)
    (fun r w => if r : bool then after received item w else idle received w) w.
Proof.
  intros I0 [D H _ _]. unfold consume_front. apply wp_bind; [exact _ | exact I0 |].
  eapply wp_mono; cycle 1.
  { apply (wp_visit_front received (Some item) (fun _ _ r => snd r = StreamIngressFrontAction.Consume));
      [split; [exact D | now intros ? [= <-]]|].
    intros C' b' item' borrow w' I' H'. eapply wp_ret; [exact H' | apply front_stable | auto]. }
  clear w I0 D H. intros [r []] w I H. unfold visited in H. cbn [fst snd] in *.
  assert (idle received w -> wwp (Ret false) (fun (r : bool) w => if r then after received item w else idle received w) w)
    as OUT by (intros D; eapply wp_ret; [exact D | apply idle_stable | auto]).
  destruct r; try (now apply OUT).
  - destruct H as (? & ? & ? & _ & K). discriminate.
  - destruct H as (? & i & K & A & _). rewrite <- (K _ eq_refl) in A.
    eapply wp_ret; [exact A | apply after_stable | auto].
Qed.

Lemma wp_pop_front received e w :
  ring_ok all w -> idle received w ->
  wwp (pop_front e)
    (fun r => idle (received ++ match r with Ok (Some c) => [c] | _ => [] end)) w.
Proof.
  intros I0 H. unfold pop_front. apply wp_bind; [exact _ | exact I0 |].
  eapply wp_mono; cycle 1; [now apply (wp_copy_front received)|].
  clear w I0 H. intros r w I H. cbn beta in H. destruct r as [[c|]|[]].
  - destruct H as (C & b & item & F & DV). apply wp_bind; [exact _ | exact I |].
    eapply wp_mono; cycle 1; [now apply (wp_consume_front received C b item)|].
    clear w I F. intros [] w I H; cbn beta iota in H.
    + eapply wp_ret; [exact H | apply after_stable |]. intros w' _ [T (l & E & F)].
      split; [exact T|]. rewrite E. apply Forall2_app; [exact F|]. repeat constructor; apply DV.
    + eapply wp_ret; [exact H | apply idle_stable |]. now rewrite app_nil_r.
  - eapply wp_ret; [exact H | apply idle_stable |]. now rewrite app_nil_r.
  - eapply wp_ret; [exact H | apply idle_stable |]. now rewrite app_nil_r.
Qed.

Lemma wp_worker e polls received w :
  ring_ok all w -> idle received w ->
  wwp (worker e polls received)
    (fun r w => exists out, r = Received out /\ idle out w) w.
Proof.
  revert received w. induction polls as [|n IH]; intros received w I H; cbn [worker].
  - eapply wp_ret; [exact H | apply idle_stable | eauto].
  - apply wp_bind; [exact _ | exact I |]. eapply wp_mono; cycle 1; [now apply (wp_pop_front received)|].
    clear w I H. intros r w I H. cbn beta in H. destruct r as [[c|]|[]].
    + now apply IH.
    + rewrite app_nil_r in H. now apply IH.
    + rewrite app_nil_r in H. eapply wp_ret; [exact H | apply idle_stable | eauto].
Qed.
End worker.
