(* ===== verification/StreamDelivery.v ===== *)
(** The publisher and the worker of a subscription together: for every
    interleaving of their accesses, and of the control threads with them, the
    worker receives the items that match, byte for byte and in order, and no two
    accesses to the arrays collide. *)
From S2P Require Import Prelude RequestSession Interleaving StreamIngress StreamIngressFacts.
From S2P Require Import StreamPublisher StreamWorker.

(** * What the ring holds *)

(** The descriptor and the text behind a ticket. *)
Definition entry_at (s : StreamIngressSlot) (ticket : Z) : StreamIngressDescriptor * string :=
  let d := descriptors s (ticket mod kStreamQueueItems) in
  let physical := d_byte_ticket d mod kStreamQueueBytes in
  let first := Z.min (d_json_size d) (kStreamQueueBytes - physical) in
  (d, copy_out (bytes s) physical (Z.to_nat first)
      +++ copy_out (bytes s) 0 (Z.to_nat (d_json_size d - first))).

Definition ring_contents (s : StreamIngressSlot) : list (StreamIngressDescriptor * string) :=
  map (fun k => entry_at s (descriptor_consumer s + Z.of_nat k))
    (seq 0 (Z.to_nat (descriptor_producer s - descriptor_consumer s))).

(** An entry of the ring is an item that was published. *)
Definition stores (entry : StreamIngressDescriptor * string) (item : StreamItemView) : Prop :=
  fst entry = make_descriptor (d_byte_ticket (fst entry)) item /\ snd entry = text item.

(** A slot whose ring is empty, wherever its tickets stand. *)
Record empty_ring (s : StreamIngressSlot) : Prop := {
  em_items : descriptor_producer s = descriptor_consumer s;
  em_bytes : byte_producer s = byte_consumer s;
  em_ticket : 0 <= descriptor_consumer s <= u64_max;
  em_byte_ticket : 0 <= byte_consumer s <= u64_max
}.

(** * Collisions *)

(** The part of the arrays an effect accesses, and whether it writes. *)
Inductive access := Bytes (writes : bool) (offset size : Z) | Slot (writes : bool) (index : Z) | NoAccess.

Definition access_of {X} (e : slot_effect X) : access :=
  match e with
  | CopyIn offset data => Bytes true offset (str_len data)
  | CopyOut offset size => Bytes false offset size
  | Fill offset _ size => Bytes true offset size
  | ReadDescriptor index => Slot false index
  | WriteDescriptor index _ => Slot true index
  | _ => NoAccess
  end.

Definition collide (a b : access) : bool :=
  match a, b with
  | Bytes w o n, Bytes w' o' n' => (w || w') && (Z.max o o' <? Z.min (o + n) (o' + n'))
  | Slot w i, Slot w' j => (w || w') && (i =? j)
  | _, _ => false
  end.

Lemma permitted_disjoint all {X Y} (e : slot_effect X) (e' : slot_effect Y) w :
  ring_ok all w -> publisher_may X e w -> worker_may Y e' w ->
  collide (access_of e) (access_of e') = false.
Proof.
  intros R M M'.
  assert (forall o n o' n' t u, byte_producer (fst w) <= t -> t + n <= byte_consumer (fst w) + kStreamQueueBytes ->
            o = t mod kStreamQueueBytes -> byte_consumer (fst w) <= u -> u + n' <= byte_producer (fst w) ->
            o' = u mod kStreamQueueBytes -> (Z.max o o' <? Z.min (o + n) (o' + n')) = false) as D.
  { intros o n o' n' t u H1 H2 -> H3 H4 ->. apply Z.ltb_ge.
    destruct (Z.le_gt_cases (Z.min (t mod kStreamQueueBytes + n) (u mod kStreamQueueBytes + n'))
                (Z.max (t mod kStreamQueueBytes) (u mod kStreamQueueBytes))) as [|L]; [assumption|]. exfalso.
    set (p := Z.max (t mod kStreamQueueBytes) (u mod kStreamQueueBytes)) in *.
    assert (t + (p - t mod kStreamQueueBytes) = u + (p - u mod kStreamQueueBytes)) as E; [|lia].
    apply (mod_window kStreamQueueBytes); [lia|].
    rewrite <- (Z.add_mod_idemp_l t), <- (Z.add_mod_idemp_l u) by discriminate. f_equal. lia. }
  destruct e; cbn in M; try reflexivity; try contradiction; destruct e'; cbn in M'; try reflexivity;
    try contradiction; cbn [access_of collide orb andb].
  1, 2: destruct M as [-> M], M' as [-> M']; apply Z.eqb_neq; intros E; destruct R;
    apply mod_window in E; lia.
  all: destruct M as (t & ? & ? & ? & _), M' as (u & ? & ? & ? & _); eapply D; eauto.
Qed.

(** * The two threads *)
Section delivery.
Context (filter_ : PublishedIngressFilter) (items : list StreamItemView) (reservation_epoch : Z) (polls : nat).

Abbreviation all := (matching filter_ items).
Abbreviation threads := [publisher items; worker reservation_epoch polls []].
Abbreviation roles := [publisher_role; worker_role].

Definition post (i : nat) (r : finished) (w : world) : Prop :=
  match i with
  | O => r = Sent /\ ready filter_ items w
  | _ => exists out, r = Received out /\ idle out w
  end.

Definition nothing_yet (s : StreamIngressSlot) : auxiliary :=
  {| consumed := []; queue := []; base := byte_consumer s; taken := false |}.

Lemma empty_ring_ok s : empty_ring s -> ring_ok all (s, nothing_yet s).
Proof.
  intros []. unfold u64_max in *. pose proof capacities. unfold kStreamQueueItems, kStreamQueueBytes in *.
  constructor; cbn; auto; try discriminate; try (unfold u64_max, kStreamQueueItems, kStreamQueueBytes; lia).
  - unfold frontier. cbn. unfold u64_max. lia.
  - intros k item N. destruct k; discriminate.
  - now exists all.
Qed.

Lemma initially s :
  empty_ring s -> projection s = filter_ ->
  configured perform (ring_ok all) roles post threads (s, nothing_yet s).
Proof.
  intros E P. pose proof (empty_ring_ok s E) as I. split; [exact I|]. split; [reflexivity|].
  intros [|[|i]] r p R N; cbn in R, N; try (destruct i; discriminate); injection R as <-; injection N as <-.
  - apply (wp_publisher filter_ items items []); [reflexivity | | exact I].
    destruct E. split; cbn; auto. unfold frontier. cbn. lia.
  - apply wp_worker; [exact I|]. split; [reflexivity | constructor].
Qed.

Lemma delivery_safe s0 s ts :
  empty_ring s0 -> projection s0 = filter_ -> reaches perform environment (s0, threads) (s, ts) ->
  exists g, ring_ok all (s, g) /\ List.length ts = 2%nat
    /\ (forall i r X (e : slot_effect X) k, nth_error roles i = Some r -> nth_error ts i = Some (Do e k) ->
          may r X e (s, g) /\ perform X e s <> None)
    /\ (forall i a, (i < 2)%nat -> nth_error ts i = Some (Ret a) -> post i a (s, g)).
Proof.
  intros E P T. eapply (parallel_safe perform environment (ring_ok all) roles post);
    [| | | exact (initially s0 E P) | exact T].
  - intros [|[|i]] r R; cbn in R; try (destruct i; discriminate); injection R as <-; exact _.
  - intros [|[|i]] [|[|j]] ri rj N Ri Rj w w' _ _ G; cbn in Ri, Rj; try congruence;
      try (destruct i; discriminate); try (destruct j; discriminate);
      injection Ri as <-; injection Rj as <-; exact G.
  - intros x g x' V I. split; [eapply environment_ring; eauto|].
    intros [|[|i]] r R; cbn in R; try (destruct i; discriminate); injection R as <-;
      [now apply environment_worker | now apply environment_publisher].
Qed.

Lemma contents_queue s g :
  ring_ok all (s, g) -> taken g = false -> Forall2 stores (ring_contents s) (queue g).
Proof.
  intros R T. unfold ring_contents.
  replace (Z.to_nat (descriptor_producer s - descriptor_consumer s)) with (List.length (queue g))
    by (destruct R; cbn in *; lia).
  assert (forall l k, (forall j item, nth_error l j = Some item -> nth_error (queue g) (k + j) = Some item) ->
            Forall2 stores (map (fun k => entry_at s (descriptor_consumer s + Z.of_nat k)) (seq k (List.length l))) l)
    as G; [|apply G; auto].
  induction l as [|item l IH]; intros k H; cbn [seq List.length map]; constructor.
  - pose proof (H O item eq_refl) as N. rewrite Nat.add_0_r in N.
    destruct (ticket_range all (s, g) k item R N) as (_ & _ & S); [cbn; congruence|].
    destruct (ro_entries all (s, g) R k item N) as [D B]; [cbn; congruence|]. cbn [fst snd] in *.
    unfold entry_at, stores. rewrite D. cbn [fst snd]. split; [reflexivity|]. pose proof capacities.
    rewrite json_size_small by exact S. cbn [make_descriptor d_byte_ticket].
    rewrite <- text_size in B |- *. apply spans_read; [rewrite text_size; lia | exact B].
  - apply IH. intros j x N. specialize (H (S j) x N). now replace (S k + j)%nat with (k + S j)%nat by lia.
Qed.

(** C18.  The ring is a lossless queue: whatever the interleaving of publisher,
    worker and control threads, and wherever the tickets stand in the circular
    arrays, what the worker has received is, byte for byte and in order, an
    initial part of the published items that match the filter; and when both
    threads are done and the subscription is still open, what it received and
    what is left in the ring are together all of them. *)
Theorem ring_delivers s0 s tp tc out :
  empty_ring s0 -> projection s0 = filter_ ->
  reaches perform environment (s0, threads) (s, [tp; tc]) -> tc = Ret (Received out) ->
  exists delivered rest,
    Forall2 delivers out delivered /\ matching filter_ items = delivered ++ rest
    /\ (tp = Ret Sent -> terminal_cause s = StreamTerminalCause.Open -> is_published s = true ->
        Forall2 stores (ring_contents s) rest).
Proof.
  intros E P T ->. destruct (delivery_safe _ _ _ E P T) as (g & I & _ & _ & Q).
  destruct (Q 1%nat _ ltac:(lia) eq_refl) as (out' & [= <-] & [TK F]). cbn [snd] in *.
  destruct (ro_accepted _ _ I) as [more A]. unfold accepted in A. cbn [snd] in A.
  exists (consumed g), (queue g ++ more). split; [exact F|]. split; [now rewrite A, app_assoc|].
  intros -> OP PB. destruct (Q O _ ltac:(lia) eq_refl) as [_ [_ _ AC]]. specialize (AC OP PB).
  cbn [snd] in AC. unfold accepted in AC.
  assert (more = []) as -> by (rewrite <- AC in A; rewrite <- app_nil_r in A at 1; now apply app_inv_head in A).
  rewrite app_nil_r. now apply contents_queue.
Qed.

(** C19.  The two threads never collide: in every reachable state the next access
    of each is inside the arrays, and if both are about to access the same part
    of an array, neither writes.  This is what makes the block copies of the ring
    free of data races. *)
Theorem ring_race_free s0 s tp tc X Y (e : slot_effect X) (e' : slot_effect Y) k k' :
  empty_ring s0 -> projection s0 = filter_ ->
  reaches perform environment (s0, threads) (s, [tp; tc]) ->
  (tp = Do e k -> perform X e s <> None)
  /\ (tc = Do e' k' -> perform Y e' s <> None)
  /\ (tp = Do e k -> tc = Do e' k' -> collide (access_of e) (access_of e') = false).
Proof.
  intros E P T. destruct (delivery_safe _ _ _ E P T) as (g & I & _ & M & _). repeat split.
  - intros ->. exact (proj2 (M O _ X e k eq_refl eq_refl)).
  - intros ->. exact (proj2 (M 1%nat _ Y e' k' eq_refl eq_refl)).
  - intros -> ->. eapply permitted_disjoint; [exact I | |].
    + exact (proj1 (M O _ X e k eq_refl eq_refl)).
    + exact (proj1 (M 1%nat _ Y e' k' eq_refl eq_refl)).
Qed.
End delivery.

(** * A run across the end of the arrays *)

Definition sample_filter : PublishedIngressFilter :=
  {| f_client_id := 1; f_generation := 1; f_activation_receive_sequence := 0; f_chat_ids := [7];
     f_chat_count := 1; f_type_mask := 1; f_mode := StreamMode.Items; f_operation := StreamOperation.Listen |}.

Definition sample_item (a b : string) (sequence : Z) : StreamItemView :=
  {| first_ := a; second_ := b; sequence_ := sequence;
     routing_ := {| r_event_class := StreamEventClass.Message; r_chat_id := 7;
                    r_sender_kind := StreamSenderKind.User; r_sender_id := 3; r_json_offset := 0;
                    r_json_size := 0; r_message_offset := 0; r_message_size := 0; r_text_offset := 0;
                    r_text_size := 0 |} |}.

Definition sample_items : list StreamItemView :=
  [sample_item "{}" (String newline EmptyString) 1;
   sample_item "[1," ("2]" +++ String newline EmptyString) 2].

(** The last descriptor and the last four bytes of the arrays are next. *)
Definition sample_slot : StreamIngressSlot :=
  {| sl_state := 4; epoch := 5; borrow_epoch := 0; active_borrows := 0;
     activation_commit := ActivationCommit.PromotionCommitted; projection := sample_filter;
     descriptors := fun _ => poisoned_descriptor; bytes := fun _ => poison_byte;
     descriptor_producer := 1023; descriptor_consumer := 1023;
     byte_producer := 8388604; byte_consumer := 8388604;
     terminal_cause := StreamTerminalCause.Open;
     terminal_payload := terminal_payload_for StreamTerminalCause.Open StreamOperation.Listen |}.

Definition sample_start := (sample_slot, [publisher sample_items; worker 5 2 []]).

Lemma sample_empty : empty_ring sample_slot.
Proof. constructor; cbn; unfold u64_max; lia. Qed.

(** The publisher puts the second item in while the worker copies the first. *)
Definition sample_schedule : list nat := repeat O 12 ++ repeat 1%nat 30 ++ repeat O 13 ++ repeat 1%nat 98.

Definition received_both (c : option (StreamIngressSlot * list (slot_thread finished))) : bool :=
  match c with
  | Some (_, [Ret Sent; Ret (Received [a; b])]) =>
      String.eqb (ci_data a) "{}" && String.eqb (ci_data b) "[1,2]"
  | _ => false
  end.

Lemma sample_reaches :
  exists s out, reaches perform environment sample_start (s, [Ret Sent; Ret (Received out)])
                /\ map ci_data out = ["{}"; "[1,2]"].
Proof.
  assert (received_both (run_schedule perform sample_schedule sample_start) = true) as H
    by (vm_compute; reflexivity).
  destruct (run_schedule perform sample_schedule sample_start) as [[s l]|] eqn:E; [|discriminate].
  apply (run_reaches perform environment) in E.
  destruct l as [|[[|]|] [|[[|[|a [|b [|]]]]|] [|]]]; try discriminate.
  exists s, [a; b]. split; [exact E|]. cbn in H |- *.
  apply andb_prop in H as [Ha Hb]. apply String.eqb_eq in Ha, Hb. now rewrite Ha, Hb.
Qed.

Lemma ring_delivers_witness :
  exists s out delivered rest,
    reaches perform environment sample_start (s, [Ret Sent; Ret (Received out)])
    /\ map ci_data out = ["{}"; "[1,2]"]
    /\ Forall2 delivers out delivered /\ matching sample_filter sample_items = delivered ++ rest.
Proof.
  destruct sample_reaches as (s & out & R & D).
  destruct (ring_delivers sample_filter sample_items 5 2 sample_slot s (Ret Sent) _ out
              sample_empty eq_refl R eq_refl) as (delivered & rest & F & M & _).
  exists s, out, delivered, rest. auto.
Defined.

(** Both threads are about to copy. *)
Definition copying_together (c : option (StreamIngressSlot * list (slot_thread finished))) : bool :=
  match c with
  | Some (_, [Do e _; Do e' _]) =>
      match access_of e, access_of e' with Bytes true _ _, Bytes false _ _ => true | _, _ => false end
  | _ => false
  end.

Lemma ring_race_free_witness :
  exists s X Y (e : slot_effect X) (e' : slot_effect Y) k k',
    reaches perform environment sample_start (s, [Do e k; Do e' k'])
    /\ perform X e s <> None /\ perform Y e' s <> None
    /\ collide (access_of e) (access_of e') = false
    /\ match access_of e, access_of e' with Bytes true _ _, Bytes false _ _ => true | _, _ => false end = true.
Proof.
  assert (copying_together (run_schedule perform (repeat O 12 ++ repeat 1%nat 21 ++ repeat O 7) sample_start) = true)
    as H by (vm_compute; reflexivity).
  destruct (run_schedule _ _ _) as [[s l]|] eqn:E; [|discriminate].
  apply (run_reaches perform environment) in E.
  destruct l as [|[|X e k] [|[|Y e' k'] [|]]]; try discriminate.
  destruct (ring_race_free sample_filter sample_items 5 2 sample_slot s _ _ X Y e e' k k' sample_empty eq_refl E)
    as (A & B & C).
  exists s, X, Y, e, e', k, k'. auto 10.
Defined.
