(* ===== verification/StreamClaims.v ===== *)
(** The arbitration of the terminal cause of a subscription: any number of
    threads claim it with a payload of their own; one wins, and whoever sees a
    ready cause sees the winner's payload complete. *)
From Stdlib Require Import RelationClasses.
From S2P Require Import Prelude RequestSession Interleaving StreamIngress StreamIngressFacts.
From S2P Require Import StreamPublisher.

(** Other threads change other members. *)
Definition elsewhere (s s' : StreamIngressSlot) : Prop :=
  terminal_cause s' = terminal_cause s /\ terminal_payload s' = terminal_payload s.

(** The auxiliary variable: the thread that won. *)
Abbreviation claims := (StreamIngressSlot * option nat)%type.

Section claims.
Context (payloads : list StreamTerminalPayload).

Definition own_payload (i : nat) (p : StreamTerminalPayload) : Prop := nth_error payloads i = Some p.

(** The cause is claimed by the winner, then published with its payload. *)
Definition arbitrated (w : claims) : Prop :=
  match snd w with
  | None => terminal_cause (fst w) = StreamTerminalCause.Open
  | Some i =>
      exists p, own_payload i p /\ claiming_cause (p_cause p) <> StreamTerminalCause.Open
        /\ (terminal_cause (fst w) = claiming_cause (p_cause p)
            \/ (terminal_cause (fst w) = p_cause p /\ terminal_payload (fst w) = p))
  end.

(** What thread [i] does to the terminal: it may win, and only the winner writes. *)
Record claims_by (i : nat) (w w' : claims) : Prop := {
  cb_winner : snd w' = snd w \/ (snd w = None /\ snd w' = Some i);
  cb_terminal : snd w' = Some i \/ elsewhere (fst w) (fst w')
}.

(** What the other threads may do, as seen by thread [i]. *)
Record claims_around (i : nat) (w w' : claims) : Prop := {
  ca_won : snd w = Some i -> snd w' = Some i /\ elsewhere (fst w) (fst w');
  ca_lost : snd w <> None -> snd w' = snd w;
  ca_not_mine : snd w' = Some i -> snd w = Some i
}.

Definition claimer (i : nat) : role slot_effect StreamIngressSlot (option nat) :=
  {| rely := claims_around i; guar := claims_by i; may := fun _ _ _ => True |}.

#[export] Instance claimer_ok i : role_ok (claimer i).
Proof.
  split; cbn.
  - split.
    + intros w. split; auto. intros E. split; [exact E | now split].
    + intros a b c [W L M] [W' L' M']. split.
      * intros E. destruct (W E) as [E1 [T P]]. destruct (W' E1) as [E2 [T' P']].
        split; [exact E2|]. split; congruence.
      * intros N. rewrite L', L; auto. rewrite L; auto.
      * auto.
  - intros w. split; [now left | right; now split].
Qed.

Lemma claimers_compatible i j w w' :
  i <> j -> claims_by i w w' -> claims_around j w w'.
Proof.
  intros N [W T]. split.
  - intros E. destruct W as [W|[W _]]; [|congruence]. split; [congruence|].
    destruct T as [T|T]; [congruence | exact T].
  - intros E. destruct W as [W|[W _]]; congruence.
  - intros E. destruct W as [W|[_ W]]; congruence.
Qed.

Abbreviation cwp i := (wp perform arbitrated (claimer i)).

(** The thread lost or has not tried. *)
Definition not_winner (i : nat) (w : claims) : Prop := snd w <> Some i.

Lemma not_winner_stable i : stable (claimer i) (not_winner i).
Proof. intros w w' H [_ _ M] E. apply H, M, E. Qed.

(** Somebody else won. *)
Definition loser (i : nat) (w : claims) : Prop := snd w <> Some i /\ snd w <> None.

Lemma loser_stable i : stable (claimer i) (loser i).
Proof. intros w w' [H N] [_ L M]. unfold loser. rewrite (L N). now split. Qed.

(** The thread won and its payload [n] steps further: claimed, stored, published. *)
Record winner (i : nat) (p : StreamTerminalPayload) (n : nat) (w : claims) : Prop := {
  wi_winner : snd w = Some i;
  wi_cause : terminal_cause (fst w) = if (n <? 2)%nat then claiming_cause (p_cause p) else p_cause p;
  wi_payload : (1 <= n)%nat -> terminal_payload (fst w) = p
}.

Lemma winner_stable i p n : stable (claimer i) (winner i p n).
Proof.
  intros w w' [E C P] [W _ _]. destruct (W E) as [E' [T Y]]. split; [exact E' | congruence |].
  intros N. rewrite Y. auto.
Qed.

(** An effect on other members. *)
Lemma wp_elsewhere {A X} i (e : slot_effect X) (k : X -> slot_thread A) P Q w :
  P w -> stable (claimer i) P ->
  (forall s, exists x s', perform X e s = Some (x, s') /\ elsewhere s s') ->
  (forall s s' g, elsewhere s s' -> P (s, g) -> P (s', g)) ->
  (forall x w, arbitrated w -> P w -> cwp i (k x) Q w) ->
  cwp i (tbind (act e) k) Q w.
Proof.
  intros H T EX FR K. apply (wp_write _ _ _ _ _ P); [exact H | exact T |]. intros s g I HP.
  split; [exact Logic.I|]. destruct (EX s) as (x & s' & E & V). exists x, s', g. split; [exact E|].
  assert (arbitrated (s', g)) as I'.
  { destruct V as [V1 V2]. unfold arbitrated in *. cbn in *. rewrite V1, V2. exact I. }
  split; [split; [now left | right; exact V]|]. split; [exact I'|]. eauto.
Qed.

Lemma wp_cancelled i (b : bool) P (Q : unit -> claims -> Prop) w :
  P w -> stable (claimer i) P -> (forall s s' g, elsewhere s s' -> P (s, g) -> P (s', g)) ->
  (forall w', arbitrated w' -> P w' -> Q tt w') ->
  cwp i (if b then act (StoreActivation ActivationCommit.Cancelled) else Ret tt) Q w.
Proof.
  intros H T FR K. destruct b.
  - apply wp_act, (wp_elsewhere i _ _ P); auto.
    + intros s. do 2 eexists. split; [reflexivity|]. now destruct s.
    + intros [] w' I' H'. eapply wp_ret; eauto.
  - eapply wp_ret; eauto.
Qed.

(** The outcome of a claim. *)
Definition claimed (i : nat) (p : StreamTerminalPayload) (r : bool) (w : claims) : Prop :=
  if r then winner i p 2 w
  else if cause_eqb (claiming_cause (p_cause p)) StreamTerminalCause.Open then not_winner i w
  else loser i w.

Lemma wp_claims i p w :
  own_payload i p -> arbitrated w -> not_winner i w -> cwp i (claim p) (claimed i p) w.
Proof.
  intros OP I0 H. unfold claim, claimed.
  destruct (cause_eqb_spec (claiming_cause (p_cause p)) StreamTerminalCause.Open) as [O|O].
  { eapply wp_ret; [exact H | apply not_winner_stable | auto]. }
  apply (wp_elsewhere i _ _ (not_winner i)); [exact H | apply not_winner_stable | | auto |].
  { intros s. unfold perform. destruct (activation_commit s); do 2 eexists; (split; [reflexivity|]); now destruct s. }
  clear w I0 H. intros b w I H.
  apply (wp_write _ _ _ _ _ (not_winner i)); [exact H | apply not_winner_stable |].
  clear w I H. intros s g I H. split; [exact Logic.I|].
  destruct (cause_eqb_spec (terminal_cause s) StreamTerminalCause.Open) as [T|T].
  - assert (g = None) as ->.
    { destruct g as [j|]; [|reflexivity]. destruct I as (q & _ & N & [E|[E _]]); cbn in *; [congruence|].
      rewrite T in E. now rewrite <- E in N. }
    assert (exists s', perform _ (CasTerminal StreamTerminalCause.Open (claiming_cause (p_cause p))) s = Some (true, s')
                       /\ terminal_cause s' = claiming_cause (p_cause p)) as (s' & E & C).
    { cbn [perform]. rewrite T. eexists. split; [reflexivity|]. now destruct s. }
    exists true, s', (Some i). split; [exact E|]. split; [split; [now right | now left]|].
    split; [exists p; auto|]. cbn [negb].
    assert (winner i p 0 (s', Some i)) as W by (split; auto; lia). clear - OP O W.
    apply (wp_write _ _ _ _ _ (winner i p 0)); [exact W | apply winner_stable |].
    clear s' W. intros s g I [W C _]; cbn [fst snd] in *. subst g. split; [exact Logic.I|].
    assert (exists s', perform _ (StorePayload p) s = Some (tt, s')
                       /\ terminal_cause s' = terminal_cause s /\ terminal_payload s' = p) as (s' & E & C' & P').
    { eexists. split; [reflexivity|]. now destruct s. }
    exists tt, s', (Some i). split; [exact E|]. split; [split; [now left | now left]|].
    cbn in C. rewrite C in C'. split; [exists p; auto|].
    assert (winner i p 1 (s', Some i)) as W by (split; auto). clear - OP O W.
    apply (wp_write _ _ _ _ _ (winner i p 1)); [exact W | apply winner_stable |].
    clear s' W. intros s g I [W C P]; cbn [fst snd] in *. subst g. specialize (P ltac:(lia)). split; [exact Logic.I|].
    assert (exists s', perform _ (StoreTerminal (p_cause p)) s = Some (tt, s')
                       /\ terminal_cause s' = p_cause p /\ terminal_payload s' = terminal_payload s)
      as (s' & E & C' & P').
    { eexists. split; [reflexivity|]. now destruct s. }
    rewrite P in P'. exists tt, s', (Some i). split; [exact E|]. split; [split; [now left | now left]|].
    assert (arbitrated (s', Some i)) as I' by (exists p; auto). split; [exact I'|].
    assert (winner i p 2 (s', Some i)) as W by (split; auto). clear - OP O W I'.
    apply wp_bind; [exact _ | exact I' |]. apply (wp_cancelled i b (winner i p 2)); [exact W | apply winner_stable | |].
    { intros x x' g [T Y] [A B C]. cbn in *. split; cbn; [exact A | congruence | intros N; rewrite Y; auto]. }
    intros w' _ W'. eapply wp_ret; [exact W' | apply winner_stable | auto].
  - assert (perform _ (CasTerminal StreamTerminalCause.Open (claiming_cause (p_cause p))) s = Some (false, s)) as E.
    { cbn [perform]. destruct (cause_eqb_spec (terminal_cause s) StreamTerminalCause.Open); [contradiction | reflexivity]. }
    exists false, s, g. split; [exact E|]. split; [split; [now left | right; now split]|]. split; [exact I|].
    assert (loser i (s, g)) as L.
    { split; [exact H|]. cbn. intros ->. apply T. exact I. }
    cbn [negb]. apply wp_bind; [exact _ | exact I |].
    apply (wp_cancelled i b (loser i)); [exact L | apply loser_stable | auto |].
    intros w' _ L'. eapply wp_ret; [exact L' | apply loser_stable |]. intros w'' _ H''. exact H''.
Qed.

(** * All threads together *)

Definition claimers : list (role slot_effect StreamIngressSlot (option nat)) :=
  map claimer (seq 0 (List.length payloads)).

Lemma claimers_nth i r : nth_error claimers i = Some r -> r = claimer i /\ exists p, own_payload i p.
Proof.
  unfold claimers, own_payload. intros H. rewrite nth_error_map in H.
  destruct (nth_error (seq 0 (List.length payloads)) i) as [j|] eqn:E; [|discriminate]. injection H as <-.
  assert (i < List.length payloads)%nat as L.
  { rewrite <- (length_seq (List.length payloads) 0). apply nth_error_Some. congruence. }
  apply nth_error_nth with (d := O) in E. rewrite seq_nth in E by exact L. subst j. split; [reflexivity|].
  destruct (nth_error payloads i) as [p|] eqn:N; [eauto|]. apply nth_error_None in N. lia.
Qed.

Definition claim_post (i : nat) (r : bool) (w : claims) : Prop :=
  forall p, own_payload i p -> claimed i p r w.

Lemma claims_safe s0 s ts :
  terminal_cause s0 = StreamTerminalCause.Open ->
  reaches perform elsewhere (s0, map claim payloads) (s, ts) ->
  exists g, arbitrated (s, g) /\ List.length ts = List.length payloads
    /\ forall i p r, own_payload i p -> nth_error ts i = Some (Ret r) -> claimed i p r (s, g).
Proof.
  intros O T.
  destruct (parallel_safe perform elsewhere arbitrated claimers claim_post) with
    (s := s0) (g := @None nat) (threads := map claim payloads) (s' := s) (threads' := ts)
    as (g & I & L & _ & Q); [| | | | exact T |].
  - intros i r R. destruct (claimers_nth i r R) as [-> _]. exact _.
  - intros i j ri rj N Ri Rj w w' _ _ H. destruct (claimers_nth _ _ Ri) as [-> _], (claimers_nth _ _ Rj) as [-> _].
    exact (claimers_compatible i j w w' N H).
  - intros x g x' [V1 V2] I. split.
    + unfold arbitrated in *. cbn in *. now rewrite V1, V2.
    + intros i r R. destruct (claimers_nth _ _ R) as [-> _]. cbn. split; auto.
      intros E. split; [exact E | now split].
  - split; [exact O|]. split; [unfold claimers; now rewrite !length_map, length_seq|].
    intros i r p R N. destruct (claimers_nth _ _ R) as [-> [pl OP]].
    rewrite nth_error_map in N. unfold own_payload in OP. rewrite OP in N. injection N as <-.
    eapply wp_mono; [|apply wp_claims; [exact OP | exact O | discriminate]].
    intros a w _ H q Hq. unfold own_payload in Hq. congruence.
  - unfold claimers in L. rewrite length_map, length_seq in L. exists g. split; [exact I|]. split; [exact L|].
    intros i p r OP N. refine (Q i r _ N p OP). unfold claimers. rewrite length_map, length_seq.
    apply nth_error_Some. unfold own_payload in OP. congruence.
Qed.

Lemma ready_claiming c : ready_cause c = negb (cause_eqb (claiming_cause c) StreamTerminalCause.Open).
Proof. destruct c; reflexivity. Qed.

Lemma claiming_not_ready c : ready_cause (claiming_cause c) = false.
Proof. destruct c; reflexivity. Qed.

(** C29.  However many threads claim the terminal cause of a subscription, at most
    one of them succeeds; its cause and payload are then in place for good, a
    reader that sees a ready cause reads the complete payload that belongs to it,
    and once all have returned, one has succeeded if any had a cause to claim. *)
Theorem terminal_claimed_once s0 s ts :
  terminal_cause s0 = StreamTerminalCause.Open ->
  reaches perform elsewhere (s0, map claim payloads) (s, ts) ->
  (forall i j, nth_error ts i = Some (Ret true) -> nth_error ts j = Some (Ret true) -> i = j)
  /\ (forall i p, nth_error payloads i = Some p -> nth_error ts i = Some (Ret true) ->
        terminal_cause s = p_cause p /\ terminal_payload s = p)
  /\ (ready_cause (terminal_cause s) = true ->
      exists p, In p payloads /\ terminal_cause s = p_cause p /\ terminal_payload s = p)
  /\ ((forall t, In t ts -> exists r, t = Ret r) ->
      (exists p, In p payloads /\ ready_cause (p_cause p) = true) ->
      exists i, nth_error ts i = Some (Ret true)).
Proof.
  intros O T. destruct (claims_safe s0 s ts O T) as (g & I & L & C).
  assert (forall i, nth_error ts i = Some (Ret true) -> exists p, own_payload i p /\ winner i p 2 (s, g)) as W.
  { intros i N. destruct (nth_error payloads i) as [p|] eqn:P; [|].
    - exists p. split; [exact P | exact (C i p true P N)].
    - apply nth_error_None in P. assert (nth_error ts i <> None) as H by congruence.
      apply nth_error_Some in H. lia. }
  split; [|split; [|split]].
  - intros i j Ni Nj. destruct (W i Ni) as (p & _ & [Wi _ _]), (W j Nj) as (q & _ & [Wj _ _]). cbn in *. congruence.
  - intros i p P N. destruct (C i p true P N) as [_ TC TP]. split; [exact TC | apply TP; lia].
  - intros R. destruct g as [i|]; [|cbn in I; rewrite I in R; discriminate].
    destruct I as (p & OP & _ & [E|[E Y]]); cbn in E; [rewrite E, claiming_not_ready in R; discriminate|].
    exists p. split; [exact (nth_error_In _ _ OP) | auto].
  - intros D (p & IN & R). apply In_nth_error in IN as [i P].
    assert (i < List.length ts)%nat as LT by (rewrite L; apply nth_error_Some; congruence).
    assert (forall j, (j < List.length ts)%nat -> exists r, nth_error ts j = Some (Ret r)) as ALL.
    { intros j LJ. destruct (nth_error ts j) as [t|] eqn:N; [|apply nth_error_None in N; lia].
      destruct (D t (nth_error_In _ _ N)) as [r ->]. eauto. }
    destruct (ALL i LT) as [[] N]; [eauto|]. specialize (C i p false P N) as F. unfold claimed in F.
    rewrite ready_claiming in R. apply negb_true_iff in R. rewrite R in F. destruct F as [_ F]. cbn in F.
    destruct g as [j|]; [|congruence]. destruct I as (q & OQ & NQ & _).
    assert (j < List.length ts)%nat as LJ.
    { rewrite L. apply nth_error_Some. unfold own_payload in OQ. congruence. }
    destruct (ALL j LJ) as [[] NJ]; [eauto|]. exfalso. specialize (C j q false OQ NJ) as H. unfold claimed in H.
    destruct (cause_eqb_spec (claiming_cause (p_cause q)) StreamTerminalCause.Open); [contradiction|].
    destruct H as [H _]. now apply H.
Qed.
End claims.

(** * Two claims that meet *)

Definition sample_payloads : list StreamTerminalPayload :=
  [terminal_payload_for StreamTerminalCause.Deadline StreamOperation.Listen;
   terminal_payload_for StreamTerminalCause.Shutdown StreamOperation.Listen].

Definition claim_slot (filter_ : PublishedIngressFilter) : StreamIngressSlot :=
  {| sl_state := 4; epoch := 1; borrow_epoch := 0; active_borrows := 0;
     activation_commit := ActivationCommit.Prepared; projection := filter_;
     descriptors := fun _ => poisoned_descriptor; bytes := fun _ => poison_byte;
     descriptor_producer := 0; descriptor_consumer := 0; byte_producer := 0; byte_consumer := 0;
     terminal_cause := StreamTerminalCause.Open;
     terminal_payload := terminal_payload_for StreamTerminalCause.Open StreamOperation.Listen |}.

Definition any_filter : PublishedIngressFilter :=
  {| f_client_id := 1; f_generation := 1; f_activation_receive_sequence := 0; f_chat_ids := [];
     f_chat_count := 0; f_type_mask := 1; f_mode := StreamMode.Items; f_operation := StreamOperation.Listen |}.

(** The second thread wins although the first took the activation. *)
Definition second_wins (c : option (StreamIngressSlot * list (slot_thread bool))) : bool :=
  match c with
  | Some (s, [Ret false; Ret true]) => cause_eqb (terminal_cause s) StreamTerminalCause.Shutdown
  | _ => false
  end.

Lemma terminal_claimed_once_witness :
  exists s, reaches perform elsewhere (claim_slot any_filter, map claim sample_payloads) (s, [Ret false; Ret true])
    /\ terminal_cause s = StreamTerminalCause.Shutdown
    /\ terminal_payload s = terminal_payload_for StreamTerminalCause.Shutdown StreamOperation.Listen.
Proof.
  assert (second_wins (run_schedule perform [0; 1; 1; 0; 1; 0; 1]%nat
                         (claim_slot any_filter, map claim sample_payloads)) = true) as H
    by (vm_compute; reflexivity).
  destruct (run_schedule _ _ _) as [[s l]|] eqn:E; [|discriminate].
  apply (run_reaches perform elsewhere) in E.
  destruct l as [|[[|]|] [|[[|]|] [|]]]; try discriminate.
  exists s. split; [exact E|].
  destruct (terminal_claimed_once sample_payloads (claim_slot any_filter) s _ eq_refl E) as (_ & W & _).
  exact (W 1%nat _ eq_refl eq_refl).
Defined.
