(* ===== verification/StreamPoll.v ===== *)
(** The schedule of the polls of a stream worker: [StreamPollSchedule] of
    src/src/daemon/stream_ingress.cpp.  Time points are the 64-bit nanosecond
    counts of the steady clock. *)
From S2P Require Import Prelude.

(** [kStreamWorkerPollInterval], two milliseconds, in ticks. *)
Definition kStreamWorkerPollInterval : Z := 2000000.

(** * Arithmetic on signed counts through unsigned ones *)

Definition magnitude (value : Z) : Z :=
  if 0 <=? value then u64 value else u64 (u64 (- (value + 1)) + 1).

Definition distance (lower upper : Z) : Z :=
  if 0 <=? lower then u64 (u64 upper - u64 lower)
  else if upper <? 0 then u64 (magnitude lower - magnitude upper)
  else u64 (magnitude lower + u64 upper).

Definition add_nonnegative (base delta : Z) : Z :=
  if 0 <=? base then i64_of (u64 (u64 base + delta))
  else
    let base_magnitude := magnitude base in
    if delta <? base_magnitude then
      let result_magnitude := u64 (base_magnitude - delta) in
      if result_magnitude =? magnitude i64_min then i64_min
      else - i64_of result_magnitude
    else i64_of (u64 (delta - base_magnitude)).

Definition saturating_add (base positive : Z) : Z :=
  let increment := u64 positive in
  let room := distance base i64_max in
  if room <? increment then i64_max else add_nonnegative base increment.

(** * The schedule *)

Record StreamPollSchedule := { next_poll_ : Z }.

Definition new_schedule (now : Z) : StreamPollSchedule :=
  {| next_poll_ := saturating_add now kStreamWorkerPollInterval |}.

Definition next (s : StreamPollSchedule) (deadline : option Z) : Z :=
  match deadline with
  | Some d => if d <? next_poll_ s then d else next_poll_ s
  | None => next_poll_ s
  end.

Definition advance (now : Z) (s : StreamPollSchedule) : StreamPollSchedule :=
  if (now <? next_poll_ s) || (next_poll_ s =? i64_max) then s
  else
    let interval := u64 kStreamWorkerPollInterval in
    let elapsed := distance (next_poll_ s) now in
    let skipped := u64 (elapsed / interval + 1) in
    let room := distance (next_poll_ s) i64_max in
    if room / interval <? skipped then {| next_poll_ := i64_max |}
    else {| next_poll_ := add_nonnegative (next_poll_ s) (u64 (skipped * interval)) |}.

(** * The arithmetic is exact *)

Definition is_i64 (z : Z) : Prop := i64_min <= z <= i64_max.

Lemma magnitude_exact v : is_i64 v -> magnitude v = Z.abs v.
Proof.
  intros [L U]. unfold magnitude, i64_min, i64_max in *. destruct (Z.leb_spec 0 v).
  - rewrite u64_small by (unfold u64_max; lia). lia.
  - rewrite (u64_small (- (v + 1))) by (unfold u64_max; lia). rewrite u64_small by (unfold u64_max; lia). lia.
Qed.

Lemma distance_exact lower upper : is_i64 lower -> is_i64 upper -> lower <= upper ->
  distance lower upper = upper - lower.
Proof.
  intros L U H. unfold distance. rewrite !magnitude_exact by assumption. destruct L as [L L'], U as [U U'].
  unfold i64_min, i64_max in *. destruct (Z.leb_spec 0 lower).
  - rewrite (u64_small upper), (u64_small lower) by (unfold u64_max; lia). apply u64_small. unfold u64_max. lia.
  - destruct (Z.ltb_spec upper 0).
    + rewrite u64_small by (unfold u64_max; lia). lia.
    + rewrite (u64_small upper), u64_small by (unfold u64_max; lia). lia.
Qed.

Lemma add_nonnegative_exact base delta :
  is_i64 base -> 0 <= delta -> base + delta <= i64_max -> add_nonnegative base delta = base + delta.
Proof.
  intros B D S. unfold add_nonnegative. rewrite !magnitude_exact by (try exact B; unfold is_i64, i64_min, i64_max; lia).
  destruct B as [L U]. unfold i64_min, i64_max in *. destruct (Z.leb_spec 0 base).
  - rewrite (u64_small base), u64_small by (unfold u64_max; lia). apply i64_of_small. unfold i64_min, i64_max. lia.
  - destruct (Z.ltb_spec delta (Z.abs base)).
    + rewrite u64_small by (unfold u64_max; lia).
      destruct (Z.eqb_spec (Z.abs base - delta) (Z.abs (-9223372036854775808))); [lia|].
      rewrite i64_of_small by (unfold i64_min, i64_max; lia). lia.
    + rewrite u64_small by (unfold u64_max; lia). rewrite i64_of_small by (unfold i64_min, i64_max; lia). lia.
Qed.

Lemma saturating_add_exact base : is_i64 base ->
  saturating_add base kStreamWorkerPollInterval = Z.min i64_max (base + kStreamWorkerPollInterval).
Proof.
  intros B. unfold saturating_add.
  rewrite (distance_exact base i64_max) by (try assumption; destruct B; unfold is_i64, i64_min, i64_max in *; lia).
  rewrite u64_small by (unfold u64_max, kStreamWorkerPollInterval; lia).
  destruct (Z.ltb_spec (i64_max - base) kStreamWorkerPollInterval).
  - lia.
  - rewrite add_nonnegative_exact by (try assumption; unfold kStreamWorkerPollInterval in *; lia). lia.
Qed.

(** The polls of a schedule that started at [start]. *)
Fixpoint advance_all (s : StreamPollSchedule) (times : list Z) : StreamPollSchedule :=
  match times with [] => s | now :: times => advance_all (advance now s) times end.

Lemma advance_exact now s : is_i64 now -> is_i64 (next_poll_ s) ->
  next_poll_ (advance now s) =
  if now <? next_poll_ s then next_poll_ s
  else Z.min i64_max (next_poll_ s + ((now - next_poll_ s) / kStreamWorkerPollInterval + 1) * kStreamWorkerPollInterval).
Proof.
  intros N P. unfold advance. destruct (Z.ltb_spec now (next_poll_ s)) as [|LE]; [reflexivity|]. cbn [orb].
  assert (0 <= (now - next_poll_ s) / kStreamWorkerPollInterval) as Q
    by (apply Z.div_pos; [lia | reflexivity]).
  assert ((now - next_poll_ s) / kStreamWorkerPollInterval <= now - next_poll_ s) as Q'
    by (apply Z.div_le_upper_bound; unfold kStreamWorkerPollInterval; lia).
  destruct (Z.eqb_spec (next_poll_ s) i64_max) as [E|NE].
  { rewrite E in *. unfold kStreamWorkerPollInterval in *. lia. }
  pose proof N as [N1 N2]. pose proof P as [P1 P2].
  rewrite (distance_exact _ now), (distance_exact _ i64_max)
    by (try assumption; unfold is_i64, i64_min, i64_max in *; lia).
  rewrite (u64_small kStreamWorkerPollInterval) by (unfold u64_max, kStreamWorkerPollInterval; lia).
  set (q := (now - next_poll_ s) / kStreamWorkerPollInterval) in *.
  assert (q * kStreamWorkerPollInterval <= now - next_poll_ s) as QM
    by (unfold q; rewrite Z.mul_comm; apply Z.mul_div_le; reflexivity).
  rewrite (u64_small (q + 1)) by (unfold u64_max, kStreamWorkerPollInterval, i64_min, i64_max in *; lia).
  assert ((i64_max - next_poll_ s) / kStreamWorkerPollInterval < q + 1 <->
          i64_max - next_poll_ s < (q + 1) * kStreamWorkerPollInterval) as S.
  { unfold kStreamWorkerPollInterval. pose proof (Z.div_mod (i64_max - next_poll_ s) 2000000).
    pose proof (Z.mod_pos_bound (i64_max - next_poll_ s) 2000000). lia. }
  destruct (Z.ltb_spec ((i64_max - next_poll_ s) / kStreamWorkerPollInterval) (q + 1)) as [LT|GE]; cbn [next_poll_].
  - apply S in LT. lia.
  - assert ((q + 1) * kStreamWorkerPollInterval <= i64_max - next_poll_ s) as LE' by lia.
    rewrite u64_small by (unfold u64_max, kStreamWorkerPollInterval, i64_min, i64_max in *; lia).
    rewrite add_nonnegative_exact by (try assumption; unfold kStreamWorkerPollInterval in *; lia). lia.
Qed.

(** The polls of a worker do not drift and never overflow: after any sequence
    of wake-ups, the next poll is the start plus a whole number of intervals,
    unless the end of the clock is reached; a poll that is due moves to the first
    such instant after the wake-up, and one that is not due stays. *)
Theorem poll_schedule_exact start times now :
  is_i64 start -> Forall is_i64 times -> is_i64 now ->
  let s := advance_all (new_schedule start) times in
  let s' := advance now s in
  (exists n, 0 < n /\ next_poll_ s = Z.min i64_max (start + n * kStreamWorkerPollInterval))
  /\ next_poll_ s <= next_poll_ s'
  /\ (next_poll_ s' <> i64_max -> now < next_poll_ s' /\
        (next_poll_ s <= now -> next_poll_ s' <= now + kStreamWorkerPollInterval))
  /\ (now < next_poll_ s -> s' = s).
Proof.
  intros S F N s s'.
  assert (is_i64 (next_poll_ s) /\ exists n, 0 < n /\ next_poll_ s = Z.min i64_max (start + n * kStreamWorkerPollInterval))
    as [P (n & NP & E)].
  { assert (exists n, 0 < n /\ next_poll_ (new_schedule start) = Z.min i64_max (start + n * kStreamWorkerPollInterval)) as I
      by (exists 1; split; [lia|]; cbn [new_schedule next_poll_]; rewrite saturating_add_exact by exact S; lia).
    revert I. unfold s. generalize (new_schedule start).
    assert (forall n, 0 < n -> is_i64 (Z.min i64_max (start + n * kStreamWorkerPollInterval))) as R
      by (intros n NP; destruct S; unfold is_i64, i64_min, i64_max, kStreamWorkerPollInterval in *; lia).
    induction F as [|t times T F IH]; intros s0 (n & NP & E); cbn [advance_all].
    - split; [rewrite E; auto | eauto].
    - apply IH. rewrite advance_exact by (try assumption; rewrite E; auto).
      destruct (Z.ltb_spec t (next_poll_ s0)); [eauto|].
      assert (0 <= (t - next_poll_ s0) / kStreamWorkerPollInterval) by (apply Z.div_pos; [lia | reflexivity]).
      set (q := (t - next_poll_ s0) / kStreamWorkerPollInterval) in *.
      destruct (Z.le_gt_cases i64_max (start + n * kStreamWorkerPollInterval)) as [M|M].
      + exists n. split; [exact NP|]. unfold kStreamWorkerPollInterval in *. lia.
      + exists (n + (q + 1)). split; [lia|]. unfold kStreamWorkerPollInterval in *. lia. }
  split; [eauto|]. unfold s'. rewrite (advance_exact now s N P).
  pose proof (Z.div_mod (now - next_poll_ s) kStreamWorkerPollInterval ltac:(discriminate)) as DM.
  pose proof (Z.mod_pos_bound (now - next_poll_ s) kStreamWorkerPollInterval eq_refl) as MB.
  destruct P as [P1 P2]. destruct (Z.ltb_spec now (next_poll_ s)) as [LT|GE].
  - repeat split; try lia. intros _. unfold advance. now destruct (Z.ltb_spec now (next_poll_ s)); [|lia].
  - repeat split; lia.
Qed.

Lemma poll_schedule_exact_witness :
  next_poll_ (advance_all (new_schedule 5) [5000000]) = 6000005
  /\ next_poll_ (advance 6500000 (advance_all (new_schedule 5) [5000000])) <= 6500000 + kStreamWorkerPollInterval
  /\ next_poll_ (advance 9223372036854775800 (advance_all (new_schedule 5) [5000000])) <= i64_max.
Proof.
  split; [reflexivity|]. split; [|vm_compute; discriminate].
  destruct (poll_schedule_exact 5 [5000000] 6500000) as (_ & _ & B & _).
  - unfold is_i64, i64_min, i64_max. lia.
  - repeat constructor; unfold i64_min, i64_max; lia.
  - unfold is_i64, i64_min, i64_max. lia.
  - apply B; vm_compute; discriminate.
Defined.
