(* ===== verification/SingleSend.v ===== *)
(** Sending one message (src/src/daemon/single_send.cpp, .hpp and
    rate_limit.cpp): the coordinator submits a prepared request to TDLib and
    decides from the response, the updates of the message and the authorization
    states, in the order in which they were received, what became of it.

    The callbacks that record events run on other threads; a round of the wait
    loop sees what they have recorded by then.  The client, the clock and the
    session are arguments: what a call to them answered. *)
From Stdlib Require Import SpecFloat.
From S2P Require Import Prelude Utf8 Deadline LocalSelector.
From coqutil Require Import Datatypes.RecordSetters.
Import OCamlLikeNotations.

(** * Data of the runtime (core/td_runtime.hpp) *)

Record TdError := { e_code : Z; e_message : string }.

Inductive TdTopicKind := TopicForum | TopicThread | TopicDirect | TopicSaved | TopicUnknown.

Record TdTopic := { tt_kind : TdTopicKind; tt_id : Z; tt_tdlib_type_id : Z }.

Inductive TdMessageSenderKind := SenderUser | SenderChat | SenderUnknown.

Record TdMessageSender := { ts_kind : TdMessageSenderKind; ts_id : Z; ts_tdlib_type_id : Z }.

Inductive TdMessageContentKind :=
  ContentText | ContentPhoto | ContentVideo | ContentDocument | ContentVoice | ContentOther.

Record TdMessageSummary := {
  m_id : Z; m_chat_id : Z; m_date : Z; m_sender : TdMessageSender; m_is_outgoing : bool;
  m_topic : option TdTopic; m_content_kind : TdMessageContentKind; m_text : string }.

Inductive TdMessageSendingStateKind := SendingStable | SendingPending | SendingFailed | SendingUnknown.

Record TdMessageSendingState := {
  ss_kind : TdMessageSendingStateKind; ss_sending_id : Z; ss_error : option TdError;
  ss_can_retry : bool; ss_need_another_sender : bool; ss_need_another_reply_quote : bool;
  ss_need_drop_reply : bool; ss_required_paid_message_star_count : Z; ss_retry_after : spec_float;
  ss_unsupported_tdlib_type_id : option Z }.

Inductive TdMessageSchedulingStateKind :=
  ScheduleNone | SendAtDate | SendWhenOnline | SendWhenVideoProcessed | ScheduleUnknown.

Record TdMessageSchedulingState := {
  sc_kind : TdMessageSchedulingStateKind; sc_send_date : Z; sc_repeat_period : Z;
  sc_unsupported_tdlib_type_id : option Z }.

Record TdWriteMessage := {
  w_message : TdMessageSummary; w_sending_state : TdMessageSendingState;
  w_scheduling_state : TdMessageSchedulingState; w_has_reply_markup : bool }.

Record TdMessageWriteResult := {
  wr_id : Z; wr_chat_id : Z; wr_date : option Z; wr_sender : TdMessageSender; wr_is_outgoing : bool;
  wr_topic : option TdTopic; wr_content_kind : TdMessageContentKind; wr_text : string;
  wr_scheduled : bool }.

Definition kTdInt53Max : Z := 9007199254740991.

Definition valid_td_chat_id (v : Z) : bool :=
  negb (v =? 0) && (- kTdInt53Max <=? v) && (v <=? kTdInt53Max).

Definition valid_td_nonzero_int53 (v : Z) : bool := valid_td_chat_id v.

Definition valid_td_message_id (v : Z) : bool := (0 <? v) && (v <=? kTdInt53Max).

(** The updates the coordinator listens to. *)
Inductive SendUpdate :=
| TdUpdateMessageSendSucceeded (client_generation old_message_id : Z) (message : option TdWriteMessage)
| TdUpdateMessageSendFailed (client_generation old_message_id : Z) (message : option TdWriteMessage)
    (error : option TdError)
| TdUpdateDeleteMessages (client_generation chat_id : Z) (message_ids : list Z)
    (is_permanent from_cache : bool).

Inductive AuthState :=
| AuthUnknown | WaitTdlibParameters | WaitPhoneNumber | WaitPremiumPurchase | WaitEmailAddress
| WaitEmailCode | WaitCode | WaitOtherDeviceConfirmation | WaitRegistration | WaitPassword | Ready
| LoggingOut | Closing | Closed.

Record AuthStateSnapshot := {
  a_client_generation : Z; a_auth_sequence : Z; a_receive_event_sequence : Z; a_state : AuthState;
  a_receive_observed_at : option Z }.

Inductive TdAuthorizationFailure :=
| FunctionMismatch | TierMismatch | OwnerMismatch | GenerationMismatch | AuthSequenceMismatch
| AuthStateMismatch | FunctionDenied | GenerationClosed.

#[export] Instance td_error_eq_dec : EqDec TdError.
Proof. intros x y. decide equality; [apply string_dec | apply Z.eq_dec]. Defined.

(** * Outcomes *)

Inductive SingleSendMutationState := MutationNone | MutationPossible | MutationConfirmed.

Record SingleSendTemporaryId := {
  t_client_generation : Z; t_chat_id : Z; t_temporary_message_id : Z; t_sending_id : Z }.

Inductive SingleSendOutcome :=
| SingleSendSucceeded (temporary : option SingleSendTemporaryId) (authoritative_message : TdWriteMessage)
    (result : TdMessageWriteResult) (mutation_state : SingleSendMutationState)
| SingleSendFailed (temporary : option SingleSendTemporaryId) (error : TdError)
    (mutation_state : SingleSendMutationState)
| SingleSendRateLimited (temporary : option SingleSendTemporaryId) (error : TdError) (retry_after : Z)
    (mutation_state : SingleSendMutationState)
| SingleSendDeletedBeforeConfirmation (temporary : SingleSendTemporaryId)
    (mutation_state : SingleSendMutationState)
| SingleSendTimedOut (temporary : option SingleSendTemporaryId) (mutation_state : SingleSendMutationState)
| SingleSendAuthorizationLost (temporary : option SingleSendTemporaryId)
    (client_generation auth_sequence : Z) (state : AuthState) (mutation_state : SingleSendMutationState)
| SingleSendGenerationClosed (temporary : option SingleSendTemporaryId) (client_generation : Z)
    (mutation_state : SingleSendMutationState)
| SingleSendCancelled (temporary : option SingleSendTemporaryId) (mutation_state : SingleSendMutationState)
| SingleSendRejected (authorization_failure : option TdAuthorizationFailure)
    (mutation_state : SingleSendMutationState)
| SingleSendMalformed (temporary : option SingleSendTemporaryId) (tdlib_type_id : option Z)
    (mutation_state : SingleSendMutationState).

Definition mutation_of (o : SingleSendOutcome) : SingleSendMutationState :=
  match o with
  | SingleSendSucceeded _ _ _ m | SingleSendFailed _ _ m | SingleSendRateLimited _ _ _ m
  | SingleSendDeletedBeforeConfirmation _ m | SingleSendTimedOut _ m
  | SingleSendAuthorizationLost _ _ _ _ m | SingleSendGenerationClosed _ _ m
  | SingleSendCancelled _ m | SingleSendRejected _ m | SingleSendMalformed _ _ m => m
  end.

(** [SingleSendMalformed{.temporary, .tdlib_type_id}] with the default state. *)
Definition malformed (temporary : option SingleSendTemporaryId) (tdlib_type_id : option Z) :
    SingleSendOutcome :=
  SingleSendMalformed temporary tdlib_type_id MutationPossible.

(** * Flood waits (rate_limit.cpp) *)

Definition is_space (c : ascii) : bool := (byte_of c =? 32) || ((9 <=? byte_of c) && (byte_of c <=? 13)).

Definition word_char (c : ascii) : bool := is_alnum c || Ascii.eqb c "_".

Fixpoint skip_spaces (s : string) : string :=
  match s with String c r => if is_space c then skip_spaces r else s | EmptyString => s end.

(** The digits at the front, if any. *)
Fixpoint leading_digits (s : string) : string :=
  match s with
  | String c r => if is_digit c then String c (leading_digits r) else EmptyString
  | EmptyString => EmptyString
  end.

Definition matched_digits (s : string) : option string :=
  match leading_digits s with EmptyString => None | digits => Some digits end.

(** [(?:retry[[:space:]]+after[[:space:]]*|FLOOD_WAIT_)([0-9]+)], in any case. *)
Definition match_wait (s : string) : option string :=
  let first :=
    if ascii_starts_with_case_insensitive s "retry" then
      match str_drop 5 s with
      | String c r =>
          if is_space c then
            let after := skip_spaces r in
            if ascii_starts_with_case_insensitive after "after"
            then matched_digits (skip_spaces (str_drop 5 after)) else None
          else None
      | EmptyString => None
      end
    else None in
  match first with
  | Some digits => Some digits
  | None =>
      if ascii_starts_with_case_insensitive s "flood_wait_" then matched_digits (str_drop 11 s) else None
  end.

(** The search from the second position on: [[^[:alnum:]_]] before the match. *)
Fixpoint search_wait (s : string) : option string :=
  match s with
  | EmptyString => None
  | String c r =>
      match if word_char c then None else match_wait r with
      | Some digits => Some digits
      | None => search_wait r
      end
  end.

Definition kMaximumInt32 : Z := 2147483647.

Fixpoint saturating_digits (digits : string) (result : Z) : Z :=
  match digits with
  | EmptyString => result
  | String c r =>
      let digit := byte_of c - byte_of "0" in
      saturating_digits r
        (if (kMaximumInt32 - digit) / 10 <? result then kMaximumInt32 else result * 10 + digit)
  end.

Definition parse_retry_after_seconds (message : string) : Z :=
  match match match_wait message with Some digits => Some digits | None => search_wait message end with
  | Some digits => saturating_digits digits 0
  | None => 0
  end.

(** * Messages *)

Definition valid_sender (sender : TdMessageSender) : bool :=
  match ts_kind sender with
  | SenderUser => valid_td_message_id (ts_id sender)
  | SenderChat => valid_td_chat_id (ts_id sender)
  | SenderUnknown => false
  end.

Definition valid_topic (topic : option TdTopic) : bool :=
  match topic with
  | None => true
  | Some topic =>
      if negb (valid_td_message_id (tt_id topic)) then false
      else
        match tt_kind topic with
        | TopicForum => tt_id topic <=? kMaximumInt32
        | TopicThread | TopicDirect | TopicSaved => true
        | TopicUnknown => false
        end
  end.

(** The loop that counts scalars and stops above the limit. *)
Fixpoint count_scalars (text : string) (scalar_count : Z) : bool :=
  match text with
  | EmptyString => true
  | String c r =>
      if Z.land (byte_of c) 0xC0 =? 0x80 then count_scalars r scalar_count
      else if 4096 <? scalar_count + 1 then false
      else count_scalars r (scalar_count + 1)
  end.

Definition valid_message_text (text : string) : bool :=
  if (16384 <? str_len text) || negb (valid_utf8 text) then false else count_scalars text 0.

Definition valid_message_summary (message : TdMessageSummary) (chat_id : Z) : bool :=
  valid_td_nonzero_int53 (m_id message) && (m_chat_id message =? chat_id) && (0 <=? m_date message)
  && valid_sender (m_sender message) && valid_topic (m_topic message)
  && valid_message_text (m_text message).

Definition is_none {A} (o : option A) : bool := match o with None => true | Some _ => false end.

Definition valid_sending_state_defaults (state : TdMessageSendingState) : bool :=
  is_none (ss_error state) && negb (ss_can_retry state) && negb (ss_need_another_sender state)
  && negb (ss_need_another_reply_quote state) && negb (ss_need_drop_reply state)
  && (ss_required_paid_message_star_count state =? 0)
  && SFeqb (ss_retry_after state) (S754_zero false)
  && is_none (ss_unsupported_tdlib_type_id state).

Definition valid_schedule (schedule : TdMessageSchedulingState) : bool :=
  match sc_kind schedule with
  | ScheduleNone | SendWhenOnline =>
      (sc_send_date schedule =? 0) && (sc_repeat_period schedule =? 0)
      && is_none (sc_unsupported_tdlib_type_id schedule)
  | SendAtDate =>
      (0 <? sc_send_date schedule) && (sc_repeat_period schedule =? 0)
      && is_none (sc_unsupported_tdlib_type_id schedule)
  | SendWhenVideoProcessed | ScheduleUnknown => false
  end.

Definition is_pending (k : TdMessageSendingStateKind) : bool :=
  match k with SendingPending => true | _ => false end.
Definition is_failed (k : TdMessageSendingStateKind) : bool :=
  match k with SendingFailed => true | _ => false end.
Definition is_stable (k : TdMessageSendingStateKind) : bool :=
  match k with SendingStable => true | _ => false end.

Definition valid_pending_message (message : TdWriteMessage) (chat_id sending_id : Z) : bool :=
  let state := w_sending_state message in
  valid_message_summary (w_message message) chat_id && is_pending (ss_kind state)
  && (ss_sending_id state =? sending_id) && negb (sending_id =? 0)
  && valid_sending_state_defaults state && valid_schedule (w_scheduling_state message).

Definition is_finite (x : spec_float) : bool :=
  match x with S754_zero _ | S754_finite _ _ _ => true | _ => false end.

Definition valid_failed_message (message : TdWriteMessage) (chat_id : Z) : bool :=
  let state := w_sending_state message in
  valid_message_summary (w_message message) chat_id && is_failed (ss_kind state)
  && (ss_sending_id state =? 0) && negb (is_none (ss_error state))
  && is_none (ss_unsupported_tdlib_type_id state)
  && (0 <=? ss_required_paid_message_star_count state) && is_finite (ss_retry_after state)
  && SFleb (S754_zero false) (ss_retry_after state) && valid_schedule (w_scheduling_state message).

(** * Outcomes of messages and updates *)

Definition success_from (message : TdWriteMessage) (temporary : option SingleSendTemporaryId)
    (chat_id : Z) : option SingleSendOutcome :=
  let state := w_sending_state message in
  if negb (valid_message_summary (w_message message) chat_id) || negb (is_stable (ss_kind state))
     || negb (ss_sending_id state =? 0) || negb (valid_sending_state_defaults state)
     || negb (valid_schedule (w_scheduling_state message)) then None
  else
    let scheduled :=
      match sc_kind (w_scheduling_state message) with ScheduleNone => false | _ => true end in
    let summary := w_message message in
    Some (SingleSendSucceeded temporary message
            {| wr_id := m_id summary; wr_chat_id := m_chat_id summary;
               wr_date := if scheduled then None else Some (m_date summary);
               wr_sender := m_sender summary; wr_is_outgoing := m_is_outgoing summary;
               wr_topic := m_topic summary; wr_content_kind := m_content_kind summary;
               wr_text := m_text summary; wr_scheduled := scheduled |} MutationConfirmed).

(** [std::ceil] of a positive finite number. *)
Definition ceil_positive (m : positive) (e : Z) : Z :=
  if 0 <=? e then Zpos m * 2 ^ e else (Zpos m + 2 ^ (- e) - 1) / 2 ^ (- e).

Definition retry_after (error : TdError) (precise : option spec_float) : Z :=
  match precise with
  | Some (S754_finite false m e) =>
      if ceil_positive m e <=? kMaximumInt32 then ceil_positive m e
      else parse_retry_after_seconds (e_message error)
  | _ => parse_retry_after_seconds (e_message error)
  end.

Definition failure_from (error : TdError) (temporary : option SingleSendTemporaryId)
    (mutation_state : SingleSendMutationState) (precise_retry_after : option spec_float) :
    SingleSendOutcome :=
  if e_code error =? 429
  then SingleSendRateLimited temporary error (retry_after error precise_retry_after) mutation_state
  else SingleSendFailed temporary error mutation_state.

Definition unsupported_type_id (message : TdWriteMessage) : option Z :=
  match ss_unsupported_tdlib_type_id (w_sending_state message) with
  | Some id => Some id
  | None => sc_unsupported_tdlib_type_id (w_scheduling_state message)
  end.

(** The three overloads of [outcome_from_update]. *)
Definition outcome_from_update (update : SendUpdate) (temporary : SingleSendTemporaryId) :
    option SingleSendOutcome :=
  match update with
  | TdUpdateMessageSendSucceeded generation old_message_id message =>
      if negb (generation =? t_client_generation temporary)
         || negb (old_message_id =? t_temporary_message_id temporary) then None
      else
        match message with
        | None => Some (malformed (Some temporary) None)
        | Some message =>
            match success_from message (Some temporary) (t_chat_id temporary) with
            | None => Some (malformed (Some temporary) (unsupported_type_id message))
            | Some success => Some success
            end
        end
  | TdUpdateMessageSendFailed generation old_message_id message error =>
      if negb (generation =? t_client_generation temporary)
         || negb (old_message_id =? t_temporary_message_id temporary) then None
      else
        match message, error with
        | Some message, Some error =>
            if valid_failed_message message (t_chat_id temporary)
               && (if eq_dec (ss_error (w_sending_state message)) (Some error) then true else false)
            then Some (failure_from error (Some temporary) MutationNone
                         (Some (ss_retry_after (w_sending_state message))))
            else Some (malformed (Some temporary) (unsupported_type_id message))
        | Some message, None => Some (malformed (Some temporary) (unsupported_type_id message))
        | None, _ => Some (malformed (Some temporary) None)
        end
  | TdUpdateDeleteMessages generation chat_id message_ids _ _ =>
      if negb (generation =? t_client_generation temporary) || negb (chat_id =? t_chat_id temporary)
         || negb (existsb (Z.eqb (t_temporary_message_id temporary)) message_ids) then None
      else if negb (valid_td_chat_id chat_id) || negb (forallb valid_td_nonzero_int53 message_ids)
      then Some (malformed (Some temporary) None)
      else Some (SingleSendDeletedBeforeConfirmation temporary MutationPossible)
  end.

Inductive SingleSendImmediateOutcome :=
| SingleSendImmediatePending (temporary : SingleSendTemporaryId)
| ImmediateOutcome (outcome : SingleSendOutcome).

(** [send_arbitration::classify_immediate]. *)
Definition classify_immediate (message : TdWriteMessage) (client_generation chat_id sending_id : Z) :
    SingleSendImmediateOutcome :=
  let state := w_sending_state message in
  match ss_kind state with
  | SendingPending =>
      if negb (valid_pending_message message chat_id sending_id)
      then ImmediateOutcome (malformed None (unsupported_type_id message))
      else SingleSendImmediatePending
             {| t_client_generation := client_generation; t_chat_id := chat_id;
                t_temporary_message_id := m_id (w_message message); t_sending_id := sending_id |}
  | SendingFailed =>
      match ss_error state with
      | Some error =>
          if negb (valid_failed_message message chat_id)
          then ImmediateOutcome (malformed None (unsupported_type_id message))
          else ImmediateOutcome (failure_from error None MutationNone (Some (ss_retry_after state)))
      | None => ImmediateOutcome (malformed None (unsupported_type_id message))
      end
  | SendingStable =>
      match success_from message None chat_id with
      | Some success => ImmediateOutcome success
      | None => ImmediateOutcome (malformed None None)
      end
  | SendingUnknown => ImmediateOutcome (malformed None (ss_unsupported_tdlib_type_id state))
  end.

(** [send_arbitration::classify_update] on one of the three updates. *)
Definition classify_update (update : SendUpdate) (temporary : SingleSendTemporaryId) :
    option SingleSendOutcome :=
  outcome_from_update update temporary.

(** * The coordinator *)

Record StampedUpdate := {
  u_sequence : Z; u_observed_at : option Z; u_update : SendUpdate }.

Record StampedOutcome := { o_sequence : Z; o_outcome : SingleSendOutcome }.

(** What the future of the response holds. *)
Inductive TdReply :=
| ReplyError (error : TdError)
| ReplyConversionError (tdlib_type_id : option Z)
| ReplyMessage (message : TdWriteMessage)
| ReplyOther.

Inductive Response :=
| Received (sequence : Z) (observed_at : option Z) (value : TdReply)
| AuthorizationThrown (failure : TdAuthorizationFailure)
| ExceptionThrown.

Record Impl := {
  executed_ : bool;
  prepared_ : bool;
  in_flight_ : bool;
  chat_id_ : Z;
  sending_id_ : Z;
  prepared_write_ : bool;
  authorization_ : option AuthStateSnapshot;
  response_consumed_ : bool;
  temporary_notified_ : bool;
  temporary_ : option SingleSendTemporaryId;
  temporary_sequence_ : option Z;
  wake_sequence_ : Z;
  updates_ : list StampedUpdate;
  auth_events_ : list AuthStateSnapshot;
  latest_auth_ : option AuthStateSnapshot
}.

(** [std::tie(generation, sequence)] compared lexicographically. *)
Definition auth_later (a b : AuthStateSnapshot) : bool :=
  (a_client_generation b <? a_client_generation a)
  || ((a_client_generation a =? a_client_generation b) && (a_auth_sequence b <? a_auth_sequence a)).

Definition record_update (update : StampedUpdate) (s : Impl) : Impl :=
  { s with updates_ := updates_ s ++ [update]; wake_sequence_ := u64 (wake_sequence_ s + 1) }.

Definition record_auth (snapshot : option AuthStateSnapshot) (s : Impl) : Impl :=
  match snapshot with
  | None => s
  | Some snapshot =>
      if match latest_auth_ s with None => true | Some latest => auth_later snapshot latest end
      then { s with latest_auth_ := Some snapshot; auth_events_ := auth_events_ s ++ [snapshot];
             wake_sequence_ := u64 (wake_sequence_ s + 1) }
      else s
  end.

Definition wake (s : Impl) : Impl := { s with wake_sequence_ := u64 (wake_sequence_ s + 1) }.

Definition is_ready (state : AuthState) : bool := match state with Ready => true | _ => false end.
Definition is_closed (state : AuthState) : bool := match state with Closed => true | _ => false end.

(** Whether the loop of [auth_terminal] considers a snapshot. *)
Definition auth_counts (deadline : RequestDeadline) (sent snapshot : AuthStateSnapshot) : bool :=
  auth_later snapshot sent && negb (a_receive_event_sequence snapshot =? 0)
  && negb (is_none (a_receive_observed_at snapshot))
  && event_precedes_deadline (a_receive_observed_at snapshot) deadline
  && negb (is_ready (a_state snapshot)).

Definition auth_outcome (s : Impl) (sent snapshot : AuthStateSnapshot) : SingleSendOutcome :=
  let temporary :=
    match temporary_ s, temporary_sequence_ s with
    | Some temporary, Some sequence =>
        if sequence <? a_receive_event_sequence snapshot then Some temporary else None
    | _, _ => None
    end in
  if negb (a_client_generation snapshot =? a_client_generation sent) || is_closed (a_state snapshot)
  then SingleSendGenerationClosed temporary (a_client_generation sent) MutationPossible
  else SingleSendAuthorizationLost temporary (a_client_generation snapshot) (a_auth_sequence snapshot)
         (a_state snapshot) MutationPossible.

(** Keeps the candidate when it is the first or was received earlier. *)
Definition keep_earlier (result : option StampedOutcome) (candidate : StampedOutcome) :
    option StampedOutcome :=
  match result with
  | None => Some candidate
  | Some r => if o_sequence candidate <? o_sequence r then Some candidate else result
  end.

Definition auth_terminal (deadline : RequestDeadline) (sent : AuthStateSnapshot) (s : Impl) :
    option StampedOutcome :=
  fold_left (fun result snapshot =>
      if auth_counts deadline sent snapshot
      then keep_earlier result {| o_sequence := a_receive_event_sequence snapshot;
                                  o_outcome := auth_outcome s sent snapshot |}
      else result)
    (auth_events_ s) None.

Definition update_counts (deadline : RequestDeadline) (stamped : StampedUpdate) : bool :=
  negb (u_sequence stamped =? 0) && negb (is_none (u_observed_at stamped))
  && event_precedes_deadline (u_observed_at stamped) deadline.

Definition update_terminal (deadline : RequestDeadline) (temporary : SingleSendTemporaryId) (s : Impl) :
    option StampedOutcome :=
  fold_left (fun result stamped =>
      if update_counts deadline stamped then
        match outcome_from_update (u_update stamped) temporary with
        | Some candidate => keep_earlier result {| o_sequence := u_sequence stamped; o_outcome := candidate |}
        | None => result
        end
      else result)
    (updates_ s) None.

Definition earliest (first second : option StampedOutcome) : option StampedOutcome :=
  match first, second with
  | None, _ => second
  | _, None => first
  | Some f, Some g => if o_sequence f <? o_sequence g then first else second
  end.

Definition at_sequence (sequence : Z) (outcome : SingleSendOutcome) : option StampedOutcome :=
  Some {| o_sequence := sequence; o_outcome := outcome |}.

Definition consume_response (deadline : RequestDeadline) (response : Response) (sent : AuthStateSnapshot)
    (chat_id sending_id : Z) (s : Impl) : option StampedOutcome * Impl :=
  let s := { s with response_consumed_ := true } in
  match response with
  | AuthorizationThrown failure =>
      (at_sequence u64_max (SingleSendRejected (Some failure) MutationNone), s)
  | ExceptionThrown => (at_sequence u64_max (malformed None None), s)
  | Received sequence observed_at value =>
      if (sequence =? 0) || is_none observed_at then (at_sequence u64_max (malformed None None), s)
      else if negb (event_precedes_deadline observed_at deadline)
      then (at_sequence u64_max (SingleSendTimedOut None MutationPossible), s)
      else
        match value with
        | ReplyError error => (at_sequence sequence (failure_from error None MutationPossible None), s)
        | ReplyConversionError type_id => (at_sequence sequence (malformed None type_id), s)
        | ReplyOther => (at_sequence sequence (malformed None None), s)
        | ReplyMessage message =>
            let state := w_sending_state message in
            match ss_kind state with
            | SendingPending =>
                if negb (valid_pending_message message chat_id sending_id)
                then (at_sequence sequence (malformed None (unsupported_type_id message)), s)
                else
                  (None,
                   { s with
                     temporary_ :=
                       Some {| t_client_generation := a_client_generation sent; t_chat_id := chat_id;
                               t_temporary_message_id := m_id (w_message message);
                               t_sending_id := sending_id |};
                     temporary_sequence_ := Some sequence })
            | SendingFailed =>
                match ss_error state with
                | Some error =>
                    if negb (valid_failed_message message chat_id)
                    then (at_sequence sequence (malformed None (unsupported_type_id message)), s)
                    else (at_sequence sequence
                            (failure_from error None MutationNone (Some (ss_retry_after state))), s)
                | None => (at_sequence sequence (malformed None (unsupported_type_id message)), s)
                end
            | SendingStable =>
                (at_sequence sequence
                   match success_from message None chat_id with
                   | Some success => success
                   | None => malformed None None
                   end, s)
            | SendingUnknown =>
                (at_sequence sequence (malformed None (ss_unsupported_tdlib_type_id state)), s)
            end
        end
  end.

Record ArbitrationDecision := { selected : option StampedOutcome; notify_temporary : bool }.

Definition authorization_precedes_temporary (o : StampedOutcome) : bool :=
  match o_outcome o with
  | SingleSendAuthorizationLost temporary _ _ _ _ | SingleSendGenerationClosed temporary _ _ =>
      is_none temporary
  | _ => false
  end.

(** [ready]: the response, when the future is ready. *)
Definition arbitrate_visible (deadline : RequestDeadline) (current : option AuthStateSnapshot)
    (ready : option Response) (sent : AuthStateSnapshot) (chat_id sending_id decision_now : Z)
    (s : Impl) : ArbitrationDecision * Impl :=
  let s := record_auth current s in
  let auth := auth_terminal deadline sent s in
  let '(chosen, auth, s) :=
    if response_consumed_ s then (None, auth, s)
    else
      match ready with
      | None => (None, auth, s)
      | Some response =>
          let '(chosen, s) := consume_response deadline response sent chat_id sending_id s in
          (chosen, auth_terminal deadline sent s, s)
      end in
  let chosen := earliest chosen auth in
  let '(chosen, notify, s) :=
    match temporary_ s with
    | None => (chosen, false, s)
    | Some temporary =>
        let chosen := earliest chosen (update_terminal deadline temporary s) in
        if negb (temporary_notified_ s)
           && match chosen with None => true | Some c => negb (authorization_precedes_temporary c) end
        then (None, true, { s with temporary_notified_ := true })
        else (chosen, false, s)
    end in
  let chosen :=
    match chosen with
    | Some _ => chosen
    | None =>
        if deadline_expired deadline decision_now
        then at_sequence u64_max (SingleSendTimedOut (temporary_ s) MutationPossible) else None
    end in
  ({| selected := chosen; notify_temporary := notify |}, s).

(** What a round of the loop meets: the events recorded since the last round,
    the state and the response the client shows, the clock, whether the hook that
    is told the temporary id returns, and whether the request is cancelled. *)
Inductive Recorded := RecordedUpdate (update : StampedUpdate) | RecordedAuth (snapshot : AuthStateSnapshot) | Woken.

Definition record (r : Recorded) (s : Impl) : Impl :=
  match r with
  | RecordedUpdate update => record_update update s
  | RecordedAuth snapshot => record_auth (Some snapshot) s
  | Woken => wake s
  end.

Record Round := {
  r_recorded : list Recorded;
  r_current : option AuthStateSnapshot;
  r_ready : option Response;
  r_now : Z;
  r_notified : bool;
  r_cancelled : bool
}.

(** The loop, over the rounds that happen: [None] when it is still waiting.  Also
    yields the temporary ids the hook was told. *)
Fixpoint wait_for_terminal (deadline : RequestDeadline) (sent : AuthStateSnapshot)
    (chat_id sending_id : Z) (rounds : list Round) (s : Impl) :
    option SingleSendOutcome * list SingleSendTemporaryId * Impl :=
  match rounds with
  | [] => (None, [], s)
  | round :: rest =>
      let s := fold_left (fun s r => record r s) (r_recorded round) s in
      let '(decision, s) :=
        arbitrate_visible deadline (r_current round) (r_ready round) sent chat_id sending_id
          (r_now round) s in
      if notify_temporary decision then
        match temporary_ s with
        | None => (Some (malformed None None), [], s)
        | Some temporary =>
            if r_notified round then
              let '(outcome, told, s) := wait_for_terminal deadline sent chat_id sending_id rest s in
              (outcome, temporary :: told, s)
            else (Some (malformed (Some temporary) None), [temporary], s)
        end
      else
        match selected decision with
        | Some c => (Some (o_outcome c), [], s)
        | None =>
            if r_cancelled round then (Some (SingleSendCancelled (temporary_ s) MutationPossible), [], s)
            else wait_for_terminal deadline sent chat_id sending_id rest s
        end
  end.

(** ** Preparation and submission *)

(** A request, with the verdict of [valid_td_send_message_request] and of the
    capability of its formatted text. *)
Record SendRequest := { q_chat_id : Z; q_sending_id : Z; q_valid : bool }.

(** What [prepare] meets, in the order of its calls.  [pr_write] is the answer of
    [prepare_send_message]. *)
Record Preparation := {
  pr_now : Z;
  pr_before_request : bool;
  pr_now_after_hook : Z;
  pr_cancelled : bool;
  pr_reserved : bool;
  pr_recorded : list Recorded;
  pr_write : result (option TdAuthorizationFailure) unit;
  pr_now_prepared : Z;
  pr_cancelled_prepared : bool
}.

(** The coordinator, the in-flight requests of its session and the requests the
    client was given. *)
Record World := { impl : Impl; flights : Z; submitted : Z }.

Definition with_impl (s : Impl) (w : World) : World :=
  {| impl := s; flights := flights w; submitted := submitted w |}.

Definition settle_in_flight (w : World) : World :=
  if in_flight_ (impl w)
  then {| impl := { impl w with in_flight_ := false }; flights := flights w - 1;
          submitted := submitted w |}
  else w.

Inductive SingleSendPreparationOutcome :=
| SingleSendPrepared
| PreparationOutcome (outcome : SingleSendOutcome).

(** The visitor that turns a lost authorization into a preparation outcome. *)
Definition without_mutation (outcome : SingleSendOutcome) : SingleSendOutcome :=
  match outcome with
  | SingleSendAuthorizationLost temporary generation sequence state _ =>
      SingleSendAuthorizationLost temporary generation sequence state MutationNone
  | SingleSendGenerationClosed temporary generation _ =>
      SingleSendGenerationClosed temporary generation MutationNone
  | _ => SingleSendRejected None MutationNone
  end.

Definition drop_write (w : World) : World :=
  settle_in_flight (with_impl { impl w with prepared_write_ := false } w).

(** [prepare] once the session has reserved an in-flight request. *)
Definition prepare_reserved (deadline : RequestDeadline) (request : SendRequest)
    (authorization : AuthStateSnapshot) (p : Preparation) (w : World) :
    SingleSendPreparationOutcome * World :=
  let s := { impl w with in_flight_ := true; chat_id_ := q_chat_id request;
             sending_id_ := q_sending_id request; authorization_ := Some authorization } in
  let s := fold_left (fun s r => record r s) (pr_recorded p) s in
  let w := {| impl := s; flights := flights w + 1; submitted := submitted w |} in
  match pr_write p with
  | Err failure =>
      (PreparationOutcome
         match auth_terminal deadline authorization (impl w) with
         | Some auth => without_mutation (o_outcome auth)
         | None => SingleSendRejected failure MutationNone
         end, drop_write w)
  | Ok _ =>
      let w := with_impl { impl w with prepared_write_ := true } w in
      if deadline_expired deadline (pr_now_prepared p)
      then (PreparationOutcome (SingleSendTimedOut None MutationNone), drop_write w)
      else if pr_cancelled_prepared p
      then (PreparationOutcome (SingleSendCancelled None MutationNone), drop_write w)
      else (SingleSendPrepared, with_impl { impl w with prepared_ := true } w)
  end.

Definition prepare (deadline : RequestDeadline) (request : SendRequest)
    (authorization : option AuthStateSnapshot) (p : Preparation) (w : World) :
    SingleSendPreparationOutcome * World :=
  let rejected := PreparationOutcome (SingleSendRejected None MutationNone) in
  let timed_out := PreparationOutcome (SingleSendTimedOut None MutationNone) in
  let cancelled := PreparationOutcome (SingleSendCancelled None MutationNone) in
  match authorization with
  | None => (rejected, w)
  | Some authorization =>
      if executed_ (impl w) || negb (is_ready (a_state authorization)) || negb (q_valid request)
      then (rejected, w)
      else
        let w := with_impl { impl w with executed_ := true } w in
        if deadline_expired deadline (pr_now p) then (timed_out, w)
        else if negb (pr_before_request p) then (rejected, w)
        else if deadline_expired deadline (pr_now_after_hook p) then (timed_out, w)
        else if pr_cancelled p then (cancelled, w)
        else if negb (pr_reserved p) then (cancelled, w)
        else
          prepare_reserved deadline request authorization p w
  end.

(** What [execute_prepared] meets. *)
Record Submission := {
  x_before_submit : bool;
  x_now : Z;
  x_cancelled : bool;
  x_sent : bool;
  x_rounds : list Round
}.

(** [None]: the loop is still waiting. *)
Definition execute_prepared (deadline : RequestDeadline) (x : Submission) (w : World) :
    option SingleSendOutcome * list SingleSendTemporaryId * World :=
  let rejected := Some (SingleSendRejected None MutationPossible) in
  match authorization_ (impl w) with
  | Some authorization =>
      if negb (prepared_ (impl w)) || negb (prepared_write_ (impl w)) then (rejected, [], w)
      else
        let w := with_impl { impl w with prepared_ := false } w in
        if negb (x_before_submit x) then (rejected, [], drop_write w)
        else if deadline_expired deadline (x_now x)
        then (Some (SingleSendTimedOut None MutationPossible), [], drop_write w)
        else if x_cancelled x then (Some (SingleSendCancelled None MutationPossible), [], drop_write w)
        else
          let w := {| impl := { impl w with prepared_write_ := false }; flights := flights w;
                      submitted := submitted w + 1 |} in
          if negb (x_sent x) then (rejected, [], settle_in_flight w)
          else
            let '(outcome, told, s) :=
              wait_for_terminal deadline authorization (chat_id_ (impl w)) (sending_id_ (impl w))
                (x_rounds x) (impl w) in
            let w := with_impl s w in
            match outcome with
            | Some outcome => (Some outcome, told, settle_in_flight w)
            | None => (None, told, w)
            end
  | None => (rejected, [], w)
  end.

Definition execute (deadline : RequestDeadline) (request : SendRequest)
    (authorization : option AuthStateSnapshot) (p : Preparation) (x : Submission) (w : World) :
    option SingleSendOutcome * list SingleSendTemporaryId * World :=
  let '(preparation, w) := prepare deadline request authorization p w in
  match preparation with
  | SingleSendPrepared => execute_prepared deadline x w
  | PreparationOutcome outcome => (Some outcome, [], w)
  end.

(** The constructor records the state the client shows. *)
Definition new_impl (current : option AuthStateSnapshot) : Impl :=
  record_auth current
    {| executed_ := false; prepared_ := false; in_flight_ := false; chat_id_ := 0; sending_id_ := 0;
       prepared_write_ := false; authorization_ := None; response_consumed_ := false;
       temporary_notified_ := false; temporary_ := None; temporary_sequence_ := None;
       wake_sequence_ := 0; updates_ := []; auth_events_ := []; latest_auth_ := None |}.

(** * Flood waits on examples *)

Example retry_after_texts :
  map parse_retry_after_seconds
    ["Too Many Requests: retry after 17"; "FLOOD_WAIT_30"; "flood_wait_9"; "noretry after 5";
     "RETRY  After5x"; "retry 5"; "retry after 99999999999"; "xFLOOD_WAIT_3 FLOOD_WAIT_4"]
  = [17; 30; 9; 0; 5; 0; 2147483647; 4].
Proof. reflexivity. Qed.
