(* ===== verification/SingleSendFacts.v ===== *)
(** What the coordinator of a send may say: an outcome that claims a mutation, or
    that there was none, rests on what Telegram reported for exactly this message;
    and the outcome is the first decisive event in the order of reception,
    whenever the waiting thread wakes up. *)
From S2P Require Import Prelude Deadline SingleSend.
From coqutil Require Import Datatypes.RecordSetters.
Import OCamlLikeNotations.

(** * Claims are justified *)

Section claims.
Context (deadline : RequestDeadline) (sent : AuthStateSnapshot) (chat_id sending_id : Z).

(** The response and the updates that a run met. *)
Definition met_response (rounds : list Round) (r : Response) : Prop :=
  exists round, In round rounds /\ r_ready round = Some r.

Definition met_update (rounds : list Round) (u : SendUpdate) : Prop :=
  exists round stamped, In round rounds /\ In (RecordedUpdate stamped) (r_recorded round)
    /\ u_update stamped = u /\ update_counts deadline stamped = true.

(** A message that Telegram returned in time. *)
Definition returned (rounds : list Round) (message : TdWriteMessage) : Prop :=
  exists sequence observed_at,
    met_response rounds (Received sequence observed_at (ReplyMessage message))
    /\ sequence <> 0 /\ event_precedes_deadline observed_at deadline = true.

(** The temporary message: returned as pending, with the identity of the request. *)
Definition own_temporary (rounds : list Round) (t : SingleSendTemporaryId) : Prop :=
  exists message, returned rounds message
    /\ valid_pending_message message chat_id sending_id = true
    /\ t = {| t_client_generation := a_client_generation sent; t_chat_id := chat_id;
              t_temporary_message_id := m_id (w_message message); t_sending_id := sending_id |}.

(** Telegram confirmed the message: it was returned as sent, or an update says
    that the temporary message has become it. *)
Definition confirmed (rounds : list Round) (told : list SingleSendTemporaryId) (o : SingleSendOutcome) : Prop :=
  exists message,
    (returned rounds message /\ success_from message None chat_id = Some o)
    \/ (exists t, own_temporary rounds t /\ In t told
        /\ met_update rounds (TdUpdateMessageSendSucceeded (t_client_generation t)
                                (t_temporary_message_id t) (Some message))
        /\ success_from message (Some t) chat_id = Some o).

(** Telegram refused the message: it was returned as failed, an update says that
    the temporary message failed, or the client refused to submit it. *)
Definition refused (rounds : list Round) (told : list SingleSendTemporaryId) (o : SingleSendOutcome) : Prop :=
  (exists message error,
     returned rounds message /\ valid_failed_message message chat_id = true
     /\ ss_error (w_sending_state message) = Some error)
  \/ (exists t message error, own_temporary rounds t /\ In t told
        /\ met_update rounds (TdUpdateMessageSendFailed (t_client_generation t)
                                (t_temporary_message_id t) (Some message) (Some error))
        /\ valid_failed_message message chat_id = true)
  \/ (exists failure, met_response rounds (AuthorizationThrown failure)
        /\ o = SingleSendRejected (Some failure) MutationNone).

Definition justified (rounds : list Round) (told : list SingleSendTemporaryId) (o : SingleSendOutcome) : Prop :=
  match mutation_of o with
  | MutationConfirmed => confirmed rounds told o
  | MutationNone => refused rounds told o
  | MutationPossible => True
  end.

(** ** What a state knows *)

Record knows (rounds : list Round) (told : list SingleSendTemporaryId) (s : Impl) : Prop := {
  kn_updates : forall u, In u (updates_ s) -> update_counts deadline u = true -> met_update rounds (u_update u);
  kn_temporary : forall t, temporary_ s = Some t -> own_temporary rounds t;
  kn_told : forall t, temporary_ s = Some t -> temporary_notified_ s = true -> In t told;
  kn_fresh : response_consumed_ s = false -> temporary_ s = None;
  kn_notified : temporary_ s = None -> temporary_notified_ s = false
}.

Lemma met_update_mono rounds rounds' u : incl rounds rounds' -> met_update rounds u -> met_update rounds' u.
Proof. intros I (r & st & M & H). exists r, st. split; [now apply I | exact H]. Qed.

Lemma returned_mono rounds rounds' m : incl rounds rounds' -> returned rounds m -> returned rounds' m.
Proof. intros I (q & o & (r & M & H) & H'). exists q, o. split; [|exact H']. exists r. auto. Qed.

Lemma own_temporary_mono rounds rounds' t : incl rounds rounds' -> own_temporary rounds t -> own_temporary rounds' t.
Proof. intros I (m & R & H). exists m. split; [now apply (returned_mono rounds) | exact H]. Qed.

Lemma knows_mono rounds rounds' told told' s :
  incl rounds rounds' -> incl told told' -> knows rounds told s -> knows rounds' told' s.
Proof.
  intros I T [U P N F Q]. split; auto.
  - intros u M C. apply (met_update_mono rounds); auto.
  - intros t E. apply (own_temporary_mono rounds); auto.
Qed.

Lemma record_other r s :
  temporary_ (record r s) = temporary_ s /\ temporary_notified_ (record r s) = temporary_notified_ s
  /\ response_consumed_ (record r s) = response_consumed_ s.
Proof.
  destruct r as [u|a|]; cbn; [auto | | auto]. destruct (latest_auth_ s); [destruct (auth_later _ _)|]; auto.
Qed.

Lemma record_updates r s :
  updates_ (record r s) = updates_ s ++ match r with RecordedUpdate u => [u] | _ => [] end.
Proof.
  destruct r as [u|a|]; cbn; rewrite ?app_nil_r; [reflexivity | | reflexivity].
  destruct (latest_auth_ s); [destruct (auth_later _ _)|]; rewrite ?app_nil_r; reflexivity.
Qed.

Lemma knows_record rounds told round s :
  knows rounds told s -> knows (rounds ++ [round]) told (fold_left (fun s r => record r s) (r_recorded round) s).
Proof.
  intros K. assert (forall l s', incl l (r_recorded round) -> knows (rounds ++ [round]) told s' ->
    knows (rounds ++ [round]) told (fold_left (fun s r => record r s) l s')) as H.
  { induction l as [|r l IH]; intros s' I K'; cbn; [exact K'|].
    apply IH; [intros x X; apply I; now right|]. destruct (record_other r s') as (T & N & R), K' as [U P Q F G].
    split; rewrite ?T, ?N, ?R; auto.
    - intros u M C. rewrite record_updates in M. apply in_app_iff in M as [M|M]; [auto|].
      destruct r as [u'|a|]; cbn in M; try contradiction. destruct M as [<-|[]].
      exists round, u'. repeat split; [apply in_app_iff; right; now left | apply I; now left | exact C]. }
  apply H; [apply incl_refl|]. apply (knows_mono rounds _ told); [apply incl_appl, incl_refl | apply incl_refl | exact K].
Qed.

(** ** Selection *)

Lemma fold_keep {A} (f : A -> option StampedOutcome) l r c :
  fold_left (fun r x => match f x with Some y => keep_earlier r y | None => r end) l r = Some c ->
  r = Some c \/ exists x, In x l /\ f x = Some c.
Proof.
  revert r. induction l as [|x l IH]; intros r; cbn; [auto|]. intros H. apply IH in H as [H|(y & M & E)]; [|eauto].
  destruct (f x) as [y|] eqn:F; [|auto]. unfold keep_earlier in H. destruct r as [r|].
  - destruct (_ <? _); [right; exists x; rewrite F; auto | auto].
  - right. exists x. rewrite F. auto.
Qed.

(** A candidate of [update_terminal], and of [auth_terminal]. *)
Definition update_candidate (t : SingleSendTemporaryId) (u : StampedUpdate) : option StampedOutcome :=
  if update_counts deadline u then
    match outcome_from_update (u_update u) t with
    | Some o => Some {| o_sequence := u_sequence u; o_outcome := o |}
    | None => None
    end
  else None.

Definition auth_candidate (s : Impl) (a : AuthStateSnapshot) : option StampedOutcome :=
  if auth_counts deadline sent a
  then Some {| o_sequence := a_receive_event_sequence a; o_outcome := auth_outcome s sent a |} else None.

Lemma fold_left_ext {A B} (f g : A -> B -> A) l a : (forall x y, f x y = g x y) -> fold_left f l a = fold_left g l a.
Proof. intros E. revert a. induction l as [|x l IH]; intros a; cbn; [reflexivity|]. now rewrite E. Qed.

Lemma update_terminal_fold t s :
  update_terminal deadline t s =
  fold_left (fun r x => match update_candidate t x with Some y => keep_earlier r y | None => r end) (updates_ s) None.
Proof.
  apply fold_left_ext. intros r u. unfold update_candidate. destruct (update_counts _ _); [|reflexivity].
  now destruct (outcome_from_update _ _).
Qed.

Lemma auth_terminal_fold s :
  auth_terminal deadline sent s =
  fold_left (fun r x => match auth_candidate s x with Some y => keep_earlier r y | None => r end) (auth_events_ s) None.
Proof. apply fold_left_ext. intros r a. unfold auth_candidate. now destruct (auth_counts _ _ _). Qed.

Lemma auth_outcome_possible s a : mutation_of (auth_outcome s sent a) = MutationPossible.
Proof. unfold auth_outcome. now destruct (_ || _). Qed.

Lemma auth_terminal_justified rounds told s c :
  auth_terminal deadline sent s = Some c -> justified rounds told (o_outcome c).
Proof.
  rewrite auth_terminal_fold. intros H. apply fold_keep in H as [H|(a & _ & H)]; [discriminate|].
  unfold auth_candidate in H. destruct (auth_counts _ _ _); [|discriminate]. injection H as <-.
  unfold justified. cbn [o_outcome]. now rewrite auth_outcome_possible.
Qed.

Lemma failure_mutation e t m p : mutation_of (failure_from e t m p) = m.
Proof. unfold failure_from. now destruct (_ =? _). Qed.

Lemma success_mutation m t c o : success_from m t c = Some o -> mutation_of o = MutationConfirmed.
Proof. unfold success_from. destruct (_ || _); [discriminate|]. now intros [= <-]. Qed.

Lemma update_justified rounds told s t c :
  knows rounds told s -> temporary_ s = Some t -> temporary_notified_ s = true ->
  update_terminal deadline t s = Some c -> justified rounds told (o_outcome c).
Proof.
  intros [U P N _ _] T TN. rewrite update_terminal_fold. intros H.
  apply fold_keep in H as [H|(u & M & H)]; [discriminate|]. unfold update_candidate in H.
  destruct (update_counts deadline u) eqn:C; [|discriminate].
  specialize (U u M C). specialize (P t T). specialize (N t T TN).
  assert (t_chat_id t = chat_id) as TC by (destruct P as (m & _ & _ & ->); reflexivity).
  destruct (outcome_from_update (u_update u) t) as [o|] eqn:O; [|discriminate]. injection H as <-. cbn [o_outcome].
  unfold justified. destruct (u_update u) as [g i m|g i m e|g i l b b']; cbn [outcome_from_update] in O.
  - destruct (_ || _) eqn:G; [discriminate|]. bool_split. z_bool. subst g i.
    destruct m as [m|]; [|now injection O as <-]. rewrite TC in O.
    destruct (success_from m (Some t) chat_id) as [o'|] eqn:S; [|now injection O as <-].
    injection O as ->. rewrite (success_mutation _ _ _ _ S). exists m. right. exists t. auto.
  - destruct (_ || _) eqn:G; [discriminate|]. bool_split. z_bool. subst g i.
    destruct m as [m|]; [|now injection O as <-]. destruct e as [e|]; [|now injection O as <-].
    rewrite TC in O. destruct (valid_failed_message m chat_id) eqn:V; [|now injection O as <-].
    cbn [andb] in O. destruct (eq_dec _ _); [|now injection O as <-]. injection O as <-.
    rewrite failure_mutation. right. left. exists t, m, e. auto.
  - destruct (_ || _ || _); [discriminate|]. destruct (_ || _); now injection O as <-.
Qed.

(** An update never reports a lost authorization. *)
Lemma update_not_auth t s c : update_terminal deadline t s = Some c -> authorization_precedes_temporary c = false.
Proof.
  rewrite update_terminal_fold. intros H. apply fold_keep in H as [H|(u & _ & H)]; [discriminate|].
  unfold update_candidate in H. destruct (update_counts _ _); [|discriminate].
  destruct (outcome_from_update _ _) as [o|] eqn:O; [|discriminate]. injection H as <-.
  unfold authorization_precedes_temporary. cbn [o_outcome].
  destruct (u_update u) as [g i m|g i m e|g i l b b']; cbn [outcome_from_update] in O.
  - destruct (_ || _); [discriminate|]. destruct m as [m|]; [|now injection O as <-].
    unfold success_from in O. destruct (_ || _); now injection O as <-.
  - destruct (_ || _); [discriminate|]. destruct m as [m|], e as [e|]; try now injection O as <-.
    destruct (_ && _); [|now injection O as <-]. unfold failure_from in O.
    destruct (_ =? _); now injection O as <-.
  - destruct (_ || _ || _); [discriminate|]. destruct (_ || _); now injection O as <-.
Qed.

Lemma earliest_in f g c : earliest f g = Some c -> f = Some c \/ g = Some c.
Proof. unfold earliest. destruct f as [f|], g as [g|]; auto; destruct (o_sequence f <? o_sequence g); auto. Qed.

Lemma justified_possible rounds told o : mutation_of o = MutationPossible -> justified rounds told o.
Proof. unfold justified. now intros ->. Qed.

Lemma consume_knows rounds told r s :
  knows rounds told s -> response_consumed_ s = false -> met_response rounds r ->
  let '(c, s') := consume_response deadline r sent chat_id sending_id s in
  knows rounds told s' /\ (forall x, c = Some x -> justified rounds told (o_outcome x))
  /\ temporary_notified_ s' = false /\ response_consumed_ s' = true.
Proof.
  intros [U P N F G] C M. specialize (F C). specialize (G F).
  assert (knows rounds told { s with response_consumed_ := true }) as K
    by (split; cbn; auto; discriminate).
  assert (forall c, (forall x, c = Some x -> justified rounds told (o_outcome x)) ->
    let '(c, s') := (c, { s with response_consumed_ := true }) in
    knows rounds told s' /\ (forall x, c = Some x -> justified rounds told (o_outcome x))
    /\ temporary_notified_ s' = false /\ response_consumed_ s' = true) as D by (cbn; auto).
  assert (forall q o, mutation_of o = MutationPossible ->
    forall x, at_sequence q o = Some x -> justified rounds told (o_outcome x)) as Q.
  { intros q o E x [= <-]. now apply justified_possible. }
  destruct r as [q o v|f|]; cbn [consume_response].
  2: { apply D. intros x [= <-]. right. right. exists f. auto. }
  2: { apply D, Q. reflexivity. }
  destruct (_ || _) eqn:S; [apply D, Q; reflexivity|]. bool_split. z_bool.
  destruct (event_precedes_deadline o deadline) eqn:E; [|apply D, Q; reflexivity].
  destruct v as [e|i|m|]; [apply D, Q, failure_mutation | apply D, Q; reflexivity | | apply D, Q; reflexivity].
  assert (returned rounds m) as R by (exists q, o; auto).
  cbn [negb]. destruct (ss_kind (w_sending_state m)) eqn:KD.
  - apply D. destruct (success_from m None chat_id) as [x|] eqn:SF; [|now apply Q].
    intros y [= <-]. unfold justified. cbn [o_outcome]. rewrite (success_mutation _ _ _ _ SF). exists m. auto.
  - destruct (valid_pending_message m chat_id sending_id) eqn:V; [|apply D, Q; reflexivity]. cbn [negb].
    split; [|cbn; repeat split; auto; discriminate].
    split; destruct s; cbn in *; auto; try discriminate; unfold constant; subst.
    all: intros t [= <-]; try discriminate. exists m. auto.
  - destruct (ss_error (w_sending_state m)) as [e|] eqn:SE; [|apply D, Q; reflexivity].
    destruct (valid_failed_message m chat_id) eqn:V; [|apply D, Q; reflexivity]. cbn [negb].
    apply D. intros x [= <-]. unfold justified. cbn [o_outcome]. rewrite failure_mutation. left. eauto 6.
  - apply D, Q. reflexivity.
Qed.

Lemma record_auth_knows rounds told current s : knows rounds told s -> knows rounds told (record_auth current s).
Proof.
  destruct current as [a|]; [|auto]. intros [U P N F G].
  destruct (record_other (RecordedAuth a) s) as (T & Q & R). pose proof (record_updates (RecordedAuth a) s) as V.
  cbn [record] in *. rewrite app_nil_r in V. split; rewrite ?T, ?Q, ?R, ?V; auto.
Qed.

(** A round keeps what is known, and what it selects is justified. *)
Lemma arbitrate_knows rounds told current ready now s :
  knows rounds told s -> (forall r, ready = Some r -> met_response rounds r) ->
  let '(d, s') := arbitrate_visible deadline current ready sent chat_id sending_id now s in
  if notify_temporary d
  then exists t, temporary_ s' = Some t /\ knows rounds (t :: told) s'
  else knows rounds told s' /\ forall c, selected d = Some c -> justified rounds told (o_outcome c).
Proof.
  intros K M. unfold arbitrate_visible. apply (record_auth_knows _ _ current) in K.
  set (s0 := record_auth current s) in *. clearbody s0. clear s.
  assert (exists c auth s1,
    (if response_consumed_ s0 then (None, auth_terminal deadline sent s0, s0)
     else match ready with
          | None => (None, auth_terminal deadline sent s0, s0)
          | Some response =>
              let '(chosen, s) := consume_response deadline response sent chat_id sending_id s0 in
              (chosen, auth_terminal deadline sent s, s)
          end) = (c, auth, s1)
    /\ knows rounds told s1 /\ (forall x, c = Some x -> justified rounds told (o_outcome x))
    /\ (forall x, auth = Some x -> justified rounds told (o_outcome x))) as (c & auth & s1 & -> & K1 & J & JA).
  { assert (forall x, auth_terminal deadline sent s0 = Some x -> justified rounds told (o_outcome x)) as A
      by (intros x; apply auth_terminal_justified).
    destruct (response_consumed_ s0) eqn:C;
      [eexists _, _, _; split; [reflexivity|]; split; [exact K | split; [discriminate | exact A]]|].
    destruct ready as [r|];
      [|eexists _, _, _; split; [reflexivity|]; split; [exact K | split; [discriminate | exact A]]].
    pose proof (consume_knows rounds told r s0 K C (M r eq_refl)) as H.
    destruct (consume_response _ _ _ _ _ _) as [c s1]. destruct H as (K1 & J & _).
    eexists _, _, _. split; [reflexivity|]. split; [exact K1|]. split; [exact J|].
    intros x. apply auth_terminal_justified. }
  assert (forall x, earliest c auth = Some x -> justified rounds told (o_outcome x)) as JE
    by (intros x H; apply earliest_in in H as [H|H]; auto).
  assert (forall x o, (forall y, o = Some y -> justified rounds told (o_outcome y)) ->
    match o with
    | Some _ => o
    | None => if deadline_expired deadline now
              then at_sequence u64_max (SingleSendTimedOut (temporary_ s1) MutationPossible) else None
    end = Some x -> justified rounds told (o_outcome x)) as JD.
  { intros x [y|] H; [intros [= <-]; auto|]. destruct (deadline_expired _ _); [|discriminate].
    intros [= <-]. now apply justified_possible. }
  destruct (temporary_ s1) as [t|] eqn:T; cbn [notify_temporary selected]; rewrite ?T;
    [|split; [exact K1|]; intros y; apply JD; exact JE].
  destruct (negb (temporary_notified_ s1)) eqn:N; cbn [andb].
  - apply negb_true_iff in N.
    assert (forall x, earliest (earliest c auth) (update_terminal deadline t s1) = Some x ->
      authorization_precedes_temporary x = true -> justified rounds told (o_outcome x)) as JU.
    { intros x H A. apply earliest_in in H as [H|H]; [auto|]. apply update_not_auth in H. congruence. }
    destruct (earliest (earliest c auth) (update_terminal deadline t s1)) as [x|] eqn:E.
    + destruct (authorization_precedes_temporary x) eqn:A; cbn [negb notify_temporary selected].
      * split; [exact K1|]. intros y [= <-]. auto.
      * exists t. split; [now destruct s1|]. destruct K1 as [U P Q F G].
        split; destruct s1; cbn in *; auto; try congruence. intros t' E'. left. congruence.
    + cbn [notify_temporary]. exists t. split; [now destruct s1|]. destruct K1 as [U P Q F G].
      split; destruct s1; cbn in *; auto; try congruence. intros t' E'. left. congruence.
  - apply negb_false_iff in N. cbn [notify_temporary selected]. rewrite T. split; [exact K1|].
    intros x. apply JD. intros y H. apply earliest_in in H as [H|H]; [auto|].
    exact (update_justified rounds told s1 t y K1 T N H).
Qed.

Lemma justified_mono rounds rounds' told told' o :
  incl rounds rounds' -> incl told told' -> justified rounds told o -> justified rounds' told' o.
Proof.
  intros I T. unfold justified. destruct (mutation_of o); [|auto|].
  - intros [(m & e & R & H)|[(t & m & e & O & IT & M & H)|(f & (r & M & H) & E)]].
    + left. exists m, e. split; [now apply (returned_mono rounds) | exact H].
    + right. left. exists t, m, e. repeat split; auto.
      * now apply (own_temporary_mono rounds).
      * now apply (met_update_mono rounds).
    + right. right. exists f. split; [|exact E]. exists r. auto.
  - intros (m & [(R & H)|(t & O & IT & M & H)]); exists m; [left | right].
    + split; [now apply (returned_mono rounds) | exact H].
    + exists t. repeat split; auto; [now apply (own_temporary_mono rounds) | now apply (met_update_mono rounds)].
Qed.

Lemma wait_justified past rounds told s :
  knows past told s ->
  let '(o, told', s') := wait_for_terminal deadline sent chat_id sending_id rounds s in
  forall x, o = Some x -> justified (past ++ rounds) (told' ++ told) x.
Proof.
  revert past told s. induction rounds as [|round rounds IH]; intros past told s K; cbn [wait_for_terminal];
    [discriminate|].
  apply (knows_record _ _ round) in K. set (s0 := fold_left _ _ s) in *. clearbody s0.
  pose proof (arbitrate_knows (past ++ [round]) told (r_current round) (r_ready round) (r_now round) s0 K) as A.
  destruct (arbitrate_visible _ _ _ _ _ _ _ _) as [d s1].
  specialize (A ltac:(intros r E; exists round; split; [apply in_app_iff; right; now left | exact E])).
  assert (incl (past ++ [round]) (past ++ round :: rounds)) as I
    by (intros x; rewrite !in_app_iff; cbn; tauto).
  destruct (notify_temporary d).
  - destruct A as (t & T & K1). rewrite T. destruct (r_notified round).
    + specialize (IH _ _ _ K1). destruct (wait_for_terminal _ _ _ _ rounds s1) as [[o told'] s2].
      rewrite <- app_assoc in IH. intros x E. apply (justified_mono (past ++ [round] ++ rounds) _ (told' ++ t :: told)).
      * apply incl_refl.
      * intros y. cbn. rewrite !in_app_iff. cbn. tauto.
      * auto.
    + intros x [= <-]. now apply justified_possible.
  - destruct A as [K1 J]. destruct (selected d) as [c|].
    + intros x [= <-]. apply (justified_mono (past ++ [round]) _ told); [exact I | cbn; apply incl_refl | auto].
    + destruct (r_cancelled round); [intros x [= <-]; now apply justified_possible|].
      specialize (IH _ _ _ K1). destruct (wait_for_terminal _ _ _ _ rounds s1) as [[o told'] s2].
      rewrite <- app_assoc in IH. exact IH.
Qed.

End claims.

(** ** The whole request *)

(** The events recorded during preparation count as those of a round. *)
Definition preparation_round (p : Preparation) : Round :=
  {| r_recorded := pr_recorded p; r_current := None; r_ready := None; r_now := pr_now p;
     r_notified := false; r_cancelled := false |}.

Definition met_rounds (p : Preparation) (x : Submission) : list Round := preparation_round p :: x_rounds x.

Lemma knows_fields deadline sent chat sending rounds told s s' :
  updates_ s' = updates_ s -> temporary_ s' = temporary_ s ->
  temporary_notified_ s' = temporary_notified_ s -> response_consumed_ s' = response_consumed_ s ->
  knows deadline sent chat sending rounds told s -> knows deadline sent chat sending rounds told s'.
Proof. intros U T N R [A B C D E]. split; rewrite ?U, ?T, ?N, ?R; auto. Qed.

Lemma record_in_flight r s : in_flight_ (record r s) = in_flight_ s.
Proof. destruct r as [u|a|]; cbn; auto. destruct (latest_auth_ s); [destruct (auth_later _ _)|]; auto. Qed.

Lemma records_keep {A} (f : Impl -> A) l s :
  (forall r s, f (record r s) = f s) -> f (fold_left (fun s r => record r s) l s) = f s.
Proof. intros H. revert s. induction l as [|r l IH]; intros s; cbn; [reflexivity|]. now rewrite IH, H. Qed.

Lemma consume_in_flight deadline r sent chat sending s :
  in_flight_ (snd (consume_response deadline r sent chat sending s)) = in_flight_ s.
Proof.
  unfold consume_response. destruct r as [q o v|f|]; [|now destruct s..].
  destruct (_ || _); [now destruct s|]. destruct (negb _); [now destruct s|].
  destruct v as [e|i|m|]; try now destruct s.
  destruct (ss_kind (w_sending_state m)); [now destruct s | | |now destruct s].
  - destruct (negb _); now destruct s.
  - destruct (ss_error (w_sending_state m)); [destruct (negb _)|]; now destruct s.
Qed.

Lemma arbitrate_in_flight deadline current ready sent chat sending now s :
  in_flight_ (snd (arbitrate_visible deadline current ready sent chat sending now s)) = in_flight_ s.
Proof.
  assert (in_flight_ (record_auth current s) = in_flight_ s) as R.
  { destruct current as [a|]; [exact (record_in_flight (RecordedAuth a) s) | reflexivity]. }
  unfold arbitrate_visible. rewrite <- R. set (s0 := record_auth current s) in *. clearbody s0. clear R.
  destruct (response_consumed_ s0); [|destruct ready as [r|]].
  2: { pose proof (consume_in_flight deadline r sent chat sending s0) as C.
       destruct (consume_response _ _ _ _ _ _) as [c s1]. cbn [snd] in C. rewrite <- C. clear C.
       destruct (temporary_ s1); [|reflexivity]. destruct (_ && _); now destruct s1. }
  all: destruct (temporary_ s0); [destruct (_ && _)|]; now destruct s0.
Qed.

Lemma wait_in_flight deadline sent chat sending rounds s :
  in_flight_ (snd (wait_for_terminal deadline sent chat sending rounds s)) = in_flight_ s.
Proof.
  revert s. induction rounds as [|round rounds IH]; intros s; cbn [wait_for_terminal]; [reflexivity|].
  rewrite <- (records_keep in_flight_ (r_recorded round) s record_in_flight).
  set (s0 := fold_left _ _ s). clearbody s0.
  pose proof (arbitrate_in_flight deadline (r_current round) (r_ready round) sent chat sending (r_now round) s0) as A.
  destruct (arbitrate_visible _ _ _ _ _ _ _ _) as [d s1]. cbn [snd] in A. rewrite <- A. clear A.
  destruct (notify_temporary d).
  - destruct (temporary_ s1); [|reflexivity]. destruct (r_notified round); [|reflexivity].
    specialize (IH s1). now destruct (wait_for_terminal _ _ _ _ rounds s1) as [[? ?] ?].
  - destruct (selected d); [reflexivity|]. destruct (r_cancelled round); [reflexivity | apply IH].
Qed.

Section request.
Context (deadline : RequestDeadline) (request : SendRequest) (authorization : AuthStateSnapshot).
Context (current : option AuthStateSnapshot) (f n : Z) (p : Preparation).

Definition fresh_world : World := {| impl := new_impl current; flights := f; submitted := n |}.

Abbreviation knows' := (knows deadline authorization (q_chat_id request) (q_sending_id request)).

Lemma fresh_knows : knows' [] [] (new_impl current).
Proof.
  unfold new_impl. destruct current as [a|]; split; cbn; try tauto; congruence.
Qed.

(** A preparation that fails has submitted nothing, kept nothing and says so; one
    that succeeds holds a reservation and the request. *)
Lemma prepare_reserved_spec w :
  in_flight_ (impl w) = false -> knows' [] [] (impl w) ->
  let '(o, w') := prepare_reserved deadline request authorization p w in
  submitted w' = submitted w
  /\ match o with
     | PreparationOutcome o => flights w' = flights w /\ mutation_of o = MutationNone
     | SingleSendPrepared =>
         flights w' = flights w + 1 /\ in_flight_ (impl w') = true
         /\ prepared_ (impl w') = true /\ prepared_write_ (impl w') = true
         /\ authorization_ (impl w') = Some authorization
         /\ chat_id_ (impl w') = q_chat_id request /\ sending_id_ (impl w') = q_sending_id request
         /\ knows' [preparation_round p] [] (impl w')
     end.
Proof.
  intros IF K. unfold prepare_reserved.
  set (s0 := { impl w with in_flight_ := true; chat_id_ := q_chat_id request;
               sending_id_ := q_sending_id request; authorization_ := Some authorization }).
  assert (knows' [preparation_round p] [] (fold_left (fun s r => record r s) (pr_recorded p) s0)) as K1.
  { apply (knows_record _ _ _ _ [] [] (preparation_round p)), (knows_fields _ _ _ _ _ _ (impl w)); auto;
      now destruct (impl w). }
  assert (in_flight_ s0 = true /\ chat_id_ s0 = q_chat_id request /\ sending_id_ s0 = q_sending_id request
    /\ authorization_ s0 = Some authorization) as (F & C & S & A) by now destruct (impl w).
  clearbody s0. set (s1 := fold_left _ _ s0) in *.
  assert (in_flight_ s1 = true /\ chat_id_ s1 = q_chat_id request /\ sending_id_ s1 = q_sending_id request
    /\ authorization_ s1 = Some authorization) as (F1 & C1 & S1 & A1).
  { unfold s1. rewrite !records_keep by (intros [u|a|] s; cbn; auto; destruct (latest_auth_ s);
      [destruct (auth_later _ _)|]; auto). auto. }
  clearbody s1. clear s0 F C S A.
  assert (forall s2, in_flight_ s2 = true ->
    let w' := drop_write {| impl := s2; flights := flights w + 1; submitted := submitted w |} in
    submitted w' = submitted w /\ flights w' = flights w) as D.
  { intros s2 E. unfold drop_write, settle_in_flight, with_impl. destruct s2. cbn in *. subst. cbn. lia. }
  destruct (pr_write p) as [[]|failure].
  - destruct (deadline_expired _ _);
      [destruct (D { s1 with prepared_write_ := true }) as [D1 D2]; [now destruct s1|]; auto|].
    destruct (pr_cancelled_prepared p);
      [destruct (D { s1 with prepared_write_ := true }) as [D1 D2]; [now destruct s1|]; auto|].
    split; [reflexivity|]. split; [reflexivity|]. cbn [impl with_impl].
    split; [now destruct s1|]. do 5 (split; [now destruct s1|]).
    apply (knows_fields _ _ _ _ _ _ s1); auto; now destruct s1.
  - destruct (D s1 F1) as [D1 D2]. split; [exact D1|]. split; [exact D2|].
    destruct (auth_terminal _ _ _) as [[q []]|]; reflexivity.
Qed.

Lemma execute_prepared_spec x w told o w' :
  in_flight_ (impl w) = true -> prepared_ (impl w) = true -> prepared_write_ (impl w) = true ->
  authorization_ (impl w) = Some authorization ->
  chat_id_ (impl w) = q_chat_id request -> sending_id_ (impl w) = q_sending_id request ->
  knows' [preparation_round p] [] (impl w) ->
  execute_prepared deadline x w = (Some o, told, w') ->
  flights w' = flights w - 1 /\ submitted w <= submitted w' <= submitted w + 1
  /\ (submitted w' = submitted w -> mutation_of o = MutationPossible)
  /\ justified deadline authorization (q_chat_id request) (q_sending_id request) (met_rounds p x) told o.
Proof.
  intros IF P PW A C S K. unfold execute_prepared. rewrite A, P, PW. cbn [negb orb].
  assert (forall s k, in_flight_ s = true ->
    let w' := settle_in_flight {| impl := s; flights := flights w; submitted := k |} in
    flights w' = flights w - 1 /\ submitted w' = k) as D.
  { intros s k E. unfold settle_in_flight. cbn [impl]. rewrite E. auto. }
  assert (forall o', mutation_of o' = MutationPossible -> justified deadline authorization (q_chat_id request)
    (q_sending_id request) (met_rounds p x) told o') as J by (intros o'; apply justified_possible).
  set (s0 := { impl w with prepared_ := false }).
  assert (in_flight_ { s0 with prepared_write_ := false } = true) as F0 by (unfold s0; now destruct (impl w)).
  assert (forall o', mutation_of o' = MutationPossible ->
    (Some o', [], drop_write (with_impl s0 w)) = (Some o, told, w') ->
    flights w' = flights w - 1 /\ submitted w <= submitted w' <= submitted w + 1
    /\ (submitted w' = submitted w -> mutation_of o = MutationPossible)
    /\ justified deadline authorization (q_chat_id request) (q_sending_id request) (met_rounds p x) told o) as Q.
  { intros o' M [= <- <- <-]. destruct (D _ (submitted w) F0) as [D1 D2].
    split; [exact D1|]. split; [unfold drop_write, with_impl; cbn [impl flights submitted]; lia | auto]. }
  destruct (x_before_submit x); [|now apply Q]. destruct (deadline_expired _ _); [now apply Q|].
  destruct (x_cancelled x); [now apply Q|]. cbn [negb]. clear Q.
  assert (knows' [preparation_round p] [] { s0 with prepared_write_ := false }) as K0
    by (unfold s0; apply (knows_fields _ _ _ _ _ _ (impl w)); auto; now destruct (impl w)).
  assert (chat_id_ { s0 with prepared_write_ := false } = q_chat_id request
    /\ sending_id_ { s0 with prepared_write_ := false } = q_sending_id request) as [C0 S0]
    by (unfold s0; now destruct (impl w)).
  change (impl (with_impl s0 w)) with s0. change (flights (with_impl s0 w)) with (flights w).
  change (submitted (with_impl s0 w)) with (submitted w).
  set (s1 := { s0 with prepared_write_ := false }) in *. clearbody s1. clear s0.
  destruct (D s1 (submitted w + 1) F0) as [D1 D2].
  destruct (x_sent x); cbn [negb]; [|intros [= <- <- <-]; rewrite D1, D2; repeat split; try lia; now apply J].
  cbn [impl]. rewrite C0, S0.
  pose proof (wait_justified _ _ _ _ [preparation_round p] (x_rounds x) [] s1 K0) as W.
  pose proof (wait_in_flight deadline authorization (q_chat_id request) (q_sending_id request) (x_rounds x) s1) as WF.
  destruct (wait_for_terminal _ _ _ _ _ s1) as [[[o'|] told'] s2]; [|discriminate].
  intros [= <- <- <-]. cbn [snd] in WF. rewrite F0 in WF. destruct (D s2 (submitted w + 1) WF) as [E1 E2].
  unfold with_impl. cbn [flights submitted]. rewrite E1, E2. rewrite app_nil_r in W. repeat split; try lia.
  now apply W.
Qed.

(** C8.  What a send claims is true.  However the events arrive, when the
    coordinator returns, its in-flight reservation is settled and the request was
    given to TDLib at most once; if it was not, no mutation is confirmed; if it
    was, a confirmed mutation rests on a valid sent message that Telegram
    returned or with which it replaced the temporary message of this request
    (whose id was recorded before), and the claim that nothing was mutated rests
    on a failure that Telegram reported for this message or on the client's
    refusal to submit it. *)
Theorem send_claims_justified x o told w' :
  execute deadline request (Some authorization) p x fresh_world = (Some o, told, w') ->
  flights w' = f /\ n <= submitted w' <= n + 1
  /\ (submitted w' = n -> mutation_of o <> MutationConfirmed)
  /\ (submitted w' = n + 1 ->
      justified deadline authorization (q_chat_id request) (q_sending_id request) (met_rounds p x) told o).
Proof.
  unfold execute, prepare, fresh_world. cbn [impl].
  assert (executed_ (new_impl current) = false /\ in_flight_ (new_impl current) = false) as [X IF]
    by (unfold new_impl; destruct current as [a|]; auto).
  rewrite X. cbn [orb].
  assert (forall o', mutation_of o' <> MutationConfirmed -> forall w1, flights w1 = f -> submitted w1 = n ->
    (Some o', [], w1) = (Some o, told, w') ->
    flights w' = f /\ n <= submitted w' <= n + 1 /\ (submitted w' = n -> mutation_of o <> MutationConfirmed)
    /\ (submitted w' = n + 1 ->
        justified deadline authorization (q_chat_id request) (q_sending_id request) (met_rounds p x) told o)) as E.
  { intros o' M w1 F N [= <- <- <-]. rewrite F, N. repeat split; try lia. auto. }
  destruct (_ || _); [now apply E|]. destruct (deadline_expired _ _); [now apply E|].
  destruct (pr_before_request p); [|now apply E]. destruct (deadline_expired _ _); [now apply E|].
  destruct (pr_cancelled p); [now apply E|]. destruct (pr_reserved p); [|now apply E]. cbn [negb].
  pose proof (prepare_reserved_spec (with_impl { new_impl current with executed_ := true }
    {| impl := new_impl current; flights := f; submitted := n |})) as R. cbn [with_impl impl flights submitted] in R.
  destruct (prepare_reserved _ _ _ _ _) as [[|o'] w1].
  - destruct R as (N & F & IF1 & P1 & PW & A & C & S & K).
    + unfold new_impl; destruct current as [a|]; reflexivity.
    + apply (knows_fields _ _ _ _ _ _ (new_impl current)); try apply fresh_knows; now destruct (new_impl current).
    + intros H. destruct (execute_prepared_spec _ _ _ _ _ IF1 P1 PW A C S K H) as (F' & N' & M & J).
      rewrite F in F'. rewrite N in *. repeat split; try lia; auto. intros Q. rewrite (M Q). discriminate.
  - destruct R as (N & F & M).
    + unfold new_impl; destruct current as [a|]; reflexivity.
    + apply (knows_fields _ _ _ _ _ _ (new_impl current)); try apply fresh_knows; now destruct (new_impl current).
    + apply E; congruence.
Qed.
End request.

(** * A message that is sent *)

Definition sample_deadline : RequestDeadline := {| expires_at := Some 1000 |}.

Definition sample_authorization : AuthStateSnapshot :=
  {| a_client_generation := 1; a_auth_sequence := 1; a_receive_event_sequence := 1; a_state := Ready;
     a_receive_observed_at := Some 10 |}.

Definition sample_state (kind : TdMessageSendingStateKind) (sending_id : Z) : TdMessageSendingState :=
  {| ss_kind := kind; ss_sending_id := sending_id; ss_error := None; ss_can_retry := false;
     ss_need_another_sender := false; ss_need_another_reply_quote := false; ss_need_drop_reply := false;
     ss_required_paid_message_star_count := 0; ss_retry_after := SpecFloat.S754_zero false;
     ss_unsupported_tdlib_type_id := None |}.

Definition sample_message (id : Z) (state : TdMessageSendingState) : TdWriteMessage :=
  {| w_message :=
       {| m_id := id; m_chat_id := 7; m_date := 5; m_is_outgoing := true; m_topic := None;
          m_sender := {| ts_kind := SenderUser; ts_id := 3; ts_tdlib_type_id := 0 |};
          m_content_kind := ContentText; m_text := "hello" |};
     w_sending_state := state;
     w_scheduling_state := {| sc_kind := ScheduleNone; sc_send_date := 0; sc_repeat_period := 0;
                              sc_unsupported_tdlib_type_id := None |};
     w_has_reply_markup := false |}.

Definition sample_pending : TdWriteMessage := sample_message 100 (sample_state SendingPending 9).
Definition sample_sent : TdWriteMessage := sample_message 200 (sample_state SendingStable 0).

Definition sample_update : SendUpdate := TdUpdateMessageSendSucceeded 1 100 (Some sample_sent).

Definition sample_preparation : Preparation :=
  {| pr_now := 10; pr_before_request := true; pr_now_after_hook := 11; pr_cancelled := false;
     pr_reserved := true; pr_recorded := []; pr_write := Ok tt; pr_now_prepared := 12;
     pr_cancelled_prepared := false |}.

Definition sample_submission : Submission :=
  {| x_before_submit := true; x_now := 13; x_cancelled := false; x_sent := true;
     x_rounds :=
       [ {| r_recorded := [Woken]; r_current := Some sample_authorization;
            r_ready := Some (Received 5 (Some 50) (ReplyMessage sample_pending)); r_now := 51;
            r_notified := true; r_cancelled := false |};
         {| r_recorded := [RecordedUpdate {| u_sequence := 6; u_observed_at := Some 60; u_update := sample_update |}];
            r_current := Some sample_authorization; r_ready := None; r_now := 61; r_notified := true;
            r_cancelled := false |} ] |}.

Definition sample_request : SendRequest := {| q_chat_id := 7; q_sending_id := 9; q_valid := true |}.

Definition sample_outcome : option SingleSendOutcome * list SingleSendTemporaryId * World :=
  execute sample_deadline sample_request (Some sample_authorization) sample_preparation sample_submission
    (fresh_world (Some sample_authorization) 0 0).

Lemma send_claims_justified_witness :
  exists o told w, sample_outcome = (Some o, told, w) /\ flights w = 0
    /\ mutation_of o = MutationConfirmed
    /\ confirmed sample_deadline sample_authorization 7 9
         (met_rounds sample_preparation sample_submission) told o.
Proof.
  destruct sample_outcome as [[[o|] told] w] eqn:E; [|discriminate E].
  exists o, told, w. split; [reflexivity|].
  assert (mutation_of o = MutationConfirmed) as M by (injection E as <- _ _; reflexivity).
  assert (submitted w = 0 + 1) as S by (injection E as _ _ <-; reflexivity).
  destruct (send_claims_justified sample_deadline sample_request sample_authorization
    (Some sample_authorization) 0 0 sample_preparation sample_submission o told w E) as (F & _ & _ & J).
  specialize (J S). unfold justified in J. rewrite M in J. auto.
Defined.
