(* ===== verification/SingleSendOrder.v ===== *)
(** The outcome of a send is the first decisive event in the order of reception,
    whenever the waiting thread wakes up. *)
From S2P Require Import Prelude Deadline SingleSend SingleSendFacts.
From coqutil Require Import Datatypes.RecordSetters.
Import OCamlLikeNotations.

(** * Histories *)

(** A history: what TDLib delivered, in the order of reception, each event with its
    sequence number and the instant at which it was observed. *)
Inductive Happened := HResponse (value : TdReply) | HUpdate (update : SendUpdate) | HAuth (snapshot : AuthStateSnapshot).

Record Occurrence := { h_sequence : Z; h_at : Z; h_event : Happened }.

Definition recorded_of (x : Occurrence) : list Recorded :=
  match h_event x with
  | HResponse _ => [Woken]
  | HUpdate u => [RecordedUpdate {| u_sequence := h_sequence x; u_observed_at := Some (h_at x); u_update := u |}]
  | HAuth a => [RecordedAuth a]
  end.

Definition response_in (h : list Occurrence) : option Response :=
  match filter (fun x => match h_event x with HResponse _ => true | _ => false end) h with
  | {| h_sequence := q; h_at := t; h_event := HResponse v |} :: _ => Some (Received q (Some t) v)
  | _ => None
  end.

Definition auths (h : list Occurrence) : list AuthStateSnapshot :=
  flat_map (fun x => match h_event x with HAuth a => [a] | _ => [] end) h.

(** When the waiting thread looks: how many more events it sees, and what it meets
    besides. *)
Record Glance := { g_new : nat; g_now : Z; g_notified : bool; g_cancelled : bool }.

(** The state a client shows is the last it delivered. *)
Definition last_auth (h : list Occurrence) : option AuthStateSnapshot := last (map Some (auths h)) None.

Definition round_of (seen new : list Occurrence) (g : Glance) : Round :=
  {| r_recorded := flat_map recorded_of new; r_current := last_auth (seen ++ new);
     r_ready := response_in (seen ++ new); r_now := g_now g; r_notified := g_notified g;
     r_cancelled := g_cancelled g |}.

Fixpoint rounds_of (seen rest : list Occurrence) (schedule : list Glance) : list Round :=
  match schedule with
  | [] => []
  | g :: schedule =>
      round_of seen (firstn (g_new g) rest) g
      :: rounds_of (seen ++ firstn (g_new g) rest) (skipn (g_new g) rest) schedule
  end.

Section order.
Context (deadline : RequestDeadline) (sent : AuthStateSnapshot) (chat_id sending_id : Z).

(** The temporary message of a history, with the sequence number of the response
    that named it in time. *)
Definition pending_in (h : list Occurrence) : option (SingleSendTemporaryId * Z) :=
  match response_in h with
  | Some (Received q at_ (ReplyMessage m)) =>
      if event_precedes_deadline at_ deadline then
        match classify_immediate m (a_client_generation sent) chat_id sending_id with
        | SingleSendImmediatePending t => Some (t, q)
        | _ => None
        end
      else None
  | _ => None
  end.

(** What an event decides, given the temporary message. *)
Definition lost (pending : option (SingleSendTemporaryId * Z)) (a : AuthStateSnapshot) : SingleSendOutcome :=
  let temporary :=
    match pending with
    | Some (t, q) => if q <? a_receive_event_sequence a then Some t else None
    | None => None
    end in
  if negb (a_client_generation a =? a_client_generation sent) || is_closed (a_state a)
  then SingleSendGenerationClosed temporary (a_client_generation sent) MutationPossible
  else SingleSendAuthorizationLost temporary (a_client_generation a) (a_auth_sequence a) (a_state a) MutationPossible.

Definition answered (v : TdReply) : option SingleSendOutcome :=
  match v with
  | ReplyError e => Some (failure_from e None MutationPossible None)
  | ReplyConversionError i => Some (malformed None i)
  | ReplyOther => Some (malformed None None)
  | ReplyMessage m =>
      match classify_immediate m (a_client_generation sent) chat_id sending_id with
      | SingleSendImmediatePending _ => None
      | ImmediateOutcome o => Some o
      end
  end.

(** What a response decides: one that was observed at the deadline or later is a
    timeout. *)
Definition replied (at_ : Z) (v : TdReply) : option SingleSendOutcome :=
  if event_precedes_deadline (Some at_) deadline then answered v
  else Some (SingleSendTimedOut None MutationPossible).

Definition in_time (x : Occurrence) : bool := event_precedes_deadline (Some (h_at x)) deadline.

Definition decides (pending : option (SingleSendTemporaryId * Z)) (x : Occurrence) : option SingleSendOutcome :=
  match h_event x with
  | HResponse v => replied (h_at x) v
  | HUpdate u =>
      match pending with
      | Some (t, _) => if in_time x then outcome_from_update u t else None
      | None => None
      end
  | HAuth a => if auth_counts deadline sent a then Some (lost pending a) else None
  end.

Fixpoint first_of (f : Occurrence -> option SingleSendOutcome) (h : list Occurrence) : option StampedOutcome :=
  match h with
  | [] => None
  | x :: h =>
      match f x with
      | Some o => Some {| o_sequence := h_sequence x; o_outcome := o |}
      | None => first_of f h
      end
  end.

(** The first decisive event of a history. *)
Definition first_decisive (h : list Occurrence) : option StampedOutcome := first_of (decides (pending_in h)) h.

(** ** Facts about first events *)

Definition ascending (h : list Occurrence) : Prop :=
  forall h1 x h2 y, h = h1 ++ x :: h2 -> In y h2 -> h_sequence x < h_sequence y.

Lemma ascending_tail x h : ascending (x :: h) -> ascending h.
Proof. intros A h1 y h2 z E. apply (A (x :: h1) y h2 z). cbn. now rewrite E. Qed.

Lemma ascending_head x h y : ascending (x :: h) -> In y h -> h_sequence x < h_sequence y.
Proof. intros A. apply (A [] x h y eq_refl). Qed.

Lemma ascending_prefix h h' : ascending (h ++ h') -> ascending h.
Proof.
  intros A h1 x h2 y E I. apply (A h1 x (h2 ++ h') y); [now rewrite E, <- app_assoc | apply in_app_iff; auto].
Qed.

Lemma first_of_in f h c :
  first_of f h = Some c -> exists x, In x h /\ f x = Some (o_outcome c) /\ o_sequence c = h_sequence x.
Proof.
  induction h as [|x h IH]; cbn; [discriminate|]. destruct (f x) as [o|] eqn:F.
  - intros [= <-]. exists x. auto.
  - intros H. destruct (IH H) as (y & I & E). exists y. auto.
Qed.

Lemma first_of_ext f g h : (forall x, In x h -> f x = g x) -> first_of f h = first_of g h.
Proof.
  induction h as [|x h IH]; intros E; cbn; [reflexivity|]. rewrite (E x (or_introl eq_refl)).
  rewrite IH; [reflexivity|]. intros y I. apply E. now right.
Qed.

Lemma first_of_none f g h : (forall x, f x = None -> g x = None) -> first_of f h = None -> first_of g h = None.
Proof.
  intros E. induction h as [|x h IH]; cbn; [reflexivity|]. destruct (f x) eqn:F; [discriminate|]. now rewrite (E x F).
Qed.

Lemma first_of_app f h h' c : first_of f h = Some c -> first_of f (h ++ h') = Some c.
Proof. induction h as [|x h IH]; cbn; [discriminate|]. destruct (f x); auto. Qed.

(** Of two kinds of events that exclude each other, the earliest is the first of
    either kind. *)
Lemma earliest_first f g h :
  ascending h -> (forall x, In x h -> f x = None \/ g x = None) ->
  earliest (first_of f h) (first_of g h) =
  first_of (fun x => match f x with Some o => Some o | None => g x end) h.
Proof.
  induction h as [|x h IH]; intros A D; cbn; [reflexivity|].
  assert (forall k c, first_of k h = Some c -> h_sequence x < o_sequence c) as LT.
  { intros k c H. apply first_of_in in H as (y & I & _ & ->). exact (ascending_head _ _ _ A I). }
  destruct (D x (or_introl eq_refl)) as [E|E]; rewrite E.
  - destruct (g x) as [o|]; [|apply IH; [exact (ascending_tail _ _ A) | intros y I; apply D; now right]].
    destruct (first_of f h) as [c|] eqn:F; cbn; [|reflexivity]. apply LT in F.
    destruct (Z.ltb_spec (o_sequence c) (h_sequence x)); [lia | reflexivity].
  - destruct (f x) as [o|]; [|apply IH; [exact (ascending_tail _ _ A) | intros y I; apply D; now right]].
    destruct (first_of g h) as [c|] eqn:G; cbn; [|reflexivity]. apply LT in G.
    destruct (Z.ltb_spec (h_sequence x) (o_sequence c)); [reflexivity | lia].
Qed.

(** ** What the folds over recorded events compute *)

Abbreviation keeping k := (fun r x => match k x with Some y => keep_earlier r y | None => r end).

Lemma keeping_stays {B} (k : B -> option StampedOutcome) l c :
  (forall b y, In b l -> k b = Some y -> o_sequence c < o_sequence y) ->
  fold_left (keeping k) l (Some c) = Some c.
Proof.
  induction l as [|b l IH]; intros H; cbn; [reflexivity|]. destruct (k b) as [y|] eqn:E.
  - specialize (H b y (or_introl eq_refl) E) as L. unfold keep_earlier.
    destruct (Z.ltb_spec (o_sequence y) (o_sequence c)); [lia|]. apply IH. intros b' y' I. apply H. now right.
  - apply IH. intros b' y' I. apply H. now right.
Qed.

Lemma keeping_first {B} (k : B -> option StampedOutcome) (e : Occurrence -> list B)
    (f : Occurrence -> option SingleSendOutcome) h :
  ascending h ->
  (forall x, In x h -> (e x = [] /\ f x = None)
     \/ exists b, e x = [b] /\ k b = option_map (fun o => {| o_sequence := h_sequence x; o_outcome := o |}) (f x)) ->
  fold_left (keeping k) (flat_map e h) None = first_of f h.
Proof.
  induction h as [|x h IH]; intros A H; cbn [flat_map first_of]; [reflexivity|].
  rewrite fold_left_app. specialize (IH (ascending_tail _ _ A) (fun y I => H y (or_intror I))).
  destruct (H x (or_introl eq_refl)) as [(-> & ->)|(b & -> & K)]; cbn [fold_left]; [exact IH|].
  rewrite K. destruct (f x) as [o|]; cbn [option_map]; [|exact IH]. cbn [keep_earlier].
  apply keeping_stays. intros b' y I E. apply in_flat_map in I as (z & IZ & IB).
  destruct (H z (or_intror IZ)) as [(N & _)|(b'' & S & K')]; [rewrite N in IB; contradiction|].
  rewrite S in IB. destruct IB as [<-|[]]. rewrite K' in E. destruct (f z); [|discriminate]. injection E as <-.
  cbn. exact (ascending_head _ _ _ A IZ).
Qed.

Lemma keeping_skip {B} (k : B -> option StampedOutcome) l r :
  (forall b, In b l -> k b = None) -> fold_left (keeping k) l r = r.
Proof.
  revert r. induction l as [|b l IH]; intros r H; cbn; [reflexivity|]. rewrite (H b (or_introl eq_refl)).
  apply IH. intros b' I. apply H. now right.
Qed.

(** ** Histories that can happen *)

Context (initial : list AuthStateSnapshot).

(** The client stamps what it delivers, in order and with a clock that does not go
    back, and shows states in the order of their generation and sequence. *)
Definition stamped (x : Occurrence) : Prop :=
  0 < h_sequence x < u64_max /\
  match h_event x with
  | HAuth a => a_receive_event_sequence a = h_sequence x /\ a_receive_observed_at a = Some (h_at x)
  | _ => True
  end.

Fixpoint succeeding (latest : option AuthStateSnapshot) (l : list AuthStateSnapshot) : Prop :=
  match l with
  | [] => True
  | a :: l => match latest with Some b => auth_later a b = true | None => True end /\ succeeding (Some a) l
  end.

Definition is_response (x : Occurrence) : bool := match h_event x with HResponse _ => true | _ => false end.

(** An update that settles the temporary message [t] in time. *)
Definition settles (t : SingleSendTemporaryId) (x : Occurrence) : Prop :=
  match h_event x with HUpdate u => in_time x = true /\ outcome_from_update u t <> None | _ => False end.

(** A state that ends the send. *)
Definition loses (x : Occurrence) : Prop :=
  match h_event x with HAuth a => auth_counts deadline sent a = true | _ => False end.

Record possible (h : list Occurrence) : Prop := {
  ps_ascending : ascending h;
  ps_clock : forall h1 x h2 y, h = h1 ++ x :: h2 -> In y h2 -> h_at x <= h_at y;
  ps_stamped : Forall stamped h;
  ps_succeeding : succeeding (last (map Some initial) None) (auths h);
  (** at most one response *)
  ps_response : forall h1 x h2, h = h1 ++ x :: h2 -> is_response x = true ->
    forallb (fun y => negb (is_response y)) (h1 ++ h2) = true;
  (** the authorization is not lost between an update of the temporary message
      and the response that names the message *)
  ps_updates : forall t q x y, pending_in h = Some (t, q) -> In x h -> settles t x ->
    In y h -> loses y -> h_sequence x < h_sequence y -> q < h_sequence y;
  (** the states shown before are not later than the one that was authorised *)
  ps_initial : forall a, In a initial -> auth_later a sent = false
}.

(** ** The state at a round *)

Definition update_of (x : Occurrence) : list StampedUpdate :=
  match h_event x with
  | HUpdate u => [{| u_sequence := h_sequence x; u_observed_at := Some (h_at x); u_update := u |}]
  | _ => []
  end.

(** The events of [seen] have been recorded. *)
Record shows (seen : list Occurrence) (s : Impl) : Prop := {
  sh_updates : updates_ s = flat_map update_of seen;
  sh_auths : auth_events_ s = initial ++ auths seen;
  sh_latest : latest_auth_ s = last (map Some (initial ++ auths seen)) None
}.

Lemma last_snoc {A} (l : list A) x d : last (l ++ [x]) d = x.
Proof. induction l as [|y l IH]; [reflexivity|]. cbn. rewrite IH. destruct l; reflexivity. Qed.

Lemma succeeding_app latest l a l' :
  succeeding latest (l ++ a :: l') ->
  match last (latest :: map Some l) None with Some b => auth_later a b = true | None => True end.
Proof.
  revert latest. induction l as [|c l IH]; intros latest; cbn [app succeeding map].
  - intros [H _]. exact H.
  - intros [_ H]. exact (IH (Some c) H).
Qed.

Lemma last_app_some {A} (l l' : list A) :
  last (map Some (l ++ l')) None = last (last (map Some l) None :: map Some l') None.
Proof.
  rewrite map_app. destruct l' as [|x l']; [rewrite app_nil_r; reflexivity|].
  assert (forall (l : list (option A)) d, l <> [] -> forall l0 x0, last (l0 ++ l) d = last (x0 :: l) d) as H.
  { intros m d N l0 x0. destruct (exists_last N) as (m' & y & ->). rewrite app_assoc, last_snoc.
    change (x0 :: m' ++ [y]) with ((x0 :: m') ++ [y]). now rewrite last_snoc. }
  apply H. discriminate.
Qed.

Lemma shows_record seen x rest s :
  possible (seen ++ x :: rest) -> shows seen s ->
  shows (seen ++ [x]) (fold_left (fun s r => record r s) (recorded_of x) s).
Proof.
  intros P [U A L]. unfold recorded_of. pose proof (ps_succeeding _ P) as S.
  unfold auths in S. rewrite flat_map_app in S. cbn [flat_map] in S.
  assert (forall s', updates_ s' = updates_ s ++ update_of x ->
    auth_events_ s' = auth_events_ s ++ auths [x] ->
    latest_auth_ s' = last (latest_auth_ s :: map Some (auths [x])) None -> shows (seen ++ [x]) s') as K.
  { intros s' U' A' L'. split.
    - rewrite U', U, flat_map_app. cbn. now rewrite app_nil_r.
    - rewrite A', A. unfold auths. now rewrite flat_map_app, app_assoc.
    - rewrite L', L. unfold auths at 3. rewrite flat_map_app, app_assoc. symmetry. apply last_app_some. }
  unfold update_of, auths in K. cbn [flat_map] in K. rewrite app_nil_r in K.
  destruct (h_event x) as [v|u|a]; cbn [fold_left record].
  - apply K; cbn; rewrite ?app_nil_r; reflexivity.
  - apply K; cbn; rewrite ?app_nil_r; reflexivity.
  - cbn [record_auth]. apply succeeding_app in S. fold (auths seen) in S. rewrite <- last_app_some, <- L in S.
    assert ((match latest_auth_ s with Some latest => auth_later a latest | None => true end) = true) as ->
      by (destruct (latest_auth_ s); auto).
    apply K; cbn; rewrite ?app_nil_r; reflexivity.
Qed.

Lemma shows_records seen new rest s :
  possible (seen ++ new ++ rest) -> shows seen s ->
  shows (seen ++ new) (fold_left (fun s r => record r s) (flat_map recorded_of new) s).
Proof.
  revert seen s. induction new as [|x new IH]; intros seen s P S; cbn [flat_map fold_left];
    [now rewrite app_nil_r|].
  rewrite fold_left_app. replace (seen ++ x :: new) with ((seen ++ [x]) ++ new) by now rewrite <- app_assoc.
  apply IH; [now rewrite <- app_assoc|]. exact (shows_record seen x (new ++ rest) s P S).
Qed.

Lemma auth_later_irrefl a : auth_later a a = false.
Proof. unfold auth_later. now rewrite !Z.ltb_irrefl, andb_false_r. Qed.

(** The state the client shows was recorded before. *)
Lemma shows_current seen s : shows seen s -> record_auth (last_auth seen) s = s.
Proof.
  intros [_ _ L]. unfold last_auth. destruct (auths seen) as [|b l] eqn:E; [reflexivity|].
  destruct (@exists_last _ (b :: l) ltac:(discriminate)) as (m & a & M). rewrite M in *.
  rewrite map_app. cbn [map]. rewrite last_snoc. cbn [record_auth].
  rewrite app_assoc, map_app in L. cbn [map] in L. rewrite last_snoc in L. now rewrite L, auth_later_irrefl.
Qed.

(** ** What the candidates of a round are *)

Definition lost_at (pending : option (SingleSendTemporaryId * Z)) (x : Occurrence) : option SingleSendOutcome :=
  match h_event x with
  | HAuth a => if auth_counts deadline sent a then Some (lost pending a) else None
  | _ => None
  end.

Definition updated_at (t : SingleSendTemporaryId) (x : Occurrence) : option SingleSendOutcome :=
  match h_event x with HUpdate u => if in_time x then outcome_from_update u t else None | _ => None end.

Definition answered_at (x : Occurrence) : option SingleSendOutcome :=
  match h_event x with HResponse v => replied (h_at x) v | _ => None end.

Definition knows_pending (s : Impl) (pending : option (SingleSendTemporaryId * Z)) : Prop :=
  temporary_ s = option_map fst pending /\ temporary_sequence_ s = option_map snd pending.

Lemma auth_first seen s pending :
  possible seen -> shows seen s -> knows_pending s pending ->
  auth_terminal deadline sent s = first_of (lost_at pending) seen.
Proof.
  intros P [_ A _] [T Q]. rewrite auth_terminal_fold, A, fold_left_app.
  rewrite (keeping_skip _ initial);
    [|intros a I; unfold auth_candidate, auth_counts; now rewrite (ps_initial _ P a I)].
  unfold auths. apply keeping_first; [exact (ps_ascending _ P)|]. intros x I.
  pose proof (proj1 (Forall_forall _ _) (ps_stamped _ P) x I) as [_ ST]. unfold lost_at.
  destruct (h_event x) as [v|u|a]; auto. right. exists a. split; [reflexivity|].
  unfold auth_candidate. destruct (auth_counts _ _ _); [|reflexivity]. destruct ST as [-> _]. cbn. do 2 f_equal.
  unfold auth_outcome, lost. rewrite T, Q. now destruct pending as [[t q]|].
Qed.

Lemma update_first seen s t :
  possible seen -> shows seen s -> update_terminal deadline t s = first_of (updated_at t) seen.
Proof.
  intros P [U _ _]. rewrite update_terminal_fold, U. apply keeping_first; [exact (ps_ascending _ P)|].
  intros x I. pose proof (proj1 (Forall_forall _ _) (ps_stamped _ P) x I) as [ST _].
  unfold updated_at, update_of. destruct (h_event x) as [v|u|a]; auto. right. eexists. split; [reflexivity|].
  unfold update_candidate, update_counts, in_time. cbn [u_sequence u_observed_at u_update is_none negb].
  destruct (Z.eqb_spec (h_sequence x) 0); [lia|]. cbn [negb andb].
  destruct (event_precedes_deadline _ _); [|reflexivity]. now destruct (outcome_from_update u t).
Qed.

Lemma response_split seen r :
  response_in seen = Some r ->
  exists h1 x h2 v, seen = h1 ++ x :: h2 /\ h_event x = HResponse v /\ r = Received (h_sequence x) (Some (h_at x)) v.
Proof.
  unfold response_in. induction seen as [|x seen IH]; cbn; [discriminate|].
  destruct x as [q t e]; cbn. destruct e as [v|u|a].
  - intros [= <-]. exists [], {| h_sequence := q; h_at := t; h_event := HResponse v |}, seen, v. auto.
  - intros H. destruct (IH H) as (h1 & x & h2 & v & -> & E). eexists (_ :: h1), x, h2, v. split; [reflexivity | exact E].
  - intros H. destruct (IH H) as (h1 & x & h2 & v & -> & E). eexists (_ :: h1), x, h2, v. split; [reflexivity | exact E].
Qed.

Lemma no_answer h : forallb (fun y => negb (is_response y)) h = true -> first_of answered_at h = None.
Proof.
  induction h as [|x h IH]; cbn; [reflexivity|]. intros H. bool_split. unfold answered_at, is_response in *.
  destruct (h_event x); try discriminate; auto.
Qed.

Lemma first_of_app_none f h h' : first_of f h = None -> first_of f (h ++ h') = first_of f h'.
Proof. induction h as [|x h IH]; cbn; [reflexivity|]. destruct (f x); [discriminate | exact IH]. Qed.

(** The response of a possible history is alone. *)
Lemma response_alone seen r :
  possible seen -> response_in seen = Some r ->
  exists q t v, r = Received q (Some t) v /\ 0 < q < u64_max
    /\ first_of answered_at seen =
       option_map (fun o => {| o_sequence := q; o_outcome := o |}) (replied t v).
Proof.
  intros P H. apply response_split in H as (h1 & x & h2 & v & E & V & ->). exists (h_sequence x), (h_at x), v.
  assert (is_response x = true) as R by (unfold is_response; now rewrite V).
  pose proof (ps_response _ P _ _ _ E R) as N. rewrite forallb_app in N. bool_split.
  pose proof (proj1 (Forall_forall _ _) (ps_stamped _ P) x ltac:(rewrite E; apply in_app_iff; right; now left)) as [ST _].
  repeat split; try lia. rewrite E, first_of_app_none by now apply no_answer. cbn [first_of].
  unfold answered_at at 1. rewrite V. destruct (replied (h_at x) v); [reflexivity|]. cbn. now apply no_answer.
Qed.

(** A response observed too late. *)
Definition late_in (h : list Occurrence) : Prop :=
  exists q t v, response_in h = Some (Received q (Some t) v)
                /\ event_precedes_deadline (Some t) deadline = false.

(** The response as [arbitrate_visible] takes it: one that is late comes after
    everything else. *)
Definition response_candidate (h : list Occurrence) (c : option StampedOutcome) : Prop :=
  c = first_of answered_at h
  \/ (late_in h /\ c = at_sequence u64_max (SingleSendTimedOut None MutationPossible)).

Lemma consume_first seen r s :
  possible seen -> shows seen s -> response_in seen = Some r -> temporary_ s = None -> temporary_sequence_ s = None ->
  let '(c, s') := consume_response deadline r sent chat_id sending_id s in
  response_candidate seen c /\ knows_pending s' (pending_in seen) /\ shows seen s'
  /\ response_consumed_ s' = true /\ temporary_notified_ s' = temporary_notified_ s.
Proof.
  intros P S R T Q. unfold response_candidate, late_in, pending_in, knows_pending. rewrite R.
  destruct (response_alone _ _ P R) as (q & t & v & -> & B & ->). cbn [consume_response is_none].
  destruct (Z.eqb_spec q 0); [lia|]. cbn [orb]. unfold replied.
  assert (shows seen { s with response_consumed_ := true }) as S1 by (destruct S; destruct s; now split).
  destruct (event_precedes_deadline (Some t) deadline) eqn:D; cbn [negb].
  2:{ split; [right; split; [now exists q, t, v | reflexivity]|].
      split; [destruct v; destruct s; cbn in *; now auto|]. split; [exact S1 | now destruct s]. }
  destruct v as [e|i|m|]; try (destruct s; cbn in *; now auto 7).
  unfold answered, classify_immediate. destruct (ss_kind (w_sending_state m)).
  - destruct (success_from m None chat_id); destruct s; cbn in *; now auto 7.
  - destruct (valid_pending_message m chat_id sending_id); cbn [negb]; [|destruct s; cbn in *; now auto 7].
    split; [now left|]. split; [now destruct s|]. split; [destruct S; destruct s; now split | now destruct s].
  - destruct (ss_error (w_sending_state m)); [|destruct s; cbn in *; now auto 7].
    destruct (valid_failed_message m chat_id); destruct s; cbn in *; now auto 7.
  - destruct s; cbn in *; now auto 7.
Qed.

(** ** A round selects the first decisive event *)

Definition consistent (seen : list Occurrence) (s : Impl) : Prop :=
  (response_consumed_ s = false /\ knows_pending s None /\ temporary_notified_ s = false)
  \/ (response_consumed_ s = true /\ knows_pending s (pending_in seen) /\ response_in seen <> None
      /\ first_of answered_at seen = None).

Lemma decides_split pending x :
  decides pending x =
  match (match answered_at x with Some o => Some o | None => lost_at pending x end) with
  | Some o => Some o
  | None => match pending with Some (t, _) => updated_at t x | None => None end
  end.
Proof.
  unfold decides, answered_at, lost_at, updated_at. destruct (h_event x) as [v|u|a].
  - destruct (replied (h_at x) v); [reflexivity|]. now destruct pending as [[]|].
  - now destruct pending as [[]|].
  - destruct (auth_counts _ _ _); [reflexivity|]. now destruct pending as [[]|].
Qed.

(** The candidates of a round, put in order. *)
Lemma candidates_first seen :
  possible seen ->
  earliest (earliest (first_of answered_at seen) (first_of (lost_at (pending_in seen)) seen))
    match pending_in seen with Some (t, _) => first_of (updated_at t) seen | None => None end
  = first_decisive seen.
Proof.
  intros P. pose proof (ps_ascending _ P) as A. rewrite earliest_first;
    [|exact A | intros x _; unfold answered_at, lost_at; destruct (h_event x); auto].
  unfold first_decisive. destruct (pending_in seen) as [[t q]|].
  - rewrite earliest_first; [|exact A|].
    + apply first_of_ext. intros x _. symmetry. apply decides_split.
    + intros x _. unfold answered_at, lost_at, updated_at. destruct (h_event x); auto.
  - rewrite (first_of_ext (decides None) _ seen (fun x _ => decides_split None x)).
    match goal with |- earliest ?a None = _ => assert (earliest a None = a) as -> by now destruct a end.
    apply first_of_ext. intros x _. destruct (answered_at x); [reflexivity|]. now destruct (lost_at None x).
Qed.

(** A late response names no message, and every state that counts was received
    before it. *)
Lemma late_pending h : late_in h -> pending_in h = None.
Proof. intros (q & t & v & R & D). unfold pending_in. rewrite R. destruct v; try reflexivity. now rewrite D. Qed.

Lemma late_after_losses seen q t v x :
  possible seen -> response_in seen = Some (Received q (Some t) v) ->
  event_precedes_deadline (Some t) deadline = false -> In x seen -> loses x -> h_sequence x < q.
Proof.
  intros P R D I X. apply response_split in R as (h1 & y & h2 & v' & E & V & [= -> -> ->]).
  rewrite E in I. apply in_app_iff in I as [I|[<-|I]].
  - apply in_split in I as (g1 & g2 & ->). apply (ps_ascending _ P g1 x (g2 ++ y :: h2) y).
    + now rewrite E, <- app_assoc.
    + apply in_app_iff. right. now left.
  - unfold loses in X. rewrite V in X. contradiction.
  - exfalso. pose proof (ps_clock _ P h1 y h2 x E I) as L.
    pose proof (proj1 (Forall_forall _ _) (ps_stamped _ P) x
      ltac:(rewrite E; apply in_app_iff; right; now right)) as [_ ST].
    unfold loses in X. destruct (h_event x) as [| |a]; try contradiction. destruct ST as [_ O].
    unfold auth_counts in X. rewrite O in X. bool_split. unfold event_precedes_deadline in *.
    destruct (expires_at deadline); [z_bool; lia | discriminate].
Qed.

(** The candidates of a round with the response as it is taken: the same outcome,
    and the same candidate when the response named a message. *)
Lemma candidates_outcome seen c :
  possible seen -> response_candidate seen c ->
  let chosen := earliest (earliest c (first_of (lost_at (pending_in seen)) seen))
    match pending_in seen with Some (t, _) => first_of (updated_at t) seen | None => None end in
  option_map o_outcome chosen = option_map o_outcome (first_decisive seen)
  /\ (pending_in seen <> None -> chosen = first_decisive seen).
Proof.
  intros P [->|[L ->]]; [rewrite (candidates_first _ P); auto|]. cbv zeta.
  rewrite <- (candidates_first _ P), (late_pending _ L). split; [|congruence].
  destruct L as (q & t & v & R & D). destruct (response_alone _ _ P R) as (q' & t' & v' & [= <- <- <-] & B & ->).
  unfold replied. rewrite D. cbn [option_map].
  destruct (first_of (lost_at None) seen) as [l|] eqn:F; [|reflexivity].
  apply first_of_in in F as (x & I & X & SX).
  assert (loses x) as LX.
  { unfold lost_at in X. unfold loses. destruct (h_event x); try discriminate.
    now destruct (auth_counts _ _ _). }
  pose proof (late_after_losses _ _ _ _ x P R D I LX) as LT.
  unfold at_sequence. cbn [earliest o_sequence]. rewrite SX.
  destruct (Z.ltb_spec u64_max (h_sequence x)); [lia|].
  destruct (Z.ltb_spec q (h_sequence x)); [lia | reflexivity].
Qed.

Lemma response_in_app h h' r : response_in h = Some r -> response_in (h ++ h') = Some r.
Proof.
  unfold response_in. rewrite filter_app. destruct (filter _ h) as [|[q t []] l]; cbn; try discriminate; auto.
Qed.

Lemma pending_in_app h h' p : pending_in h = Some p -> pending_in (h ++ h') = Some p.
Proof.
  unfold pending_in. destruct (response_in h) as [r|] eqn:R; [|discriminate]. now rewrite (response_in_app _ h' _ R).
Qed.

Lemma response_in_none h : response_in h = None -> forallb (fun y => negb (is_response y)) h = true.
Proof.
  unfold response_in, is_response. induction h as [|[q t e] h IH]; cbn; [reflexivity|]. destruct e; cbn; [discriminate | auto | auto].
Qed.

Lemma possible_prefix h h' : possible (h ++ h') -> possible h.
Proof.
  intros [A C S U R P I]. split; auto.
  - exact (ascending_prefix _ _ A).
  - intros h1 x h2 y E IY. apply (C h1 x (h2 ++ h') y); [now rewrite E, <- app_assoc | apply in_app_iff; auto].
  - now apply Forall_app in S.
  - unfold auths in *. rewrite flat_map_app in U. revert U.
    generalize (flat_map (fun x => match h_event x with HAuth a => [a] | _ => [] end) h).
    generalize (last (map Some initial) None). intros latest l. revert latest.
    induction l as [|a l IH]; cbn; [auto|]. intros latest [H1 H2]. auto.
  - intros h1 x h2 E RX. pose proof (R h1 x (h2 ++ h') ltac:(now rewrite E, <- app_assoc) RX) as N.
    rewrite app_assoc, forallb_app in N. now bool_split.
  - intros t q x y E IX SX IY. apply (P t q x y); [now apply pending_in_app | apply in_app_iff; auto.. | exact SX |].
    apply in_app_iff. auto.
Qed.

Lemma consistent_app seen new s : possible (seen ++ new) -> consistent seen s -> consistent (seen ++ new) s.
Proof.
  intros P [H|(C & K & R & N)]; [now left|]. right. split; [exact C|].
  destruct (response_in seen) as [r|] eqn:E; [|congruence]. pose proof (response_in_app _ new _ E) as E'.
  split; [unfold pending_in in *; now rewrite E, E' in *|]. split; [congruence|].
  destruct (response_alone _ _ P E') as (q & t & v & -> & _ & ->).
  destruct (response_alone _ _ (possible_prefix _ _ P) E) as (q' & t' & v' & [= <- <- <-] & _ & F).
  rewrite N in F. now destruct (replied t v).
Qed.

(** What a round decides on the events it sees. *)
Definition told_first (notified : bool) (seen : list Occurrence) : bool :=
  match pending_in seen with
  | None => false
  | Some _ =>
      negb notified
      && match first_decisive seen with None => true | Some c => negb (authorization_precedes_temporary c) end
  end.

Lemma arbitrate_first seen now s :
  possible seen -> shows seen s -> consistent seen s ->
  let '(d, s') :=
    arbitrate_visible deadline (last_auth seen) (response_in seen) sent chat_id sending_id now s in
  shows seen s' /\ knows_pending s' (pending_in seen)
  /\ notify_temporary d = told_first (temporary_notified_ s) seen
  /\ temporary_notified_ s' = temporary_notified_ s || told_first (temporary_notified_ s) seen
  /\ (first_of answered_at seen = None -> consistent seen s')
  /\ (notify_temporary d = false ->
      option_map o_outcome (selected d) =
      match first_decisive seen with
      | Some c => Some (o_outcome c)
      | None => if deadline_expired deadline now
                then Some (SingleSendTimedOut (option_map fst (pending_in seen)) MutationPossible)
                else None
      end).
Proof.
  intros P S C. unfold arbitrate_visible. rewrite (shows_current _ _ S).
  assert (exists c s1,
    (if response_consumed_ s then (None, auth_terminal deadline sent s, s)
     else match response_in seen with
          | None => (None, auth_terminal deadline sent s, s)
          | Some response =>
              let '(chosen, s) := consume_response deadline response sent chat_id sending_id s in
              (chosen, auth_terminal deadline sent s, s)
          end) = (c, first_of (lost_at (pending_in seen)) seen, s1)
    /\ response_candidate seen c
    /\ shows seen s1 /\ knows_pending s1 (pending_in seen) /\ temporary_notified_ s1 = temporary_notified_ s
    /\ (first_of answered_at seen = None -> consistent seen s1)) as (c & s1 & -> & RC1 & S1 & K1 & N1 & C1).
  { pose proof C as C0. destruct C as [(RC & K & N)|(RC & K & R & N)]; rewrite RC.
    - destruct (response_in seen) as [r|] eqn:R.
      + pose proof (consume_first seen r s P S R (proj1 K) (proj2 K)) as H.
        destruct (consume_response _ _ _ _ _ _) as [c s1]. destruct H as (RC1 & K1 & S1 & R1 & N1).
        exists c, s1. rewrite (auth_first _ _ _ P S1 K1). split; [reflexivity|]. repeat (split; [assumption|]).
        intros F. right. repeat (split; [assumption|]). split; [congruence | exact F].
      + assert (pending_in seen = None) as E by (unfold pending_in; now rewrite R).
        rewrite E. exists None, s. rewrite (auth_first _ _ _ P S K).
        split; [reflexivity|]. split; [left; now rewrite (no_answer _ (response_in_none _ R))|]. auto.
    - exists None, s. rewrite (auth_first _ _ _ P S K). split; [reflexivity|]. split; [left; now rewrite N|]. auto. }
  rewrite <- N1. destruct (candidates_outcome _ _ P RC1) as [F1 F2]. unfold told_first.
  destruct (pending_in seen) as [[t q]|] eqn:E; destruct K1 as [T1 Q1]; cbn [option_map fst snd] in *; rewrite T1.
  - rewrite (update_first _ _ t P S1), (F2 ltac:(discriminate)).
    destruct (negb (temporary_notified_ s1) && _) eqn:TF; cbn [notify_temporary selected].
    + assert (shows seen { s1 with temporary_notified_ := true }) as S2 by (destruct S1; destruct s1; now split).
      split; [exact S2|]. split; [now destruct s1|]. split; [reflexivity|].
      split; [destruct s1; cbn; now rewrite orb_true_r|]. split; [|discriminate].
      intros NA. destruct (C1 NA) as [(_ & [T2 _] & _)|(R & K & RI & _)]; [cbn in T2; congruence|].
      right. rewrite E. split; [now destruct s1|]. split; [now destruct s1|]. auto.
    + split; [exact S1|]. split; [now split|]. split; [reflexivity|]. split; [now rewrite orb_false_r|].
      split; [exact C1|]. intros _. rewrite T1. destruct (first_decisive seen); [reflexivity|].
      now destruct (deadline_expired deadline now).
  - cbn [notify_temporary selected]. split; [exact S1|]. split; [now split|]. split; [reflexivity|].
    split; [now rewrite orb_false_r|]. split; [exact C1|]. intros _. rewrite T1.
    match type of F1 with context [earliest ?a None] =>
      assert (earliest a None = a) as X by (now destruct a); rewrite X in F1; clear X; destruct a as [k|] end;
      destruct (first_decisive seen); cbn in F1 |- *; try discriminate; [congruence|].
    now destruct (deadline_expired deadline now).
Qed.

(** ** Every schedule *)

Lemma first_of_split f h c :
  first_of f h = Some c ->
  exists h1 x h2, h = h1 ++ x :: h2 /\ f x = Some (o_outcome c) /\ o_sequence c = h_sequence x
    /\ forall y, In y h1 -> f y = None.
Proof.
  induction h as [|x h IH]; cbn; [discriminate|]. destruct (f x) as [o|] eqn:F.
  - intros [= <-]. exists [], x, h. repeat split; auto. contradiction.
  - intros H. destruct (IH H) as (h1 & y & h2 & -> & Y & Q & N). exists (x :: h1), y, h2.
    repeat split; auto. intros z [<-|I]; auto.
Qed.

Lemma first_of_at f h1 x h2 o :
  (forall y, In y h1 -> f y = None) -> f x = Some o ->
  first_of f (h1 ++ x :: h2) = Some {| o_sequence := h_sequence x; o_outcome := o |}.
Proof.
  induction h1 as [|y h1 IH]; cbn; intros N F; [now rewrite F|]. rewrite (N y (or_introl eq_refl)). auto.
Qed.

(** The response that names the message comes after everything in [h]. *)
Lemma named_later h h' t q x :
  possible (h ++ h') -> pending_in h = None -> pending_in (h ++ h') = Some (t, q) -> In x h ->
  response_in h = None /\ h_sequence x < q.
Proof.
  intros P E E' I. destruct (response_in h) as [r'|] eqn:R'.
  { exfalso. unfold pending_in in E, E'. rewrite R' in E. rewrite (response_in_app _ h' _ R') in E'. congruence. }
  split; [reflexivity|]. unfold pending_in in E'. destruct (response_in (h ++ h')) as [r|] eqn:R; [|discriminate].
  unfold response_in in R. rewrite filter_app in R.
  assert (filter (fun x => match h_event x with HResponse _ => true | _ => false end) h = []) as N.
  { apply response_in_none in R'. clear - R'. unfold is_response in R'. induction h as [|y h IH]; cbn in *; [reflexivity|].
    bool_split. destruct (h_event y); try discriminate; auto. }
  rewrite N in R. cbn [app] in R. fold (response_in h') in R.
  apply response_split in R as (h1 & y & h2 & v & -> & V & ->).
  assert (q = h_sequence y) as ->.
  { destruct v; try discriminate. destruct (event_precedes_deadline _ _); [|discriminate].
    destruct (classify_immediate _ _ _ _); [|discriminate]. now injection E'. }
  apply in_split in I as (g1 & g2 & ->). apply (ps_ascending _ P g1 x (g2 ++ h1 ++ y :: h2) y).
  - now rewrite <- !app_assoc.
  - rewrite !in_app_iff. cbn. tauto.
Qed.

(** What is decided stays decided. *)
Lemma first_decisive_app h h' c : possible (h ++ h') -> first_decisive h = Some c -> first_decisive (h ++ h') = Some c.
Proof.
  intros P H. unfold first_decisive in *. apply first_of_app.
  destruct (pending_in h) as [p|] eqn:E; [now rewrite (pending_in_app _ h' _ E)|].
  destruct (pending_in (h ++ h')) as [[t q]|] eqn:E'; [|exact H].
  apply first_of_split in H as (h1 & y & h2 & -> & Y & Q & N).
  assert (In y (h1 ++ y :: h2)) as IY by (apply in_app_iff; right; now left).
  destruct (named_later _ _ _ _ _ P E E' IY) as [R LY].
  destruct c as [qc oc]. cbn [o_outcome o_sequence] in *. subst qc.
  (* the decision is a lost authorization *)
  unfold decides in Y. destruct (h_event y) as [v|u|a] eqn:V; [exfalso | discriminate |].
  { apply response_in_none in R. rewrite forallb_app in R. cbn in R. unfold is_response in R. rewrite V in R.
    cbn in R. now rewrite andb_false_r in R. }
  destruct (auth_counts deadline sent a) eqn:AC; [|discriminate].
  pose proof (proj1 (Forall_forall _ _) (ps_stamped _ P) y ltac:(rewrite in_app_iff; auto)) as [_ ST].
  rewrite V in ST. destruct ST as [SQ _].
  apply first_of_at.
  - intros x IX. specialize (N x IX). unfold decides in N |- *.
    destruct (h_event x) as [v|u|b] eqn:VX; [exact N | | now destruct (auth_counts _ _ b)].
    destruct (in_time x) eqn:IT; [|reflexivity]. destruct (outcome_from_update u t) eqn:O; [|reflexivity].
    exfalso. enough (q < h_sequence y) by lia.
    apply (ps_updates _ P t q x y E'); try (rewrite !in_app_iff; cbn; tauto).
    + unfold settles. rewrite VX. split; [exact IT | congruence].
    + unfold loses. now rewrite V.
    + apply in_split in IX as (g1 & g2 & ->). apply (ps_ascending _ P g1 x (g2 ++ y :: h2 ++ h') y).
      * now rewrite <- !app_assoc.
      * rewrite !in_app_iff. cbn. tauto.
  - unfold decides. rewrite V, AC. rewrite <- Y. f_equal. unfold lost. rewrite SQ.
    destruct (Z.ltb_spec q (h_sequence y)); [lia | reflexivity].
Qed.

(** The schedule looks at least twice when something decisive is in sight. *)
Fixpoint decided_glances (seen rest : list Occurrence) (schedule : list Glance) : nat :=
  match schedule with
  | [] => 0
  | g :: schedule =>
      (match first_decisive (seen ++ firstn (g_new g) rest) with Some _ => 1 | None => 0 end
       + decided_glances (seen ++ firstn (g_new g) rest) (skipn (g_new g) rest) schedule)%nat
  end.

(** An outcome without a decisive event: the deadline passed or the request was
    cancelled while nothing decisive was in sight. *)
Definition undecided (h : list Occurrence) (o : SingleSendOutcome) : Prop :=
  exists seen rest, h = seen ++ rest /\ first_decisive seen = None
    /\ (o = SingleSendTimedOut (option_map fst (pending_in seen)) MutationPossible
        \/ o = SingleSendCancelled (option_map fst (pending_in seen)) MutationPossible).

(** The hook that is told the temporary id threw. *)
Definition hook_failed (h : list Occurrence) (schedule : list Glance) (o : SingleSendOutcome) : Prop :=
  exists t q, pending_in h = Some (t, q) /\ o = malformed (Some t) None
    /\ existsb (fun g => negb (g_notified g)) schedule = true.

Lemma records_keep_all l s :
  let s' := fold_left (fun s r => record r s) l s in
  temporary_ s' = temporary_ s /\ temporary_sequence_ s' = temporary_sequence_ s
  /\ temporary_notified_ s' = temporary_notified_ s /\ response_consumed_ s' = response_consumed_ s.
Proof.
  repeat split; apply records_keep; intros [u|a|] s'; cbn; auto;
    (destruct (latest_auth_ s'); [destruct (auth_later _ _)|]); auto.
Qed.

Lemma wait_first seen rest schedule s :
  possible (seen ++ rest) -> shows seen s -> consistent seen s ->
  let '(o, told, _) :=
    wait_for_terminal deadline sent chat_id sending_id (rounds_of seen rest schedule) s in
  (forall t, In t told -> exists q, pending_in (seen ++ rest) = Some (t, q))
  /\ match o with
     | Some o =>
         option_map o_outcome (first_decisive (seen ++ rest)) = Some o
         \/ undecided (seen ++ rest) o \/ hook_failed (seen ++ rest) schedule o
     | None => (decided_glances seen rest schedule <= if temporary_notified_ s then 0 else 1)%nat
     end.
Proof.
  revert seen rest s. induction schedule as [|g schedule IH]; intros seen rest s P S C;
    cbn [rounds_of wait_for_terminal decided_glances]; [split; [contradiction | lia]|].
  set (new := firstn (g_new g) rest). set (rest' := skipn (g_new g) rest).
  assert (rest = new ++ rest') as E by (symmetry; apply firstn_skipn). rewrite E in P |- *.
  apply (shows_records _ _ _ s P) in S. rewrite app_assoc in P |- *. set (now_seen := seen ++ new) in *.
  cbn [round_of r_recorded r_current r_ready r_now r_notified r_cancelled]. fold now_seen.
  pose proof (possible_prefix _ _ P) as P1.
  destruct (records_keep_all (flat_map recorded_of new) s) as (KT & KQ & KN & KR).
  assert (consistent now_seen (fold_left (fun s r => record r s) (flat_map recorded_of new) s)) as C1
    by (apply consistent_app; [exact P1|]; unfold consistent, knows_pending in *; now rewrite KT, KQ, KN, KR).
  clear C KT KQ KR. set (s0 := fold_left _ _ s) in *. clearbody s0. rewrite <- KN. clear KN s.
  pose proof (arbitrate_first now_seen (g_now g) s0 P1 S C1) as A.
  destruct (arbitrate_visible _ _ _ _ _ _ _ _) as [d s1]. destruct A as (S1 & [T1 Q1] & NT & N1 & C2 & SEL).
  destruct (notify_temporary d) eqn:ND.
  - symmetry in NT. rewrite NT, orb_true_r in N1. unfold told_first in NT.
    destruct (pending_in now_seen) as [[t q]|] eqn:PE; [|discriminate]. cbn in T1. rewrite T1.
    apply andb_prop in NT as [NN NT]. apply negb_true_iff in NN. rewrite NN.
    pose proof (pending_in_app _ rest' _ PE) as PE'.
    assert (first_of answered_at now_seen = None) as NA.
    { destruct C1 as [(_ & _ & _)|(_ & _ & _ & F)]; [|exact F].
      unfold pending_in in PE. destruct (response_in now_seen) as [r|] eqn:R; [|discriminate].
      destruct (response_alone _ _ P1 R) as (q' & t' & v & -> & _ & ->).
      destruct v as [|?|m|]; try discriminate. unfold replied.
      destruct (event_precedes_deadline _ _); [|discriminate]. cbn. now destruct (classify_immediate _ _ _ _). }
    destruct (g_notified g) eqn:GN.
    + specialize (IH now_seen rest' s1 P S1 (C2 NA)). rewrite N1 in IH.
      destruct (wait_for_terminal _ _ _ _ _ s1) as [[o told] s2]. destruct IH as [IT IO]. split.
      * intros t' [<-|I]; [eauto | auto].
      * destruct o as [o|]; [|destruct (first_decisive now_seen); lia].
        destruct IO as [IO|[IO|(t' & q' & E1 & E2 & E3)]]; [now left | now right; left|].
        right. right. exists t', q'. repeat split; auto. cbn. now rewrite E3, orb_true_r.
    + split; [intros t' [<-|[]]; eauto|]. right. right. exists t, q. repeat split; auto. cbn. now rewrite GN.
  - specialize (SEL eq_refl). symmetry in NT. rewrite NT, orb_false_r in N1.
    destruct (first_decisive now_seen) as [c|] eqn:F.
    + destruct (selected d) as [k|]; [|discriminate SEL]. injection SEL as SEL. rewrite SEL.
      split; [contradiction|]. left. now rewrite (first_decisive_app _ rest' c P F).
    + assert (first_of answered_at now_seen = None) as NA.
      { refine (first_of_none _ _ _ _ F). intros x DX. rewrite decides_split in DX.
        now destruct (answered_at x). }
      destruct (deadline_expired _ _); (destruct (selected d) as [k|]; try discriminate SEL).
      * injection SEL as SEL. rewrite SEL. split; [contradiction|]. right. left. exists now_seen, rest'. auto.
      * destruct (g_cancelled g).
        -- split; [contradiction|]. right. left. exists now_seen, rest'. rewrite <- T1. auto.
        -- specialize (IH now_seen rest' s1 P S1 (C2 NA)). rewrite N1 in IH.
           destruct (wait_for_terminal _ _ _ _ _ s1) as [[o told] s2]. destruct IH as [IT IO]. split; [exact IT|].
           destruct o as [o|]; [|cbn; lia].
           destruct IO as [IO|[IO|(t' & q' & E1 & E2 & E3)]]; [now left | now right; left|].
           right. right. exists t', q'. repeat split; auto. cbn. now rewrite E3, orb_true_r.
Qed.
End order.

Definition shown (current : option AuthStateSnapshot) : list AuthStateSnapshot :=
  match current with Some a => [a] | None => [] end.


(** * A history *)

Definition sample_lost : AuthStateSnapshot :=
  {| a_client_generation := 1; a_auth_sequence := 2; a_receive_event_sequence := 7; a_state := LoggingOut;
     a_receive_observed_at := Some 70 |}.

(** The message is confirmed before the response names it, then the authorization
    is lost. *)
Definition sample_history : list Occurrence :=
  [ {| h_sequence := 4; h_at := 40; h_event := HUpdate sample_update |};
    {| h_sequence := 5; h_at := 50; h_event := HResponse (ReplyMessage sample_pending) |};
    {| h_sequence := 7; h_at := 70; h_event := HAuth sample_lost |} ].

Lemma sample_possible : possible sample_deadline sample_authorization 7 9 [sample_authorization] sample_history.
Proof.
  split.
  - intros [|? [|? [|? [|? ?]]]] x h2 y E; cbn in E; inversion E; subst; clear E; cbn; intuition (subst; cbn; lia).
  - intros [|? [|? [|? [|? ?]]]] x h2 y E; cbn in E; inversion E; subst; clear E; cbn; intuition (subst; cbn; lia).
  - repeat constructor; cbn; lia.
  - cbn. auto.
  - intros [|? [|? [|? [|? ?]]]] x h2 E; cbn in E; inversion E; subst; clear E; cbn; try discriminate; auto.
  - intros t q x y E _ _ I L _. vm_compute in E. injection E as <- <-.
    destruct I as [<-|[<-|[<-|[]]]]; cbn in *; try contradiction; lia.
  - intros a [<-|[]]. reflexivity.
Qed.

(** Seen all at once, or one event at a time. *)
Definition at_once : list Glance :=
  [ {| g_new := 3; g_now := 71; g_notified := true; g_cancelled := false |};
    {| g_new := 0; g_now := 72; g_notified := true; g_cancelled := false |} ].

Definition one_by_one : list Glance :=
  repeat {| g_new := 1; g_now := 80; g_notified := true; g_cancelled := false |} 3.

