(* ===== verification/Forward.v ===== *)
(** Forwarding messages (src/src/daemon/forward.cpp, .hpp): one request forwards
    up to a hundred messages; the coordinator matches the vector that TDLib
    returns, and the updates that follow, with the source messages one by one,
    and reports what became of each of them.

    As for a single send, the callbacks that record events run on other threads
    and a round of the wait loop sees what they have recorded by then; the
    client, the clock, the session and the hooks are arguments: what a call to
    them answered. *)
From S2P Require Import Prelude Deadline SingleSend.
From coqutil Require Import Datatypes.RecordSetters.
Import OCamlLikeNotations.

(** * Items and outcomes (forward.hpp) *)

Inductive ForwardMutationState := ForwardNone | ForwardPossible | ForwardConfirmed.

Inductive ForwardFailureReason := UpstreamNull | TdlibError | DeletedBeforeConfirmation.

Inductive ForwardItem :=
| ForwardPending (source_id temporary_message_id : Z)
| ForwardSent (source_id : Z) (message : TdMessageWriteResult)
| ForwardFailed (source_id : Z) (reason : ForwardFailureReason) (tdlib_code retry_after : option Z).

Inductive ForwardOutcome :=
| ForwardCompleted (items : list ForwardItem) (mutation_state : ForwardMutationState)
| ForwardTopLevelError (error : TdError) (mutation_state : ForwardMutationState)
| ForwardTimedOut (items : list ForwardItem) (mutation_state : ForwardMutationState)
| ForwardAuthorizationLost (items : list ForwardItem) (client_generation auth_sequence : Z)
    (state : AuthState) (mutation_state : ForwardMutationState)
| ForwardGenerationClosed (items : list ForwardItem) (client_generation : Z)
    (mutation_state : ForwardMutationState)
| ForwardCancelled (items : list ForwardItem) (mutation_state : ForwardMutationState)
| ForwardRejected (items : list ForwardItem) (authorization_failure : option TdAuthorizationFailure)
    (mutation_state : ForwardMutationState)
| ForwardMalformed (items : list ForwardItem) (tdlib_type_id : option Z)
    (mutation_state : ForwardMutationState).

Definition is_sent (item : ForwardItem) : bool :=
  match item with ForwardSent _ _ => true | _ => false end.

Definition item_pending (item : ForwardItem) : bool :=
  match item with ForwardPending _ _ => true | _ => false end.

Definition unconfirmed (item : ForwardItem) : bool :=
  match item with
  | ForwardPending _ _ | ForwardFailed _ DeletedBeforeConfirmation _ _ => true
  | _ => false
  end.

Definition mutation_state (items : list ForwardItem) : ForwardMutationState :=
  if existsb is_sent items then ForwardConfirmed
  else if existsb unconfirmed items then ForwardPossible
  else ForwardNone.

Definition at_least_possible (state : ForwardMutationState) : ForwardMutationState :=
  match state with ForwardNone => ForwardPossible | _ => state end.

Definition unknown_mutation_state (items : list ForwardItem) : ForwardMutationState :=
  at_least_possible (mutation_state items).

Definition complete (items : list ForwardItem) : bool := negb (existsb item_pending items).

Definition tdlib_type_id (outcome : SingleSendOutcome) : option Z :=
  match outcome with SingleSendMalformed _ tdlib_type_id _ => tdlib_type_id | _ => None end.

(** [None] on any other outcome: the callers test for these two. *)
Definition failed_from (source_id : Z) (outcome : SingleSendOutcome) : option ForwardItem :=
  match outcome with
  | SingleSendFailed _ error _ => Some (ForwardFailed source_id TdlibError (Some (e_code error)) None)
  | SingleSendRateLimited _ error retry_after _ =>
      Some (ForwardFailed source_id TdlibError (Some (e_code error)) (Some retry_after))
  | _ => None
  end.

(** * The coordinator *)

(** ** The request (core/td_direct.cpp) *)

Record TdForwardMessagesRequest := {
  from_chat_id : Z; to_chat_id : Z; message_ids : list Z; sending_id : Z; drop_author : bool }.

Definition valid_message_ids (values : list Z) (maximum : Z) (increasing : bool) : bool :=
  match values with
  | [] => false
  | _ =>
      if (maximum <? Z.of_nat (List.length values)) || negb (forallb valid_td_nonzero_int53 values)
      then false else negb increasing || strictly_increasing values
  end.

Definition valid_td_forward_messages_request (request : TdForwardMessagesRequest) : bool :=
  valid_td_chat_id (from_chat_id request) && valid_td_chat_id (to_chat_id request)
  && negb (sending_id request =? 0) && valid_message_ids (message_ids request) 100 true.

(** ** State *)

(** What the future of the response holds. *)
Inductive ForwardReply :=
| ForwardReplyError (error : TdError)
| ForwardReplyConversionError (tdlib_type_id : option Z)
| TdForwardMessages (messages : list (option TdWriteMessage))
| ForwardReplyOther.

Inductive ForwardResponse :=
| ForwardReceived (sequence : Z) (observed_at : option Z) (value : ForwardReply)
| ForwardAuthorizationThrown (failure : TdAuthorizationFailure)
| ForwardExceptionThrown.

Record StampedAuth := { sa_sequence : Z; sa_snapshot : AuthStateSnapshot }.

Record Impl := {
  executed_ : bool;
  prepared_ : bool;
  in_flight_ : bool;
  response_consumed_ : bool;
  initial_published_ : bool;
  to_chat_id_ : Z;
  sending_id_ : Z;
  source_ids_ : list Z;
  items_ : list ForwardItem;
  temporaries_ : list (option SingleSendTemporaryId);
  processed_update_sequences_ : list Z;
  prepared_write_ : bool;
  authorization_ : option AuthStateSnapshot;
  wake_sequence_ : Z;
  updates_ : list StampedUpdate;
  auth_events_ : list AuthStateSnapshot;
  latest_auth_ : option AuthStateSnapshot
}.

Definition record_update (update : StampedUpdate) (s : Impl) : Impl :=
  { s with updates_ := updates_ s ++ [update]; wake_sequence_ := u64 (wake_sequence_ s + 1) }.

Definition record_auth (snapshot : option AuthStateSnapshot) (s : Impl) : Impl :=
  match snapshot with
  | None => s
  | Some snapshot =>
      if match latest_auth_ s with None => true | Some latest => auth_later snapshot latest end
      then { s with latest_auth_ := Some snapshot; auth_events_ := auth_events_ s ++ [snapshot];
             wake_sequence_ := u64 (wake_sequence_ s + 1) }
      else s
  end.

Definition wake (s : Impl) : Impl := { s with wake_sequence_ := u64 (wake_sequence_ s + 1) }.

(** ** Authorization *)

Definition auth_terminal (deadline : RequestDeadline) (sent : AuthStateSnapshot) (s : Impl) :
    option StampedAuth :=
  fold_left (fun result snapshot =>
      if auth_counts deadline sent snapshot then
        if match result with
           | None => true
           | Some r => a_receive_event_sequence snapshot <? sa_sequence r
           end
        then Some {| sa_sequence := a_receive_event_sequence snapshot; sa_snapshot := snapshot |}
        else result
      else result)
    (auth_events_ s) None.

(** [sent] is what [authorization_] points to. *)
Definition auth_outcome (sent : AuthStateSnapshot) (event : StampedAuth) (s : Impl) : ForwardOutcome :=
  let state := match items_ s with [] => ForwardPossible | _ => mutation_state (items_ s) end in
  let snapshot := sa_snapshot event in
  if negb (a_client_generation snapshot =? a_client_generation sent) || is_closed (a_state snapshot)
  then ForwardGenerationClosed (items_ s) (a_client_generation sent) (at_least_possible state)
  else ForwardAuthorizationLost (items_ s) (a_client_generation snapshot) (a_auth_sequence snapshot)
         (a_state snapshot) (at_least_possible state).

(** ** The response *)

(** The loop over the returned messages: the items and the temporary ids, or the
    type id that [ForwardMalformed] shows. *)
Fixpoint parse_messages (client_generation chat_id sending : Z) (sources : list Z)
    (messages : list (option TdWriteMessage)) (unique_temporary_ids unique_final_ids : list Z) :
    result (option Z) (list ForwardItem * list (option SingleSendTemporaryId)) :=
  match sources, messages with
  | source_id :: sources, returned :: messages =>
      let next item temporary temporary_ids final_ids :=
        match parse_messages client_generation chat_id sending sources messages temporary_ids final_ids with
        | Ok (items, temporaries) => Ok (item :: items, temporary :: temporaries)
        | Err e => Err e
        end in
      match returned with
      | None =>
          next (ForwardFailed source_id UpstreamNull None None) None unique_temporary_ids unique_final_ids
      | Some message =>
          match classify_immediate message client_generation chat_id sending with
          | SingleSendImmediatePending temporary =>
              let id := t_temporary_message_id temporary in
              if existsb (Z.eqb id) unique_temporary_ids then Err None
              else next (ForwardPending source_id id) (Some temporary) (id :: unique_temporary_ids)
                     unique_final_ids
          | ImmediateOutcome outcome =>
              match outcome with
              | SingleSendSucceeded _ _ result _ =>
                  if existsb (Z.eqb (wr_id result)) unique_final_ids then Err None
                  else next (ForwardSent source_id result) None unique_temporary_ids
                         (wr_id result :: unique_final_ids)
              | _ =>
                  match failed_from source_id outcome with
                  | Some item => next item None unique_temporary_ids unique_final_ids
                  | None => Err (tdlib_type_id outcome)
                  end
              end
          end
      end
  | _, _ => Ok ([], [])
  end.

Record ParsedResponse := {
  p_sequence : Z; terminal : option ForwardOutcome; vector_available : bool }.

Definition parsed_terminal (sequence : Z) (outcome : ForwardOutcome) : ParsedResponse :=
  {| p_sequence := sequence; terminal := Some outcome; vector_available := false |}.

Definition consume_response (deadline : RequestDeadline) (response : ForwardResponse)
    (sent : AuthStateSnapshot) (s : Impl) : ParsedResponse * Impl :=
  let s := { s with response_consumed_ := true } in
  match response with
  | ForwardAuthorizationThrown failure =>
      (parsed_terminal u64_max (ForwardRejected [] (Some failure) ForwardPossible), s)
  | ForwardExceptionThrown => (parsed_terminal u64_max (ForwardMalformed [] None ForwardPossible), s)
  | ForwardReceived sequence observed_at value =>
      if (sequence =? 0) || is_none observed_at
      then (parsed_terminal u64_max (ForwardMalformed [] None ForwardPossible), s)
      else if negb (event_precedes_deadline observed_at deadline)
      then (parsed_terminal u64_max (ForwardTimedOut [] ForwardPossible), s)
      else
        match value with
        | ForwardReplyError error => (parsed_terminal sequence (ForwardTopLevelError error ForwardPossible), s)
        | ForwardReplyConversionError type_id =>
            (parsed_terminal sequence (ForwardMalformed [] type_id ForwardPossible), s)
        | ForwardReplyOther => (parsed_terminal sequence (ForwardMalformed [] None ForwardPossible), s)
        | TdForwardMessages messages =>
            if negb (List.length messages =? List.length (source_ids_ s))%nat
            then (parsed_terminal sequence (ForwardMalformed [] None ForwardPossible), s)
            else
              match parse_messages (a_client_generation sent) (to_chat_id_ s) (sending_id_ s)
                      (source_ids_ s) messages [] [] with
              | Err type_id => (parsed_terminal sequence (ForwardMalformed [] type_id ForwardPossible), s)
              | Ok (parsed, temporaries) =>
                  ({| p_sequence := sequence; terminal := None; vector_available := true |},
                   { s with items_ := parsed; temporaries_ := temporaries })
              end
        end
  end.

(** ** Publication *)

(** What the hooks were called with. *)
Inductive Told := TemporaryIds (ids : list Z) | Progress (items : list ForwardItem).

Definition temporary_ids (temporaries : list (option SingleSendTemporaryId)) : list Z :=
  flat_map (fun t => match t with Some t => [t_temporary_message_id t] | None => [] end) temporaries.

(** [ids_told], [progress_told]: whether the hook returns. *)
Definition publish_initial (ids_told progress_told : bool) (s : Impl) : bool * list Told * Impl :=
  let told := match temporary_ids (temporaries_ s) with [] => [] | ids => [TemporaryIds ids] end in
  if match told with [] => true | _ => ids_told end then
    let told := told ++ [Progress (items_ s)] in
    if progress_told then (true, told, { s with initial_published_ := true }) else (false, told, s)
  else (false, told, s).

(** ** Updates *)

Definition item_at (index : nat) (s : Impl) : ForwardItem := nth index (items_ s) (ForwardPending 0 0).

(** What an update says of the message at an index that is still pending. *)
Definition classified_at (update : SendUpdate) (index : nat) (s : Impl) : option SingleSendOutcome :=
  match nth index (temporaries_ s) None with
  | Some temporary =>
      if item_pending (item_at index s) then classify_update update temporary else None
  | None => None
  end.

Definition matching_update_index (deadline : RequestDeadline) (stamped : StampedUpdate) (s : Impl) :
    option nat :=
  if existsb (Z.eqb (u_sequence stamped)) (processed_update_sequences_ s)
     || negb (update_counts deadline stamped) then None
  else
    find (fun index => negb (is_none (classified_at (u_update stamped) index s)))
      (seq 0 (List.length (temporaries_ s))).

Definition earliest_update (deadline : RequestDeadline) (s : Impl) : option StampedUpdate :=
  fold_left (fun result update =>
      if negb (is_none (matching_update_index deadline update s))
         && match result with None => true | Some r => u_sequence update <? u_sequence r end
      then Some update else result)
    (updates_ s) None.

(** [v[index] = x]. *)
Fixpoint set_at {A} (index : nat) (x : A) (v : list A) : list A :=
  match v, index with
  | [], _ => []
  | _ :: v, O => x :: v
  | y :: v, S index => y :: set_at index x v
  end.

Definition duplicate (id : Z) (items : list ForwardItem) : bool :=
  existsb (fun item => match item with ForwardSent _ message => wr_id message =? id | _ => false end) items.

Definition resolve (index : nat) (item : ForwardItem) (s : Impl) : Impl :=
  { s with items_ := set_at index item (items_ s); temporaries_ := set_at index None (temporaries_ s) }.

(** The loop of [apply_update] over the indexes, with [changed]. *)
Fixpoint apply_at (update : SendUpdate) (indexes : list nat) (changed : bool) (s : Impl) :
    option ForwardOutcome * bool * Impl :=
  match indexes with
  | [] => (None, changed, s)
  | index :: rest =>
      match classified_at update index s with
      | None => apply_at update rest changed s
      | Some classified =>
          let source_id := nth index (source_ids_ s) 0 in
          let malformed type_id :=
            (Some (ForwardMalformed (items_ s) type_id (unknown_mutation_state (items_ s))), changed, s) in
          match classified with
          | SingleSendSucceeded _ _ result _ =>
              if duplicate (wr_id result) (items_ s) then malformed None
              else apply_at update rest true (resolve index (ForwardSent source_id result) s)
          | SingleSendDeletedBeforeConfirmation _ _ =>
              apply_at update rest true
                (resolve index (ForwardFailed source_id DeletedBeforeConfirmation None None) s)
          | _ =>
              match failed_from source_id classified with
              | Some item => apply_at update rest true (resolve index item s)
              | None => malformed (tdlib_type_id classified)
              end
          end
      end
  end.

Definition apply_update (stamped : StampedUpdate) (progress_told : bool) (s : Impl) :
    option ForwardOutcome * list Told * Impl :=
  let s := { s with processed_update_sequences_ := u_sequence stamped :: processed_update_sequences_ s } in
  let '(malformed, changed, s) :=
    apply_at (u_update stamped) (seq 0 (List.length (temporaries_ s))) false s in
  match malformed with
  | Some outcome => (Some outcome, [], s)
  | None =>
      if negb changed then (None, [], s)
      else
        let told := [Progress (items_ s)] in
        if negb progress_told
        then (Some (ForwardMalformed (items_ s) None (unknown_mutation_state (items_ s))), told, s)
        else if complete (items_ s)
        then (Some (ForwardCompleted (items_ s) (mutation_state (items_ s))), told, s)
        else (None, told, s)
  end.

(** ** The wait loop *)

Definition record (r : Recorded) (s : Impl) : Impl :=
  match r with
  | RecordedUpdate update => record_update update s
  | RecordedAuth snapshot => record_auth (Some snapshot) s
  | Woken => wake s
  end.

(** What a round meets: the events recorded since the last round, the state and
    the response the client shows, the clock, whether the hooks return, and
    whether the request is cancelled. *)
Record Round := {
  r_recorded : list Recorded;
  r_current : option AuthStateSnapshot;
  r_ready : option ForwardResponse;
  r_now : Z;
  r_ids_told : bool;
  r_progress_told : bool;
  r_cancelled : bool
}.

(** The response of a round, if it is there: the outcome it returns at once, the
    sequence at which it was received. *)
Definition meet_response (deadline : RequestDeadline) (sent : AuthStateSnapshot) (round : Round)
    (response_sequence : option Z) (s : Impl) : option ForwardOutcome * option Z * Impl :=
  if response_consumed_ s then (None, response_sequence, s)
  else
    match r_ready round with
    | None => (None, response_sequence, s)
    | Some response =>
        let '(parsed, s) := consume_response deadline response sent s in
        let auth := auth_terminal deadline sent s in
        (match terminal parsed with
         | Some outcome =>
             match auth with
             | Some auth =>
                 if sa_sequence auth <? p_sequence parsed then Some (auth_outcome sent auth s) else Some outcome
             | None => Some outcome
             end
         | None =>
             if negb (vector_available parsed) then Some (ForwardMalformed [] None ForwardPossible) else None
         end, Some (p_sequence parsed), s)
    end.

(** The first publication of the items; then their completion is tested. *)
Definition publish_round (deadline : RequestDeadline) (sent : AuthStateSnapshot) (round : Round)
    (response_sequence : Z) (s : Impl) : option ForwardOutcome * list Told * Impl :=
  let update := earliest_update deadline s in
  let lost :=
    match auth_terminal deadline sent s with
    | Some auth =>
        if (sa_sequence auth <? response_sequence)
           && match update with None => true | Some u => sa_sequence auth <? u_sequence u end
        then Some auth else None
    | None => None
    end in
  match lost with
  | Some auth => (Some (auth_outcome sent auth s), [], s)
  | None =>
      let '(published, told, s) := publish_initial (r_ids_told round) (r_progress_told round) s in
      if negb published then (Some (ForwardMalformed (items_ s) None ForwardPossible), told, s)
      else if complete (items_ s)
      then (Some (ForwardCompleted (items_ s) (mutation_state (items_ s))), told, s)
      else (None, told, s)
  end.

(** Nothing has happened: the deadline, then cancellation. *)
Definition idle_round (deadline : RequestDeadline) (round : Round) (s : Impl) : option ForwardOutcome :=
  let state := match items_ s with [] => ForwardPossible | _ => mutation_state (items_ s) end in
  if deadline_expired deadline (r_now round) then Some (ForwardTimedOut (items_ s) state)
  else if r_cancelled round then Some (ForwardCancelled (items_ s) (at_least_possible state))
  else None.

(** The body of the loop. *)
Definition turn (deadline : RequestDeadline) (sent : AuthStateSnapshot) (round : Round)
    (response_sequence : option Z) (s : Impl) :
    option ForwardOutcome * list Told * option Z * Impl :=
  let s := record_auth (r_current round) (fold_left (fun s r => record r s) (r_recorded round) s) in
  let '(early, response_sequence, s) := meet_response deadline sent round response_sequence s in
  match early with
  | Some outcome => (Some outcome, [], response_sequence, s)
  | None =>
      if initial_published_ s then
        let auth := auth_terminal deadline sent s in
        match earliest_update deadline s, auth with
        | Some update, None =>
            let '(outcome, told, s) := apply_update update (r_progress_told round) s in
            (outcome, told, response_sequence, s)
        | Some update, Some auth =>
            if u_sequence update <? sa_sequence auth then
              let '(outcome, told, s) := apply_update update (r_progress_told round) s in
              (outcome, told, response_sequence, s)
            else (Some (auth_outcome sent auth s), [], response_sequence, s)
        | None, Some auth => (Some (auth_outcome sent auth s), [], response_sequence, s)
        | None, None => (idle_round deadline round s, [], response_sequence, s)
        end
      else
        match response_sequence with
        | Some sequence =>
            let '(outcome, told, s) := publish_round deadline sent round sequence s in
            (outcome, told, response_sequence, s)
        | None => (idle_round deadline round s, [], response_sequence, s)
        end
  end.

(** The loop, over the rounds that happen: [None] when it is still going on. *)
Fixpoint wait_for_terminal (deadline : RequestDeadline) (sent : AuthStateSnapshot) (rounds : list Round)
    (response_sequence : option Z) (s : Impl) : option ForwardOutcome * list Told * Impl :=
  match rounds with
  | [] => (None, [], s)
  | round :: rest =>
      let '(outcome, told, response_sequence, s) := turn deadline sent round response_sequence s in
      match outcome with
      | Some outcome => (Some outcome, told, s)
      | None =>
          let '(outcome, later, s) := wait_for_terminal deadline sent rest response_sequence s in
          (outcome, told ++ later, s)
      end
  end.

(** ** Preparation and submission *)

(** What [prepare] meets, in the order of its calls.  [pr_write] is the answer of
    [prepare_forward_messages], [pr_current] the state the client shows then. *)
Record Preparation := {
  pr_now : Z;
  pr_before_request : bool;
  pr_now_after_hook : Z;
  pr_cancelled : bool;
  pr_reserved : bool;
  pr_recorded : list Recorded;
  pr_write : result (option TdAuthorizationFailure) unit;
  pr_current : option AuthStateSnapshot;
  pr_now_prepared : Z;
  pr_cancelled_prepared : bool
}.

(** The coordinator, the in-flight requests of its session and the requests the
    client was given. *)
Record World := { impl : Impl; flights : Z; submitted : Z }.

Definition with_impl (s : Impl) (w : World) : World :=
  {| impl := s; flights := flights w; submitted := submitted w |}.

Definition settle_in_flight (w : World) : World :=
  if in_flight_ (impl w)
  then {| impl := { impl w with in_flight_ := false }; flights := flights w - 1;
          submitted := submitted w |}
  else w.

Inductive ForwardPreparationOutcome :=
| ForwardPrepared
| ForwardNotPrepared (outcome : ForwardOutcome).

Definition drop_write (w : World) : World :=
  settle_in_flight (with_impl { impl w with prepared_write_ := false } w).

(** The refusal of the client, explained by the state it shows. *)
Definition refusal (authorization : AuthStateSnapshot) (current : option AuthStateSnapshot)
    (failure : option TdAuthorizationFailure) : ForwardOutcome :=
  match current with
  | None => ForwardGenerationClosed [] (a_client_generation authorization) ForwardNone
  | Some current =>
      if negb (a_client_generation current =? a_client_generation authorization)
         || is_closed (a_state current)
      then ForwardGenerationClosed [] (a_client_generation authorization) ForwardNone
      else if negb (is_ready (a_state current))
      then ForwardAuthorizationLost [] (a_client_generation current) (a_auth_sequence current)
             (a_state current) ForwardNone
      else ForwardRejected [] failure ForwardNone
  end.

(** [prepare] once the session has reserved an in-flight request. *)
Definition prepare_reserved (deadline : RequestDeadline) (request : TdForwardMessagesRequest)
    (authorization : AuthStateSnapshot) (p : Preparation) (w : World) :
    ForwardPreparationOutcome * World :=
  let s := { impl w with in_flight_ := true; source_ids_ := message_ids request;
             to_chat_id_ := to_chat_id request; sending_id_ := sending_id request;
             authorization_ := Some authorization } in
  let s := fold_left (fun s r => record r s) (pr_recorded p) s in
  let w := {| impl := s; flights := flights w + 1; submitted := submitted w |} in
  match pr_write p with
  | Err failure => (ForwardNotPrepared (refusal authorization (pr_current p) failure), drop_write w)
  | Ok _ =>
      let w := with_impl { impl w with prepared_write_ := true } w in
      if deadline_expired deadline (pr_now_prepared p)
      then (ForwardNotPrepared (ForwardTimedOut [] ForwardNone), drop_write w)
      else if pr_cancelled_prepared p
      then (ForwardNotPrepared (ForwardCancelled [] ForwardNone), drop_write w)
      else (ForwardPrepared, with_impl { impl w with prepared_ := true } w)
  end.

Definition prepare (deadline : RequestDeadline) (request : TdForwardMessagesRequest)
    (authorization : option AuthStateSnapshot) (p : Preparation) (w : World) :
    ForwardPreparationOutcome * World :=
  let rejected := ForwardNotPrepared (ForwardRejected [] None ForwardNone) in
  let timed_out := ForwardNotPrepared (ForwardTimedOut [] ForwardNone) in
  let cancelled := ForwardNotPrepared (ForwardCancelled [] ForwardNone) in
  match authorization with
  | None => (rejected, w)
  | Some authorization =>
      if executed_ (impl w) || negb (is_ready (a_state authorization))
         || negb (valid_td_forward_messages_request request)
      then (rejected, w)
      else
        let w := with_impl { impl w with executed_ := true } w in
        if deadline_expired deadline (pr_now p) then (timed_out, w)
        else if negb (pr_before_request p) then (rejected, w)
        else if deadline_expired deadline (pr_now_after_hook p) then (timed_out, w)
        else if pr_cancelled p then (cancelled, w)
        else if negb (pr_reserved p) then (cancelled, w)
        else prepare_reserved deadline request authorization p w
  end.

(** What [execute_prepared] meets. *)
Record Submission := {
  x_before_submit : bool;
  x_now : Z;
  x_cancelled : bool;
  x_sent : bool;
  x_rounds : list Round
}.

(** [None]: the loop is still going on. *)
Definition execute_prepared (deadline : RequestDeadline) (x : Submission) (w : World) :
    option ForwardOutcome * list Told * World :=
  let rejected := Some (ForwardRejected [] None ForwardPossible) in
  match authorization_ (impl w) with
  | Some authorization =>
      if negb (prepared_ (impl w)) || negb (prepared_write_ (impl w)) then (rejected, [], w)
      else
        let w := with_impl { impl w with prepared_ := false } w in
        if negb (x_before_submit x) then (rejected, [], drop_write w)
        else if deadline_expired deadline (x_now x)
        then (Some (ForwardTimedOut [] ForwardPossible), [], drop_write w)
        else if x_cancelled x then (Some (ForwardCancelled [] ForwardPossible), [], drop_write w)
        else
          let w := {| impl := { impl w with prepared_write_ := false }; flights := flights w;
                      submitted := submitted w + 1 |} in
          if negb (x_sent x) then (rejected, [], settle_in_flight w)
          else
            let '(outcome, told, s) :=
              wait_for_terminal deadline authorization (x_rounds x) None (impl w) in
            let w := with_impl s w in
            match outcome with
            | Some outcome => (Some outcome, told, settle_in_flight w)
            | None => (None, told, w)
            end
  | None => (rejected, [], w)
  end.

Definition execute (deadline : RequestDeadline) (request : TdForwardMessagesRequest)
    (authorization : option AuthStateSnapshot) (p : Preparation) (x : Submission) (w : World) :
    option ForwardOutcome * list Told * World :=
  let '(preparation, w) := prepare deadline request authorization p w in
  match preparation with
  | ForwardPrepared => execute_prepared deadline x w
  | ForwardNotPrepared outcome => (Some outcome, [], w)
  end.

(** The constructor records the state the client shows. *)
Definition new_impl (current : option AuthStateSnapshot) : Impl :=
  record_auth current
    {| executed_ := false; prepared_ := false; in_flight_ := false; response_consumed_ := false;
       initial_published_ := false; to_chat_id_ := 0; sending_id_ := 0; source_ids_ := []; items_ := [];
       temporaries_ := []; processed_update_sequences_ := []; prepared_write_ := false;
       authorization_ := None; wake_sequence_ := 0; updates_ := []; auth_events_ := [];
       latest_auth_ := None |}.
