(* ===== verification/ForwardFacts.v ===== *)
(** What the coordinator of a forward says of each message: every source message
    is accounted for once and in order, on the evidence of what Telegram returned
    or reported for it; what was reported as settled stays so; and once the
    deadline has passed the coordinator returns within a bounded number of
    rounds. *)
From Stdlib Require Import Permutation Sorted.
From S2P Require Import Prelude Deadline SingleSend Forward.
From coqutil Require Import Datatypes.RecordSetters.
Import OCamlLikeNotations.

(** * Lists updated at an index *)

Lemma set_at_length {A} i (x : A) l : List.length (set_at i x l) = List.length l.
Proof. revert i; induction l; intros [|i]; cbn; auto. Qed.

Lemma nth_some_lt {A} i (l : list (option A)) a : nth i l None = Some a -> (i < List.length l)%nat.
Proof. intros E. destruct (Nat.lt_ge_cases i (List.length l)) as [|L]; [easy|]. now rewrite nth_overflow in E. Qed.

Lemma temporary_ids_resolved i ts t :
  nth i ts None = Some t ->
  List.length (temporary_ids ts) = S (List.length (temporary_ids (set_at i None ts))).
Proof.
  revert i; induction ts as [|x ts IH]; intros [|i]; cbn [nth set_at]; try discriminate.
  - intros ->. reflexivity.
  - intros E. pose proof (IH _ E) as L. unfold temporary_ids in *. cbn [flat_map]. rewrite !length_app, L. lia.
Qed.

Lemma temporary_ids_length ts : (List.length (temporary_ids ts) <= List.length ts)%nat.
Proof. unfold temporary_ids. induction ts as [|[t|] ts IH]; cbn [flat_map app List.length]; lia. Qed.

(** * Items *)

Definition source_of (item : ForwardItem) : Z :=
  match item with ForwardPending s _ | ForwardSent s _ | ForwardFailed s _ _ _ => s end.

Definition sent_ids (items : list ForwardItem) : list Z :=
  flat_map (fun item => match item with ForwardSent _ m => [wr_id m] | _ => [] end) items.

Lemma duplicate_sent id items : duplicate id items = true <-> In id (sent_ids items).
Proof.
  unfold duplicate, sent_ids. rewrite existsb_exists, in_flat_map.
  split; intros ([] & I & E); try easy; eexists; (split; [exact I|]); cbn in *; lia.
Qed.

Lemma sent_ids_cons x items : sent_ids (x :: items) = sent_ids [x] ++ sent_ids items.
Proof. unfold sent_ids. cbn [flat_map]. now rewrite app_nil_r. Qed.

Lemma sent_ids_set i item items :
  (i < List.length items)%nat -> item_pending (nth i items (ForwardPending 0 0)) = true ->
  Permutation (sent_ids (set_at i item items)) (sent_ids [item] ++ sent_ids items).
Proof.
  revert i; induction items as [|x items IH]; intros [|i]; cbn [List.length nth set_at]; try lia; intros L P.
  - destruct x; try discriminate. now rewrite sent_ids_cons.
  - rewrite (sent_ids_cons x (set_at _ _ _)), (sent_ids_cons x items), (IH i) by (lia || easy).
    apply Permutation_app_swap_app.
Qed.

Lemma sent_ids_fresh i item items :
  (i < List.length items)%nat -> item_pending (nth i items (ForwardPending 0 0)) = true ->
  match item with ForwardSent _ m => duplicate (wr_id m) items = false | _ => True end ->
  NoDup (sent_ids items) -> NoDup (sent_ids (set_at i item items)).
Proof.
  intros L P F N. eapply Permutation_NoDup; [symmetry; now apply sent_ids_set|].
  destruct item as [| s m |]; cbn; [easy| |easy]. constructor; [|easy].
  rewrite <- duplicate_sent. congruence.
Qed.

(** ** Progress of an item *)

(** A settled item does not change; a pending one may become anything of its
    source message. *)
Definition advances (x y : ForwardItem) : Prop :=
  x = y \/ item_pending x = true /\ source_of x = source_of y.

Lemma advances_refl l : Forall2 advances l l.
Proof. induction l; constructor; auto. now left. Qed.

Lemma advances_trans a b c : Forall2 advances a b -> Forall2 advances b c -> Forall2 advances a c.
Proof.
  intros H; revert c; induction H as [|x y a b XY _ IH]; intros c K; inversion K as [|? z ? ? YZ]; subst; constructor; auto.
  destruct XY as [->|[P E]]; [easy|]. destruct YZ as [->|[]]; right; split; congruence.
Qed.

Lemma advances_set i item items :
  item_pending (nth i items (ForwardPending 0 0)) = true ->
  source_of item = source_of (nth i items (ForwardPending 0 0)) ->
  Forall2 advances items (set_at i item items).
Proof.
  revert i; induction items as [|x items IH]; intros [|i]; cbn; try constructor; auto.
  - right; split; congruence.
  - apply advances_refl.
  - now left.
Qed.

(** * Evidence *)

Section account.
Context (deadline : RequestDeadline) (sent : AuthStateSnapshot) (chat_id sending : Z) (sources : list Z).

(** The updates that were recorded and the responses that came. *)
Context (recorded : StampedUpdate -> Prop) (received : ForwardResponse -> Prop).

(** An update that came in time. *)
Definition met (u : SendUpdate) : Prop :=
  exists stamped, recorded stamped /\ u_update stamped = u /\ update_counts deadline stamped = true.

(** The vector that Telegram returned in time, a message for each source. *)
Definition answered (messages : list (option TdWriteMessage)) : Prop :=
  List.length messages = List.length sources
  /\ exists sequence observed_at,
       received (ForwardReceived sequence observed_at (TdForwardMessages messages))
       /\ sequence <> 0 /\ event_precedes_deadline observed_at deadline = true.

(** The message was returned as pending, with the identity of the request. *)
Definition awaiting (returned : option TdWriteMessage) (t : SingleSendTemporaryId) : Prop :=
  exists message, returned = Some message /\ valid_pending_message message chat_id sending = true
    /\ t = {| t_client_generation := a_client_generation sent; t_chat_id := chat_id;
              t_temporary_message_id := m_id (w_message message); t_sending_id := sending |}.

(** It was returned as sent, or an update replaced it by the sent message. *)
Definition became (returned : option TdWriteMessage) (r : TdMessageWriteResult) : Prop :=
  (exists message, returned = Some message
     /\ success_from message None chat_id = Some (SingleSendSucceeded None message r MutationConfirmed))
  \/ (exists t message, awaiting returned t
        /\ met (TdUpdateMessageSendSucceeded (t_client_generation t) (t_temporary_message_id t) (Some message))
        /\ success_from message (Some t) chat_id
           = Some (SingleSendSucceeded (Some t) message r MutationConfirmed)).

(** It was returned as failed, or an update says that it failed. *)
Definition failed_with (returned : option TdWriteMessage) (code : Z) : Prop :=
  (exists message error, returned = Some message /\ valid_failed_message message chat_id = true
     /\ ss_error (w_sending_state message) = Some error /\ e_code error = code)
  \/ (exists t message error, awaiting returned t
        /\ met (TdUpdateMessageSendFailed (t_client_generation t) (t_temporary_message_id t)
                  (Some message) (Some error))
        /\ valid_failed_message message chat_id = true
        /\ ss_error (w_sending_state message) = Some error /\ e_code error = code).

Definition deleted (returned : option TdWriteMessage) : Prop :=
  exists t ids permanent from_cache, awaiting returned t
    /\ met (TdUpdateDeleteMessages (t_client_generation t) chat_id ids permanent from_cache)
    /\ In (t_temporary_message_id t) ids.

(** What an item claims, given what was returned at its place. *)
Definition backed (returned : option TdWriteMessage) (item : ForwardItem) : Prop :=
  match item with
  | ForwardPending _ id => exists t, awaiting returned t /\ t_temporary_message_id t = id
  | ForwardSent _ r => became returned r
  | ForwardFailed _ UpstreamNull _ _ => returned = None
  | ForwardFailed _ TdlibError code _ => exists c, code = Some c /\ failed_with returned c
  | ForwardFailed _ DeletedBeforeConfirmation _ _ => deleted returned
  end.

(** The items account for the sources one by one, in order. *)
Inductive accounts : list Z -> list (option TdWriteMessage) -> list ForwardItem -> Prop :=
| accounts_nil : accounts [] [] []
| accounts_cons source returned item ss rs items :
    source_of item = source -> backed returned item ->
    accounts ss rs items -> accounts (source :: ss) (returned :: rs) (item :: items).

(** What a forward that was submitted may return. *)
Definition items_of (o : ForwardOutcome) : list ForwardItem :=
  match o with
  | ForwardTopLevelError _ _ => []
  | ForwardCompleted items _ | ForwardTimedOut items _ | ForwardAuthorizationLost items _ _ _ _
  | ForwardGenerationClosed items _ _ | ForwardCancelled items _ | ForwardRejected items _ _
  | ForwardMalformed items _ _ => items
  end.

Definition claim_of (o : ForwardOutcome) : ForwardMutationState :=
  match o with
  | ForwardCompleted _ m | ForwardTopLevelError _ m | ForwardTimedOut _ m
  | ForwardAuthorizationLost _ _ _ _ m | ForwardGenerationClosed _ _ m | ForwardCancelled _ m
  | ForwardRejected _ _ m | ForwardMalformed _ _ m => m
  end.

Record truthful (o : ForwardOutcome) : Prop := {
  tr_items : items_of o = [] \/ exists returned, answered returned /\ accounts sources returned (items_of o);
  tr_once : NoDup (sent_ids (items_of o));
  (** a mutation is confirmed when a message was sent, and only then (an outcome
      that the failure of a hook made malformed may say less) *)
  tr_confirmed : claim_of o = ForwardConfirmed -> exists s r, In (ForwardSent s r) (items_of o);
  tr_told : forall s r, In (ForwardSent s r) (items_of o) ->
    claim_of o = ForwardConfirmed \/ exists items type_id, o = ForwardMalformed items type_id ForwardPossible;
  (** nothing was mutated only when Telegram refused every message *)
  tr_none : claim_of o = ForwardNone -> o = ForwardCompleted (items_of o) ForwardNone
    /\ forall item, In item (items_of o) ->
         exists s reason code retry, item = ForwardFailed s reason code retry
           /\ reason <> DeletedBeforeConfirmation;
  tr_completed : forall items m, o = ForwardCompleted items m ->
    forall item, In item items -> item_pending item = false }.

(** ** Classification gives evidence *)

Lemma success_shape message t o :
  success_from message t chat_id = Some o -> exists r, o = SingleSendSucceeded t message r MutationConfirmed.
Proof. unfold success_from. destruct (_ || _); [discriminate|]. intros [= <-]. eauto. Qed.

Lemma failure_failed source error t m precise :
  exists retry, failed_from source (failure_from error t m precise)
                = Some (ForwardFailed source TdlibError (Some (e_code error)) retry).
Proof. unfold failure_from. destruct (_ =? _); cbn; eauto. Qed.

Lemma failed_shape source o item :
  failed_from source o = Some item ->
  exists code retry, item = ForwardFailed source TdlibError (Some code) retry.
Proof. destruct o; try discriminate; intros [= <-]; eauto. Qed.

(** An outcome of the classification, as an item of its source. *)
Definition settles (returned : option TdWriteMessage) (o : SingleSendOutcome) : Prop :=
  match o with
  | SingleSendSucceeded _ _ r _ => became returned r
  | SingleSendDeletedBeforeConfirmation _ _ => deleted returned
  | _ => forall source item, failed_from source o = Some item -> backed returned item
  end.

Lemma failure_settles returned error t m precise :
  failed_with returned (e_code error) -> settles returned (failure_from error t m precise).
Proof.
  intros F. unfold failure_from. destruct (_ =? _); intros source item [= <-]; cbn; eauto.
Qed.

Lemma malformed_settles returned t type_id : settles returned (malformed t type_id).
Proof. now intros source item. Qed.

Hint Resolve malformed_settles : core.

Lemma immediate_pending message t :
  classify_immediate message (a_client_generation sent) chat_id sending = SingleSendImmediatePending t ->
  awaiting (Some message) t.
Proof.
  unfold classify_immediate. destruct (ss_kind _); try discriminate.
  - destruct (success_from _ _ _); discriminate.
  - destruct (valid_pending_message message chat_id sending) eqn:V; [|discriminate]. intros [= <-].
    now exists message.
  - destruct (ss_error _); [|discriminate]. destruct (negb _); discriminate.
Qed.

Lemma immediate_settles message o :
  classify_immediate message (a_client_generation sent) chat_id sending = ImmediateOutcome o ->
  settles (Some message) o.
Proof.
  unfold classify_immediate. destruct (ss_kind _).
  - destruct (success_from message None chat_id) as [o'|] eqn:E; intros [= <-]; [|auto].
    destruct (success_shape _ _ _ E) as (r & ->). left. eauto.
  - destruct (negb _); [|discriminate]. intros [= <-]; auto.
  - destruct (ss_error _) as [error|] eqn:E; [|intros [= <-]; auto].
    destruct (valid_failed_message message chat_id) eqn:V; intros [= <-]; auto.
    apply failure_settles. left. now exists message, error.
  - intros [= <-]; auto.
Qed.

(** An update about the temporary message of a pending one. *)
Lemma update_settles u t returned o :
  met u -> awaiting returned t -> classify_update u t = Some o -> settles returned o.
Proof.
  intros M A. assert (t_chat_id t = chat_id) as C by (now destruct A as (? & _ & _ & ->)).
  unfold classify_update, outcome_from_update.
  destruct u as [g old message | g old message error | g c ids permanent cached].
  - destruct (_ || _) eqn:K; [discriminate|]. assert (g = t_client_generation t /\ old = t_temporary_message_id t) as [-> ->] by lia.
    destruct message as [message|]; [|intros [= <-]; auto].
    destruct (success_from message _ _) as [o'|] eqn:E; intros [= <-]; [|auto]. rewrite C in E.
    destruct (success_shape _ _ _ E) as (r & ->). right. exists t, message. auto.
  - destruct (_ || _) eqn:K; [discriminate|]. assert (g = t_client_generation t /\ old = t_temporary_message_id t) as [-> ->] by lia.
    destruct message as [message|]; [|intros [= <-]; auto]. destruct error as [error|]; [|intros [= <-]; auto].
    destruct (_ && _) eqn:V; intros [= <-]; [|auto]. apply andb_prop in V as [V E]. rewrite C in V.
    destruct (eq_dec _ _) in E; [|discriminate]. apply failure_settles. right. exists t, message, error. auto.
  - destruct (_ || _) eqn:K; [discriminate|].
    apply orb_false_elim in K as [K I]. apply negb_false_iff in I.
    assert (g = t_client_generation t /\ c = t_chat_id t) as (-> & ->) by lia.
    clear K. destruct (_ || _); intros [= <-]; [auto|]. exists t, ids, permanent, cached. rewrite C in M.
    repeat split; auto. apply existsb_exists in I as (x & I & E). now apply Z.eqb_eq in E as ->.
Qed.

(** ** Slots *)

(** A source, what was returned for it, its item and its temporary id: the latter
    is there exactly while the item is pending. *)
Definition slot (source : Z) (returned : option TdWriteMessage) (item : ForwardItem)
    (temporary : option SingleSendTemporaryId) : Prop :=
  source_of item = source /\ backed returned item
  /\ match temporary with
     | Some t => awaiting returned t /\ item_pending item = true
     | None => item_pending item = false
     end.

Inductive slots : list Z -> list (option TdWriteMessage) -> list ForwardItem ->
    list (option SingleSendTemporaryId) -> Prop :=
| slots_nil : slots [] [] [] []
| slots_cons source returned item temporary ss rs items ts :
    slot source returned item temporary -> slots ss rs items ts ->
    slots (source :: ss) (returned :: rs) (item :: items) (temporary :: ts).

Lemma slots_accounts ss rs items ts : slots ss rs items ts -> accounts ss rs items.
Proof. induction 1 as [|? ? ? ? ? ? ? ? []]; constructor; tauto. Qed.

Lemma slots_lengths ss rs items ts :
  slots ss rs items ts -> List.length items = List.length ss /\ List.length ts = List.length ss.
Proof. induction 1; cbn; intuition lia. Qed.

Lemma slots_at ss rs items ts i t :
  slots ss rs items ts -> nth i ts None = Some t ->
  exists returned, slot (nth i ss 0) returned (nth i items (ForwardPending 0 0)) (Some t).
Proof.
  intros H; revert i; induction H as [|? returned item temporary ? ? ? ? S H IH]; intros [|i]; cbn [nth]; try discriminate.
  - intros ->. eauto.
  - apply IH.
Qed.

(** The item of a slot is replaced by a settled one. *)
Lemma slots_resolve ss rs items ts i t item :
  slots ss rs items ts -> nth i ts None = Some t ->
  source_of item = nth i ss 0 -> item_pending item = false ->
  (forall returned, awaiting returned t -> backed returned item) ->
  slots ss rs (set_at i item items) (set_at i None ts).
Proof.
  intros H; revert i; induction H as [|? ? ? ? ? ? ? ? S H IH]; intros [|i]; cbn [nth set_at]; try discriminate.
  - intros -> E P B. constructor; [|easy]. destruct S as (_ & _ & A & _). repeat split; auto.
  - intros T E P B. constructor; auto.
Qed.

(** ** The returned vector *)

Lemma parse_slots ss : forall rs tids fids items ts,
  parse_messages (a_client_generation sent) chat_id sending ss rs tids fids = Ok (items, ts) ->
  List.length rs = List.length ss ->
  slots ss rs items ts /\ NoDup (sent_ids items) /\ forall id, In id (sent_ids items) -> ~ In id fids.
Proof.
  induction ss as [|source ss IH]; intros [|returned rs] tids fids items ts; cbn [parse_messages List.length]; try discriminate.
  - intros [= <- <-] _. repeat split; [constructor..|easy].
  - intros P [= L].
    assert (forall item temporary tids' fids',
      match parse_messages (a_client_generation sent) chat_id sending ss rs tids' fids' with
      | Ok (items, ts) => Ok (item :: items, temporary :: ts) | Err e => Err e end = Ok (items, ts) ->
      slot source returned item temporary -> NoDup (sent_ids [item]) ->
      (forall id, In id (sent_ids [item]) -> ~ In id fids /\ In id fids') -> incl fids fids' ->
      slots (source :: ss) (returned :: rs) items ts /\ NoDup (sent_ids items)
      /\ forall id, In id (sent_ids items) -> ~ In id fids) as N.
    { intros item temporary tids' fids' E S D F I. destruct (parse_messages _ _ _ ss rs tids' fids') as [[items' ts']|] eqn:R; [|discriminate].
      injection E as <- <-. destruct (IH _ _ _ _ _ R L) as (SL & ND & FR). rewrite sent_ids_cons.
      repeat split; [now constructor| |].
      - apply NoDup_app; auto. intros id J K. now apply (FR id K), F.
      - intros id J. apply in_app_or in J as [J|J]; [now apply F|]. intros K. now apply (FR id J), I. }
    destruct returned as [message|].
    + destruct (classify_immediate _ _ _ _) as [t|o] eqn:C.
      * apply immediate_pending in C. destruct (existsb _ _); [discriminate|].
        eapply N; [exact P| |constructor|easy|easy]. repeat split; cbn; eauto.
      * apply immediate_settles in C.
        destruct o; try (cbn in P; discriminate);
          [|eapply N; [exact P|split; [reflexivity|split; [exact (C source _ eq_refl)|reflexivity]]|constructor|easy|easy]..].
        destruct (existsb _ _) eqn:X; [discriminate|]. eapply N; [exact P|now repeat split|repeat constructor; easy| |].
        -- intros id [<-|[]]. split; [|now left]. intros I. apply not_true_iff_false in X. apply X.
           apply existsb_exists. exists (wr_id result). split; [easy|lia].
        -- intros id I; now right.
    + eapply N; [exact P|now repeat split|constructor|easy|easy].
Qed.

(** ** Claims *)

Lemma mutation_confirmed items : mutation_state items = ForwardConfirmed <-> exists s r, In (ForwardSent s r) items.
Proof.
  unfold mutation_state. destruct (existsb is_sent items) eqn:E.
  - split; [|easy]. intros _. apply existsb_exists in E as ([] & I & F); try discriminate. eauto.
  - split; [destruct (existsb unconfirmed items); discriminate|].
    intros (s & r & I). assert (existsb is_sent items = true) by (apply existsb_exists; eauto). congruence.
Qed.

Lemma mutation_none items item :
  mutation_state items = ForwardNone -> In item items ->
  exists s reason code retry, item = ForwardFailed s reason code retry /\ reason <> DeletedBeforeConfirmation.
Proof.
  unfold mutation_state. destruct (existsb is_sent items) eqn:E; [discriminate|].
  destruct (existsb unconfirmed items) eqn:F; [discriminate|]. intros _ I.
  assert (is_sent item = false /\ unconfirmed item = false) as [A B].
  { split; apply not_true_iff_false; intros X; [rewrite <- not_true_iff_false in E; apply E
      |rewrite <- not_true_iff_false in F; apply F]; apply existsb_exists; eauto. }
  destruct item as [| |source [] code retry]; try discriminate; repeat eexists; discriminate.
Qed.

Lemma possible_not_none m : at_least_possible m <> ForwardNone.
Proof. now destruct m. Qed.

Lemma possible_confirmed m : at_least_possible m = ForwardConfirmed <-> m = ForwardConfirmed.
Proof. now destruct m. Qed.

(** Items that the coordinator may report. *)
Definition sound (items : list ForwardItem) : Prop :=
  (items = [] \/ exists returned, answered returned /\ accounts sources returned items)
  /\ NoDup (sent_ids items).

Lemma nothing_sound : sound [].
Proof. split; [now left|constructor]. Qed.

Definition is_completed (o : ForwardOutcome) : bool :=
  match o with ForwardCompleted _ _ => true | _ => false end.

Lemma completed_truthful items :
  sound items -> complete items = true -> truthful (ForwardCompleted items (mutation_state items)).
Proof.
  intros [A N] C. constructor; cbn; auto.
  - apply mutation_confirmed.
  - intros s r I. left. apply mutation_confirmed. eauto.
  - intros M. split; [now rewrite M|]. intros item. now apply mutation_none.
  - intros items' m [= <- _] item I. apply not_true_iff_false. intros P.
    apply negb_true_iff in C. rewrite <- not_true_iff_false in C. apply C, existsb_exists. eauto.
Qed.

Lemma unfinished_truthful o :
  sound (items_of o) -> is_completed o = false -> claim_of o = unknown_mutation_state (items_of o) ->
  truthful o.
Proof.
  intros [A N] F C. constructor; auto.
  - intros M. rewrite C in M. now apply mutation_confirmed, possible_confirmed.
  - intros s r I. left. rewrite C. apply possible_confirmed, mutation_confirmed. eauto.
  - intros M. now rewrite C in M; apply possible_not_none in M.
  - intros items m ->. discriminate.
Qed.

Lemma malformed_truthful items type_id : sound items -> truthful (ForwardMalformed items type_id ForwardPossible).
Proof. intros [A N]. constructor; cbn; eauto; try discriminate. Qed.

Lemma empty_truthful o :
  items_of o = [] -> is_completed o = false -> claim_of o = ForwardPossible -> truthful o.
Proof. intros E F C. apply unfinished_truthful; auto; rewrite E; [apply nothing_sound|easy]. Qed.

End account.
