(* ===== verification/ForwardClaims.v ===== *)
(** The wait loop of a forward: an invariant of its rounds, and from it that an
    outcome is truthful, that reports only advance, and that the coordinator
    returns once the deadline has passed. *)
From Stdlib Require Import Permutation Sorted.
From S2P Require Import Prelude Deadline SingleSend SingleSendFacts Forward ForwardFacts.
From coqutil Require Import Datatypes.RecordSetters.
Import OCamlLikeNotations.

(** * Recording *)

(** What recording an event leaves alone. *)
Definition core (s : Impl) :=
  (to_chat_id_ s, sending_id_ s, source_ids_ s, items_ s, temporaries_ s, initial_published_ s,
   response_consumed_ s, in_flight_ s).

Lemma record_auth_core current s : core (record_auth current s) = core s.
Proof. destruct current; cbn; [|easy]. now destruct (latest_auth_ s); [destruct (auth_later _ _)|]. Qed.

Lemma record_core r s : core (record r s) = core s.
Proof. destruct r; cbn [record]; [easy|apply record_auth_core|easy]. Qed.

Lemma records_core l s : core (fold_left (fun s r => record r s) l s) = core s.
Proof. revert s; induction l as [|r l IH]; intros s; cbn; [easy|]. now rewrite IH, record_core. Qed.

Lemma record_auth_updates current s : updates_ (record_auth current s) = updates_ s.
Proof. destruct current; cbn; [|easy]. now destruct (latest_auth_ s); [destruct (auth_later _ _)|]. Qed.

Lemma records_updates l s u :
  In u (updates_ (fold_left (fun s r => record r s) l s)) -> In u (updates_ s) \/ In (RecordedUpdate u) l.
Proof.
  revert s; induction l as [|r l IH]; intros s; cbn [fold_left]; [now left|].
  intros I. apply IH in I as [I|I]; [|now right; right]. destruct r as [update|snapshot|]; cbn [record] in I.
  - cbn in I. apply in_app_or in I as [I|[->|[]]]; [now left|now right; left].
  - rewrite record_auth_updates in I. now left.
  - now left.
Qed.

(** * The loop *)

Section loop.
Context (deadline : RequestDeadline) (sent : AuthStateSnapshot) (chat_id sending : Z) (sources : list Z).
Context (recorded : StampedUpdate -> Prop) (received : ForwardResponse -> Prop).

Notation met' := (met deadline recorded).
Notation answered' := (answered deadline sources received).
Notation awaiting' := (awaiting sent chat_id sending).
Notation backed' := (backed deadline sent chat_id sending recorded).
Notation slots' := (slots deadline sent chat_id sending recorded).
Notation sound' := (sound deadline sent chat_id sending sources recorded received).
Notation truthful' := (truthful deadline sent chat_id sending sources recorded received).

(** Between rounds.  [response_sequence] is the variable of the loop. *)
Record steady (response_sequence : option Z) (s : Impl) : Prop := {
  st_chat : to_chat_id_ s = chat_id;
  st_sending : sending_id_ s = sending;
  st_sources : source_ids_ s = sources;
  st_updates : forall u, In u (updates_ s) -> recorded u;
  st_slots : (items_ s = [] /\ temporaries_ s = [])
    \/ exists returned, answered' returned /\ slots' sources returned (items_ s) (temporaries_ s);
  st_once : NoDup (sent_ids (items_ s));
  st_unanswered : response_sequence = None -> items_ s = [];
  st_open : initial_published_ s = true -> complete (items_ s) = false;
  st_consumed : response_sequence <> None -> response_consumed_ s = true;
  st_sequence : initial_published_ s = true -> response_sequence <> None }.

Lemma steady_sound n s : steady n s -> sound' (items_ s).
Proof.
  intros [_ _ _ _ [[-> _]|(returned & A & S)] N _ _ _ _]; [apply nothing_sound|].
  split; [|easy]. right. exists returned. split; [easy|]. eapply slots_accounts, S.
Qed.

Lemma steady_core n s s' :
  core s' = core s -> (forall u, In u (updates_ s') -> recorded u) -> steady n s -> steady n s'.
Proof.
  unfold core. intros [= E1 E2 E3 E4 E5 E6 E7 E8] U [C S R _ L N A O K Q].
  constructor; rewrite ?E1, ?E2, ?E3, ?E4, ?E5, ?E6, ?E7; auto.
Qed.

Lemma steady_temporaries n s :
  steady n s -> (List.length (temporary_ids (temporaries_ s)) <= List.length sources)%nat.
Proof.
  intros H. pose proof (temporary_ids_length (temporaries_ s)) as B.
  destruct (st_slots _ _ H) as [[_ E]|(rs & _ & L)]; [rewrite E; cbn; lia|].
  apply slots_lengths in L. lia.
Qed.

(** What the round may bring. *)
Definition brings (round : Round) : Prop :=
  (forall u, In (RecordedUpdate u) (r_recorded round) -> recorded u)
  /\ (forall r, r_ready round = Some r -> received r).

(** The beginning of a round. *)
Definition begun (round : Round) (s : Impl) : Impl :=
  record_auth (r_current round) (fold_left (fun s r => record r s) (r_recorded round) s).

Lemma begun_core round s : core (begun round s) = core s.
Proof. unfold begun. now rewrite record_auth_core, records_core. Qed.

Lemma steady_begun n round s : brings round -> steady n s -> steady n (begun round s).
Proof.
  intros [B _] H. apply (steady_core n s); [apply begun_core| |easy].
  intros u I. unfold begun in I. rewrite record_auth_updates in I.
  apply records_updates in I as [I|I]; [now apply (st_updates _ _ H)|auto].
Qed.

(** ** Outcomes of a state *)

Lemma auth_outcome_items event s : items_of (auth_outcome sent event s) = items_ s.
Proof. unfold auth_outcome. now destruct (_ || _). Qed.

Lemma auth_outcome_truthful event s : sound' (items_ s) -> truthful' (auth_outcome sent event s).
Proof.
  intros S. apply unfinished_truthful; rewrite ?auth_outcome_items; auto; unfold auth_outcome.
  - now destruct (_ || _).
  - destruct (_ || _); cbn; now destruct (items_ s).
Qed.

Lemma pending_unknown items : complete items = false -> mutation_state items = unknown_mutation_state items.
Proof.
  unfold complete, unknown_mutation_state, mutation_state. intros C. apply negb_false_iff in C.
  assert (existsb unconfirmed items = true) as ->.
  { apply existsb_exists in C as (x & I & P). apply existsb_exists. exists x. now destruct x. }
  now destruct (existsb is_sent items).
Qed.

Lemma idle_truthful round s o :
  sound' (items_ s) -> items_ s = [] \/ complete (items_ s) = false ->
  idle_round deadline round s = Some o -> truthful' o /\ items_of o = items_ s.
Proof.
  intros S P. unfold idle_round.
  destruct (deadline_expired _ _); [|destruct (r_cancelled round); [|discriminate]]; intros [= <-]; (split; [|easy]).
  - apply unfinished_truthful; auto. cbn. destruct P as [->|P]; [easy|].
    rewrite <- pending_unknown by easy. now destruct (items_ s).
  - apply unfinished_truthful; auto. cbn. now destruct (items_ s).
Qed.

(** ** What a round does *)

Definition reports (told : list Told) : list (list ForwardItem) :=
  flat_map (fun t => match t with Progress items => [items] | TemporaryIds _ => [] end) told.

(** The items that are shown when a round ends. *)
Definition shown (o : option ForwardOutcome) (s : Impl) : list ForwardItem :=
  match o with Some o => items_of o | None => items_ s end.

(** How many rounds that find the deadline passed can follow. *)
Definition remaining (s : Impl) : nat :=
  if initial_published_ s then List.length (temporary_ids (temporaries_ s)) else S (List.length sources).

Record turned (now : Z) (s : Impl) (o : option ForwardOutcome) (told : list Told) (n : option Z) (s' : Impl) :
    Prop := {
  tn_outcome : match o with Some o => truthful' o | None => steady n s' end;
  tn_reports : reports told = [] \/ reports told = [shown o s'];
  tn_advances : initial_published_ s = true -> Forall2 advances (items_ s) (shown o s');
  tn_published : o = None -> reports told <> [] \/ initial_published_ s = true -> initial_published_ s' = true;
  tn_remaining : o = None -> deadline_expired deadline now = true -> (remaining s' < remaining s)%nat;
  tn_flight : in_flight_ s' = in_flight_ s }.

(** A round that returns with what was already shown, and tells nothing. *)
Lemma turned_out now s o n s' :
  truthful' o -> (initial_published_ s = true -> items_of o = items_ s) -> in_flight_ s' = in_flight_ s ->
  turned now s (Some o) [] n s'.
Proof.
  intros T I F. constructor; auto; try discriminate.
  intros P. cbn. rewrite I by easy. apply advances_refl.
Qed.

(** ** The response *)

(** A terminal response leaves the items as they are. *)
Lemma consume_steady n response s parsed s' :
  received response -> initial_published_ s = false -> steady n s ->
  consume_response deadline response sent s = (parsed, s') ->
  in_flight_ s' = in_flight_ s /\ initial_published_ s' = false
  /\ match terminal parsed with
     | Some o => truthful' o /\ items_ s' = items_ s
     | None => vector_available parsed = true /\ steady (Some (p_sequence parsed)) s'
     end.
Proof.
  intros R P H E.
  assert (forall k o, items_of o = [] -> is_completed o = false -> claim_of o = ForwardPossible ->
    (parsed_terminal k o, { s with response_consumed_ := true }) = (parsed, s') ->
    in_flight_ s' = in_flight_ s /\ initial_published_ s' = false
    /\ match terminal parsed with
       | Some o => truthful' o /\ items_ s' = items_ s
       | None => vector_available parsed = true /\ steady (Some (p_sequence parsed)) s'
       end) as T.
  { intros k o I F C [= <- <-]. cbn. auto 6 using empty_truthful. }
  unfold consume_response in E. destruct response as [sequence observed value|failure|]; [|now apply T in E..].
  destruct (_ || _) eqn:Z0; [now apply T in E|].
  destruct (event_precedes_deadline observed deadline) eqn:D; cbn [negb] in E; [|now apply T in E].
  destruct value as [error|type_id|messages|]; try (now apply T in E).
  destruct (_ =? _)%nat eqn:L; cbn [negb] in E; [|now apply T in E]. apply Nat.eqb_eq in L.
  change (source_ids_ _) with (source_ids_ s) in L.
  destruct (parse_messages _ _ _ _ _ _ _) as [[items ts]|type_id] eqn:Q; [|now apply T in E].
  injection E as <- <-. cbn. split; [easy|]. split; [easy|]. split; [easy|].
  destruct H as [HC HS HR HU HL HN HA HO HK HQ].
  change (to_chat_id_ _) with (to_chat_id_ s) in Q. change (sending_id_ _) with (sending_id_ s) in Q.
  change (source_ids_ _) with (source_ids_ s) in Q. rewrite HC, HS, HR in Q. rewrite HR in L.
  destruct (parse_slots deadline sent chat_id sending recorded _ _ _ _ _ _ Q L) as (SL & ND & _).
  constructor; try (intros X; change (initial_published_ s = true) in X; congruence); cbn; auto; try congruence.
  right. exists messages. repeat split; auto.
  exists sequence, observed. repeat split; auto. lia.
Qed.

Lemma meet_response_steady n round s early n' s' :
  brings round -> steady n s -> meet_response deadline sent round n s = (early, n', s') ->
  in_flight_ s' = in_flight_ s /\ initial_published_ s' = initial_published_ s
  /\ match early with
     | Some o => initial_published_ s = false /\ truthful' o
     | None => steady n' s' /\ (initial_published_ s = true -> s' = s)
     end.
Proof.
  intros [_ B] H. unfold meet_response. destruct (response_consumed_ s) eqn:C; [now intros [= <- <- <-]|].
  destruct (r_ready round) as [response|] eqn:R; [|now intros [= <- <- <-]].
  assert (initial_published_ s = false) as P.
  { apply not_true_iff_false. intros P. apply (st_sequence _ _ H), (st_consumed _ _ H) in P. congruence. }
  destruct (consume_response _ _ _ _) as [parsed s1] eqn:Q.
  destruct (consume_steady n response s parsed s1 (B _ eq_refl) P H Q) as (F & P1 & T). intros [= <- <- <-].
  split; [easy|]. split; [congruence|]. destruct (terminal parsed) as [o|].
  - destruct T as [T I]. pose proof (steady_sound _ _ H) as S. rewrite <- I in S.
    destruct (auth_terminal deadline sent s1) as [auth|]; [destruct (_ <? _)|]; auto using auth_outcome_truthful.
  - destruct T as [-> T]. cbn. split; [easy|]. congruence.
Qed.

(** ** The first publication *)

Lemma reports_app a b : reports (a ++ b) = reports a ++ reports b.
Proof. apply flat_map_app. Qed.

Lemma publish_initial_shape ids_told progress_told s published told s' :
  publish_initial ids_told progress_told s = (published, told, s') ->
  items_ s' = items_ s /\ in_flight_ s' = in_flight_ s
  /\ (if published then s' = { s with initial_published_ := true } /\ reports told = [items_ s]
      else reports told = [] \/ reports told = [items_ s]).
Proof.
  unfold publish_initial. destruct (temporary_ids (temporaries_ s)) as [|id ids]; [|destruct ids_told];
    destruct progress_told; intros [= <- <- <-]; cbn; auto.
Qed.

Lemma steady_published n s :
  steady (Some n) s -> complete (items_ s) = false -> steady (Some n) { s with initial_published_ := true }.
Proof. intros [C S R U L N A O K Q] I. constructor; auto; discriminate. Qed.

Lemma publish_turned now n s sequence round o told s' :
  steady (Some n) s -> initial_published_ s = false ->
  publish_round deadline sent round sequence s = (o, told, s') -> turned now s o told (Some n) s'.
Proof.
  intros H P. pose proof (steady_sound _ _ H) as S. unfold publish_round.
  set (lost := match auth_terminal deadline sent s with Some _ => _ | None => _ end). clearbody lost.
  destruct lost as [auth|].
  { intros [= <- <- <-]. apply turned_out; auto using auth_outcome_truthful, auth_outcome_items. }
  destruct (publish_initial _ _ _) as [[published told'] s1] eqn:E.
  apply publish_initial_shape in E as (I & F & E). destruct published; cbn [negb].
  - destruct E as [-> E]. rewrite I. destruct (complete (items_ s)) eqn:D; intros [= <- <- <-];
      (constructor; cbn [shown items_of]; rewrite ?E, ?I; try easy; auto; try congruence).
    + now apply completed_truthful.
    + now apply steady_published.
    + intros _ _. match goal with |- (?a < _)%nat => change a with (List.length (temporary_ids (temporaries_ s))) end.
      unfold remaining. rewrite P. pose proof (steady_temporaries _ _ H). lia.
  - rewrite I. intros [= <- <- <-]. constructor; cbn [shown items_of]; try easy; try congruence.
    now apply malformed_truthful.
Qed.

(** ** Updates *)

Definition waiting (s : Impl) : nat := List.length (temporary_ids (temporaries_ s)).

(** Applying an update to some indexes: only items and temporaries change, items
    advance, and unless nothing matched fewer messages are awaited. *)
Record applied (returned : list (option TdWriteMessage)) (s s' : Impl) : Prop := {
  ap_slots : slots' sources returned (items_ s') (temporaries_ s');
  ap_once : NoDup (sent_ids (items_ s'));
  ap_frame : s' = { s with items_ := items_ s'; temporaries_ := temporaries_ s' };
  ap_advances : Forall2 advances (items_ s) (items_ s');
  ap_waiting : (waiting s' <= waiting s)%nat }.

Lemma applied_trans returned s1 s2 s3 : applied returned s1 s2 -> applied returned s2 s3 -> applied returned s1 s3.
Proof.
  intros [_ _ F1 A1 W1] [S2 N2 F2 A2 W2]. constructor; auto.
  - rewrite F2, F1. reflexivity.
  - eapply advances_trans; eauto.
  - lia.
Qed.

Lemma applied_refl returned s :
  slots' sources returned (items_ s) (temporaries_ s) -> NoDup (sent_ids (items_ s)) -> applied returned s s.
Proof. intros S N. constructor; auto; [now destruct s|apply advances_refl]. Qed.

Lemma resolve_applied returned s i t item :
  slots' sources returned (items_ s) (temporaries_ s) -> NoDup (sent_ids (items_ s)) ->
  nth i (temporaries_ s) None = Some t -> source_of item = nth i sources 0 -> item_pending item = false ->
  (forall r, awaiting' r t -> backed' r item) ->
  match item with ForwardSent _ m => duplicate (wr_id m) (items_ s) = false | _ => True end ->
  applied returned s (resolve i item s) /\ (waiting (resolve i item s) < waiting s)%nat.
Proof.
  intros S N T E P B D. destruct (slots_at _ _ _ _ _ _ _ _ _ _ _ S T) as (r & SR & _ & A & PP).
  assert (waiting s = Datatypes.S (waiting (resolve i item s))) as W by now apply temporary_ids_resolved with (t := t).
  pose proof (slots_lengths _ _ _ _ _ _ _ _ _ S). apply nth_some_lt in T as L.
  split; [|lia]. constructor; [now apply slots_resolve with (t := t)| |now destruct s| |lia].
  - apply sent_ids_fresh; auto. lia.
  - apply advances_set; congruence.
Qed.

Lemma apply_at_applied u returned : met' u -> forall indexes changed s m changed' s',
  slots' sources returned (items_ s) (temporaries_ s) -> NoDup (sent_ids (items_ s)) -> source_ids_ s = sources ->
  apply_at u indexes changed s = (m, changed', s') ->
  applied returned s s'
  /\ match m with
     | Some o => exists type_id, o = ForwardMalformed (items_ s') type_id (unknown_mutation_state (items_ s'))
     | None => (waiting s' < waiting s)%nat /\ changed' = true
         \/ (forall i, In i indexes -> classified_at u i s = None) /\ changed' = changed
     end.
Proof.
  intros M. induction indexes as [|i indexes IH]; intros changed s m changed' s' S N R; cbn [apply_at].
  { intros [= <- <- <-]. split; [now apply applied_refl|]. now right. }
  destruct (classified_at u i s) as [o|] eqn:C.
  2: { intros E. destruct (IH _ _ _ _ _ S N R E) as [A O]. split; [easy|]. destruct m; [easy|].
       destruct O as [W|[O ->]]; [now left|]. right. split; [|easy]. intros j [<-|J]; auto. }
  unfold classified_at in C. destruct (nth i (temporaries_ s) None) as [t|] eqn:T; [|discriminate].
  destruct (item_pending _) in C; [|discriminate].
  assert (forall r, awaiting' r t -> settles deadline sent chat_id sending recorded r o) as Z0
    by (intros r A; eapply update_settles; eauto).
  assert (forall item, source_of item = nth i sources 0 -> item_pending item = false ->
    (forall r, awaiting' r t -> backed' r item) ->
    match item with ForwardSent _ m => duplicate (wr_id m) (items_ s) = false | _ => True end ->
    apply_at u indexes true (resolve i item s) = (m, changed', s') ->
    applied returned s s'
    /\ match m with
       | Some o => exists type_id, o = ForwardMalformed (items_ s') type_id (unknown_mutation_state (items_ s'))
       | None => (waiting s' < waiting s)%nat /\ changed' = true
           \/ (forall j, In j (i :: indexes) -> classified_at u j s = None) /\ changed' = changed
       end) as K.
  { intros item E P B D Q. destruct (resolve_applied returned s i t item S N T E P B D) as [A W].
    destruct (IH _ _ _ _ _ (ap_slots _ _ _ A) (ap_once _ _ _ A) R Q) as [A' O].
    split; [eapply applied_trans; eauto|]. destruct m; [easy|]. left. pose proof (ap_waiting _ _ _ A').
    split; [lia|tauto]. }
  assert (forall type_id,
    (Some (ForwardMalformed (items_ s) type_id (unknown_mutation_state (items_ s))), changed, s) = (m, changed', s') ->
    applied returned s s'
    /\ match m with
       | Some o => exists type_id, o = ForwardMalformed (items_ s') type_id (unknown_mutation_state (items_ s'))
       | None => (waiting s' < waiting s)%nat /\ changed' = true
           \/ (forall j, In j (i :: indexes) -> classified_at u j s = None) /\ changed' = changed
       end) as X by (intros type_id [= <- _ <-]; split; [now apply applied_refl|eauto]).
  rewrite R. destruct o; cbn [failed_from settles] in *; try exact (X _).
  - destruct (duplicate _ _) eqn:D; [apply X|]. apply K; auto.
  - apply K; auto. intros r A. now apply (Z0 r A (nth i sources 0)).
  - apply K; auto. intros r A. now apply (Z0 r A (nth i sources 0)).
  - apply K; auto.
Qed.

(** A loop that keeps one of the elements that pass a test. *)
Lemma fold_selects {A} (f : option A -> A -> option A) (P : A -> Prop) :
  (forall r x y, f r x = Some y -> r = Some y \/ x = y /\ P y) ->
  forall l r y, fold_left f l r = Some y -> r = Some y \/ In y l /\ P y.
Proof.
  intros H. induction l as [|x l IH]; intros r y; cbn [fold_left]; [now left|].
  intros E. apply IH in E as [E|[I Q]]; [|now right; split; [right|]].
  apply H in E as [E|[-> Q]]; [now left|]. right. split; [now left|easy].
Qed.

(** The update that is applied matches one of the indexes. *)
Lemma earliest_matches s u :
  earliest_update deadline s = Some u ->
  In u (updates_ s) /\ update_counts deadline u = true
  /\ exists i, In i (seq 0 (List.length (temporaries_ s))) /\ classified_at (u_update u) i s <> None.
Proof.
  intros E. assert (In u (updates_ s) /\ is_none (matching_update_index deadline u s) = false) as [I M].
  { apply (fold_selects _ (fun u => is_none (matching_update_index deadline u s) = false)) in E as [|E]; [discriminate|easy|].
    intros r x y. destruct (negb _) eqn:M; cbn [andb]; [|now left].
    destruct (match r with None => _ | Some _ => _ end); [|now left]. intros [= ->]. right. split; [easy|].
    now apply negb_true_iff. }
  split; [easy|]. unfold matching_update_index in M. destruct (_ || _) eqn:D; [discriminate|].
  apply orb_false_elim in D as [_ D]. apply negb_false_iff in D. split; [easy|].
  destruct (find _ _) as [i|] eqn:F; [|discriminate]. apply find_some in F as [F1 F2]. exists i. split; [easy|].
  now destruct (classified_at _ _ _).
Qed.

Lemma apply_turned now n s u told_ok o told s' :
  steady n s -> initial_published_ s = true -> earliest_update deadline s = Some u ->
  Forward.apply_update u told_ok s = (o, told, s') -> turned now s o told n s'.
Proof.
  intros H P E. pose proof (st_sequence _ _ H P) as NN. apply earliest_matches in E as (I & D & i & J & C).
  assert (met' (u_update u)) as M by (exists u; repeat split; auto; now apply (st_updates _ _ H)).
  destruct (st_slots _ _ H) as [[_ T]|(returned & A & S)]; [now rewrite T in J|].
  unfold Forward.apply_update. set (s0 := { s with processed_update_sequences_ := _ }).
  change (temporaries_ s0) with (temporaries_ s).
  destruct (apply_at _ _ _ s0) as [[m changed] s1] eqn:Q.
  destruct (apply_at_applied _ returned M _ _ s0 _ _ _ S (st_once _ _ H) (st_sources _ _ H) Q) as [AP O].
  assert (sound' (items_ s1)) as SD.
  { split; [|apply (ap_once _ _ _ AP)]. right. exists returned. split; [easy|].
    eapply slots_accounts, (ap_slots _ _ _ AP). }
  assert (in_flight_ s1 = in_flight_ s /\ initial_published_ s1 = true) as [F1 P1]
    by (rewrite (ap_frame _ _ _ AP); now split).
  pose proof (ap_advances _ _ _ AP) as AD. change (items_ s0) with (items_ s) in AD.
  destruct m as [o'|].
  { destruct O as (type_id & ->). intros [= <- <- <-]. constructor; auto; try discriminate.
    now apply unfinished_truthful. }
  assert ((waiting s1 < waiting s)%nat /\ changed = true) as [W ->] by (destruct O as [W|[O _]]; [exact W|now apply O in J]).
  assert (complete (items_ s1) = false -> steady n s1) as ST.
  { intros CF. destruct H as [HC HS HR HU HL HN HA HO HK HQ]. rewrite (ap_frame _ _ _ AP).
    constructor; auto; try easy; [right; exists returned; split; [easy|apply (ap_slots _ _ _ AP)]
      |apply (ap_once _ _ _ AP)]. }
  cbn [negb]. destruct told_ok; cbn [negb]; [destruct (complete (items_ s1)) eqn:CF|]; intros [= <- <- <-];
    constructor; auto; try discriminate.
  - now apply completed_truthful.
  - intros _ _. unfold remaining. rewrite P, P1. exact W.
  - now apply unfinished_truthful.
Qed.

(** ** Rounds *)

Lemma turned_core now s s1 o told n s' :
  core s1 = core s -> turned now s1 o told n s' -> turned now s o told n s'.
Proof.
  unfold core. intros [= E1 E2 E3 E4 E5 E6 E7 E8] [A B C D R F]. constructor; auto.
  - rewrite <- E4, <- E6. easy.
  - now rewrite <- E6.
  - replace (remaining s) with (remaining s1); [easy|]. unfold remaining. now rewrite E5, E6.
  - congruence.
Qed.

Lemma idle_turned round n s :
  steady n s -> items_ s = [] \/ complete (items_ s) = false ->
  turned (r_now round) s (idle_round deadline round s) [] n s.
Proof.
  intros H P. destruct (idle_round deadline round s) as [o|] eqn:E.
  - apply idle_truthful in E as [T I]; eauto using steady_sound. now apply turned_out.
  - constructor; auto using advances_refl.
    + intros _ [|]; easy.
    + intros _ D. unfold idle_round in E. now rewrite D in E.
Qed.

Lemma turn_turned round n s o told n' s' :
  brings round -> steady n s -> turn deadline sent round n s = (o, told, n', s') ->
  turned (r_now round) s o told n' s'.
Proof.
  intros B H E. apply (turned_core _ s (begun round s)); [apply begun_core|].
  apply (steady_begun n round) in H; auto. unfold turn in E. fold (begun round s) in E.
  set (s0 := begun round s) in *. clearbody s0. clear s.
  destruct (meet_response deadline sent round n s0) as [[early n1] s1] eqn:Q.
  destruct (meet_response_steady _ _ _ _ _ _ B H Q) as (F & P & M). destruct early as [o'|].
  { injection E as <- <- <- <-. apply turned_out; [easy|now rewrite (proj1 M)|easy]. }
  destruct M as [H1 M].
  assert (turned (r_now round) s1 o told n' s' -> turned (r_now round) s0 o told n' s') as K.
  { intros T. destruct (initial_published_ s0) eqn:P0; [rewrite <- (M eq_refl); exact T|]. destruct T as [A1 A2 A3 A4 A5 A6].
    constructor; auto; try congruence; [intros O [R|R]; [auto|congruence]|].
    unfold remaining in *. rewrite P0. now rewrite P in A5. }
  apply K. clear K. destruct (initial_published_ s1) eqn:P1.
  - pose proof (fun a => turned_out (r_now round) s1 (auth_outcome sent a s1) n1 s1
      (auth_outcome_truthful a s1 (steady_sound _ _ H1)) (fun _ => auth_outcome_items a s1) eq_refl) as AT.
    destruct (earliest_update deadline s1) as [u|] eqn:U.
    + destruct (Forward.apply_update u (r_progress_told round) s1) as [[o1 told1] s2] eqn:A.
      apply (apply_turned (r_now round) n1) in A; auto.
      destruct (auth_terminal _ _ _) as [a|]; [destruct (_ <? _)|]; injection E as <- <- <- <-; auto.
    + destruct (auth_terminal _ _ _) as [a|]; injection E as <- <- <- <-; auto.
      apply idle_turned; auto. right. now apply (st_open _ _ H1).
  - destruct n1 as [k|].
    + destruct (publish_round _ _ _ _ _) as [[o1 told1] s2] eqn:A. injection E as <- <- <- <-.
      eapply publish_turned; eauto.
    + injection E as <- <- <- <-. apply idle_turned; auto. left. now apply (st_unanswered _ _ H1).
Qed.

(** ** The loop *)

Lemma wait_ok rounds : Forall brings rounds -> forall n s o told s',
  steady n s -> wait_for_terminal deadline sent rounds n s = (o, told, s') ->
  match o with Some o => truthful' o | None => True end
  /\ in_flight_ s' = in_flight_ s
  /\ StronglySorted (Forall2 advances) (reports told ++ [shown o s'])
  /\ (initial_published_ s = true -> Forall (Forall2 advances (items_ s)) (reports told ++ [shown o s'])).
Proof.
  induction 1 as [|round rounds B BS IH]; intros n s o told s' H; cbn [wait_for_terminal].
  { intros [= <- <- <-]. repeat split; cbn; repeat constructor. apply advances_refl. }
  destruct (turn _ _ _ _ _) as [[[o1 told1] n1] s1] eqn:T.
  destruct (turn_turned _ _ _ _ _ _ _ B H T) as [TO TR TA TP _ TF]. destruct o1 as [o1|].
  - intros [= <- <- <-]. split; [easy|split; [easy|]].
    destruct TR as [E|E]; rewrite E; cbn [app shown] in *; (split; [repeat constructor; apply advances_refl|]);
      intros P; repeat constructor; auto.
  - destruct (wait_for_terminal deadline sent rounds n1 s1) as [[o2 later] s2] eqn:W. intros [= <- <- <-].
    destruct (IH _ _ _ _ _ TO W) as (O & F & S & A). split; [easy|]. split; [congruence|].
    rewrite reports_app, <- app_assoc.
    assert (initial_published_ s = true -> Forall (Forall2 advances (items_ s)) (reports later ++ [shown o2 s2])) as A'.
    { intros P. eapply Forall_impl; [|apply A, TP; auto]. intros l. now apply advances_trans, TA. }
    destruct TR as [E|E]; rewrite E in TP |- *; cbn [app]; [easy|].
    split; [constructor; auto; apply A, TP; [easy|now left]|]. intros P. constructor; auto.
Qed.

Lemma remaining_bound n s : steady n s -> (remaining s <= Datatypes.S (List.length sources))%nat.
Proof.
  intros H. unfold remaining. destruct (initial_published_ s); [|lia]. pose proof (steady_temporaries _ _ H). lia.
Qed.

(** Rounds that find the deadline passed. *)
Definition late (round : Round) : Prop := deadline_expired deadline (r_now round) = true.

Lemma late_returns rounds : Forall brings rounds -> Forall late rounds -> forall n s,
  steady n s -> (remaining s < List.length rounds)%nat ->
  exists o told s', wait_for_terminal deadline sent rounds n s = (Some o, told, s').
Proof.
  induction rounds as [|round rounds IH]; intros B L n s H R; cbn [List.length] in R; [lia|].
  inversion B as [|? ? B1 B2]; inversion L as [|? ? L1 L2]; subst. cbn [wait_for_terminal].
  destruct (turn _ _ _ _ _) as [[[[o1|] told1] n1] s1] eqn:T; [eauto|].
  destruct (turn_turned _ _ _ _ _ _ _ B1 H T) as [TO _ _ _ TR _]. specialize (TR eq_refl L1).
  destruct (IH B2 L2 n1 s1 TO ltac:(lia)) as (o & told & s' & ->). eauto.
Qed.

Lemma eventually_returns early rounds : Forall brings (early ++ rounds) -> Forall late rounds ->
  (Datatypes.S (List.length sources) < List.length rounds)%nat -> forall n s, steady n s ->
  exists o told s', wait_for_terminal deadline sent (early ++ rounds) n s = (Some o, told, s').
Proof.
  induction early as [|round early IH]; cbn [app]; intros B L R n s H.
  - apply late_returns; auto. pose proof (remaining_bound _ _ H). lia.
  - inversion B as [|? ? B1 B2]; subst. cbn [wait_for_terminal].
    destruct (turn _ _ _ _ _) as [[[[o1|] told1] n1] s1] eqn:T; [eauto|].
    destruct (turn_turned _ _ _ _ _ _ _ B1 H T) as [TO _ _ _ _ _].
    destruct (IH B2 L R n1 s1 TO) as (o & told & s' & ->). eauto.
Qed.

End loop.

(** * The request *)

(** The updates that were recorded from the preparation on, and the responses. *)
Definition recorded_in (p : Preparation) (x : Submission) (u : StampedUpdate) : Prop :=
  In (RecordedUpdate u) (pr_recorded p)
  \/ exists round, In round (x_rounds x) /\ In (RecordedUpdate u) (r_recorded round).

Definition received_in (x : Submission) (r : ForwardResponse) : Prop :=
  exists round, In round (x_rounds x) /\ r_ready round = Some r.

Section request.
Context (deadline : RequestDeadline) (request : TdForwardMessagesRequest) (authorization : AuthStateSnapshot)
  (current : option AuthStateSnapshot) (f n : Z) (p : Preparation).

Definition fresh_forward : World := {| impl := new_impl current; flights := f; submitted := n |}.

Notation steady_in x :=
  (steady deadline authorization (to_chat_id request) (sending_id request) (message_ids request)
     (recorded_in p x) (received_in x)).
Notation truthful_in x :=
  (truthful deadline authorization (to_chat_id request) (sending_id request) (message_ids request)
     (recorded_in p x) (received_in x)).

Lemma brings_in x round : In round (x_rounds x) -> brings (recorded_in p x) (received_in x) round.
Proof. intros I. split; [intros u U; right; eauto|intros r R; exists round; auto]. Qed.

Lemma all_brought x : Forall (brings (recorded_in p x) (received_in x)) (x_rounds x).
Proof. apply Forall_forall. apply brings_in. Qed.

Lemma fresh_core : core (new_impl current) = (0, 0, [], [], [], false, false, false).
Proof. unfold new_impl. now rewrite record_auth_core. Qed.

(** What [prepare] leaves. *)
Definition ready_world (w : World) : Prop :=
  flights w = f + 1 /\ submitted w = n /\ prepared_ (impl w) = true /\ prepared_write_ (impl w) = true
  /\ authorization_ (impl w) = Some authorization
  /\ core (impl w) = (to_chat_id request, sending_id request, message_ids request, [], [], false, false, true)
  /\ forall u, In u (updates_ (impl w)) -> In (RecordedUpdate u) (pr_recorded p).

Lemma drop_settles s :
  in_flight_ s = true ->
  flights (drop_write {| impl := s; flights := f + 1; submitted := n |}) = f
  /\ submitted (drop_write {| impl := s; flights := f + 1; submitted := n |}) = n.
Proof. intros F. unfold drop_write, settle_in_flight. destruct s; cbn in *. rewrite F. cbn. lia. Qed.

Lemma records_authorization l s : authorization_ (fold_left (fun s r => record r s) l s) = authorization_ s.
Proof.
  revert s; induction l as [|r l IH]; intros s; cbn [fold_left]; [easy|]. rewrite IH.
  destruct r as [u|a|]; cbn; [easy| |easy]. now destruct (latest_auth_ s); [destruct (auth_later _ _)|].
Qed.

Lemma refusal_quiet failure :
  items_of (refusal authorization (pr_current p) failure) = []
  /\ claim_of (refusal authorization (pr_current p) failure) = ForwardNone.
Proof. unfold refusal. destruct (pr_current p); [|easy]. destruct (_ || _); [easy|]. now destruct (negb _). Qed.

Lemma prepare_reserved_ready s :
  core s = (0, 0, [], [], [], false, false, false) -> updates_ s = [] ->
  match prepare_reserved deadline request authorization p {| impl := s; flights := f; submitted := n |} with
  | (ForwardPrepared, w) => ready_world w
  | (ForwardNotPrepared o, w) => items_of o = [] /\ claim_of o = ForwardNone /\ flights w = f /\ submitted w = n
  end.
Proof.
  intros C U. unfold prepare_reserved. cbn [impl flights submitted].
  match goal with |- context [fold_left _ _ ?x] => set (s0 := x) end.
  assert (core s0 = (to_chat_id request, sending_id request, message_ids request, [], [], false, false, true)) as C0
    by (unfold core, s0 in *; destruct s; cbn in C |- *; injection C; intros; subst; reflexivity).
  assert (updates_ s0 = []) as U0 by (unfold s0; now destruct s).
  assert (authorization_ s0 = Some authorization) as A0 by (unfold s0; now destruct s).
  clearbody s0. pose proof (records_core (pr_recorded p) s0) as C1. rewrite C0 in C1.
  pose proof (records_authorization (pr_recorded p) s0) as A1. rewrite A0 in A1.
  assert (forall u, In u (updates_ (fold_left (fun s r => record r s) (pr_recorded p) s0)) -> In (RecordedUpdate u) (pr_recorded p)) as U1
    by (intros u I; apply records_updates in I as [I|I]; [now rewrite U0 in I|easy]).
  set (s1 := fold_left _ _ s0) in *. clearbody s1. clear s0 C0 U0 A0.
  assert (forall b, in_flight_ { s1 with prepared_write_ := b } = true) as F by (unfold core in C1; destruct s1; cbn in C1 |- *; congruence).
  destruct (pr_write p) as [[]|failure].
  - destruct (deadline_expired _ _); [destruct (drop_settles _ (F true)); auto|].
    destruct (pr_cancelled_prepared p); [destruct (drop_settles _ (F true)); auto|].
    unfold ready_world. cbn [with_impl impl flights submitted]. now destruct s1.
  - destruct (refusal_quiet failure). assert (in_flight_ s1 = true) as F1 by (unfold core in C1; congruence).
    destruct (drop_settles _ F1). auto.
Qed.

Lemma prepare_ready out w :
  prepare deadline request (Some authorization) p fresh_forward = (out, w) ->
  match out with
  | ForwardPrepared => ready_world w
  | ForwardNotPrepared o => items_of o = [] /\ claim_of o = ForwardNone /\ flights w = f /\ submitted w = n
  end.
Proof.
  unfold prepare, fresh_forward. cbn [impl].
  destruct (_ || _); [now intros [= <- <-]|]. destruct (deadline_expired _ _); [now intros [= <- <-]|].
  destruct (pr_before_request p); [|now intros [= <- <-]]. destruct (deadline_expired _ _); [now intros [= <- <-]|].
  destruct (pr_cancelled p); [now intros [= <- <-]|]. destruct (pr_reserved p); [|now intros [= <- <-]]. cbn [negb].
  intros E. unfold with_impl in E. cbn [impl flights submitted] in E.
  match type of E with prepare_reserved _ _ _ _ {| impl := ?s |} = _ => pose proof (prepare_reserved_ready s) as R end.
  rewrite E in R. apply R.
  - pose proof fresh_core as C. unfold core in *. destruct (new_impl current); cbn in C |- *.
    injection C; intros; subst; reflexivity.
  - unfold new_impl. destruct current; reflexivity.
Qed.

(** A request is given to the client and awaited, or returns before. *)
Lemma execute_runs x :
  (exists o w', execute deadline request (Some authorization) p x fresh_forward = (Some o, [], w')
     /\ items_of o = [] /\ claim_of o <> ForwardConfirmed /\ flights w' = f
     /\ (submitted w' = n \/ submitted w' = n + 1 /\ truthful_in x o))
  \/ exists s, steady_in x None s /\ in_flight_ s = true
     /\ execute deadline request (Some authorization) p x fresh_forward
        = let '(o, told, s') := wait_for_terminal deadline authorization (x_rounds x) None s in
          let w := {| impl := s'; flights := f + 1; submitted := n + 1 |} in
          (o, told, match o with Some _ => settle_in_flight w | None => w end).
Proof.
  unfold execute. destruct (prepare _ _ _ _ _) as [[|o] w] eqn:E; apply prepare_ready in E.
  2: { left. destruct E as (I & C & F & N). exists o, w. rewrite C. repeat split; auto. discriminate. }
  destruct E as (F & N & P & PW & A & C & U). unfold execute_prepared. rewrite A, P, PW. cbn [negb orb].
  unfold with_impl. rewrite F, N. cbn [impl flights submitted]. destruct w as [s fl su]. cbn [impl] in *.
  assert (core { s with prepared_ := false } = core s /\ updates_ { s with prepared_ := false } = updates_ s) as [C1 U1] by now destruct s.
  set (s1 := { s with prepared_ := false }) in *. clearbody s1. rewrite <- U1 in U. rewrite C in C1. clear s C U1 P PW A F N.
  assert (in_flight_ s1 = true) as F1 by (unfold core in C1; congruence).
  destruct (drop_settles s1 F1) as [D1 D2].
  destruct (x_before_submit x); cbn [negb]; [|left; do 2 eexists; repeat split; eauto; discriminate].
  destruct (deadline_expired _ _); [left; do 2 eexists; repeat split; eauto; discriminate|].
  destruct (x_cancelled x); [left; do 2 eexists; repeat split; eauto; discriminate|].
  assert (core { s1 with prepared_write_ := false } = core s1 /\ updates_ { s1 with prepared_write_ := false } = updates_ s1) as [C2 U2] by now destruct s1.
  set (s2 := { s1 with prepared_write_ := false }) in *. clearbody s2. rewrite <- U2 in U. rewrite C1 in C2.
  assert (in_flight_ s2 = true) as F2 by (unfold core in C2; congruence). clear s1 C1 U2 F1 D1 D2.
  destruct (x_sent x); cbn [negb].
  - right. exists s2. split; [|split; [easy|]].
    + unfold core in C2. injection C2 as E1 E2 E3 E4 E5 E6 E7 E8.
      constructor; rewrite ?E1, ?E2, ?E3, ?E4, ?E5, ?E6, ?E7; auto; try easy; [|constructor]. intros u I. left. auto.
    + destruct (wait_for_terminal _ _ _ _ _) as [[[o|] told] s']; reflexivity.
  - left. do 2 eexists. split; [reflexivity|]. unfold settle_in_flight. cbn [impl flights submitted]. rewrite F2.
    cbn [impl flights submitted]. repeat split; try discriminate; try lia. right. split; [easy|].
    apply empty_truthful; auto.
Qed.

(** C10.  A forward accounts for every message.  When the coordinator returns, its
    in-flight reservation is settled and the request was given to TDLib at most
    once; if it was not, nothing is claimed of any message.  If it was, the
    outcome shows no items or one for each source message, in order, each of them
    backed by what Telegram returned at that place of the vector or reported in
    time for its temporary message; no sent message is shown twice; a mutation is
    confirmed exactly when a message was sent; and that nothing was mutated is
    said only of a completed forward of which every message was refused. *)
Theorem forward_claims_justified x o told w' :
  execute deadline request (Some authorization) p x fresh_forward = (Some o, told, w') ->
  flights w' = f /\ n <= submitted w' <= n + 1
  /\ (submitted w' = n -> items_of o = [] /\ claim_of o <> ForwardConfirmed /\ told = [])
  /\ (submitted w' = n + 1 -> truthful_in x o).
Proof.
  destruct (execute_runs x) as [(o1 & w1 & -> & I & C & F & S)|(s & H & FL & ->)].
  - intros [= <- <- <-]. split; [easy|split; [lia|split; [auto|]]]. intros N. destruct S as [S|[_ S]]; [lia|exact S].
  - destruct (wait_for_terminal _ _ _ _ _) as [[[o1|] told1] s'] eqn:W; [|discriminate]. intros [= <- <- <-].
    destruct (wait_ok _ _ _ _ _ _ _ _ (all_brought x) _ _ _ _ _ H W) as (T & F & _ & _). rewrite FL in F.
    unfold settle_in_flight. cbn [impl]. rewrite F. cbn [flights submitted].
    split; [lia|]. split; [lia|]. split; [lia|]. auto.
Qed.

(** C11.  Reports of a forward only advance: from each report of the items to every
    later one and to the outcome, an item that was settled stays as it was and one
    that was pending is still about the same source message. *)
Theorem reports_only_advance x o told w' :
  execute deadline request (Some authorization) p x fresh_forward = (Some o, told, w') ->
  StronglySorted (Forall2 advances) (reports told ++ [items_of o]).
Proof.
  destruct (execute_runs x) as [(o1 & w1 & -> & _)|(s & H & FL & ->)].
  - intros [= <- <- <-]. cbn. repeat constructor.
  - destruct (wait_for_terminal _ _ _ _ _) as [[[o1|] told1] s'] eqn:W; [|discriminate]. intros [= <- <- <-].
    apply (wait_ok _ _ _ _ _ _ _ _ (all_brought x) _ _ _ _ _ H W).
Qed.

(** A forward returns once its deadline has passed: whatever happened before,
    two rounds more than there are messages, all of which find the deadline
    passed, are enough, even when an update to apply is found in each of them. *)
Theorem forward_returns x early rounds :
  x_rounds x = early ++ rounds -> Forall (late deadline) rounds ->
  (List.length (message_ids request) + 2 <= List.length rounds)%nat ->
  exists o told w', execute deadline request (Some authorization) p x fresh_forward = (Some o, told, w').
Proof.
  intros X L N. destruct (execute_runs x) as [(o1 & w1 & -> & _)|(s & H & FL & ->)]; [eauto|].
  pose proof (all_brought x) as B. rewrite X in B |- *.
  assert (Datatypes.S (List.length (message_ids request)) < List.length rounds)%nat as N' by lia.
  destruct (eventually_returns _ _ _ _ _ _ _ early rounds B L N' _ _ H) as (o & told & s' & ->). eauto.
Qed.

End request.

(** * A forward of three messages *)

Definition sample_forward : TdForwardMessagesRequest :=
  {| from_chat_id := 5; to_chat_id := 7; message_ids := [11; 12; 13]; sending_id := 9; drop_author := false |}.

Definition sample_forward_preparation : Preparation :=
  {| pr_now := 10; pr_before_request := true; pr_now_after_hook := 11; pr_cancelled := false;
     pr_reserved := true; pr_recorded := []; pr_write := Ok tt; pr_current := Some sample_authorization;
     pr_now_prepared := 12; pr_cancelled_prepared := false |}.

Definition sample_round (recorded : list Recorded) (ready : option ForwardResponse) (now : Z) : Round :=
  {| r_recorded := recorded; r_current := Some sample_authorization; r_ready := ready; r_now := now;
     r_ids_told := true; r_progress_told := true; r_cancelled := false |}.

(** The first two are pending and the third is refused; then the first is sent and
    the second deleted. *)
Definition sample_rounds : list Round :=
  [ sample_round [Woken]
      (Some (ForwardReceived 5 (Some 50)
         (TdForwardMessages [Some sample_pending; Some (sample_message 101 (sample_state SendingPending 9)); None]))) 51;
    sample_round [RecordedUpdate {| u_sequence := 6; u_observed_at := Some 60; u_update := sample_update |}] None 61;
    sample_round [RecordedUpdate {| u_sequence := 7; u_observed_at := Some 70;
                                    u_update := TdUpdateDeleteMessages 1 7 [101] true false |}] None 71 ].

Definition sample_forward_submission (rounds : list Round) : Submission :=
  {| x_before_submit := true; x_now := 13; x_cancelled := false; x_sent := true; x_rounds := rounds |}.

Definition sample_forward_run (rounds : list Round) : option ForwardOutcome * list Told * World :=
  execute sample_deadline sample_forward (Some sample_authorization) sample_forward_preparation
    (sample_forward_submission rounds) (fresh_forward (Some sample_authorization) 0 0).

Lemma forward_claims_justified_witness :
  exists o told w, sample_forward_run sample_rounds = (Some o, told, w) /\ flights w = 0
    /\ claim_of o = ForwardConfirmed /\ List.length (items_of o) = 3%nat
    /\ truthful sample_deadline sample_authorization 7 9 [11; 12; 13]
         (recorded_in sample_forward_preparation (sample_forward_submission sample_rounds))
         (received_in (sample_forward_submission sample_rounds)) o.
Proof.
  assert (match sample_forward_run sample_rounds with
          | (Some o, _, w) => claim_of o = ForwardConfirmed /\ List.length (items_of o) = 3%nat /\ submitted w = 0 + 1
          | _ => False
          end) as M by (vm_compute; auto).
  destruct (sample_forward_run sample_rounds) as [[[o|] told] w] eqn:E; [|contradiction].
  exists o, told, w. split; [reflexivity|]. destruct M as (M1 & M2 & S).
  destruct (forward_claims_justified sample_deadline sample_forward sample_authorization
    (Some sample_authorization) 0 0 sample_forward_preparation _ o told w E) as (F & _ & _ & J).
  auto.
Defined.

Lemma reports_only_advance_witness :
  exists o told w, sample_forward_run sample_rounds = (Some o, told, w) /\ List.length (reports told) = 3%nat
    /\ StronglySorted (Forall2 advances) (reports told ++ [items_of o]).
Proof.
  assert (match sample_forward_run sample_rounds with
          | (Some _, told, _) => List.length (reports told) = 3%nat
          | _ => False
          end) as M by (vm_compute; auto).
  destruct (sample_forward_run sample_rounds) as [[[o|] told] w] eqn:E; [|contradiction].
  exists o, told, w. split; [reflexivity|]. split; [exact M|].
  exact (reports_only_advance sample_deadline sample_forward sample_authorization
    (Some sample_authorization) 0 0 sample_forward_preparation _ o told w E).
Defined.

(** The third update never comes. *)
Definition sample_late : list Round := repeat (sample_round [] None 2000) 5.

Lemma forward_returns_witness :
  exists o told w, sample_forward_run (firstn 2 sample_rounds ++ sample_late) = (Some o, told, w).
Proof.
  apply (forward_returns sample_deadline sample_forward sample_authorization (Some sample_authorization) 0 0
    sample_forward_preparation _ (firstn 2 sample_rounds) sample_late); [reflexivity| |cbn; lia].
  repeat constructor.
Defined.
