(* ===== verification/DestructiveContract.v ===== *)
(** The contract of logout and account removal
    (src/src/daemon/destructive_contract.cpp, .hpp): who may authorise them, the
    stages they go through, what the stages say about the mutation, and the
    documents of the removal audit: intents, checkpoints and outcomes with their
    structured errors. *)
From S2P Require Import Prelude Json Paths DestructivePlan Frame.

(** * Authority *)

Inductive AuthoritySource := AuthorityRequest | AuthorityConfig.
Inductive WriteDenialReason := ExplicitDeny | NoGrant | InvalidConfigGrant.

Inductive AuthorityDecision :=
| DryRunAuthority
| GrantedAuthority (source : AuthoritySource)
| DeniedAuthority (reason : WriteDenialReason).

Record ConfigWriteAuthority := { grant_valid : bool; allow_write : bool }.

Definition evaluate_destructive_authority (request : RequestContext) (config : ConfigWriteAuthority) :
    AuthorityDecision :=
  if dry_run request then DryRunAuthority
  else
    match write_authority request with
    | AuthorityDeny => DeniedAuthority ExplicitDeny
    | AuthorityGrant => GrantedAuthority AuthorityRequest
    | AuthorityUnset =>
        if negb (grant_valid config) then DeniedAuthority InvalidConfigGrant
        else if allow_write config then GrantedAuthority AuthorityConfig
        else DeniedAuthority NoGrant
    end.

Definition authority_source_name (source : AuthoritySource) : string :=
  match source with AuthorityRequest => "request" | AuthorityConfig => "config" end.

Definition write_denial_reason_name (reason : WriteDenialReason) : string :=
  match reason with
  | ExplicitDeny => "explicit_deny"
  | NoGrant => "no_grant"
  | InvalidConfigGrant => "invalid_config_grant"
  end.

(** * Commands and stages *)

Inductive DestructiveCommand := Logout | AccountRemove.
Inductive ConfirmationSource := ConfirmYes | ConfirmTty.
Inductive MutationState := MutationNone | MutationPossible | MutationConfirmed.
Inductive AccountRemoveRemoteResult := Confirmed | NotPresent | Kept.

Inductive AuditStage :=
| Planned | IntentSynced | LogoutSendStarted | LogoutClosedConfirmed | RemoteLogoutSendStarted
| RemoteConfirmed | RemoteNotPresent | RemoteKept | ClientCloseStarted | ClientClosed
| ConfigRemoveStarted | ConfigRemoved | DataRemoveStarted | DataRemoved | StateRemoveStarted
| StateRemoved | OutcomeSynced.

#[export] Instance AuditStage_eq_dec : EqDec AuditStage.
Proof. intros [] []; (left; reflexivity) || (right; discriminate). Defined.

#[export] Instance list_eq_dec {A} `{EqDec A} : EqDec (list A) := List.list_eq_dec eq_dec.

Definition destructive_command_name (command : DestructiveCommand) : string :=
  match command with Logout => "logout" | AccountRemove => "account_remove" end.

Definition confirmation_source_name (source : ConfirmationSource) : string :=
  match source with ConfirmYes => "yes" | ConfirmTty => "tty" end.

Definition mutation_state_name (state : MutationState) : string :=
  match state with
  | MutationNone => "none"
  | MutationPossible => "possible"
  | MutationConfirmed => "confirmed"
  end.

Definition account_remove_remote_result_name (result : AccountRemoveRemoteResult) : string :=
  match result with Confirmed => "confirmed" | NotPresent => "not_present" | Kept => "kept" end.

Definition audit_stage_name (stage : AuditStage) : string :=
  match stage with
  | Planned => "planned"
  | IntentSynced => "intent_synced"
  | LogoutSendStarted => "logout_send_started"
  | LogoutClosedConfirmed => "logout_closed_confirmed"
  | RemoteLogoutSendStarted => "remote_logout_send_started"
  | RemoteConfirmed => "remote_confirmed"
  | RemoteNotPresent => "remote_not_present"
  | RemoteKept => "remote_kept"
  | ClientCloseStarted => "client_close_started"
  | ClientClosed => "client_closed"
  | ConfigRemoveStarted => "config_remove_started"
  | ConfigRemoved => "config_removed"
  | DataRemoveStarted => "data_remove_started"
  | DataRemoved => "data_removed"
  | StateRemoveStarted => "state_remove_started"
  | StateRemoved => "state_removed"
  | OutcomeSynced => "outcome_synced"
  end.

Definition stages_in_order : list AuditStage :=
  [Planned; IntentSynced; LogoutSendStarted; LogoutClosedConfirmed; RemoteLogoutSendStarted;
   RemoteConfirmed; RemoteNotPresent; RemoteKept; ClientCloseStarted; ClientClosed;
   ConfigRemoveStarted; ConfigRemoved; DataRemoveStarted; DataRemoved; StateRemoveStarted;
   StateRemoved; OutcomeSynced].

Definition parse_audit_stage (name : string) : option AuditStage :=
  find (fun stage => String.eqb (audit_stage_name stage) name) stages_in_order.

Definition kLogoutStages : list AuditStage := [IntentSynced; LogoutSendStarted; LogoutClosedConfirmed].

Definition kRemovalStageBranches : list (list AuditStage) :=
  [ [Planned; IntentSynced; RemoteLogoutSendStarted; RemoteConfirmed; ClientCloseStarted;
     ClientClosed; ConfigRemoveStarted; ConfigRemoved; DataRemoveStarted; DataRemoved;
     StateRemoveStarted; StateRemoved];
    [Planned; IntentSynced; RemoteLogoutSendStarted; RemoteNotPresent; ClientCloseStarted;
     ClientClosed; ConfigRemoveStarted; ConfigRemoved; DataRemoveStarted; DataRemoved;
     StateRemoveStarted; StateRemoved];
    [Planned; IntentSynced; RemoteNotPresent; ClientCloseStarted; ClientClosed;
     ConfigRemoveStarted; ConfigRemoved; DataRemoveStarted; DataRemoved; StateRemoveStarted;
     StateRemoved];
    [Planned; IntentSynced; RemoteKept; ClientCloseStarted; ClientClosed; ConfigRemoveStarted;
     ConfigRemoved; DataRemoveStarted; DataRemoved; StateRemoveStarted; StateRemoved] ].

(** The size test and [std::equal] over the shorter range. *)
Fixpoint is_prefix (stages branch : list AuditStage) : bool :=
  match stages, branch with
  | [], _ => true
  | s :: stages, b :: branch => eqb s b && is_prefix stages branch
  | _ :: _, [] => false
  end.

Definition validate_audit_stage_prefix (command : DestructiveCommand) (completed_stages : list AuditStage) :
    result string unit :=
  let nonempty := match completed_stages with [] => false | _ => true end in
  check (nonempty
         && match command with
            | Logout => is_prefix completed_stages kLogoutStages
            | AccountRemove => existsb (is_prefix completed_stages) kRemovalStageBranches
            end)
        "completed audit stages are not a legal command prefix".

Definition has_stage (stages : list AuditStage) (target : AuditStage) : bool := existsb (eqb target) stages.

Definition derive_mutation_state (command : DestructiveCommand) (completed_stages : list AuditStage) :
    result string MutationState :=
  validate_audit_stage_prefix command completed_stages ;;;
  let unfinished :=
    existsb (fun '(started, completed) => has_stage completed_stages started
                                          && negb (has_stage completed_stages completed))
      [(LogoutSendStarted, LogoutClosedConfirmed); (RemoteLogoutSendStarted, RemoteConfirmed);
       (ConfigRemoveStarted, ConfigRemoved); (DataRemoveStarted, DataRemoved);
       (StateRemoveStarted, StateRemoved)] in
  if unfinished then Ok MutationPossible
  else if existsb (has_stage completed_stages)
            [LogoutClosedConfirmed; RemoteConfirmed; ConfigRemoved; DataRemoved; StateRemoved]
  then Ok MutationConfirmed
  else Ok MutationNone.

(** * Scalars *)

Definition string_one_of (value : json) (choices : list string) : bool :=
  is_string value && str_in (get_string value) choices.

Definition integer (value : json) : bool := is_number_integer value.

Definition nullable_integer (value : json) : bool := is_null value || integer value.

Definition valid_account (value : json) : bool :=
  is_string value && valid_account_name (get_string value).

Definition valid_invocation_id (value : string) : bool :=
  (str_len value =? 32) && str_all is_lower_hex value.

(** [value[offset]], in range. *)
Definition char_at (value : string) (offset : nat) : ascii :=
  match String.get offset value with Some c => c | None => nul end.

Definition fixed_digits (value : string) (offset length : nat) : bool :=
  (offset + length <=? String.length value)%nat
  && str_all is_digit (str_take length (str_drop offset value)).

Fixpoint decimal_value (digits : string) (result : Z) : Z :=
  match digits with
  | EmptyString => result
  | String c r => decimal_value r (result * 10 + (byte_of c - byte_of "0"))
  end.

Definition decimal_at (value : string) (offset length : nat) : Z :=
  decimal_value (str_take length (str_drop offset value)) 0.

Definition leap_year (year : Z) : bool :=
  (year mod 4 =? 0) && (negb (year mod 100 =? 0) || (year mod 400 =? 0)).

Definition valid_utc_rfc3339 (value : string) : bool :=
  let size := String.length value in
  let has offset c := Ascii.eqb (char_at value offset) c in
  if (size <? 20)%nat || negb (has 4%nat "-"%char) || negb (has 7%nat "-"%char) || negb (has 10%nat "T"%char)
     || negb (has 13%nat ":"%char) || negb (has 16%nat ":"%char) || negb (has (size - 1)%nat "Z"%char)
     || negb (fixed_digits value 0 4) || negb (fixed_digits value 5 2) || negb (fixed_digits value 8 2)
     || negb (fixed_digits value 11 2) || negb (fixed_digits value 14 2)
     || negb (fixed_digits value 17 2) then false
  else if negb (Nat.eqb size 20)
          && (negb (has 19%nat "."%char) || Nat.eqb size 21 || negb (fixed_digits value 20 (size - 21)))
  then false
  else
    let year := decimal_at value 0 4 in
    let month := decimal_at value 5 2 in
    let day := decimal_at value 8 2 in
    if (year =? 0) || (month =? 0) || (12 <? month) || (day =? 0) || (23 <? decimal_at value 11 2)
       || (59 <? decimal_at value 14 2) || (60 <? decimal_at value 17 2) then false
    else
      let days := nth (Z.to_nat (month - 1)) [31; 28; 31; 30; 31; 30; 31; 31; 30; 31; 30; 31] 0 in
      day <=? days + (if (month =? 2) && leap_year year then 1 else 0).

Record AuditRecordIdentity := { invocation_id : string; timestamp : string }.

Definition validate_record_identity (identity : AuditRecordIdentity) : result string unit :=
  check (valid_invocation_id (invocation_id identity))
        "audit invocation_id must be 32 lowercase hexadecimal characters" ;;;
  check (valid_utc_rfc3339 (timestamp identity))
        "audit timestamp must be a canonical UTC RFC 3339 string".

Definition serialize_stages (stages : list AuditStage) : json :=
  JArray (map (fun stage => JString (audit_stage_name stage)) stages).

Definition command_for (plan : DestructivePlan) : DestructiveCommand :=
  match plan with PLogout _ => Logout | _ => AccountRemove end.

(** [value.account()] of any plan; for an M6 plan it is a member of its document. *)
Definition account_for (plan : DestructivePlan) : string :=
  match plan with
  | PLogout p => logout_account p
  | PAccountRemove p => account (input_ p)
  | PMsgDelete p => md_account p
  | PChatLeave p => cl_account p
  | PM6 p => get_string (jget (m6_value p) "account")
  | PRaw p => raw_account p
  end.

(** * Error details *)

(** The strings of an array, when all its elements are strings. *)
Fixpoint all_strings (values : list json) : option (list string) :=
  match values with
  | [] => Some []
  | JString s :: r => option_map (cons s) (all_strings r)
  | _ => None
  end.

Fixpoint strictly_sorted (values : list string) : bool :=
  match values with
  | a :: ((b :: _) as r) => str_ltb a b && strictly_sorted r
  | _ => true
  end.

Definition sorted_unique_string_array (value : json) (accounts : bool) : bool :=
  is_array value
  && match all_strings (elements value) with
     | Some values => (negb accounts || forallb valid_account_name values) && strictly_sorted values
     | None => false
     end.

Definition valid_state (value : json) (nullable : bool) : bool :=
  (nullable && is_null value)
  || string_one_of value
       ["unknown"; "wait_tdlib_parameters"; "wait_phone_number"; "wait_premium_purchase";
        "wait_email_address"; "wait_email_code"; "wait_code"; "wait_other_device_confirmation";
        "wait_registration"; "wait_password"; "ready"; "logging_out"; "closing"; "closed"].

Definition valid_operation (value : json) : bool :=
  string_one_of value
    ["auth_bootstrap"; "login"; "logout"; "me"; "account_add"; "account_list"; "account_show";
     "account_use"; "account_remove"; "doctor"; "daemon_status"; "daemon_stop"; "daemon_restart";
     "daemon_run"; "config_reload"; "audit"].

(** The loop that parses stage names; [None] on the first that is not one. *)
Fixpoint parse_stage_list (values : list json) : option (list AuditStage) :=
  match values with
  | [] => Some []
  | JString s :: r =>
      match parse_audit_stage s with
      | Some stage => option_map (cons stage) (parse_stage_list r)
      | None => None
      end
  | _ => None
  end.

Definition valid_stage_array (value : json) (command : DestructiveCommand) : bool :=
  is_array value
  && match parse_stage_list (elements value) with
     | Some stages => is_ok (validate_audit_stage_prefix command stages)
     | None => false
     end.

Definition valid_confirmation_details (details : json) : result failure bool :=
  if negb (exact_fields details ["account"; "action"; "target"])
     || negb (valid_account (jget details "account")) || negb (is_string (jget details "action"))
  then Ok false
  else
    match parse_destructive_plan (jget details "target") with
    | Err Thrown => Err Thrown
    | Err (Rejected _) => Ok false
    | Ok plan =>
        if negb (String.eqb (account_for plan) (get_string (jget details "account"))) then Ok false
        else
          Ok ((eq_str (jget details "action") "logout"
               && match plan with PLogout _ => true | _ => false end)
              || (eq_str (jget details "action") "account_remove"
                  && match plan with PAccountRemove _ => true | _ => false end))
    end.

Definition valid_audit_incomplete_details (details : json) : bool :=
  exact_fields details ["account"; "path"; "mutation_state"; "completed_stages"]
  && valid_account (jget details "account") && is_string (jget details "path")
  && string_one_of (jget details "mutation_state") ["none"; "possible"; "confirmed"]
  && valid_stage_array (jget details "completed_stages") Logout
  && match parse_stage_list (elements (jget details "completed_stages")) with
     | Some stages =>
         match derive_mutation_state Logout stages with
         | Ok mutation => eq_str (jget details "mutation_state") (mutation_state_name mutation)
         | Err _ => false
         end
     | None => false
     end.

Definition valid_cleanup_details (details : json) : bool :=
  exact_fields details ["account"; "reason"; "removed"; "retained"]
  && valid_account (jget details "account")
  && string_one_of (jget details "reason")
       ["path_changed"; "path_invalid"; "mount_boundary"; "io_error"; "sync_error"]
  && sorted_unique_string_array (jget details "removed") false
  && sorted_unique_string_array (jget details "retained") false
  && forallb (fun removed => negb (existsb (json_eqb removed) (elements (jget details "retained"))))
       (elements (jget details "removed")).

Definition valid_removal_incomplete_details (details : json) : bool :=
  exact_fields details ["account"; "path"; "invocation_id"; "stage"; "completed_stages"; "reason"]
  && valid_account (jget details "account") && is_string (jget details "path")
  && is_string (jget details "invocation_id")
  && valid_invocation_id (get_string (jget details "invocation_id")) && is_string (jget details "stage")
  && string_one_of (jget details "reason") ["prior_crash"; "identity_ambiguous"; "outcome_missing"]
  && valid_stage_array (jget details "completed_stages") AccountRemove
  && negb (jempty (jget details "completed_stages"))
  && match parse_audit_stage (get_string (jget details "stage")) with
     | Some stage =>
         negb (eqb stage OutcomeSynced)
         && json_eqb (last (elements (jget details "completed_stages")) JNull) (jget details "stage")
     | None => false
     end.

(** The closed shape of the details of each code. *)
Definition valid_error_details (code : string) (details : json) : result failure bool :=
  let named c := String.eqb code c in
  let field k := jget details k in
  if named "USAGE" then
    Ok (jempty details
        || (exact_fields details ["argument"; "reason"]
            && (is_null (field "argument") || is_string (field "argument"))
            && string_one_of (field "reason")
                 ["missing_argument"; "invalid_argument"; "mutually_exclusive"; "unknown_command";
                  "invalid_environment"; "unsupported_mode"]))
  else if named "INSECURE_SECRET_INPUT" then
    Ok (exact_fields details ["argument"; "replacement"] && eq_str (field "argument") "--bot-token"
        && eq_str (field "replacement") "--bot")
  else if named "ACCOUNT_EXISTS" || named "ACCOUNT_NOT_FOUND" then
    Ok (exact_fields details ["account"] && valid_account (field "account"))
  else if named "DEFAULT_REASSIGNMENT_REQUIRED" then
    Ok (exact_fields details ["account"; "candidates"] && valid_account (field "account")
        && sorted_unique_string_array (field "candidates") true)
  else if named "CONFIG_INVALID" then
    Ok (exact_fields details ["path"; "reason"] && is_string (field "path")
        && string_one_of (field "reason")
             ["path_invalid"; "wrong_owner"; "wrong_type"; "wrong_mode"; "wrong_link_count";
              "too_large"; "parse_error"; "type_error"; "invalid_default"; "conflicting_credentials";
              "io_error"; "sync_error"])
  else if named "CONFIG_CONFLICT" then
    Ok (exact_fields details ["path"; "expected"; "current"] && is_string (field "path")
        && is_string (field "expected") && is_string (field "current")
        && valid_config_snapshot_identity (get_string (field "expected")) true
        && valid_config_snapshot_identity (get_string (field "current")) true)
  else if named "HOOK_FAILED" then
    Ok (exact_fields details ["hook"; "reason"; "status"]
        && string_one_of (field "hook")
             ["api_id_cmd"; "api_hash_cmd"; "db_key_cmd"; "password_cmd"; "bot_token_cmd"]
        && string_one_of (field "reason")
             ["spawn"; "exit"; "signal"; "timeout"; "stdout_empty"; "stdout_invalid";
              "stdout_too_large"; "stderr_too_large"]
        && nullable_integer (field "status"))
  else if named "AUTH_FLOW_IN_PROGRESS" then
    Ok (exact_fields details ["account"; "state"] && valid_account (field "account")
        && valid_state (field "state") false)
  else if named "NOT_AUTHED" then
    Ok (exact_fields details ["account"; "state"; "reason"] && valid_account (field "account")
        && valid_state (field "state") false
        && string_one_of (field "reason") ["not_ready"; "authorization_lost"; "login_required"])
  else if named "AUTH_INPUT_REQUIRED" || named "AUTH_CANCELLED" then
    Ok (exact_fields details ["account"; "state"; "challenge"] && valid_account (field "account")
        && valid_state (field "state") false && is_string (field "challenge")
        && match parse_challenge_kind (get_string (field "challenge")) with
           | Some _ => true
           | None => false
           end)
  else if named "AUTH_CREDENTIAL_REJECTED" then
    Ok (exact_fields details ["account"; "state"; "credential"; "tdlib_code"]
        && valid_account (field "account") && valid_state (field "state") false
        && string_one_of (field "credential")
             ["app_credentials"; "database_key"; "phone_number"; "bot_token"; "email_address";
              "email_code"; "authentication_code"; "registration_name"; "password"]
        && integer (field "tdlib_code"))
  else if named "AUTH_PREMIUM_REQUIRED" then
    Ok (exact_fields details
          ["account"; "state"; "store_product_id"; "premium_day_count"; "support_email_address";
           "support_email_subject"]
        && valid_account (field "account") && eq_str (field "state") "wait_premium_purchase"
        && is_string (field "store_product_id") && integer (field "premium_day_count")
        && is_string (field "support_email_address") && is_string (field "support_email_subject"))
  else if named "UNSUPPORTED_AUTH_STATE" then
    Ok (exact_fields details ["account"; "tdlib_type_id"] && valid_account (field "account")
        && integer (field "tdlib_type_id"))
  else if named "AUTH_FUNCTION_DENIED" then
    Ok (exact_fields details ["account"; "state"; "function"] && valid_account (field "account")
        && valid_state (field "state") false
        && string_one_of (field "function")
             ["getAuthorizationState"; "setTdlibParameters"; "setAuthenticationPhoneNumber";
              "requestQrCodeAuthentication"; "checkAuthenticationBotToken";
              "setAuthenticationEmailAddress"; "checkAuthenticationEmailCode";
              "checkAuthenticationCode"; "registerUser"; "checkAuthenticationPassword"; "getMe";
              "logOut"; "close"; "other"])
  else if named "PROTOCOL_ANSWER_INVALID" then
    Ok (exact_fields details ["request_id"; "reason"] && is_number_unsigned (field "request_id")
        && string_one_of (field "reason")
             ["future_sequence"; "nonce_mismatch"; "generation_mismatch"; "malformed";
              "unknown_request"])
  else if named "WRITE_DENIED" then
    Ok (exact_fields details ["account"; "reason"] && valid_account (field "account")
        && string_one_of (field "reason") ["explicit_deny"; "no_grant"; "invalid_config_grant"])
  else if named "CONFIRMATION_REQUIRED" then valid_confirmation_details details
  else if named "AUDIT_UNAVAILABLE" then
    Ok (exact_fields details ["account"; "path"; "reason"] && valid_account (field "account")
        && is_string (field "path")
        && string_one_of (field "reason")
             ["path_invalid"; "open_failed"; "write_failed"; "sync_failed"; "rotate_failed"])
  else if named "AUDIT_INCOMPLETE" then Ok (valid_audit_incomplete_details details)
  else if named "REMOTE_LOGOUT_UNCONFIRMED" then
    Ok (exact_fields details ["account"; "state"; "reason"] && valid_account (field "account")
        && valid_state (field "state") false
        && string_one_of (field "reason")
             ["tdlib_error"; "timeout"; "generation_lost"; "transport_lost"; "state_unproven"])
  else if named "LOCAL_CLEANUP_FAILED" then Ok (valid_cleanup_details details)
  else if named "REMOVAL_INCOMPLETE" then Ok (valid_removal_incomplete_details details)
  else if named "DAEMON_NOT_RUNNING" then
    Ok (exact_fields details ["account"; "socket"] && valid_account (field "account")
        && is_string (field "socket"))
  else if named "DAEMON_CONTROL_FAILED" then
    Ok (exact_fields details ["account"; "operation"; "reason"] && valid_account (field "account")
        && string_one_of (field "operation") ["status"; "stop"; "restart"]
        && string_one_of (field "reason")
             ["surface_invalid"; "identity_changed"; "handshake_failed"; "shutdown_failed";
              "replacement_failed"])
  else if named "RATE_LIMITED" then
    Ok (exact_fields details ["operation"; "tdlib_code"; "retry_after"]
        && valid_operation (field "operation") && eq_int (field "tdlib_code") 429
        && integer (field "retry_after"))
  else if named "TDLIB_ERROR" then
    Ok (exact_fields details ["operation"; "tdlib_code"] && valid_operation (field "operation")
        && integer (field "tdlib_code"))
  else if named "TIMEOUT" then
    Ok (exact_fields details ["operation"; "state"] && valid_operation (field "operation")
        && valid_state (field "state") true)
  else if named "DAEMON_SHUTDOWN" then
    Ok (exact_fields details ["reason"] && eq_str (field "reason") "daemon_shutdown")
  else if named "INTERNAL" then
    Ok (exact_fields details ["operation"; "reason"] && valid_operation (field "operation")
        && eq_str (field "reason") "internal_error")
  else Ok false.

(** * Structured errors *)

Record StructuredOutcomeError := { code : string; details : json }.

Definition parse_structured_outcome_error (value : json) : result failure StructuredOutcomeError :=
  if negb (exact_fields value ["code"; "details"]) || negb (is_string (jget value "code"))
     || negb (is_object (jget value "details"))
  then Err (Rejected "structured outcome error must contain exactly code and details")
  else
    valid <- valid_error_details (get_string (jget value "code")) (jget value "details") ;;
    if valid : bool
    then Ok {| code := get_string (jget value "code"); details := jget value "details" |}
    else Err (Rejected "structured outcome error code or details do not match the M1 contract").

Definition serialize_error (error : StructuredOutcomeError) : json :=
  jobject [("code", JString (code error)); ("details", details error)].

(** Code, for logout, for account removal. *)
Definition kPostIntentErrorRules : list (string * (bool * bool)) :=
  [("AUTH_FUNCTION_DENIED", (true, true)); ("CONFIG_INVALID", (false, true));
   ("CONFIG_CONFLICT", (false, true)); ("REMOTE_LOGOUT_UNCONFIRMED", (true, true));
   ("LOCAL_CLEANUP_FAILED", (false, true)); ("DAEMON_CONTROL_FAILED", (false, true));
   ("RATE_LIMITED", (true, true)); ("TDLIB_ERROR", (true, true)); ("TIMEOUT", (true, true));
   ("DAEMON_SHUTDOWN", (true, true)); ("INTERNAL", (true, true))].

Definition removal_stage_branch_matches_plan (plan : AccountRemovePlan) (completed_stages : list AuditStage) :
    bool :=
  let kept := has_stage completed_stages RemoteKept in
  let remote :=
    has_stage completed_stages RemoteLogoutSendStarted || has_stage completed_stages RemoteConfirmed
    || has_stage completed_stages RemoteNotPresent in
  (negb kept || keep_session (input_ plan)) && (negb remote || remote_logout plan).

(** [std::ranges::sort] bytewise. *)
Fixpoint insert_string (s : string) (l : list string) : list string :=
  match l with
  | [] => [s]
  | t :: r => if str_ltb t s then t :: insert_string s r else s :: l
  end.

Definition sort_strings (l : list string) : list string := fold_right insert_string [] l.

Definition cleanup_paths_match_plan (details : json) (plan : AccountRemovePlan) : bool :=
  let actual :=
    map get_string (elements (jget details "removed") ++ elements (jget details "retained")) in
  let '(d0, d1) := delete_paths (input_ plan) in
  eqb (sort_strings actual) (sort_strings [d0; d1]).

Definition validate_logout_error_binding (outcome_error : StructuredOutcomeError) : result string unit :=
  check (negb (String.eqb (code outcome_error) "AUTH_FUNCTION_DENIED"
               && negb (eq_str (jget (details outcome_error) "function") "logOut")))
        "logout auth-function error must identify logOut".

Definition validate_removal_error_binding (removal : AccountRemovePlan) (completed_stages : list AuditStage)
    (outcome_error : StructuredOutcomeError) : result string unit :=
  let named c := String.eqb (code outcome_error) c in
  let field k := jget (details outcome_error) k in
  check (removal_stage_branch_matches_plan removal completed_stages)
        "removal audit stages do not match the plan's remote policy" ;;;
  check (negb ((named "CONFIG_INVALID" || named "CONFIG_CONFLICT")
               && negb (eq_str (field "path") (config_path (input_ removal)))))
        "structured config error path does not match the removal plan" ;;;
  check (negb (named "CONFIG_CONFLICT"
               && (negb (eq_str (field "expected") (config_snapshot (input_ removal)))
                   || json_eqb (field "current") (field "expected"))))
        "structured config conflict does not match the planned snapshot transition" ;;;
  check (negb (named "LOCAL_CLEANUP_FAILED" && negb (cleanup_paths_match_plan (details outcome_error) removal)))
        "structured cleanup paths do not partition the removal roots" ;;;
  check (negb (named "REMOTE_LOGOUT_UNCONFIRMED" && keep_session (input_ removal)))
        "keep-session removal cannot report an unconfirmed remote logout" ;;;
  check (negb (named "AUTH_FUNCTION_DENIED"
               && (negb (eq_str (field "function") "close")
                   && (negb (eq_str (field "function") "logOut") || keep_session (input_ removal)))))
        "removal auth-function error does not match the plan's TDLib work" ;;;
  check (negb (named "DAEMON_CONTROL_FAILED" && negb (eq_str (field "operation") "stop")))
        "removal daemon-control error must identify stop".

(** [std::get] throws on a plan of another kind; no caller has one. *)
Definition validate_post_intent_error_binding (plan : DestructivePlan) (completed_stages : list AuditStage)
    (outcome_error : StructuredOutcomeError) : result string unit :=
  let command := command_for plan in
  let named c := String.eqb (code outcome_error) c in
  let field k := jget (details outcome_error) k in
  check (has_stage completed_stages IntentSynced) "failure audit outcome requires a durable intent" ;;;
  check (negb (named "CONFIRMATION_REQUIRED"
               && (negb (eq_str (field "action") (destructive_command_name command))
                   || negb (json_eqb (field "target") (serialize_plan plan)))))
        "confirmation error target does not match the destructive plan" ;;;
  check match lookup_by fst kPostIntentErrorRules (code outcome_error) with
        | Some (_, (logout, account_remove)) =>
            match command with Logout => logout | AccountRemove => account_remove end
        | None => false
        end
        "structured error is not legal for this post-intent command" ;;;
  check (negb (contains (details outcome_error) "account"
               && negb (eq_str (field "account") (account_for plan))))
        "structured error account does not match the destructive plan" ;;;
  check (negb ((named "RATE_LIMITED" || named "TDLIB_ERROR" || named "TIMEOUT" || named "INTERNAL")
               && negb (eq_str (field "operation") (destructive_command_name command))))
        "structured error operation does not match the destructive command" ;;;
  match command, plan with
  | Logout, _ => validate_logout_error_binding outcome_error
  | AccountRemove, PAccountRemove removal =>
      validate_removal_error_binding removal completed_stages outcome_error
  | AccountRemove, _ => Err "the plan is neither a logout nor an account removal"
  end.

(** * Audit documents *)

Definition make_outcome (identity : AuditRecordIdentity) (plan : DestructivePlan)
    (completed_stages : list AuditStage) (success : bool) (result error_value : json) :
    Prelude.result string json :=
  validate_record_identity identity ;;;
  let command := command_for plan in
  mutation <- derive_mutation_state command completed_stages ;;
  Ok (jobject
        [("schema_version", JInteger 1); ("phase", JString "outcome");
         ("invocation_id", JString (invocation_id identity)); ("timestamp", JString (timestamp identity));
         ("account", JString (account_for plan)); ("command", JString (destructive_command_name command));
         ("success", JBool success); ("mutation_state", JString (mutation_state_name mutation));
         ("completed_stages", serialize_stages completed_stages); ("result", result);
         ("error", error_value)]).

Definition make_logout_audit_intent (identity : AuditRecordIdentity) (plan : LogoutPlan)
    (config_snapshot : string) (authority_source : AuthoritySource)
    (confirmation_source : ConfirmationSource) : result string json :=
  validate_record_identity identity ;;;
  check (valid_config_snapshot_identity config_snapshot true)
        "logout audit config snapshot identity is invalid" ;;;
  Ok (jobject
        [("schema_version", JInteger 1); ("phase", JString "intent");
         ("invocation_id", JString (invocation_id identity)); ("timestamp", JString (timestamp identity));
         ("account", JString (logout_account plan)); ("command", JString "logout");
         ("arguments", JObject []); ("plan", serialize_logout plan);
         ("config_snapshot", JString config_snapshot);
         ("authority_source", JString (authority_source_name authority_source));
         ("confirmation_source", JString (confirmation_source_name confirmation_source))]).

Definition make_account_remove_audit_intent (identity : AuditRecordIdentity) (plan : AccountRemovePlan)
    (authority_source : AuthoritySource) (confirmation_source : ConfirmationSource) :
    result string json :=
  validate_record_identity identity ;;;
  Ok (jobject
        [("schema_version", JInteger 1); ("phase", JString "intent");
         ("invocation_id", JString (invocation_id identity)); ("timestamp", JString (timestamp identity));
         ("account", JString (account (input_ plan))); ("command", JString "account_remove");
         ("arguments",
          jobject [("keep_session", JBool (keep_session (input_ plan)));
                   ("reassign_default", serialize_nullable_string (reassign_default (input_ plan)))]);
         ("plan", serialize_account_remove plan);
         ("config_snapshot", JString (config_snapshot (input_ plan)));
         ("authority_source", JString (authority_source_name authority_source));
         ("confirmation_source", JString (confirmation_source_name confirmation_source))]).

Definition make_logout_audit_checkpoint (identity : AuditRecordIdentity) (plan : LogoutPlan)
    (stage : AuditStage) : result string json :=
  validate_record_identity identity ;;;
  check (eqb stage LogoutSendStarted || eqb stage LogoutClosedConfirmed)
        "logout checkpoint stage is invalid" ;;;
  Ok (jobject
        [("schema_version", JInteger 1); ("phase", JString "checkpoint");
         ("invocation_id", JString (invocation_id identity)); ("timestamp", JString (timestamp identity));
         ("account", JString (logout_account plan)); ("command", JString "logout");
         ("stage", JString (audit_stage_name stage))]).

Definition make_logout_success_audit_outcome (identity : AuditRecordIdentity) (plan : LogoutPlan)
    (completed_stages : list AuditStage) : result string json :=
  check (eqb completed_stages kLogoutStages)
        "successful logout outcome requires the confirmed logout stage sequence" ;;;
  make_outcome identity (PLogout plan) completed_stages true
    (jobject [("account", JString (logout_account plan)); ("logged_out", JBool true)]) JNull.

Definition expected_remote_stage (remote_result : AccountRemoveRemoteResult) : AuditStage :=
  match remote_result with
  | Confirmed => RemoteConfirmed
  | NotPresent => RemoteNotPresent
  | Kept => RemoteKept
  end.

Definition make_account_remove_success_audit_outcome (identity : AuditRecordIdentity)
    (plan : AccountRemovePlan) (remote_result : AccountRemoveRemoteResult)
    (completed_stages : list AuditStage) : result string json :=
  let remote_matches_plan :=
    match remote_result with Kept => keep_session (input_ plan) | _ => remote_logout plan end in
  check (remote_matches_plan && eqb (last completed_stages OutcomeSynced) StateRemoved
         && has_stage completed_stages (expected_remote_stage remote_result))
        "successful account removal outcome does not match its completed remote branch" ;;;
  make_outcome identity (PAccountRemove plan) completed_stages true
    (jobject [("account", JString (account (input_ plan))); ("removed", JBool true);
              ("remote_logout", JString (account_remove_remote_result_name remote_result));
              ("default_account", serialize_nullable_string (reassign_default (input_ plan)))]) JNull.

Definition make_failure_audit_outcome (identity : AuditRecordIdentity) (plan : DestructivePlan)
    (completed_stages : list AuditStage) (outcome_error : StructuredOutcomeError) : result string json :=
  validate_post_intent_error_binding plan completed_stages outcome_error ;;;
  make_outcome identity plan completed_stages false JNull (serialize_error outcome_error).
