(* ===== verification/RemovalJournal.v ===== *)
(** The journal of account removals (src/src/daemon/removal_journal.cpp, .hpp,
    removal_recovery.cpp): the tombstone that records how far a removal has come,
    the audit log beside it, what both together prove, and which action resumes a
    removal that was interrupted.

    Reading and writing files is not modelled here: a function takes what the
    files hold, or what loading them gave, and yields what is written.  The JSON
    parser is a parameter. *)
From S2P Require Import Prelude Json Paths DestructivePlan DestructiveContract.

(** * Tombstones *)

Record RemovalTombstone := {
  t_invocation_id : string;
  t_account : string;
  stage : AuditStage;
  completed_stages : list AuditStage;
  next_stage : option AuditStage;
  plan : AccountRemovePlan
}.

Definition keeps_session (p : AccountRemovePlan) : bool := keep_session (input_ p).

Definition expected_next (tombstone : RemovalTombstone) : option AuditStage :=
  match stage tombstone with
  | Planned => Some IntentSynced
  | IntentSynced => if keeps_session (plan tombstone) then Some RemoteKept else None
  | RemoteLogoutSendStarted => None
  | RemoteConfirmed | RemoteNotPresent | RemoteKept => Some ClientCloseStarted
  | ClientCloseStarted => Some ClientClosed
  | ClientClosed => Some ConfigRemoveStarted
  | ConfigRemoveStarted => Some ConfigRemoved
  | ConfigRemoved => Some DataRemoveStarted
  | DataRemoveStarted => Some DataRemoved
  | DataRemoved => Some StateRemoveStarted
  | StateRemoveStarted => Some StateRemoved
  | StateRemoved => Some OutcomeSynced
  | OutcomeSynced | LogoutSendStarted | LogoutClosedConfirmed => None
  end.

Definition stages_match_plan (p : AccountRemovePlan) (stages : list AuditStage) : bool :=
  let kept := has_stage stages RemoteKept in
  let remote :=
    has_stage stages RemoteLogoutSendStarted || has_stage stages RemoteConfirmed
    || has_stage stages RemoteNotPresent in
  if negb kept && negb remote then true
  else if keeps_session p then kept && negb remote else negb kept.

Definition serialize_tombstone (tombstone : RemovalTombstone) : json :=
  let p := serialize_account_remove (plan tombstone) in
  jobject
    [("schema_version", JInteger 1); ("invocation_id", JString (t_invocation_id tombstone));
     ("account", JString (t_account tombstone)); ("stage", JString (audit_stage_name (stage tombstone)));
     ("completed_stages", serialize_stages (completed_stages tombstone));
     ("next_stage", jopt (fun s => JString (audit_stage_name s)) (next_stage tombstone));
     ("plan", p); ("config_snapshot", JString (config_snapshot (input_ (plan tombstone))));
     ("data_root", jget p "data_root"); ("state_root", jget p "state_root")].

Definition with_stage (tombstone : RemovalTombstone) (s : AuditStage) (stages : list AuditStage)
    (next : option AuditStage) : RemovalTombstone :=
  {| t_invocation_id := t_invocation_id tombstone; t_account := t_account tombstone; stage := s;
     completed_stages := stages; next_stage := next; plan := plan tombstone |}.

(** Without the last stage when that is the outcome. *)
Definition prefix_of (s : AuditStage) (stages : list AuditStage) : list AuditStage :=
  if eqb s OutcomeSynced then removelast stages else stages.

Definition tombstone_fields : list string :=
  ["schema_version"; "invocation_id"; "account"; "stage"; "completed_stages"; "next_stage"; "plan";
   "config_snapshot"; "data_root"; "state_root"].

(** [None]: the failure is [path_invalid]. *)
Definition parse_tombstone (value : json) : option RemovalTombstone :=
  let field k := jget value k in
  if negb (exact_fields value tombstone_fields) || negb (eq_int (field "schema_version") 1)
     || negb (is_string (field "invocation_id"))
     || negb (valid_invocation_id (get_string (field "invocation_id")))
     || negb (is_string (field "account")) || negb (valid_account_name (get_string (field "account")))
     || negb (is_string (field "stage")) || negb (is_array (field "completed_stages"))
     || (negb (is_null (field "next_stage")) && negb (is_string (field "next_stage")))
     || negb (is_string (field "config_snapshot"))
  then None
  else
    match parse_account_remove_plan (field "plan") with
    | Err _ => None
    | Ok p =>
        if negb (String.eqb (account (input_ p)) (get_string (field "account")))
           || negb (String.eqb (config_snapshot (input_ p)) (get_string (field "config_snapshot")))
           || negb (json_eqb (field "data_root") (jget (field "plan") "data_root"))
           || negb (json_eqb (field "state_root") (jget (field "plan") "state_root"))
        then None
        else
          match parse_stage_list (elements (field "completed_stages")),
                parse_audit_stage (get_string (field "stage")) with
          | Some stages, Some s =>
              let prefix := prefix_of s stages in
              if match stages with [] => true | _ => negb (eqb (last stages OutcomeSynced) s) end
                 || (eqb s OutcomeSynced
                     && negb match prefix with Planned :: IntentSynced :: _ => true | _ => false end)
                 || negb (is_ok (validate_audit_stage_prefix AccountRemove prefix))
                 || negb (stages_match_plan p prefix)
              then None
              else
                let bare :=
                  {| t_invocation_id := get_string (field "invocation_id");
                     t_account := get_string (field "account"); stage := s; completed_stages := stages;
                     next_stage := None; plan := p |} in
                let result := with_stage bare s stages (expected_next bare) in
                if negb (json_eqb (field "next_stage")
                           (jopt (fun s => JString (audit_stage_name s)) (next_stage result)))
                   || negb (json_eqb (serialize_tombstone result) value)
                then None else Some result
          | _, _ => None
          end
    end.

(** * The audit log *)

Definition parse_authority (value : json) : option AuthoritySource :=
  if eq_str value "request" then Some AuthorityRequest
  else if eq_str value "config" then Some AuthorityConfig else None.

Definition parse_confirmation (value : json) : option ConfirmationSource :=
  if eq_str value "yes" then Some ConfirmYes
  else if eq_str value "tty" then Some ConfirmTty else None.

Definition parse_stages (value : json) : option (list AuditStage) :=
  if negb (is_array value) then None else parse_stage_list (elements value).

Definition parse_remote_result (result : json) : option AccountRemoveRemoteResult :=
  if negb (is_object result) || negb (contains result "remote_logout")
     || negb (is_string (jget result "remote_logout")) then None
  else if eq_str (jget result "remote_logout") "confirmed" then Some Confirmed
  else if eq_str (jget result "remote_logout") "not_present" then Some NotPresent
  else if eq_str (jget result "remote_logout") "kept" then Some Kept
  else None.

(** A [std::map] keyed by invocation, as an association list. *)
Definition find_in {A} (k : string) (m : list (string * A)) : option A :=
  option_map snd (find (fun e => String.eqb (fst e) k) m).

Definition emplace {A} (k : string) (v : A) (m : list (string * A)) : list (string * A) :=
  match find_in k m with Some _ => m | None => m ++ [(k, v)] end.

Definition erase {A} (k : string) (m : list (string * A)) : list (string * A) :=
  filter (fun e => negb (String.eqb (fst e) k)) m.

Definition has_key {A} (k : string) (m : list (string * A)) : bool :=
  match find_in k m with Some _ => true | None => false end.

Record AuditScan := {
  pending : list (string * AccountRemovePlan);
  completed : list string;
  plans : list (string * AccountRemovePlan);
  scanned_stages : list (string * list AuditStage);
  outcomes : list (string * json);
  generations : list (string * string);
  oldest_invocations : list string
}.

Definition empty_scan : AuditScan :=
  {| pending := []; completed := []; plans := []; scanned_stages := []; outcomes := [];
     generations := []; oldest_invocations := [] |}.

(** A record is refused; the scan then fails with [path_invalid]. *)
Definition refused : failure := Rejected "path_invalid".

Definition audit_identity (record : json) (invocation : string) : AuditRecordIdentity :=
  {| invocation_id := invocation;
     timestamp :=
       if contains record "timestamp" && is_string (jget record "timestamp")
       then get_string (jget record "timestamp") else EmptyString |}.

Definition intent_fields : list string :=
  ["schema_version"; "phase"; "invocation_id"; "timestamp"; "account"; "command"; "arguments"; "plan";
   "config_snapshot"; "authority_source"; "confirmation_source"].

Definition consume_intent (record : json) (identity : AuditRecordIdentity) (invocation generation : string)
    (scan : AuditScan) : result failure AuditScan :=
  if negb (exact_fields record intent_fields) || has_key invocation (pending scan)
     || str_in invocation (completed scan)
  then Err refused
  else
    match parse_account_remove_plan (jget record "plan"), parse_authority (jget record "authority_source"),
          parse_confirmation (jget record "confirmation_source") with
    | Ok p, Some authority, Some confirmation =>
        match make_account_remove_audit_intent identity p authority confirmation with
        | Ok canonical =>
            if negb (json_eqb canonical record) then Err refused
            else
              Ok {| pending := emplace invocation p (pending scan); completed := completed scan;
                    plans := emplace invocation p (plans scan); scanned_stages := scanned_stages scan;
                    outcomes := outcomes scan;
                    generations := emplace invocation generation (generations scan);
                    oldest_invocations := oldest_invocations scan |}
        | Err _ => Err refused
        end
    | _, _, _ => Err refused
    end.

(** The outcome that the record must be. *)
Definition canonical_outcome (record : json) (identity : AuditRecordIdentity) (p : AccountRemovePlan)
    (stages : list AuditStage) : result failure json :=
  if eq_bool (jget record "success") true && is_null (jget record "error") then
    match parse_remote_result (jget record "result") with
    | Some remote =>
        reported (make_account_remove_success_audit_outcome identity p remote stages)
    | None => Err refused
    end
  else if eq_bool (jget record "success") false && is_null (jget record "result") then
    structured <- parse_structured_outcome_error (jget record "error") ;;
    reported (make_failure_audit_outcome identity (PAccountRemove p) stages structured)
  else Err refused.

Definition consume_outcome (record : json) (identity : AuditRecordIdentity) (invocation generation : string)
    (scan : AuditScan) : result failure AuditScan :=
  match find_in invocation (pending scan), find_in invocation (generations scan) with
  | Some p, Some found_generation =>
      if negb (String.eqb found_generation generation) then Err refused
      else
        match parse_stages (jget record "completed_stages") with
        | None => Err refused
        | Some stages =>
            canonical <- canonical_outcome record identity p stages ;;
            if negb (json_eqb canonical record) then Err refused
            else
              Ok {| pending := erase invocation (pending scan);
                    completed :=
                      if str_in invocation (completed scan) then completed scan
                      else completed scan ++ [invocation];
                    plans := plans scan;
                    scanned_stages := emplace invocation stages (scanned_stages scan);
                    outcomes := emplace invocation record (outcomes scan);
                    generations := generations scan; oldest_invocations := oldest_invocations scan |}
        end
  | _, _ => Err refused
  end.

Definition outcome_fields : list string :=
  ["schema_version"; "phase"; "invocation_id"; "timestamp"; "account"; "command"; "success";
   "mutation_state"; "completed_stages"; "result"; "error"].

Definition consume_audit_record (record : json) (generation : string) (scan : AuditScan) :
    result failure AuditScan :=
  if negb (is_object record) || negb (contains record "phase") || negb (is_string (jget record "phase"))
     || negb (contains record "invocation_id") || negb (is_string (jget record "invocation_id"))
     || negb (valid_invocation_id (get_string (jget record "invocation_id")))
     || negb (contains record "command") || negb (eq_str (jget record "command") "account_remove")
  then Err refused
  else
    let invocation := get_string (jget record "invocation_id") in
    let identity := audit_identity record invocation in
    if eq_str (jget record "phase") "intent" then consume_intent record identity invocation generation scan
    else if negb (eq_str (jget record "phase") "outcome") || negb (exact_fields record outcome_fields)
    then Err refused
    else consume_outcome record identity invocation generation scan.

Section bytes.
Context (json_parse : string -> option json).

Definition note_oldest (oldest : bool) (invocation : string) (scan : AuditScan) : AuditScan :=
  {| pending := pending scan; completed := completed scan; plans := plans scan;
     scanned_stages := scanned_stages scan; outcomes := outcomes scan; generations := generations scan;
     oldest_invocations :=
       if oldest && negb (str_in invocation (oldest_invocations scan))
       then oldest_invocations scan ++ [invocation] else oldest_invocations scan |}.

(** One line, without its newline. *)
Definition consume_line (line generation : string) (oldest : bool) (scan : AuditScan) :
    result failure AuditScan :=
  if str_empty line then Err refused
  else
    match json_parse line with
    | None => Err refused
    | Some parsed =>
        scan <- consume_audit_record parsed generation scan ;;
        Ok (note_oldest oldest (get_string (jget parsed "invocation_id")) scan)
    end.

(** The loop over the bytes; [line] is what has been read of the current line. *)
Fixpoint consume_audit_bytes (bytes line generation : string) (oldest : bool) (scan : AuditScan) :
    result failure AuditScan :=
  match bytes with
  | EmptyString => if str_empty line then Ok scan else Err refused
  | String c r =>
      if Ascii.eqb c newline then
        scan <- consume_line line generation oldest scan ;;
        consume_audit_bytes r EmptyString generation oldest scan
      else consume_audit_bytes r (line +++ str1 c) generation oldest scan
  end.

Definition segment_names : list string :=
  ["audit.log.4"; "audit.log.3"; "audit.log.2"; "audit.log.1"; "audit.log"].

(** [scan_audit], over what [read_file] gave for each segment: its bytes (none
    for a missing file) or a reason. *)
Fixpoint scan_segments (segments : list (string * result string string)) (scan : AuditScan) :
    result failure AuditScan :=
  match segments with
  | [] => Ok scan
  | (name, Err reason) :: _ => Err (Rejected reason)
  | (name, Ok bytes) :: rest =>
      scan <- consume_audit_bytes bytes EmptyString name (String.eqb name "audit.log.4") scan ;;
      scan_segments rest scan
  end.

Definition scan_audit (read : string -> result string string) : result failure AuditScan :=
  scan_segments (map (fun name => (name, read name)) segment_names) empty_scan.
End bytes.

(** * What tombstone and log prove together *)

Definition verified_terminal_tombstone (tombstone : RemovalTombstone) (scan : AuditScan) : bool :=
  if negb (eqb (stage tombstone) OutcomeSynced) || (List.length (completed_stages tombstone) <? 3)%nat
     || negb (eqb (last (completed_stages tombstone) Planned) OutcomeSynced)
     || negb (str_in (t_invocation_id tombstone) (completed scan))
  then false
  else
    match find_in (t_invocation_id tombstone) (plans scan),
          find_in (t_invocation_id tombstone) (scanned_stages scan) with
    | Some found_plan, Some found_stages =>
        json_eqb (serialize_account_remove found_plan) (serialize_account_remove (plan tombstone))
        && eqb found_stages (removelast (completed_stages tombstone))
    | _, _ => false
    end.

(** [create]: the tombstone that is written. *)
Definition created_tombstone (invocation : string) (p : AccountRemovePlan) : RemovalTombstone :=
  {| t_invocation_id := invocation; t_account := account (input_ p); stage := Planned;
     completed_stages := [Planned]; next_stage := Some IntentSynced; plan := p |}.

(** [advance], on the loaded tombstone: nothing to do, or the tombstone to write;
    [scan] is the result of [scan_audit], which is asked for the outcome only. *)
Inductive Advance := Unchanged | Replace (tombstone : RemovalTombstone).

Definition advance_tombstone (tombstone : RemovalTombstone) (s : AuditStage)
    (scan : result failure AuditScan) : result failure Advance :=
  let verified t :=
    if eqb s OutcomeSynced then
      scanned <- scan ;;
      if verified_terminal_tombstone t scanned then Ok tt else Err refused
    else Ok tt in
  if eqb (stage tombstone) s then (verified tombstone ;;; Ok Unchanged)
  else if eqb (stage tombstone) OutcomeSynced then Err refused
  else
    let candidate := completed_stages tombstone ++ [s] in
    let prefix := prefix_of s candidate in
    if negb (is_ok (validate_audit_stage_prefix AccountRemove prefix))
       || negb (stages_match_plan (plan tombstone) prefix)
    then Err refused
    else
      let next := with_stage tombstone s candidate None in
      let next := with_stage tombstone s candidate (expected_next next) in
      verified next ;;;
      Ok (Replace next).

(** [parse_incoming_intent]. *)
Definition parse_incoming_intent (record : json) : result failure (string * AccountRemovePlan) :=
  scan <- consume_audit_record record "incoming" empty_scan ;;
  match pending scan with
  | [entry] => Ok entry
  | _ => Err refused
  end.

(** [validate_incoming_tombstone], on the loaded tombstone of the intent. *)
Definition validate_incoming_tombstone (scan : AuditScan) (record : json)
    (load : string -> result failure RemovalTombstone) : result failure (string * AccountRemovePlan) :=
  incoming <- parse_incoming_intent record ;;
  if has_key (fst incoming) (plans scan) then Err refused
  else
    match load (fst incoming) with
    | Err Thrown => Err Thrown
    | Err (Rejected _) => Err refused
    | Ok tombstone =>
        if eqb (stage tombstone) Planned && eqb (completed_stages tombstone) [Planned]
           && eqb (next_stage tombstone) (Some IntentSynced)
           && json_eqb (serialize_account_remove (plan tombstone)) (serialize_account_remove (snd incoming))
        then Ok incoming else Err refused
    end.

(** [inspect_account], over the tombstones in the directory in order and the scan. *)
Inductive RemovalInspection :=
| InspectionClean
| InspectionIncomplete (tombstone : RemovalTombstone)
| InspectionInvalid (reason : failure).

Fixpoint inspect_tombstones (acct : string) (tombstones : list (result failure RemovalTombstone))
    (scan : result failure AuditScan) (matched : option RemovalTombstone) : RemovalInspection :=
  match tombstones with
  | [] => match matched with Some t => InspectionIncomplete t | None => InspectionClean end
  | Err reason :: _ => InspectionInvalid reason
  | Ok t :: rest =>
      if eqb (stage t) OutcomeSynced then
        match scan with
        | Err reason => InspectionInvalid reason
        | Ok scanned =>
            if verified_terminal_tombstone t scanned then inspect_tombstones acct rest scan matched
            else InspectionInvalid refused
        end
      else if String.eqb (t_account t) acct then
        match matched with
        | Some _ => InspectionInvalid refused
        | None => inspect_tombstones acct rest scan (Some t)
        end
      else inspect_tombstones acct rest scan matched
  end.

(** * Recovery (removal_recovery.cpp) *)

Inductive RemovalRootObservation := PlannedAbsent | Captured | Staged | Absent | Changed.

Inductive RemovalRecoveryAction :=
| EnsureIntent | ReevaluateRemote | QuiesceClient | BeginConfigRemoval | RetryConfigRemoval
| RecordConfigRemoved | FinishDataRemoval | FinishStateRemoval | EnsureOutcome | RecordOutcomeSynced
| Complete.

#[export] Instance RemovalRootObservation_eq_dec : EqDec RemovalRootObservation.
Proof. intros [] []; (left; reflexivity) || (right; discriminate). Defined.

Record RemovalAuditPresence := { has_intent : bool; has_outcome : bool }.

(** What removal reads of a configuration snapshot (common/config.hpp). *)
Record ConfigSnapshot := {
  identity : string; default_account : option string; accounts : list (string * bool) }.

Record RemovalRecoveryFacts := {
  config : ConfigSnapshot; data : RemovalRootObservation; state : RemovalRootObservation;
  audit : RemovalAuditPresence }.

Definition config_is_captured (tombstone : RemovalTombstone) (snapshot : ConfigSnapshot) : bool :=
  String.eqb (identity snapshot) (config_snapshot (input_ (plan tombstone)))
  && has_key (t_account tombstone) (accounts snapshot).

Definition config_is_removed (tombstone : RemovalTombstone) (snapshot : ConfigSnapshot) : bool :=
  negb (has_key (t_account tombstone) (accounts snapshot))
  && eqb (default_account snapshot) (reassign_default (input_ (plan tombstone))).

Definition root_is_pre_mutation (observation : RemovalRootObservation) (planned_present : bool) : bool :=
  if planned_present then eqb observation Captured else eqb observation PlannedAbsent.

Definition root_is_post_mutation (observation : RemovalRootObservation) (planned_present : bool) : bool :=
  if planned_present then eqb observation Absent else eqb observation PlannedAbsent.

Definition root_is_started (observation : RemovalRootObservation) (planned_present : bool) : bool :=
  if planned_present then eqb observation Captured || eqb observation Staged || eqb observation Absent
  else eqb observation PlannedAbsent.

Definition present {A} (o : option A) : bool := match o with Some _ => true | None => false end.

(** [None] is [invalid()], with the reason [identity_ambiguous]. *)
Definition decide_removal_recovery (tombstone : RemovalTombstone) (facts : RemovalRecoveryFacts) :
    option RemovalRecoveryAction :=
  let data_present := present (data_root (input_ (plan tombstone))) in
  let state_present := present (state_root (input_ (plan tombstone))) in
  let captured_config := config_is_captured tombstone (config facts) in
  let removed_config := config_is_removed tombstone (config facts) in
  let data_before := root_is_pre_mutation (data facts) data_present in
  let state_before := root_is_pre_mutation (state facts) state_present in
  let data_after := root_is_post_mutation (data facts) data_present in
  let state_after := root_is_post_mutation (state facts) state_present in
  let intent := has_intent (audit facts) in
  let outcome := has_outcome (audit facts) in
  let require b action := if b : bool then Some action else None in
  let continue_or_finish next := if outcome then RecordOutcomeSynced else next in
  if eqb (stage tombstone) OutcomeSynced then Some Complete
  else if outcome && negb intent then None
  else
    match stage tombstone with
    | Planned | IntentSynced =>
        if negb captured_config || negb data_before || negb state_before then None
        else if outcome && intent then Some RecordOutcomeSynced
        else if negb intent || eqb (stage tombstone) Planned then Some EnsureIntent
        else Some (continue_or_finish ReevaluateRemote)
    | RemoteLogoutSendStarted =>
        require (captured_config && data_before && state_before && intent)
          (continue_or_finish ReevaluateRemote)
    | RemoteConfirmed | RemoteNotPresent | RemoteKept | ClientCloseStarted =>
        require (captured_config && data_before && state_before && intent)
          (continue_or_finish QuiesceClient)
    | ClientClosed =>
        require (captured_config && data_before && state_before && intent)
          (continue_or_finish BeginConfigRemoval)
    | ConfigRemoveStarted =>
        require ((captured_config || removed_config) && data_before && state_before && intent)
          (continue_or_finish (if captured_config then RetryConfigRemoval else RecordConfigRemoved))
    | ConfigRemoved =>
        require (removed_config && data_before && state_before && intent)
          (continue_or_finish FinishDataRemoval)
    | DataRemoveStarted =>
        require (removed_config && root_is_started (data facts) data_present && state_before && intent)
          (continue_or_finish FinishDataRemoval)
    | DataRemoved =>
        require (removed_config && data_after && state_before && intent)
          (continue_or_finish FinishStateRemoval)
    | StateRemoveStarted =>
        require (removed_config && data_after && root_is_started (state facts) state_present && intent)
          (continue_or_finish FinishStateRemoval)
    | StateRemoved =>
        require (removed_config && data_after && state_after && intent)
          (if outcome then RecordOutcomeSynced else EnsureOutcome)
    | OutcomeSynced | LogoutSendStarted | LogoutClosedConfirmed => None
    end.

Definition can_resume_removal_without_tdlib (tombstone : RemovalTombstone) : bool :=
  match stage tombstone with
  | RemoteConfirmed | RemoteNotPresent | RemoteKept | ClientCloseStarted | ClientClosed
  | ConfigRemoveStarted | ConfigRemoved | DataRemoveStarted | DataRemoved | StateRemoveStarted
  | StateRemoved => true
  | Planned | IntentSynced | RemoteLogoutSendStarted | OutcomeSynced | LogoutSendStarted
  | LogoutClosedConfirmed => false
  end.
