(* ===== verification/RemovalCodec.v ===== *)
(** Tombstones are read back as they were written: every tombstone that [create]
    and [advance] write is accepted by [parse_tombstone], which yields it again. *)
From S2P Require Import Prelude Json Paths DestructivePlan DestructivePlanFacts DestructiveContract RemovalJournal.

(** * Stage names *)

Lemma audit_stage_roundtrip s : parse_audit_stage (audit_stage_name s) = Some s.
Proof. now destruct s. Qed.

Lemma stage_list_roundtrip stages :
  parse_stage_list (map (fun s => JString (audit_stage_name s)) stages) = Some stages.
Proof.
  induction stages as [|s stages IH]; cbn [map parse_stage_list]; [easy|].
  now rewrite audit_stage_roundtrip, IH.
Qed.

(** * Documents without floating-point numbers *)

Definition members_free (m : list (string * json)) : bool := forallb (fun kv => float_free (snd kv)) m.

Lemma insert_members_free k v m : float_free v = true -> members_free m = true -> members_free (obj_insert k v m) = true.
Proof.
  unfold members_free. intros V. induction m as [|[k' v'] m IH]; cbn; intros M; [now rewrite V|].
  apply andb_prop in M as [M1 M2]. destruct (str_ltb k k'); [cbn; now rewrite V, M1, M2|].
  destruct (str_ltb k' k); cbn; rewrite ?M1, ?M2; auto.
Qed.

Lemma object_float_free l : members_free l = true -> float_free (jobject l) = true.
Proof.
  unfold jobject. change (float_free (JObject ?m)) with (members_free m).
  assert (forall m, members_free m = true -> members_free l = true ->
    members_free (fold_left (fun m kv => obj_insert (fst kv) (snd kv) m) l m) = true) as G.
  { induction l as [|[k v] l IH]; intros m M L; cbn [fold_left]; [easy|].
    cbn in L. apply andb_prop in L as [L1 L2]. apply IH; [now apply insert_members_free|easy]. }
  now apply G.
Qed.

Lemma stages_float_free stages : float_free (serialize_stages stages) = true.
Proof. unfold serialize_stages. cbn. induction stages; cbn; auto. Qed.

Lemma root_float_free root : float_free (serialize_root root) = true.
Proof. destruct root; [now apply object_float_free|easy]. Qed.

Lemma nullable_float_free o : float_free (serialize_nullable_string o) = true.
Proof. now destruct o. Qed.

Lemma plan_float_free p : float_free (serialize_account_remove p) = true.
Proof.
  apply object_float_free. unfold members_free. cbn [forallb snd float_free andb].
  now rewrite !root_float_free, nullable_float_free.
Qed.

Lemma next_float_free (o : option AuditStage) : float_free (jopt (fun s => JString (audit_stage_name s)) o) = true.
Proof. now destruct o. Qed.

Lemma plan_roots p :
  jget (serialize_account_remove p) "data_root" = serialize_root (data_root (input_ p)) /\
  jget (serialize_account_remove p) "state_root" = serialize_root (state_root (input_ p)).
Proof. now split. Qed.

Lemma tombstone_float_free t : float_free (serialize_tombstone t) = true.
Proof.
  apply object_float_free. unfold members_free. cbn [forallb snd float_free andb].
  destruct (plan_roots (plan t)) as [-> ->].
  now rewrite stages_float_free, next_float_free, plan_float_free, !root_float_free.
Qed.

(** * The round trip *)

(** The stages of a tombstone. *)
Definition well_staged (t : RemovalTombstone) : bool :=
  let prefix := prefix_of (stage t) (completed_stages t) in
  match completed_stages t with [] => false | _ => eqb (last (completed_stages t) OutcomeSynced) (stage t) end
  && (negb (eqb (stage t) OutcomeSynced) || match prefix with Planned :: IntentSynced :: _ => true | _ => false end)
  && is_ok (validate_audit_stage_prefix AccountRemove prefix) && stages_match_plan (plan t) prefix.

(** What [create] and [advance] write. *)
Record written (t : RemovalTombstone) : Prop := {
  w_invocation : valid_invocation_id (t_invocation_id t) = true;
  w_account : t_account t = account (input_ (plan t));
  w_plan : exists i, make_account_remove_plan i = Ok (plan t);
  w_staged : well_staged t = true;
  w_next : next_stage t = expected_next t
}.

Lemma made_account i p : make_account_remove_plan i = Ok p -> valid_account_name (account (input_ p)) = true.
Proof.
  intros M. pose proof (make_account_remove_roots _ _ M) as (-> & _). cbn.
  unfold make_account_remove_plan in M. destruct (delete_paths i). rewrite !check_seq in M. tauto.
Qed.

Lemma created_written invocation p i :
  valid_invocation_id invocation = true -> make_account_remove_plan i = Ok p -> written (created_tombstone invocation p).
Proof. intros I M. constructor; try easy. now exists i. Qed.

(** Advancing to the outcome asks for a verified log, and hence for the intent. *)
Lemma advance_written t s scan next :
  written t -> (s = OutcomeSynced -> exists rest, completed_stages t = Planned :: IntentSynced :: rest) ->
  advance_tombstone t s scan = Ok (Replace next) -> written next.
Proof.
  intros [I A P W N] O. unfold advance_tombstone. destruct (eqb (stage t) s); [intros H; now inv_bind H|].
  destruct (eqb (stage t) OutcomeSynced); [discriminate|].
  set (prefix := prefix_of s (completed_stages t ++ [s])).
  destruct (is_ok (validate_audit_stage_prefix AccountRemove prefix)) eqn:V; cbn [negb orb]; [|discriminate].
  destruct (stages_match_plan (plan t) prefix) eqn:M; cbn [negb]; [|discriminate].
  intros H. inv_bind H. injection H as <-. constructor; try easy. unfold well_staged.
  cbn [with_stage stage completed_stages plan]. fold prefix. rewrite V, M, last_last, eqb_refl.
  assert (forall b : bool, match completed_stages t ++ [s] with [] => false | _ => b end = b) as -> by (intros; now destruct (completed_stages t)).
  destruct (eqb s OutcomeSynced) eqn:Es; [|easy]. cbn [negb orb andb]. apply eqb_eq in Es.
  destruct (O Es) as [rest R]. unfold prefix, prefix_of. rewrite Es, eqb_refl, removelast_last, R. reflexivity.
Qed.

(** The checks of the stages that [parse_tombstone] makes. *)
Lemma staged_accepted t :
  well_staged t = true ->
  match completed_stages t with [] => true | _ => negb (eqb (last (completed_stages t) OutcomeSynced) (stage t)) end
  || (eqb (stage t) OutcomeSynced
      && negb match prefix_of (stage t) (completed_stages t) with Planned :: IntentSynced :: _ => true | _ => false end)
  || negb (is_ok (validate_audit_stage_prefix AccountRemove (prefix_of (stage t) (completed_stages t))))
  || negb (stages_match_plan (plan t) (prefix_of (stage t) (completed_stages t))) = false.
Proof.
  unfold well_staged. intros W. apply andb_prop in W as [W ->]. apply andb_prop in W as [W ->].
  apply andb_prop in W as [W O]. cbn [negb]. rewrite !orb_false_r.
  destruct (completed_stages t); [discriminate|]. rewrite W. cbn [negb orb].
  destruct (eqb (stage t) OutcomeSynced); [|easy]. cbn [negb orb andb] in *. now rewrite O.
Qed.

(** The tombstone that [parse_tombstone] puts together. *)
Lemma rebuilt t :
  t_account t = account (input_ (plan t)) -> next_stage t = expected_next t ->
  let bare := {| t_invocation_id := t_invocation_id t; t_account := account (input_ (plan t)); stage := stage t;
                 completed_stages := completed_stages t; next_stage := None; plan := plan t |} in
  with_stage bare (stage t) (completed_stages t) (expected_next bare) = t.
Proof. destruct t. cbn. now intros -> ->. Qed.

(** Every tombstone that the journal writes is read back as it was
    written: invocation, account, stage, completed stages, next stage and plan. *)
Theorem tombstone_roundtrip t : written t -> parse_tombstone (serialize_tombstone t) = Some t.
Proof.
  intros [I A [i P] W N]. pose proof (made_account _ _ P) as Ac. pose proof (account_remove_reparse _ _ P) as Re.
  pose proof (json_eqb_refl _ (tombstone_float_free t)) as Refl.
  pose proof (json_eqb_refl _ (root_float_free (data_root (input_ (plan t))))) as RD.
  pose proof (json_eqb_refl _ (root_float_free (state_root (input_ (plan t))))) as RS.
  pose proof (json_eqb_refl _ (next_float_free (next_stage t))) as RN.
  set (v := serialize_tombstone t) in *. unfold parse_tombstone.
  assert (exact_fields v tombstone_fields = true) as -> by reflexivity.
  assert (jget v "schema_version" = JInteger 1) as -> by reflexivity.
  assert (jget v "invocation_id" = JString (t_invocation_id t)) as -> by reflexivity.
  assert (jget v "account" = JString (t_account t)) as -> by reflexivity.
  assert (jget v "stage" = JString (audit_stage_name (stage t))) as -> by reflexivity.
  assert (jget v "completed_stages" = serialize_stages (completed_stages t)) as -> by reflexivity.
  assert (jget v "next_stage" = jopt (fun s => JString (audit_stage_name s)) (next_stage t)) as -> by reflexivity.
  assert (jget v "config_snapshot" = JString (config_snapshot (input_ (plan t)))) as -> by reflexivity.
  assert (jget v "plan" = serialize_account_remove (plan t)) as -> by reflexivity.
  assert (jget v "data_root" = serialize_root (data_root (input_ (plan t)))) as -> by reflexivity.
  assert (jget v "state_root" = serialize_root (state_root (input_ (plan t)))) as -> by reflexivity.
  destruct (plan_roots (plan t)) as [-> ->]. cbn [get_string is_string elements serialize_stages is_array].
  rewrite I, A, Ac, Re, RD, RS, !String.eqb_refl, stage_list_roundtrip, audit_stage_roundtrip.
  assert (negb (is_null (jopt (fun s => JString (audit_stage_name s)) (next_stage t)))
          && negb (is_string (jopt (fun s => JString (audit_stage_name s)) (next_stage t))) = false) as ->
    by now destruct (next_stage t).
  cbn [eq_int negb orb andb]. rewrite Z.eqb_refl. cbn [negb orb andb].
  rewrite (staged_accepted t W), (rebuilt t A N), RN. fold v. now rewrite Refl.
Qed.
