(* ===== verification/AccountRemoval.v ===== *)
(** Removing an account (src/src/daemon/account_removal.cpp and
    removal_planner.cpp): the plan, its confirmation, and the transaction that
    logs out, closes the client, takes the account out of the configuration and
    deletes its data and state directories, each step recorded in the journal
    before and after it is made, so that an interrupted removal is resumed by the
    next attempt.

    [remove] is a program over its effects: the journal, the configuration store,
    the file system, the remote side and the session.  The three callbacks that
    the store runs under its lock are programs too, and [remove_account] runs
    them where config::Store::mutate (src/src/common/config.cpp) does. *)
From S2P Require Import Prelude Json Paths DestructivePlan Frame DestructiveContract RemovalJournal Effects.
Open Scope kernel_scope.

(** * Data *)

Definition kGeneric : Z := 1.
Definition kUsage : Z := 2.
Definition kNotFound : Z := 4.
Definition kRateLimited : Z := 5.
Definition kDenied : Z := 6.
Definition kTimeout : Z := 7.

Record RemovalOperationError := {
  r_code : string; r_message : string; r_details : json; r_exit_code : Z }.

Record CapturedRemovalRoot := { root_path : string; root_identity : option RootIdentity }.

Record PlannedAccountRemoval := {
  p_plan : AccountRemovePlan;
  p_data_root : CapturedRemovalRoot;
  p_state_root : CapturedRemovalRoot;
  p_config : ConfigSnapshot;
  p_account_config : option bool;
  p_recovery : option RemovalTombstone
}.

Inductive RemovalRemoteProof :=
| RemoteProof (result : AccountRemoveRemoteResult)
| RemoteError (error : RemovalOperationError).

Inductive Label := DataRoot | StateRoot.

(** What the challenge for a confirmation ended with.  [silent]: disconnected,
    shut down or a protocol error. *)
Inductive Confirmation := Answered (answer : option bool) | NotAnswered (silent : bool).

Inductive AuditedTerminal := TerminalDesignated | TerminalShutdown | TerminalTimedOut | TerminalOther.

(** config::MutationStatus. *)
Inductive MutationStatus :=
| Applied | Conflict | MutationInvalid | MutationIoError | MutationTimedOut | MutationCancelled
| PreconditionFailed | DurabilityUnknown.

Record MutationResult := {
  mutation_status : MutationStatus; mutation_identity : option string; mutation_reason : option string }.

(** How far the store comes before it runs a callback: it fails, it holds another
    configuration than the expected one, or the replacement is written. *)
Inductive MutationStart :=
| MutationFailed (result : MutationResult)
| IdentityDiffers (current : ConfigSnapshot)
| ReplacementWritten.

(** config::LoadResult. *)
Inductive ConfigLoad :=
| ConfigLoaded (snapshot : ConfigSnapshot)
| ConfigTimedOut
| ConfigCancelled
| ConfigUnusable (reason : option string).

(** An inspection of the journal, with the path it names. *)
Record Inspected := { inspection : RemovalInspection; inspected_path : string }.

Inductive Effect : Type -> Type :=
| InspectAccount (acct : string) : Effect Inspected
| LoadConfig : Effect ConfigLoad
| CaptureRoot (path : string) : Effect (result string (option RootIdentity))
| RevalidateRoot (root : CapturedRemovalRoot) : Effect (result string unit)
| ObserveRoot (root : CapturedRemovalRoot) (invocation : string) (label : Label) :
    Effect (option RemovalRootObservation)
| DeleteRoot (root : CapturedRemovalRoot) (invocation : string) (label : Label) :
    Effect (result string unit)
| CreateTombstone (invocation : string) (p : AccountRemovePlan) : Effect (result string unit)
| AdvanceTombstone (invocation : string) (s : AuditStage) : Effect (result string unit)
| LoadTombstone (invocation : string) : Effect (option RemovalTombstone)
| AuditPresence (invocation : string) : Effect (option RemovalAuditPresence)
| AuditedOutcome (invocation : string) : Effect (option json)
| AppendIntent (record : json) : Effect (result string unit)
| AppendOutcome (record : json) : Effect (result string unit)
| StartMutation (expected acct : string) (reassign : option string) : Effect MutationStart
| CommitMutation : Effect (option MutationResult)
(** the checkpoints that the remote side asks for, in order, and what it proves *)
| ProveRemoteLogout (p : AccountRemovePlan) (send_checkpointed : bool) :
    Effect (list AuditStage * RemovalRemoteProof)
| Quiesce : Effect (option RemovalOperationError)
| Challenge (prompt : string) (target : json) : Effect Confirmation
| HasTerminal : Effect bool
| BeginAuditedTerminal : Effect AuditedTerminal
| NewInvocation : Effect string
| CurrentTimestamp : Effect string
| SessionError (error : RemovalOperationError) : Effect unit
| SessionResult (value : json) : Effect unit
| AuditFatal : Effect unit
| ShutdownAfterTerminal : Effect unit.

Notation prog_ A := (stmt Effect unit A).

(** * Planning (removal_planner.cpp) *)

Definition planning_error (c message : string) (d : list (string * json)) (exit : Z) :
    RemovalOperationError :=
  {| r_code := c; r_message := message; r_details := jobject d; r_exit_code := exit |}.

Definition usage_error (message : string) : RemovalOperationError :=
  planning_error "USAGE" message
    [("argument", JString "--reassign-default"); ("reason", JString "invalid_argument")] kUsage.

Definition resulting_default (snapshot : ConfigSnapshot) (acct : string) (requested : option string) :
    result RemovalOperationError (option string) :=
  if negb (eqb (default_account snapshot) (Some acct)) then
    match requested with
    | Some _ => Err (usage_error "default reassignment is only valid for the current default")
    | None => Ok (default_account snapshot)
    end
  else if Nat.eqb (List.length (accounts snapshot)) 1 then
    match requested with
    | Some _ => Err (usage_error "the sole account cannot reassign the default")
    | None => Ok None
    end
  else
    match requested with
    | None =>
        Err (planning_error "DEFAULT_REASSIGNMENT_REQUIRED"
               "removing the default account requires an explicit replacement"
               [("account", JString acct);
                ("candidates",
                 JArray (map JString (filter (fun name => negb (String.eqb name acct))
                                        (map fst (accounts snapshot)))))] kUsage)
    | Some name =>
        if String.eqb name acct
        then Err (usage_error "the replacement default must differ from the removed account")
        else if negb (has_key name (accounts snapshot))
        then Err (planning_error "ACCOUNT_NOT_FOUND" "replacement account is not configured"
                    [("account", JString name)] kNotFound)
        else Ok requested
    end.

Definition config_failure (path : string) (loaded : ConfigLoad) : RemovalOperationError :=
  match loaded with
  | ConfigTimedOut =>
      planning_error "TIMEOUT" "account removal planning timed out"
        [("operation", JString "account_remove"); ("state", JNull)] kTimeout
  | ConfigCancelled =>
      planning_error "INTERNAL" "account removal planning was cancelled"
        [("operation", JString "account_remove"); ("reason", JString "internal_error")] kGeneric
  | ConfigUnusable reason =>
      planning_error "CONFIG_INVALID" "cannot use current config.toml"
        [("path", JString path); ("reason", JString (value_or reason "io_error"))] kGeneric
  | ConfigLoaded _ => planning_error "CONFIG_INVALID" "cannot use current config.toml" [] kGeneric
  end.

Definition reason_or_invalid (reason : string) : string :=
  if str_empty reason then "path_invalid" else reason.

Definition sorted_paths (paths : string * string) : json :=
  JArray (map JString (sort_strings [fst paths; snd paths])).

Definition root_failure (acct : string) (paths : string * string) (reason : string) :
    RemovalOperationError :=
  planning_error "LOCAL_CLEANUP_FAILED" "account roots cannot be safely removed"
    [("account", JString acct); ("reason", JString (reason_or_invalid reason)); ("removed", JArray []);
     ("retained", sorted_paths paths)] kGeneric.

Definition failure_reason (f : failure) : string :=
  match f with Rejected reason => reason | Thrown => EmptyString end.

Definition audit_unavailable_details (acct path reason : string) : list (string * json) :=
  [("account", JString acct); ("path", JString path); ("reason", JString reason)].

Definition removal_incomplete (acct path : string) (t : RemovalTombstone) (message reason : string) :
    RemovalOperationError :=
  planning_error "REMOVAL_INCOMPLETE" message
    [("account", JString acct); ("path", JString path); ("invocation_id", JString (t_invocation_id t));
     ("stage", JString (audit_stage_name (stage t)));
     ("completed_stages", serialize_stages (completed_stages t)); ("reason", JString reason)] kGeneric.

(** The parts of the daemon that do not change: the routed account, its
    environment, and the paths of the configuration and of the journal. *)
Record Coordinator := {
  account_ : string; environment_ : Environment; store_path : string; journal_directory : string }.

Definition audit_path (c : Coordinator) : string := journal_directory c +++ "/audit.log".

Definition tombstone_path (c : Coordinator) (invocation : string) : string :=
  journal_directory c +++ "/" +++ invocation +++ ".json".

(** The plan of a removal that was interrupted. *)
Definition resumed_removal (t : RemovalTombstone) (snapshot : ConfigSnapshot) : PlannedAccountRemoval :=
  let i := input_ (plan t) in
  {| p_plan := plan t;
     p_data_root := {| root_path := fst (delete_paths i); root_identity := data_root i |};
     p_state_root := {| root_path := snd (delete_paths i); root_identity := state_root i |};
     p_config := snapshot; p_account_config := find_in (t_account t) (accounts snapshot);
     p_recovery := Some t |}.

(** A fresh plan: [None] as a path or a root that throws. *)
Definition plan_fresh (c : Coordinator) (snapshot : ConfigSnapshot) (acct : string) (keep : bool)
    (requested : option string) : prog_ (result RemovalOperationError PlannedAccountRemoval) :=
  match find_in acct (accounts snapshot) with
  | None =>
      pure (Err (planning_error "ACCOUNT_NOT_FOUND" "account is not configured"
                   [("account", JString acct)] kNotFound))
  | Some found =>
      match resulting_default snapshot acct requested with
      | Err error => pure (Err error)
      | Ok default =>
          match account_data_dir acct (environment_ c), account_state_dir acct (environment_ c) with
          | Ok d0, Ok d1 =>
              data <- act (CaptureRoot d0) ;;
              match data with
              | Err reason => pure (Err (root_failure acct (d0, d1) reason))
              | Ok data =>
                  state <- act (CaptureRoot d1) ;;
                  match state with
                  | Err reason => pure (Err (root_failure acct (d0, d1) reason))
                  | Ok state =>
                      match make_account_remove_plan
                              {| account := acct; keep_session := keep; delete_paths := (d0, d1);
                                 config_path := store_path c; config_snapshot := identity snapshot;
                                 data_root := data; state_root := state; reassign_default := default |} with
                      | Err _ =>
                          pure (Err (planning_error "CONFIG_INVALID" "account removal paths are invalid"
                                       [("path", JString (store_path c)); ("reason", JString "path_invalid")]
                                       kGeneric))
                      | Ok p =>
                          pure (Ok {| p_plan := p;
                                      p_data_root := {| root_path := d0; root_identity := data |};
                                      p_state_root := {| root_path := d1; root_identity := state |};
                                      p_config := snapshot; p_account_config := Some found;
                                      p_recovery := None |})
                      end
                  end
              end
          | _, _ => Ret Raise
          end
      end
  end.

Definition plan_account_removal (c : Coordinator) (acct : string) (keep : bool) (requested : option string) :
    prog_ (result RemovalOperationError PlannedAccountRemoval) :=
  if negb (valid_account_name acct) then
    pure (Err (planning_error "USAGE" "invalid account name"
                 [("argument", JString "name"); ("reason", JString "invalid_argument")] kUsage))
  else
    inspected <- act (InspectAccount acct) ;;
    match inspection inspected with
    | InspectionInvalid reason =>
        let path := if str_empty (inspected_path inspected) then journal_directory c
                    else inspected_path inspected in
        pure (Err (planning_error "AUDIT_UNAVAILABLE" "removal journal cannot be inspected"
                     (audit_unavailable_details acct path (reason_or_invalid (failure_reason reason)))
                     kDenied))
    | InspectionIncomplete t =>
        loaded <- act LoadConfig ;;
        match loaded with
        | ConfigLoaded snapshot =>
            if negb (Bool.eqb (keep_session (input_ (plan t))) keep)
               || match requested with
                  | Some _ => negb (eqb (reassign_default (input_ (plan t))) requested)
                  | None => false
                  end
            then pure (Err (removal_incomplete acct (inspected_path inspected) t
                              "removal retry does not match the durable plan" "identity_ambiguous"))
            else pure (Ok (resumed_removal t snapshot))
        | _ => pure (Err (config_failure (store_path c) loaded))
        end
    | InspectionClean =>
        loaded <- act LoadConfig ;;
        match loaded with
        | ConfigLoaded snapshot => plan_fresh c snapshot acct keep requested
        | _ => pure (Err (config_failure (store_path c) loaded))
        end
    end.

(** * Preflight *)

(** [preflight_account_removal_journal]: an interrupted removal blocks the account. *)
Definition preflight (c : Coordinator) (acct : string) : prog_ bool :=
  inspected <- act (InspectAccount acct) ;;
  match inspection inspected with
  | InspectionClean => pure true
  | InspectionIncomplete t =>
      act (SessionError (removal_incomplete (t_account t) (inspected_path inspected) t
                           "account removal requires an explicit retry" "prior_crash")) ;;;
      pure false
  | InspectionInvalid reason =>
      let path := if str_empty (inspected_path inspected) then journal_directory c
                  else inspected_path inspected in
      act (SessionError (planning_error "AUDIT_UNAVAILABLE" "removal journal cannot be inspected"
                           (audit_unavailable_details acct path (reason_or_invalid (failure_reason reason)))
                           kDenied)) ;;;
      pure false
  end.

(** * The transaction *)

Record TransactionState := {
  fatal : bool;
  client_quiesced : bool;
  terminal_ready : bool;
  terminal_error : option RemovalOperationError;
  terminal_result : option json;
  current_config : ConfigSnapshot
}.

Definition set_fatal (s : TransactionState) : TransactionState :=
  {| fatal := true; client_quiesced := client_quiesced s; terminal_ready := terminal_ready s;
     terminal_error := terminal_error s; terminal_result := terminal_result s;
     current_config := current_config s |}.

Definition set_error (error : RemovalOperationError) (s : TransactionState) : TransactionState :=
  {| fatal := fatal s; client_quiesced := client_quiesced s; terminal_ready := true;
     terminal_error := Some error; terminal_result := terminal_result s;
     current_config := current_config s |}.

Definition set_result (value : json) (s : TransactionState) : TransactionState :=
  {| fatal := fatal s; client_quiesced := client_quiesced s; terminal_ready := true;
     terminal_error := terminal_error s; terminal_result := Some value;
     current_config := current_config s |}.

Definition set_quiesced (s : TransactionState) : TransactionState :=
  {| fatal := fatal s; client_quiesced := true; terminal_ready := terminal_ready s;
     terminal_error := terminal_error s; terminal_result := terminal_result s;
     current_config := current_config s |}.

Definition set_config (snapshot : ConfigSnapshot) (s : TransactionState) : TransactionState :=
  {| fatal := fatal s; client_quiesced := client_quiesced s; terminal_ready := terminal_ready s;
     terminal_error := terminal_error s; terminal_result := terminal_result s;
     current_config := snapshot |}.

Definition message_for (c : string) : string :=
  if String.eqb c "REMOTE_LOGOUT_UNCONFIRMED" then "remote logout could not be confirmed"
  else if String.eqb c "LOCAL_CLEANUP_FAILED" then "local account cleanup failed"
  else if String.eqb c "CONFIG_CONFLICT" then "config.toml changed before account removal"
  else if String.eqb c "DAEMON_SHUTDOWN" then "daemon is shutting down"
  else if String.eqb c "TIMEOUT" then "account removal timed out"
  else if String.eqb c "RATE_LIMITED" then "Telegram rate limit"
  else if String.eqb c "TDLIB_ERROR" then "TDLib account removal request failed"
  else "account removal failed".

Definition exit_for (c : string) : Z :=
  if str_in c ["USAGE"; "DEFAULT_REASSIGNMENT_REQUIRED"] then kUsage
  else if String.eqb c "ACCOUNT_NOT_FOUND" then kNotFound
  else if str_in c ["WRITE_DENIED"; "CONFIRMATION_REQUIRED"; "AUTH_FUNCTION_DENIED"; "AUDIT_UNAVAILABLE"]
  then kDenied
  else if String.eqb c "RATE_LIMITED" then kRateLimited
  else if String.eqb c "TIMEOUT" then kTimeout
  else kGeneric.

Definition remote_result_from (t : RemovalTombstone) : AccountRemoveRemoteResult :=
  if has_stage (completed_stages t) RemoteConfirmed then Confirmed
  else if has_stage (completed_stages t) RemoteKept then Kept
  else NotPresent.

Definition config_mutation_reassignment (planned : PlannedAccountRemoval) : option string :=
  if eqb (default_account (p_config planned)) (Some (account (input_ (p_plan planned))))
     && (1 <? List.length (accounts (p_config planned)))%nat
  then reassign_default (input_ (p_plan planned)) else None.

Section transaction.
Context (c : Coordinator) (removal : PlannedAccountRemoval) (invocation : string)
  (authority : AuthoritySource) (confirmation : ConfirmationSource).

Definition fatally {A} (a : A) (s : TransactionState) : prog_ (A * TransactionState) :=
  act AuditFatal ;;; pure (a, set_fatal s).

Definition checkpoint (stage : AuditStage) (s : TransactionState) : prog_ (bool * TransactionState) :=
  advanced <- act (AdvanceTombstone invocation stage) ;;
  match advanced with
  | Ok _ => pure (true, s)
  | Err _ => fatally false s
  end.

Definition load_tombstone (s : TransactionState) : prog_ (option RemovalTombstone * TransactionState) :=
  tombstone <- act (LoadTombstone invocation) ;;
  match tombstone with
  | Some t => pure (Some t, s)
  | None => fatally None s
  end.

(** Continues with the loaded tombstone, or fails. *)
Definition with_tombstone (s : TransactionState)
    (k : RemovalTombstone -> TransactionState -> prog_ (bool * TransactionState)) :
    prog_ (bool * TransactionState) :=
  loaded <- load_tombstone s ;;
  match loaded with
  | (Some t, s) => k t s
  | (None, s) => pure (false, s)
  end.

(** [if (!checkpoint(stage)) return false; ...]. *)
Definition checkpointed (stage : AuditStage) (s : TransactionState)
    (k : TransactionState -> prog_ (bool * TransactionState)) : prog_ (bool * TransactionState) :=
  done <- checkpoint stage s ;;
  match done with
  | (true, s) => k s
  | (false, s) => pure (false, s)
  end.

Definition restore_terminal (outcome : json) (s : TransactionState) : prog_ (bool * TransactionState) :=
  let error := jget outcome "error" in
  if eq_bool (jget outcome "success") true
  then pure (negb (fatal s), set_result (jget outcome "result") s)
  else if contains outcome "error" && is_object error && contains error "code"
          && is_string (jget error "code") && contains error "details"
  then
    let cd := get_string (jget error "code") in
    pure (negb (fatal s),
          set_error {| r_code := cd; r_message := message_for cd;
                       r_details := jget error "details"; r_exit_code := exit_for cd |} s)
  else fatally false s.

Definition sync_existing_outcome (s : TransactionState) : prog_ (bool * TransactionState) :=
  outcome <- act (AuditedOutcome invocation) ;;
  match outcome with
  | None => fatally false s
  | Some outcome =>
      done <- checkpoint OutcomeSynced s ;;
      match done with
      | (true, s) => restore_terminal outcome s
      | (false, s) => fatally false s
      end
  end.

Definition record_identity : prog_ AuditRecordIdentity :=
  now <- act CurrentTimestamp ;; pure {| invocation_id := invocation; timestamp := now |}.

(** Appends an outcome and records that it is durable. *)
Definition finish_outcome (outcome : result failure json)
    (finished : json -> TransactionState -> TransactionState) (s : TransactionState) :
    prog_ (bool * TransactionState) :=
  match outcome with
  | Err Thrown => Ret Raise
  | Err (Rejected _) => fatally false s
  | Ok outcome =>
      appended <- act (AppendOutcome outcome) ;;
      match appended with
      | Err _ => fatally false s
      | Ok _ =>
          done <- checkpoint OutcomeSynced s ;;
          match done with
          | (true, s) => pure (true, finished outcome s)
          | (false, s) => fatally false s
          end
      end
  end.

Definition record_failure (error : RemovalOperationError) (s : TransactionState) :
    prog_ (bool * TransactionState) :=
  with_tombstone s (fun t s =>
    match parse_structured_outcome_error
            (jobject [("code", JString (r_code error)); ("details", r_details error)]) with
    | Err f => finish_outcome (Err f) (fun _ => set_error error) s
    | Ok structured =>
        ident <- record_identity ;;
        finish_outcome
          (reported (make_failure_audit_outcome ident (PAccountRemove (p_plan removal))
                       (completed_stages t) structured))
          (fun _ => set_error error) s
    end).

Definition audit_unavailable (reason : string) (s : TransactionState) : TransactionState :=
  set_error (planning_error "AUDIT_UNAVAILABLE" "removal audit is unavailable"
               (audit_unavailable_details (account_ c) (audit_path c) reason) kDenied) s.

Definition ensure_intent (s : TransactionState) : prog_ (bool * TransactionState) :=
  presence <- act (AuditPresence invocation) ;;
  match presence with
  | None => fatally false s
  | Some presence =>
      if has_intent presence then checkpoint IntentSynced s
      else
        ident <- record_identity ;;
        match make_account_remove_audit_intent ident (p_plan removal) authority confirmation with
        | Err reason =>
            pure (false, audit_unavailable (if str_empty reason then "write_failed" else reason) s)
        | Ok intent =>
            appended <- act (AppendIntent intent) ;;
            match appended with
            | Err reason =>
                pure (false, audit_unavailable (if str_empty reason then "write_failed" else reason) s)
            | Ok _ => checkpoint IntentSynced s
            end
        end
  end.

Definition observe_facts (s : TransactionState) : prog_ (option RemovalRecoveryFacts) :=
  data <- act (ObserveRoot (p_data_root removal) invocation DataRoot) ;;
  state <- act (ObserveRoot (p_state_root removal) invocation StateRoot) ;;
  presence <- act (AuditPresence invocation) ;;
  match data, state, presence with
  | Some data, Some state, Some presence =>
      pure (Some {| config := current_config s; data := data; state := state; audit := presence |})
  | _, _, _ => pure None
  end.

(** The checkpoints that the remote side asks for while it proves the logout. *)
Fixpoint remote_checkpoints (stages : list AuditStage) (s : TransactionState) : prog_ TransactionState :=
  match stages with
  | [] => pure s
  | stage :: rest => done <- checkpoint stage s ;; remote_checkpoints rest (snd done)
  end.

Definition proof_is_durable (result : AccountRemoveRemoteResult) (t : RemovalTombstone) : bool :=
  match result, stage t with
  | Confirmed, RemoteConfirmed | NotPresent, RemoteNotPresent => true
  | _, _ => false
  end.

Definition internal_error (message : string) : RemovalOperationError :=
  planning_error "INTERNAL" message
    [("operation", JString "account_remove"); ("reason", JString "internal_error")] kGeneric.

(** The loop goes on, or returns. *)
Inductive Loop := Again (s : TransactionState) | Done (result : bool) (s : TransactionState).

Definition or_done (ok : bool) (s : TransactionState) : Loop := if ok then Again s else Done false s.

Definition reevaluate_remote (t : RemovalTombstone) (s : TransactionState) : prog_ Loop :=
  if keep_session (input_ (p_plan removal)) then
    done <- checkpoint RemoteKept s ;; pure (or_done (fst done) (snd done))
  else
    answer <- act (ProveRemoteLogout (p_plan removal) (eqb (stage t) RemoteLogoutSendStarted)) ;;
    s <- remote_checkpoints (fst answer) s ;;
    match snd answer with
    | RemoteError error =>
        if fatal s then pure (Done false s)
        else recorded <- record_failure error s ;; pure (Done false (snd recorded))
    | RemoteProof result =>
        loaded <- load_tombstone s ;;
        let s := snd loaded in
        if match fst loaded with Some proven => proof_is_durable result proven | None => false end
        then pure (Again s)
        else if fatal s then pure (Done false s)
        else
          recorded <- record_failure (internal_error "remote proof lacks a durable checkpoint") s ;;
          pure (Done false (snd recorded))
    end.

Definition quiesce_client (t : RemovalTombstone) (s : TransactionState) : prog_ Loop :=
  started <-
    (if eqb (stage t) ClientCloseStarted then pure (true, s) else checkpoint ClientCloseStarted s) ;;
  if negb (fst started) then pure (Done false (snd started))
  else
    let s := set_quiesced (snd started) in
    failed <- act Quiesce ;;
    match failed with
    | Some error => recorded <- record_failure error s ;; pure (Done false (snd recorded))
    | None => done <- checkpoint ClientClosed s ;; pure (or_done (fst done) (snd done))
    end.

(** One turn of [execute_until_config]. *)
Definition recovery_turn (s : TransactionState) : prog_ Loop :=
  loaded <- load_tombstone s ;;
  match loaded with
  | (None, s) => pure (Done false s)
  | (Some t, s) =>
      facts <- observe_facts s ;;
      match facts with
      | None => failed <- fatally tt s ;; pure (Done false (snd failed))
      | Some facts =>
          match decide_removal_recovery t facts with
          | None =>
              pure (Done false
                      (set_error
                         (planning_error "REMOVAL_INCOMPLETE"
                            "removal state no longer matches its durable plan"
                            [("account", JString (account_ c));
                             ("path", JString (tombstone_path c invocation));
                             ("invocation_id", JString invocation);
                             ("stage", JString (audit_stage_name (stage t)));
                             ("completed_stages", serialize_stages (completed_stages t));
                             ("reason", JString "identity_ambiguous")] kGeneric) s))
          | Some EnsureIntent => done <- ensure_intent s ;; pure (or_done (fst done) (snd done))
          | Some ReevaluateRemote => reevaluate_remote t s
          | Some QuiesceClient => quiesce_client t s
          | Some BeginConfigRemoval | Some RetryConfigRemoval =>
              done <- checkpoint ConfigRemoveStarted s ;; pure (Done (fst done) (snd done))
          | Some RecordOutcomeSynced =>
              synced <- sync_existing_outcome s ;; pure (Done false (snd synced))
          | Some RecordConfigRemoved | Some FinishDataRemoval | Some FinishStateRemoval
          | Some EnsureOutcome | Some Complete => pure (Done false s)
          end
      end
  end.

(** The loop, for at most [fuel] turns; out of fuel it would go on. *)
Fixpoint execute_until_config (fuel : nat) (s : TransactionState) : prog_ (option bool * TransactionState) :=
  match fuel with
  | O => pure (None, s)
  | Datatypes.S fuel =>
      turn <- recovery_turn s ;;
      match turn with
      | Again s => execute_until_config fuel s
      | Done result s => pure (Some result, s)
      end
  end.

Definition cleanup_error (message reason : string) (removed retained : json) : RemovalOperationError :=
  planning_error "LOCAL_CLEANUP_FAILED" message
    [("account", JString (account_ c)); ("reason", JString reason); ("removed", removed);
     ("retained", retained)] kGeneric.

(** [control.pre_commit]; [created]: the tombstone is there. *)
Definition pre_commit (fuel : nat) (created : bool) (s : TransactionState) :
    prog_ (option bool * bool * TransactionState) :=
  let p := p_plan removal in
  let run s := done <- execute_until_config fuel s ;; pure (fst done, true, snd done) in
  let changed reason :=
    set_error (cleanup_error "account roots changed after confirmation" reason (JArray [])
                 (sorted_paths (delete_paths (input_ p)))) s in
  if created then run s
  else
    data <- act (RevalidateRoot (p_data_root removal)) ;;
    match data with
    | Err reason => pure (Some false, false, changed reason)
    | Ok _ =>
        state <- act (RevalidateRoot (p_state_root removal)) ;;
        match state with
        | Err reason => pure (Some false, false, changed reason)
        | Ok _ =>
            made <- act (CreateTombstone invocation p) ;;
            match made with
            | Err reason => pure (Some false, false, audit_unavailable reason s)
            | Ok _ => run s
            end
        end
    end.

(** [control.already_committed_admission]. *)
Definition already_committed_admission (created : bool) (current : ConfigSnapshot) (s : TransactionState) :
    prog_ (bool * TransactionState) :=
  if negb created then pure (false, s)
  else
    let s := set_config current s in
    with_tombstone s (fun t s =>
      facts <- observe_facts s ;;
      match facts with
      | None => pure (false, s)
      | Some facts =>
          pure (match decide_removal_recovery t facts with
                | Some RecordConfigRemoved | Some FinishDataRemoval | Some FinishStateRemoval
                | Some EnsureOutcome | Some RecordOutcomeSynced | Some Complete => true
                | _ => false
                end, s)
      end).

(** Deletes a root whose removal has started, and records that it is gone. *)
Definition delete_root (t : RemovalTombstone) (started gone : AuditStage) (root : CapturedRemovalRoot)
    (label : Label) (failed : string -> RemovalOperationError) (s : TransactionState)
    (k : TransactionState -> prog_ (bool * TransactionState)) : prog_ (bool * TransactionState) :=
  if eqb (stage t) started then
    deleted <- act (DeleteRoot root invocation label) ;;
    match deleted with
    | Err reason => record_failure (failed reason) s
    | Ok _ => checkpointed gone s k
    end
  else k s.

(** A checkpoint that only one stage asks for. *)
Definition checkpoint_from (t : RemovalTombstone) (from next : AuditStage) (s : TransactionState)
    (k : TransactionState -> prog_ (bool * TransactionState)) : prog_ (bool * TransactionState) :=
  if eqb (stage t) from then checkpointed next s k else k s.

Definition finish_removal (s : TransactionState) : prog_ (bool * TransactionState) :=
  with_tombstone s (fun t s =>
    if negb (eqb (stage t) StateRemoved) then pure (false, s)
    else
      ident <- record_identity ;;
      finish_outcome
        (reported (make_account_remove_success_audit_outcome ident (p_plan removal) (remote_result_from t)
                     (completed_stages t)))
        (fun outcome => set_result (jget outcome "result")) s).

(** The post-config half, from the stage the journal shows. *)
Definition delete_roots (s : TransactionState) : prog_ (bool * TransactionState) :=
  let paths := delete_paths (input_ (p_plan removal)) in
  with_tombstone s (fun t s =>
    checkpoint_from t ConfigRemoved DataRemoveStarted s (fun s =>
  with_tombstone s (fun t s =>
    delete_root t DataRemoveStarted DataRemoved (p_data_root removal) DataRoot
      (fun reason => cleanup_error "data root cleanup failed" reason (JArray []) (sorted_paths paths)) s
      (fun s =>
  with_tombstone s (fun t s =>
    checkpoint_from t DataRemoved StateRemoveStarted s (fun s =>
  with_tombstone s (fun t s =>
    delete_root t StateRemoveStarted StateRemoved (p_state_root removal) StateRoot
      (fun reason => cleanup_error "state root cleanup failed" reason (JArray [JString (fst paths)])
                       (JArray [JString (snd paths)])) s
      finish_removal))))))).

(** [control.post_commit]. *)
Definition post_commit (s : TransactionState) : prog_ (bool * TransactionState) :=
  with_tombstone s (fun t s =>
    if eqb (stage t) OutcomeSynced then
      outcome <- act (AuditedOutcome invocation) ;;
      match outcome with
      | None => fatally false s
      | Some outcome => restore_terminal outcome s
      end
    else
      presence <- act (AuditPresence invocation) ;;
      match presence with
      | None => fatally false s
      | Some presence =>
          if has_outcome presence then sync_existing_outcome s
          else checkpoint_from t ConfigRemoveStarted ConfigRemoved s delete_roots
      end).

Definition mutation_of (status : MutationStatus) (ident reason : option string) : MutationResult :=
  {| mutation_status := status; mutation_identity := ident; mutation_reason := reason |}.

(** What follows a durable configuration. *)
Definition finalize (ident : option string) (s : TransactionState) : prog_ (option MutationResult * TransactionState) :=
  done <- post_commit s ;;
  if fst done then pure (Some (mutation_of Applied ident None), snd done)
  else pure (Some (mutation_of DurabilityUnknown ident (Some "sync_error")), snd done).

(** config::Store::remove_account, with the callbacks where [mutate] runs them.
    [None]: the loop of the transaction would go on. *)
Definition remove_account (fuel : nat) (created : bool) (s : TransactionState) :
    prog_ (option MutationResult * TransactionState) :=
  start <- act (StartMutation (config_snapshot (input_ (p_plan removal))) (account_ c)
                  (config_mutation_reassignment removal)) ;;
  match start with
  | MutationFailed result => pure (Some result, s)
  | IdentityDiffers current =>
      admitted <- already_committed_admission created current s ;;
      if fst admitted then finalize (Some (identity current)) (snd admitted)
      else pure (Some (mutation_of Conflict (Some (identity current)) None), snd admitted)
  | ReplacementWritten =>
      prepared <- pre_commit fuel created s ;;
      match prepared with
      | (None, _, s) => pure (None, s)
      | (Some false, _, s) => pure (Some (mutation_of PreconditionFailed None None), s)
      | (Some true, _, s) =>
          committed <- act CommitMutation ;;
          match committed with
          | Some failed => pure (Some failed, s)
          | None => finalize None s
          end
      end
  end.

(** What the session is told at the end. *)
Definition report (mutation : MutationResult) (s : TransactionState) : prog_ unit :=
  if fatal s then pure tt
  else if terminal_ready s then
    match terminal_error s, terminal_result s with
    | Some error, _ => act (SessionError error)
    | None, Some result => act (SessionResult result)
    | None, None => pure tt
    end ;;;
    if client_quiesced s then act ShutdownAfterTerminal else pure tt
  else
    match mutation_status mutation with
    | Conflict =>
        act (SessionError
               (planning_error "CONFIG_CONFLICT" "config.toml changed before account removal"
                  [("path", JString (store_path c));
                   ("expected", JString (config_snapshot (input_ (p_plan removal))));
                   ("current", JString (value_or (mutation_identity mutation) "missing"))] kGeneric))
    | MutationTimedOut =>
        act (SessionError
               (planning_error "TIMEOUT" "account removal timed out"
                  [("operation", JString "account_remove"); ("state", JNull)] kTimeout))
    | MutationCancelled | Applied => pure tt
    | _ =>
        act (SessionError
               (planning_error "CONFIG_INVALID" "account config removal failed"
                  [("path", JString (store_path c));
                   ("reason", JString (value_or (mutation_reason mutation) "io_error"))] kGeneric))
    end.
End transaction.

(** * The command *)

Record ParsedArguments := { a_account : string; a_keep_session : bool; a_reassign_default : option string }.

Definition parse_arguments (request : Request) : result RemovalOperationError ParsedArguments :=
  let field k := jget (args request) k in
  if negb (is_object (args request)) || negb (Nat.eqb (jsize (args request)) 4)
     || negb (contains (args request) "account") || negb (is_string (field "account"))
     || negb (contains (args request) "global_account_supplied")
     || negb (is_boolean (field "global_account_supplied"))
     || negb (contains (args request) "keep_session") || negb (is_boolean (field "keep_session"))
     || negb (contains (args request) "reassign_default")
     || (negb (is_null (field "reassign_default")) && negb (is_string (field "reassign_default")))
  then Err (planning_error "USAGE" "invalid account removal arguments"
              [("argument", JNull); ("reason", JString "invalid_argument")] kUsage)
  else if get_bool (field "global_account_supplied")
  then Err (planning_error "USAGE" "--account cannot target an account subcommand"
              [("argument", JString "--account"); ("reason", JString "mutually_exclusive")] kUsage)
  else Ok {| a_account := get_string (field "account"); a_keep_session := get_bool (field "keep_session");
             a_reassign_default :=
               if is_null (field "reassign_default") then None
               else Some (get_string (field "reassign_default")) |}.

(** [session.error(...); return;]. *)
Definition fail_with {A} (error : RemovalOperationError) : prog_ A :=
  act (SessionError error) ;;; return_ tt.

Definition removal_prompt (acct : string) (p : AccountRemovePlan) : string :=
  if keep_session (input_ p)
  then "Remove local account " +++ str1 dquote +++ acct +++ str1 dquote +++ " while keeping its Telegram session? [y/N] "
  else "Remove account " +++ str1 dquote +++ acct +++ str1 dquote +++ " and log out remotely? [y/N] ".

(** The confirmation of the plan; returns without one. *)
Definition confirm (c : Coordinator) (request : Request) (p : AccountRemovePlan) : prog_ ConfirmationSource :=
  if yes (context request) then pure ConfirmYes
  else
    answer <- act (Challenge (removal_prompt (account_ c) p)
                     (jobject [("action", JString "account_remove"); ("target", serialize_account_remove p)])) ;;
    match answer with
    | Answered (Some true) => pure ConfirmTty
    | _ =>
        finished <- act HasTerminal ;;
        if finished || match answer with NotAnswered silent => silent | Answered _ => false end
        then return_ tt
        else fail_with (planning_error "CONFIRMATION_REQUIRED" "account removal was not confirmed"
                          [("account", JString (account_ c)); ("action", JString "account_remove");
                           ("target", serialize_account_remove p)] kDenied)
    end.

Definition authorise (c : Coordinator) (request : Request) (removal : PlannedAccountRemoval) :
    prog_ AuthoritySource :=
  match evaluate_destructive_authority (context request)
          {| grant_valid := present (p_account_config removal);
             allow_write := match p_account_config removal with Some allow => allow | None => false end |} with
  | GrantedAuthority source => pure source
  | DeniedAuthority reason =>
      fail_with (planning_error "WRITE_DENIED" "account removal requires write authority"
                   [("account", JString (account_ c)); ("reason", JString (write_denial_reason_name reason))]
                   kDenied)
  | DryRunAuthority => fail_with (internal_error "account removal authority decision is invalid")
  end.

Definition initial_state (removal : PlannedAccountRemoval) : TransactionState :=
  {| fatal := false; client_quiesced := false; terminal_ready := false; terminal_error := None;
     terminal_result := None; current_config := p_config removal |}.

(** [remove], up to the transaction: the plan, confirmed and authorised. *)
Definition admit_removal (c : Coordinator) (request : Request) :
    prog_ (PlannedAccountRemoval * string * AuthoritySource * ConfirmationSource) :=
  match parse_arguments request with
  | Err error => fail_with error
  | Ok arguments =>
      if negb (String.eqb (a_account arguments) (account_ c)) || negb (String.eqb (req_account request) (account_ c))
      then fail_with (planning_error "ACCOUNT_MISMATCH" "removal target does not match the routed daemon"
                        [("requested_account", JString (a_account arguments));
                         ("daemon_account", JString (account_ c))] kNotFound)
      else
        planned <- plan_account_removal c (a_account arguments) (a_keep_session arguments)
                     (a_reassign_default arguments) ;;
        match planned with
        | Err error => fail_with error
        | Ok removal =>
            if dry_run (context request)
            then act (SessionResult (jobject [("dry_run", JBool true);
                                              ("plan", serialize_account_remove (p_plan removal))])) ;;;
                 return_ tt
            else
              source <- authorise c request removal ;;
              confirmation <- confirm c request (p_plan removal) ;;
              invocation <- match p_recovery removal with
                            | Some t => pure (t_invocation_id t)
                            | None => act NewInvocation
                            end ;;
              if str_empty invocation
              then fail_with (planning_error "AUDIT_UNAVAILABLE" "cannot create removal audit identity"
                                (audit_unavailable_details (account_ c) (audit_path c) "open_failed") kDenied)
              else pure (removal, invocation, source, confirmation)
        end
  end.

Definition remove (c : Coordinator) (fuel : nat) (request : Request) : prog_ unit :=
  admitted <- admit_removal c request ;;
  let '(removal, invocation, source, confirmation) := admitted in
  designated <- act BeginAuditedTerminal ;;
  match designated with
  | TerminalShutdown =>
      fail_with (planning_error "DAEMON_SHUTDOWN" "daemon is shutting down"
                   [("reason", JString "daemon_shutdown")] kGeneric)
  | TerminalTimedOut =>
      fail_with (planning_error "TIMEOUT" "account removal timed out"
                   [("operation", JString "account_remove"); ("state", JNull)] kTimeout)
  | TerminalOther => return_ tt
  | TerminalDesignated =>
      result <- remove_account c removal invocation source confirmation fuel
                  (present (p_recovery removal)) (initial_state removal) ;;
      match result with
      | (Some mutation, s) => report c removal mutation s
      | (None, _) => pure tt
      end
  end.
