(* ===== verification/RemovalWorld.v ===== *)
(** What the effects of an account removal do to the world: the journal, the
    configuration and the two directories, when nothing but removals of the
    account changes them while one is under way.  Every effect can fail or throw,
    having made its change, a part of it or none, and the process can stop after
    any effect.

    [unfinished] relates the stage of a tombstone to what the world looks like,
    [guard] says when an effect may be made. *)
From S2P Require Import Prelude Json Paths DestructivePlan Frame DestructiveContract RemovalJournal Effects AccountRemoval.

(** * The world *)

#[export] Instance RootIdentity_eq_dec : EqDec RootIdentity.
Proof.
  intros [p d i o] [p' d' i' o'].
  destruct (eq_dec p p'), (eq_dec d d'), (eq_dec i i'), (eq_dec o o');
    (left; congruence) || (right; congruence).
Defined.

(** A directory of the account: not there, at its path, or moved to the name that
    the removal under way deletes it under. *)
Inductive Directory := Nothing | InPlace (i : RootIdentity) | Moved (i : RootIdentity).

Record Disk := {
  tombstone : option RemovalTombstone;   (** the latest tombstone of the account *)
  log : option AuditScan;                (** what a scan of the log gives, unless it fails *)
  cfg : ConfigSnapshot;
  replacement : option ConfigSnapshot;   (** the configuration that is written, not committed *)
  dirs : string -> Directory;
  quiesced : bool                        (** the client was closed for this removal *)
}.

Definition set_tombstone (t : RemovalTombstone) (w : Disk) : Disk :=
  {| tombstone := Some t; log := log w; cfg := cfg w; replacement := replacement w; dirs := dirs w;
     quiesced := quiesced w |}.

Definition set_log (l : option AuditScan) (w : Disk) : Disk :=
  {| tombstone := tombstone w; log := l; cfg := cfg w; replacement := replacement w; dirs := dirs w;
     quiesced := quiesced w |}.

Definition set_cfg (snapshot : ConfigSnapshot) (w : Disk) : Disk :=
  {| tombstone := tombstone w; log := log w; cfg := snapshot; replacement := replacement w;
     dirs := dirs w; quiesced := quiesced w |}.

Definition set_replacement (snapshot : option ConfigSnapshot) (w : Disk) : Disk :=
  {| tombstone := tombstone w; log := log w; cfg := cfg w; replacement := snapshot; dirs := dirs w;
     quiesced := quiesced w |}.

Definition set_dir (at_path : string) (d : Directory) (w : Disk) : Disk :=
  {| tombstone := tombstone w; log := log w; cfg := cfg w; replacement := replacement w;
     dirs := fun p => if String.eqb p at_path then d else dirs w p; quiesced := quiesced w |}.

Definition close_client (w : Disk) : Disk :=
  {| tombstone := tombstone w; log := log w; cfg := cfg w; replacement := replacement w;
     dirs := dirs w; quiesced := true |}.

(** A new removal knows no client that was closed for it, and nothing of what
    earlier removals moved away. *)
Definition begun (t : RemovalTombstone) (w : Disk) : Disk :=
  {| tombstone := Some t; log := log w; cfg := cfg w; replacement := replacement w;
     dirs := fun p => match dirs w p with Moved _ => Nothing | d => d end; quiesced := false |}.

Definition finished (t : RemovalTombstone) : bool := eqb (stage t) OutcomeSynced.

Definition idle (w : Disk) : Prop := forall t, tombstone w = Some t -> finished t = true.

(** * The effects *)

Definition knows (invocation : string) (scan : AuditScan) : bool :=
  has_key invocation (pending scan) || str_in invocation (completed scan).

Definition presence_in (invocation : string) (scan : AuditScan) : RemovalAuditPresence :=
  {| has_intent := knows invocation scan; has_outcome := str_in invocation (completed scan) |}.

(** No record, and no tombstone, of the invocation. *)
Definition unused (invocation : string) (w : Disk) : Prop :=
  (forall t, tombstone w = Some t -> t_invocation_id t <> invocation) /\
  (forall scan, log w = Some scan ->
     knows invocation scan = false /\ find_in invocation (outcomes scan) = None).

(** Rotation may drop groups of records. *)
Definition rotated (scan kept : AuditScan) : Prop :=
  forall invocation,
    (knows invocation kept = true -> knows invocation scan = true) /\
    (forall o, find_in invocation (outcomes kept) = Some o -> find_in invocation (outcomes scan) = Some o).

(** A line that the scan refuses makes the log unreadable. *)
Definition appended (record : json) (scan : AuditScan) : option AuditScan :=
  match consume_audit_record record "audit.log" scan with Ok scan => Some scan | Err _ => None end.

(** What is left by an append that failed: nothing, the line, or a part of it. *)
Definition append_leaves (record : json) (l l' : option AuditScan) : Prop :=
  l' = l \/ l' = None \/ exists scan, l = Some scan /\ l' = appended record scan.

Definition observation (root : CapturedRemovalRoot) (d : Directory) : RemovalRootObservation :=
  match root_identity root, d with
  | None, Nothing => PlannedAbsent
  | None, _ => Changed
  | Some _, Nothing => Absent
  | Some i, InPlace j => if eqb i j then Captured else Changed
  | Some i, Moved j => if eqb i j then Staged else Changed
  end.

Definition is_captured (identity : option RootIdentity) (d : Directory) : Prop :=
  match identity, d with
  | None, InPlace _ => False
  | None, _ => True
  | Some i, InPlace j => i = j
  | Some _, _ => False
  end.

(** What a deletion makes of a directory, at once or before it fails. *)
Inductive deletes (identity : option RootIdentity) : Directory -> Directory -> Prop :=
| deletes_none d : deletes identity d d
| deletes_moves i : identity = Some i -> deletes identity (InPlace i) (Moved i)
| deletes_all i : identity = Some i -> deletes identity (InPlace i) Nothing
| deletes_rest i : identity = Some i -> deletes identity (Moved i) Nothing.

(** The removal of an account from the configuration: [apply_mutation] for
    [MutationKind::Remove] (src/src/common/config.cpp). *)
Definition apply_remove (snapshot : ConfigSnapshot) (acct : string) (reassign : option string) :
    option (option string * list (string * bool)) :=
  let is_default := eqb (default_account snapshot) (Some acct) in
  let sole := Nat.eqb (List.length (accounts snapshot)) 1 in
  if negb (has_key acct (accounts snapshot)) then None
  else if present reassign && negb is_default then None
  else
    let left_ := erase acct (accounts snapshot) in
    if is_default then
      if sole then if present reassign then None else Some (None, left_)
      else
        match reassign with
        | Some d =>
            if String.eqb d acct || negb (has_key d (accounts snapshot)) then None
            else Some (Some d, left_)
        | None => None
        end
    else Some (default_account snapshot, left_).

(** The tombstone that [advance] writes. *)
Definition advances (w : Disk) (invocation : string) (s : AuditStage) (w' : Disk) : Prop :=
  exists t scan adv,
    tombstone w = Some t /\ t_invocation_id t = invocation /\
    (forall found, scan = Ok found -> log w = Some found) /\
    advance_tombstone t s scan = Ok adv /\
    w' = match adv with Unchanged => w | Replace next => set_tombstone next w end.

Definition answers {X} (a : answer X) (P : X -> Prop) : Prop :=
  match a with Returned x => P x | Threw => True end.

(** The checkpoints that the remote side asks for
    (src/src/daemon/account_removal_remote.cpp). *)
Definition remote_stage (s : AuditStage) : bool :=
  match s with RemoteLogoutSendStarted | RemoteConfirmed | RemoteNotPresent => true | _ => false end.

(** The configuration a rolled-back replacement leaves: the old text in a file
    whose identity may be another, since it includes the time of the last status
    change, which exchanging the files back does not restore.  A replacement is
    rolled back by the commit that fails, or, when the process stops in between,
    by the next mutation, before which no load succeeds. *)
Definition restored (ident : string) (snapshot : ConfigSnapshot) : ConfigSnapshot :=
  {| identity := ident; default_account := default_account snapshot; accounts := accounts snapshot |}.

(** [performs e w a w']: in [w] the effect [e] may answer [a] and leave [w']. *)
Definition performs {X} (e : Effect X) (w : Disk) : answer X -> Disk -> Prop :=
  match e in Effect X return answer X -> Disk -> Prop with
  | InspectAccount acct => fun a w' =>
      w' = w /\ answers a (fun i => match inspection i with
        | InspectionClean => idle w
        | InspectionIncomplete t => tombstone w = Some t /\ finished t = false /\ t_account t = acct
        | InspectionInvalid _ => True
        end)
  | LoadConfig => fun a w' =>
      w' = w /\ answers a (fun l => match l with ConfigLoaded s => s = cfg w | _ => True end)
  | CaptureRoot at_path => fun a w' =>
      w' = w /\ answers a (fun r => match r with Ok i => is_captured i (dirs w at_path) | Err _ => True end)
  | RevalidateRoot root => fun a w' =>
      w' = w /\ answers a (fun r => match r with
        | Ok _ => is_captured (root_identity root) (dirs w (root_path root))
        | Err _ => True
        end)
  | ObserveRoot root _ _ => fun a w' =>
      w' = w /\ answers a (fun o => match o with
        | Some o => o = observation root (dirs w (root_path root))
        | None => True
        end)
  | DeleteRoot root _ _ => fun a w' =>
      exists d, deletes (root_identity root) (dirs w (root_path root)) d /\
        w' = set_dir (root_path root) d w /\
        answers a (fun r => match r with Ok _ => d = Nothing | Err _ => True end)
  | CreateTombstone invocation p => fun a w' =>
      (w' = w \/ w' = begun (created_tombstone invocation p) w) /\
      answers a (fun r => match r with
        | Ok _ => w' = begun (created_tombstone invocation p) w
        | Err _ => True
        end)
  | AdvanceTombstone invocation s => fun a w' =>
      match a with
      | Returned (Ok _) => advances w invocation s w'
      | _ => w' = w \/ advances w invocation s w'
      end
  | LoadTombstone invocation => fun a w' =>
      w' = w /\ answers a (fun t => match t with
        | Some t => tombstone w = Some t /\ t_invocation_id t = invocation
        | None => True
        end)
  | AuditPresence invocation => fun a w' =>
      w' = w /\ answers a (fun p => match p with
        | Some p => exists scan, log w = Some scan /\ p = presence_in invocation scan
        | None => True
        end)
  | AuditedOutcome invocation => fun a w' =>
      w' = w /\ answers a (fun o => match o with
        | Some o => exists scan, log w = Some scan /\ find_in invocation (outcomes scan) = Some o
        | None => True
        end)
  | AppendIntent record => fun a w' =>
      (w' = w /\ a <> Returned (Ok tt)) \/
      exists scan kept l, log w = Some scan /\ rotated scan kept /\ w' = set_log l w /\
        match a with
        | Returned (Ok _) => l = appended record kept
        | _ => append_leaves record (Some scan) l \/ append_leaves record (Some kept) l
        end
  | AppendOutcome record => fun a w' =>
      exists l, w' = set_log l w /\ append_leaves record (log w) l /\
        answers a (fun r => match r with
          | Ok _ => l = None \/ exists scan, log w = Some scan /\ l = appended record scan
          | Err _ => True
          end)
  | StartMutation expected acct reassign => fun a w' =>
      match a with
      | Returned (IdentityDiffers current) => w' = w /\ current = cfg w /\ identity current <> expected
      | Returned ReplacementWritten =>
          exists ident default left_,
            identity (cfg w) = expected /\ apply_remove (cfg w) acct reassign = Some (default, left_) /\
            w' = set_replacement
                   (Some {| identity := ident; default_account := default; accounts := left_ |}) w
      | _ => w' = w
      end
  | CommitMutation => fun a w' =>
      (w' = w \/ (exists next, replacement w = Some next /\ w' = set_cfg next w) \/
       exists ident, w' = set_cfg (restored ident (cfg w)) w) /\
      answers a (fun r => match r with
        | None => exists next, replacement w = Some next /\ w' = set_cfg next w
        | Some _ => True
        end)
  | ProveRemoteLogout _ _ => fun a w' =>
      w' = w /\ answers a (fun p => forallb remote_stage (fst p) = true)
  | Quiesce => fun a w' =>
      match a with Returned None => w' = close_client w | _ => w' = w end
  | NewInvocation => fun a w' => w' = w /\ answers a (fun invocation => unused invocation w)
  | Challenge _ _ => fun _ w' => w' = w
  | HasTerminal => fun _ w' => w' = w
  | BeginAuditedTerminal => fun _ w' => w' = w
  | CurrentTimestamp => fun _ w' => w' = w
  | SessionError _ => fun _ w' => w' = w
  | SessionResult _ => fun _ w' => w' = w
  | AuditFatal => fun _ w' => w' = w
  | ShutdownAfterTerminal => fun _ w' => w' = w
  end.

(** * Executions *)

(** [reaches p w q w']: [p] started in [w] comes to [q] in [w']. *)
Inductive reaches {A} : prog Effect A -> Disk -> prog Effect A -> Disk -> Prop :=
| reaches_here p w : reaches p w p w
| reaches_step X (e : Effect X) k w a w1 q w2 :
    performs e w a w1 -> reaches (k a) w1 q w2 -> reaches (Do e k) w q w2.

(** The process is gone: the replacement that was not committed is discarded. *)
Definition restarted (w : Disk) : Disk := set_replacement None w.

(** The worlds between attempts: no removal is under way, or the last attempt
    was completed or stopped anywhere. *)
Inductive reachable (c : Coordinator) : Disk -> Prop :=
| reachable_idle w : idle w -> reachable c w
| reachable_attempt w fuel request q w' :
    reachable c w -> reaches (remove c fuel request) w q w' -> reachable c (restarted w').

(** * What a stage says about the world *)

(** How far a stage is. *)
Definition rank (s : AuditStage) : Z :=
  match s with
  | Planned | LogoutSendStarted | LogoutClosedConfirmed => 0
  | IntentSynced => 1
  | RemoteLogoutSendStarted => 2
  | RemoteConfirmed | RemoteNotPresent | RemoteKept => 3
  | ClientCloseStarted => 4
  | ClientClosed => 5
  | ConfigRemoveStarted => 6
  | ConfigRemoved => 7
  | DataRemoveStarted => 8
  | DataRemoved => 9
  | StateRemoveStarted => 10
  | StateRemoved => 11
  | OutcomeSynced => 12
  end.

(** The stages are those of a branch of the contract that fits the plan. *)
Definition legal (t : RemovalTombstone) : bool :=
  is_ok (validate_audit_stage_prefix AccountRemove (completed_stages t))
  && stages_match_plan (plan t) (completed_stages t) && eqb (last (completed_stages t) OutcomeSynced) (stage t).

Definition data_path (t : RemovalTombstone) : string := fst (delete_paths (input_ (plan t))).
Definition state_path (t : RemovalTombstone) : string := snd (delete_paths (input_ (plan t))).

(** The configuration that was planned for, with the default that the plan replaces. *)
Definition captured_config (t : RemovalTombstone) (snapshot : ConfigSnapshot) : Prop :=
  config_is_captured t snapshot = true /\
  exists requested,
    resulting_default snapshot (t_account t) requested = Ok (reassign_default (input_ (plan t))).

(** The configuration that was planned for, or its text restored. *)
Definition restored_config (t : RemovalTombstone) (snapshot : ConfigSnapshot) : Prop :=
  exists ident, captured_config t (restored ident snapshot).

Definition planned_dir (root : option RootIdentity) : Directory :=
  match root with Some i => InPlace i | None => Nothing end.

Definition started_dir (root : option RootIdentity) (d : Directory) : Prop :=
  d = planned_dir root \/ d = Nothing \/ exists i, root = Some i /\ d = Moved i.

(** A directory whose removal starts at rank [started] and is recorded one later. *)
Definition dir_fits (r started : Z) (root : option RootIdentity) (d : Directory) : Prop :=
  (r < started -> d = planned_dir root) /\ (r = started -> started_dir root d) /\
  (started < r -> d = Nothing).

Definition config_fits (t : RemovalTombstone) (snapshot : ConfigSnapshot) : Prop :=
  (rank (stage t) < 6 -> captured_config t snapshot) /\
  (rank (stage t) = 6 -> restored_config t snapshot \/ config_is_removed t snapshot = true) /\
  (6 < rank (stage t) -> config_is_removed t snapshot = true).

Definition removed (t : RemovalTombstone) (w : Disk) : Prop :=
  config_is_removed t (cfg w) = true /\ dirs w (data_path t) = Nothing /\ dirs w (state_path t) = Nothing.

Definition intent_logged (invocation : string) (w : Disk) : Prop :=
  forall scan, log w = Some scan -> knows invocation scan = true.

Definition outcome_true (o : json) : bool := eq_bool (jget o "success") true.

Record unfinished (t : RemovalTombstone) (w : Disk) : Prop := {
  u_legal : legal t = true;
  u_account : t_account t = account (input_ (plan t));
  u_paths : data_path t <> state_path t;
  u_config : config_fits t (cfg w);
  u_data : dir_fits (rank (stage t)) 8 (data_root (input_ (plan t))) (dirs w (data_path t));
  u_state : dir_fits (rank (stage t)) 10 (state_root (input_ (plan t))) (dirs w (state_path t));
  u_intent : 1 <= rank (stage t) -> intent_logged (t_invocation_id t) w;
  u_closed : 5 <= rank (stage t) -> quiesced w = true;
  u_outcome : forall scan o, log w = Some scan -> find_in (t_invocation_id t) (outcomes scan) = Some o ->
    outcome_true o = true -> removed t w
}.

Definition invariant (w : Disk) : Prop :=
  forall t, tombstone w = Some t -> finished t = false -> unfinished t w.

(** * When an effect may be made *)

(** The removal under way in [w]. *)
Definition under_way (w : Disk) (P : RemovalTombstone -> Prop) : Prop :=
  exists t, tombstone w = Some t /\ finished t = false /\ P t.

Definition is_record (phase invocation : string) (record : json) : Prop :=
  jget record "phase" = JString phase /\ jget record "invocation_id" = JString invocation.

(** What must hold for a stage to be recorded. *)
Definition stage_guard (t : RemovalTombstone) (s : AuditStage) (w : Disk) : Prop :=
  match s with
  | IntentSynced => intent_logged (t_invocation_id t) w
  | ClientClosed => quiesced w = true
  | ConfigRemoved => config_is_removed t (cfg w) = true
  | DataRemoved => dirs w (data_path t) = Nothing
  | StateRemoved => dirs w (state_path t) = Nothing
  | _ => True
  end.

(** A removal begins when none is under way, and its plan is what the world is. *)
Definition guard_of_creation (invocation : string) (p : AccountRemovePlan) (w : Disk) : Prop :=
  let t := created_tombstone invocation p in
  idle w /\ unused invocation w /\ captured_config t (cfg w) /\ data_path t <> state_path t /\
  is_captured (data_root (input_ p)) (dirs w (data_path t)) /\
  is_captured (state_root (input_ p)) (dirs w (state_path t)).

Definition guard (request : Request) {X} (e : Effect X) (w : Disk) : Prop :=
  match e with
  | CreateTombstone invocation p => guard_of_creation invocation p w
  | AdvanceTombstone invocation s =>
      under_way w (fun t => t_invocation_id t = invocation /\ stage_guard t s w)
  | AppendIntent record =>
      under_way w (fun t => stage t = Planned /\ is_record "intent" (t_invocation_id t) record)
  | AppendOutcome record =>
      under_way w (fun t => is_record "outcome" (t_invocation_id t) record /\
                            (outcome_true record = true -> removed t w))
  | ProveRemoteLogout p _ =>
      under_way w (fun t => plan t = p /\ keep_session (input_ p) = false /\ 1 <= rank (stage t) <= 2)
  | Quiesce => under_way w (fun t => stage t = ClientCloseStarted)
  | CommitMutation =>
      under_way w (fun t => stage t = ConfigRemoveStarted /\
                            exists next, replacement w = Some next /\ config_is_removed t next = true)
  | DeleteRoot root invocation DataRoot =>
      under_way w (fun t => t_invocation_id t = invocation /\ stage t = DataRemoveStarted /\
        root = {| root_path := data_path t; root_identity := data_root (input_ (plan t)) |})
  | DeleteRoot root invocation StateRoot =>
      under_way w (fun t => t_invocation_id t = invocation /\ stage t = StateRemoveStarted /\
        root = {| root_path := state_path t; root_identity := state_root (input_ (plan t)) |})
  | SessionResult _ =>
      dry_run (context request) = true \/
      exists t, tombstone w = Some t /\ finished t = true /\ removed t w
  | _ => True
  end.
