(* ===== verification/RemovalInvariant.v ===== *)
(** Every effect that is made when its guard holds keeps the stage of the
    tombstone and the world in step: the invariant of account removal. *)
From S2P Require Import Prelude Json Paths DestructivePlan Frame DestructiveContract RemovalJournal Effects AccountRemoval RemovalWorld.

(** * Stages advance along the branches *)

Fixpoint prefixes (l : list AuditStage) : list (list AuditStage) :=
  [] :: match l with [] => [] | s :: l => map (cons s) (prefixes l) end.

Lemma is_prefix_In l branch : is_prefix l branch = true -> In l (prefixes branch).
Proof.
  revert l. induction branch as [|b branch IH]; intros [|s l]; cbn; auto; [discriminate|].
  intros H. apply andb_prop in H as [E H]. apply eqb_eq in E as ->. right. now apply in_map, IH.
Qed.

Definition branch_prefix (l : list AuditStage) : bool := existsb (is_prefix l) kRemovalStageBranches.

Lemma branch_prefix_In l : branch_prefix l = true -> In l (flat_map prefixes kRemovalStageBranches).
Proof.
  unfold branch_prefix. rewrite existsb_exists. intros (b & B & P). apply in_flat_map. exists b.
  split; [easy|now apply is_prefix_In].
Qed.

(** [b] may be recorded after [a]. *)
Definition follows (a b : AuditStage) : bool :=
  if (rank b <=? 1) || (4 <=? rank b) then rank a =? rank b - 1 else (1 <=? rank a) && (rank a <? rank b).

Lemma follows_table :
  forallb (fun l => forallb (fun s =>
    negb (branch_prefix (l ++ [s])) || match l with [] => true | _ => follows (last l OutcomeSynced) s end)
    stages_in_order) (flat_map prefixes kRemovalStageBranches) = true.
Proof. vm_compute. reflexivity. Qed.

Lemma stage_listed s : In s stages_in_order.
Proof. destruct s; cbn; tauto. Qed.

Lemma prefix_ok l : is_ok (validate_audit_stage_prefix AccountRemove l) = true -> l <> [] /\ branch_prefix l = true.
Proof.
  unfold validate_audit_stage_prefix, check. fold (branch_prefix l).
  destruct l as [|s l]; [discriminate|]. cbn [andb]. destruct (branch_prefix (s :: l)); [|discriminate].
  split; [discriminate|easy].
Qed.

Lemma follows_next l s :
  is_ok (validate_audit_stage_prefix AccountRemove l) = true ->
  is_ok (validate_audit_stage_prefix AccountRemove (l ++ [s])) = true ->
  follows (last l OutcomeSynced) s = true.
Proof.
  intros L N. apply prefix_ok in L as [L0 L]. apply prefix_ok in N as [_ N].
  pose proof follows_table as T. rewrite forallb_forall in T. specialize (T l (branch_prefix_In l L)).
  rewrite forallb_forall in T. specialize (T s (stage_listed s)). rewrite N in T.
  now destruct l.
Qed.

Lemma finished_false t : finished t = false -> stage t <> OutcomeSynced.
Proof. unfold finished. intros F E. rewrite E, eqb_refl in F. discriminate. Qed.

(** Same removal, another stage. *)
Definition same_removal (t next : RemovalTombstone) : Prop :=
  t_invocation_id next = t_invocation_id t /\ t_account next = t_account t /\ plan next = plan t.

(** What [advance] makes of the tombstone of a removal under way. *)
Inductive advanced_to (t : RemovalTombstone) (s : AuditStage) : RemovalTombstone -> Prop :=
| advanced_same : stage t = s -> advanced_to t s t
| advanced_next next : stage t <> s -> stage next = s -> same_removal t next ->
    (s <> OutcomeSynced -> legal next = true /\ follows (stage t) s = true) -> advanced_to t s next.

Lemma advance_advanced t s scan adv :
  finished t = false -> legal t = true -> advance_tombstone t s scan = Ok adv ->
  advanced_to t s match adv with Unchanged => t | Replace next => next end.
Proof.
  intros F L. apply finished_false in F. unfold advance_tombstone.
  destruct (eqb (stage t) s) eqn:E.
  { apply eqb_eq in E. intros H. inv_bind H. injection H as <-. now apply advanced_same. }
  assert (stage t <> s) as D by (intros Q; now rewrite Q, eqb_refl in E).
  replace (eqb (stage t) OutcomeSynced) with false
    by (symmetry; destruct (eqb (stage t) OutcomeSynced) eqn:O; [now apply eqb_eq in O|easy]).
  destruct (is_ok (validate_audit_stage_prefix AccountRemove (prefix_of s (completed_stages t ++ [s])))) eqn:V;
    cbn [negb orb]; [|discriminate].
  destruct (stages_match_plan (plan t) (prefix_of s (completed_stages t ++ [s]))) eqn:M; cbn [negb]; [|discriminate].
  intros H. inv_bind H. injection H as <-. apply advanced_next; [easy|easy|now repeat split|].
  intros NO. unfold prefix_of in V, M. destruct (eqb s OutcomeSynced) eqn:O; [now apply eqb_eq in O|].
  unfold legal in *. cbn [with_stage completed_stages stage plan]. rewrite V, M, last_last, eqb_refl.
  split; [easy|]. bool_split. apply eqb_eq in H0. rewrite <- H0. now apply follows_next.
Qed.

(** * The log *)

Lemma find_in_emplace {A} k (v x : A) m :
  find_in k (emplace k v m) = Some x -> find_in k m = Some x \/ x = v.
Proof.
  unfold emplace. destruct (find_in k m) eqn:F; [intros H; left; congruence|].
  unfold find_in in *. induction m as [|[k' v'] m IH]; cbn in *.
  - rewrite String.eqb_refl. cbn. intros [= <-]. now right.
  - destruct (String.eqb k' k); cbn in *; [discriminate|auto].
Qed.

Lemma has_key_emplace {A} k (v : A) m : has_key k (emplace k v m) = true.
Proof.
  unfold has_key, emplace. destruct (find_in k m) eqn:F; [now rewrite F|].
  unfold find_in in *. induction m as [|[k' v'] m IH]; cbn in *; [now rewrite String.eqb_refl|].
  destruct (String.eqb k' k); cbn in *; [discriminate|auto].
Qed.

Lemma str_in_last k l : str_in k (l ++ [k]) = true.
Proof. apply str_in_In, in_or_app. right. now left. Qed.

(** The scan takes the record in as what it is. *)
Lemma consume_phase phase invocation record generation scan scan' :
  is_record phase invocation record -> consume_audit_record record generation scan = Ok scan' ->
  let ident := audit_identity record invocation in
  (phase = "intent" /\ consume_intent record ident invocation generation scan = Ok scan')
  \/ consume_outcome record ident invocation generation scan = Ok scan'.
Proof.
  intros [P I]. unfold consume_audit_record. rewrite P, I. cbn [get_string].
  destruct (_ || _); [discriminate|]. destruct (eq_str (JString phase) "intent") eqn:E.
  - apply eq_str_inv in E. injection E as ->. auto.
  - destruct (_ || _); [discriminate|]. auto.
Qed.

Lemma intent_consumed invocation record generation scan scan' :
  is_record "intent" invocation record -> consume_audit_record record generation scan = Ok scan' ->
  knows invocation scan' = true /\ outcomes scan' = outcomes scan.
Proof.
  intros [P I]. unfold consume_audit_record. rewrite P, I. cbn [get_string].
  destruct (_ || _); [discriminate|]. rewrite eq_str_refl. unfold consume_intent.
  destruct (_ || _); [discriminate|].
  destruct (parse_account_remove_plan _); [|discriminate]. destruct (parse_authority _); [|discriminate].
  destruct (parse_confirmation _); [|discriminate].
  destruct (make_account_remove_audit_intent _ _ _ _); [|discriminate].
  destruct (negb _); [discriminate|]. intros [= <-]. unfold knows. cbn. now rewrite has_key_emplace.
Qed.

Lemma outcome_consumed invocation record generation scan scan' :
  is_record "outcome" invocation record -> consume_audit_record record generation scan = Ok scan' ->
  str_in invocation (completed scan') = true /\
  forall o, find_in invocation (outcomes scan') = Some o ->
    find_in invocation (outcomes scan) = Some o \/ o = record.
Proof.
  intros R C. apply (consume_phase _ _ _ _ _ _ R) in C as [[? _]|C]; [discriminate|].
  unfold consume_outcome in C.
  destruct (find_in invocation (pending scan)); [|discriminate].
  destruct (find_in invocation (generations scan)); [|discriminate].
  destruct (negb _); [discriminate|]. destruct (parse_stages _); [|discriminate]. inv_bind C.
  destruct (negb _); [discriminate|]. injection C as <-. cbn [completed outcomes].
  split; [|intros o; apply find_in_emplace].
  destruct (str_in invocation (completed scan)) eqn:K; [easy|apply str_in_last].
Qed.

Lemma completed_known invocation scan : str_in invocation (completed scan) = true -> knows invocation scan = true.
Proof. unfold knows. intros ->. apply orb_true_r. Qed.

(** * The invariant, effect by effect *)

Section same_removal.
Context (t next : RemovalTombstone) (S : same_removal t next).

Lemma same_captured snapshot : captured_config t snapshot -> captured_config next snapshot.
Proof.
  destruct S as (_ & A & P). unfold captured_config, config_is_captured. now rewrite A, P.
Qed.

Lemma captured_restored snapshot : captured_config t snapshot -> restored_config t snapshot.
Proof. intros C. exists (identity snapshot). now destruct snapshot. Qed.

Lemma same_config_removed snapshot : config_is_removed next snapshot = config_is_removed t snapshot.
Proof. destruct S as (_ & A & P). unfold config_is_removed. now rewrite A, P. Qed.

Lemma same_data_path : data_path next = data_path t.
Proof. unfold data_path. now destruct S as (_ & _ & ->). Qed.

Lemma same_state_path : state_path next = state_path t.
Proof. unfold state_path. now destruct S as (_ & _ & ->). Qed.

Lemma same_removed w w' : cfg w' = cfg w -> dirs w' = dirs w -> removed t w -> removed next w'.
Proof.
  unfold removed. intros -> -> H. now rewrite same_config_removed, same_data_path, same_state_path.
Qed.
End same_removal.

Lemma follows_rank a b : follows a b = true ->
  (rank b <= 1 \/ 4 <= rank b) /\ rank a = rank b - 1 \/ 1 < rank b < 4 /\ 1 <= rank a < rank b.
Proof.
  unfold follows. destruct (_ || _) eqn:E; intros H.
  - left. apply orb_prop in E. z_bool. split; [|easy]. destruct E; z_bool; lia.
  - right. bool_split. z_bool. lia.
Qed.

Lemma next_config t s next w :
  same_removal t next -> stage next = s -> follows (stage t) s = true -> s <> OutcomeSynced ->
  stage_guard t s w -> config_fits t (cfg w) -> config_fits next (cfg w).
Proof.
  intros S E F O G (A & B & R). apply follows_rank in F. unfold config_fits.
  rewrite E, (same_config_removed _ _ S). pose proof (same_captured _ _ S (cfg w)) as C.
  destruct s; cbn [rank stage_guard] in *; repeat split; intros; try lia;
    first [exact G | apply C, A; lia | left; apply captured_restored, C, A; lia | apply R; lia].
Qed.

Lemma next_data t s next w :
  same_removal t next -> stage next = s -> follows (stage t) s = true -> s <> OutcomeSynced ->
  stage_guard t s w ->
  dir_fits (rank (stage t)) 8 (data_root (input_ (plan t))) (dirs w (data_path t)) ->
  dir_fits (rank (stage next)) 8 (data_root (input_ (plan next))) (dirs w (data_path next)).
Proof.
  intros S E F O G (A & B & R). apply follows_rank in F. rewrite E, (same_data_path _ _ S).
  destruct S as (_ & _ & ->). unfold dir_fits, started_dir.
  destruct s; cbn [rank stage_guard] in *; repeat split; intros; try lia;
    first [exact G | apply A; lia | left; apply A; lia | apply R; lia].
Qed.

Lemma next_state t s next w :
  same_removal t next -> stage next = s -> follows (stage t) s = true -> s <> OutcomeSynced ->
  stage_guard t s w ->
  dir_fits (rank (stage t)) 10 (state_root (input_ (plan t))) (dirs w (state_path t)) ->
  dir_fits (rank (stage next)) 10 (state_root (input_ (plan next))) (dirs w (state_path next)).
Proof.
  intros S E F O G (A & B & R). apply follows_rank in F. rewrite E, (same_state_path _ _ S).
  destruct S as (_ & _ & ->). unfold dir_fits, started_dir.
  destruct s; cbn [rank stage_guard] in *; repeat split; intros; try lia;
    first [exact G | apply A; lia | left; apply A; lia | apply R; lia].
Qed.

Lemma advanced_unfinished t s next w :
  unfinished t w -> advanced_to t s next -> stage_guard t s w -> finished next = false ->
  unfinished next (set_tombstone next w).
Proof.
  intros [L Ac P C D St I Q O] A G F. apply finished_false in F.
  destruct A as [E | next N E S A]; [now constructor|].
  subst s. destruct (A F) as [L' Fo]. pose proof (follows_rank _ _ Fo) as R. constructor; cbn [set_tombstone cfg dirs].
  - easy.
  - now destruct S as (_ & -> & ->).
  - now rewrite (same_data_path _ _ S), (same_state_path _ _ S).
  - now apply (next_config t (stage next) next).
  - now apply (next_data t (stage next) next).
  - now apply (next_state t (stage next) next).
  - intros R'. destruct S as (-> & _). destruct (Z.eq_dec (rank (stage t)) 0).
    + destruct (stage next); cbn in R, R', G; auto; lia.
    + apply I. pose proof R. destruct (stage t); cbn in *; lia.
  - intros R'. destruct (Z.eq_dec (rank (stage t)) 4).
    + destruct (stage next); cbn in R, R', G; auto; lia.
    + apply Q. lia.
  - intros scan o. destruct S as (E & S). rewrite E. intros H1 H2 H3.
    eapply (same_removed t next); [split; eauto|reflexivity..|]. now apply (O scan o).
Qed.

Lemma captured_begun root w at_path t :
  is_captured root (dirs w at_path) -> dirs (begun t w) at_path = planned_dir root.
Proof.
  cbn. unfold is_captured. destruct root, (dirs w at_path); cbn; try easy. now intros ->.
Qed.

Lemma created_unfinished invocation p w :
  guard_of_creation invocation p w -> unfinished (created_tombstone invocation p) (begun (created_tombstone invocation p) w).
Proof.
  intros (_ & U & C & P & D & St). constructor; cbn [created_tombstone stage rank].
  - reflexivity.
  - reflexivity.
  - easy.
  - split; [easy|]. split; cbn; lia.
  - split; [intros _; now apply captured_begun|]. split; cbn; lia.
  - split; [intros _; now apply captured_begun|]. split; cbn; lia.
  - lia.
  - lia.
  - intros scan o L O. destruct (proj2 U scan L) as [_ N]. cbn in O. congruence.
Qed.

(** A log that knows what the old one knew, and no success it did not have. *)
Lemma relogged_unfinished t l w :
  unfinished t w ->
  (1 <= rank (stage t) -> intent_logged (t_invocation_id t) (set_log l w)) ->
  (forall scan o, l = Some scan -> find_in (t_invocation_id t) (outcomes scan) = Some o ->
     outcome_true o = true -> removed t w) ->
  unfinished t (set_log l w).
Proof. intros [L Ac P C D St I Q O] I' O'. now constructor. Qed.

Lemma rotated_refl scan : rotated scan scan.
Proof. intros i. auto. Qed.

Lemma intent_append_unfinished t record w scan kept l :
  unfinished t w -> stage t = Planned -> is_record "intent" (t_invocation_id t) record ->
  log w = Some scan -> rotated scan kept -> append_leaves record (Some kept) l ->
  unfinished t (set_log l w).
Proof.
  intros U E R L Ro A. apply relogged_unfinished; [easy|rewrite E; cbn; lia|].
  intros scan' o -> F T. apply (u_outcome _ _ U scan o L); [|easy].
  apply (proj2 (Ro (t_invocation_id t))).
  destruct A as [[= <-]|[?|(s & [= <-] & A)]]; [easy|discriminate|].
  unfold appended in A. destruct (consume_audit_record record "audit.log" kept) as [s|] eqn:K; [|discriminate].
  injection A as ->. apply (intent_consumed _ _ _ _ _ R) in K as [_ K]. now rewrite <- K.
Qed.

Lemma outcome_append_unfinished t record w l :
  unfinished t w -> is_record "outcome" (t_invocation_id t) record ->
  (outcome_true record = true -> removed t w) -> append_leaves record (log w) l ->
  unfinished t (set_log l w).
Proof.
  intros U R G A. destruct A as [->|[->|(scan & L & A)]].
  - now apply relogged_unfinished; [|apply (u_intent _ _ U)|apply (u_outcome _ _ U)].
  - now apply relogged_unfinished.
  - unfold appended in A. destruct (consume_audit_record record "audit.log" scan) as [s|] eqn:K; subst l;
      [|now apply relogged_unfinished].
    apply (outcome_consumed _ _ _ _ _ R) in K as [K O]. apply relogged_unfinished; [easy| |].
    + intros _ s' [= <-]. now apply completed_known.
    + intros s' o [= <-] F T. apply O in F as [F| ->]; [now apply (u_outcome _ _ U scan o)|now apply G].
Qed.

Lemma deletes_nothing i d : deletes i Nothing d -> d = Nothing.
Proof. now inversion 1. Qed.

Lemma deletes_started i d d' : started_dir i d -> deletes i d d' -> started_dir i d'.
Proof.
  intros S. inversion 1; subst; [easy|right; right; eauto|right; left; easy..].
Qed.

Lemma set_dir_same at_path d w : dirs (set_dir at_path d w) at_path = d.
Proof. cbn. now rewrite String.eqb_refl. Qed.

Lemma set_dir_other at_path d w p : p <> at_path -> dirs (set_dir at_path d w) p = dirs w p.
Proof. cbn. intros N. apply String.eqb_neq in N. now rewrite N. Qed.

(** Deleting keeps what is removed removed. *)
Lemma deleted_removed t i at_path d w :
  deletes i (dirs w at_path) d -> removed t w -> removed t (set_dir at_path d w).
Proof.
  intros De (C & D & S). split; [easy|].
  assert (forall p, dirs w p = Nothing -> dirs (set_dir at_path d w) p = Nothing) as K.
  { intros p N. destruct (String.eqb p at_path) eqn:E; cbn; rewrite E; [|easy].
    apply String.eqb_eq in E as ->. rewrite N in De. now apply deletes_nothing in De. }
  auto.
Qed.

Lemma data_deleted_unfinished t d w :
  unfinished t w -> stage t = DataRemoveStarted ->
  deletes (data_root (input_ (plan t))) (dirs w (data_path t)) d ->
  unfinished t (set_dir (data_path t) d w).
Proof.
  intros [L Ac P C D St I Q O] E De. constructor; try easy.
  - rewrite set_dir_same, E. repeat split; cbn [rank]; intros; try lia.
    eapply deletes_started; [apply D; now rewrite E|easy].
  - rewrite set_dir_other; [easy|]. now apply not_eq_sym.
  - intros scan o H1 H2 H3. eapply deleted_removed; [exact De|]. now apply (O scan o).
Qed.

Lemma state_deleted_unfinished t d w :
  unfinished t w -> stage t = StateRemoveStarted ->
  deletes (state_root (input_ (plan t))) (dirs w (state_path t)) d ->
  unfinished t (set_dir (state_path t) d w).
Proof.
  intros [L Ac P C D St I Q O] E De. constructor; try easy.
  - now rewrite set_dir_other.
  - rewrite set_dir_same, E. repeat split; cbn [rank]; intros; try lia.
    eapply deletes_started; [apply St; now rewrite E|easy].
  - intros scan o H1 H2 H3. eapply deleted_removed; [exact De|]. now apply (O scan o).
Qed.

Lemma committed_unfinished t next w :
  unfinished t w -> stage t = ConfigRemoveStarted -> config_is_removed t next = true ->
  unfinished t (set_cfg next w).
Proof.
  intros [L Ac P C D St I Q O] E R. constructor; try easy.
  - unfold config_fits. rewrite E. cbn [rank]. split; [lia|]. split; [now right|lia].
  - intros scan o H1 H2 H3. split; [easy|]. now apply (O scan o).
Qed.

(** Rolling back changes nothing but the identity of the file. *)
Lemma restored_unfinished t ident w :
  unfinished t w -> stage t = ConfigRemoveStarted -> unfinished t (set_cfg (restored ident (cfg w)) w).
Proof.
  intros [L Ac P C D St I Q O] E. constructor; try easy.
  unfold config_fits in *. rewrite E in *. cbn [rank] in *. split; [lia|]. split; [|lia]. intros _.
  destruct C as (_ & [[old C]|C] & _); [easy| |now right]. left. exists old. exact C.
Qed.

(** * The invariant *)

Lemma invariant_set w w' t :
  tombstone w' = tombstone w -> tombstone w = Some t -> (finished t = false -> unfinished t w') -> invariant w'.
Proof. intros E T U t' T' F. rewrite E, T in T'. injection T' as <-. auto. Qed.

Lemma replacement_invariant r w : invariant w -> invariant (set_replacement r w).
Proof. intros J t T F. destruct (J t T F) as [L Ac P C D St I Q O]. now constructor. Qed.

Lemma advances_invariant w invocation s w' :
  invariant w -> under_way w (fun t => t_invocation_id t = invocation /\ stage_guard t s w) ->
  advances w invocation s w' -> invariant w'.
Proof.
  intros J (t & T & F & E & G) (t' & scan & adv & T' & _ & _ & A & ->). rewrite T in T'. injection T' as <-.
  apply advance_advanced in A; [|easy|now apply (u_legal _ _ (J t T F))].
  destruct adv as [|next]; [easy|]. intros t' [= <-] F'. now apply (advanced_unfinished t s next w (J t T F)).
Qed.

Theorem effect_keeps_invariant request {X} (e : Effect X) w a w' :
  invariant w -> guard request e w -> performs e w a w' -> invariant w'.
Proof.
  intros J G P. destruct e; cbn [performs guard] in *; try (now destruct P as [-> _]); try (now subst w').
  - destruct P as (d & De & -> & _). destruct label, G as (t & T & F & _ & E & ->); cbn [root_identity root_path] in *;
      apply (invariant_set w _ t); auto; intros _; [apply data_deleted_unfinished|apply state_deleted_unfinished]; auto.
  - destruct P as [[->| ->] _]; [easy|]. intros t [= <-] _. now apply created_unfinished.
  - destruct a as [[u|]|]; [now apply (advances_invariant w invocation s) |
      destruct P as [->|P]; [easy|now apply (advances_invariant w invocation s)] ..].
  - destruct G as (t & T & F & E & R). destruct P as [[-> _]|(scan & kept & l & L & Ro & -> & A)]; [easy|].
    apply (invariant_set w _ t); auto. intros _.
    assert (append_leaves record (Some scan) l \/ append_leaves record (Some kept) l) as [A'|A']
      by (destruct a as [[u|]|]; auto; right; right; right; eauto).
    + apply (intent_append_unfinished t record w scan scan); auto using rotated_refl.
    + apply (intent_append_unfinished t record w scan kept); auto.
  - destruct G as (t & T & F & R & G). destruct P as (l & -> & A & _).
    apply (invariant_set w _ t); auto. intros _. apply (outcome_append_unfinished t record); auto.
  - destruct a as [[result|current|]|]; try (now subst w'); try (now destruct P as [-> _]).
    destruct P as (ident & default & left_ & _ & _ & ->). now apply replacement_invariant.
  - destruct G as (t & T & F & E & next & N & R). destruct P as [[->|[(next' & N' & ->)|[ident ->]]] _]; [easy| |].
    + rewrite N in N'. injection N' as <-. apply (invariant_set w _ t); auto. intros _.
      now apply committed_unfinished; [apply J|..].
    + apply (invariant_set w _ t); auto. intros _. now apply restored_unfinished; [apply J|].
  - destruct a as [[error|]|]; try (now subst w'). subst w'. destruct G as (t & T & F & E).
    apply (invariant_set w _ t); auto. intros _. destruct (J t T F) as [L Ac P C D St I Q O]. now constructor.
Qed.
