(* ===== verification/RemovalLogic.v ===== *)
(** A logic for the executions of an account removal: [ensures m P w] says that
    [m] started in [w] makes every effect when its guard holds, whatever the
    effects answer and wherever the process stops, and that [P] holds of the value
    it yields.  Then what each piece of the transaction ensures. *)
From S2P Require Import Prelude Json Paths DestructivePlan DestructivePlanFacts Frame DestructiveContract RemovalJournal Effects AccountRemoval RemovalWorld RemovalInvariant.
Open Scope kernel_scope.

(** * The logic *)

Fixpoint safe (request : Request) {A} (p : prog Effect A) (Q : A -> Disk -> Prop) (w : Disk) : Prop :=
  match p with
  | Ret a => Q a w
  | Do e k => guard request e w /\ forall a w', performs e w a w' -> safe request (k a) Q w'
  end.

Lemma safe_reaches request {A} (p q : prog Effect A) Q w w' :
  invariant w -> safe request p Q w -> reaches p w q w' -> invariant w' /\ safe request q Q w'.
Proof.
  intros J S R. revert J S. induction R as [|X e k w a w1 q w2 P R IH]; intros J S; [easy|].
  destruct S as [G S]. apply IH; [now apply (effect_keeps_invariant request e w a)|now apply S].
Qed.

Lemma safe_bind request {A B} (m : prog Effect A) (k : A -> prog Effect B) Q w :
  safe request m (fun a => safe request (k a) Q) w -> safe request (pbind m k) Q w.
Proof.
  revert w. induction m as [a|X e c IH]; cbn; intros w; [easy|]. intros [G S]. split; [easy|]. auto.
Qed.

Lemma safe_weaken request {A} (m : prog Effect A) (P Q : A -> Disk -> Prop) w :
  (forall a w', P a w' -> Q a w') -> safe request m P w -> safe request m Q w.
Proof.
  intros W. revert w. induction m as [a|X e c IH]; cbn; intros w; [auto|]. intros [G S]. split; [easy|]. auto.
Qed.

Section logic.
Context (request : Request).

(** What holds of a value; a return or an exception ends the attempt. *)
Definition ensures {R A} (m : stmt Effect R A) (P : A -> Disk -> Prop) (w : Disk) : Prop :=
  safe request m (fun c w => match c with Value a => P a w | _ => True end) w.

Lemma ensures_pure {R A} (a : A) (P : A -> Disk -> Prop) w : P a w -> ensures (pure a : stmt Effect R A) P w.
Proof. easy. Qed.

Lemma ensures_return {R A} (r : R) (P : A -> Disk -> Prop) w : ensures (return_ r) P w.
Proof. easy. Qed.

Lemma ensures_bind {R A B} (m : stmt Effect R A) (k : A -> stmt Effect R B) P w :
  ensures m (fun a w => ensures (k a) P w) w -> ensures (sbind m k) P w.
Proof.
  intros H. apply safe_bind. eapply safe_weaken; [|exact H]. now intros [a|r|] w'.
Qed.

Lemma ensures_weaken {R A} (m : stmt Effect R A) (P Q : A -> Disk -> Prop) w :
  (forall a w', P a w' -> Q a w') -> ensures m P w -> ensures m Q w.
Proof. intros W. apply safe_weaken. intros [a|r|] w'; auto. Qed.

Lemma ensures_act {R X} (e : Effect X) (P : X -> Disk -> Prop) w :
  invariant w -> guard request e w ->
  (forall x w', performs e w (Returned x) w' -> invariant w' -> P x w') ->
  ensures (act e : stmt Effect R X) P w.
Proof.
  intros J G H. split; [easy|]. intros [x|] w' Pe; [|easy]. apply H; [easy|].
  now apply (effect_keeps_invariant request e w (Returned x)).
Qed.

(** A piece, then the rest. *)
Lemma ensures_seq {R A B} (m : stmt Effect R A) (k : A -> stmt Effect R B) P Q w :
  ensures m Q w -> (forall a w', Q a w' -> ensures (k a) P w') -> ensures (sbind m k) P w.
Proof. intros M K. apply ensures_bind. eapply ensures_weaken; [|exact M]. exact K. Qed.

(** An effect that leaves the world alone, then the rest. *)
Lemma ensures_look {R X B} (e : Effect X) (k : X -> stmt Effect R B) P w :
  invariant w -> guard request e w ->
  (forall x w', performs e w (Returned x) w' -> w' = w) ->
  (forall x, performs e w (Returned x) w -> ensures (k x) P w) ->
  ensures (sbind (act e) k) P w.
Proof.
  intros J G L K. apply ensures_bind, ensures_act; [easy..|]. intros x w' Pe _.
  pose proof (L x w' Pe) as ->. auto.
Qed.
End logic.

Ltac look := apply ensures_look; [easy | easy | now intros ? ? [-> _] || now intros ? ? -> | ].

(** * The world of a removal *)

Definition facts_of (t : RemovalTombstone) (w : Disk) (scan : AuditScan) : RemovalRecoveryFacts :=
  {| config := cfg w;
     data := observation {| root_path := data_path t; root_identity := data_root (input_ (plan t)) |} (dirs w (data_path t));
     state := observation {| root_path := state_path t; root_identity := state_root (input_ (plan t)) |} (dirs w (state_path t));
     audit := presence_in (t_invocation_id t) scan |}.

Lemma planned_before i path : root_is_pre_mutation
  (observation {| root_path := path; root_identity := i |} (planned_dir i)) (present i) = true.
Proof. destruct i; cbn; [|easy]. now rewrite eqb_refl. Qed.

Lemma nothing_after i path : root_is_post_mutation
  (observation {| root_path := path; root_identity := i |} Nothing) (present i) = true.
Proof. now destruct i. Qed.

Lemma started_started i path d : started_dir i d -> root_is_started
  (observation {| root_path := path; root_identity := i |} d) (present i) = true.
Proof.
  intros [->|[->|(r & -> & ->)]]; [destruct i|destruct i|]; cbn; rewrite ?eqb_refl; easy.
Qed.

Lemma captured_not_removed t snapshot : config_is_captured t snapshot = true -> config_is_removed t snapshot = false.
Proof.
  unfold config_is_captured, config_is_removed. intros C. apply andb_prop in C as [_ C]. now rewrite C.
Qed.

Lemma stage_table : forallb (fun l => match l with [] => true | _ =>
    match last l OutcomeSynced with LogoutSendStarted | LogoutClosedConfirmed | OutcomeSynced => false | _ => true end
  end) (flat_map prefixes kRemovalStageBranches) = true.
Proof. vm_compute. reflexivity. Qed.

Lemma legal_stage t : legal t = true ->
  match stage t with LogoutSendStarted | LogoutClosedConfirmed | OutcomeSynced => False | _ => True end.
Proof.
  unfold legal. intros H. apply andb_prop in H as [H E]. apply andb_prop in H as [H _].
  apply eqb_eq in E. rewrite <- E. apply prefix_ok in H as [N H]. apply branch_prefix_In in H.
  pose proof stage_table as T. rewrite forallb_forall in T. specialize (T _ H).
  destruct (completed_stages t); [easy|]. now destruct (last _ _).
Qed.

(** The replacement of the configuration was rolled back: the file has the planned
    text and another identity. *)
Definition rolled_back (t : RemovalTombstone) (w : Disk) : Prop :=
  stage t = ConfigRemoveStarted /\ restored_config t (cfg w) /\
  identity (cfg w) <> config_snapshot (input_ (plan t)).

Lemma restored_captured t snapshot :
  restored_config t snapshot -> identity snapshot = config_snapshot (input_ (plan t)) ->
  config_is_captured t snapshot = true.
Proof.
  intros (ident & C & _) E. unfold config_is_captured in *. cbn in C. apply andb_prop in C as [_ C].
  now rewrite E, String.eqb_refl, C.
Qed.

(** Another identity is taken for another configuration. *)
Lemma rolled_back_undecided t w scan :
  rolled_back t w -> decide_removal_recovery t (facts_of t w scan) = None.
Proof.
  intros (E & (ident & C & _) & N). unfold decide_removal_recovery. cbv zeta. rewrite E.
  cbn [facts_of config audit]. unfold config_is_captured, config_is_removed in *. cbn in C.
  apply andb_prop in C as [_ C]. rewrite C. apply String.eqb_neq in N. rewrite N.
  cbn [andb negb orb]. now destruct (has_outcome _ && negb _).
Qed.

(** The world fits the stage: recovery knows what to do, unless the replacement of
    the configuration was rolled back. *)
Lemma unfinished_decided t w scan :
  unfinished t w -> log w = Some scan -> ~ rolled_back t w ->
  decide_removal_recovery t (facts_of t w scan) <> None.
Proof.
  intros U L NR. assert (stage t = ConfigRemoveStarted -> restored_config t (cfg w) ->
    config_is_captured t (cfg w) = true) as RC.
  { intros E R. apply restored_captured; [easy|].
    destruct (String.eqb (identity (cfg w)) (config_snapshot (input_ (plan t)))) eqn:I; [now apply String.eqb_eq|].
    apply String.eqb_neq in I. now destruct NR. }
  clear NR. pose proof (legal_stage t (u_legal _ _ U)) as S.
  assert (forall scan, log w = Some scan -> 1 <= rank (stage t) -> knows (t_invocation_id t) scan = true) as I
    by (intros s Ls R; exact (u_intent _ _ U R s Ls)).
  specialize (I scan L). destruct (u_config _ _ U) as (C1 & C2 & C3). destruct (u_data _ _ U) as (D1 & D2 & D3).
  destruct (u_state _ _ U) as (S1 & S2 & S3).
  assert (str_in (t_invocation_id t) (completed scan) = true -> knows (t_invocation_id t) scan = true) as K
    by apply completed_known.
  unfold decide_removal_recovery, facts_of.
  cbn [config data state audit presence_in has_intent has_outcome]. cbv zeta.
  destruct (stage t); cbn [rank] in *; try easy;
    repeat match goal with
    | H : ?P -> _ |- _ => lazymatch P with _ < _ => idtac | _ <= _ => idtac | _ = _ :> Z => idtac end;
        first [specialize (H ltac:(lia)) | clear H]
    end;
    repeat match goal with H : captured_config _ _ |- _ => destruct H as [H _] end;
    rewrite ?D1, ?D3, ?S1, ?S3, ?C1, ?C3, ?I, ?planned_before, ?nothing_after;
    try (destruct C2 as [C2|C2]; [apply (RC eq_refl) in C2|]; rewrite C2; rewrite ?orb_true_r);
    repeat match goal with H : started_dir ?i ?d |- context [observation {| root_path := ?p; root_identity := ?i |} ?d] =>
      rewrite (started_started i p d H) end;
    cbn [eqb eq_dec AuditStage_eq_dec negb orb andb];
    destruct (str_in (t_invocation_id t) (completed scan)) eqn:O; rewrite ?(K eq_refl), ?orb_true_r;
    cbn [eqb eq_dec AuditStage_eq_dec negb orb andb]; try discriminate.
Qed.

(** * The configuration *)

Lemma has_key_erase {A} k (m : list (string * A)) : has_key k (erase k m) = false.
Proof.
  unfold has_key, find_in, erase. induction m as [|[k' v] m IH]; cbn; [easy|].
  destruct (String.eqb k' k) eqn:E; cbn; [easy|]. now rewrite E.
Qed.

Lemma has_key_length {A} k (m : list (string * A)) : has_key k m = true -> List.length m <> 0%nat.
Proof. now destruct m. Qed.

(** Without the account, and with the default that the plan chose. *)
Lemma mutation_removes t planned ident default left_ :
  restored_config t (p_config planned) -> plan t = p_plan planned -> t_account t = account (input_ (plan t)) ->
  apply_remove (p_config planned) (t_account t) (config_mutation_reassignment planned) = Some (default, left_) ->
  config_is_removed t {| identity := ident; default_account := default; accounts := left_ |} = true.
Proof.
  intros (old & _ & requested & D) P A. unfold apply_remove, config_mutation_reassignment. rewrite <- P, <- A.
  unfold resulting_default in D. cbn [restored default_account accounts] in D. unfold config_is_removed. cbn [accounts default_account].
  destruct (has_key (t_account t) (accounts (p_config planned))) eqn:H; [|discriminate].
  apply has_key_length in H. cbn [negb].
  destruct (eqb (default_account (p_config planned)) (Some (t_account t))) eqn:E; cbn [negb andb orb] in *.
  - destruct (Nat.eqb (List.length (accounts (p_config planned))) 1) eqn:N.
    + apply Nat.eqb_eq in N. rewrite N. cbn [Nat.ltb Nat.leb present andb].
      destruct requested; [discriminate|]. injection D as D. rewrite <- D. intros [= <- <-].
      rewrite has_key_erase. apply eqb_refl.
    + apply Nat.eqb_neq in N. replace (1 <? List.length (accounts (p_config planned)))%nat with true
        by (symmetry; apply Nat.ltb_lt; lia).
      destruct requested as [name|]; [|discriminate]. destruct (String.eqb name (t_account t)); [discriminate|].
      destruct (negb (has_key name (accounts (p_config planned)))) eqn:K; [discriminate|]. injection D as D. rewrite <- D.
      cbn [present andb]. destruct (_ || _); [discriminate|]. intros [= <- <-]. rewrite has_key_erase. apply eqb_refl.
  - destruct requested; [discriminate|]. injection D as D. rewrite <- D. intros [= <- <-].
    rewrite has_key_erase. apply eqb_refl.
Qed.
