(* ===== verification/RemovalSteps.v ===== *)
(** What each piece of the removal transaction ensures: it makes its effects in
    the order that the protocol demands, a success is only reported when all is
    removed, and every turn of the loop comes closer to its end. *)
From S2P Require Import Prelude Json Paths DestructivePlan DestructivePlanFacts Frame DestructiveContract RemovalJournal Effects AccountRemoval RemovalWorld RemovalInvariant RemovalLogic.
Open Scope kernel_scope.

(** * Records *)

Lemma intent_is_record ident p authority confirmation record :
  make_account_remove_audit_intent ident p authority confirmation = Ok record ->
  is_record "intent" (invocation_id ident) record.
Proof.
  unfold make_account_remove_audit_intent. destruct (validate_record_identity ident); [|discriminate].
  cbn [bind]. intros [= <-]. now split.
Qed.

Lemma outcome_is_record ident p stages success value error record :
  make_outcome ident p stages success value error = Ok record ->
  is_record "outcome" (invocation_id ident) record /\ outcome_true record = success.
Proof.
  unfold make_outcome. destruct (validate_record_identity ident); [|discriminate]. cbn [bind].
  destruct (derive_mutation_state _ _); [|discriminate]. cbn [bind]. intros [= <-]. now destruct success.
Qed.

Lemma failure_is_record ident p stages error record :
  make_failure_audit_outcome ident p stages error = Ok record ->
  is_record "outcome" (invocation_id ident) record /\ outcome_true record = false.
Proof.
  unfold make_failure_audit_outcome. destruct (validate_post_intent_error_binding _ _ _); [|discriminate].
  apply outcome_is_record.
Qed.

Lemma success_is_record ident p remote stages record :
  make_account_remove_success_audit_outcome ident p remote stages = Ok record ->
  is_record "outcome" (invocation_id ident) record.
Proof.
  unfold make_account_remove_success_audit_outcome. rewrite check_seq. intros [_ H].
  now apply outcome_is_record in H as [H _].
Qed.

(** * The pieces *)

Section steps.
Context (c : Coordinator) (request : Request) (removal : PlannedAccountRemoval) (invocation : string)
  (authority : AuthoritySource) (confirmation : ConfirmationSource).

Notation ensures := (ensures request).

(** The removal is under way with the tombstone [t]. *)
Definition live (t : RemovalTombstone) (w : Disk) : Prop :=
  invariant w /\ tombstone w = Some t /\ finished t = false /\ t_invocation_id t = invocation /\
  plan t = p_plan removal /\ t_account t = account_ c.

(** All is removed and recorded. *)
Definition all_done (w : Disk) : Prop := exists t, tombstone w = Some t /\ finished t = true /\ removed t w.

Definition quiet (s : TransactionState) : Prop := terminal_result s = None.

(** The transaction has nothing more to do but to report. *)
Definition over (s : TransactionState) (w : Disk) : Prop := invariant w /\ (quiet s \/ all_done w).

Lemma live_unfinished t w : live t w -> unfinished t w.
Proof. intros (J & T & F & _). now apply J. Qed.

Lemma set_tombstone_same t w : tombstone w = Some t -> set_tombstone t w = w.
Proof. destruct w. cbn. now intros ->. Qed.

Lemma live_advances t s w w' :
  live t w -> advances w invocation s w' -> exists next, w' = set_tombstone next w /\ advanced_to t s next.
Proof.
  intros L (t' & scan & adv & T' & _ & _ & A & ->). pose proof (u_legal _ _ (live_unfinished _ _ L)) as Le.
  destruct L as (_ & T & F & _). rewrite T in T'. injection T' as <-.
  apply (advance_advanced _ _ _ _ F Le) in A. destruct adv as [|next]; eauto.
  exists t. now rewrite set_tombstone_same.
Qed.

Lemma live_next t s w next :
  live t w -> s <> OutcomeSynced -> advanced_to t s next -> invariant (set_tombstone next w) ->
  live next (set_tombstone next w) /\ stage next = s.
Proof.
  intros (_ & T & F & I & P & A) N [E|next' _ E (SI & SA & SP) _] J.
  - exact (conj (conj J (conj eq_refl (conj F (conj I (conj P A))))) E).
  - split; [|easy]. assert (finished next' = false) as F'.
    { unfold finished. destruct (eqb (stage next') OutcomeSynced) eqn:O; [|easy]. apply eqb_eq in O. congruence. }
    refine (conj J (conj eq_refl (conj F' _))). repeat split; congruence.
Qed.

Lemma live_synced t w next :
  live t w -> advanced_to t OutcomeSynced next -> removed t w -> all_done (set_tombstone next w).
Proof.
  intros (_ & _ & F & _) A R. apply finished_false in F. destruct A as [E|next' _ E S _]; [easy|].
  exists next'. split; [easy|]. split; [unfold finished; rewrite E; apply eqb_refl|].
  now apply (same_removed t next' S w).
Qed.

Lemma fatally_ensures {A} (a : A) s P w :
  invariant w -> P (a, set_fatal s) w -> ensures (fatally a s) P w.
Proof. intros J H. unfold fatally. look. intros _ _. now apply ensures_pure. Qed.

Lemma checkpoint_ensures t st s w :
  live t w -> stage_guard t st w ->
  ensures (checkpoint invocation st s) (fun r w' => exists next, w' = set_tombstone next w /\ invariant w' /\
    match r with
    | (true, s') => s' = s /\ advanced_to t st next
    | (false, s') => s' = set_fatal s /\ (next = t \/ advanced_to t st next)
    end) w.
Proof.
  intros L G. unfold checkpoint. apply ensures_bind, ensures_act.
  - apply L.
  - destruct L as (_ & T & F & I & _). exists t. auto.
  - intros [u|reason] w' P J.
    + apply ensures_pure. destruct (live_advances _ _ _ _ L P) as (next & -> & A). eauto.
    + apply fatally_ensures; [easy|]. destruct P as [->|P].
      * exists t. rewrite set_tombstone_same by apply L. auto.
      * destruct (live_advances _ _ _ _ L P) as (next & -> & A). eauto 7.
Qed.

Lemma load_ensures t s P w :
  live t w -> P (Some t, s) w -> P (None, set_fatal s) w -> ensures (load_tombstone invocation s) P w.
Proof.
  intros (J & T & F & I & _) H1 H2. unfold load_tombstone. look. intros [t'|] [_ Pe]; [|now apply fatally_ensures].
  cbn in Pe. destruct Pe as [T' _]. rewrite T in T'. injection T' as <-. now apply ensures_pure.
Qed.

Lemma with_tombstone_ensures t s k P w :
  live t w -> P (false, set_fatal s) w -> ensures (k t s) P w -> ensures (with_tombstone invocation s k) P w.
Proof.
  intros L H1 H2. unfold with_tombstone. apply ensures_bind, (load_ensures t); [easy|easy|].
  now apply ensures_pure.
Qed.

(** A checkpoint, then the rest of the transaction. *)
Lemma checkpointed_ensures t st s k w :
  live t w -> stage_guard t st w -> quiet s ->
  (forall next, advanced_to t st next -> invariant (set_tombstone next w) ->
     ensures (k s) (fun r => over (snd r)) (set_tombstone next w)) ->
  ensures (checkpointed invocation st s k) (fun r => over (snd r)) w.
Proof.
  intros L G Q K. unfold checkpointed. eapply ensures_seq; [now apply (checkpoint_ensures t)|].
  intros [[|] s'] w' (next & -> & J & -> & A); [auto|]. apply ensures_pure. split; [easy|now left].
Qed.

Lemma identity_ensures P w :
  invariant w -> (forall now, P {| invocation_id := invocation; timestamp := now |} w) ->
  ensures (record_identity invocation) P w.
Proof. intros J H. unfold record_identity. look. intros now _. apply ensures_pure, H. Qed.

Lemma finish_ensures t outcome fin s w :
  live t w -> quiet s -> (forall record, quiet (fin record s) \/ removed t w) ->
  (forall record, outcome = Ok record ->
     is_record "outcome" invocation record /\ (outcome_true record = true -> removed t w)) ->
  ensures (finish_outcome invocation outcome fin s) (fun r => over (snd r)) w.
Proof.
  intros L Q Fi R. unfold finish_outcome. destruct outcome as [record|[reason|]].
  2: { apply fatally_ensures; [apply L|]. split; [apply L|now left]. }
  2: { easy. }
  specialize (R record eq_refl) as [R O]. apply ensures_bind, ensures_act; [apply L| |].
  { destruct L as (_ & T & F & <- & _). exists t. auto. }
  intros r w' (l & -> & _ & _) J. assert (live t (set_log l w)) as L' by (destruct L as (_ & L); now split).
  destruct r as [u|reason]; [|apply fatally_ensures; [easy|]; split; [easy|now left]].
  eapply ensures_seq; [now apply (checkpoint_ensures t)|].
  intros [[|] s'] w' (next & -> & J' & -> & A).
  - apply ensures_pure. split; [easy|]. destruct (Fi record) as [H|H]; [now left|right].
    now apply (live_synced t).
  - apply fatally_ensures; [easy|]. split; [easy|now left].
Qed.

Lemma failure_ensures t error s w :
  live t w -> quiet s -> ensures (record_failure removal invocation error s) (fun r w' => over (snd r) w') w.
Proof.
  intros L Q. unfold record_failure. apply (with_tombstone_ensures t); [easy|split; [apply L|now left]|].
  destruct (parse_structured_outcome_error _) as [structured|f].
  - eapply ensures_seq; [apply (identity_ensures (fun i w' => w' = w /\ invocation_id i = invocation)); [apply L|easy]|].
    intros ident w' [-> I]. apply (finish_ensures t); [easy|easy|now left|].
    intros record H. apply reported_ok, failure_is_record in H as [H ->]. now rewrite I in H.
  - apply (finish_ensures t); [easy|easy|now left|easy].
Qed.

Lemma restore_ensures outcome s w :
  invariant w -> quiet s -> (outcome_true outcome = true -> all_done w) ->
  ensures (restore_terminal outcome s) (fun r => over (snd r)) w.
Proof.
  intros J Q D. unfold restore_terminal. fold (outcome_true outcome). destruct (outcome_true outcome).
  - apply ensures_pure. split; [easy|right; auto].
  - destruct (_ && _); [apply ensures_pure | apply fatally_ensures; [easy|]]; split; easy || now left.
Qed.

Lemma sync_ensures t s w :
  live t w -> quiet s -> ensures (sync_existing_outcome invocation s) (fun r => over (snd r)) w.
Proof.
  intros L Q. unfold sync_existing_outcome. pose proof (proj1 L) as J. look.
  intros [o|] [_ Pe]; [|apply fatally_ensures; [easy|]; split; [easy|now left]].
  destruct Pe as (scan & Lo & O). eapply ensures_seq; [now apply (checkpoint_ensures t)|].
  intros [[|] s'] w' (next & -> & J' & -> & A); [|apply fatally_ensures; [easy|]; split; [easy|now left]].
  apply restore_ensures; [easy|easy|]. intros T. apply (live_synced t); [easy|easy|].
  apply (u_outcome _ _ (live_unfinished _ _ L) scan o); [easy| |easy].
  destruct L as (_ & _ & _ & -> & _). easy.
Qed.

(** A step that leaves the configuration alone. *)
Definition stepped (target : RemovalTombstone -> Prop) (s : TransactionState) (w : Disk)
    (r : bool * TransactionState) (w' : Disk) : Prop :=
  invariant w' /\ quiet (snd r) /\ current_config (snd r) = current_config s /\
  (fst r = true ->
   exists next, live next w' /\ target next /\ cfg w' = cfg w /\ replacement w' = replacement w).

Lemma checkpoint_stepped t st s w :
  live t w -> stage_guard t st w -> quiet s -> st <> OutcomeSynced ->
  ensures (checkpoint invocation st s) (stepped (fun next => stage next = st) s w) w.
Proof.
  intros L G Q N. eapply ensures_weaken; [|now apply (checkpoint_ensures t)].
  intros [[|] s'] w' (next & -> & J & -> & A); (split; [easy|]; split; [easy|]; split; [easy|]); [|easy].
  intros _. exists next. destruct (live_next t st w next) as [L' E]; auto.
Qed.

Lemma intent_ensures t s w :
  live t w -> stage t = Planned -> quiet s ->
  ensures (ensure_intent c removal invocation authority confirmation s)
    (stepped (fun next => stage next = IntentSynced) s w) w.
Proof.
  intros L E Q. unfold ensure_intent. pose proof (proj1 L) as J. look.
  intros [presence|] [_ Pe]; [|apply fatally_ensures; easy].
  destruct Pe as (scan & Lo & ->). cbn [presence_in has_intent].
  destruct (knows invocation scan) eqn:K.
  { apply (checkpoint_stepped t); [easy| |easy|easy]. intros scan' Lo'.
    destruct L as (_ & _ & _ & -> & _). congruence. }
  eapply ensures_seq; [apply (identity_ensures (fun i w' => w' = w /\ invocation_id i = invocation)); easy|].
  intros ident w' [-> I].
  destruct (make_account_remove_audit_intent ident (p_plan removal) authority confirmation) as [record|reason] eqn:M;
    [|now apply ensures_pure].
  apply intent_is_record in M. rewrite I in M. apply ensures_bind, ensures_act; [easy| |].
  { destruct L as (_ & T & F & <- & _). exists t. auto. }
  intros r w' Pe J'. destruct r as [u|reason].
  2: { now apply ensures_pure. }
  destruct Pe as [[_ Pe]|(scan' & keep & l & _ & _ & -> & ->)]; [now destruct u|].
  eapply ensures_weaken; [|apply (checkpoint_stepped t); [now split; [|apply (proj2 L)]| |easy|easy]].
  - easy.
  - cbn. intros scan'' Lo'. unfold appended in Lo'.
    destruct (consume_audit_record record "audit.log" keep) as [sc|] eqn:C; [|discriminate].
    injection Lo' as <-. apply (intent_consumed _ _ _ _ _ M) in C as [C _].
    destruct L as (_ & _ & _ & -> & _). easy.
Qed.

(** ** The loop before the configuration is changed *)

(** The roots of the removal are those of its plan. *)
Definition roots_fit : Prop :=
  let i := input_ (p_plan removal) in
  p_data_root removal = {| root_path := fst (delete_paths i); root_identity := data_root i |} /\
  p_state_root removal = {| root_path := snd (delete_paths i); root_identity := state_root i |}.

Lemma observe_ensures t s w :
  roots_fit -> live t w -> current_config s = cfg w ->
  ensures (observe_facts removal invocation s) (fun o w' => w' = w /\
    (o = None \/ exists scan, log w = Some scan /\ o = Some (facts_of t w scan))) w.
Proof.
  intros [RD RS] L C. unfold observe_facts. pose proof (proj1 L) as J.
  look. intros d [_ D]. look. intros st [_ St]. look. intros presence [_ P].
  destruct d as [d|], st as [st|], presence as [presence|]; apply ensures_pure; auto.
  split; [easy|]. right. cbn in D, St. destruct P as (scan & Lo & ->). exists scan. split; [easy|].
  destruct L as (_ & _ & _ & I & P & _).
  unfold facts_of, data_path, state_path. now rewrite D, St, RD, RS, P, I, C.
Qed.

(** How many turns are left. *)
Definition turns (t : RemovalTombstone) : nat :=
  match stage t with
  | Planned => 4
  | IntentSynced | RemoteLogoutSendStarted => 3
  | RemoteConfirmed | RemoteNotPresent | RemoteKept | ClientCloseStarted => 2
  | _ => 1
  end.

Definition turned (t : RemovalTombstone) (s : TransactionState) (w : Disk) (turn : Loop) (w' : Disk) : Prop :=
  let going P := exists next, live next w' /\ P next /\ cfg w' = cfg w /\ replacement w' = replacement w in
  match turn with
  | Again s' => quiet s' /\ current_config s' = current_config s /\ going (fun next => (turns next < turns t)%nat)
  | Done b s' => over s' w' /\ (b = true -> quiet s' /\ going (fun next => stage next = ConfigRemoveStarted))
  end.

Lemma stepped_over target s w r w' : stepped target s w r w' -> over (snd r) w'.
Proof. intros (J & Q & _). split; [easy|now left]. Qed.

(** A step that the loop goes on after. *)
Lemma stepped_turned t st s w r w' :
  stepped (fun next => stage next = st) s w r w' -> (forall next, stage next = st -> (turns next < turns t)%nat) ->
  turned t s w (or_done (fst r) (snd r)) w'.
Proof.
  intros S T. pose proof (stepped_over _ _ _ _ _ S). destruct S as (J & Q & C & G), r as [[|] s']; cbn; [|easy].
  split; [easy|]. split; [easy|]. destruct (G eq_refl) as (next & ? & ? & ?). exists next. auto.
Qed.

(** The step that ends the loop. *)
Lemma stepped_done t s w r w' :
  stepped (fun next => stage next = ConfigRemoveStarted) s w r w' -> turned t s w (Done (fst r) (snd r)) w'.
Proof.
  intros S. split; [now apply (stepped_over _ _ _ _ _ S)|]. destruct S as (_ & Q & _ & S). intros B.
  split; [easy|]. exact (S B).
Qed.

Lemma over_turned t s w s' w' : over s' w' -> turned t s w (Done false s') w'.
Proof. now split. Qed.

(** A failure is recorded and the loop returns. *)
Lemma recorded_turned t u s0 w0 error s w :
  live t w -> quiet s ->
  ensures (recorded <- record_failure removal invocation error s ;; pure (Done false (snd recorded))) (turned u s0 w0) w.
Proof.
  intros L Q. eapply ensures_seq; [now apply (failure_ensures t)|]. intros r w' O. apply ensures_pure, over_turned, O.
Qed.

Lemma remote_ensures stages t s w :
  live t w -> quiet s -> forallb remote_stage stages = true ->
  ensures (remote_checkpoints invocation stages s) (fun s' w' =>
    quiet s' /\ current_config s' = current_config s /\ exists next, live next w' /\ w' = set_tombstone next w) w.
Proof.
  revert t s w. induction stages as [|st stages IH]; intros t s w L Q R; cbn [remote_checkpoints].
  { apply ensures_pure. split; [easy|]. split; [easy|]. exists t. split; [easy|].
    now rewrite set_tombstone_same by apply L. }
  cbn in R. apply andb_prop in R as [R0 R]. eapply ensures_seq; [apply (checkpoint_ensures t); [easy|now destruct st]|].
  intros r w' (next & -> & J & H).
  assert (live next (set_tombstone next w)) as L'.
  { assert (next = t \/ advanced_to t st next) as [->|A] by (destruct r as [[|] s']; tauto).
    - now rewrite set_tombstone_same by apply L.
    - destruct (live_next t st w next) as [L' _]; try easy. now intros ->. }
  assert (quiet (snd r) /\ current_config (snd r) = current_config s) as [Q' C]
    by (destruct r as [[|] s'], H as [-> _]; easy).
  eapply ensures_weaken; [|now apply (IH next)]. intros s' w' (Q'' & C' & n & Ln & ->). split; [easy|].
  split; [congruence|]. exists n. split; [exact Ln|easy].
Qed.

Lemma reevaluate_ensures t s w :
  live t w -> quiet s -> 1 <= rank (stage t) <= 2 ->
  ensures (reevaluate_remote removal invocation t s) (turned t s w) w.
Proof.
  intros L Q R. assert (turns t = 3%nat) as T by (unfold turns; destruct (stage t); cbn in R; easy || lia).
  assert (forall next st, stage next = st -> rank st = 3 -> (turns next < turns t)%nat) as Less
    by (intros next st E Rk; rewrite T; unfold turns; rewrite E; destruct st; cbn in Rk; lia).
  unfold reevaluate_remote. destruct (keep_session (input_ (p_plan removal))) eqn:K.
  { eapply ensures_seq; [now apply (checkpoint_stepped t)|]. intros r w' S. apply ensures_pure.
    eapply stepped_turned; [exact S|]. intros next E. now apply (Less next RemoteKept). }
  pose proof (proj1 L) as J. apply ensures_look; [easy| |now intros ? ? [-> _]|].
  { destruct L as (_ & Tm & F & _ & P & _). exists t. auto. }
  intros answer [_ A]. eapply ensures_seq; [now apply (remote_ensures (fst answer) t)|].
  intros s' w' (Q' & C & next & L' & ->). destruct (snd answer) as [result|error].
  - apply ensures_bind, (load_ensures next); [easy| |].
    + cbn [fst snd]. destruct (proof_is_durable result next) eqn:D.
      * apply ensures_pure. split; [easy|]. split; [easy|]. exists next. split; [easy|]. split; [|easy].
        unfold proof_is_durable in D. apply (Less next (stage next) eq_refl). destruct result, (stage next); easy.
      * destruct (fatal s'); [apply ensures_pure, over_turned; split; [apply L'|now left]|].
        now apply (recorded_turned next).
    + cbn [fst snd set_fatal fatal]. apply ensures_pure, over_turned. split; [apply L'|now left].
  - destruct (fatal s'); [apply ensures_pure, over_turned; split; [apply L'|now left]|].
    now apply (recorded_turned next).
Qed.

Lemma quiesce_ensures t s w :
  live t w -> quiet s -> turns t = 2%nat -> ensures (quiesce_client removal invocation t s) (turned t s w) w.
Proof.
  intros L Q T. unfold quiesce_client.
  eapply ensures_seq with (Q := stepped (fun next => stage next = ClientCloseStarted) s w).
  { destruct (eqb (stage t) ClientCloseStarted) eqn:E; [|now apply (checkpoint_stepped t)].
    apply eqb_eq in E. apply ensures_pure. split; [apply L|]. split; [easy|]. split; [easy|]. intros _. now exists t. }
  intros [b s'] w' S. pose proof (stepped_over _ _ _ _ _ S) as O. destruct S as (J & Q' & C & G), b; cbn [fst snd negb].
  2: { now apply ensures_pure, over_turned. }
  destruct (G eq_refl) as (next & L' & E & Cf & Re). apply ensures_bind, ensures_act; [easy| |].
  { destruct L' as (_ & Tm & F & _). exists next. auto. }
  intros [error|] w1 Pe J1; cbn in Pe; subst w1.
  - now apply (recorded_turned next).
  - assert (live next (close_client w')) as L1 by (split; [easy|apply (proj2 L')]).
    eapply ensures_seq; [now apply (checkpoint_stepped next)|]. intros r w1 S. apply ensures_pure.
    destruct S as (J2 & Q2 & C2 & G2), r as [[|] s2]; cbn in *.
    + split; [easy|]. split; [congruence|]. destruct (G2 eq_refl) as (n & Ln & En & H1 & H2). exists n. split; [easy|].
      split; [unfold turns at 1; rewrite En, T; auto|]. split; congruence.
    + split; [|easy]. split; [easy|now left].
Qed.

Lemma decided_stage t f action :
  decide_removal_recovery t f = Some action ->
  match action with
  | EnsureIntent => stage t = Planned \/ stage t = IntentSynced /\ has_intent (audit f) = false
  | ReevaluateRemote => 1 <= rank (stage t) <= 2
  | QuiesceClient => turns t = 2%nat
  | _ => True
  end.
Proof.
  unfold decide_removal_recovery, turns. cbv zeta.
  destruct (stage t); cbn [eqb eq_dec AuditStage_eq_dec rank];
    repeat match goal with |- context [if ?b then _ else _] => destruct b eqn:? end;
    intros H; try discriminate; injection H as <-; try easy; auto; try lia.
  right. split; [easy|]. match goal with H : (negb (has_intent _) || _)%bool = true |- _ => apply orb_prop in H as [H|H] end;
    [now apply negb_true_iff|discriminate].
Qed.

Lemma turn_ensures t s w :
  roots_fit -> live t w -> quiet s -> current_config s = cfg w ->
  ensures (recovery_turn c removal invocation authority confirmation s) (turned t s w) w.
Proof.
  intros RF L Q C. assert (over s w) as O by (split; [apply L|now left]).
  unfold recovery_turn. apply ensures_bind, (load_ensures t); [easy| |].
  2: { now apply ensures_pure, over_turned. }
  eapply ensures_seq; [now apply (observe_ensures t)|]. intros o w' [-> [->|(scan & Lo & ->)]].
  { apply ensures_bind, fatally_ensures; [apply L|]. now apply ensures_pure, over_turned. }
  destruct (decide_removal_recovery t (facts_of t w scan)) as [action|] eqn:D;
    [|now apply ensures_pure, over_turned].
  pose proof (decided_stage _ _ _ D) as St. destruct action; try (now apply ensures_pure, over_turned).
  - assert (stage t = Planned) as E.
    { destruct St as [E|[E N]]; [easy|]. change (knows (t_invocation_id t) scan = false) in N.
      rewrite (u_intent _ _ (live_unfinished _ _ L) ltac:(rewrite E; cbn; lia) scan Lo) in N. discriminate. }
    eapply ensures_seq; [now apply (intent_ensures t)|]. intros r w' S. apply ensures_pure.
    eapply stepped_turned; [exact S|]. intros next E'. unfold turns. rewrite E', E. auto.
  - now apply reevaluate_ensures.
  - now apply quiesce_ensures.
  - eapply ensures_seq; [now apply (checkpoint_stepped t ConfigRemoveStarted)|]. intros r w' S.
    now apply ensures_pure, stepped_done.
  - eapply ensures_seq; [now apply (checkpoint_stepped t ConfigRemoveStarted)|]. intros r w' S.
    now apply ensures_pure, stepped_done.
  - eapply ensures_seq; [now apply (sync_ensures t)|]. intros r w' Ov. now apply ensures_pure, over_turned.
Qed.

(** The removal is ready to be committed. *)
Definition ready (s : TransactionState) (w w' : Disk) : Prop :=
  quiet s /\ exists next, live next w' /\ stage next = ConfigRemoveStarted /\ cfg w' = cfg w /\
    replacement w' = replacement w.

Lemma loop_ensures fuel t s w :
  roots_fit -> live t w -> quiet s -> current_config s = cfg w ->
  ensures (execute_until_config c removal invocation authority confirmation fuel s) (fun r w' =>
    over (snd r) w' /\ (fst r = None -> (fuel < turns t)%nat) /\ (fst r = Some true -> ready (snd r) w w')) w.
Proof.
  revert t s w. induction fuel as [|fuel IH]; intros t s w RF L Q C; cbn [execute_until_config].
  { apply ensures_pure. split; [split; [apply L|now left]|]. split; [|easy]. unfold turns. destruct (stage t); lia. }
  eapply ensures_seq; [now apply (turn_ensures t)|]. intros [s'|b s'] w' T.
  - destruct T as (Q' & C' & next & L' & Le & Cf & Re).
    eapply ensures_weaken; [|apply (IH next); [easy|easy|easy|congruence]].
    intros r w1 (O & F & R). split; [easy|]. split; [intros N; specialize (F N); lia|].
    intros N. destruct (R N) as (Q1 & n & Ln & En & H1 & H2). split; [easy|]. exists n.
    split; [easy|]. split; [easy|]. split; congruence.
  - destruct T as [O R]. apply ensures_pure. split; [easy|]. split; [easy|]. cbn. intros [= ->]. now apply R.
Qed.
End steps.
