(* ===== verification/RemovalClaims.v ===== *)
(** Account removal as a whole: the half of the transaction after the
    configuration is changed, the attempt from its request to its report, and the
    theorems about every execution, interrupted or not, of every sequence of
    attempts. *)
From S2P Require Import Prelude Json Paths DestructivePlan DestructivePlanFacts Frame DestructiveContract RemovalJournal Effects AccountRemoval RemovalWorld RemovalInvariant RemovalLogic RemovalSteps.
Open Scope kernel_scope.

Section finish.
Context (c : Coordinator) (request : Request) (removal : PlannedAccountRemoval) (invocation : string)
  (authority : AuthoritySource) (confirmation : ConfirmationSource).
Context (RF : roots_fit removal).

Local Notation live := (live c removal invocation).
Local Notation ends := (fun r : bool * TransactionState => over (snd r)).

(** ** After the configuration is changed *)

Lemma checkpoint_from_ensures t from st s k w :
  live t w -> quiet s -> (stage t = from -> stage_guard t st w) -> st <> OutcomeSynced ->
  (forall next w', live next w' -> ensures request (k s) ends w') ->
  ensures request (checkpoint_from invocation t from st s k) ends w.
Proof.
  intros L Q G N K. unfold checkpoint_from. destruct (eqb (stage t) from) eqn:E; [|now apply (K t)].
  apply eqb_eq in E. apply (checkpointed_ensures c request removal invocation t); auto.
  intros next A J. apply (K next). now apply (live_next c removal invocation t st w next).
Qed.

Definition root_started (label : Label) : AuditStage :=
  match label with DataRoot => DataRemoveStarted | StateRoot => StateRemoveStarted end.
Definition root_gone (label : Label) : AuditStage :=
  match label with DataRoot => DataRemoved | StateRoot => StateRemoved end.
Definition root_of (label : Label) : CapturedRemovalRoot :=
  match label with DataRoot => p_data_root removal | StateRoot => p_state_root removal end.

Lemma delete_guard label t w :
  live t w -> stage t = root_started label -> guard request (DeleteRoot (root_of label) invocation label) w.
Proof.
  intros (_ & T & F & I & P & _) E. destruct RF as [RD RS].
  destruct label; cbn [guard root_of]; exists t; rewrite ?RD, ?RS; unfold data_path, state_path; rewrite P; auto.
Qed.

Lemma deleted_guard label t w :
  live t w -> stage_guard t (root_gone label) (set_dir (root_path (root_of label)) Nothing w).
Proof.
  intros (_ & _ & _ & _ & P & _). destruct RF as [RD RS].
  destruct label; cbn [root_gone stage_guard root_of]; rewrite ?RD, ?RS; unfold data_path, state_path; rewrite P;
    apply set_dir_same.
Qed.

Lemma delete_root_ensures label t failed s k w :
  live t w -> quiet s -> (forall next w', live next w' -> ensures request (k s) ends w') ->
  ensures request
    (delete_root removal invocation t (root_started label) (root_gone label) (root_of label) label failed s k) ends w.
Proof.
  intros L Q K. unfold delete_root. destruct (eqb (stage t) (root_started label)) eqn:E; [|now apply (K t)].
  apply eqb_eq in E. apply ensures_bind, ensures_act; [apply L|now apply (delete_guard label t)|].
  intros r w' (d & _ & -> & Pe) J.
  assert (live t (set_dir (root_path (root_of label)) d w)) as L' by (split; [easy|apply (proj2 L)]).
  destruct r as [u|reason]; [cbn in Pe; subst d|now apply (failure_ensures c request removal invocation t)].
  apply (checkpointed_ensures c request removal invocation t); [easy|now apply deleted_guard|easy|].
  intros next A J'. apply (K next). refine (proj1 (live_next c removal invocation t _ _ next L' _ A J')). now destruct label.
Qed.

Lemma state_removed t w : unfinished t w -> stage t = StateRemoved -> removed t w.
Proof.
  intros U E. destruct (u_config _ _ U) as (_ & _ & C), (u_data _ _ U) as (_ & _ & D), (u_state _ _ U) as (_ & _ & S).
  rewrite E in *. cbn [rank] in *. split; [apply C; lia|]. split; [apply D; lia|apply S; lia].
Qed.

Lemma finish_removal_ensures t s w :
  live t w -> quiet s -> ensures request (finish_removal removal invocation s) ends w.
Proof.
  intros L Q. assert (over s w) as O by (split; [apply L|now left]). unfold finish_removal.
  apply (with_tombstone_ensures c request removal invocation t); [easy|easy|].
  destruct (eqb (stage t) StateRemoved) eqn:E; cbn [negb]; [|now apply ensures_pure].
  apply eqb_eq in E. pose proof (state_removed _ _ (live_unfinished _ _ _ _ _ L) E) as R.
  eapply ensures_seq;
    [apply (identity_ensures request invocation (fun i w' => w' = w /\ invocation_id i = invocation)); [apply L|easy]|].
  intros ident w' [-> I]. apply (finish_ensures c request removal invocation t); [easy|easy|now right|].
  intros record H. apply reported_ok, success_is_record in H. rewrite I in H. now split.
Qed.

Lemma delete_roots_ensures t s w :
  live t w -> quiet s -> ensures request (delete_roots c removal invocation s) ends w.
Proof.
  intros L Q. assert (forall t w, live t w -> over (set_fatal s) w) as O by (intros t' w' L'; split; [apply L'|now left]).
  unfold delete_roots.
  apply (with_tombstone_ensures c request removal invocation t); [easy|now apply (O t)|].
  apply checkpoint_from_ensures; [easy|easy|easy|easy|]. clear t w L. intros t w L.
  apply (with_tombstone_ensures c request removal invocation t); [easy|now apply (O t)|].
  apply (delete_root_ensures DataRoot); [easy|easy|]. clear t w L. intros t w L.
  apply (with_tombstone_ensures c request removal invocation t); [easy|now apply (O t)|].
  apply checkpoint_from_ensures; [easy|easy|easy|easy|]. clear t w L. intros t w L.
  apply (with_tombstone_ensures c request removal invocation t); [easy|now apply (O t)|].
  apply (delete_root_ensures StateRoot); [easy|easy|]. clear t w L. intros t w L.
  now apply (finish_removal_ensures t).
Qed.

Lemma post_commit_ensures t s w :
  live t w -> quiet s -> (stage t = ConfigRemoveStarted -> config_is_removed t (cfg w) = true) ->
  ensures request (post_commit c removal invocation s) ends w.
Proof.
  intros L Q G. assert (over (set_fatal s) w) as O by (split; [apply L|now left]). pose proof (proj1 L) as J.
  unfold post_commit. apply (with_tombstone_ensures c request removal invocation t); [easy|easy|].
  destruct L as (_ & T & F & L'). fold (finished t). rewrite F.
  assert (live t w) as L by (split; [easy|split; [easy|split; [easy|exact L']]]). look.
  intros [presence|] _; [|now apply fatally_ensures].
  destruct (has_outcome presence); [now apply (sync_ensures c request removal invocation t)|].
  apply checkpoint_from_ensures; [easy|easy|easy|easy|]. intros next w' Ln. now apply (delete_roots_ensures next).
Qed.

Lemma finalize_ensures t ident s w :
  live t w -> quiet s -> (stage t = ConfigRemoveStarted -> config_is_removed t (cfg w) = true) ->
  ensures request (finalize c removal invocation ident s) (fun r w' => over (snd r) w' /\ fst r <> None) w.
Proof.
  intros L Q G. unfold finalize. eapply ensures_seq; [now apply (post_commit_ensures t)|].
  intros [[|] s'] w' O; now apply ensures_pure.
Qed.

(** ** The transaction *)

(** The attempt may go on: the tombstone is there, or all is as it was planned. *)
Definition starting (w : Disk) : Prop :=
  invariant w /\ account (input_ (p_plan removal)) = account_ c /\ p_config removal = cfg w /\
  match p_recovery removal with
  | Some t => live t w
  | None =>
      let t := created_tombstone invocation (p_plan removal) in
      idle w /\ unused invocation w /\ captured_config t (cfg w) /\ data_path t <> state_path t
  end.

Lemma starting_replacement r w : starting w -> starting (set_replacement r w).
Proof.
  intros (J & A & C & S). apply (replacement_invariant r) in J. split; [easy|]. split; [easy|]. split; [easy|].
  destruct (p_recovery removal); [|easy]. split; [easy|apply (proj2 S)].
Qed.

Lemma pre_commit_ensures fuel s w :
  starting w -> quiet s -> current_config s = cfg w ->
  ensures request
    (pre_commit c removal invocation authority confirmation fuel (present (p_recovery removal)) s)
    (fun r w' => over (snd r) w' /\ (fst (fst r) = None -> (fuel < 4)%nat) /\
                 (fst (fst r) = Some true -> ready c removal invocation (snd r) w w')) w.
Proof.
  intros (J & A & C & S) Q CC. unfold pre_commit.
  assert (forall t w', live t w' -> cfg w' = cfg w -> replacement w' = replacement w ->
    ensures request (done <- execute_until_config c removal invocation authority confirmation fuel s ;;
                     pure (fst done, true, snd done))
      (fun r w' => over (snd r) w' /\ (fst (fst r) = None -> (fuel < 4)%nat) /\
                   (fst (fst r) = Some true -> ready c removal invocation (snd r) w w')) w') as Run.
  { intros t w' L Cf Re. eapply ensures_seq; [apply (loop_ensures c request removal invocation authority confirmation fuel t); auto; congruence|].
    intros r w1 (O & F & R). apply ensures_pure. split; [easy|]. split.
    - intros N. specialize (F N). unfold turns in F. destruct (stage t); cbn in F; lia.
    - intros B. destruct (R B) as (Q1 & n & Ln & En & H1 & H2). split; [easy|]. exists n.
      split; [easy|]. split; [easy|]. split; cbn; congruence. }
  destruct (p_recovery removal) as [t|]; cbn [present]; [now apply (Run t)|].
  assert (over s w) as O by (split; [easy|now left]). destruct S as (Id & U & Ca & P). destruct RF as [RD RS].
  look. intros [u|reason] [_ D]; [|now apply ensures_pure].
  look. intros [v|reason] [_ St]; [|now apply ensures_pure]. cbn in D, St. rewrite RD in D. rewrite RS in St.
  apply ensures_bind, ensures_act; [easy|easy|]. intros [x|reason] w' [_ Pe] J'; cbn in Pe.
  - subst w'. apply (Run (created_tombstone invocation (p_plan removal))); [|easy|easy].
    split; [easy|]. now rewrite <- A.
  - apply ensures_pure. split; [split; [easy|now left]|easy].
Qed.

Lemma admission_ensures current s w :
  starting w -> quiet s -> current = cfg w ->
  ensures request (already_committed_admission removal invocation (present (p_recovery removal)) current s)
    (fun r w' => w' = w /\ quiet (snd r) /\
                 (fst r = true -> exists t, live t w /\ ~ rolled_back t w)) w.
Proof.
  intros (J & A & C & S) Q ->. unfold already_committed_admission.
  destruct (p_recovery removal) as [t|]; cbn [present negb]; [|now apply ensures_pure].
  apply (with_tombstone_ensures c request removal invocation t); [easy|easy|].
  eapply ensures_seq; [now apply (observe_ensures c request removal invocation t)|].
  intros o w' [-> [->|(scan & Lo & ->)]]; apply ensures_pure; [easy|]. split; [easy|]. split; [easy|].
  intros D. exists t. split; [easy|]. intros B. cbn in D. now rewrite (rolled_back_undecided t w scan B) in D.
Qed.

(** The replacement is the configuration without the account. *)
Lemma replacement_removes t w ident default left_ :
  live t w -> stage t = ConfigRemoveStarted -> cfg w = p_config removal -> account (input_ (p_plan removal)) = account_ c ->
  apply_remove (p_config removal) (account_ c) (config_mutation_reassignment removal) = Some (default, left_) ->
  config_is_removed t {| identity := ident; default_account := default; accounts := left_ |} = true.
Proof.
  intros L E Cf A R. pose proof (live_unfinished _ _ _ _ _ L) as U. destruct L as (_ & _ & _ & _ & P & Ac).
  destruct (u_config _ _ U) as (_ & [Ca|Re] & _); [now rewrite E| |].
  - apply (mutation_removes t removal); [now rewrite <- Cf|easy|congruence|now rewrite Ac].
  - unfold config_is_removed in Re. apply andb_prop in Re as [Re _]. rewrite Cf, Ac in Re.
    unfold apply_remove in R. rewrite Re in R. discriminate.
Qed.

Lemma remove_account_ensures fuel s w :
  starting w -> quiet s -> current_config s = cfg w ->
  ensures request
    (remove_account c removal invocation authority confirmation fuel (present (p_recovery removal)) s)
    (fun r w' => over (snd r) w' /\ (fst r = None -> (fuel < 4)%nat)) w.
Proof.
  intros S Q CC. pose proof S as (J & A & Cf & _). assert (over s w) as O by (split; [easy|now left]).
  unfold remove_account. apply ensures_bind, ensures_act; [easy|easy|].
  intros [result|current|] w' Pe J'; cbn in Pe.
  - subst w'. apply ensures_pure. now split.
  - destruct Pe as (-> & Cur & N). eapply ensures_seq; [now apply admission_ensures|].
    intros [[|] s'] w' (-> & Q' & Ad); cbn [fst snd] in *.
    2: { apply ensures_pure. split; [split; [easy|now left]|easy]. }
    destruct (Ad eq_refl) as (t & L & NB). eapply ensures_weaken; [|apply (finalize_ensures t); [easy|easy|]].
    { intros r w' [O' F]. now split. }
    intros E. pose proof (live_unfinished _ _ _ _ _ L) as U. destruct (u_config _ _ U) as (_ & [Ca|Re] & _);
      [now rewrite E| |easy].
    destruct L as (_ & _ & _ & _ & P & _). exfalso. apply NB. split; [easy|]. split; [easy|].
    now rewrite P, <- Cur.
  - destruct Pe as (ident & default & left_ & Id & Ap & ->).
    eapply ensures_seq; [apply pre_commit_ensures; [now apply starting_replacement|easy|easy]|].
    intros [[o cr] s'] w' (O' & F & R). destruct o as [[|]|]; cbn [fst snd] in *;
      [|now apply ensures_pure|apply ensures_pure; split; [easy|auto]].
    destruct (R eq_refl) as (Q' & t & L & E & Cf' & Re). cbn in Cf', Re.
    assert (config_is_removed t {| identity := ident; default_account := default; accounts := left_ |} = true) as Rm
      by (apply (replacement_removes t w'); try easy; [congruence|now rewrite Cf]).
    apply ensures_bind, ensures_act; [apply L| |].
    { destruct L as (_ & T & Fi & _). exists t. eauto 6. }
    intros [failed|] w1 [Pe Pr] J1.
    + apply ensures_pure. split; [split; [easy|now left]|easy].
    + destruct Pr as (next & Nx & ->). rewrite Re in Nx. injection Nx as <-.
      eapply ensures_weaken; [|apply (finalize_ensures t); [split; [easy|apply (proj2 L)]|easy|easy]].
      intros r w2 [O2 F2]. now split.
Qed.

Lemma report_ensures mutation s w :
  over s w -> ensures request (report c removal mutation s) (fun _ _ => True) w.
Proof.
  intros [J O]. unfold report. destruct (fatal s); [easy|].
  assert (forall error, ensures request (act (SessionError error) : stmt Effect unit unit) (fun _ _ => True) w) as Er
    by (intros error; now apply ensures_act).
  destruct (terminal_ready s); [|now destruct (mutation_status mutation)].
  eapply ensures_seq with (Q := fun _ w' => w' = w).
  - destruct (terminal_error s) as [error|]; [now apply ensures_act|].
    destruct (terminal_result s) as [value|] eqn:T; [|now apply ensures_pure].
    apply ensures_act; [easy| |easy]. right. destruct O as [O|O]; [unfold quiet in O; congruence|easy].
  - intros _ w' ->. destruct (client_quiesced s); [now apply ensures_act|now apply ensures_pure].
Qed.
End finish.

(** ** Planning and the attempt *)

Lemma component_prefix_refl l : component_prefix l l = true.
Proof. induction l as [|x l IH]; cbn; [easy|]. now rewrite String.eqb_refl. Qed.

Lemma plan_paths_differ i p : make_account_remove_plan i = Ok p -> fst (delete_paths i) <> snd (delete_paths i).
Proof.
  unfold make_account_remove_plan. destruct (delete_paths i) as [d0 d1]. rewrite !check_seq.
  intros (_ & P & _) E. cbn in E. subst d1. unfold overlapping_paths in P.
  now rewrite component_prefix_refl, !orb_true_r in P.
Qed.

Lemma find_has_key {A} k (m : list (string * A)) v : find_in k m = Some v -> has_key k m = true.
Proof. unfold has_key. now intros ->. Qed.

(** What a plan says of the world it was made in. *)
Definition planned_in (c : Coordinator) (removal : PlannedAccountRemoval) (w : Disk) : Prop :=
  roots_fit removal /\ account (input_ (p_plan removal)) = account_ c /\ p_config removal = cfg w /\
  match p_recovery removal with
  | Some t => tombstone w = Some t /\ finished t = false /\ plan t = p_plan removal /\ t_account t = account_ c
  | None =>
      idle w /\ (forall invocation, captured_config (created_tombstone invocation (p_plan removal)) (cfg w)) /\
      fst (delete_paths (input_ (p_plan removal))) <> snd (delete_paths (input_ (p_plan removal)))
  end.

Section attempt.
Context (c : Coordinator) (request : Request).

Lemma fresh_ensures snapshot keep requested w :
  invariant w -> idle w -> snapshot = cfg w ->
  ensures request (plan_fresh c snapshot (account_ c) keep requested)
    (fun r w' => w' = w /\ match r with Ok removal => planned_in c removal w | Err _ => True end) w.
Proof.
  intros J Id ->. unfold plan_fresh. destruct (find_in (account_ c) (accounts (cfg w))) as [found|] eqn:F;
    [|now apply ensures_pure].
  destruct (resulting_default (cfg w) (account_ c) requested) as [default|] eqn:D; [|now apply ensures_pure].
  destruct (account_data_dir (account_ c) (environment_ c)) as [d0|]; [|easy].
  destruct (account_state_dir (account_ c) (environment_ c)) as [d1|]; [|easy].
  look. intros [data|reason] _; [|now apply ensures_pure]. look. intros [state|reason] _; [|now apply ensures_pure].
  destruct (make_account_remove_plan _) as [p|] eqn:M; [|now apply ensures_pure]. apply ensures_pure. split; [easy|].
  pose proof (plan_paths_differ _ _ M) as Di. apply make_account_remove_roots in M as (-> & _).
  split; [now split|]. split; [easy|]. split; [easy|]. split; [easy|]. split; [|easy]. intros invocation. split.
  - unfold config_is_captured. cbn. now rewrite String.eqb_refl, (find_has_key _ _ _ F).
  - exists requested. exact D.
Qed.

Lemma plan_ensures acct keep requested w :
  invariant w -> acct = account_ c ->
  ensures request (plan_account_removal c acct keep requested)
    (fun r w' => w' = w /\ match r with Ok removal => planned_in c removal w | Err _ => True end) w.
Proof.
  intros J ->. unfold plan_account_removal. destruct (negb (valid_account_name (account_ c))); [now apply ensures_pure|].
  look. intros inspected [_ I]. cbn in I. destruct (inspection inspected) as [|t|reason]; [| |now apply ensures_pure].
  - look. intros [snapshot| | |reason] [_ C]; try (now apply ensures_pure). now apply fresh_ensures.
  - look. intros [snapshot| | |reason] [_ C]; try (now apply ensures_pure).
    destruct (_ || _); [now apply ensures_pure|]. apply ensures_pure. split; [easy|].
    destruct I as (T & F & A). pose proof (u_account _ _ (J t T F)) as Ac. cbn in C.
    split; [now split|]. split; [cbn; congruence|]. now split.
Qed.

Lemma fail_ensures {A} error (P : A -> Disk -> Prop) w :
  invariant w -> ensures request (fail_with error) P w.
Proof. intros J. unfold fail_with. look. intros _ _. apply ensures_return. Qed.

Lemma confirm_ensures p w :
  invariant w -> ensures request (confirm c request p) (fun _ w' => w' = w) w.
Proof.
  intros J. unfold confirm. destruct (yes (context request)); [now apply ensures_pure|]. look. intros answer _.
  destruct answer as [[[|]|]|silent]; try (now apply ensures_pure); look; intros b _;
    (destruct (_ || _); [apply ensures_return|now apply fail_ensures]).
Qed.

Lemma authorise_ensures removal w :
  invariant w -> ensures request (authorise c request removal) (fun _ w' => w' = w) w.
Proof.
  intros J. unfold authorise. destruct (evaluate_destructive_authority _ _);
    [now apply fail_ensures|now apply ensures_pure|now apply fail_ensures].
Qed.

Lemma admit_ensures w :
  invariant w ->
  ensures request (admit_removal c request)
    (fun r w' => let '(removal, invocation, _, _) := r in
                 w' = w /\ roots_fit removal /\ starting c removal invocation w) w.
Proof.
  intros J. unfold admit_removal. destruct (parse_arguments request) as [arguments|error]; [|now apply fail_ensures].
  destruct (_ || _) eqn:Ac; [now apply fail_ensures|]. apply orb_false_elim in Ac as [Ac _].
  apply negb_false_iff, String.eqb_eq in Ac. eapply ensures_seq; [now apply plan_ensures|].
  intros [removal|error] w' [-> P]; [|now apply fail_ensures]. destruct (dry_run (context request)) eqn:Dr.
  { apply ensures_look; [easy|now left|now intros ? ? -> |]. intros _ _. apply ensures_return. }
  eapply ensures_seq; [now apply authorise_ensures|]. intros source w' ->.
  eapply ensures_seq; [now apply confirm_ensures|]. intros confirmation w' ->.
  destruct P as (RF & A & C & P).
  eapply ensures_seq with (Q := fun invocation w' => w' = w /\ starting c removal invocation w).
  - unfold starting. destruct (p_recovery removal) as [t|].
    + apply ensures_pure. split; [easy|]. destruct P as (T & F & Pl & At).
      split; [easy|]. split; [easy|]. split; [easy|]. repeat (split; [easy|]). easy.
    + apply ensures_act; [easy|easy|]. intros invocation w' [-> U] _. destruct P as (Id & Ca & Di).
      split; [easy|]. split; [easy|]. split; [easy|]. split; [easy|]. split; [easy|]. now split.
  - intros invocation w' [-> S]. destruct (str_empty invocation); [now apply fail_ensures|]. now apply ensures_pure.
Qed.

Lemma remove_ensures fuel w : invariant w -> ensures request (remove c fuel request) (fun _ _ => True) w.
Proof.
  intros J. unfold remove. eapply ensures_seq; [now apply admit_ensures|].
  intros [[[removal invocation] source] confirmation] w' (-> & RF & S). look.
  intros designated _. destruct designated; [|now apply fail_ensures|now apply fail_ensures|apply ensures_return].
  eapply ensures_seq; [apply remove_account_ensures; [easy|easy|easy|]; apply S|].
  intros [[mutation|] s'] w' [O _]; [now apply report_ensures|now apply ensures_pure].
Qed.

End attempt.

Lemma reachable_invariant c w : reachable c w -> invariant w.
Proof.
  induction 1 as [w I|w fuel request q w' R J P].
  - intros t T F. rewrite (I t T) in F. discriminate.
  - apply replacement_invariant. now apply (safe_reaches request _ q _ w w' J (remove_ensures c request fuel w J)).
Qed.

(** Every effect of every attempt is made when its guard holds. *)
Lemma attempt_guarded c w fuel request X (e : Effect X) k w' :
  reachable c w -> reaches (remove c fuel request) w (Do e k) w' -> invariant w' /\ guard request e w'.
Proof.
  intros R P. apply reachable_invariant in R.
  apply (safe_reaches request _ _ _ _ _ R (remove_ensures c request fuel w R)) in P as [J S]. split; [easy|]. apply S.
Qed.

(** An attempt of the account comes to its transaction in [w]. *)
Definition admitted_to (c : Coordinator) (request : Request) (removal : PlannedAccountRemoval)
    (invocation : string) (w : Disk) : Prop :=
  exists w0 sources, reachable c w0 /\
    reaches (admit_removal c request) w0 (Ret (Value (removal, invocation, fst sources, snd sources))) w.

Lemma admitted_starting c request removal invocation w w0 sources :
  reachable c w0 ->
  reaches (admit_removal c request) w0 (Ret (Value (removal, invocation, fst sources, snd sources))) w ->
  roots_fit removal /\ starting c removal invocation w.
Proof.
  intros R P. apply reachable_invariant in R.
  assert (safe request (admit_removal c request) (fun r w' => match r with
    | Value (removal, invocation, _, _) => roots_fit removal /\ starting c removal invocation w'
    | _ => True end) w0) as E.
  { eapply safe_weaken; [|exact (admit_ensures c request w0 R)].
    intros [[[[rm inv] a] cf]|r|] w1; [intros (-> & H)|easy..]. exact H. }
  apply (safe_reaches request _ _ _ w0 w R E) in P as [_ P]. exact P.
Qed.

(** * The theorems *)

(** The order of a removal, as facts about the world in which an effect is made. *)
Definition in_order {X} (e : Effect X) (w : Disk) : Prop :=
  let agreed t := intent_logged (t_invocation_id t) w in
  match e with
  | CreateTombstone invocation p => idle w /\ unused invocation w /\ identity (cfg w) = config_snapshot (input_ p)
  | ProveRemoteLogout p _ => under_way w (fun t => plan t = p /\ keep_session (input_ p) = false /\ agreed t)
  | Quiesce => under_way w agreed
  | CommitMutation => under_way w (fun t => agreed t /\ quiesced w = true)
  | DeleteRoot root _ DataRoot =>
      under_way w (fun t => agreed t /\ quiesced w = true /\ config_is_removed t (cfg w) = true /\
        root = {| root_path := data_path t; root_identity := data_root (input_ (plan t)) |})
  | DeleteRoot root _ StateRoot =>
      under_way w (fun t => agreed t /\ quiesced w = true /\ config_is_removed t (cfg w) = true /\
        dirs w (data_path t) = Nothing /\
        root = {| root_path := state_path t; root_identity := state_root (input_ (plan t)) |})
  | _ => True
  end.

(** C12.  Account removal keeps its order whatever fails and wherever earlier
    attempts stopped: a removal begins only when none is under way; Telegram is
    asked to log out, and the client is closed, only when the intent is in the
    log; the configuration is replaced only after the client was closed; the data
    directory is deleted only when the configuration no longer has the account,
    the state directory only when the data directory is gone, and only the
    directories of the plan are deleted. *)
Theorem removal_order c w fuel request X (e : Effect X) k w' :
  reachable c w -> reaches (remove c fuel request) w (Do e k) w' -> in_order e w'.
Proof.
  intros R P. apply (attempt_guarded c w fuel request) in P as [J G]; [|easy].
  destruct e; cbn [in_order]; auto; cbn [guard] in G.
  - destruct label, G as (t & T & F & _ & E & ->); exists t; pose proof (J t T F) as U;
      destruct (u_config _ _ U) as (_ & _ & C), (u_data _ _ U) as (_ & _ & D);
      pose proof (u_intent _ _ U) as I; pose proof (u_closed _ _ U) as Q; rewrite E in *; cbn [rank] in *;
      repeat (split; [easy || (first [apply I | apply Q | apply C | apply D]; lia)|]); easy.
  - destruct G as (Id & Un & (C & _) & _). split; [easy|]. split; [easy|].
    unfold config_is_captured in C. apply andb_prop in C as [C _]. now apply String.eqb_eq in C.
  - destruct G as (t & T & F & E & next & _). exists t. pose proof (J t T F) as U. split; [easy|]. split; [easy|].
    pose proof (u_intent _ _ U) as I; pose proof (u_closed _ _ U) as Q; rewrite E in *; cbn [rank] in *.
    split; [apply I; lia|apply Q; lia].
  - destruct G as (t & T & F & Pl & K & Rk). exists t. split; [easy|]. split; [easy|]. split; [easy|]. split; [easy|].
    apply (u_intent _ _ (J t T F)). lia.
  - destruct G as (t & T & F & E). exists t. split; [easy|]. split; [easy|].
    apply (u_intent _ _ (J t T F)). rewrite E. cbn. lia.
Qed.

(** C13.  A removal is reported, and recorded in the log, as successful only when
    the account is gone: its configuration entry removed with the default that the
    plan chose, and both directories deleted; when the session is told, the
    tombstone is terminal too.  (A dry run reports its plan.) *)
Theorem removal_success_honest c w fuel request X (e : Effect X) k w' :
  reachable c w -> reaches (remove c fuel request) w (Do e k) w' ->
  match e with
  | AppendOutcome record => outcome_true record = true -> under_way w' (fun t => removed t w')
  | SessionResult _ => dry_run (context request) = true \/ all_done w'
  | _ => True
  end.
Proof.
  intros R P. apply (attempt_guarded c w fuel request) in P as [_ G]; [|easy]. destruct e; auto.
  intros T. destruct G as (t & Tm & F & _ & G). exists t. auto.
Qed.

(** C14.  When a later attempt knows what to do: wherever attempts were interrupted,
    and as long as the log can be read, the recovery table finds the state of an
    unfinished removal ambiguous exactly when the replacement of the
    configuration was rolled back, by a commit that failed or by the recovery of
    an interrupted one.  Then the file has the planned text, but another identity,
    and the table refuses it. *)
Theorem recovery_ambiguous_iff c w t scan :
  reachable c w -> tombstone w = Some t -> finished t = false -> log w = Some scan ->
  decide_removal_recovery t (facts_of t w scan) = None <-> rolled_back t w.
Proof.
  intros R T F L. split; [|apply rolled_back_undecided]. intros D.
  pose proof (reachable_invariant c w R t T F) as U. pose proof (u_config _ _ U) as (_ & C & _).
  destruct (eqb (stage t) ConfigRemoveStarted) eqn:E.
  - apply eqb_eq in E. destruct (String.eqb (identity (cfg w)) (config_snapshot (input_ (plan t)))) eqn:I.
    + exfalso. apply (unfinished_decided t w scan U L); [|exact D]. intros (_ & _ & N).
      apply String.eqb_eq in I. contradiction.
    + apply String.eqb_neq in I. destruct C as [C|C]; [now rewrite E|now split|]. exfalso.
      apply (unfinished_decided t w scan U L); [|exact D]. intros (_ & (ident & Ca & _) & _).
      apply captured_not_removed in Ca. unfold config_is_removed in *. cbn in Ca. congruence.
  - exfalso. apply (unfinished_decided t w scan U L); [|exact D]. intros (E' & _).
    now rewrite E', eqb_refl in E.
Qed.

(** C37.  The transaction returns: the loop that brings a removal to the change
    of the configuration is left within four turns, from whatever stage it resumes
    and whatever fails. *)
Theorem removal_returns c request removal invocation authority confirmation fuel w mutation s w' :
  admitted_to c request removal invocation w -> (4 <= fuel)%nat ->
  reaches (remove_account c removal invocation authority confirmation fuel (present (p_recovery removal))
             (initial_state removal)) w (Ret (Value (mutation, s))) w' ->
  mutation <> None.
Proof.
  intros [w0 [k [R P]]] Fu Q. destruct (admitted_starting c request removal invocation w w0 k R P) as [RF S].
  pose proof (proj1 S) as J. pose proof (proj1 (proj2 (proj2 S))) as C.
  pose proof (remove_account_ensures c request removal invocation authority confirmation RF fuel
                (initial_state removal) w S eq_refl C) as E.
  apply (safe_reaches request _ _ _ w w' J E) in Q as [_ [_ F]]. cbn in F. intros N. specialize (F N). lia.
Qed.

(** The recovery table compares the identity of the whole configuration
    file: before the configuration entry is removed, any other identity blocks the
    removal, also when the entry of the account and the default are as they were.
    The identity includes the time of the last status change, which a rolled-back
    replacement of the file does not restore. *)
Theorem other_identity_blocks_removal t facts other :
  rank (stage t) <= 6 -> finished t = false -> config_is_captured t (config facts) = true ->
  other <> config_snapshot (input_ (plan t)) ->
  decide_removal_recovery t
    {| config := {| identity := other; default_account := default_account (config facts);
                    accounts := accounts (config facts) |};
       data := data facts; state := state facts; audit := audit facts |} = None.
Proof.
  intros R F C N. unfold decide_removal_recovery. cbv zeta. fold (finished t). rewrite F.
  cbn [config data state audit]. unfold config_is_captured in *. apply andb_prop in C as [_ C].
  unfold config_is_removed. cbn [identity accounts default_account]. rewrite C. apply String.eqb_neq in N. rewrite N.
  cbn [andb negb orb]. destruct (has_outcome (audit facts) && negb (has_intent (audit facts))); [easy|].
  destruct (stage t); cbn in R; easy || lia.
Qed.
