(* ===== verification/RemovalSamples.v ===== *)
(** Executions of account removal in which every effect succeeds: [succeed]
    answers an effect as the world allows, [run] performs the first effects of a
    program.  With them, the witnesses of the theorems about removals. *)
From S2P Require Import Prelude Json Paths DestructivePlan Frame DestructiveContract RemovalJournal Effects AccountRemoval RemovalWorld RemovalInvariant RemovalLogic RemovalSteps RemovalClaims.

(** * Successful effects *)

Definition sample_invocation : string := "0123456789abcdef0123456789abcdef".

Definition known_to (invocation : string) (w : Disk) : bool :=
  match tombstone w with Some t => String.eqb (t_invocation_id t) invocation | None => false end
  || match log w with
     | Some scan => knows invocation scan || has_key invocation (outcomes scan)
     | None => false
     end.

Definition succeed {X} (e : Effect X) (w : Disk) : option (X * Disk) :=
  match e in Effect X return option (X * Disk) with
  | InspectAccount acct =>
      match tombstone w with
      | Some t =>
          if finished t then Some ({| inspection := InspectionClean; inspected_path := EmptyString |}, w)
          else if String.eqb (t_account t) acct
          then Some ({| inspection := InspectionIncomplete t; inspected_path := EmptyString |}, w)
          else None
      | None => Some ({| inspection := InspectionClean; inspected_path := EmptyString |}, w)
      end
  | LoadConfig => Some (ConfigLoaded (cfg w), w)
  | CaptureRoot at_path => Some (Ok (match dirs w at_path with InPlace i => Some i | _ => None end), w)
  | RevalidateRoot root =>
      match root_identity root, dirs w (root_path root) with
      | None, InPlace _ => None
      | None, _ => Some (Ok tt, w)
      | Some i, InPlace j => if eqb i j then Some (Ok tt, w) else None
      | Some _, _ => None
      end
  | ObserveRoot root _ _ => Some (Some (observation root (dirs w (root_path root))), w)
  | DeleteRoot root _ _ =>
      let gone := Some (Ok tt, set_dir (root_path root) Nothing w) in
      match root_identity root, dirs w (root_path root) with
      | _, Nothing => gone
      | Some i, InPlace j | Some i, Moved j => if eqb i j then gone else None
      | None, _ => None
      end
  | CreateTombstone invocation p => Some (Ok tt, begun (created_tombstone invocation p) w)
  | AdvanceTombstone invocation s =>
      match tombstone w, log w with
      | Some t, Some scan =>
          if String.eqb (t_invocation_id t) invocation then
            match advance_tombstone t s (Ok scan) with
            | Ok Unchanged => Some (Ok tt, w)
            | Ok (Replace next) => Some (Ok tt, set_tombstone next w)
            | Err _ => None
            end
          else None
      | _, _ => None
      end
  | LoadTombstone invocation =>
      match tombstone w with
      | Some t => if String.eqb (t_invocation_id t) invocation then Some (Some t, w) else None
      | None => None
      end
  | AuditPresence invocation =>
      match log w with Some scan => Some (Some (presence_in invocation scan), w) | None => None end
  | AuditedOutcome invocation =>
      match log w with
      | Some scan =>
          match find_in invocation (outcomes scan) with Some o => Some (Some o, w) | None => None end
      | None => None
      end
  | AppendIntent record =>
      match log w with Some scan => Some (Ok tt, set_log (appended record scan) w) | None => None end
  | AppendOutcome record =>
      match log w with Some scan => Some (Ok tt, set_log (appended record scan) w) | None => None end
  | StartMutation expected acct reassign =>
      if String.eqb (identity (cfg w)) expected then
        match apply_remove (cfg w) acct reassign with
        | Some (default, left_) =>
            Some (ReplacementWritten,
                  set_replacement
                    (Some {| identity := "replaced"; default_account := default; accounts := left_ |}) w)
        | None => None
        end
      else Some (IdentityDiffers (cfg w), w)
  | CommitMutation =>
      match replacement w with Some next => Some (None, set_cfg next w) | None => None end
  | ProveRemoteLogout _ _ => Some (([RemoteNotPresent], RemoteProof NotPresent), w)
  | Quiesce => Some (None, close_client w)
  | NewInvocation => if known_to sample_invocation w then None else Some (sample_invocation, w)
  | Challenge _ _ => Some (Answered (Some true), w)
  | HasTerminal => Some (false, w)
  | BeginAuditedTerminal => Some (TerminalDesignated, w)
  | CurrentTimestamp => Some ("2024-05-06T07:08:09Z", w)
  | SessionError _ => Some (tt, w)
  | SessionResult _ => Some (tt, w)
  | AuditFatal => Some (tt, w)
  | ShutdownAfterTerminal => Some (tt, w)
  end.

Lemma unknown_unused invocation w : known_to invocation w = false -> unused invocation w.
Proof.
  unfold known_to. intros H. apply orb_false_elim in H as [T L]. split.
  - intros t E. rewrite E in T. now apply String.eqb_neq in T.
  - intros scan E. rewrite E in L. apply orb_false_elim in L as [K F]. split; [easy|].
    unfold has_key in F. now destruct (find_in invocation (outcomes scan)).
Qed.

Lemma succeed_performs {X} (e : Effect X) w x w' : succeed e w = Some (x, w') -> performs e w (Returned x) w'.
Proof.
  destruct e; cbn [succeed performs answers]; try (now intros [= <- <-]).
  - destruct (tombstone w) as [t|] eqn:T; [destruct (finished t) eqn:F; [|destruct (String.eqb (t_account t) acct) eqn:A]|];
      try discriminate; intros [= <- <-]; cbn; unfold idle; rewrite ?T; split; try easy.
    + now intros ? [= <-].
    + apply String.eqb_eq in A. now split.
  - intros [= <- <-]. split; [easy|]. now destruct (dirs w path).
  - destruct (root_identity root) as [i|], (dirs w (root_path root)) as [|j|j]; try discriminate;
      try (destruct (eqb i j) eqn:E; [apply eqb_eq in E|discriminate]); now intros [= <- <-].
  - destruct (root_identity root) as [i|] eqn:R, (dirs w (root_path root)) as [|j|j] eqn:D; try discriminate;
      try (destruct (eqb i j) eqn:E; [apply eqb_eq in E as ->|discriminate]); intros [= <- <-]; exists Nothing;
      (split; [now econstructor|easy]).
  - intros [= <- <-]. auto.
  - destruct (tombstone w) as [t|] eqn:T; [|discriminate]. destruct (log w) as [scan|] eqn:L; [|discriminate].
    destruct (String.eqb (t_invocation_id t) invocation) eqn:I; [apply String.eqb_eq in I|discriminate].
    destruct (advance_tombstone t s (Ok scan)) as [adv|] eqn:A; [|discriminate].
    destruct adv as [|next] eqn:Ad; intros [= <- <-]; exists t, (Ok scan), adv; subst adv; rewrite L;
      repeat split; auto; congruence.
  - destruct (tombstone w) as [t|] eqn:T; [|discriminate].
    destruct (String.eqb (t_invocation_id t) invocation) eqn:I; [apply String.eqb_eq in I|discriminate].
    now intros [= <- <-].
  - destruct (log w) as [scan|]; [|discriminate]. intros [= <- <-]. eauto.
  - destruct (log w) as [scan|]; [|discriminate]. destruct (find_in _ _) eqn:F; [|discriminate]. intros [= <- <-]. eauto.
  - destruct (log w) as [scan|] eqn:L; [|discriminate]. intros [= <- <-]. right. exists scan, scan, (appended record scan).
    auto using rotated_refl.
  - destruct (log w) as [scan|] eqn:L; [|discriminate]. intros [= <- <-]. exists (appended record scan). split; [easy|].
    split; [right; right; eauto|]. right. eauto.
  - destruct (String.eqb (identity (cfg w)) expected) eqn:E.
    + apply String.eqb_eq in E. destruct (apply_remove _ _ _) as [[default left_]|] eqn:A; [|discriminate].
      intros [= <- <-]. exists "replaced", default, left_. auto.
    + apply String.eqb_neq in E. now intros [= <- <-].
  - destruct (replacement w) as [next|]; [|discriminate]. intros [= <- <-].
    split; [right; left|]; exists next; auto.
  - destruct (known_to sample_invocation w) eqn:K; [discriminate|]. intros [= <- <-]. split; [easy|].
    now apply unknown_unused.
Qed.

(** The first [n] effects of a program, as long as they succeed. *)
Fixpoint run {A} (n : nat) (p : prog Effect A) (w : Disk) : prog Effect A * Disk :=
  match n, p with
  | Datatypes.S n, Do e k =>
      match succeed e w with Some (x, w') => run n (k (Returned x)) w' | None => (p, w) end
  | _, _ => (p, w)
  end.

Lemma run_attains {A} n (p : prog Effect A) w : reaches p w (fst (run n p w)) (snd (run n p w)).
Proof.
  revert p w. induction n as [|n IH]; intros [a|X e k] w; cbn [run]; try constructor.
  destruct (succeed e w) as [[x w']|] eqn:S; [|constructor].
  apply succeed_performs in S. now apply (reaches_step X e k w (Returned x) w').
Qed.

(** * A removal *)

Definition sample_coordinator : Coordinator :=
  {| account_ := "work";
     environment_ :=
       {| xdg_runtime_dir := None; xdg_config_home := None; xdg_data_home := None; xdg_state_home := None;
          tmpdir := None; home := "/home/u"; uid := 1000; test_dc := false |};
     store_path := "/home/u/.config/tgcli/config.toml";
     journal_directory := "/home/u/.local/state/tgcli/removals" |}.

Definition remove_request (dry keep : bool) : Request :=
  {| id := 1; req_account := "work"; command := ["account"; "remove"];
     args := jobject [("account", JString "work"); ("global_account_supplied", JBool false);
                      ("keep_session", JBool keep); ("reassign_default", JString "main")];
     context := {| tty := false; cjson := false; yes := true; dry_run := dry; timeout_seconds := None;
                   cwd := "/"; media_dir := None; write_authority := AuthorityGrant;
                   idempotency_key := None |};
     source_bytes_ := 100; admitted_facts_ := None |}.

Definition data_dir : string := "/home/u/.local/share/tgcli/accounts/work".
Definition state_dir : string := "/home/u/.local/state/tgcli/accounts/work".

Definition sample_world : Disk :=
  {| tombstone := None; log := Some empty_scan;
     cfg :=
       {| identity :=
            "sha256:0123456789abcdef0123456789abcdef0123456789abcdef0123456789abcdef;dev:1;ino:22;size:90;ctime_ns:3";
          default_account := Some "work"; accounts := [("main", false); ("work", true)] |};
     replacement := None;
     dirs := fun p =>
       if String.eqb p data_dir then InPlace {| path := data_dir; device := 1; inode := 30; owner := 1000 |}
       else if String.eqb p state_dir then InPlace {| path := state_dir; device := 1; inode := 31; owner := 1000 |}
       else Nothing;
     quiesced := false |}.

(** The world after the first [n] effects of an attempt, and the effect that comes next. *)
Definition attempt (n : nat) := run n (remove sample_coordinator 4 (remove_request false false)) sample_world.

Lemma sample_reachable : reachable sample_coordinator sample_world.
Proof. apply reachable_idle. intros t [=]. Qed.

Lemma attempt_reaches n :
  reaches (remove sample_coordinator 4 (remove_request false false)) sample_world (fst (attempt n)) (snd (attempt n)).
Proof. apply run_attains. Qed.

(** The account is gone, and the journal says so. *)
Definition gone (w : Disk) : bool :=
  match tombstone w with
  | Some t =>
      finished t && config_is_removed t (cfg w)
      && match dirs w (data_path t), dirs w (state_path t) with Nothing, Nothing => true | _, _ => false end
  | None => false
  end.

(** Wherever the attempt stops, another one finishes the removal. *)
Example every_stop_resumes :
  forallb (fun n =>
    gone (snd (run 80 (remove sample_coordinator 4 (remove_request false false)) (restarted (snd (attempt n))))))
    (seq 0 58) = true.
Proof. vm_compute. reflexivity. Qed.

(** * Witnesses *)

Lemma removal_order_witness : exists root invocation k w',
  reaches (remove sample_coordinator 4 (remove_request false false)) sample_world (Do (DeleteRoot root invocation DataRoot) k) w'
  /\ in_order (DeleteRoot root invocation DataRoot) w'.
Proof.
  assert (match fst (attempt 44) with Do (DeleteRoot _ _ DataRoot) _ => True | _ => False end) as H
    by (vm_compute; exact I).
  pose proof (attempt_reaches 44) as R. destruct (fst (attempt 44)) as [|X e k]; [destruct H|].
  destruct e; try exact (False_ind _ H). destruct label; [|exact (False_ind _ H)].
  exists root, invocation, k, (snd (attempt 44)). split; [exact R|].
  exact (removal_order _ _ _ _ _ _ _ _ sample_reachable R).
Defined.

Lemma removal_success_honest_witness : exists value k w',
  reaches (remove sample_coordinator 4 (remove_request false false)) sample_world (Do (SessionResult value) k) w'
  /\ (dry_run (context (remove_request false false)) = true \/ all_done w').
Proof.
  assert (match fst (attempt 55) with Do (SessionResult _) _ => True | _ => False end) as H
    by (vm_compute; exact I).
  pose proof (attempt_reaches 55) as R. destruct (fst (attempt 55)) as [|X e k]; [destruct H|].
  destruct e; try exact (False_ind _ H). exists value, k, (snd (attempt 55)). split; [exact R|].
  exact (removal_success_honest _ _ _ _ _ _ _ _ sample_reachable R).
Defined.

(** The attempt up to the commit of the configuration, which is rolled back; the
    account and its directories are as they were. *)
Definition before_commit : nat := 37.

Definition after_rollback : Disk :=
  restarted (set_cfg (restored "rolled back" (cfg (snd (attempt before_commit)))) (snd (attempt before_commit))).

Lemma reaches_snoc {A X} (p : prog Effect A) w (e : Effect X) k w1 a w2 :
  reaches p w (Do e k) w1 -> performs e w1 a w2 -> reaches p w (k a) w2.
Proof.
  intros R P. remember (Do e k) as q eqn:E. revert E. induction R as [q w|Y f c w b w' q w'' Q R IH]; intros ->.
  - apply (reaches_step X e k w a w2); [exact P|constructor].
  - apply (reaches_step Y f c w b w'); auto.
Qed.

Lemma rollback_reachable : reachable sample_coordinator after_rollback.
Proof.
  unfold after_rollback. pose proof (attempt_reaches before_commit) as R.
  assert (match fst (attempt before_commit) with Do CommitMutation _ => True | _ => False end) as H
    by (vm_compute; exact I).
  destruct (fst (attempt before_commit)) as [|X e k]; [destruct H|]. destruct e; try exact (False_ind _ H).
  refine (reachable_attempt _ _ _ _ _ _ sample_reachable (reaches_snoc _ _ _ _ _ Threw _ R _)).
  split; [right; right; eauto|exact I].
Qed.

Lemma recovery_ambiguous_iff_witness : exists t scan,
  tombstone after_rollback = Some t /\ decide_removal_recovery t (facts_of t after_rollback scan) = None.
Proof.
  pose proof rollback_reachable as R.
  assert (match tombstone after_rollback, log after_rollback with
          | Some t, Some _ =>
              eqb (stage t) ConfigRemoveStarted
              && has_key (t_account t) (accounts (cfg after_rollback))
              && match resulting_default (cfg after_rollback) (t_account t) (Some "main") with
                 | Ok default => eqb default (reassign_default (input_ (plan t)))
                 | Err _ => false
                 end
              && negb (String.eqb (identity (cfg after_rollback)) (config_snapshot (input_ (plan t))))
          | _, _ => false
          end = true) as H by (vm_compute; reflexivity).
  destruct (tombstone after_rollback) as [t|] eqn:T; [|discriminate].
  destruct (log after_rollback) as [scan|] eqn:L; [|discriminate]. exists t, scan. split; [reflexivity|].
  apply andb_prop in H as [H N]. apply andb_prop in H as [H D]. apply andb_prop in H as [E K].
  apply eqb_eq in E. apply negb_true_iff, String.eqb_neq in N.
  apply (recovery_ambiguous_iff sample_coordinator after_rollback t scan R T); [|exact L|].
  { unfold finished. now rewrite E. }
  split; [exact E|]. split; [|exact N]. exists (config_snapshot (input_ (plan t))). split.
  - unfold config_is_captured. cbn [restored identity accounts]. now rewrite String.eqb_refl, K.
  - exists (Some "main").
    change (resulting_default (restored _ (cfg after_rollback))) with (resulting_default (cfg after_rollback)).
    destruct (resulting_default (cfg after_rollback) _ _) as [default|]; [|discriminate D].
    apply eqb_eq in D. now rewrite D.
Defined.

Lemma removal_returns_witness : exists removal invocation authority confirmation w mutation s w',
  reaches (remove_account sample_coordinator removal invocation authority confirmation 4
             (present (p_recovery removal)) (initial_state removal)) w (Ret (Value (mutation, s))) w'
  /\ mutation <> None.
Proof.
  pose (admission := run 10 (admit_removal sample_coordinator (remove_request false false)) sample_world).
  pose proof (run_attains 10 (admit_removal sample_coordinator (remove_request false false)) sample_world) as A.
  fold admission in A.
  assert (match fst admission with
          | Ret (Value (removal, invocation, a, f)) =>
              match fst (run 80 (remove_account sample_coordinator removal invocation a f 4
                                   (present (p_recovery removal)) (initial_state removal)) (snd admission)) with
              | Ret (Value _) => True
              | _ => False
              end
          | _ => False
          end) as H by (vm_compute; exact I).
  destruct (fst admission) as [[[[[removal invocation] a] f]|r|]|X e k]; try exact (False_ind _ H).
  set (p := remove_account sample_coordinator removal invocation a f 4 (present (p_recovery removal))
              (initial_state removal)) in *.
  pose proof (run_attains 80 p (snd admission)) as R.
  destruct (fst (run 80 p (snd admission))) as [[[mutation s]|r|]|X e k]; try exact (False_ind _ H).
  exists removal, invocation, a, f, (snd admission), mutation, s, (snd (run 80 p (snd admission))).
  split; [exact R|]. refine (removal_returns _ (remove_request false false) _ _ _ _ _ _ _ _ _ _ _ R); [|auto].
  exists sample_world, (a, f). split; [exact sample_reachable|exact A].
Defined.

Definition sample_plan : AccountRemovePlan :=
  {| input_ := {| account := "work"; keep_session := false; delete_paths := (data_dir, state_dir);
                  config_path := "/home/u/.config/tgcli/config.toml"; config_snapshot := identity (cfg sample_world);
                  data_root := None; state_root := None; reassign_default := Some "main" |} |}.

Lemma other_identity_blocks_removal_witness :
  decide_removal_recovery (created_tombstone sample_invocation sample_plan)
    {| config := {| identity := "rolled back"; default_account := Some "work"; accounts := [("main", false); ("work", true)] |};
       data := PlannedAbsent; state := PlannedAbsent; audit := {| has_intent := true; has_outcome := false |} |} = None.
Proof.
  apply (other_identity_blocks_removal (created_tombstone sample_invocation sample_plan)
    {| config := cfg sample_world; data := PlannedAbsent; state := PlannedAbsent;
       audit := {| has_intent := true; has_outcome := false |} |}); [cbn; lia|reflexivity|reflexivity|discriminate].
Defined.
